(* ===== verification/_CoqProject ===== *)
-Q . S2P
Prelude.v
Externals.v
Lifecycle.v
Types.v
Digest.v
Trust.v
Records.v
Secret.v
Persistence.v
Reload.v
Store.v
StoreFacts.v
Recovery.v
Events.v
World.v
Changeset.v
Contracts.v
Apply.v
Operation.v
Handlers.v
Protocol.v
Conformance.v
ConformanceApply.v
Soundness.v
Durability.v
System.v
Ledger.v
Guarantees.v
Scenario.v
Witnesses.v
Json.v
Text.v
Scope.v
Tokens.v
TokenFile.v
TokenFacts.v
TokenCommands.v
RateLimit.v
Sessions.v
Boundary.v
TargetLimiter.v
BoundaryWitnesses.v
Canonical.v
Evidence.v
Recorder.v
Spool.v
Delivery.v
DeliveryFacts.v
Pipeline.v
EvidenceWitnesses.v
DeliveryWitnesses.v
DeviceLog.v
Verify.v
VerifyWitnesses.v
Policy.v
XmlPath.v
Job.v
Oidc.v
ServiceWitnesses.v
Slice.v
Denylist.v
RedactText.v
RedactJson.v
RedactXml.v
Redaction.v
JunosRedact.v
ToolResult.v
XmlJson.v
Scp.v
ScpFacts.v
KnownHosts.v
OpenApi.v
HttpClient.v
RedactWitnesses.v
TransferWitnesses.v
HttpWitnesses.v
Inventory.v
Migration.v
DeviceLock.v
InventoryWitnesses.v
