(* ===== verification/Prelude.v ===== *)
(** * mecmcp: change control, its evidence and its boundary, verified

    mecmcp is a Rust workspace of shared crates for servers that let agents
    operate network devices.  This library models the parts that decide what
    may happen to a device and what is remembered of it, and proves what they
    promise.  The paths below are under src/crates/.

    ** The program and its parts

    A request reaches a server through the HTTP boundary (mecmcp-transport),
    which authenticates a bearer token (mecmcp-auth, or mecmcp-oidc for those of
    an identity provider), charges rate, session and target limits, and refuses
    what is outside the token's scope.  A handler
    checks the command or document against a policy (mecmcp-policy) and turns a
    change into a change set or an operation (mecmcp-changeset): planned,
    approved by a second person, claimed once, staged on the device, committed;
    vendor jobs are waited for by polling (mecmcp-job).
    The coordinator keeps these records in memory and in one state file.  Each
    step is recorded as evidence (mecmcp-audit): a hash chain in signed
    segments, spooled to an outbox, delivered to an audit table, and checked
    later by mecmcp-verify, also against the device's own log.
    What a device answers is scrubbed of secrets (mecmcp-redact), put between
    trust tags and shaped into the result of the tool (mecmcp-server).  Devices
    and services are reached over HTTP (mecmcp-http, with the paths of
    mecmcp-openapi) and files are moved over SSH (mecmcp-scp).  Which devices
    there are is read from an inventory file (mecmcp-inventory), and processes
    that must not work on one device at once take its lock (mecmcp-device).

    ** How code became definitions

    Pure functions are functions of the same name.  A fallible one returns
    [result], with [let?], [check?] and [ensure] for the question mark and the
    early returns (this file).  A method that holds a lock from its first read
    to its last write is one function of the state; where other threads can run
    in between, it is cut there, and the pieces are the steps of a relation or
    the questions of a tree.  What a write does to a file is decided by a fate
    that the theorems quantify over: it may fail before, half way, or after it
    took effect.  Widths and saturation are kept where the code relies on them
    (RateLimit.v, Text.v, Delivery.v); text is bytes, with UTF-8 and Unicode
    white space written out (Text.v, Spool.v).

    Code that is not in the repository is a class of operations, and what the
    program relies on a class of laws beside it: JSON texts, SHA-256, HMAC and
    URLs (Externals.v), the token file's formats (TokenFile.v), string escaping
    (Canonical.v), Ed25519 (Recorder.v), line encodings (Spool.v), the
    audit service (Delivery.v), globs (Policy.v), XML readers and writers
    (XmlPath.v, RedactXml.v), JSON web tokens (Oidc.v), SSH keys (KnownHosts.v)
    and URLs (HttpClient.v).  What a peer sends on an SSH channel, and which
    operation of a transfer is cancelled or fails, is quantified over (Scp.v).
    The [Witnesses] files instantiate the classes with small
    functions that satisfy the laws, and apply the theorems to runs evaluated
    with them.  SHA-256 is never assumed injective: theorems conclude with
    equality or with an explicit collision.

    ** Files

    Change control, mecmcp-changeset:
    - Lifecycle.v lifecycle.rs; Types.v types.rs, the records of records.rs and
      the attribution of mecmcp-audit; Digest.v digest.rs; Records.v the checks
      of records.rs; Persistence.v and Reload.v persistence.rs; Secret.v the
      hardened reader of mecmcp-secret/src/lib.rs.
    - Store.v and StoreFacts.v coordinator.rs, every method under its mutex;
      Recovery.v start-up, recovery.rs and state_lock.rs.
    - Events.v and World.v the interface handlers are written against and the
      world that answers; Changeset.v changeset.rs; Apply.v apply.rs;
      Operation.v operation.rs and transaction.rs.
    - Protocol.v, Conformance.v, ConformanceApply.v, Soundness.v, Durability.v,
      System.v and Ledger.v the proof about interleavings: what a handler owes
      and may assume at each question, that each handler keeps it, and that
      the world does.
    - Contracts.v, Handlers.v and Guarantees.v the theorems; Scenario.v and
      Witnesses.v runs.  DeviceLog.v commit_metadata.rs, and device_log.rs of
      mecmcp-audit.

    Boundary, mecmcp-auth and mecmcp-transport:
    - Scope.v scope.rs, grant.rs, token.rs, bearer.rs; Tokens.v entry.rs,
      store.rs and mecmcp-server/src/authorize.rs; TokenFile.v, TokenFacts.v
      and TokenCommands.v file.rs.
    - RateLimit.v config.rs and rate_limit.rs; Sessions.v session.rs;
      Boundary.v preflight.rs, concurrency.rs, auth.rs and the extraction of
      target.rs; TargetLimiter.v its limiter; BoundaryWitnesses.v.
    - Policy.v mecmcp-policy/src/lib.rs; XmlPath.v xml_path.rs;
      Trust.v mecmcp-redact/src/trust.rs.
    - Oidc.v cache.rs, verify.rs, claims.rs, error.rs and discovery.rs of
      mecmcp-oidc; Job.v mecmcp-job/src/lib.rs; ServiceWitnesses.v for these
      and the policies.

    Output, mecmcp-redact and mecmcp-server:
    - Slice.v byte offsets, UTF-8 and slices of [str]; Denylist.v denylist.rs
      and shape.rs; RedactText.v text.rs; RedactJson.v json.rs, profile.rs and
      projection.rs; RedactXml.v xml.rs; JunosRedact.v junos.rs; Redaction.v
      policy.rs, digest.rs and the entry points of lib.rs.
    - ToolResult.v mecmcp-server/src/lib.rs; XmlJson.v xml_json.rs;
      RedactWitnesses.v.

    Outbound:
    - Scp.v the reader, the protocol and the transfers of mecmcp-scp/src/scp.rs
      as operations on the state of a transfer, ScpFacts.v what they do;
      KnownHosts.v its host key verification; TransferWitnesses.v.
    - OpenApi.v mecmcp-openapi/src/lib.rs; HttpClient.v mecmcp-http/src/lib.rs;
      HttpWitnesses.v.

    Devices:
    - Inventory.v lib.rs of mecmcp-inventory and the reading and reloading of
      its file.rs; Migration.v the system calls of [write_atomic] and
      [migrate_to_canonical] of file.rs on a directory, others acting before
      each.
    - DeviceLock.v mecmcp-device/src/flock.rs, tasks of many processes on one
      lock directory as an executable step; InventoryWitnesses.v.

    Evidence, mecmcp-audit:
    - Canonical.v canonical.rs; Evidence.v evidence.rs; Recorder.v recorder.rs
      and the signatures and key files of signing.rs.
    - Spool.v sinks/delivery_ledger.rs and the outbox of sinks/ssdf.rs;
      Delivery.v and DeliveryFacts.v the delivery of ssdf.rs; Pipeline.v
      service.rs; Verify.v bin/mecmcp-verify.rs; EvidenceWitnesses.v,
      DeliveryWitnesses.v, VerifyWitnesses.v.

    Json.v and Text.v hold what several of them use of serde_json values and
    of [str].

    ** What the theorems show

    - Guarantees.v, about every schedule of every list of requests, with any
      clock, device, cancelled futures and failing writes: an approval is
      claimed and staged at most once, also across a restart; what is staged
      is what was approved; a commit is recorded in the file first, and a
      crash during it blocks the device until someone decides; records follow
      their life cycles and the state file can always be read back.
    - Contracts.v and Handlers.v, about single calls and sequences of calls:
      the store refines the life cycle, which terminates; devices stay
      exclusive; digests bind; encodings read back; approval needs a second
      person.
    - Boundary.v, RateLimit.v, Sessions.v, TargetLimiter.v, TokenCommands.v: a
      dispatched call is within its token's scope and charged to its caller;
      rates, sessions and target permits stay within their limits in every
      interleaving; token commands do to the file what they promise.
    - Policy.v, XmlPath.v: exactly what an allowlist, a rule set and a read
      policy let through, and that the optimised walks agree with the plain
      reading of a document.
    - Oidc.v, Job.v: an accepted token was signed with a recent key of the
      configured issuer; waiting for a job ends, and when its value counts.
    - Recorder.v, Spool.v, DeliveryFacts.v, Pipeline.v: one unbroken signed
      chain whatever is refused; files survive an interrupted write; every
      segment reaches the table once and in order, and all of them when the
      service answers; recorder, spool and delivery compose, and the chain
      continues over restarts.
    - RedactText.v, RedactJson.v, RedactXml.v, JunosRedact.v, Redaction.v: what
      is shown does not depend on a secret where the code recognises one, every
      span it cuts at is a character boundary, structure is kept, and redaction
      is not turned off unnoticed.  ToolResult.v, XmlJson.v: a result is whole
      or refused, a tagged block stays closed, a document becomes the value of
      its tree.
    - ScpFacts.v, KnownHosts.v: a transfer that succeeds moved exactly the
      announced bytes, however they were cut into messages; one that does not
      never leaves data to more readers than before; with a peer that behaves
      it succeeds; exactly which host keys are accepted.  OpenApi.v,
      HttpClient.v: a value stays in its path segment, diagnostics show no
      credential, bodies, load and retries are bounded.
    - Inventory.v, Migration.v: exactly which files load and as what; readers
      never see a mixture of two files; a migration keeps devices, policy,
      owner and mode, completes where it should, leaves the file alone when it
      fails before the replacement, and can be repeated.  DeviceLock.v: a guard
      excludes every other task of every process, waiting is bounded, and a
      lock is free again only through its holder.
    - Canonical.v, Evidence.v, Verify.v, DeviceLog.v: a head hash names its
      history; what was recorded verifies, what verifies was recorded, and a
      commit comment leads back to its request.

    ** Bounds and fuel

    Few functions take fuel.  [Spool.scan_back] reads a file backwards in
    chunks and is called with one more than the length of the file; a lemma
    shows that this finds the last line break.  [Trust.unescape] is the
    inverse in an injectivity proof and is given at least the length of the text.
    [Job.poll_loop] takes the number of passes; the theorem is that it returns
    when there are more than the deadline has room for.
    [JunosRedact.redact_from] gets the length of the line, [OpenApi.expand_from]
    that of the template, and [Scp.read_exact_from], [Scp.stream_file] and
    [Scp.receive_file] the number of bytes to move; each round consumes at least
    one, and lemmas or the theorems on completed runs show that this is enough.
    Everything else is structural.  Limits are those of the code
    ([MAX_DEPTH], [MAX_ELEMENTS], [MAX_CANONICAL_DEPTH], [MAX_SCOPE_NAMES] and
    so on), or fields of a configuration where the code reads them from one.

    ** Not modelled

    Waiting and time-outs of the runtime, sockets, TLS and HTTP framing (the
    boundary starts at a parsed request); the drain thread's timing; the
    forward sink, a best-effort copy; tracing, metrics and start-up reports;
    command-line parsing and printed reports; key generation; the fetches behind
    the OIDC key source; opening and authenticating an SSH connection, and the
    settings that reqwest's builder is given.  Secret naming and the
    vendor back ends are not modelled: they neither keep the records above nor
    decide about them. *)

From stdpp Require Export base gmap strings list pretty sorting.
From Stdlib Require Export NArith Lia.
From Stdlib Require Import Ascii.

Open Scope string_scope.

(** ** Results

    Rust's [Result<A, E>].  [let?] is the [?] operator, [ensure] is an early
    return of an error when a condition fails. *)

Inductive result (A E : Type) : Type :=
| Ok (a : A)
| Err (e : E).
Arguments Ok {A E} a.
Arguments Err {A E} e.

#[export] Instance result_eq_dec {A E} `{EqDecision A, EqDecision E} :
  EqDecision (result A E).
Proof. solve_decision. Defined.

Definition result_bind {A B E} (c : result A E) (k : A -> result B E) : result B E :=
  match c with Ok a => k a | Err e => Err e end.

Definition map_err {A E F} (f : E -> F) (c : result A E) : result A F :=
  match c with Ok a => Ok a | Err e => Err (f e) end.

Definition is_ok {A E} (c : result A E) : bool :=
  match c with Ok _ => true | Err _ => false end.

Definition ok_or {A E} (o : option A) (e : E) : result A E :=
  match o with Some a => Ok a | None => Err e end.

Declare Scope rust_scope.
Delimit Scope rust_scope with rust.
Notation "'let?' x ':=' c 'in' k" := (result_bind c (fun x => k))
  (at level 10, x pattern, c at level 200, k at level 200) : rust_scope.
Notation "'check?' c ';' k" := (result_bind c (fun _ => k))
  (at level 10, c at level 99, k at level 200) : rust_scope.
Notation "'ensure' c 'else' e ';' k" := (if c then k else Err e)
  (at level 10, c at level 99, e at level 99, k at level 200) : rust_scope.
Open Scope rust_scope.

Lemma result_bind_Ok {A B E} (c : result A E) (k : A -> result B E) b :
  result_bind c k = Ok b <-> exists a, c = Ok a /\ k a = Ok b.
Proof. destruct c; simpl; split; [eauto| |done|]; intros (?&?&?); congruence. Qed.

Lemma result_bind_Err {A B E} (c : result A E) (k : A -> result B E) e :
  result_bind c k = Err e <-> c = Err e \/ exists a, c = Ok a /\ k a = Err e.
Proof.
  destruct c; simpl; split; [eauto| | |]; intros.
  - destruct H as [?|(?&?&?)]; congruence.
  - left; congruence.
  - destruct H as [?|(?&?&?)]; congruence.
Qed.

Lemma ensure_Ok {A E} (c : bool) (e : E) (k : result A E) a :
  (ensure c else e; k) = Ok a <-> c = true /\ k = Ok a.
Proof. destruct c; split; intros; destruct_and?; try done. Qed.

Lemma check_Ok {B E} (c : result unit E) (k : result B E) b :
  (check? c; k) = Ok b <-> c = Ok tt /\ k = Ok b.
Proof. rewrite result_bind_Ok. split; [intros ([]&?&?)|intros [??]]; eauto. Qed.

Lemma negb_bool_decide (P : Prop) `{Decision P} : negb (bool_decide P) = true <-> ~ P.
Proof. case_bool_decide; naive_solver. Qed.

Lemma ok_or_Ok {A E} (o : option A) (e : E) a : ok_or o e = Ok a <-> o = Some a.
Proof. destruct o; simpl; split; congruence. Qed.

Lemma map_err_Ok {A E F} (f : E -> F) (c : result A E) a :
  map_err f c = Ok a <-> c = Ok a.
Proof. destruct c; simpl; split; congruence. Qed.

(** Collecting a list of results stops at the first error, as
    [collect::<Result<Vec<_>, _>>] does. *)
Fixpoint collect {A E} (l : list (result A E)) : result (list A) E :=
  match l with
  | [] => Ok []
  | c :: l => let? a := c in let? r := collect l in Ok (a :: r)
  end.

Lemma collect_Ok {A E} (l : list (result A E)) r :
  collect l = Ok r <-> l = Ok <$> r.
Proof.
  revert r; induction l as [|c l IH]; intros r; simpl.
  - destruct r; simpl; split; congruence.
  - rewrite result_bind_Ok; split.
    + intros (a&->&(r'&Hr%IH&[= <-])%result_bind_Ok). by rewrite Hr.
    + destruct r as [|a r]; simpl; [done|]. intros [= -> ->].
      exists a; split; [done|]. apply result_bind_Ok. exists r. by rewrite IH.
Qed.

(** ** Machine integers

    [u64] values are [N]; the only arithmetic the modelled code does on them
    that can leave the range is [saturating_add]. *)

Definition u64_max : N := 18446744073709551615.
Definition usize_max : N := u64_max.

Definition saturating_add (a b : N) : N := N.min (a + b) u64_max.

Lemma saturating_add_bound a b : (saturating_add a b <= u64_max)%N.
Proof. unfold saturating_add. lia. Qed.

Lemma saturating_add_ge a b : (a <= u64_max -> a <= saturating_add a b)%N.
Proof. unfold saturating_add. lia. Qed.

(** ** Strings

    A Rust [String] is its UTF-8 bytes; [string] is a list of 8-bit
    characters, so lengths, equality and the bytewise order agree. *)

Notation bytes := string (only parsing).

Definition str_len (s : string) : N := N.of_nat (String.length s).
Definition is_empty_str (s : string) : bool :=
  match s with EmptyString => true | _ => false end.

Lemma is_empty_str_spec s : is_empty_str s = true <-> s = "".
Proof. destruct s; split; simpl; congruence. Qed.

Lemma str_app_nil t : "" +:+ t = t.
Proof. done. Qed.

Lemma str_app_cons c s t : String c s +:+ t = String c (s +:+ t).
Proof. done. Qed.

Lemma str_app_nil_r s : s +:+ "" = s.
Proof. induction s as [|c s IH]; [done|]. by rewrite str_app_cons, IH. Qed.

Lemma str_app_assoc a b c : (a +:+ b) +:+ c = a +:+ (b +:+ c).
Proof. induction a as [|x a IH]; [done|]. by rewrite !str_app_cons, IH. Qed.

Lemma str_app_inj_l s t t' : s +:+ t = s +:+ t' -> t = t'.
Proof. induction s as [|c s IH]; [done|]. rewrite !str_app_cons. intros [= H]. auto. Qed.

Fixpoint str_forall (P : ascii -> bool) (s : string) : bool :=
  match s with
  | EmptyString => true
  | String c s => P c && str_forall P s
  end.

Fixpoint str_exists (P : ascii -> bool) (s : string) : bool :=
  match s with
  | EmptyString => false
  | String c s => P c || str_exists P s
  end.

Lemma str_forall_app P s t :
  str_forall P (s +:+ t) = str_forall P s && str_forall P t.
Proof.
  induction s as [|c s IH]; [done|].
  rewrite str_app_cons. simpl. by rewrite IH, andb_assoc.
Qed.

Lemma str_forall_weaken (P Q : ascii -> bool) s :
  (forall c, P c = true -> Q c = true) ->
  str_forall P s = true -> str_forall Q s = true.
Proof. induction s; simpl; [done|]. rewrite !andb_true_iff. naive_solver. Qed.

Lemma str_forall_exists P s :
  str_forall (fun c => negb (P c)) s = negb (str_exists P s).
Proof. induction s as [|c s IH]; simpl; [done|]. by rewrite IH, negb_orb. Qed.

Lemma str_length_app s t :
  String.length (s +:+ t) = (String.length s + String.length t)%nat.
Proof. induction s as [|c s IH]; [done|]. rewrite str_app_cons. simpl. by rewrite IH. Qed.

Lemma str_app_inj_len s t s' t' :
  String.length s = String.length s' -> s +:+ t = s' +:+ t' -> s = s' /\ t = t'.
Proof.
  revert s'; induction s as [|c s IH]; intros [|c' s']; try done.
  rewrite !str_app_cons. simpl. intros [= Hl] [= -> Happ].
  by destruct (IH s' Hl Happ) as [-> ->].
Qed.

Lemma str_app_inj_r s s' t : s +:+ t = s' +:+ t -> s = s'.
Proof.
  intros Happ. apply (str_app_inj_len s t s' t); [|done].
  apply (f_equal String.length) in Happ. rewrite !str_length_app in Happ. lia.
Qed.

(** [str::strip_prefix]. *)
Fixpoint strip_prefix (p s : string) : option string :=
  match p, s with
  | EmptyString, _ => Some s
  | String a p, String b s => if Ascii.eqb a b then strip_prefix p s else None
  | _, _ => None
  end.

Lemma strip_prefix_Some p s t : strip_prefix p s = Some t <-> s = p +:+ t.
Proof.
  revert s; induction p as [|a p IH]; intros s; simpl.
  - rewrite str_app_nil. split; congruence.
  - rewrite str_app_cons. destruct s as [|b s]; [split; discriminate|].
    destruct (Ascii.eqb_spec a b) as [->|Hne].
    + rewrite IH. split; intros H; [by subst|]. by injection H.
    + split; [done|]. intros [= -> _]. done.
Qed.

Definition starts_with (p s : string) : bool :=
  match strip_prefix p s with Some _ => true | None => false end.

(** [str::contains] of one byte. *)
Definition contains_char (c : ascii) (s : string) : bool := str_exists (Ascii.eqb c) s.

Definition is_ascii_digit (c : ascii) : bool :=
  let n := N_of_ascii c in (48 <=? n)%N && (n <=? 57)%N.

(** [byte.is_ascii_digit() || matches!(byte, b'a'..=b'f')], the test every
    identifier and digest validator of the crate repeats. *)
Definition is_lower_hex (c : ascii) : bool :=
  let n := N_of_ascii c in is_ascii_digit c || ((97 <=? n)%N && (n <=? 102)%N).

(** [str::to_lowercase] and [trim_end_matches] on ASCII. *)
Definition to_ascii_lower (c : ascii) : ascii :=
  let n := N_of_ascii c in
  if (65 <=? n)%N && (n <=? 90)%N then ascii_of_N (n + 32) else c.

Fixpoint to_lowercase (s : string) : string :=
  match s with
  | EmptyString => EmptyString
  | String c s => String (to_ascii_lower c) (to_lowercase s)
  end.

Fixpoint trim_end_matches (c : ascii) (s : string) : string :=
  match s with
  | EmptyString => EmptyString
  | String d s =>
      match trim_end_matches c s with
      | EmptyString => if Ascii.eqb c d then EmptyString else String d EmptyString
      | t => String d t
      end
  end.

Definition str_join (sep : string) (l : list string) : string :=
  match l with
  | [] => ""
  | s :: l => foldl (fun acc x => acc +:+ sep +:+ x) s l
  end.

Definition dquote : string := String (ascii_of_nat 34) "".

(** [{:?}] of a string made of printable ASCII: quotes and backslashes are
    escaped.  It only reaches the text of error messages. *)
Fixpoint debug_escape (s : string) : string :=
  match s with
  | EmptyString => EmptyString
  | String c s =>
      if Ascii.eqb c (ascii_of_nat 34) || Ascii.eqb c (ascii_of_nat 92)
      then String (ascii_of_nat 92) (String c (debug_escape s))
      else String c (debug_escape s)
  end.
Definition str_debug (s : string) : string := dquote +:+ debug_escape s +:+ dquote.

(** The [n] low-order bytes of [x], most significant first, before [acc]. *)
Fixpoint be_bytes (n : nat) (x : N) (acc : bytes) : bytes :=
  match n with
  | O => acc
  | S n => be_bytes n (x / 256) (String (ascii_of_N (x mod 256)) acc)
  end.

Lemma be_bytes_len n x acc :
  String.length (be_bytes n x acc) = (n + String.length acc)%nat.
Proof.
  revert x acc; induction n as [|n IH]; intros x acc; simpl; [done|].
  rewrite IH. simpl. lia.
Qed.

#[global] Arguments be_bytes : simpl never.

(** ** Ordered maps

    [BTreeMap<String, V>] is a [gmap]; loops over it run in key order. *)

Definition key_le {V} (a b : string * V) : Prop := String.leb a.1 b.1 = true.
#[export] Instance key_le_dec {V} : RelDecision (@key_le V).
Proof. intros a b. unfold key_le. solve_decision. Defined.

Definition btree_list {V} (m : gmap string V) : list (string * V) :=
  merge_sort key_le (map_to_list m).
Definition btree_values {V} (m : gmap string V) : list V := (btree_list m).*2.

Lemma elem_of_btree_list {V} (m : gmap string V) k v :
  (k, v) ∈ btree_list m <-> m !! k = Some v.
Proof.
  unfold btree_list. rewrite (merge_sort_Permutation key_le (map_to_list m)).
  apply elem_of_map_to_list.
Qed.

Lemma elem_of_btree_values {V} (m : gmap string V) v :
  v ∈ btree_values m <-> exists k, m !! k = Some v.
Proof.
  unfold btree_values. rewrite list_elem_of_fmap. split.
  - intros ([k v']&->&H%elem_of_btree_list). eauto.
  - intros (k&H). exists (k, v). split; [done|]. by apply elem_of_btree_list.
Qed.

Lemma btree_list_NoDup {V} (m : gmap string V) : NoDup (btree_list m).*1.
Proof.
  unfold btree_list. rewrite (merge_sort_Permutation key_le (map_to_list m)).
  apply NoDup_fst_map_to_list.
Qed.

(** A loop that alters the bindings a list of distinct keys names. *)
Lemma lookup_foldl_alter {V W} (f : W -> V -> V) (l : list (string * W)) (m : gmap string V) k :
  NoDup l.*1 ->
  foldl (fun m p => alter (f p.2) p.1 m) m l !! k
  = match list_to_map (M := gmap string W) l !! k with
    | Some w => f w <$> m !! k
    | None => m !! k
    end.
Proof.
  revert m; induction l as [|[k' w] l IH]; intros m; [done|].
  rewrite fmap_cons, NoDup_cons. intros [Hnin Hnd]. simpl. rewrite IH by done.
  destruct (decide (k' = k)) as [->|Hne].
  - rewrite lookup_insert_eq, (proj1 (not_elem_of_list_to_map _ _)) by done.
    by rewrite lookup_alter_eq.
  - by rewrite lookup_insert_ne, lookup_alter_ne.
Qed.

(** A loop that inserts each element of a list under its own key. *)
Lemma lookup_foldl_insert {V} (key : V -> string) (l : list V) (m : gmap string V) k v :
  foldl (fun m r => <[key r := r]> m) m l !! k = Some v ->
  (v ∈ l /\ key v = k) \/ (m !! k = Some v /\ forall v', v' ∈ l -> key v' <> k).
Proof.
  revert m; induction l as [|r l IH]; intros m; simpl.
  { intros Hl. right. split; [done|]. intros v' Hv'. by apply elem_of_nil in Hv'. }
  intros [[Hin Hk]|[Hl Hne]]%IH.
  - left. split; [by apply elem_of_cons; right|done].
  - apply lookup_insert_Some in Hl as [[<- <-]|[Hne' Hl]].
    + left. split; [by apply elem_of_cons; left|done].
    + right. split; [done|]. intros v' [->|Hv']%elem_of_cons; auto.
Qed.

Lemma lookup_foldl_insert_None {V} (key : V -> string) (l : list V) (m : gmap string V) k :
  foldl (fun m r => <[key r := r]> m) m l !! k = None ->
  m !! k = None /\ forall v, v ∈ l -> key v <> k.
Proof.
  revert m; induction l as [|r l IH]; intros m; simpl.
  { intros Hl. split; [done|]. intros v' Hv'. by apply elem_of_nil in Hv'. }
  intros [Hl Hne]%IH. apply lookup_insert_None in Hl as [Hl Hk]. split; [done|].
  intros v [->|Hv]%elem_of_cons; auto.
Qed.

(** Loops that test a map and return early: the first binding, in key order,
    on which [f] returns an error decides. *)
Fixpoint try_each {A E} (f : A -> result unit E) (l : list A) : result unit E :=
  match l with
  | [] => Ok tt
  | a :: l => check? f a; try_each f l
  end.

Lemma try_each_Ok {A E} (f : A -> result unit E) l :
  try_each f l = Ok tt <-> forall a, a ∈ l -> f a = Ok tt.
Proof.
  induction l as [|x l IH]; simpl.
  - split; [|done]. intros _ a Ha. by apply elem_of_nil in Ha.
  - rewrite result_bind_Ok. setoid_rewrite IH. setoid_rewrite elem_of_cons. split.
    + intros ([]&?&?) a [->|?]; auto.
    + intros H. exists tt. auto.
Qed.

Definition any {A} (f : A -> bool) (l : list A) : bool := existsb f l.

Lemma any_true {A} (f : A -> bool) l : any f l = true <-> exists a, a ∈ l /\ f a = true.
Proof.
  unfold any. rewrite existsb_exists. by setoid_rewrite <-list_elem_of_In.
Qed.

Lemma any_false {A} (f : A -> bool) l : any f l = false <-> forall a, a ∈ l -> f a = false.
Proof.
  split.
  - intros H a Ha. destruct (f a) eqn:E; [|done].
    assert (any f l = true) by (apply any_true; eauto). congruence.
  - intros H. destruct (any f l) eqn:E; [|done].
    apply any_true in E as (a&Ha&E). rewrite H in E; done.
Qed.

(** ** Automation

    [rust] resolves the side conditions that recur: membership in explicit
    lists and bounds of saturating arithmetic; [rust_results] turns the
    success of a chain of fallible steps into the success of each. *)

Create HintDb rust.
#[export] Hint Resolve list_elem_of_here list_elem_of_further : rust.
#[export] Hint Resolve saturating_add_bound saturating_add_ge : rust.
#[export] Hint Rewrite @map_err_Ok @ok_or_Ok @collect_Ok : rust_results.

(** Take a successful chain of [let?], [check?] and [ensure] apart. *)
Ltac inv_ok :=
  repeat match goal with
  | H : result_bind _ _ = Ok _ |- _ =>
      let a := fresh "a" in let Ha := fresh "Hok" in apply result_bind_Ok in H as (a&Ha&H)
  | H : (if _ then _ else Err _) = Ok _ |- _ =>
      let Hc := fresh "Hc" in apply ensure_Ok in H as [Hc H]
  | H : map_err _ _ = Ok _ |- _ => apply map_err_Ok in H
  | H : ok_or _ _ = Ok _ |- _ => apply ok_or_Ok in H
  | H : Ok _ = Ok _ |- _ => injection H as H
  | H : Err _ = Ok _ |- _ => discriminate H
  end.

(** Boolean hypotheses as propositions. *)
Ltac bools :=
  repeat match goal with
  | H : negb _ = true |- _ => apply negb_true_iff in H
  | H : negb _ = false |- _ => apply negb_false_iff in H
  | H : bool_decide _ = true |- _ => apply bool_decide_eq_true in H
  | H : bool_decide _ = false |- _ => apply bool_decide_eq_false in H
  | H : _ && _ = true |- _ => apply andb_true_iff in H as [? ?]
  | H : _ || _ = false |- _ => apply orb_false_iff in H as [? ?]
  | H : map_err _ _ = Ok _ |- _ => apply map_err_Ok in H
  end.
