(* ===== verification/Externals.v ===== *)
(** * Third-party code the change-control crates call

    [serde_json], [sha2], [hmac] and [url] are not part of the repository.
    What the modelled code uses of them is a class of operations, and what it
    relies on is a class of laws; [toy_externals] is a concrete instance that
    satisfies the laws and runs, used by the concrete examples. *)

From S2P Require Import Prelude.
From Stdlib Require Import Ascii.

(** ** JSON values

    [serde_json::Value] with the [preserve_order] feature: an object keeps its
    keys in insertion order.  A number is its literal. *)

Inductive json : Type :=
| JNull
| JBool (b : bool)
| JNumber (repr : string)
| JString (s : string)
| JArray (l : list json)
| JObject (l : list (string * json)).

Definition json_ind_full (P : json -> Prop)
  (Hnull : P JNull) (Hbool : forall b, P (JBool b)) (Hnum : forall r, P (JNumber r))
  (Hstr : forall s, P (JString s))
  (Harr : forall l, Forall P l -> P (JArray l))
  (Hobj : forall l, Forall (fun kv => P kv.2) l -> P (JObject l)) :
  forall j, P j :=
  fix go j :=
    match j with
    | JNull => Hnull
    | JBool b => Hbool b
    | JNumber r => Hnum r
    | JString s => Hstr s
    | JArray l => Harr l ((fix all l : Forall P l :=
        match l with [] => Forall_nil_2 P | x :: l => Forall_cons_2 P x l (go x) (all l) end) l)
    | JObject l => Hobj l ((fix all l : Forall (fun kv => P kv.2) l :=
        match l with
        | [] => Forall_nil_2 _
        | x :: l => Forall_cons_2 _ x l (go x.2) (all l)
        end) l)
    end.

(** Serialization of the Rust types that reach [serde_json::to_vec]. *)
Definition json_u64 (n : N) : json := JNumber (pretty n).
Definition json_opt {A} (f : A -> json) (o : option A) : json :=
  match o with Some a => f a | None => JNull end.

Lemma json_u64_inj m n : json_u64 m = json_u64 n -> m = n.
Proof. unfold json_u64. intros [= H]. by apply (inj pretty) in H. Qed.

Lemma json_opt_str_inj o p : json_opt JString o = json_opt JString p -> o = p.
Proof. destruct o, p; simpl; congruence. Qed.

Lemma json_opt_u64_inj o p : json_opt json_u64 o = json_opt json_u64 p -> o = p.
Proof.
  destruct o, p; simpl; intros H; try done; try discriminate.
  f_equal. by apply json_u64_inj.
Qed.

(** A parsed [url::Url], the components the code reads. *)
Record url := Url {
  url_scheme : string;
  url_host_str : option string;
  url_port : option N;
  url_path : string;
}.

Class Externals := {
  (** [serde_json::to_vec]. *)
  to_vec : json -> bytes;
  (** [Sha256::digest]. *)
  sha256 : bytes -> bytes;
  (** [Hmac<Sha256>], key first. *)
  hmac_sha256 : bytes -> bytes -> bytes;
  (** [url::Url::parse], an error as its text. *)
  url_parse : string -> result url string;
}.

Class ExternalsLaws `(Externals) : Prop := {
  (** Serialized JSON is unambiguous. *)
  to_vec_inj : Inj (=) (=) to_vec;
  (** SHA-256 and HMAC-SHA256 produce 32 bytes. *)
  sha256_len : forall b, String.length (sha256 b) = 32%nat;
  hmac_len : forall k b, String.length (hmac_sha256 k b) = 32%nat;
}.
#[export] Existing Instance to_vec_inj.

(** ** A concrete instance *)

Module Toy.

(** A prefix-free byte encoding of JSON values. *)
Fixpoint enc_str (s : string) (k : bytes) : bytes :=
  match s with
  | EmptyString => String "0" k
  | String c s => String "1" (String c (enc_str s k))
  end.

Fixpoint enc (j : json) (k : bytes) : bytes :=
  match j with
  | JNull => String "n" k
  | JBool b => String (if b then "t" else "f") k
  | JNumber r => String "#" (enc_str r k)
  | JString s => String "s" (enc_str s k)
  | JArray l => String "[" ((fix go l := match l with
                   | [] => String "]" k
                   | x :: l => String "," (enc x (go l)) end) l)
  | JObject l => String "{" ((fix go l := match l with
                   | [] => String "}" k
                   | x :: l => String "," (enc_str x.1 (enc x.2 (go l))) end) l)
  end.

(** Big-endian base-256 digits, least significant [n] of them. *)
Fixpoint poly (s : bytes) (acc : N) : N :=
  match s with
  | EmptyString => acc
  | String c s => poly s (N.land (acc * 257 + N_of_ascii c + 1) 18446744073709551615)
  end.

Definition hash (s : bytes) : bytes := be_bytes 32 (poly s 5381) "".

Fixpoint split_at (c : ascii) (s : string) : option (string * string) :=
  match s with
  | EmptyString => None
  | String d s =>
      if Ascii.eqb c d then Some ("", s)
      else '(a, b) ← split_at c s; Some (String d a, b)
  end.

(** [scheme://host/path] without ports: enough for the examples. *)
Definition parse (s : string) : option url :=
  '(sch, rest) ← split_at ":" s;
  rest ← strip_prefix "//" rest;
  Some match split_at "/" rest with
       | Some (h, p) => Url sch (Some h) None (String "/" p)
       | None => Url sch (Some rest) None "/"
       end.

End Toy.

Definition toy_externals : Externals := {|
  to_vec j := Toy.enc j "";
  sha256 := Toy.hash;
  hmac_sha256 key b := Toy.hash (Toy.enc_str key b);
  url_parse s := ok_or (Toy.parse s) "relative URL without a base";
|}.

Lemma toy_enc_str_inj s t k k' :
  Toy.enc_str s k = Toy.enc_str t k' -> s = t /\ k = k'.
Proof.
  revert t; induction s as [|c s IH]; intros [|d t]; simpl; intros H; try discriminate.
  - injection H. auto.
  - injection H as -> H. apply IH in H as [-> ->]. auto.
Qed.

Lemma toy_enc_inj j j' k k' : Toy.enc j k = Toy.enc j' k' -> j = j' /\ k = k'.
Proof.
  revert j' k k'.
  induction j as [| |r|s|l IH|l IH] using json_ind_full; intros j' k k';
    destruct j' as [|b'|r'|s'|l'|l']; simpl; intros H; try discriminate H;
    try (destruct b; discriminate H); try (destruct b'; discriminate H).
  - injection H. auto.
  - destruct b, b'; try discriminate H; injection H; auto.
  - injection H as [-> ->]%toy_enc_str_inj. auto.
  - injection H as [-> ->]%toy_enc_str_inj. auto.
  - injection H as H.
    enough (l = l' /\ k = k') as [-> ->] by auto.
    revert l' H. induction IH as [|x l Hx _ IHl]; intros [|x' l'] H; try discriminate H.
    + injection H. auto.
    + injection H as [-> H]%Hx. apply IHl in H as [-> ->]. auto.
  - injection H as H.
    enough (l = l' /\ k = k') as [-> ->] by auto.
    revert l' H. induction IH as [|[n x] l Hx _ IHl]; intros [|[n' x'] l'] H; try discriminate H.
    + injection H. auto.
    + simpl in Hx. injection H as H. apply toy_enc_str_inj in H as [-> H].
      apply Hx in H as [-> H]. apply IHl in H as [-> ->]. auto.
Qed.

Lemma toy_externals_laws : ExternalsLaws toy_externals.
Proof.
  split.
  - intros j j' H. by apply toy_enc_inj in H as [].
  - intros b. exact (be_bytes_len 32 _ "").
  - intros key b. exact (be_bytes_len 32 _ "").
Qed.
