(* ===== verification/Lifecycle.v ===== *)
(** * Lifecycle state machines (crates/mecmcp-changeset/src/lifecycle.rs)

    The states of operations and change sets, the closed transition table of
    change sets, and what the table guarantees about every sequence of writes:
    an approval that was claimed is spent, and the lifecycle terminates. *)

From S2P Require Import Prelude.

(** ** Operations *)

Inductive LifecycleState :=
| Staging | Staged | Validating | Validated | Committing
| Committed | Discarded | OpFailed | Indeterminate.

#[export] Instance LifecycleState_eq_dec : EqDecision LifecycleState.
Proof. solve_decision. Defined.

Definition lifecycle_as_str (s : LifecycleState) : string :=
  match s with
  | Staging => "staging"
  | Staged => "staged"
  | Validating => "validating"
  | Validated => "validated"
  | Committing => "committing"
  | Committed => "committed"
  | Discarded => "discarded"
  | OpFailed => "failed"
  | Indeterminate => "indeterminate"
  end.

Definition terminal (s : LifecycleState) : bool :=
  match s with Committed | Discarded => true | _ => false end.

(** ** Change sets *)

Inductive ChangeSetState :=
| Planned | Approved | Applying | Applied | Expired | Failed | Cancelled.

#[export] Instance ChangeSetState_eq_dec : EqDecision ChangeSetState.
Proof. solve_decision. Defined.

Definition cs_as_str (s : ChangeSetState) : string :=
  match s with
  | Planned => "planned"
  | Approved => "approved"
  | Applying => "applying"
  | Applied => "applied"
  | Expired => "expired"
  | Failed => "failed"
  | Cancelled => "cancelled"
  end.

(** The derived [Debug] names, used in error messages. *)
Definition cs_debug (s : ChangeSetState) : string :=
  match s with
  | Planned => "Planned"
  | Approved => "Approved"
  | Applying => "Applying"
  | Applied => "Applied"
  | Expired => "Expired"
  | Failed => "Failed"
  | Cancelled => "Cancelled"
  end.

Inductive ApplyHandle := HandleExpected | HandleNone.

Definition change_set_transition_allowed (from to : ChangeSetState) : bool :=
  match from, to with
  | Planned, Planned | Approved, Approved | Applying, Applying | Applied, Applied
  | Expired, Expired | Failed, Failed | Cancelled, Cancelled => true
  | Planned, (Approved | Expired | Cancelled) => true
  | Approved, (Expired | Cancelled) => true
  | Applying, (Applied | Failed) => true
  | (Expired | Failed), Cancelled => true
  | Applied, Failed => true
  | _, _ => false
  end.

(** ** The graph of lifecycle moves

    A write moves a record along the table; the claim adds the one edge the
    table withholds. *)

Inductive lifecycle_move : ChangeSetState -> ChangeSetState -> Prop :=
| move_table s t :
    change_set_transition_allowed s t = true -> s <> t -> lifecycle_move s t
| move_claim : lifecycle_move Approved Applying.

Definition lifecycle_rank (s : ChangeSetState) : nat :=
  match s with
  | Planned => 5
  | Approved => 4
  | Applying => 3
  | Applied => 2
  | Expired | Failed => 1
  | Cancelled => 0
  end.

Lemma lifecycle_move_rank s t : lifecycle_move s t -> lifecycle_rank t < lifecycle_rank s.
Proof. intros [[] []|]; simpl; try done; lia. Qed.

(** States in which the approval has been spent or withdrawn. *)
Definition approval_spent (s : ChangeSetState) : bool :=
  match s with Planned | Approved => false | _ => true end.

Lemma lifecycle_move_spent s t :
  lifecycle_move s t -> approval_spent s = true -> approval_spent t = true.
Proof. intros [[] []|]; simpl; done. Qed.

Lemma table_keeps_spent s t :
  change_set_transition_allowed s t = true -> approval_spent s = true -> approval_spent t = true.
Proof. destruct s, t; simpl; done. Qed.

(** [Applying] is entered from [Applying] only: the claim is the one door. *)
Lemma table_into_applying s :
  change_set_transition_allowed s Applying = true -> s = Applying.
Proof. destruct s; simpl; done. Qed.

Lemma table_into_approved s :
  change_set_transition_allowed s Approved = true -> s = Planned \/ s = Approved.
Proof. destruct s; simpl; auto; done. Qed.
