(* ===== verification/Types.v ===== *)
(** * Limits, identifiers and persisted records

    The data of crates/mecmcp-changeset/src/types.rs and records.rs, with the
    attribution types of crates/mecmcp-audit/src/attribution.rs they project,
    and the validators of types.rs.  Fields keep the source's names behind a
    prefix per record ([op_], [cs_], ...); [set_...] functions are the field
    assignments the code performs. *)

From S2P Require Import Prelude Externals Lifecycle.

(** ** Limits *)

Record OperationLimits := {
  max_operations : N;
  max_change_sets : N;
  max_actions_per_set : N;
  max_change_set_bytes : N;
  max_state_bytes : N;
  max_targets_per_set : N;
  max_preview_bytes : N;
}.

Definition default_limits : OperationLimits := {|
  max_operations := 1024;
  max_change_sets := 1024;
  max_actions_per_set := 64;
  max_change_set_bytes := 256 * 1024;
  max_state_bytes := 8 * 1024 * 1024;
  max_targets_per_set := 64;
  max_preview_bytes := 64 * 1024;
|}.

(** ** Validated identifiers *)

Definition FingerprintError := string.
Definition OperationIdError := string.

Definition validate_fingerprint (value : string) : result unit FingerprintError :=
  match strip_prefix "sha256:" value with
  | None => Err "value must use the sha256:<64 lowercase hex> format"
  | Some digest =>
      if bool_decide (str_len digest = 64%N) && str_forall is_lower_hex digest
      then Ok tt
      else Err "value must use the sha256:<64 lowercase hex> format"
  end.

Definition Fingerprint_new (value : string) : result string FingerprintError :=
  check? validate_fingerprint value;
  Ok value.

Definition validate_operation_id (value : string) : result unit OperationIdError :=
  if bool_decide (str_len value = 64%N) && str_forall is_lower_hex value
  then Ok tt
  else Err "value must contain exactly 64 hexadecimal characters".

Definition OperationId_new (value : string) : result string OperationIdError :=
  check? validate_operation_id value;
  Ok value.

(** ** Attribution (crates/mecmcp-audit/src/attribution.rs) *)

Inductive Principal := PToken (name : string) | PUnauthenticated.

Definition principal_to_string (p : Principal) : string :=
  match p with PToken name => name | PUnauthenticated => "stdio" end.

Inductive ActorType := Human | Agent | Unknown.

#[export] Instance ActorType_eq_dec : EqDecision ActorType.
Proof. solve_decision. Defined.

Inductive Tier := TierPublic | TierPrivate.

Definition tier_to_string (t : Tier) : string :=
  match t with TierPublic => "public" | TierPrivate => "private" end.

Record AgentIdentity := {
  model_id : string;
  session_id : string;
  client_name : option string;
  provider : string;
  provider_tier : Tier;
  skills_used : list string;
}.

Record Attribution := {
  attr_principal : Principal;
  attr_actor_type : ActorType;
  attr_agent : option AgentIdentity;
  attr_on_behalf_of : option string;
  attr_change_ref : option string;
  attr_request_id : string;
}.

(** ** Persisted attribution *)

Inductive PersistedPrincipal := PersistedToken (name : string) | PersistedUnauthenticated.

Record PersistedAgentIdentity := {
  pa_model_id : string;
  pa_provider : string;
  pa_provider_tier : string;
  pa_skills_used : string;
}.

Record PersistedAttribution := {
  p_principal : PersistedPrincipal;
  p_actor_type : string;
  p_on_behalf_of : option string;
  p_change_ref : option string;
  p_request_id : string;
  p_agent : option PersistedAgentIdentity;
}.

(** [format!("{:?}", actor_type).to_lowercase()]. *)
Definition actor_type_debug_lower (a : ActorType) : string :=
  match a with Human => "human" | Agent => "agent" | Unknown => "unknown" end.

Definition persisted_attribution (a : Attribution) : PersistedAttribution := {|
  p_principal := match attr_principal a with
                 | PToken name => PersistedToken name
                 | PUnauthenticated => PersistedUnauthenticated
                 end;
  p_actor_type := actor_type_debug_lower (attr_actor_type a);
  p_on_behalf_of := attr_on_behalf_of a;
  p_change_ref := attr_change_ref a;
  p_request_id := attr_request_id a;
  p_agent := match attr_agent a with
             | Some agent => Some {|
                 pa_model_id := model_id agent;
                 pa_provider := provider agent;
                 pa_provider_tier := tier_to_string (provider_tier agent);
                 pa_skills_used :=
                   match skills_used agent with
                   | [] => "none"
                   | skills => str_join " " skills
                   end;
               |}
             | None => None
             end;
|}.

(** ** Operation records *)

Record OperationRecord := {
  op_id : string;
  op_owner : string;
  op_device : string;
  op_endpoint : string;
  op_action : json;
  op_xpath : option string;
  op_actions : list json;
  op_change_set_id : option string;
  op_current : string;
  op_state : LifecycleState;
  op_job_id : option string;
  op_details : option string;
  op_config_lock_held : bool;
  op_policy_signature : string;
  op_attribution : option PersistedAttribution;
  op_rollback_deadline_unix : option N;
  op_config_authority : option string;
}.

(** ** Approvals and waivers *)

Inductive WaiverKind := LabMode | OperatorFile | OperatorTool.

#[export] Instance WaiverKind_eq_dec : EqDecision WaiverKind.
Proof. solve_decision. Defined.

Definition waiver_kind_as_str (k : WaiverKind) : string :=
  match k with
  | LabMode => "lab_mode"
  | OperatorFile => "operator_file"
  | OperatorTool => "operator_tool"
  end.

(** The derived [Debug] name. *)
Definition waiver_kind_debug (k : WaiverKind) : string :=
  match k with
  | LabMode => "LabMode"
  | OperatorFile => "OperatorFile"
  | OperatorTool => "OperatorTool"
  end.

Record WaiverRecord := {
  w_kind : WaiverKind;
  w_reason : string;
  w_expires_at_unix : option N;
  w_ticket : option string;
}.

#[export] Instance WaiverRecord_eq_dec : EqDecision WaiverRecord.
Proof. solve_decision. Defined.

Record ApprovalRecord := {
  ap_approver : option string;
  ap_approved_at_unix : N;
  ap_digest : string;
  ap_digest_version : N;
  ap_waived : option WaiverRecord;
}.

#[export] Instance ApprovalRecord_eq_dec : EqDecision ApprovalRecord.
Proof. solve_decision. Defined.

Record PreviewRecord := {
  pv_artifact : string;
  pv_digest : string;
  pv_job_id : option string;
}.

(** ** Change-set records *)

Record ChangeSetRecord := {
  cs_id : string;
  cs_owner : string;
  cs_device : string;
  cs_expected_candidate_fingerprint : string;
  cs_actions : list json;
  cs_digest : string;
  cs_state : ChangeSetState;
  cs_approver : option string;
  cs_approval : option ApprovalRecord;
  cs_expires_at_unix : N;
  cs_operation_id : option string;
  cs_policy_signature : string;
  cs_targets : list string;
  cs_preview : option PreviewRecord;
  cs_task_id : option string;
  cs_apply_without_handle : bool;
}.

(** ** The state the coordinator holds and persists (persistence.rs) *)

Record ChangesetState := {
  operations : gmap string OperationRecord;
  change_sets : gmap string ChangeSetRecord;
}.

Definition empty_state : ChangesetState := {| operations := ∅; change_sets := ∅ |}.

Record OnDiskChangesetState := {
  od_version : N;
  od_state : ChangesetState;
}.

Definition set_operations (f : gmap string OperationRecord -> gmap string OperationRecord)
  (st : ChangesetState) : ChangesetState :=
  {| operations := f (operations st); change_sets := change_sets st |}.
Definition set_change_sets (f : gmap string ChangeSetRecord -> gmap string ChangeSetRecord)
  (st : ChangesetState) : ChangesetState :=
  {| operations := operations st; change_sets := f (change_sets st) |}.

(** ** Field assignments *)

Definition set_cs_state (s : ChangeSetState) (r : ChangeSetRecord) : ChangeSetRecord := {|
  cs_id := cs_id r; cs_owner := cs_owner r; cs_device := cs_device r;
  cs_expected_candidate_fingerprint := cs_expected_candidate_fingerprint r;
  cs_actions := cs_actions r; cs_digest := cs_digest r; cs_state := s;
  cs_approver := cs_approver r; cs_approval := cs_approval r;
  cs_expires_at_unix := cs_expires_at_unix r; cs_operation_id := cs_operation_id r;
  cs_policy_signature := cs_policy_signature r; cs_targets := cs_targets r;
  cs_preview := cs_preview r; cs_task_id := cs_task_id r;
  cs_apply_without_handle := cs_apply_without_handle r |}.

Definition set_cs_approval (approver : option string) (approval : option ApprovalRecord)
  (r : ChangeSetRecord) : ChangeSetRecord := {|
  cs_id := cs_id r; cs_owner := cs_owner r; cs_device := cs_device r;
  cs_expected_candidate_fingerprint := cs_expected_candidate_fingerprint r;
  cs_actions := cs_actions r; cs_digest := cs_digest r; cs_state := cs_state r;
  cs_approver := approver; cs_approval := approval;
  cs_expires_at_unix := cs_expires_at_unix r; cs_operation_id := cs_operation_id r;
  cs_policy_signature := cs_policy_signature r; cs_targets := cs_targets r;
  cs_preview := cs_preview r; cs_task_id := cs_task_id r;
  cs_apply_without_handle := cs_apply_without_handle r |}.

Definition set_cs_operation_id (o : option string) (r : ChangeSetRecord) : ChangeSetRecord := {|
  cs_id := cs_id r; cs_owner := cs_owner r; cs_device := cs_device r;
  cs_expected_candidate_fingerprint := cs_expected_candidate_fingerprint r;
  cs_actions := cs_actions r; cs_digest := cs_digest r; cs_state := cs_state r;
  cs_approver := cs_approver r; cs_approval := cs_approval r;
  cs_expires_at_unix := cs_expires_at_unix r; cs_operation_id := o;
  cs_policy_signature := cs_policy_signature r; cs_targets := cs_targets r;
  cs_preview := cs_preview r; cs_task_id := cs_task_id r;
  cs_apply_without_handle := cs_apply_without_handle r |}.

Definition set_cs_task_id (t : option string) (r : ChangeSetRecord) : ChangeSetRecord := {|
  cs_id := cs_id r; cs_owner := cs_owner r; cs_device := cs_device r;
  cs_expected_candidate_fingerprint := cs_expected_candidate_fingerprint r;
  cs_actions := cs_actions r; cs_digest := cs_digest r; cs_state := cs_state r;
  cs_approver := cs_approver r; cs_approval := cs_approval r;
  cs_expires_at_unix := cs_expires_at_unix r; cs_operation_id := cs_operation_id r;
  cs_policy_signature := cs_policy_signature r; cs_targets := cs_targets r;
  cs_preview := cs_preview r; cs_task_id := t;
  cs_apply_without_handle := cs_apply_without_handle r |}.

Definition set_cs_apply_without_handle (b : bool) (r : ChangeSetRecord) : ChangeSetRecord := {|
  cs_id := cs_id r; cs_owner := cs_owner r; cs_device := cs_device r;
  cs_expected_candidate_fingerprint := cs_expected_candidate_fingerprint r;
  cs_actions := cs_actions r; cs_digest := cs_digest r; cs_state := cs_state r;
  cs_approver := cs_approver r; cs_approval := cs_approval r;
  cs_expires_at_unix := cs_expires_at_unix r; cs_operation_id := cs_operation_id r;
  cs_policy_signature := cs_policy_signature r; cs_targets := cs_targets r;
  cs_preview := cs_preview r; cs_task_id := cs_task_id r;
  cs_apply_without_handle := b |}.

(** The fields of an operation record that change after it is created. *)
Record OpUpdate := {
  u_state : LifecycleState;
  u_details : option string;
  u_current : string;
  u_job_id : option string;
  u_lock : bool;
  u_attribution : option PersistedAttribution;
  u_deadline : option N;
}.

Definition op_progress (r : OperationRecord) : OpUpdate := {|
  u_state := op_state r; u_details := op_details r; u_current := op_current r;
  u_job_id := op_job_id r; u_lock := op_config_lock_held r;
  u_attribution := op_attribution r; u_deadline := op_rollback_deadline_unix r |}.

Definition set_op (u : OpUpdate) (r : OperationRecord) : OperationRecord := {|
  op_id := op_id r; op_owner := op_owner r; op_device := op_device r;
  op_endpoint := op_endpoint r; op_action := op_action r; op_xpath := op_xpath r;
  op_actions := op_actions r; op_change_set_id := op_change_set_id r;
  op_current := u_current u; op_state := u_state u; op_job_id := u_job_id u;
  op_details := u_details u; op_config_lock_held := u_lock u;
  op_policy_signature := op_policy_signature r; op_attribution := u_attribution u;
  op_rollback_deadline_unix := u_deadline u;
  op_config_authority := op_config_authority r |}.

Definition set_op_state (s : LifecycleState) (r : OperationRecord) : OperationRecord :=
  set_op {| u_state := s; u_details := op_details r; u_current := op_current r;
            u_job_id := op_job_id r; u_lock := op_config_lock_held r;
            u_attribution := op_attribution r;
            u_deadline := op_rollback_deadline_unix r |} r.
Definition set_op_details (d : option string) (r : OperationRecord) : OperationRecord :=
  set_op {| u_state := op_state r; u_details := d; u_current := op_current r;
            u_job_id := op_job_id r; u_lock := op_config_lock_held r;
            u_attribution := op_attribution r;
            u_deadline := op_rollback_deadline_unix r |} r.
Definition set_op_current (c : string) (r : OperationRecord) : OperationRecord :=
  set_op {| u_state := op_state r; u_details := op_details r; u_current := c;
            u_job_id := op_job_id r; u_lock := op_config_lock_held r;
            u_attribution := op_attribution r;
            u_deadline := op_rollback_deadline_unix r |} r.
Definition set_op_job_id (j : option string) (r : OperationRecord) : OperationRecord :=
  set_op {| u_state := op_state r; u_details := op_details r; u_current := op_current r;
            u_job_id := j; u_lock := op_config_lock_held r;
            u_attribution := op_attribution r;
            u_deadline := op_rollback_deadline_unix r |} r.
Definition set_op_lock (b : bool) (r : OperationRecord) : OperationRecord :=
  set_op {| u_state := op_state r; u_details := op_details r; u_current := op_current r;
            u_job_id := op_job_id r; u_lock := b; u_attribution := op_attribution r;
            u_deadline := op_rollback_deadline_unix r |} r.
Definition set_op_attribution (a : option PersistedAttribution) (r : OperationRecord) :
  OperationRecord :=
  set_op {| u_state := op_state r; u_details := op_details r; u_current := op_current r;
            u_job_id := op_job_id r; u_lock := op_config_lock_held r; u_attribution := a;
            u_deadline := op_rollback_deadline_unix r |} r.
Definition set_op_deadline (d : option N) (r : OperationRecord) : OperationRecord :=
  set_op {| u_state := op_state r; u_details := op_details r; u_current := op_current r;
            u_job_id := op_job_id r; u_lock := op_config_lock_held r;
            u_attribution := op_attribution r; u_deadline := d |} r.

(** ** Facts about identifiers *)

(** The shape both validators test for. *)
Definition is_hex64 (s : string) : Prop :=
  str_len s = 64%N /\ str_forall is_lower_hex s = true.

Lemma validate_operation_id_Ok s : validate_operation_id s = Ok tt <-> is_hex64 s.
Proof.
  unfold validate_operation_id, is_hex64. case_bool_decide; simpl.
  - destruct (str_forall _ _); intuition congruence.
  - intuition congruence.
Qed.

Lemma validate_fingerprint_Ok s :
  validate_fingerprint s = Ok tt <-> exists d, s = "sha256:" +:+ d /\ is_hex64 d.
Proof.
  unfold validate_fingerprint, is_hex64. destruct (strip_prefix _ s) as [d|] eqn:E.
  - apply strip_prefix_Some in E as ->. case_bool_decide as Hl; simpl.
    + destruct (str_forall _ d) eqn:Hh; split; try done; [eauto|].
      intros (d'&Hd&?&?). assert (d = d') as <-; [|congruence].
      by apply (inj (String.append "sha256:")) in Hd.
    + split; [done|]. intros (d'&Hd&?&?). apply (inj (String.append "sha256:")) in Hd.
      congruence.
  - split; [done|]. intros (d&->&_).
    assert (strip_prefix "sha256:" ("sha256:" +:+ d) = Some d) by by apply strip_prefix_Some.
    congruence.
Qed.
