(* ===== verification/Digest.v ===== *)
(** * Digests (crates/mecmcp-changeset/src/digest.rs)

    Every digest the change-control records carry, in each of its encodings,
    the validators, and what the encodings bind: a serialized tuple separates
    its fields, the old [|]-joined strings do not. *)

From S2P Require Import Prelude Externals Lifecycle Types.
From Stdlib Require Import Ascii.

Record DigestError := { de_field : string; de_message : string }.

Definition digest_error_to_string (e : DigestError) : string :=
  de_field e +:+ ": " +:+ de_message e.

(** ** Hexadecimal *)

Definition hex_digit (n : N) : ascii :=
  ascii_of_N (if (n <? 10)%N then 48 + n else 87 + n).

Fixpoint bytes_hex (b : bytes) : string :=
  match b with
  | EmptyString => EmptyString
  | String c b =>
      let n := N_of_ascii c in
      String (hex_digit (n / 16)) (String (hex_digit (n mod 16)) (bytes_hex b))
  end.

(** ** Validation *)

Definition validate_digest (value field : string) : result unit DigestError :=
  match strip_prefix "sha256:" value with
  | None => Err {| de_field := field;
                   de_message := "value must use sha256:<64 lowercase hex> format" |}
  | Some digest =>
      if bool_decide (str_len digest = 64%N) && str_forall is_lower_hex digest
      then Ok tt
      else Err {| de_field := field;
                  de_message := "value must use sha256:<64 lowercase hex> format" |}
  end.

Definition validate_fingerprint (value : string) : result unit DigestError :=
  match strip_prefix "sha256:" value with
  | None => Err {| de_field := "expected_candidate_fingerprint";
                   de_message := "value must use the sha256:<64 lowercase hex> format" |}
  | Some digest =>
      if bool_decide (str_len digest = 64%N) && str_forall is_lower_hex digest
      then Ok tt
      else Err {| de_field := "expected_candidate_fingerprint";
                  de_message := "value must use the sha256:<64 lowercase hex> format" |}
  end.

Definition validate_principal_for_digest (field_name value : string) : result unit string :=
  if contains_char "|" value
  then Err (field_name +:+ " cannot contain '|' (the digest separator): value "
              +:+ str_debug value +:+ " would make field boundaries ambiguous")
  else Ok tt.

Section digests.
Context `{Externals}.

Definition digest_hex (b : bytes) : string := bytes_hex (sha256 b).

(** ** Plan digests *)

(** The tuple [(owner, device, fingerprint, actions)] [serde_json::to_vec] sees. *)
Definition plan_tuple (owner device fingerprint : string) (actions : list json) : json :=
  JArray [JString owner; JString device; JString fingerprint; JArray actions].

Definition plan_tuple_targets (owner device fingerprint : string) (actions : list json)
  (targets : list string) : json :=
  JArray [JString owner; JString device; JString fingerprint; JArray actions;
          JArray (JString <$> targets)].

Definition change_set_digest (owner device fingerprint : string) (actions : list json) :
  result string DigestError :=
  let canonical := to_vec (plan_tuple owner device fingerprint actions) in
  Ok ("sha256:" +:+ digest_hex canonical).

Definition change_set_digest_with_targets (owner device fingerprint : string)
  (actions : list json) (targets : list string) : result string DigestError :=
  match targets with
  | [] => change_set_digest owner device fingerprint actions
  | _ =>
      let canonical := to_vec (plan_tuple_targets owner device fingerprint actions targets) in
      Ok ("sha256:" +:+ digest_hex canonical)
  end.

Definition preview_digest (artifact : string) : string := "sha256:" +:+ digest_hex artifact.

(** ** Approval and waiver digests *)

Definition compute_approval_digest_legacy (change_set_id plan_digest owner approver : string)
  (approved_at_unix : N) : string :=
  "sha256:" +:+ bytes_hex (sha256 (
    change_set_id +:+ "|" +:+ plan_digest +:+ "|" +:+ owner +:+ "|" +:+ approver
    +:+ "|" +:+ pretty approved_at_unix)).

Definition compute_waiver_digest (change_set_id plan_digest owner : string)
  (waived_at_unix : N) : string :=
  "sha256:" +:+ bytes_hex (sha256 (
    change_set_id +:+ "|" +:+ plan_digest +:+ "|" +:+ owner +:+ "|"
    +:+ pretty waived_at_unix +:+ "|" +:+ "lab-mode-waived")).

Definition waiver_tuple (change_set_id plan_digest owner : string) (waived_at_unix : N)
  (waiver : WaiverRecord) : json :=
  JArray [JString "mecmcp-waiver-v3"; JString change_set_id; JString plan_digest;
          JString owner; json_u64 waived_at_unix;
          JString (waiver_kind_as_str (w_kind waiver)); JString (w_reason waiver);
          json_opt json_u64 (w_expires_at_unix waiver);
          json_opt JString (w_ticket waiver)].

Definition compute_waiver_digest_v3 (change_set_id plan_digest owner : string)
  (waived_at_unix : N) (waiver : WaiverRecord) : string :=
  "sha256:" +:+ digest_hex
    (to_vec (waiver_tuple change_set_id plan_digest owner waived_at_unix waiver)).

Definition approval_tuple_v4 (change_set_id plan_digest owner approver : string)
  (approved_at_unix : N) : json :=
  JArray [JString "mecmcp-approval-v4"; JString change_set_id; JString plan_digest;
          JString owner; JString approver; json_u64 approved_at_unix].

Definition compute_approval_digest_v4 (change_set_id plan_digest owner approver : string)
  (approved_at_unix : N) : string :=
  "sha256:" +:+ digest_hex
    (to_vec (approval_tuple_v4 change_set_id plan_digest owner approver approved_at_unix)).

(** v5 and v6 hash the same tuple under different markers. *)
Definition approval_tuple (marker change_set_id plan_digest : string)
  (preview_digest : option string) (owner approver : string) (approved_at_unix : N) : json :=
  JArray [JString marker; JString change_set_id; JString plan_digest;
          json_opt JString preview_digest; JString owner; JString approver;
          json_u64 approved_at_unix].

Definition compute_approval_digest_v5 (change_set_id plan_digest : string)
  (preview_digest : option string) (owner approver : string) (approved_at_unix : N) : string :=
  "sha256:" +:+ digest_hex
    (to_vec (approval_tuple "mecmcp-approval-v5" change_set_id plan_digest preview_digest
               owner approver approved_at_unix)).

Definition compute_approval_digest_v6 (key : bytes) (change_set_id plan_digest : string)
  (preview_digest : option string) (owner approver : string) (approved_at_unix : N) : string :=
  "sha256:" +:+ bytes_hex (hmac_sha256 key
    (to_vec (approval_tuple "mecmcp-approval-v6" change_set_id plan_digest preview_digest
               owner approver approved_at_unix))).

Definition verify_approval_digest_v6 (key : bytes) (change_set_id plan_digest : string)
  (preview_digest : option string) (owner approver : string) (approved_at_unix : N)
  (candidate : string) : bool :=
  bool_decide (compute_approval_digest_v6 key change_set_id plan_digest preview_digest
                 owner approver approved_at_unix = candidate).

End digests.

(** ** Hexadecimal facts *)

(** A predicate on the numbers below a literal, checked one by one. *)
Lemma N_below_forall (k : nat) (P : N -> Prop) n :
  Forall (fun i => P (N.of_nat i)) (seq 0 k) -> (n < N.of_nat k)%N -> P n.
Proof.
  rewrite Forall_forall. intros HP Hn. rewrite <-(N2Nat.id n).
  apply HP, elem_of_seq. lia.
Qed.

Lemma hex_digit_ok n : (n < 16)%N -> is_lower_hex (hex_digit n) = true.
Proof.
  intros Hn. pattern n. apply (N_below_forall 16); [|done].
  repeat (apply Forall_cons; split; [reflexivity|]). done.
Qed.

Definition unhex_digit (c : ascii) : N :=
  let n := N_of_ascii c in if (n <? 58)%N then n - 48 else n - 87.

Lemma unhex_hex_digit n : (n < 16)%N -> unhex_digit (hex_digit n) = n.
Proof.
  intros Hn. pattern n. apply (N_below_forall 16); [|done].
  repeat (apply Forall_cons; split; [reflexivity|]). done.
Qed.

Lemma nibbles_bound c : (N_of_ascii c / 16 < 16)%N /\ (N_of_ascii c mod 16 < 16)%N.
Proof.
  pose proof (N_ascii_bounded c). split; [apply N.Div0.div_lt_upper_bound; lia|].
  apply N.mod_lt. lia.
Qed.

Lemma bytes_hex_length b : String.length (bytes_hex b) = (2 * String.length b)%nat.
Proof. induction b as [|c b IH]; simpl; [done|]. rewrite IH. lia. Qed.

Lemma bytes_hex_lower b : str_forall is_lower_hex (bytes_hex b) = true.
Proof.
  induction b as [|c b IH]; simpl; [done|]. pose proof (nibbles_bound c) as [? ?].
  by rewrite !hex_digit_ok, IH.
Qed.

#[export] Instance bytes_hex_inj : Inj (=) (=) bytes_hex.
Proof.
  intros a; induction a as [|c a IH]; intros [|d b]; simpl; try done.
  intros Heq. injection Heq as H1 H2 H3. apply IH in H3 as ->. f_equal.
  pose proof (nibbles_bound c) as [? ?]. pose proof (nibbles_bound d) as [? ?].
  apply (f_equal unhex_digit) in H1, H2. rewrite !unhex_hex_digit in H1, H2 by done.
  rewrite <-(ascii_N_embedding c), <-(ascii_N_embedding d). f_equal.
  rewrite (N.div_mod (N_of_ascii c) 16), (N.div_mod (N_of_ascii d) 16) by done. congruence.
Qed.

Lemma hex32_is_hex64 b : String.length b = 32%nat -> is_hex64 (bytes_hex b).
Proof.
  intros Hb. split; [|apply bytes_hex_lower].
  unfold str_len. rewrite bytes_hex_length, Hb. done.
Qed.

(** ** Validator facts *)

Lemma validate_digest_Ok s field :
  validate_digest s field = Ok tt <-> Types.validate_fingerprint s = Ok tt.
Proof.
  unfold validate_digest, Types.validate_fingerprint.
  destruct (strip_prefix _ _); [|done]. by destruct (_ && _).
Qed.

Lemma validate_fingerprint_digest s field :
  validate_fingerprint s = Ok tt <-> validate_digest s field = Ok tt.
Proof.
  unfold validate_digest, validate_fingerprint.
  destruct (strip_prefix _ _); [|done]. by destruct (_ && _).
Qed.

Lemma sha256_digest_valid d field :
  is_hex64 d -> validate_digest ("sha256:" +:+ d) field = Ok tt.
Proof. intros Hd. apply validate_digest_Ok, validate_fingerprint_Ok. eauto. Qed.

Lemma waiver_kind_as_str_inj k k' : waiver_kind_as_str k = waiver_kind_as_str k' -> k = k'.
Proof. by destruct k, k'. Qed.

(** ** What the digests bind

    Two inputs with one digest are equal unless the hash collides on exactly
    those two encodings. *)

Section binding.
Context `{ExternalsLaws}.

(** No SHA-256 collision between the encodings of two given values. *)
Definition no_collision (a b : json) : Prop :=
  sha256 (to_vec a) = sha256 (to_vec b) -> to_vec a = to_vec b.

Lemma digest_of_tuple_inj a b :
  no_collision a b ->
  "sha256:" +:+ digest_hex (to_vec a) = "sha256:" +:+ digest_hex (to_vec b) -> a = b.
Proof.
  intros Hnc Heq%(inj (String.append _))%(inj bytes_hex). by apply Hnc, (inj to_vec) in Heq.
Qed.

Lemma digest_hex_is_hex64 b : is_hex64 (digest_hex b).
Proof. apply hex32_is_hex64, sha256_len. Qed.

Lemma approval_tuple_inj m id pd pv o a t m' id' pd' pv' o' a' t' :
  approval_tuple m id pd pv o a t = approval_tuple m' id' pd' pv' o' a' t' ->
  m = m' /\ id = id' /\ pd = pd' /\ pv = pv' /\ o = o' /\ a = a' /\ t = t'.
Proof.
  unfold approval_tuple. intros Heq. injection Heq as -> -> -> Hpv -> -> Ht.
  apply json_opt_str_inj in Hpv as ->. apply (inj pretty) in Ht as ->. done.
Qed.

Lemma waiver_tuple_inj id pd o t w id' pd' o' t' w' :
  waiver_tuple id pd o t w = waiver_tuple id' pd' o' t' w' ->
  id = id' /\ pd = pd' /\ o = o' /\ t = t' /\ w = w'.
Proof.
  unfold waiver_tuple. intros Heq. injection Heq as -> -> -> Ht Hk Hr He Hti.
  apply (inj pretty) in Ht as ->. apply waiver_kind_as_str_inj in Hk.
  apply json_opt_u64_inj in He. apply json_opt_str_inj in Hti.
  destruct w, w'; simpl in *; subst. done.
Qed.

Lemma fmap_JString_inj (l l' : list string) : JString <$> l = JString <$> l' -> l = l'.
Proof. apply list_fmap_eq_inj. by intros ?? [=]. Qed.

End binding.
