(* ===== verification/Records.v ===== *)
(** * Record checks (crates/mecmcp-changeset/src/records.rs)

    The checks a change-set or operation record must pass on its own: target
    sets, previews, the policy and fingerprint guards, and the structural
    limits on actions. *)

From S2P Require Import Prelude Externals Lifecycle Types Digest.

(** ** Errors *)

Inductive PreviewError :=
| PvMalformed (detail : string)
| PvMismatch
| PvTooLarge (bytes maximum : N).

Definition preview_error_to_string (e : PreviewError) : string :=
  match e with
  | PvMalformed detail => "preview: " +:+ detail
  | PvMismatch => "preview: digest does not match the artifact; the preview has been tampered with"
  | PvTooLarge b m => "preview: " +:+ pretty b +:+ " bytes exceeds the maximum of " +:+ pretty m
  end.

Inductive TargetError :=
| TgEmpty
| TgEmptyName
| TgDuplicate (name : string)
| TgUnsorted (name : string)
| TgMissingPrimary (device : string)
| TgTooMany (count maximum : N).

Definition target_error_to_string (e : TargetError) : string :=
  match e with
  | TgEmpty => "targets: a change set must name at least one target"
  | TgEmptyName => "targets: a target name must not be empty"
  | TgDuplicate name => "targets: '" +:+ name +:+ "' appears more than once"
  | TgUnsorted name => "targets: must be sorted; '" +:+ name +:+ "' is out of order"
  | TgMissingPrimary device =>
      "targets: must contain the change set's own device '" +:+ device +:+ "'"
  | TgTooMany c m => "targets: " +:+ pretty c +:+ " exceeds the maximum of " +:+ pretty m
  end.

Record RecordError := { re_field : string; re_message : string }.

(** ** Targets *)

Definition targets (r : ChangeSetRecord) : list string :=
  match cs_targets r with
  | [] => [cs_device r]
  | ts => ts
  end.

(** The loop of [validate_targets], with the previous name when there is one. *)
Fixpoint validate_targets_loop (previous : option string) (l : list string) :
  result unit TargetError :=
  match l with
  | [] => Ok tt
  | name :: l =>
      if is_empty_str name then Err TgEmptyName
      else match previous with
           | None => validate_targets_loop (Some name) l
           | Some p =>
               if bool_decide (name = p) then Err (TgDuplicate name)
               else if String.ltb name p then Err (TgUnsorted name)
               else validate_targets_loop (Some name) l
           end
  end.

Definition validate_targets (l : list string) (maximum : N) : result unit TargetError :=
  match l with
  | [] => Err TgEmpty
  | _ =>
      if (maximum <? N.of_nat (length l))%N
      then Err (TgTooMany (N.of_nat (length l)) maximum)
      else validate_targets_loop None l
  end.

Definition validate_target_set (r : ChangeSetRecord) (maximum : N) : result unit TargetError :=
  match cs_targets r with
  | [] => Ok tt
  | ts =>
      check? validate_targets ts maximum;
      if bool_decide (cs_device r ∈ ts) then Ok tt else Err (TgMissingPrimary (cs_device r))
  end.

Section records.
Context `{Externals}.

(** ** Previews *)

Definition validate_preview (r : ChangeSetRecord) (max_preview_bytes : N) :
  result unit PreviewError :=
  match cs_preview r with
  | None => Ok tt
  | Some preview =>
      if (max_preview_bytes <? str_len (pv_artifact preview))%N
      then Err (PvTooLarge (str_len (pv_artifact preview)) max_preview_bytes)
      else
        check? map_err (fun e => PvMalformed (digest_error_to_string e))
                 (validate_digest (pv_digest preview) "preview_digest");
        let expected := preview_digest (pv_artifact preview) in
        if bool_decide (expected = pv_digest preview) then Ok tt else Err PvMismatch
  end.

(** ** Operation guards *)

Definition require_operation_policy (r : OperationRecord) (current_policy_signature : string) :
  result unit RecordError :=
  if bool_decide (op_policy_signature r = current_policy_signature) then Ok tt
  else Err {| re_field := "operation_id";
              re_message := "policy changed after this operation staged; discard or recover manually" |}.

Definition require_operation_fingerprint (r : OperationRecord)
  (expected_candidate_fingerprint actual_candidate_fingerprint : string) :
  result unit RecordError :=
  check? map_err (fun e => {| re_field := "expected_candidate_fingerprint";
                              re_message := digest_error_to_string e |})
           (validate_fingerprint expected_candidate_fingerprint);
  if bool_decide (expected_candidate_fingerprint = actual_candidate_fingerprint) then
    if bool_decide (op_current r = actual_candidate_fingerprint) then Ok tt
    else Err {| re_field := "operation_id";
                re_message := "candidate changed after this operation staged" |}
  else Err {| re_field := "expected_candidate_fingerprint";
              re_message := "candidate changed since the caller observed it" |}.

(** The digest is finalized and then hashed again by [digest_hex]. *)
Definition mutation_policy_signature (policy_identifier : string) : string :=
  "sha256:" +:+ digest_hex (sha256 policy_identifier).

(** ** Actions *)

(** [serde_json::to_vec] of a slice of serializable values: [ser] is the
    value's own [Serialize]. *)
Definition encode_actions {A} (ser : A -> result json string) (actions : list A) :
  result bytes string :=
  let? values := collect (ser <$> actions) in
  Ok (to_vec (JArray values)).

Definition validate_change_set_actions {A} (ser : A -> result json string)
  (actions : list A) (limits : OperationLimits) : result unit RecordError :=
  match actions with
  | [] => Err {| re_field := "actions";
                 re_message := "change set must contain at least 1 action" |}
  | _ =>
      if (max_actions_per_set limits <? N.of_nat (length actions))%N
      then Err {| re_field := "actions";
                  re_message := "change set exceeds maximum of "
                    +:+ pretty (max_actions_per_set limits) +:+ " actions" |}
      else
        let? encoded := map_err (fun e => {| re_field := "actions";
                          re_message := "could not encode change set: " +:+ e |})
                          (encode_actions ser actions) in
        if (max_change_set_bytes limits <? str_len encoded)%N
        then Err {| re_field := "actions";
                    re_message := "serialized change set exceeds "
                      +:+ pretty (max_change_set_bytes limits) +:+ " bytes" |}
        else Ok tt
  end.

End records.

(** ** Facts *)

(** Strictly ascending lists of non-empty names: what the target loop accepts. *)
Definition targets_canonical (l : list string) : Prop :=
  Sorted (fun a b => String.ltb a b = true) l /\ Forall (fun n => n <> "") l.

Lemma str_ltb_total a b : a <> b -> String.ltb b a = false -> String.ltb a b = true.
Proof.
  unfold String.ltb. rewrite (String.compare_antisym b a).
  destruct (String.compare a b) eqn:E; simpl; try done.
  intros Hne _. apply String.compare_eq_iff in E. done.
Qed.

Lemma str_ltb_asym a b : String.ltb a b = true -> a <> b /\ String.ltb b a = false.
Proof.
  unfold String.ltb. rewrite (String.compare_antisym b a).
  destruct (String.compare a b) eqn:E; simpl; try done.
  intros _. split; [|done]. intros ->.
  pose proof (String.compare_antisym b b) as Ha. by rewrite E in Ha.
Qed.

Lemma validate_targets_loop_Ok prev l :
  validate_targets_loop prev l = Ok tt <->
  Forall (fun n => n <> "") l /\
  Sorted (fun a b => String.ltb a b = true) (match prev with Some p => p :: l | None => l end).
Proof.
  revert prev; induction l as [|n l IH]; intros prev; simpl.
  - split; [|done]. intros _. destruct prev; repeat constructor.
  - destruct (is_empty_str n) eqn:En.
    + apply is_empty_str_spec in En as ->. split; [done|].
      intros [Hf _]. by inversion Hf.
    + assert (n <> "") as Hn by (intros ->; done).
      destruct prev as [p|].
      * case_bool_decide as Hnp.
        { subst. split; [done|]. intros [_ Hs]. inversion Hs as [|?? _ Hh]; subst.
          inversion Hh as [|?? Hlt]; subst. by apply str_ltb_asym in Hlt as []. }
        destruct (String.ltb n p) eqn:Elt.
        { split; [done|]. intros [_ Hs]. inversion Hs as [|?? _ Hh]; subst.
          inversion Hh as [|?? Hlt]; subst. apply str_ltb_asym in Hlt as []. congruence. }
        rewrite IH. rewrite Forall_cons. split.
        { intros [? ?]. split_and!; auto. constructor; [done|].
          constructor. apply str_ltb_total; congruence. }
        { intros [[? ?] Hs]. inversion Hs; auto. }
      * rewrite IH, Forall_cons. naive_solver.
Qed.

(** An accepted target list is non-empty, within the limit, and canonical:
    neither order nor repetition can change the digest computed over it. *)
Lemma validate_targets_spec l maximum :
  validate_targets l maximum = Ok tt <->
  l <> [] /\ (N.of_nat (length l) <= maximum)%N /\ targets_canonical l.
Proof.
  unfold validate_targets, targets_canonical. destruct l as [|x l]; [naive_solver|].
  destruct (N.ltb_spec maximum (N.of_nat (length (x :: l)))).
  - split; [done|]. intros (_&?&_). lia.
  - rewrite validate_targets_loop_Ok. naive_solver lia.
Qed.

Lemma validate_target_set_spec r maximum :
  validate_target_set r maximum = Ok tt ->
  cs_device r ∈ targets r /\ targets_canonical (cs_targets r).
Proof.
  unfold validate_target_set, targets. destruct (cs_targets r) as [|t ts].
  - intros _. split; [set_solver|]. split; constructor.
  - rewrite result_bind_Ok. intros ([]&(_&_&?)%validate_targets_spec&Hd).
    case_bool_decide; [done|done].
Qed.

Lemma validate_preview_spec `{Externals} r maximum :
  validate_preview r maximum = Ok tt ->
  forall p, cs_preview r = Some p ->
  pv_digest p = preview_digest (pv_artifact p) /\ (str_len (pv_artifact p) <= maximum)%N.
Proof.
  unfold validate_preview. intros Hv p Hp. rewrite Hp in Hv.
  destruct (N.ltb_spec maximum (str_len (pv_artifact p))) as [|Hle]; [done|].
  apply result_bind_Ok in Hv as (?&_&Hv). case_bool_decide; [|done]. auto.
Qed.

Lemma require_operation_fingerprint_Ok r expected actual :
  require_operation_fingerprint r expected actual = Ok tt ->
  expected = actual /\ op_current r = actual /\ validate_fingerprint actual = Ok tt.
Proof.
  unfold require_operation_fingerprint. intros ([]&?%map_err_Ok&Hv)%result_bind_Ok.
  repeat case_bool_decide; simplify_eq; auto.
Qed.
