(* ===== verification/Secret.v ===== *)
(** * The hardened file reader (crates/mecmcp-secret/src/lib.rs)

    A file is what [open] and [fstat] report about it together with its
    content; the reader refuses everything but a private, regular, owned file
    within the size limit. *)

From S2P Require Import Prelude.

Inductive FileType := RegularFile | Symlink | OtherFile.

#[export] Instance FileType_eq_dec : EqDecision FileType.
Proof. solve_decision. Defined.

Record File (C : Type) := {
  f_type : FileType;
  f_mode : N;          (** [st_mode], permission bits and above *)
  f_uid : N;           (** [st_uid] *)
  f_gid : N;           (** [st_gid] *)
  f_size : N;          (** [st_size] when [fstat] ran *)
  f_read_len : N;      (** bytes present when the descriptor was read *)
  f_data : C;
}.
Arguments f_type {C}. Arguments f_mode {C}. Arguments f_uid {C}. Arguments f_gid {C}.
Arguments f_size {C}. Arguments f_read_len {C}. Arguments f_data {C}.

Inductive SecretError :=
| FileIo (detail : string)
| FileIsSymlink
| FileNotRegular
| FilePermissions (mode : N)
| FileWrongOwner (owner effective : N)
| FileTooLarge (actual limit : N).

Definition secret_error_to_string (e : SecretError) : string :=
  match e with
  | FileIo d => "file: " +:+ d
  | FileIsSymlink => "file is a symlink (symlinks are rejected for security)"
  | FileNotRegular => "file is not a regular file"
  | FilePermissions m => "file: mode " +:+ pretty m +:+ " is group- or world-accessible"
  | FileWrongOwner o e => "file: owner uid " +:+ pretty o
      +:+ " does not match effective uid " +:+ pretty e
  | FileTooLarge a l => "file is " +:+ pretty a +:+ " bytes, limit is " +:+ pretty l
  end.

(** [opened] is the outcome of opening the path: an I/O error, or the file.
    A symlink is refused by [O_NOFOLLOW] at open time. *)
Definition read_hardened_file {C} (euid max_bytes : N) (opened : result (File C) string) :
  result C SecretError :=
  let? f := map_err FileIo opened in
  if bool_decide (f_type f = Symlink) then Err FileIsSymlink
  else if negb (bool_decide (f_type f = RegularFile)) then Err FileNotRegular
  else
    let mode := N.land (f_mode f) 511 in
    if negb (N.land mode 63 =? 0)%N then Err (FilePermissions mode)
    else if negb (euid =? 0)%N && negb (f_uid f =? euid)%N
    then Err (FileWrongOwner (f_uid f) euid)
    else if (max_bytes <? f_size f)%N then Err (FileTooLarge (f_size f) max_bytes)
    else
      (* [take(max_bytes + 1)]: one byte more than allowed is enough to tell. *)
      let len := N.min (f_read_len f) (saturating_add max_bytes 1) in
      if (max_bytes <? len)%N then Err (FileTooLarge len max_bytes)
      else Ok (f_data f).

(** Acceptance: private, regular, owned (or read by root), and read in full. *)
Definition file_acceptable {C} (euid max_bytes : N) (f : File C) : Prop :=
  f_type f = RegularFile /\ N.land (N.land (f_mode f) 511) 63 = 0%N /\
  (euid = 0%N \/ f_uid f = euid) /\
  (f_size f <= max_bytes)%N /\
  (N.min (f_read_len f) (saturating_add max_bytes 1) <= max_bytes)%N.

Lemma read_hardened_file_Ok {C} euid max_bytes (opened : result (File C) string) c :
  read_hardened_file euid max_bytes opened = Ok c <->
  exists f, opened = Ok f /\ c = f_data f /\ file_acceptable euid max_bytes f.
Proof.
  unfold read_hardened_file, file_acceptable. rewrite result_bind_Ok.
  setoid_rewrite map_err_Ok. apply exist_proper; intros f.
  apply and_iff_compat_l.
  destruct (f_type f) eqn:Ht; simpl; try naive_solver.
  destruct (N.eqb_spec (N.land (N.land (f_mode f) 511) 63) 0); simpl; [|naive_solver].
  destruct (N.eqb_spec euid 0), (N.eqb_spec (f_uid f) euid); simpl;
  destruct (N.ltb_spec max_bytes (f_size f));
  destruct (N.ltb_spec max_bytes (N.min (f_read_len f) (saturating_add max_bytes 1)));
    intuition (first [congruence | lia]).
Qed.
