(* ===== verification/Persistence.v ===== *)
(** * Persistence (crates/mecmcp-changeset/src/persistence.rs)

    Validation of a loaded state, the migrations of old digests, the choice of
    the schema version a write declares, and the write itself.  JSON encoding
    of the whole state is [serde]'s: a codec with the round-trip law the code
    relies on. *)

From S2P Require Import Prelude Externals Lifecycle Types Digest Records Secret.

Definition PersistenceError := string.

(** [serde_json::to_vec_pretty] and [serde_json::from_slice] at
    [OnDiskChangesetState]. *)
Class StateCodec := {
  payload : Type;
  to_vec_pretty : OnDiskChangesetState -> payload;
  from_slice : payload -> result OnDiskChangesetState string;
  payload_len : payload -> N;
}.

Class StateCodecLaws `(StateCodec) : Prop := {
  from_to_slice : forall s, from_slice (to_vec_pretty s) = Ok s;
}.

Definition toy_codec : StateCodec := {|
  payload := OnDiskChangesetState;
  to_vec_pretty s := s;
  from_slice p := Ok p;
  payload_len p := N.of_nat (size (operations (od_state p)) + size (change_sets (od_state p)));
|}.

Lemma toy_codec_laws : StateCodecLaws toy_codec.
Proof. done. Qed.

Section persistence.
Context `{Externals}.

(** ** Validation *)

Definition validate_operation_id (value : string) : result unit PersistenceError :=
  if bool_decide (str_len value = 64%N) && str_forall is_lower_hex value
  then Ok tt
  else Err "value must contain exactly 64 hexadecimal characters".

Definition MAX_OPERATIONS : N := 1024.
Definition MAX_CHANGE_SETS : N := 1024.
Definition MAX_CHANGE_SET_ACTIONS : N := 64.

Definition validate_operation_record (id : string) (r : OperationRecord) :
  result unit PersistenceError :=
  check? validate_operation_id id;
  ensure bool_decide (id = op_id r) && negb (is_empty_str (op_owner r))
         && negb (is_empty_str (op_device r))
    else "changeset state contains an inconsistent operation record";
  check? map_err (fun e => "operation fingerprint invalid: " +:+ digest_error_to_string e)
           (validate_fingerprint (op_current r));
  ensure is_ok (url_parse (op_endpoint r))
         && negb (bool_decide (op_actions r = []))
    else "changeset state operation is missing endpoint/action metadata";
  Ok tt.

Definition preview_digest_of (r : ChangeSetRecord) : option string :=
  pv_digest <$> cs_preview r.

(** The digest a two-person approval must carry, or why there is none. *)
Definition expected_approver_digest (version : N) (key : option bytes) (id : string)
  (r : ChangeSetRecord) (approval : ApprovalRecord) (approver : string) :
  result string PersistenceError :=
  if (4 <=? version)%N then
    if (ap_digest_version approval =? 5)%N then
      Ok (compute_approval_digest_v5 id (cs_digest r) (preview_digest_of r) (cs_owner r)
            approver (ap_approved_at_unix approval))
    else if (ap_digest_version approval =? 4)%N then
      Ok (compute_approval_digest_v4 id (cs_digest r) (cs_owner r) approver
            (ap_approved_at_unix approval))
    else if (ap_digest_version approval =? 6)%N then
      match key with
      | None => Err "changeset state approval carries a v6 (keyed) digest but no approval digest key was supplied; it cannot be verified"
      | Some key =>
          if verify_approval_digest_v6 key id (cs_digest r) (preview_digest_of r)
               (cs_owner r) approver (ap_approved_at_unix approval) (ap_digest approval)
          then Ok (ap_digest approval)
          else Err "changeset state approval digest mismatch: approval evidence has been tampered with"
      end
    else Err ("changeset state approval carries unsupported digest version "
                +:+ pretty (ap_digest_version approval))
  else
    check? validate_principal_for_digest "owner" (cs_owner r);
    check? validate_principal_for_digest "approver" approver;
    Ok (compute_approval_digest_legacy id (cs_digest r) (cs_owner r) approver
          (ap_approved_at_unix approval)).

Definition expected_waiver_digest (version : N) (id : string) (r : ChangeSetRecord)
  (approval : ApprovalRecord) (waiver : WaiverRecord) : result string PersistenceError :=
  let v := pretty version in
  check?
    (if (version <? 3)%N then
       ensure bool_decide (w_kind waiver = LabMode)
         else "changeset state v" +:+ v +:+ " waiver cannot carry kind "
                +:+ waiver_kind_debug (w_kind waiver) +:+ " (v3-only metadata)";
       ensure bool_decide (w_expires_at_unix waiver = None)
         else "changeset state v" +:+ v +:+ " waiver cannot carry expires_at_unix (v3-only metadata)";
       ensure bool_decide (w_ticket waiver = None)
         else "changeset state v" +:+ v +:+ " waiver cannot carry ticket (v3-only metadata)";
       ensure bool_decide (w_reason waiver = "lab-mode")
         else "changeset state v" +:+ v +:+ " waiver has unexpected reason "
                +:+ str_debug (w_reason waiver) +:+ " (expected " +:+ str_debug "lab-mode" +:+ ")";
       Ok tt
     else Ok tt);
  if (3 <=? version)%N then
    Ok (compute_waiver_digest_v3 id (cs_digest r) (cs_owner r) (ap_approved_at_unix approval)
          waiver)
  else
    check? validate_principal_for_digest "owner" (cs_owner r);
    Ok (compute_waiver_digest id (cs_digest r) (cs_owner r) (ap_approved_at_unix approval)).

Definition expected_approval_digest (version : N) (key : option bytes) (id : string)
  (r : ChangeSetRecord) (approval : ApprovalRecord) : result string PersistenceError :=
  match ap_approver approval, ap_waived approval with
  | Some approver, _ => expected_approver_digest version key id r approval approver
  | None, Some waiver => expected_waiver_digest version id r approval waiver
  | None, None =>
      check? validate_principal_for_digest "owner" (cs_owner r);
      Ok (compute_waiver_digest id (cs_digest r) (cs_owner r) (ap_approved_at_unix approval))
  end.

Definition validate_approval (version : N) (key : option bytes) (id : string)
  (r : ChangeSetRecord) (approval : ApprovalRecord) : result unit PersistenceError :=
  check? map_err (fun e => "approval digest invalid: " +:+ digest_error_to_string e)
           (validate_digest (ap_digest approval) "approval_digest");
  ensure negb (bool_decide (is_Some (ap_approver approval))
               && bool_decide (is_Some (ap_waived approval)))
    else "changeset state approval record has both approver and waived fields set (mutually exclusive)";
  ensure negb (bool_decide (is_Some key) && bool_decide (is_Some (ap_approver approval))
               && negb (ap_digest_version approval =? 6)%N)
    else "changeset state approval carries digest_version "
           +:+ pretty (ap_digest_version approval)
           +:+ " but this deployment requires keyed (v6) approvals: it is not signed under the keyed rule";
  ensure negb (bool_decide (ap_approver approval = Some (cs_owner r)))
    else "changeset state approval record has the same principal as owner and approver";
  let? expected := expected_approval_digest version key id r approval in
  ensure bool_decide (expected = ap_digest approval)
    else "changeset state approval digest mismatch: approval evidence has been tampered with";
  Ok tt.

(** The part of a change-set record an approval signs: identity, plan, targets
    and preview. *)
Definition validate_change_set_plan (id : string) (r : ChangeSetRecord) :
  result unit PersistenceError :=
  check? validate_operation_id id;
  ensure bool_decide (id = cs_id r) && negb (is_empty_str (cs_owner r))
         && negb (is_empty_str (cs_device r))
    else "changeset state contains an inconsistent change-set record";
  check? map_err (fun e => "change-set fingerprint invalid: " +:+ digest_error_to_string e)
           (validate_fingerprint (cs_expected_candidate_fingerprint r));
  check? map_err (fun e => "change-set digest invalid: " +:+ digest_error_to_string e)
           (validate_digest (cs_digest r) "digest");
  ensure negb (bool_decide (cs_actions r = []))
         && (N.of_nat (length (cs_actions r)) <=? MAX_CHANGE_SET_ACTIONS)%N
    else "changeset state change set has an invalid action count";
  check? map_err (fun e => "changeset state " +:+ target_error_to_string e)
           (validate_target_set r usize_max);
  let? expected := map_err (fun e => "could not recompute change-set digest: "
                                        +:+ digest_error_to_string e)
      (change_set_digest_with_targets (cs_owner r) (cs_device r)
         (cs_expected_candidate_fingerprint r) (cs_actions r) (cs_targets r)) in
  ensure bool_decide (expected = cs_digest r)
    else "changeset state change-set digest mismatch";
  check? map_err (fun e => "changeset state " +:+ preview_error_to_string e)
           (validate_preview r usize_max);
  Ok tt.

Definition validate_change_set_record (version : N) (key : option bytes) (id : string)
  (r : ChangeSetRecord) : result unit PersistenceError :=
  check? validate_change_set_plan id r;
  check? (match cs_approval r with
          | Some approval => validate_approval version key id r approval
          | None => Ok tt
          end);
  ensure negb (bool_decide (cs_approver r = Some (cs_owner r)))
    else "changeset state has the same principal as owner and approver";
  Ok tt.

Definition validate_state_with_key (st : ChangesetState) (version : N) (key : option bytes) :
  result unit PersistenceError :=
  ensure negb ((MAX_OPERATIONS <? N.of_nat (size (operations st)))%N
               || (MAX_CHANGE_SETS <? N.of_nat (size (change_sets st)))%N)
    else "changeset state contains too many records";
  check? try_each (fun kv => validate_operation_record kv.1 kv.2) (btree_list (operations st));
  try_each (fun kv => validate_change_set_record version key kv.1 kv.2)
    (btree_list (change_sets st)).

Definition validate_state (st : ChangesetState) (version : N) : result unit PersistenceError :=
  validate_state_with_key st version None.

(** ** Migration of verified legacy digests *)

Definition migrate_waiver (r : ChangeSetRecord) : ChangeSetRecord :=
  match cs_approval r with
  | Some approval =>
      match ap_waived approval with
      | Some waiver =>
          set_cs_approval (cs_approver r) (Some {|
            ap_approver := ap_approver approval;
            ap_approved_at_unix := ap_approved_at_unix approval;
            ap_digest := compute_waiver_digest_v3 (cs_id r) (cs_digest r) (cs_owner r)
                           (ap_approved_at_unix approval) waiver;
            ap_digest_version := ap_digest_version approval;
            ap_waived := Some waiver |}) r
      | None => r
      end
  | None => r
  end.

Definition migrate_approval (r : ChangeSetRecord) : ChangeSetRecord :=
  match cs_approval r with
  | Some approval =>
      match ap_approver approval with
      | Some approver =>
          set_cs_approval (cs_approver r) (Some {|
            ap_approver := Some approver;
            ap_approved_at_unix := ap_approved_at_unix approval;
            ap_digest := compute_approval_digest_v4 (cs_id r) (cs_digest r) (cs_owner r)
                           approver (ap_approved_at_unix approval);
            ap_digest_version := 4;
            ap_waived := ap_waived approval |}) r
      | None => r
      end
  | None => r
  end.

Definition migrate_state (version : N) (st : ChangesetState) : ChangesetState :=
  let st := if (version <? 3)%N then set_change_sets (fmap migrate_waiver) st else st in
  if (version <? 4)%N then set_change_sets (fmap migrate_approval) st else st.

(** ** Reading *)

Context `{StateCodec}.

Definition StateFile := File payload.

Definition read_state_with_key (uid : N) (opened : result StateFile string)
  (max_state_bytes : N) (key : option bytes) : result ChangesetState PersistenceError :=
  let? data := map_err (fun e => "could not read changeset state: " +:+ secret_error_to_string e)
                 (read_hardened_file uid (N.min max_state_bytes usize_max) opened) in
  let? on_disk := map_err (fun e => "invalid changeset state JSON: " +:+ e) (from_slice data) in
  ensure (1 <=? od_version on_disk)%N && (od_version on_disk <=? 7)%N
    else "unsupported changeset state version " +:+ pretty (od_version on_disk);
  check? validate_state_with_key (od_state on_disk) (od_version on_disk) key;
  Ok (migrate_state (od_version on_disk) (od_state on_disk)).

Definition read_state (uid : N) (opened : result StateFile string) (max_state_bytes : N) :
  result ChangesetState PersistenceError :=
  read_state_with_key uid opened max_state_bytes None.

(** ** Writing *)

(** An empty task handle names no vendor operation and is dropped. *)
Definition drop_empty_handle (r : ChangeSetRecord) : ChangeSetRecord :=
  if bool_decide (cs_task_id r = Some "") then set_cs_task_id None r else r.

Definition drop_empty_handles (st : ChangesetState) : ChangesetState :=
  if any (fun r => bool_decide (cs_task_id r = Some "")) (btree_values (change_sets st))
  then set_change_sets (fmap drop_empty_handle) st
  else st.

(** What each schema generation was introduced for. *)
Definition op_needs_v2 (r : OperationRecord) : bool :=
  bool_decide (is_Some (op_attribution r))
  || bool_decide (is_Some (op_rollback_deadline_unix r)).
Definition cs_needs_v2 (r : ChangeSetRecord) : bool :=
  negb (is_empty_str (cs_policy_signature r)) || negb (bool_decide (cs_targets r = []))
  || bool_decide (is_Some (cs_preview r)) || bool_decide (is_Some (cs_task_id r)).
Definition endpoint_needs_v2 (r : OperationRecord) : bool :=
  negb (starts_with "https://" (op_endpoint r)).
Definition needs_v3 (r : ChangeSetRecord) : bool :=
  match cs_approval r with
  | Some a => bool_decide (is_Some (ap_waived a))
  | None => false
  end.
Definition needs_v4 (r : ChangeSetRecord) : bool :=
  match cs_approval r with
  | Some a => bool_decide (is_Some (ap_approver a))
  | None => false
  end.
Definition digest_version_at_least (v : N) (r : ChangeSetRecord) : bool :=
  match cs_approval r with
  | Some a => (v <=? ap_digest_version a)%N
  | None => false
  end.

Definition select_version (st : ChangesetState) : N :=
  let ops := btree_values (operations st) in
  let css := btree_values (change_sets st) in
  if any (digest_version_at_least 6) css then 7
  else if any (digest_version_at_least 5) css then 6
  else if any cs_apply_without_handle css then 5
  else if any needs_v4 css then 4
  else if any needs_v3 css then 3
  else if any op_needs_v2 ops || any cs_needs_v2 css || any endpoint_needs_v2 ops then 2
  else 1.

(** How the filesystem treats one write: the payload lands and is synced, some
    step before the rename fails, or the rename lands and the directory sync
    fails. *)
Inductive WriteFate :=
| FateOk
| FateBefore (detail : string)
| FateAfter (detail : string).

(** The process doing the write: its effective uid, the gid the kernel gives
    its temporary file, and whether its [chown] calls succeed. *)
Record Process := { euid : N; temp_gid : N; can_chown : bool }.

Definition needs_ownership_change (replacement_uid replacement_gid destination_uid
  destination_gid : N) : bool :=
  negb (replacement_uid =? destination_uid)%N || negb (replacement_gid =? destination_gid)%N.

(** The file the rename installs: created 0600 by this process, and chowned
    (best effort) to the destination's owner when that differs. *)
Definition written_file (proc : Process) (old : option StateFile) (p : payload) : StateFile :=
  let '(uid, gid) :=
    match old with
    | Some f =>
        if needs_ownership_change (euid proc) (temp_gid proc) (f_uid f) (f_gid f)
           && can_chown proc
        then (f_uid f, f_gid f) else (euid proc, temp_gid proc)
    | None => (euid proc, temp_gid proc)
    end in
  {| f_type := RegularFile; f_mode := 384; f_uid := uid; f_gid := gid;
     f_size := payload_len p; f_read_len := payload_len p; f_data := p |}.

Definition write_state (proc : Process) (max_state_bytes : N) (fate : WriteFate)
  (st : ChangesetState) (old : option StateFile) :
  result unit PersistenceError * option StateFile :=
  let st := drop_empty_handles st in
  let p := to_vec_pretty {| od_version := select_version st; od_state := st |} in
  if (max_state_bytes <? payload_len p)%N
  then (Err ("serialized changeset state exceeds " +:+ pretty max_state_bytes +:+ " bytes"), old)
  else match fate with
       | FateBefore d => (Err d, old)
       | FateAfter d =>
           (Err ("could not sync state directory: " +:+ d), Some (written_file proc old p))
       | FateOk => (Ok tt, Some (written_file proc old p))
       end.

End persistence.

(** ** Validation, record by record *)

Section validation_facts.
Context `{Externals}.

Lemma validate_state_Ok st version key :
  validate_state_with_key st version key = Ok tt <->
  (N.of_nat (size (operations st)) <= MAX_OPERATIONS)%N /\
  (N.of_nat (size (change_sets st)) <= MAX_CHANGE_SETS)%N /\
  (forall k r, operations st !! k = Some r -> validate_operation_record k r = Ok tt) /\
  (forall k r, change_sets st !! k = Some r ->
     validate_change_set_record version key k r = Ok tt).
Proof.
  unfold validate_state_with_key.
  destruct (N.ltb_spec MAX_OPERATIONS (N.of_nat (size (operations st))));
    [simpl; split; [done|lia]|].
  destruct (N.ltb_spec MAX_CHANGE_SETS (N.of_nat (size (change_sets st))));
    [simpl; split; [done|lia]|].
  simpl. rewrite result_bind_Ok. split.
  - intros ([]&Hops&Hcs). cbv beta in Hcs. rewrite try_each_Ok in Hops. rewrite try_each_Ok in Hcs.
    split_and!; try done; intros k r Hr.
    + by apply (Hops (k, r)), elem_of_btree_list.
    + by apply (Hcs (k, r)), elem_of_btree_list.
  - intros (_&_&Hops&Hcs). exists tt. cbv beta.
    split; apply try_each_Ok; intros [k r] Hr%elem_of_btree_list; simpl; auto.
Qed.

Lemma persistence_operation_id_Ok s : validate_operation_id s = Ok tt <-> is_hex64 s.
Proof.
  unfold validate_operation_id, is_hex64. case_bool_decide; simpl;
    [destruct (str_forall _ _)|]; intuition congruence.
Qed.

Lemma is_empty_str_false s : negb (is_empty_str s) = true <-> s <> "".
Proof. destruct s; naive_solver. Qed.

Lemma validate_operation_record_Ok id r :
  validate_operation_record id r = Ok tt <->
  is_hex64 id /\ op_id r = id /\ op_owner r <> "" /\ op_device r <> "" /\
  validate_fingerprint (op_current r) = Ok tt /\
  is_ok (url_parse (op_endpoint r)) = true /\ op_actions r <> [].
Proof.
  unfold validate_operation_record.
  rewrite check_Ok, ensure_Ok, check_Ok, ensure_Ok, map_err_Ok, persistence_operation_id_Ok,
    !andb_true_iff, !is_empty_str_false, negb_bool_decide, bool_decide_eq_true.
  naive_solver.
Qed.

Lemma validate_plan_Ok id r :
  validate_change_set_plan id r = Ok tt <->
  is_hex64 id /\ cs_id r = id /\ cs_owner r <> "" /\ cs_device r <> "" /\
  validate_fingerprint (cs_expected_candidate_fingerprint r) = Ok tt /\
  validate_digest (cs_digest r) "digest" = Ok tt /\
  cs_actions r <> [] /\ (N.of_nat (length (cs_actions r)) <= MAX_CHANGE_SET_ACTIONS)%N /\
  validate_target_set r usize_max = Ok tt /\
  change_set_digest_with_targets (cs_owner r) (cs_device r)
    (cs_expected_candidate_fingerprint r) (cs_actions r) (cs_targets r) = Ok (cs_digest r) /\
  validate_preview r usize_max = Ok tt.
Proof.
  unfold validate_change_set_plan.
  rewrite check_Ok, ensure_Ok, !check_Ok, ensure_Ok, check_Ok, result_bind_Ok, !map_err_Ok,
    persistence_operation_id_Ok, !andb_true_iff, !is_empty_str_false, negb_bool_decide,
    bool_decide_eq_true, N.leb_le.
  setoid_rewrite ensure_Ok. setoid_rewrite check_Ok. setoid_rewrite map_err_Ok.
  setoid_rewrite bool_decide_eq_true.
  split.
  - intros (?&((?&?)&?)&?&?&(?&?)&?&d&?&?&?&_). subst. split_and!; done.
  - intros (?&?&?&?&?&?&?&?&?&?&?). subst. split_and!; try done. eexists; split_and!; done.
Qed.

Lemma validate_record_Ok version key id r :
  validate_change_set_record version key id r = Ok tt <->
  validate_change_set_plan id r = Ok tt /\
  (forall a, cs_approval r = Some a -> validate_approval version key id r a = Ok tt) /\
  cs_approver r <> Some (cs_owner r).
Proof.
  unfold validate_change_set_record. rewrite result_bind_Ok. split.
  - intros ([]&Hp&([]&Ha&Ho)%result_bind_Ok). split; [done|]. split.
    + intros a Ea. by rewrite Ea in Ha.
    + intros Heq. by rewrite bool_decide_eq_true_2 in Ho.
  - intros (Hp&Ha&Ho). exists tt; split; [done|]. apply result_bind_Ok. exists tt.
    rewrite bool_decide_eq_false_2 by done. split; [|done].
    destruct (cs_approval r); auto.
Qed.

Lemma validate_approval_Ok version key id r a :
  validate_approval version key id r a = Ok tt <->
  validate_digest (ap_digest a) "approval_digest" = Ok tt /\
  ~ (is_Some (ap_approver a) /\ is_Some (ap_waived a)) /\
  ~ (is_Some key /\ is_Some (ap_approver a) /\ ap_digest_version a <> 6%N) /\
  ap_approver a <> Some (cs_owner r) /\
  expected_approval_digest version key id r a = Ok (ap_digest a).
Proof.
  unfold validate_approval. rewrite result_bind_Ok. split.
  - intros ([]&Hd%map_err_Ok&Hr). split; [done|].
    apply ensure_Ok in Hr as [H1 Hr]. apply ensure_Ok in Hr as [H2 Hr].
    apply ensure_Ok in Hr as [H3 Hr]. apply result_bind_Ok in Hr as (d&Hd'&Hr).
    apply ensure_Ok in Hr as [->%bool_decide_eq_true _].
    apply negb_true_iff, andb_false_iff in H1.
    apply negb_true_iff, andb_false_iff in H2.
    apply negb_true_iff, bool_decide_eq_false in H3.
    split_and!; try done.
    + destruct H1 as [H1%bool_decide_eq_false|H1%bool_decide_eq_false]; tauto.
    + destruct H2 as [H2|H2]; [apply andb_false_iff in H2 as
        [H2%bool_decide_eq_false|H2%bool_decide_eq_false]; tauto|].
      apply negb_false_iff, N.eqb_eq in H2. tauto.
  - intros (Hd&H1&H2&H3&He). exists tt. split; [by apply map_err_Ok|].
    apply ensure_Ok; split; [|apply ensure_Ok; split; [|apply ensure_Ok; split]].
    + apply negb_true_iff, andb_false_iff.
      destruct (decide (is_Some (ap_approver a))).
      * right. apply bool_decide_eq_false. tauto.
      * left. by apply bool_decide_eq_false.
    + apply negb_true_iff. destruct (N.eqb_spec (ap_digest_version a) 6);
        [by rewrite andb_false_r|]. rewrite andb_true_r. apply andb_false_iff.
      destruct (decide (is_Some key)).
      * right. apply bool_decide_eq_false. tauto.
      * left. by apply bool_decide_eq_false.
    + by apply negb_true_iff, bool_decide_eq_false.
    + apply result_bind_Ok. eexists; split; [done|]. by rewrite bool_decide_eq_true_2.
Qed.

(** The schema version matters to a record only through the encoding of its
    approval: an approver needs version 4, a waiver version 3. *)
Definition version_adequate (version : N) (r : ChangeSetRecord) : Prop :=
  (needs_v4 r = true -> (4 <= version)%N) /\ (needs_v3 r = true -> (3 <= version)%N).

Lemma validate_approval_version v v' key id r a :
  cs_approval r = Some a ->
  version_adequate v r -> version_adequate v' r ->
  validate_approval v key id r a = validate_approval v' key id r a.
Proof.
  intros Ha Hv Hv'. unfold version_adequate, needs_v4, needs_v3 in Hv, Hv'.
  rewrite Ha in Hv, Hv'. unfold validate_approval, expected_approval_digest.
  destruct (ap_approver a) as [approver|] eqn:Eap.
  - assert (4 <= v)%N by (apply Hv, bool_decide_eq_true; eauto).
    assert (4 <= v')%N by (apply Hv', bool_decide_eq_true; eauto).
    unfold expected_approver_digest.
    by rewrite !(proj2 (N.leb_le 4 _)) by done.
  - destruct (ap_waived a) as [w|] eqn:Ew; [|done].
    assert (3 <= v)%N by (apply Hv, bool_decide_eq_true; eauto).
    assert (3 <= v')%N by (apply Hv', bool_decide_eq_true; eauto).
    unfold expected_waiver_digest.
    by rewrite !(proj2 (N.leb_le 3 _)), !(proj2 (N.ltb_ge _ 3)) by done.
Qed.

Lemma validate_record_version v v' key id r :
  version_adequate v r -> version_adequate v' r ->
  validate_change_set_record v key id r = validate_change_set_record v' key id r.
Proof.
  intros Hv Hv'. unfold validate_change_set_record.
  destruct (cs_approval r) as [a|] eqn:Ha; [|done].
  by rewrite (validate_approval_version v v' key id r a).
Qed.

Lemma select_version_range st : (1 <= select_version st <= 7)%N.
Proof. unfold select_version. repeat case_match; lia. Qed.

Lemma select_version_adequate st k r :
  change_sets st !! k = Some r -> version_adequate (select_version st) r.
Proof.
  intros Hr. assert (r ∈ btree_values (change_sets st)) as Hin
    by (apply elem_of_btree_values; eauto).
  unfold version_adequate, select_version; split; intros Hn;
    repeat case_match; try lia; exfalso;
    repeat match goal with E : any _ _ = false |- _ =>
      pose proof (proj1 (any_false _ _) E r Hin); clear E end; congruence.
Qed.

End validation_facts.
