(* ===== verification/Reload.v ===== *)
(** * Reloading what was written

    The schema version a write declares is always one under which every record
    it writes still validates, so a state that was read, possibly migrated, and
    written back is read again as itself. *)

From S2P Require Import Prelude Externals Lifecycle Types Digest Records Secret Persistence.

Section reload.
Context `{HL : ExternalsLaws}.

(** ** Migration, one record at a time *)

Definition migrate_record (version : N) (r : ChangeSetRecord) : ChangeSetRecord :=
  let r := if (version <? 3)%N then migrate_waiver r else r in
  if (version <? 4)%N then migrate_approval r else r.

Lemma migrate_state_operations version st :
  operations (migrate_state version st) = operations st.
Proof. unfold migrate_state. by repeat case_match. Qed.

Lemma migrate_state_change_sets version st :
  change_sets (migrate_state version st) = migrate_record version <$> change_sets st.
Proof.
  unfold migrate_state, migrate_record.
  destruct (N.ltb_spec version 3), (N.ltb_spec version 4); try lia; simpl.
  - by rewrite <-map_fmap_compose.
  - done.
  - by rewrite map_fmap_id.
Qed.

Lemma validate_plan_set_approval id ap a r :
  validate_change_set_plan id (set_cs_approval ap a r) = validate_change_set_plan id r.
Proof. done. Qed.

Lemma validate_plan_id id r : validate_change_set_plan id r = Ok tt -> cs_id r = id.
Proof.
  unfold validate_change_set_plan. intros ([]&_&Hplan)%result_bind_Ok.
  apply ensure_Ok in Hplan as [Hc _].
  apply andb_true_iff in Hc as [Hc _]. apply andb_true_iff in Hc as [Hc _].
  by apply bool_decide_eq_true in Hc.
Qed.

(** A two-person approval resigned under v4 verifies under every version that
    can carry it; the same for a waiver resigned under v3. *)
Lemma migrate_approval_valid v v' id r a approver :
  cs_approval r = Some a -> ap_approver a = Some approver ->
  validate_change_set_record v None id r = Ok tt -> (4 <= v')%N ->
  validate_change_set_record v' None id (migrate_approval r) = Ok tt.
Proof.
  intros Ea Eap (Hplan&Happ&Hown)%validate_record_Ok Hv'.
  apply Happ in Ea as Hok. apply validate_approval_Ok in Hok as (_&Hexcl&_&Hself&_).
  unfold migrate_approval. rewrite Ea, Eap.
  apply validate_record_Ok. split; [done|]. split; [|done].
  intros a' [= <-]. apply validate_approval_Ok. simpl. split_and!.
  - apply sha256_digest_valid, digest_hex_is_hex64.
  - rewrite Eap in Hexcl. done.
  - intros [[? ?] _]. done.
  - congruence.
  - unfold expected_approval_digest, expected_approver_digest; simpl.
    rewrite (proj2 (N.leb_le 4 v')) by done. by rewrite (validate_plan_id _ _ Hplan).
Qed.

Lemma migrate_waiver_valid v v' id r a w :
  cs_approval r = Some a -> ap_waived a = Some w ->
  validate_change_set_record v None id r = Ok tt -> (3 <= v')%N ->
  validate_change_set_record v' None id (migrate_waiver r) = Ok tt.
Proof.
  intros Ea Ew (Hplan&Happ&Hown)%validate_record_Ok Hv'.
  apply Happ in Ea as Hok. apply validate_approval_Ok in Hok as (_&Hexcl&_&Hself&_).
  assert (ap_approver a = None) as Eap.
  { destruct (ap_approver a); [|done]. exfalso. apply Hexcl. rewrite Ew. eauto. }
  unfold migrate_waiver. rewrite Ea, Ew.
  apply validate_record_Ok. split; [done|]. split; [|done].
  intros a' [= <-]. apply validate_approval_Ok. simpl. rewrite Eap. split_and!.
  - apply sha256_digest_valid, digest_hex_is_hex64.
  - by intros [[? ?] _].
  - by intros [[? ?] _].
  - done.
  - unfold expected_approval_digest, expected_waiver_digest; simpl.
    rewrite (proj2 (N.leb_le 3 v')), (proj2 (N.ltb_ge v' 3)) by done. simpl.
    by rewrite (validate_plan_id _ _ Hplan).
Qed.

Lemma needs_v3_spec r :
  needs_v3 r = true <-> exists a w, cs_approval r = Some a /\ ap_waived a = Some w.
Proof.
  unfold needs_v3. destruct (cs_approval r) as [a|]; [|naive_solver].
  rewrite bool_decide_eq_true. split; [intros [w ?]; eauto|]. naive_solver.
Qed.

Lemma needs_v4_spec r :
  needs_v4 r = true <-> exists a p, cs_approval r = Some a /\ ap_approver a = Some p.
Proof.
  unfold needs_v4. destruct (cs_approval r) as [a|]; [|naive_solver].
  rewrite bool_decide_eq_true. split; [intros [w ?]; eauto|]. naive_solver.
Qed.

Lemma migrate_waiver_id r : needs_v3 r = false -> migrate_waiver r = r.
Proof.
  unfold needs_v3, migrate_waiver. destruct (cs_approval r) as [a|]; [|done].
  by destruct (ap_waived a).
Qed.

Lemma migrate_approval_id r : needs_v4 r = false -> migrate_approval r = r.
Proof.
  unfold needs_v4, migrate_approval. destruct (cs_approval r) as [a|]; [|done].
  by destruct (ap_approver a).
Qed.

Lemma needs_v4_migrate_waiver r : needs_v4 (migrate_waiver r) = needs_v4 r.
Proof.
  unfold needs_v4, migrate_waiver. destruct (cs_approval r) as [a|] eqn:Ea; [|by rewrite Ea].
  destruct (ap_waived a); simpl; [done|by rewrite Ea].
Qed.

(** What a migration does to a record that verified: nothing, or one of the two
    resignings. *)
Lemma migrate_record_cases v id r :
  validate_change_set_record v None id r = Ok tt ->
  (migrate_record v r = r /\ version_adequate v r) \/
  (needs_v4 r = true /\ migrate_record v r = migrate_approval r) \/
  (needs_v3 r = true /\ migrate_record v r = migrate_waiver r).
Proof.
  intros (_&Happ&_)%validate_record_Ok. unfold migrate_record, version_adequate.
  destruct (needs_v4 r) eqn:E4, (needs_v3 r) eqn:E3.
  - apply needs_v4_spec in E4 as (a&p&Ea&Hp). apply needs_v3_spec in E3 as (a'&w&Ea'&Hw).
    apply Happ in Ea' as Hok. apply validate_approval_Ok in Hok as (_&Hexcl&_).
    exfalso. apply Hexcl. rewrite Ea in Ea'. naive_solver.
  - rewrite (migrate_waiver_id r) by done.
    destruct (N.ltb_spec v 4), (v <? 3)%N; auto; left; split_and!; auto; lia.
  - rewrite !migrate_approval_id by (destruct (v <? 3)%N; by rewrite ?needs_v4_migrate_waiver).
    destruct (N.ltb_spec v 3), (v <? 4)%N; auto; left; split_and!; auto; lia.
  - rewrite migrate_waiver_id by done. rewrite migrate_approval_id by (by destruct (v <? 3)%N).
    left. split; [|done]. by destruct (v <? 4)%N, (v <? 3)%N.
Qed.

Lemma migrated_record_valid v key id r :
  validate_change_set_record v key id r = Ok tt ->
  key = None \/ (4 <= v)%N ->
  forall v', version_adequate v' (migrate_record v r) ->
  validate_change_set_record v' key id (migrate_record v r) = Ok tt.
Proof.
  intros Hv Hkey v' Hv'. destruct (decide (4 <= v)%N) as [Hge|Hlt].
  { assert (migrate_record v r = r) as Hm.
    { unfold migrate_record. by rewrite !(proj2 (N.ltb_ge v _)) by lia. }
    rewrite Hm in *. rewrite (validate_record_version v' v); [done|done|]. split; lia. }
  destruct Hkey as [->|?]; [|done].
  destruct (migrate_record_cases v id r Hv)
    as [[Hm Hva]|[[(a&ap&Ea&Eap)%needs_v4_spec Hm]|[(a&w&Ea&Ew)%needs_v3_spec Hm]]];
    rewrite Hm in *.
  - by rewrite (validate_record_version v' v).
  - eapply migrate_approval_valid; eauto. apply Hv'.
    unfold migrate_approval, needs_v4. by rewrite Ea, Eap.
  - eapply migrate_waiver_valid; eauto. apply Hv'.
    unfold migrate_waiver, needs_v3. by rewrite Ea, Ew.
Qed.

(** ** Empty task handles *)

Lemma drop_empty_handle_validate v key id r :
  validate_change_set_record v key id (drop_empty_handle r)
  = validate_change_set_record v key id r.
Proof. unfold drop_empty_handle. by case_bool_decide. Qed.

Lemma drop_empty_handles_operations st :
  operations (drop_empty_handles st) = operations st.
Proof. unfold drop_empty_handles. by case_match. Qed.

Lemma drop_empty_handles_change_sets st :
  change_sets (drop_empty_handles st) = drop_empty_handle <$> change_sets st.
Proof.
  unfold drop_empty_handles. case_match eqn:E; [done|].
  apply map_eq; intros k. rewrite lookup_fmap.
  destruct (change_sets st !! k) as [r|] eqn:Er; simpl; [|done]. f_equal.
  assert (bool_decide (cs_task_id r = Some "") = false) as Ht.
  { apply (proj1 (any_false _ _) E), elem_of_btree_values. eauto. }
  unfold drop_empty_handle. by rewrite Ht.
Qed.

(** ** Round trip *)

(** A state every record of which validates under every adequate version: what
    [write_state] can be given. *)
Definition reloadable (key : option bytes) (st : ChangesetState) : Prop :=
  (N.of_nat (size (operations st)) <= MAX_OPERATIONS)%N /\
  (N.of_nat (size (change_sets st)) <= MAX_CHANGE_SETS)%N /\
  (forall k r, operations st !! k = Some r -> validate_operation_record k r = Ok tt) /\
  (forall k r, change_sets st !! k = Some r ->
     forall v, version_adequate v r -> validate_change_set_record v key k r = Ok tt).

Lemma reloadable_validates key st :
  reloadable key st -> validate_state_with_key st (select_version st) key = Ok tt.
Proof.
  intros (?&?&?&Hcs). apply validate_state_Ok. split_and!; try done.
  intros k r Hr. apply (Hcs k r Hr). by eapply select_version_adequate.
Qed.

Lemma reloadable_drop key st : reloadable key st -> reloadable key (drop_empty_handles st).
Proof.
  intros (Hs1&Hs2&Hops&Hcs). unfold reloadable.
  rewrite drop_empty_handles_operations, drop_empty_handles_change_sets, map_size_fmap.
  split_and!; try done. intros k r' Hr' v Hv.
  rewrite lookup_fmap in Hr'. destruct (change_sets st !! k) as [r|] eqn:Er; [|done].
  simpl in Hr'. injection Hr' as <-. rewrite drop_empty_handle_validate.
  apply (Hcs k r Er). revert Hv. unfold drop_empty_handle. by case_bool_decide.
Qed.

Lemma validated_reloadable st v key :
  validate_state_with_key st v key = Ok tt -> key = None \/ (4 <= v)%N ->
  reloadable key (migrate_state v st).
Proof.
  intros (Hs1&Hs2&Hops&Hcs)%validate_state_Ok Hkey. unfold reloadable.
  rewrite migrate_state_operations, migrate_state_change_sets, map_size_fmap.
  split_and!; try done. intros k r' Hr'.
  rewrite lookup_fmap in Hr'. destruct (change_sets st !! k) as [r|] eqn:Er; [|done].
  simpl in Hr'. injection Hr' as <-. intros v' Hv'.
  by eapply migrated_record_valid; [apply (Hcs k r Er)| |].
Qed.

(** A reloadable state needs no further migration under the version its own
    content selects. *)
Lemma select_version_stable st : migrate_state (select_version st) st = st.
Proof.
  destruct st as [ops css]. unfold migrate_state, set_change_sets; simpl.
  set (v := select_version _).
  assert (forall k r, css !! k = Some r -> version_adequate v r) as Hv
    by (intros k r Hr; eapply select_version_adequate; simpl; eauto).
  assert ((v < 3)%N -> migrate_waiver <$> css = css) as Hw.
  { intros Hlt. apply map_eq; intros k. rewrite lookup_fmap.
    destruct (css !! k) as [r|] eqn:Er; simpl; [|done]. f_equal.
    apply migrate_waiver_id. destruct (Hv k r Er) as [_ H3].
    destruct (needs_v3 r); [|done]. specialize (H3 eq_refl). lia. }
  assert ((v < 4)%N -> migrate_approval <$> css = css) as Ha.
  { intros Hlt. apply map_eq; intros k. rewrite lookup_fmap.
    destruct (css !! k) as [r|] eqn:Er; simpl; [|done]. f_equal.
    apply migrate_approval_id. destruct (Hv k r Er) as [H4 _].
    destruct (needs_v4 r); [|done]. specialize (H4 eq_refl). lia. }
  destruct (N.ltb_spec v 3), (N.ltb_spec v 4); simpl; rewrite ?Hw, ?Ha by done; done.
Qed.

Context `{CL : StateCodecLaws}.

Lemma written_file_acceptable proc old p max :
  (payload_len p <= max)%N ->
  (forall f, old = Some f -> euid proc = 0%N \/ f_uid f = euid proc) ->
  file_acceptable (euid proc) max (written_file proc old p).
Proof.
  intros Hlen Hold. unfold written_file, file_acceptable, saturating_add.
  destruct old as [f|]; [specialize (Hold f eq_refl)|]; repeat case_match; simplify_eq;
    simpl; split_and!; auto; lia.
Qed.

(** What is written reads back as the state that was given, its empty task
    handles dropped. *)
Lemma write_then_read proc max fate st old f key :
  (max <= u64_max)%N ->
  reloadable key st ->
  (forall f, old = Some f -> euid proc = 0%N \/ f_uid f = euid proc) ->
  (forall d, fate <> FateBefore d) ->
  (payload_len (to_vec_pretty {| od_version := select_version (drop_empty_handles st);
                                 od_state := drop_empty_handles st |}) <= max)%N ->
  (write_state proc max fate st old).2 = Some f ->
  read_state_with_key (euid proc) (Ok f) max key = Ok (drop_empty_handles st).
Proof.
  intros Hmax Hre Hold Hfate Hlen Hw. unfold write_state in Hw.
  set (st' := drop_empty_handles st) in *.
  destruct (N.ltb_spec max (payload_len (to_vec_pretty
    {| od_version := select_version st'; od_state := st' |}))); [lia|].
  assert (f = written_file proc old (to_vec_pretty
    {| od_version := select_version st'; od_state := st' |})) as ->.
  { destruct fate; simpl in Hw; [congruence|by destruct (Hfate detail)|congruence]. }
  unfold read_state_with_key. apply result_bind_Ok. eexists. split.
  { apply map_err_Ok, read_hardened_file_Ok. eexists; split_and!; [done|done|].
    apply written_file_acceptable; [|done]. unfold usize_max. lia. }
  replace (f_data _) with (to_vec_pretty {| od_version := select_version st'; od_state := st' |})
    by (unfold written_file; by repeat case_match).
  rewrite from_to_slice. simpl.
  pose proof (select_version_range st').
  rewrite !(proj2 (N.leb_le _ _)) by lia. simpl.
  rewrite reloadable_validates by by apply reloadable_drop.
  simpl. by rewrite select_version_stable.
Qed.

End reload.
