(* ===== verification/Store.v ===== *)
(** * The coordinator's store (crates/mecmcp-changeset/src/coordinator.rs)

    Every method that takes the state mutex, as one function of the store: the
    lock is held from its first read to its last write, so each is a single
    atomic step.  [now] is the clock reading the method makes and the fates are
    what the filesystem does with its writes. *)

From S2P Require Import Prelude Externals Lifecycle Types Digest Records Secret Persistence.

Record CoordinatorError := { ce_field : string; ce_message : string }.
Notation cerr f m := {| ce_field := f; ce_message := m |}.

Definition coordinator_error_to_string (e : CoordinatorError) : string :=
  ce_field e +:+ ": " +:+ ce_message e.

Definition persistence_to_coordinator (e : PersistenceError) : CoordinatorError := cerr "state" e.

(** ** Predicates on states *)

Definition is_pending (s : ChangeSetState) : bool :=
  match s with Planned | Approved | Applying => true | _ => false end.

Definition is_expirable (s : ChangeSetState) : bool :=
  match s with Planned | Approved => true | _ => false end.

(** apply.rs: shared by the apply gates and by the retirement sweeps. *)
Definition waiver_lapsed (r : ChangeSetRecord) (now : N) : bool :=
  match (cs_approval r ≫= ap_waived) ≫= w_expires_at_unix with
  | Some expires_at => (expires_at <=? now)%N
  | None => false
  end.

Definition validate_operation_id (value : string) : result unit CoordinatorError :=
  if bool_decide (str_len value = 64%N) && str_forall is_lower_hex value
  then Ok tt
  else Err (cerr "operation_id" "value must contain exactly 64 hexadecimal characters").

(** ** Normalisation at the store's boundary *)

Definition normalise_apply_marker (r : ChangeSetRecord) : ChangeSetRecord :=
  if bool_decide (cs_state r = Applying) then r else set_cs_apply_without_handle false r.

Definition normalise_task_handle (r : ChangeSetRecord) : ChangeSetRecord :=
  if bool_decide (cs_task_id r = Some "") then set_cs_task_id None r else r.

(** ** The write gate *)

Inductive WriteVia := ViaUpdate | ViaApplyClaim.

#[export] Instance WriteVia_eq_dec : EqDecision WriteVia.
Proof. solve_decision. Defined.

Section store.
Context `{Externals} `{StateCodec}.

(** Invariants 2 and 3: a granted approval is frozen, and a preview it binds
    is frozen with it. *)
Definition check_approval_frozen (current next : ChangeSetRecord) :
  result unit CoordinatorError :=
  match cs_approval current with
  | None => Ok tt
  | Some current_approval =>
      ensure negb (bool_decide (is_Some (ap_approver current_approval))
                   && negb (bool_decide (cs_approval next = Some current_approval)))
        else cerr "approval" "an approval cannot be rewritten or removed once granted; plan the operation again to produce a new one";
      ensure negb ((5 <=? ap_digest_version current_approval)%N
                   && negb (bool_decide (pv_digest <$> cs_preview current
                                         = pv_digest <$> cs_preview next)))
        else cerr "preview" "the preview is bound by an approval and cannot be changed; plan the operation again to produce a new one";
      Ok tt
  end.

Definition check_change_set_write (current : option ChangeSetRecord) (next : ChangeSetRecord)
  (via : WriteVia) : result unit CoordinatorError :=
  match current with
  | None => Err (cerr "change_set_id" "unknown change set; update does not create, and a change set is created Planned through insert_change_set")
  | Some current =>
      ensure bool_decide (cs_owner next = cs_owner current)
             && bool_decide (cs_device next = cs_device current)
             && bool_decide (cs_digest next = cs_digest current)
        else cerr "change_set_id" "a change set's owner, device and plan digest are fixed at creation; plan the operation again";
      if bool_decide (cs_state current = Approved) && bool_decide (cs_state next = Applying)
      then
        if bool_decide (via = ViaApplyClaim) then Ok tt
        else Err (cerr "state" "Approved -> Applying must go through claim_change_set_for_apply; writing it here reintroduces the race where two applies both read Approved and both execute")
      else
        check? (match cs_preview next with
                | Some _ =>
                    map_err (fun e => cerr "preview"
                               ("the preview is invalid: " +:+ preview_error_to_string e))
                      (validate_preview next usize_max)
                | None => Ok tt
                end);
        check? check_approval_frozen current next;
        ensure negb (bool_decide (cs_approval next ≫= ap_approver = Some (cs_owner next)))
          else cerr "approval" "the change-set owner cannot approve their own plan";
        ensure negb (bool_decide (cs_approver next = Some (cs_owner next)))
          else cerr "approver" "the change-set owner cannot approve their own plan";
        ensure change_set_transition_allowed (cs_state current) (cs_state next)
          else cerr "state" (cs_debug (cs_state current) +:+ " -> " +:+ cs_debug (cs_state next)
                               +:+ " is not a permitted change-set transition");
        ensure negb (bool_decide (cs_state current = Applying)
                     && bool_decide (cs_state next = Applying)
                     && cs_apply_without_handle current
                     && negb (cs_apply_without_handle next))
          else cerr "state" "an in-flight apply with no vendor handle cannot have that marker cleared: whether the operation ran is unknown, and clearing it would permit a second execution";
        Ok tt
  end.

(** ** Configuration and state *)

Record Config := {
  state_path : bool;             (** whether a state file is configured *)
  limits : OperationLimits;
  approval_ttl : N;              (** seconds *)
  lab_mode : bool;
  approval_digest_key : option bytes;
  evidence : bool;               (** whether an evidence recorder is attached *)
  process : Process;
}.

Record Store := {
  mem : ChangesetState;
  disk : option StateFile;
}.

Definition set_mem (f : ChangesetState -> ChangesetState) (s : Store) : Store :=
  {| mem := f (mem s); disk := disk s |}.

(** The sibling lock file cannot be opened or locked, or it is held and the
    write runs. *)
Inductive PersistFate :=
| LockFailed (detail : string)
| Written (fate : WriteFate).

Definition persist_locked (cfg : Config) (fate : PersistFate) (s : Store) :
  result unit CoordinatorError * Store :=
  if state_path cfg then
    match fate with
    | LockFailed d => (Err (persistence_to_coordinator d), s)
    | Written fate =>
        let '(res, disk') :=
          write_state (process cfg) (max_state_bytes (limits cfg)) fate (mem s) (disk s) in
        (map_err persistence_to_coordinator res, {| mem := mem s; disk := disk' |})
    end
  else (Ok tt, s).

Definition op_map (f : gmap string OperationRecord -> gmap string OperationRecord) : Store -> Store :=
  set_mem (set_operations f).
Definition cs_map (f : gmap string ChangeSetRecord -> gmap string ChangeSetRecord) : Store -> Store :=
  set_mem (set_change_sets f).

(** ** Operations *)

Definition record (operation_id owner device : string) (s : Store) :
  result OperationRecord CoordinatorError :=
  check? validate_operation_id operation_id;
  let? r := ok_or (operations (mem s) !! operation_id)
              (cerr "operation_id" "unknown operation") in
  ensure bool_decide (op_owner r = owner) && bool_decide (op_device r = device)
    else cerr "operation_id" "operation is not owned by this principal and device";
  Ok r.

Definition op_conflict (r existing : OperationRecord) : bool :=
  negb (terminal (op_state existing))
  && (bool_decide (op_device existing = op_device r)
      || bool_decide (op_endpoint existing = op_endpoint r)).

Definition insert (cfg : Config) (fate : PersistFate) (r : OperationRecord) (s : Store) :
  result unit CoordinatorError * Store :=
  let full (s : Store) :=
    (max_operations (limits cfg) <=? N.of_nat (size (operations (mem s))))%N in
  let s := if full s
           then op_map (filter (fun kv => terminal (op_state kv.2) = false)) s else s in
  if full s then (Err (cerr "operation_id" "operation store is full"), s)
  else if any (op_conflict r) (btree_values (operations (mem s)))
  then (Err (cerr "operation_id" "the device already has an active or unreconciled operation"), s)
  else
    let '(res, s) := persist_locked cfg fate (op_map (<[op_id r := r]>) s) in
    match res with
    | Err e => (Err e, op_map (delete (op_id r)) s)
    | Ok _ => (Ok tt, s)
    end.

Definition restore {V} (id : string) (previous : option V) (m : gmap string V) : gmap string V :=
  match previous with Some p => <[id := p]> m | None => delete id m end.

Definition update (cfg : Config) (fate : PersistFate) (r : OperationRecord) (s : Store) :
  result unit CoordinatorError * Store :=
  let previous := operations (mem s) !! op_id r in
  let '(res, s) := persist_locked cfg fate (op_map (<[op_id r := r]>) s) in
  match res with
  | Err e => (Err e, op_map (restore (op_id r) previous) s)
  | Ok _ => (Ok tt, s)
  end.

Definition remove (cfg : Config) (fate : PersistFate) (operation_id : string) (s : Store) : Store :=
  (persist_locked cfg fate (op_map (delete operation_id) s)).2.

(** ** Change sets *)

Definition change_set (id device : string) (s : Store) :
  result ChangeSetRecord CoordinatorError :=
  check? validate_operation_id id;
  let? r := ok_or (change_sets (mem s) !! id)
              (cerr "change_set_id" "unknown change set") in
  ensure bool_decide (cs_device r = device)
    else cerr "change_set_id" "change set belongs to another device";
  Ok r.

(** The deadline sweep: what it retires, and the map after it. *)
Definition must_retire (now : N) (r : ChangeSetRecord) : bool :=
  is_expirable (cs_state r) && ((cs_expires_at_unix r <=? now)%N || waiver_lapsed r now).

Definition retire (now : N) (r : ChangeSetRecord) : ChangeSetRecord :=
  if must_retire now r then set_cs_state Expired r else r.

Definition retired (now : N) (m : gmap string ChangeSetRecord) : list (string * ChangeSetState) :=
  (fun kv => (kv.1, cs_state kv.2)) <$> List.filter (fun kv => must_retire now kv.2) (btree_list m).

Definition cs_terminal (s : ChangeSetState) : bool :=
  match s with Applied | Expired | Failed | Cancelled => true | _ => false end.

(** Undo of a sweep whose persist failed, in the order the code does it. *)
Definition undo_sweep (rs : list (string * ChangeSetState)) (evicted : list ChangeSetRecord)
  (m : gmap string ChangeSetRecord) : gmap string ChangeSetRecord :=
  let m := foldl (fun m p => alter (set_cs_state p.2) p.1 m) m rs in
  foldl (fun m r => <[cs_id r := r]> m) m evicted.

(** The sweep and the capacity eviction, persisted before the insert decides. *)
Definition sweep (cfg : Config) (now : N) (fate : PersistFate) (s : Store) :
  result unit CoordinatorError * Store :=
  let rs := retired now (change_sets (mem s)) in
  let s := cs_map (fmap (retire now)) s in
  let full := (max_change_sets (limits cfg) <=? N.of_nat (size (change_sets (mem s))))%N in
  let evicted := if full
                 then List.filter (fun r => cs_terminal (cs_state r)) (btree_values (change_sets (mem s)))
                 else [] in
  let s := if full then cs_map (filter (fun kv => cs_terminal (cs_state kv.2) = false)) s else s in
  match rs, evicted with
  | [], [] => (Ok tt, s)
  | _, _ =>
      let '(res, s) := persist_locked cfg fate s in
      match res with
      | Err e => (Err e, cs_map (undo_sweep rs evicted) s)
      | Ok _ => (Ok tt, s)
      end
  end.

Definition insert_change_set (cfg : Config) (now : result N CoordinatorError)
  (fate1 fate2 : PersistFate) (r : ChangeSetRecord) (s : Store) :
  result unit CoordinatorError * Store :=
  match validate_target_set r (max_targets_per_set (limits cfg)) with
  | Err e => (Err (cerr "targets" (target_error_to_string e)), s)
  | Ok _ =>
  match validate_preview r (max_preview_bytes (limits cfg)) with
  | Err e => (Err (cerr "preview" (preview_error_to_string e)), s)
  | Ok _ =>
  let r := normalise_apply_marker (normalise_task_handle r) in
  if negb (bool_decide (cs_state r = Planned)) then
    (Err (cerr "state" ("a change set is created Planned, not " +:+ cs_debug (cs_state r)
            +:+ "; later states are reached through the lifecycle, and accepting one here would bypass the transition policy")), s)
  else if bool_decide (is_Some (cs_approval r)) || bool_decide (is_Some (cs_approver r)) then
    (Err (cerr "approval" "a change set is created unapproved; approval is granted through approve_change_set, not at creation"), s)
  else
  match change_sets (mem s) !! cs_id r with
  | Some existing =>
      (Err (cerr "change_set_id" ("change set " +:+ cs_id r +:+ " already exists in state "
              +:+ cs_debug (cs_state existing)
              +:+ "; insert does not overwrite, and lifecycle changes go through the update path")), s)
  | None =>
  match now with
  | Err e => (Err e, s)
  | Ok now =>
  let '(swept, s) := sweep cfg now fate1 s in
  match swept with
  | Err e => (Err e, s)
  | Ok _ =>
  if (max_change_sets (limits cfg) <=? N.of_nat (size (change_sets (mem s))))%N then
    (Err (cerr "change_set_id" "change-set store is full"), s)
  else
  match List.find (fun e => bool_decide (cs_owner e = cs_owner r)
                            && bool_decide (cs_device e = cs_device r)
                            && is_pending (cs_state e)) (btree_values (change_sets (mem s))) with
  | Some blocker =>
      (Err (cerr "change_set_id" ("this principal already has a pending change set on the device (id "
              +:+ cs_id blocker +:+ ", state " +:+ cs_debug (cs_state blocker)
              +:+ ", expires at unix " +:+ pretty (cs_expires_at_unix blocker) +:+ ")")), s)
  | None =>
  let '(res, s) := persist_locked cfg fate2 (cs_map (<[cs_id r := r]>) s) in
  match res with
  | Err e => (Err e, cs_map (delete (cs_id r)) s)
  | Ok _ => (Ok tt, s)
  end end end end end end end.

Definition claim_change_set_for_apply (cfg : Config) (fate : PersistFate) (id device : string)
  (handle : ApplyHandle) (s : Store) : result ChangeSetRecord CoordinatorError * Store :=
  match validate_operation_id id with
  | Err e => (Err e, s)
  | Ok _ =>
  match change_sets (mem s) !! id with
  | None => (Err (cerr "change_set_id" "unknown change set"), s)
  | Some r =>
  if negb (bool_decide (cs_device r = device)) then
    (Err (cerr "change_set_id" "change set belongs to another device"), s)
  else if negb (bool_decide (cs_state r = Approved)) then
    (Err (cerr "change_set_id" ("change set is " +:+ cs_debug (cs_state r)
            +:+ ", not Approved; it cannot be claimed for apply")), s)
  else
    let claimed := set_cs_apply_without_handle
                     (match handle with HandleNone => true | HandleExpected => false end)
                     (set_cs_state Applying r) in
    match check_change_set_write (Some r) claimed ViaApplyClaim with
    | Err e => (Err e, s)
    | Ok _ =>
        (* the claim is kept when persisting it fails *)
        let '(res, s) := persist_locked cfg fate (cs_map (<[id := claimed]>) s) in
        match res with
        | Err e => (Err e, s)
        | Ok _ => (Ok claimed, s)
        end
    end
  end end.

(** The common tail of the two update paths: check, write, persist, roll back. *)
Definition write_change_set (cfg : Config) (fate : PersistFate) (r : ChangeSetRecord) (s : Store) :
  result unit CoordinatorError * Store :=
  let previous := change_sets (mem s) !! cs_id r in
  let r := normalise_apply_marker (normalise_task_handle r) in
  match check_change_set_write previous r ViaUpdate with
  | Err e => (Err e, s)
  | Ok _ =>
      let '(res, s) := persist_locked cfg fate (cs_map (<[cs_id r := r]>) s) in
      match res with
      | Err e => (Err e, cs_map (restore (cs_id r) previous) s)
      | Ok _ => (Ok tt, s)
      end
  end.

Definition update_change_set (cfg : Config) (fate : PersistFate) (r : ChangeSetRecord) (s : Store) :
  result unit CoordinatorError * Store :=
  write_change_set cfg fate r s.

Definition update_change_set_from (cfg : Config) (fate : PersistFate) (observed : ChangeSetState)
  (r : ChangeSetRecord) (s : Store) : result unit CoordinatorError * Store :=
  match change_sets (mem s) !! cs_id r with
  | None => (Err (cerr "change_set_id" "unknown change set"), s)
  | Some current =>
      if negb (bool_decide (cs_state current = observed)) then
        (Err (cerr "state" ("change set moved to " +:+ cs_debug (cs_state current)
                +:+ " since it was read as " +:+ cs_debug observed
                +:+ "; the update was decided against a state that no longer holds")), s)
      else write_change_set cfg fate r s
  end.

End store.
