(* ===== verification/StoreFacts.v ===== *)
(** * What each store operation does to memory and to the file

    One characterisation per coordinator method, and the per-record step
    relation ([cs_step]) that all of them stay inside. *)

From S2P Require Import Prelude Externals Lifecycle Types Digest Records Secret Persistence Store.

(** ** The steps one change-set record can take *)

Section steps.
Context `{Externals}.

(** What a claim makes of a record. *)
Definition claimed (handle : ApplyHandle) (r : ChangeSetRecord) : ChangeSetRecord :=
  set_cs_apply_without_handle (match handle with HandleNone => true | HandleExpected => false end)
    (set_cs_state Applying r).

(** The abstract life of one identifier: absent, or holding a record. *)
Inductive cs_step : option ChangeSetRecord -> option ChangeSetRecord -> Prop :=
| step_create r :
    cs_state r = Planned -> cs_approval r = None -> cs_approver r = None ->
    cs_step None (Some r)
| step_write cur next :
    check_change_set_write (Some cur) next ViaUpdate = Ok tt ->
    cs_step (Some cur) (Some next)
| step_claim cur handle :
    cs_state cur = Approved -> cs_step (Some cur) (Some (claimed handle cur))
| step_expire cur :
    is_expirable (cs_state cur) = true -> cs_step (Some cur) (Some (set_cs_state Expired cur))
| step_evict cur :
    cs_terminal (cs_state cur) = true -> cs_step (Some cur) None.

Lemma check_write_Ok cur next :
  check_change_set_write (Some cur) next ViaUpdate = Ok tt <->
  (cs_owner next = cs_owner cur /\ cs_device next = cs_device cur /\
   cs_digest next = cs_digest cur) /\
  ~ (cs_state cur = Approved /\ cs_state next = Applying) /\
  (cs_preview next <> None -> validate_preview next usize_max = Ok tt) /\
  check_approval_frozen cur next = Ok tt /\
  cs_approval next ≫= ap_approver <> Some (cs_owner next) /\
  cs_approver next <> Some (cs_owner next) /\
  change_set_transition_allowed (cs_state cur) (cs_state next) = true /\
  ~ (cs_state cur = Applying /\ cs_state next = Applying /\
     cs_apply_without_handle cur = true /\ cs_apply_without_handle next = false).
Proof.
  unfold check_change_set_write. rewrite ensure_Ok, !andb_true_iff, !bool_decide_eq_true.
  destruct (decide (cs_state cur = Approved /\ cs_state next = Applying)) as [[E1 E2]|E1].
  { rewrite !bool_decide_eq_true_2 by done. simpl. naive_solver. }
  replace (bool_decide (cs_state cur = Approved) && bool_decide (cs_state next = Applying))
    with false by (symmetry; rewrite andb_false_iff, !bool_decide_eq_false;
                   destruct (decide (cs_state cur = Approved)); tauto).
  rewrite !check_Ok, !ensure_Ok, !negb_bool_decide.
  assert (forall (o : option PreviewRecord) (c : result unit CoordinatorError),
    match o with Some _ => c | None => Ok tt end = Ok tt <-> (o <> None -> c = Ok tt)) as Hp
    by (intros [] ?; naive_solver).
  assert (forall (P Q : Prop) (HP : Decision P) (HQ : Decision Q) (b c : bool),
    negb (bool_decide P && bool_decide Q && b && negb c) = true <->
    ~ (P /\ Q /\ b = true /\ c = false)) as Hm
    by (intros P Q ?? [] []; repeat case_bool_decide; simpl; intuition congruence).
  rewrite Hp, map_err_Ok, Hm. tauto.
Qed.
End steps.

(** ** Persistence never touches memory *)

Section store_facts.
Context `{Externals} `{StateCodec}.

Lemma persist_mem cfg fate s : mem (persist_locked cfg fate s).2 = mem s.
Proof. unfold persist_locked. repeat case_match; simplify_eq; done. Qed.

(** A persist that succeeds leaves the file holding what memory holds. *)
Definition in_sync (cfg : Config) (s : Store) : Prop :=
  state_path cfg = true -> exists f, disk s = Some f /\
    f_data f = to_vec_pretty {| od_version := select_version (drop_empty_handles (mem s));
                                od_state := drop_empty_handles (mem s) |}.

Lemma written_file_data proc old p : f_data (written_file proc old p) = p.
Proof. unfold written_file. by repeat case_match. Qed.

Lemma persist_Ok_in_sync cfg fate s :
  (persist_locked cfg fate s).1 = Ok tt -> in_sync cfg (persist_locked cfg fate s).2.
Proof.
  unfold persist_locked, in_sync. destruct (state_path cfg); [|done]. intros Hok _.
  destruct fate as [d|fate]; [done|]. revert Hok. unfold write_state.
  destruct (max_state_bytes (limits cfg) <? _)%N; simpl; [done|].
  destruct fate; simpl; try done. intros _. eexists. split; [done|]. apply written_file_data.
Qed.

Ltac persist_cases :=
  match goal with
  | |- context [persist_locked ?c ?f ?s] =>
      let E := fresh "Ep" in let E' := fresh "Em" in
      pose proof (persist_mem c f s) as E';
      destruct (persist_locked c f s) as [[[]|?e] ?s'] eqn:E; simpl in E'
  end.

Lemma restore_insert {V} (m : gmap string V) k v : restore k (m !! k) (<[k := v]> m) = m.
Proof.
  unfold restore. destruct (m !! k) as [p|] eqn:E.
  - by rewrite insert_insert_eq, insert_id.
  - by rewrite delete_insert_id.
Qed.

(** ** Change-set writes *)

Definition normalise (r : ChangeSetRecord) : ChangeSetRecord :=
  normalise_apply_marker (normalise_task_handle r).

Lemma normalise_id r : cs_id (normalise r) = cs_id r.
Proof. unfold normalise, normalise_apply_marker, normalise_task_handle. by repeat case_match. Qed.

Lemma normalise_state r : cs_state (normalise r) = cs_state r.
Proof. unfold normalise, normalise_apply_marker, normalise_task_handle. by repeat case_match. Qed.

Lemma write_change_set_cases cfg fate r s :
  (exists cur, change_sets (mem s) !! cs_id r = Some cur /\
     check_change_set_write (Some cur) (normalise r) ViaUpdate = Ok tt /\
     (write_change_set cfg fate r s).1 = Ok tt /\
     mem (write_change_set cfg fate r s).2
     = set_change_sets (<[cs_id r := normalise r]>) (mem s)) \/
  (exists e, (write_change_set cfg fate r s).1 = Err e /\
     mem (write_change_set cfg fate r s).2 = mem s).
Proof.
  unfold write_change_set. fold (normalise r).
  destruct (check_change_set_write _ _ _) as [[]|e] eqn:Ec; [|right; eauto].
  destruct (change_sets (mem s) !! cs_id r) as [cur|] eqn:El; [|done].
  rewrite normalise_id. persist_cases.
  - left. exists cur. simpl. rewrite Em. done.
  - right. eexists. split; [done|]. unfold cs_map, set_mem; simpl. rewrite Em.
    destruct s as [[ops css] d]; simpl in *. f_equal.
    unfold set_change_sets; simpl. f_equal. by rewrite insert_insert_eq, insert_id.
Qed.

Lemma update_change_set_from_cases cfg fate observed r s :
  (exists cur, change_sets (mem s) !! cs_id r = Some cur /\ cs_state cur = observed /\
     check_change_set_write (Some cur) (normalise r) ViaUpdate = Ok tt /\
     (update_change_set_from cfg fate observed r s).1 = Ok tt /\
     mem (update_change_set_from cfg fate observed r s).2
     = set_change_sets (<[cs_id r := normalise r]>) (mem s)) \/
  (exists e, (update_change_set_from cfg fate observed r s).1 = Err e /\
     mem (update_change_set_from cfg fate observed r s).2 = mem s).
Proof.
  unfold update_change_set_from.
  destruct (change_sets (mem s) !! cs_id r) as [cur|] eqn:El; [|right; eauto].
  case_bool_decide as Eo; simpl; [|right; eauto].
  destruct (write_change_set_cases cfg fate r s) as [(cur'&?&?&?&?)|?]; [|by right].
  left. exists cur. rewrite El in *. naive_solver.
Qed.

(** ** The claim *)

Lemma claim_check handle r :
  cs_state r = Approved -> check_change_set_write (Some r) (claimed handle r) ViaApplyClaim = Ok tt.
Proof.
  intros E. unfold check_change_set_write, claimed; simpl. rewrite E.
  by rewrite !bool_decide_eq_true_2 by done.
Qed.

Lemma store_operation_id_Ok s : validate_operation_id s = Ok tt <-> is_hex64 s.
Proof.
  unfold validate_operation_id, is_hex64. case_bool_decide; simpl;
    [destruct (str_forall _ _)|]; intuition congruence.
Qed.

Lemma claim_cases cfg fate id device handle s :
  (exists cur, change_sets (mem s) !! id = Some cur /\ cs_state cur = Approved /\
     cs_device cur = device /\ is_hex64 id /\
     mem (claim_change_set_for_apply cfg fate id device handle s).2
     = set_change_sets (<[id := claimed handle cur]>) (mem s) /\
     ((claim_change_set_for_apply cfg fate id device handle s).1 = Ok (claimed handle cur) \/
      exists e, (claim_change_set_for_apply cfg fate id device handle s).1 = Err e)) \/
  (exists e, claim_change_set_for_apply cfg fate id device handle s = (Err e, s)).
Proof.
  unfold claim_change_set_for_apply.
  destruct (validate_operation_id id) as [[]|e] eqn:Ev; [|right; eauto].
  destruct (change_sets (mem s) !! id) as [r|] eqn:El; [|right; eauto].
  case_bool_decide as Ed; cbn [negb]; [|right; eauto].
  case_bool_decide as Es; cbn [negb]; [|right; eauto].
  fold (claimed handle r). rewrite claim_check by done.
  left. exists r. split_and!; try done.
  - by apply store_operation_id_Ok.
  - persist_cases; simpl; rewrite Em; done.
  - persist_cases; simpl; eauto.
Qed.

(** ** The deadline sweep *)

(** Records are stored under their own identifier. *)
Definition well_keyed (m : gmap string ChangeSetRecord) : Prop :=
  forall k r, m !! k = Some r -> cs_id r = k.

Definition at_capacity (cfg : Config) (m : gmap string ChangeSetRecord) : bool :=
  (max_change_sets (limits cfg) <=? N.of_nat (size m))%N.

(** What a sweep that is persisted leaves. *)
Definition swept (cfg : Config) (now : N) (m : gmap string ChangeSetRecord) :
  gmap string ChangeSetRecord :=
  if at_capacity cfg m
  then filter (fun kv => cs_terminal (cs_state kv.2) = false) (retire now <$> m)
  else retire now <$> m.

Lemma retire_id now r : cs_id (retire now r) = cs_id r.
Proof. unfold retire. by case_match. Qed.

Lemma must_retire_expirable now r : must_retire now r = true -> is_expirable (cs_state r) = true.
Proof. unfold must_retire. rewrite andb_true_iff. tauto. Qed.

Lemma retired_NoDup now m : NoDup (retired now m).*1.
Proof.
  unfold retired. rewrite <-list_fmap_compose.
  pose proof (btree_list_NoDup m) as Hnd. revert Hnd.
  induction (btree_list m) as [|p l IH]; simpl; [constructor|].
  rewrite NoDup_cons. intros [Hp Hl]. destruct (must_retire now p.2); [|auto]. simpl.
  rewrite NoDup_cons. split; [|auto].
  intros (q&Hq&[Hin%list_elem_of_In _]%list_elem_of_In%filter_In)%list_elem_of_fmap.
  apply Hp. apply list_elem_of_fmap. by exists q.
Qed.

Lemma retired_lookup now m k :
  list_to_map (M := gmap string ChangeSetState) (retired now m) !! k
  = r ← m !! k; if must_retire now r then Some (cs_state r) else None.
Proof.
  assert (forall st, (k, st) ∈ retired now m <->
    exists r, m !! k = Some r /\ must_retire now r = true /\ st = cs_state r) as Hin.
  { intros st. unfold retired. rewrite list_elem_of_fmap. split.
    - intros ([k' r]&[= -> ->]&[?%list_elem_of_In%elem_of_btree_list ?]%list_elem_of_In%filter_In). eauto.
    - intros (r&?&?&->). exists (k, r). split; [done|].
      apply list_elem_of_In, filter_In. by split; [apply list_elem_of_In, elem_of_btree_list|]. }
  destruct (list_to_map _ !! k) as [st|] eqn:E.
  - apply elem_of_list_to_map_2, Hin in E as (r&->&Hr&->). simpl. by rewrite Hr.
  - destruct (m !! k) as [r|] eqn:Em; [|done]. simpl.
    destruct (must_retire now r) eqn:Er; [|done].
    apply not_elem_of_list_to_map in E. destruct E. apply list_elem_of_fmap.
    exists (k, cs_state r). split; [done|]. apply Hin. eauto.
Qed.

Definition evicted (cfg : Config) (now : N) (m : gmap string ChangeSetRecord) : list ChangeSetRecord :=
  if at_capacity cfg m
  then List.filter (fun r => cs_terminal (cs_state r)) (btree_values (retire now <$> m)) else [].

Lemma elem_of_evicted cfg now m r :
  r ∈ evicted cfg now m <->
  at_capacity cfg m = true /\ cs_terminal (cs_state r) = true /\
  exists k, (retire now <$> m) !! k = Some r.
Proof.
  unfold evicted. destruct (at_capacity cfg m).
  - rewrite list_elem_of_In, filter_In, <-list_elem_of_In, elem_of_btree_values. naive_solver.
  - split; [by intros ?%elem_of_nil|naive_solver].
Qed.

Lemma retire_undo now r :
  must_retire now r = true -> set_cs_state (cs_state r) (retire now r) = r.
Proof. intros E. unfold retire. rewrite E. by destruct r. Qed.

(** The first loop of the undo, on what the sweep left. *)
Lemma undo_retired_lookup cfg now m k :
  foldl (fun m p => alter (set_cs_state p.2) p.1 m) (swept cfg now m) (retired now m) !! k
  = if at_capacity cfg m then swept cfg now m !! k else m !! k.
Proof.
  rewrite lookup_foldl_alter, retired_lookup by apply retired_NoDup. unfold swept.
  destruct (at_capacity cfg m).
  - rewrite map_lookup_filter, lookup_fmap. destruct (m !! k) as [r|]; [|done]. simpl.
    destruct (must_retire now r) eqn:E; [|done].
    unfold retire. by rewrite E.
  - rewrite lookup_fmap. destruct (m !! k) as [r|]; [|done]. simpl.
    destruct (must_retire now r) eqn:E; simpl; [by rewrite retire_undo|].
    unfold retire. by rewrite E.
Qed.

(** A failed sweep is undone exactly below capacity; at capacity the eviction
    is undone and the retirement is not. *)
Lemma undo_sweep_spec cfg now m :
  well_keyed m ->
  undo_sweep (retired now m) (evicted cfg now m) (swept cfg now m)
  = if at_capacity cfg m then retire now <$> m else m.
Proof.
  intros Hk. unfold undo_sweep. apply map_eq; intros k.
  set (m1 := foldl (fun m p => alter _ _ _) _ (retired now m)).
  pose proof (undo_retired_lookup cfg now m k) as H1. fold m1 in H1.
  destruct (at_capacity cfg m) eqn:Ecap.
  2:{ replace (evicted cfg now m) with (@nil ChangeSetRecord) by (unfold evicted; by rewrite Ecap).
      done. }
  assert (forall k r, (retire now <$> m) !! k = Some r -> cs_id r = k) as Hk'.
  { intros k' r. rewrite lookup_fmap. destruct (m !! k') as [r'|] eqn:E; [|done].
    intros [= <-]. rewrite retire_id. eauto. }
  unfold swept in H1. rewrite Ecap, map_lookup_filter in H1.
  destruct (foldl _ m1 _ !! k) as [v|] eqn:E.
  - apply lookup_foldl_insert in E as [[(_&Hterm&k'&Hv)%elem_of_evicted <-]|[E _]].
    + apply Hk' in Hv as Hv'. congruence.
    + rewrite H1 in E. destruct ((retire now <$> m) !! k) as [r|]; [|done]. simpl in E.
      case_guard; simpl in E; congruence.
  - apply lookup_foldl_insert_None in E as [E Hne]. rewrite H1 in E.
    destruct ((retire now <$> m) !! k) as [r|] eqn:Er; [|done]. simpl in E.
    case_guard as Eg; simpl in E; [done|]. destruct (Hne r); [|by apply Hk'].
    apply elem_of_evicted. split_and!; eauto. by destruct (cs_terminal _).
Qed.

Lemma sweep_cases cfg now fate s :
  well_keyed (change_sets (mem s)) ->
  ((sweep cfg now fate s).1 = Ok tt /\
   mem (sweep cfg now fate s).2 = set_change_sets (swept cfg now) (mem s)) \/
  (exists e, (sweep cfg now fate s).1 = Err e /\
   mem (sweep cfg now fate s).2
   = if at_capacity cfg (change_sets (mem s))
     then set_change_sets (fmap (retire now)) (mem s) else mem s).
Proof.
  intros Hk. destruct s as [[ops css] d]; simpl in Hk.
  pose proof (undo_sweep_spec cfg now css Hk) as Hundo.
  unfold sweep, cs_map, set_mem, set_change_sets; simpl. rewrite map_size_fmap.
  change (max_change_sets (limits cfg) <=? N.of_nat (size css))%N with (at_capacity cfg css).
  change (if at_capacity cfg css then List.filter _ _ else []) with (evicted cfg now css).
  match goal with |- context [if at_capacity cfg css then Build_Store ?a ?b else ?c] =>
    replace (if at_capacity cfg css then Build_Store a b else c)
    with {| mem := {| operations := ops; change_sets := swept cfg now css |}; disk := d |}
    by (unfold swept; by destruct (at_capacity cfg css)) end.
  destruct (retired now css) as [|p rs] eqn:Er, (evicted cfg now css) as [|v vs] eqn:Ev; simpl;
    [by left|..]; persist_cases; simpl; rewrite Em; simpl; (by left) || right;
    eexists; (split; [done|]); rewrite Hundo; by destruct (at_capacity cfg css).
Qed.

Definition same_slot (r e : ChangeSetRecord) : Prop :=
  cs_owner e = cs_owner r /\ cs_device e = cs_device r /\ is_pending (cs_state e) = true.

(** A creation that succeeds: what it required, and what it left. *)
Record created (cfg : Config) (now : N) (r : ChangeSetRecord) (m m' : gmap string ChangeSetRecord) :
  Prop := {
  created_planned : cs_state r = Planned;
  created_unapproved : cs_approval r = None /\ cs_approver r = None;
  created_targets : validate_target_set r (max_targets_per_set (limits cfg)) = Ok tt;
  created_preview : validate_preview r (max_preview_bytes (limits cfg)) = Ok tt;
  created_fresh : m !! cs_id r = None;
  created_room : (N.of_nat (size (swept cfg now m)) < max_change_sets (limits cfg))%N;
  created_slot : forall k e, swept cfg now m !! k = Some e -> ~ same_slot r e;
  created_map : m' = <[cs_id r := normalise r]> (swept cfg now m);
}.

Lemma find_none_btree {V} (f : V -> bool) (m : gmap string V) k v :
  List.find f (btree_values m) = None -> m !! k = Some v -> f v = false.
Proof.
  intros Hf Hv. eapply find_none; [done|]. apply list_elem_of_In, elem_of_btree_values. eauto.
Qed.

Lemma normalise_keeps r :
  cs_approval (normalise r) = cs_approval r /\ cs_approver (normalise r) = cs_approver r /\
  cs_owner (normalise r) = cs_owner r /\ cs_device (normalise r) = cs_device r.
Proof. unfold normalise, normalise_apply_marker, normalise_task_handle. by repeat case_match. Qed.

Lemma swept_lookup_None cfg now m k : m !! k = None -> swept cfg now m !! k = None.
Proof.
  intros E. unfold swept. case_match; [rewrite map_lookup_filter|]; by rewrite lookup_fmap, E.
Qed.

(** Every outcome of [insert_change_set] on memory: created; refused or failed
    with the sweep kept; the sweep itself not persisted; or nothing done. *)
Lemma insert_change_set_cases cfg now fate1 fate2 r s :
  well_keyed (change_sets (mem s)) ->
  let out := insert_change_set cfg now fate1 fate2 r s in
  (exists t, now = Ok t /\ out.1 = Ok tt /\ operations (mem out.2) = operations (mem s) /\
     created cfg t r (change_sets (mem s)) (change_sets (mem out.2))) \/
  (exists e, out.1 = Err e /\
     (mem out.2 = mem s \/
      exists t, now = Ok t /\
       (mem out.2 = set_change_sets (swept cfg t) (mem s) \/
        mem out.2 = set_change_sets (fmap (retire t)) (mem s)))).
Proof.
  intros Hk. unfold insert_change_set.
  destruct (validate_target_set r _) as [[]|] eqn:Et; [|right; eauto].
  destruct (validate_preview r _) as [[]|] eqn:Epv; [|right; eauto].
  fold (normalise r). rewrite normalise_id.
  destruct (normalise_keeps r) as (Hap&Har&Ho&Hd). rewrite Hap, Har, Ho, Hd, normalise_state.
  case_bool_decide as Es; cbn [negb]; [|right; eauto].
  destruct (cs_approval r) as [?|] eqn:Ea; [rewrite (bool_decide_eq_true_2 (is_Some _)) by eauto; right; eauto|].
  destruct (cs_approver r) as [?|] eqn:Ear;
    [rewrite (bool_decide_eq_true_2 (is_Some (Some _))), orb_true_r by eauto; right; eauto|].
  rewrite bool_decide_eq_false_2 by (by intros []). simpl.
  destruct (change_sets (mem s) !! cs_id r) eqn:El; [right; eauto|].
  destruct now as [t|e]; [|right; eauto].
  pose proof (sweep_cases cfg t fate1 s Hk) as Hsw.
  destruct (sweep cfg t fate1 s) as [res s1]; simpl in Hsw.
  destruct Hsw as [[-> Hm]|(e&->&Hm)].
  2:{ right. exists e. split; [done|]. simpl. rewrite Hm. case_match; eauto 6. }
  destruct (max_change_sets _ <=? _)%N eqn:Eroom; [right; eauto 7|].
  destruct (List.find _ _) eqn:Ef; [right; eauto 7|].
  rewrite Hm in Eroom, Ef. simpl in Eroom, Ef. apply N.leb_gt in Eroom.
  persist_cases; simpl.
  - left. exists t. rewrite Em. simpl. rewrite Hm. split_and!; try done.
    split; try done. intros k e He (?&?&?). eapply find_none_btree in Ef; [|exact He].
    simpl in Ef. rewrite !bool_decide_eq_true_2 in Ef by done. simpl in Ef. congruence.
  - right. eexists. split; [done|]. right. exists t. split; [done|]. left.
    rewrite Em. simpl. rewrite Hm. destruct s as [[ops css] d]. unfold set_change_sets; simpl.
    f_equal. apply delete_insert_id. by apply swept_lookup_None.
Qed.

(** ** Operations *)

Definition op_room (cfg : Config) (m : gmap string OperationRecord) : gmap string OperationRecord :=
  if (max_operations (limits cfg) <=? N.of_nat (size m))%N
  then filter (fun kv => terminal (op_state kv.2) = false) m else m.

Record op_inserted (cfg : Config) (r : OperationRecord) (m m' : gmap string OperationRecord) :
  Prop := {
  op_inserted_room : (N.of_nat (size (op_room cfg m)) < max_operations (limits cfg))%N;
  op_inserted_free : forall k e, op_room cfg m !! k = Some e -> op_conflict r e = false;
  op_inserted_map : m' = <[op_id r := r]> (op_room cfg m);
}.

Lemma insert_cases cfg fate r s :
  let out := insert cfg fate r s in
  change_sets (mem out.2) = change_sets (mem s) /\
  ((out.1 = Ok tt /\ op_inserted cfg r (operations (mem s)) (operations (mem out.2))) \/
   (exists e, out.1 = Err e /\
      (operations (mem out.2) = op_room cfg (operations (mem s)) \/
       operations (mem out.2) = delete (op_id r) (op_room cfg (operations (mem s)))))).
Proof.
  unfold insert.
  set (s1 := if (max_operations (limits cfg) <=? _)%N then _ else s).
  assert (mem s1 = set_operations (op_room cfg) (mem s)) as Hs1.
  { subst s1. destruct s as [[ops css] d]. unfold op_map, set_mem, set_operations, op_room; simpl.
    by destruct (_ <=? _)%N. }
  destruct (max_operations _ <=? N.of_nat (size (operations (mem s1))))%N eqn:Eroom.
  { simpl. rewrite Hs1. split; [done|]. right. eauto. }
  destruct (any _ _) eqn:Eany.
  { simpl. rewrite Hs1. split; [done|]. right. eauto. }
  rewrite Hs1 in Eroom, Eany. simpl in Eroom, Eany. apply N.leb_gt in Eroom.
  persist_cases; simpl; rewrite Em; simpl; rewrite Hs1; simpl; split; try done.
  - left. split; [done|]. split; try done. intros k e He.
    rewrite any_false in Eany. apply Eany, elem_of_btree_values. eauto.
  - right. eexists. split; [done|]. right. apply delete_insert_eq.
Qed.

Lemma update_cases cfg fate r s :
  let out := update cfg fate r s in
  change_sets (mem out.2) = change_sets (mem s) /\
  ((out.1 = Ok tt /\ operations (mem out.2) = <[op_id r := r]> (operations (mem s))) \/
   (exists e, out.1 = Err e /\ mem out.2 = mem s)).
Proof.
  unfold update. persist_cases; simpl; rewrite Em; simpl; split; try done; eauto.
  right. eexists. split; [done|]. destruct s as [[ops css] d]; simpl.
  unfold set_operations; simpl. f_equal. apply restore_insert.
Qed.

Lemma remove_mem cfg fate id s :
  mem (remove cfg fate id s) = set_operations (delete id) (mem s).
Proof. unfold remove. by rewrite persist_mem. Qed.

(** ** All of them together *)

(** One call of a mutating coordinator method. *)
Inductive store_step (cfg : Config) (s : Store) : Store -> Prop :=
| do_insert fate r : store_step cfg s (insert cfg fate r s).2
| do_update fate r : store_step cfg s (update cfg fate r s).2
| do_remove fate id : store_step cfg s (remove cfg fate id s)
| do_insert_cs now f1 f2 r : store_step cfg s (insert_change_set cfg now f1 f2 r s).2
| do_claim fate id dev h : store_step cfg s (claim_change_set_for_apply cfg fate id dev h s).2
| do_update_cs fate r : store_step cfg s (update_change_set cfg fate r s).2
| do_update_from fate o r : store_step cfg s (update_change_set_from cfg fate o r s).2.

Lemma retire_step now (m : gmap string ChangeSetRecord) k : rtc cs_step (m !! k) ((retire now <$> m) !! k).
Proof.
  rewrite lookup_fmap. destruct (m !! k) as [r|]; simpl; [|done]. unfold retire.
  destruct (must_retire now r) eqn:E; [|done].
  apply rtc_once. apply step_expire. by eapply must_retire_expirable.
Qed.

Lemma swept_step cfg now m k : rtc cs_step (m !! k) (swept cfg now m !! k).
Proof.
  transitivity ((retire now <$> m) !! k); [apply retire_step|]. unfold swept.
  destruct (at_capacity cfg m); [|done].
  rewrite map_lookup_filter. destruct ((retire now <$> m) !! k) as [r|]; simpl; [|done].
  case_guard as E; simpl; [done|]. apply rtc_once. constructor. by destruct (cs_terminal _).
Qed.

Lemma retire_keyed now m : well_keyed m -> well_keyed (retire now <$> m).
Proof.
  intros Hk k r. rewrite lookup_fmap, fmap_Some. intros (r'&?&->). rewrite retire_id. eauto.
Qed.

Lemma swept_keyed cfg now m : well_keyed m -> well_keyed (swept cfg now m).
Proof.
  intros Hk%(retire_keyed now). unfold swept. case_match; [|done].
  intros k r [? _]%map_lookup_filter_Some. eauto.
Qed.

Lemma insert_keyed m k r : cs_id r = k -> well_keyed m -> well_keyed (<[k := r]> m).
Proof. intros Hr Hk k' r' [[<- <-]|[_ ?]]%lookup_insert_Some; eauto. Qed.

Lemma insert_step (m : gmap string ChangeSetRecord) k cur next k' :
  m !! k = Some cur -> cs_step (Some cur) (Some next) ->
  rtc cs_step (m !! k') (<[k := next]> m !! k').
Proof.
  intros El Hs. destruct (decide (k = k')) as [<-|Hne].
  - rewrite lookup_insert_eq, El. by apply rtc_once.
  - by rewrite lookup_insert_ne.
Qed.

(** Every method keeps records under their own identifiers and moves each of
    them only along [cs_step]. *)
Lemma store_step_cs cfg s s' :
  well_keyed (change_sets (mem s)) -> store_step cfg s s' ->
  well_keyed (change_sets (mem s')) /\
  forall k, rtc cs_step (change_sets (mem s) !! k) (change_sets (mem s') !! k).
Proof.
  intros Hk [fate r|fate r|fate id|now f1 f2 r|fate id dev h|fate r|fate o r].
  - destruct (insert_cases cfg fate r s) as [-> _]. done.
  - destruct (update_cases cfg fate r s) as [-> _]. done.
  - by rewrite remove_mem.
  - pose proof (insert_change_set_cases cfg now f1 f2 r s Hk) as Hc; simpl in Hc.
    destruct Hc as [(t&->&_&_&[? [??] _ _ Hf _ _ Hm])|(e&_&[->|(t&->&[->| ->])])]; simpl.
    + rewrite Hm. split.
      * apply insert_keyed; [apply normalise_id|by apply swept_keyed].
      * intros k. destruct (decide (cs_id r = k)) as [<-|Hne].
        { rewrite lookup_insert_eq, Hf. apply rtc_once.
          destruct (normalise_keeps r) as (?&?&_). constructor; try congruence.
          by rewrite normalise_state. }
        rewrite lookup_insert_ne by done. apply swept_step.
    + done.
    + split; [by apply swept_keyed|]. intros. apply swept_step.
    + split; [by apply retire_keyed|]. intros. apply retire_step.
  - destruct (claim_cases cfg fate id dev h s) as [(cur&Hl&Hs&_&_&Hm&_)|(e&->)]; [|done].
    rewrite Hm. simpl. split.
    + apply insert_keyed; [|done]. by apply Hk in Hl.
    + intros k. eapply insert_step; [done|]. by apply step_claim.
  - destruct (write_change_set_cases cfg fate r s) as [(cur&Hl&Hc&_&Hm)|(e&_&Hm)];
      unfold update_change_set; rewrite Hm; [|done]. simpl. split.
    + apply insert_keyed; [apply normalise_id|done].
    + intros k. eapply insert_step; [done|]. by constructor.
  - destruct (update_change_set_from_cases cfg fate o r s) as [(cur&Hl&_&Hc&_&Hm)|(e&_&Hm)];
      rewrite Hm; [|done]. simpl. split.
    + apply insert_keyed; [apply normalise_id|done].
    + intros k. eapply insert_step; [done|]. by constructor.
Qed.
End store_facts.
