(* ===== verification/Recovery.v ===== *)
(** * Restart and offline recovery

    [ChangesetCoordinator::load*] (coordinator.rs) and
    [resolve_persisted_operation] (recovery.rs), with the two file locks of
    state_lock.rs as what their [flock] calls returned. *)

From Stdlib Require Import Ascii.
From S2P Require Import Prelude Externals Lifecycle Types Digest Records Secret Persistence Reload Store StoreFacts.

(** ** Lock files (state_lock.rs) *)

(** What the two sibling lock files answer: the read-modify-write lock is
    waited for, the owner lock is only tried ([false]: another holder). *)
Record StateLocks := {
  rmw_lock : result unit PersistenceError;
  owner_lock : result bool PersistenceError;
}.

Fixpoint split_last_slash (s : string) : string * string :=
  match s with
  | EmptyString => ("", "")
  | String c s' =>
      if contains_char "/" s' then let '(d, f) := split_last_slash s' in (String c d, f)
      else if Ascii.eqb c "/" then ("/", s') else ("", s)
  end.

(** [<dir>/<file>.<suffix>]. *)
Definition lock_path_with_suffix (state_path suffix : string) : string :=
  let '(dir, file) := split_last_slash state_path in dir +:+ file +:+ "." +:+ suffix.

Definition is_absolute (path : string) : bool := starts_with "/" path.

(** ** Restart recovery *)

Inductive StagedRecovery := RecoverDiscard | RecoverRetain.

#[export] Instance StagedRecovery_eq_dec : EqDecision StagedRecovery.
Proof. solve_decision. Defined.

(** Whether the load loop rewrites an operation. *)
Definition op_in_flight (sr : StagedRecovery) (r : OperationRecord) : bool :=
  if bool_decide (sr = RecoverRetain) && bool_decide (op_state r = Staged)
     && bool_decide (op_job_id r = None)
  then false
  else match op_state r with
       | Staging | Staged | Validating | Committing => true
       | _ => false
       end.

Definition recover_operation (sr : StagedRecovery) (r : OperationRecord) : OperationRecord :=
  if op_in_flight sr r
  then set_op_details (Some "server restarted during a non-terminal operation; manual reconciliation required")
         (set_op_state Indeterminate r)
  else r.

Definition cs_lost (r : ChangeSetRecord) : bool :=
  bool_decide (cs_state r = Applying) && bool_decide (cs_task_id r = None)
  && negb (cs_apply_without_handle r).

Definition recover_change_set (r : ChangeSetRecord) : ChangeSetRecord :=
  let r := normalise_task_handle r in
  if cs_lost r then set_cs_state Failed r else r.

Definition cs_recovered (r : ChangeSetRecord) : bool :=
  bool_decide (cs_task_id r = Some "") || cs_lost (normalise_task_handle r).

Definition recover_state (sr : StagedRecovery) (st : ChangesetState) : ChangesetState :=
  {| operations := recover_operation sr <$> operations st;
     change_sets := recover_change_set <$> change_sets st |}.

Definition recovered (sr : StagedRecovery) (st : ChangesetState) : bool :=
  any (op_in_flight sr) (btree_values (operations st))
  || any cs_recovered (btree_values (change_sets st)).

Section load.
Context `{Externals} `{StateCodec}.

Definition load_with_recovery_and_key (path : option string) (lim : OperationLimits) (ttl : N)
  (lab : bool) (sr : StagedRecovery) (key : option bytes) (locks : StateLocks) (proc : Process)
  (fate : WriteFate) (file : option StateFile) :
  result (Config * Store) CoordinatorError * option StateFile :=
  let config (persistent : bool) := {|
    state_path := persistent; limits := lim; approval_ttl := ttl; lab_mode := lab;
    approval_digest_key := key; evidence := false; process := proc |} in
  match path with
  | None => (Ok (config false, {| mem := empty_state; disk := file |}), file)
  | Some path =>
  if negb (is_absolute path)
  then (Err (cerr "path" "changeset state path must be absolute"), file)
  else match owner_lock locks with
  | Err e => (Err (persistence_to_coordinator e), file)
  | Ok false => (Err (cerr "state" "another process already holds this state file (an existing server, or an offline resolution in progress); stop it before starting a second one against the same path"), file)
  | Ok true =>
  let read :=
    match file with
    | Some f =>
        check? map_err persistence_to_coordinator (rmw_lock locks);
        map_err persistence_to_coordinator
          (read_state_with_key (euid proc) (Ok f) (max_state_bytes lim) key)
    | None => Ok empty_state
    end in
  match read with
  | Err e => (Err e, file)
  | Ok st =>
  let st' := recover_state sr st in
  if recovered sr st then
    let '(res, file') := write_state proc (max_state_bytes lim) fate st' file in
    match res with
    | Err e => (Err (persistence_to_coordinator e), file')
    | Ok _ => (Ok (config true, {| mem := st'; disk := file' |}), file')
    end
  else (Ok (config true, {| mem := st'; disk := file |}), file)
  end end end.

Definition load_with_recovery path lim ttl lab sr :=
  load_with_recovery_and_key path lim ttl lab sr None.
Definition load_with_key path lim ttl lab key :=
  load_with_recovery_and_key path lim ttl lab RecoverDiscard key.
Definition load path lim ttl lab := load_with_recovery path lim ttl lab RecoverDiscard.

(** ** Offline resolution (recovery.rs) *)

Inductive RecoveryDisposition := DispCommitted | DispDiscarded.

Record ResolvedOperationOutput := {
  ro_operation_id : string;
  ro_device : string;
  ro_state : string;
  ro_job_id : option string;
  ro_candidate_fingerprint : string;
  ro_details : option string;
}.

Definition disposition_word (d : RecoveryDisposition) : string :=
  match d with DispCommitted => "COMMITTED" | DispDiscarded => "DISCARDED" end.
Definition disposition_state (d : RecoveryDisposition) : LifecycleState :=
  match d with DispCommitted => Committed | DispDiscarded => Discarded end.

Definition expected_confirmation (operation_id : string) (d : RecoveryDisposition) : string :=
  "RESOLVED " +:+ operation_id +:+ " AS " +:+ disposition_word d.

Definition resolve_record (d : RecoveryDisposition) (r : OperationRecord) : OperationRecord :=
  set_op_details (Some ("operator marked " +:+ disposition_word d +:+ " from "
      +:+ lifecycle_as_str (op_state r)
      +:+ " after external device job/candidate/lock reconciliation"))
    (set_op_lock false (set_op_state (disposition_state d) r)).

Definition resolve_persisted_operation (path operation_id : string) (d : RecoveryDisposition)
  (confirmation : string) (lim : OperationLimits) (locks : StateLocks) (proc : Process)
  (fate : WriteFate) (file : option StateFile) :
  result ResolvedOperationOutput CoordinatorError * option StateFile :=
  if negb (is_absolute path)
  then (Err (cerr "path" "changeset state path must be absolute"), file)
  else match validate_operation_id operation_id with
  | Err e => (Err e, file)
  | Ok _ =>
  if negb (bool_decide (confirmation = expected_confirmation operation_id d))
  then (Err (cerr "confirmation" "offline resolution requires exact 'RESOLVED <operation-id> AS COMMITTED|DISCARDED' confirmation"), file)
  else match rmw_lock locks with
  | Err e => (Err (persistence_to_coordinator e), file)
  | Ok _ =>
  match owner_lock locks with
  | Err e => (Err (persistence_to_coordinator e), file)
  | Ok false => (Err (cerr "state" "a running server holds this state file; stop it before offline resolution"), file)
  | Ok true =>
  match read_state (euid proc) (ok_or file "No such file or directory (os error 2)")
          (max_state_bytes lim) with
  | Err e => (Err (persistence_to_coordinator e), file)
  | Ok st =>
  match operations st !! operation_id with
  | None => (Err (cerr "operation_id" "unknown persisted operation"), file)
  | Some r =>
  if terminal (op_state r)
  then (Err (cerr "operation_id" ("operation is already " +:+ lifecycle_as_str (op_state r)
               +:+ "; a terminal operation cannot be resolved")), file)
  else
    let r' := resolve_record d r in
    let st' := set_operations (<[operation_id := r']>) st in
    let '(res, file') := write_state proc (max_state_bytes lim) fate st' file in
    match res with
    | Err e => (Err (persistence_to_coordinator e), file')
    | Ok _ => (Ok {| ro_operation_id := op_id r'; ro_device := op_device r';
                     ro_state := lifecycle_as_str (op_state r'); ro_job_id := op_job_id r';
                     ro_candidate_fingerprint := op_current r'; ro_details := op_details r' |},
               file')
    end
  end end end end end.

End load.

(** ** What recovery does to a state *)

Lemma normalise_task_handle_idem r :
  normalise_task_handle (normalise_task_handle r) = normalise_task_handle r.
Proof.
  unfold normalise_task_handle.
  destruct (bool_decide (cs_task_id r = Some "")) eqn:E; [done|by rewrite E].
Qed.

Lemma op_in_flight_indeterminate sr r : op_state r = Indeterminate -> op_in_flight sr r = false.
Proof. intros E. unfold op_in_flight. rewrite E. by case_match. Qed.

Lemma recover_operation_idem sr r :
  recover_operation sr (recover_operation sr r) = recover_operation sr r.
Proof.
  unfold recover_operation at 2 3. destruct (op_in_flight sr r) eqn:E; unfold recover_operation.
  - by rewrite op_in_flight_indeterminate.
  - by rewrite E.
Qed.

Lemma recover_change_set_normal r : normalise_task_handle (recover_change_set r) = recover_change_set r.
Proof.
  unfold recover_change_set. destruct (cs_lost _) eqn:E; [|apply normalise_task_handle_idem].
  unfold cs_lost in E. rewrite !andb_true_iff, !bool_decide_eq_true in E.
  destruct E as [[_ E] _]. unfold normalise_task_handle at 1.
  by rewrite bool_decide_eq_false_2 by (simpl; rewrite E; done).
Qed.

Lemma recover_change_set_settled r : cs_lost (recover_change_set r) = false.
Proof.
  unfold recover_change_set. by destruct (cs_lost (normalise_task_handle r)) eqn:E.
Qed.

Lemma recover_change_set_idem r :
  recover_change_set (recover_change_set r) = recover_change_set r.
Proof.
  unfold recover_change_set at 1. by rewrite recover_change_set_normal, recover_change_set_settled.
Qed.

Lemma recover_state_idem sr st : recover_state sr (recover_state sr st) = recover_state sr st.
Proof.
  unfold recover_state; simpl. f_equal; rewrite <-map_fmap_compose; apply map_fmap_ext;
    intros k r _; [apply recover_operation_idem|apply recover_change_set_idem].
Qed.

Lemma recovered_false sr st : recovered sr st = false -> recover_state sr st = st.
Proof.
  unfold recovered. rewrite orb_false_iff, !any_false. intros [Ho Hc].
  destruct st as [ops css]. unfold recover_state; simpl in *. f_equal; apply map_eq; intros k;
    rewrite lookup_fmap; [destruct (ops !! k) as [r|] eqn:E|destruct (css !! k) as [r|] eqn:E];
    simpl; try done; f_equal.
  - unfold recover_operation. rewrite Ho; [done|]. apply elem_of_btree_values. eauto.
  - assert (cs_recovered r = false) as Hr by (apply Hc, elem_of_btree_values; eauto).
    unfold cs_recovered in Hr. apply orb_false_iff in Hr as [Ht Hl].
    unfold recover_change_set. rewrite Hl. unfold normalise_task_handle. by rewrite Ht.
Qed.

(** Recovery settles: nothing is left for a second pass. *)
Lemma recover_state_settled sr st : recovered sr (recover_state sr st) = false.
Proof.
  unfold recovered. rewrite orb_false_iff, !any_false. split.
  - intros r (k&Hk)%elem_of_btree_values. simpl in Hk. rewrite lookup_fmap in Hk.
    apply fmap_Some in Hk as (r0&_&->). unfold recover_operation.
    destruct (op_in_flight sr r0) eqn:E; [|done]. by apply op_in_flight_indeterminate.
  - intros r (k&Hk)%elem_of_btree_values. simpl in Hk. rewrite lookup_fmap in Hk.
    apply fmap_Some in Hk as (r0&_&->). unfold cs_recovered.
    rewrite recover_change_set_normal, recover_change_set_settled, orb_false_r.
    apply bool_decide_eq_false. rewrite <-recover_change_set_normal. unfold normalise_task_handle.
    by case_bool_decide.
Qed.

(** A recovered state has no empty handles left to drop. *)
Lemma recover_state_handles sr st : drop_empty_handles (recover_state sr st) = recover_state sr st.
Proof.
  unfold drop_empty_handles. destruct (any _ _) eqn:E; [|done].
  apply any_true in E as (r&(k&Hk)%elem_of_btree_values&Hr%bool_decide_eq_true).
  simpl in Hk. rewrite lookup_fmap in Hk. apply fmap_Some in Hk as (r0&_&->).
  rewrite <-recover_change_set_normal in Hr. unfold normalise_task_handle in Hr.
  by case_bool_decide.
Qed.

Section facts.
Context `{Externals} `{StateCodec}.

Lemma recover_operation_valid sr k r :
  validate_operation_record k (recover_operation sr r) = validate_operation_record k r.
Proof. unfold recover_operation. by case_match. Qed.

Lemma recover_change_set_valid v key k r :
  validate_change_set_record v key k (recover_change_set r) = validate_change_set_record v key k r.
Proof.
  unfold recover_change_set, normalise_task_handle. by repeat case_match.
Qed.

Lemma recover_change_set_version v r :
  version_adequate v (recover_change_set r) -> version_adequate v r.
Proof. unfold recover_change_set, normalise_task_handle. by repeat case_match. Qed.

Lemma recover_reloadable sr key st : reloadable key st -> reloadable key (recover_state sr st).
Proof.
  intros (H1&H2&H3&H4). unfold reloadable, recover_state; simpl. rewrite !map_size_fmap.
  split_and!; try done.
  - intros k r' Hk. rewrite lookup_fmap in Hk. apply fmap_Some in Hk as (r&Hk&->).
    rewrite recover_operation_valid. eauto.
  - intros k r' Hk v Hv. rewrite lookup_fmap in Hk. apply fmap_Some in Hk as (r&Hk&->).
    rewrite recover_change_set_valid. apply (H4 k r Hk). by apply recover_change_set_version.
Qed.
End facts.
