(* ===== verification/Events.v ===== *)
(** * Handlers as programs over the coordinator's interface

    An asynchronous handler is a tree: it asks one question at a time (the
    clock, the store, the device guard, the device, the evidence recorder) and
    continues with the answer.  Between two questions any other handler may
    run, which is what an [.await] allows.  [handle] answers a question in a
    world, and [run] and [schedule] execute one handler and an interleaving of
    many. *)

From S2P Require Import Prelude Externals Lifecycle Types Digest Records Secret Persistence Store.

(** ** The vendor's transaction (crates/mecmcp-changeset/src/transaction.rs) *)

(** The associated types of [DeviceTransaction], and serde on its actions. *)
Class DeviceTypes := {
  Action : Type;
  StagedHandle : Type;
  Diff : Type;
  Validation : Type;
  action_to_value : Action -> result json string;
  action_from_value : json -> result Action string;
}.

Inductive RollbackRef := Archive (n : N) | CandidateRevert | Custom (target : string).

(** [confirm_timeout] in seconds. *)
Record CommitOptions := { confirm_timeout : option N }.

Inductive CommitOutcome :=
| Reconciled (succeeded : bool) (job_id details : option string)
| Detached (job_id : option string)
| OutcomeIndeterminate (reason : string)
| AwaitingConfirmation (job_id : option string) (rollback_deadline_unix : N)
    (details : option string).

Inductive UnlockOutcome := Released | Unsupported.

Record RollbackOutcome := { rb_succeeded : bool; rb_details : option string }.

Record Atomicity := {
  atomic_apply : bool;
  dry_run_validation : bool;
  guaranteed_rollback : bool;
}.

Definition candidate_configuration : Atomicity :=
  {| atomic_apply := true; dry_run_validation := true; guaranteed_rollback := true |}.
Definition nothing_guaranteed : Atomicity :=
  {| atomic_apply := false; dry_run_validation := false; guaranteed_rollback := false |}.
Definition live_writes : Atomicity := nothing_guaranteed.
Definition is_fully_guaranteed (a : Atomicity) : bool :=
  atomic_apply a && dry_run_validation a && guaranteed_rollback a.

(** ** Questions *)

Inductive Event `{DeviceTypes} : Type -> Type :=
(* the process *)
| Now : Event (result N string)
| Random : Event (result N string)
| Nonce : Event N
| IsCancelled : Event bool
(* the store: one mutex-protected method call each *)
| GetRecord (operation_id owner device : string) : Event (result OperationRecord CoordinatorError)
| Insert (r : OperationRecord) : Event (result unit CoordinatorError)
| Update (r : OperationRecord) : Event (result unit CoordinatorError)
| Remove (operation_id : string) : Event unit
| GetChangeSet (id device : string) : Event (result ChangeSetRecord CoordinatorError)
| InsertChangeSet (r : ChangeSetRecord) : Event (result unit CoordinatorError)
| Claim (id device : string) (handle : ApplyHandle) : Event (result ChangeSetRecord CoordinatorError)
| UpdateChangeSet (r : ChangeSetRecord) : Event (result unit CoordinatorError)
| UpdateChangeSetFrom (observed : ChangeSetState) (r : ChangeSetRecord) :
    Event (result unit CoordinatorError)
(* the per-device guard: [false] when the caller was cancelled while waiting *)
| LockGuard (device : string) : Event bool
| UnlockGuard (device : string) : Event unit
(* evidence *)
| Proposal (request_id changeset_id device principal digest : string) : Event unit
| Approval (request_id changeset_id principal decision : string) : Event unit
| ApprovalWaived (request_id changeset_id kind reason : string) (expires : option N)
    (ticket : option string) : Event unit
| ApplyIntent (request_id changeset_id device principal : string) : Event (result unit string)
| ResultReceipt (request_id changeset_id device principal : string) (success : bool)
    (error : string) : Event (result unit string)
(* the device *)
| Fingerprint : Event (result string string)
| Stage (actions : list Action) : Event (result StagedHandle string)
| GetDiff (staged : StagedHandle) : Event (result Diff string)
| Validate (staged : StagedHandle) : Event (result Validation string)
(* [None] when cancellation wins the select *)
| Commit (staged : StagedHandle) (attribution : Attribution) (options : CommitOptions) :
    Event (option (result CommitOutcome string))
| Rollback (to : RollbackRef) : Event (result RollbackOutcome string)
| Lock (comment : string) : Event (result unit string)
| Unlock : Event (result UnlockOutcome string).

(** ** Programs *)

Inductive prog `{DeviceTypes} (A : Type) : Type :=
| Ret (a : A)
| Vis {X : Type} (e : Event X) (k : X -> prog A).
Arguments Ret {_ A} a.
Arguments Vis {_ A X} e k.

Fixpoint bind `{DeviceTypes} {A B} (p : prog A) (f : A -> prog B) : prog B :=
  match p with
  | Ret a => f a
  | Vis e k => Vis e (fun x => bind (k x) f)
  end.

Definition ask `{DeviceTypes} {X} (e : Event X) : prog X := Vis e Ret.

(** [?] on an awaited result. *)
Definition bind_ok `{DeviceTypes} {A B E} (p : prog (result A E)) (f : A -> prog (result B E)) :
  prog (result B E) :=
  bind p (fun r => match r with Ok a => f a | Err e => Ret (Err e) end).

Notation "'let!' x ':=' p 'in' k" := (bind p (fun x => k))
  (at level 10, x pattern, p at level 200, k at level 200) : rust_scope.
Notation "'try!' x ':=' p 'in' k" := (bind_ok p (fun x => k))
  (at level 10, x pattern, p at level 200, k at level 200) : rust_scope.
Notation "'do!' p ';' k" := (bind p (fun _ => k))
  (at level 10, p at level 99, k at level 200) : rust_scope.
Notation "'refuse!' c 'with' e ';' k" := (if c then Ret (Err e) else k)
  (at level 10, c at level 99, e at level 99, k at level 200) : rust_scope.

(** A pure computation that may fail. *)
Definition lift `{DeviceTypes} {A E} (r : result A E) : prog (result A E) := Ret r.

(** [coordinator.rs: device_guard]: the lock, unless cancellation fires first;
    the guard is dropped when the handler returns. *)
Definition with_device_guard `{DeviceTypes} {A} (device : string)
  (body : prog (result A CoordinatorError)) : prog (result A CoordinatorError) :=
  let! acquired := ask (LockGuard device) in
  if acquired : bool
  then let! r := body in do! ask (UnlockGuard device); Ret r
  else Ret (Err (cerr "device" "operation cancelled")).

Definition now_unix `{DeviceTypes} : prog (result N CoordinatorError) :=
  let! t := ask Now in
  Ret (map_err (fun _ => cerr "time" "system clock is before the Unix epoch") t).

Definition new_operation_id `{DeviceTypes} : prog (result string CoordinatorError) :=
  let! r := ask Random in
  Ret (match r with
       | Ok seed => Ok (bytes_hex (be_bytes 32 seed ""))
       | Err error => Err (cerr "operation_id" ("RNG unavailable: " +:+ error))
       end).
