(* ===== verification/World.v ===== *)
(** * The world handlers run in

    What answers a handler's questions: the store, the per-device guards, and
    an environment that decides everything the program does not (clock, random
    numbers, the fate of each write, cancellations, the evidence spool and the
    device).  Every function here is executable. *)

From S2P Require Import Prelude Externals Lifecycle Types Digest Records Secret Persistence Store Events.

Section world.
Context `{Externals} `{StateCodec} `{DT : DeviceTypes}.

(** Each answer may depend on when it is asked. *)
Record Env := {
  clock : nat -> result N string;
  entropy : nat -> result N string;
  hash_seed : nat -> N;
  cancelled : nat -> bool;
  persist : nat -> PersistFate;
  persist_sweep : nat -> PersistFate;
  spool : nat -> result unit string;
  dev_fingerprint : nat -> result string string;
  dev_stage : nat -> list Action -> result StagedHandle string;
  dev_diff : nat -> StagedHandle -> result Diff string;
  dev_validate : nat -> StagedHandle -> result Validation string;
  dev_commit : nat -> StagedHandle -> result CommitOutcome string;
  dev_rollback : nat -> RollbackRef -> result RollbackOutcome string;
  dev_lock : nat -> result unit string;
  dev_unlock : nat -> result UnlockOutcome string;
}.

Record World := {
  w_store : Store;
  w_guards : gmap string nat;  (** device -> the thread holding its guard *)
}.

Definition on_store {A} (w : World) (out : A * Store) : option (A * World) :=
  Some (out.1, {| w_store := out.2; w_guards := w_guards w |}).
Definition pure {A} (w : World) (a : A) : option (A * World) := Some (a, w).

Definition clock_error (r : result N string) : result N CoordinatorError :=
  map_err (fun _ => cerr "time" "system clock is before the Unix epoch") r.

(** The answer thread [tid] gets at time [t]; [None] while it has to wait. *)
Definition handle (cfg : Config) (env : Env) (tid t : nat) {X} (e : Event X) (w : World) :
  option (X * World) :=
  let s := w_store w in
  match e in Event X return option (X * World) with
  | Now => pure w (clock env t)
  | Random => pure w (entropy env t)
  | Nonce => pure w (hash_seed env t)
  | IsCancelled => pure w (cancelled env t)
  | GetRecord id owner device => pure w (record id owner device s)
  | Insert r => on_store w (insert cfg (persist env t) r s)
  | Update r => on_store w (update cfg (persist env t) r s)
  | Remove id => on_store w (tt, remove cfg (persist env t) id s)
  | GetChangeSet id device => pure w (change_set id device s)
  | InsertChangeSet r =>
      on_store w (insert_change_set cfg (clock_error (clock env t)) (persist_sweep env t)
                    (persist env t) r s)
  | Claim id device handle =>
      on_store w (claim_change_set_for_apply cfg (persist env t) id device handle s)
  | UpdateChangeSet r => on_store w (update_change_set cfg (persist env t) r s)
  | UpdateChangeSetFrom observed r =>
      on_store w (update_change_set_from cfg (persist env t) observed r s)
  | LockGuard device =>
      if cancelled env t then Some (false, w)
      else match w_guards w !! device with
           | Some _ => None
           | None => Some (true, {| w_store := s; w_guards := <[device := tid]> (w_guards w) |})
           end
  | UnlockGuard device => Some (tt, {| w_store := s; w_guards := delete device (w_guards w) |})
  | Proposal _ _ _ _ _ => pure w tt
  | Approval _ _ _ _ => pure w tt
  | ApprovalWaived _ _ _ _ _ _ => pure w tt
  | ApplyIntent _ _ _ _ => pure w (spool env t)
  | ResultReceipt _ _ _ _ _ _ => pure w (spool env t)
  | Fingerprint => pure w (dev_fingerprint env t)
  | Stage actions => pure w (dev_stage env t actions)
  | GetDiff staged => pure w (dev_diff env t staged)
  | Validate staged => pure w (dev_validate env t staged)
  | Commit staged _ _ =>
      pure w (if cancelled env t then None else Some (dev_commit env t staged))
  | Rollback to => pure w (dev_rollback env t to)
  | Lock _ => pure w (dev_lock env t)
  | Unlock => pure w (dev_unlock env t)
  end.

(** An observation: who asked what, and the answer. *)
Inductive obs :=
| Obs {X : Type} (tid : nat) (e : Event X) (x : X).

(** ** One handler alone *)

Fixpoint run (cfg : Config) (env : Env) (t : nat) {A} (p : prog A) (w : World) :
  option (A * World) * list obs :=
  match p with
  | Ret a => (Some (a, w), [])
  | Vis e k =>
      match handle cfg env 0 t e w with
      | None => (None, [])
      | Some (x, w) =>
          let '(out, l) := run cfg env (S t) (k x) w in (out, Obs 0 e x :: l)
      end
  end.

(** ** Many handlers *)

(** A thread is running, or was dropped (a cancelled future never resumes). *)
Record Pool (A : Type) := {
  p_world : World;
  p_threads : list (option (prog A));
  p_time : nat;
  p_log : list obs;  (** newest first *)
}.
Arguments p_world {A}.
Arguments p_threads {A}.
Arguments p_time {A}.
Arguments p_log {A}.

Inductive Turn := Run (tid : nat) | Drop (tid : nat).

Definition turn {A} (cfg : Config) (env : Env) (d : Turn) (p : Pool A) : Pool A :=
  match d with
  | Run tid =>
      match p_threads p !! tid with
      | Some (Some (Vis e k)) =>
          match handle cfg env tid (p_time p) e (p_world p) with
          | Some (x, w) =>
              {| p_world := w; p_threads := <[tid := Some (k x)]> (p_threads p);
                 p_time := S (p_time p); p_log := Obs tid e x :: p_log p |}
          | None => p
          end
      | _ => p
      end
  | Drop tid =>
      {| p_world := {| w_store := w_store (p_world p);
                       w_guards := filter (fun kv => kv.2 <> tid) (w_guards (p_world p)) |};
         p_threads := <[tid := None]> (p_threads p);
         p_time := p_time p; p_log := p_log p |}
  end.

Definition schedule {A} (cfg : Config) (env : Env) (ds : list Turn) (p : Pool A) : Pool A :=
  foldl (fun p d => turn cfg env d p) p ds.

End world.

Arguments p_world {_ _ _} _.
Arguments p_threads {_ _ _} _.
Arguments p_time {_ _ _} _.
Arguments p_log {_ _ _} _.
