(* ===== verification/Changeset.v ===== *)
(** * Planning, approving and cancelling (crates/mecmcp-changeset/src/changeset.rs)

    The change-set handlers up to apply, each the whole method: its refusals in
    the order the code makes them, its writes and its evidence. *)

From S2P Require Import Prelude Externals Lifecycle Types Digest Records Secret Persistence Store StoreFacts Events World.

Record ChangeSetOutput := {
  out_change_set_id : string;
  out_owner : string;
  out_device : string;
  out_digest : string;
  out_state : ChangeSetState;
  out_approver : option string;
  out_expires_at_unix : N;
  out_action_count : N;
  out_approval_waiver : option string;
  out_actions : option (list json);
}.

Definition change_set_output (r : ChangeSetRecord) : ChangeSetOutput := {|
  out_change_set_id := cs_id r;
  out_owner := cs_owner r;
  out_device := cs_device r;
  out_digest := cs_digest r;
  out_state := cs_state r;
  out_approver := cs_approver r;
  out_expires_at_unix := cs_expires_at_unix r;
  out_action_count := N.of_nat (length (cs_actions r));
  out_approval_waiver := w_reason <$> (cs_approval r ≫= ap_waived);
  out_actions := None;
|}.

Definition digest_to_coordinator (field : string) (e : DigestError) : CoordinatorError :=
  cerr field (digest_error_to_string e).

Section changeset.
Context `{EX : Externals} `{SC : StateCodec} `{DT : DeviceTypes}.
Variable cfg : Config.

Definition emit {A} (e : Event A) (d : A) : prog A :=
  if evidence cfg then ask e else Ret d.

(** ** Create *)

Definition create_change_set (device : string) (actions : list Action) (owner : string)
  (expected_fingerprint policy_signature : string) :
  prog (result ChangeSetOutput CoordinatorError) :=
  try! _ := lift (map_err (digest_to_coordinator "expected_candidate_fingerprint")
                    (Digest.validate_fingerprint expected_fingerprint)) in
  try! _ := lift (map_err (fun e => cerr (re_field e) (re_message e))
                    (validate_change_set_actions action_to_value actions (limits cfg))) in
  try! now := now_unix in
  try! id := new_operation_id in
  try! actions_value := lift (collect ((fun action =>
                map_err (fun e => cerr "actions" ("failed to serialize action: " +:+ e))
                  (action_to_value action)) <$> actions)) in
  try! digest := lift (map_err (digest_to_coordinator "digest")
                         (change_set_digest owner device expected_fingerprint actions_value)) in
  let r := {|
    cs_id := id; cs_owner := owner; cs_device := device;
    cs_expected_candidate_fingerprint := expected_fingerprint;
    cs_actions := actions_value; cs_digest := digest; cs_state := Planned;
    cs_approver := None; cs_approval := None;
    cs_expires_at_unix := saturating_add now (approval_ttl cfg);
    cs_operation_id := None; cs_policy_signature := policy_signature;
    cs_targets := []; cs_preview := None; cs_task_id := None;
    cs_apply_without_handle := false |} in
  try! _ := ask (InsertChangeSet r) in
  do! emit (Proposal id id (cs_device r) (cs_owner r) (cs_digest r)) tt;
  Ret (Ok (change_set_output r)).

(** ** Approve *)

(** The expiry branch the three approval paths share. *)
Definition expire {A} (r : ChangeSetRecord) (message : string) :
  prog (result A CoordinatorError) :=
  try! _ := ask (UpdateChangeSetFrom (cs_state r) (set_cs_state Expired r)) in
  Ret (Err (cerr "change_set_id" message)).

Definition sign_approval (change_set_id : string) (r : ChangeSetRecord) (approver : string)
  (now : N) : string * N :=
  let preview_digest := pv_digest <$> cs_preview r in
  match approval_digest_key cfg with
  | Some key =>
      (compute_approval_digest_v6 key change_set_id (cs_digest r) preview_digest (cs_owner r)
         approver now, 6%N)
  | None =>
      (compute_approval_digest_v5 change_set_id (cs_digest r) preview_digest (cs_owner r)
         approver now, 5%N)
  end.

Definition approve_change_set (change_set_id device approver expected_digest : string)
  (approver_actor_type : ActorType) : prog (result ChangeSetOutput CoordinatorError) :=
  try! _ := lift (map_err (digest_to_coordinator "expected_digest")
                    (validate_digest expected_digest "expected_digest")) in
  try! r := ask (GetChangeSet change_set_id device) in
  refuse! bool_decide (cs_owner r = approver)
    with cerr "change_set_id" "the change-set owner cannot approve their own plan";
  refuse! negb (bool_decide (approver_actor_type = Human))
    with cerr "approver_actor_type" "the change-set approver must be a human principal";
  refuse! negb (bool_decide (cs_state r = Planned))
    with cerr "change_set_id" "change set is not awaiting approval";
  try! now := now_unix in
  if (cs_expires_at_unix r <=? now)%N then expire r "change-set approval window expired" else
  refuse! negb (bool_decide (cs_digest r = expected_digest))
    with cerr "expected_digest" "digest does not match the exact stored change set";
  try! _ := lift (map_err (fun msg => cerr "owner" msg)
                    (validate_principal_for_digest "owner" (cs_owner r))) in
  try! _ := lift (map_err (fun msg => cerr "approver" msg)
                    (validate_principal_for_digest "approver" approver)) in
  try! _ := lift (map_err (fun e => cerr "preview"
                             ("the preview is invalid: " +:+ preview_error_to_string e))
                    (validate_preview r usize_max)) in
  let '(approval_digest, digest_version) := sign_approval change_set_id r approver now in
  let observed := cs_state r in
  let r := set_cs_approval (Some approver) (Some {|
             ap_approver := Some approver; ap_approved_at_unix := now;
             ap_digest := approval_digest; ap_digest_version := digest_version;
             ap_waived := None |}) (set_cs_state Approved r) in
  try! _ := ask (UpdateChangeSetFrom observed r) in
  do! emit (Approval change_set_id change_set_id approver "approved") tt;
  Ret (Ok (change_set_output r)).

(** ** Waive *)

(** The record a waiver produces, and the tail both waiver paths share. *)
Definition waived_record (change_set_id : string) (r : ChangeSetRecord) (now : N)
  (waiver : WaiverRecord) : ChangeSetRecord :=
  set_cs_approval None (Some {|
    ap_approver := None; ap_approved_at_unix := now;
    ap_digest := compute_waiver_digest_v3 change_set_id (cs_digest r) (cs_owner r) now waiver;
    ap_digest_version := 4;
    ap_waived := Some waiver |}) (set_cs_state Approved r).

Definition grant_waiver (change_set_id : string) (r : ChangeSetRecord) (now : N)
  (waiver : WaiverRecord) : prog (result ChangeSetOutput CoordinatorError) :=
  let observed := cs_state r in
  let r := waived_record change_set_id r now waiver in
  try! _ := ask (UpdateChangeSetFrom observed r) in
  do! emit (ApprovalWaived change_set_id change_set_id (waiver_kind_as_str (w_kind waiver))
              (w_reason waiver) (w_expires_at_unix waiver) (w_ticket waiver)) tt;
  Ret (Ok (change_set_output r)).

Definition waive_approval (change_set_id device owner expected_digest : string) :
  prog (result ChangeSetOutput CoordinatorError) :=
  refuse! negb (lab_mode cfg)
    with cerr "change_set_id" "approval waiver requires lab mode to be enabled";
  try! _ := lift (map_err (digest_to_coordinator "expected_digest")
                    (validate_digest expected_digest "expected_digest")) in
  try! r := ask (GetChangeSet change_set_id device) in
  refuse! negb (bool_decide (cs_owner r = owner))
    with cerr "change_set_id" "only the change-set owner can waive approval in lab mode";
  refuse! negb (bool_decide (cs_state r = Planned))
    with cerr "change_set_id" "change set is not awaiting approval";
  try! now := now_unix in
  if (cs_expires_at_unix r <=? now)%N then expire r "change-set approval window expired" else
  refuse! negb (bool_decide (cs_digest r = expected_digest))
    with cerr "expected_digest" "digest does not match the exact stored change set";
  grant_waiver change_set_id r now
    {| w_kind := LabMode; w_reason := "lab-mode"; w_expires_at_unix := None; w_ticket := None |}.

Definition waive_approval_operator (change_set_id device owner expected_digest : string)
  (kind : WaiverKind) (reason : string) (expires_at_unix : option N) (ticket : option string) :
  prog (result ChangeSetOutput CoordinatorError) :=
  refuse! bool_decide (kind = LabMode)
    with cerr "kind" "use waive_approval for a lab-mode waiver; this path records an operator-granted exception under a control that is still on";
  try! _ := lift (map_err (digest_to_coordinator "expected_digest")
                    (validate_digest expected_digest "expected_digest")) in
  try! r := ask (GetChangeSet change_set_id device) in
  refuse! negb (bool_decide (cs_owner r = owner))
    with cerr "change_set_id" "only the change-set owner can waive approval";
  refuse! negb (bool_decide (cs_state r = Planned))
    with cerr "change_set_id" "change set is not awaiting approval";
  try! now := now_unix in
  if (cs_expires_at_unix r <=? now)%N then expire r "change-set approval window expired" else
  refuse! negb (bool_decide (cs_digest r = expected_digest))
    with cerr "expected_digest" "digest does not match the exact stored change set";
  refuse! (match expires_at_unix with Some expires => (expires <=? now)%N | None => false end)
    with cerr "expires_at_unix" "waiver expiry is already in the past; a waiver that is dead on arrival is a configuration error, not a waiver";
  grant_waiver change_set_id r now
    {| w_kind := kind; w_reason := reason; w_expires_at_unix := expires_at_unix;
       w_ticket := ticket |}.

(** ** Status *)

Definition retire_if_deadline_passed (r : ChangeSetRecord) :
  prog (result ChangeSetRecord CoordinatorError) :=
  try! now := now_unix in
  let approval_ttl_passed := bool_decide (cs_state r = Planned)
                             && (cs_expires_at_unix r <=? now)%N in
  let lapsed := is_expirable (cs_state r) && waiver_lapsed r now in
  if approval_ttl_passed || lapsed then
    let retired := set_cs_state Expired r in
    try! _ := ask (UpdateChangeSetFrom (cs_state r) retired) in
    Ret (Ok retired)
  else Ret (Ok r).

Definition change_set_status (change_set_id device : string) :
  prog (result ChangeSetOutput CoordinatorError) :=
  try! r := ask (GetChangeSet change_set_id device) in
  try! r := retire_if_deadline_passed r in
  Ret (Ok (change_set_output r)).

Definition set_out_actions (actions : list json) (o : ChangeSetOutput) : ChangeSetOutput := {|
  out_change_set_id := out_change_set_id o; out_owner := out_owner o;
  out_device := out_device o; out_digest := out_digest o; out_state := out_state o;
  out_approver := out_approver o; out_expires_at_unix := out_expires_at_unix o;
  out_action_count := out_action_count o; out_approval_waiver := out_approval_waiver o;
  out_actions := Some actions |}.

Definition change_set_status_with_actions (change_set_id device : string) :
  prog (result ChangeSetOutput CoordinatorError) :=
  try! r := ask (GetChangeSet change_set_id device) in
  try! r := retire_if_deadline_passed r in
  Ret (Ok (set_out_actions (cs_actions r) (change_set_output r))).

(** ** Cancel *)

Definition cancel_change_set (change_set_id device principal : string) :
  prog (result ChangeSetOutput CoordinatorError) :=
  try! r := ask (GetChangeSet change_set_id device) in
  if bool_decide (cs_state r = Cancelled) then Ret (Ok (change_set_output r)) else
  let is_owner := bool_decide (cs_owner r = principal) in
  let is_approver := bool_decide (cs_approver r = Some principal) in
  refuse! negb is_owner && negb is_approver
    with cerr "change_set_id" "only the change-set owner or approver may cancel it";
  refuse! (match cs_state r with Applying | Applied => true | _ => false end)
    with cerr "change_set_id" ("cannot cancel a change set in state "
                                 +:+ str_debug (cs_as_str (cs_state r)));
  let cancelled := set_cs_state Cancelled r in
  try! _ := ask (UpdateChangeSetFrom (cs_state r) cancelled) in
  Ret (Ok (change_set_output cancelled)).

End changeset.
