(* ===== verification/Contracts.v ===== *)
(** * Contracts of the parts

    What each part promises on its own, for one call or for one sequence of
    calls: the coordinator's maps, the write gate, the digests, the state file
    and the offline repair.  The theorems about whole runs are in
    Guarantees.v. *)

From S2P Require Import Prelude Externals Lifecycle Types Digest Trust Records Secret Persistence Reload Store StoreFacts Recovery Events World Changeset.

(** ** The coordinator's maps *)

Section maps.
Context `{EX : Externals} `{SC : StateCodec}.

(** C32 The coordinator refines the change-set lifecycle: over any sequence of
    mutating calls, with any arguments and any failing writes, the record under
    each identifier only moves by creation, permitted writes, the claim,
    expiry and eviction, and stays filed under its own identifier. *)
Theorem store_refines_lifecycle cfg s s' :
  well_keyed (change_sets (mem s)) -> rtc (store_step cfg) s s' ->
  well_keyed (change_sets (mem s')) /\
  forall k, rtc cs_step (change_sets (mem s) !! k) (change_sets (mem s') !! k).
Proof.
  intros Hk Hs. induction Hs as [s|s s1 s' H1 _ IH]; [done|].
  destruct (store_step_cs cfg s s1 Hk H1) as [Hk1 Hst1]. destruct (IH Hk1) as [Hk' Hst'].
  split; [done|]. intros k. etrans; [apply Hst1|apply Hst'].
Qed.

(** A step that moves a record to another state. *)
Definition state_change (r r' : ChangeSetRecord) : Prop :=
  cs_step (Some r) (Some r') /\ cs_state r <> cs_state r'.

Lemma state_change_move r r' : state_change r r' -> lifecycle_move (cs_state r) (cs_state r').
Proof.
  intros [Hs Hne]. inversion Hs as [|cur next Hck|cur h Happ|cur He|]; subst.
  - apply check_write_Ok in Hck as (_&_&_&_&_&_&Ht&_). by apply move_table.
  - cbn. rewrite Happ. apply move_claim.
  - cbn in *. apply move_table; [|done]. by destruct (cs_state r).
Qed.

(** A change set's lifecycle ends: between its creation and its eviction a
    record changes state at most five times, and each change uses up what is
    left. *)
Theorem lifecycle_terminates n r r' :
  nsteps state_change n r r' ->
  n + lifecycle_rank (cs_state r') <= lifecycle_rank (cs_state r) <= 5.
Proof.
  intros Hn. split; [|by destruct (cs_state r); cbn; lia].
  induction Hn as [r|n r r1 r' H1 _ IH]; [lia|].
  apply state_change_move, lifecycle_move_rank in H1. lia.
Qed.

(** The approval of a record a write may touch. *)
Definition approval_kept (cur next : ChangeSetRecord) : Prop :=
  forall a, cs_approval cur = Some a ->
    (is_Some (ap_approver a) -> cs_approval next = Some a) /\
    ((5 <= ap_digest_version a)%N ->
     pv_digest <$> cs_preview cur = pv_digest <$> cs_preview next).

Lemma check_approval_frozen_Ok cur next :
  check_approval_frozen cur next = Ok tt <-> approval_kept cur next.
Proof.
  assert (forall b c, negb (b && negb c) = true <-> (b = true -> c = true)) as Himp
    by (intros [] []; simpl; naive_solver).
  unfold check_approval_frozen, approval_kept. destruct (cs_approval cur) as [a|]; [|naive_solver].
  rewrite !ensure_Ok, !Himp, !bool_decide_eq_true, N.leb_le. naive_solver.
Qed.

(** The gate every update passes accepts exactly the permitted writes: the
    owner, device and plan digest are the stored ones, [Approved] to
    [Applying] is refused (the claim is the only door), a granted approval and
    the preview it binds are kept, the owner is not the approver, the state
    moves along the table, and an apply without a vendor handle keeps its
    marker. *)
Theorem gate_accepts_exactly cur next :
  check_change_set_write (Some cur) next ViaUpdate = Ok tt <->
  (cs_owner next = cs_owner cur /\ cs_device next = cs_device cur /\
   cs_digest next = cs_digest cur) /\
  ~ (cs_state cur = Approved /\ cs_state next = Applying) /\
  (cs_preview next <> None -> validate_preview next usize_max = Ok tt) /\
  approval_kept cur next /\
  cs_approval next ≫= ap_approver <> Some (cs_owner next) /\
  cs_approver next <> Some (cs_owner next) /\
  change_set_transition_allowed (cs_state cur) (cs_state next) = true /\
  ~ (cs_state cur = Applying /\ cs_state next = Applying /\
     cs_apply_without_handle cur = true /\ cs_apply_without_handle next = false).
Proof. by rewrite check_write_Ok, check_approval_frozen_Ok. Qed.

(** The observed-state update is a compare-and-set: it takes effect only if
    the stored record is still in the state the caller saw and the gate
    accepts the write, it then changes that record alone, and in every other
    case, a failed persist included, memory is exactly as before. *)
Theorem update_from_is_compare_and_set cfg fate observed r s :
  let out := update_change_set_from cfg fate observed r s in
  (out.1 = Ok tt /\
   exists cur, change_sets (mem s) !! cs_id r = Some cur /\ cs_state cur = observed /\
     check_change_set_write (Some cur) (normalise r) ViaUpdate = Ok tt /\
     mem out.2 = set_change_sets (<[cs_id r := normalise r]>) (mem s) /\ in_sync cfg out.2) \/
  (exists e, out.1 = Err e /\ mem out.2 = mem s).
Proof.
  intros out. destruct (update_change_set_from_cases cfg fate observed r s)
    as [(cur&Hcur&Hst&Hck&Hok&Hm)|He]; [left|by right].
  split; [done|]. exists cur. split_and!; [done..|]. subst out. clear Hck Hm. revert Hok.
  unfold update_change_set_from. rewrite Hcur.
  destruct (negb _); [done|]. unfold write_change_set.
  destruct (check_change_set_write _ _ _); [|done].
  set (s1 := cs_map _ _). pose proof (persist_Ok_in_sync cfg fate s1) as Hsync.
  destruct (persist_locked cfg fate s1) as [[[]|e] s2]; cbn in *; [|done]. intros _. by apply Hsync.
Qed.

(** A claim takes an approved record of the named device and leaves it
    [Applying], also when the persist fails; every other claim changes
    nothing. *)
Theorem claim_takes_approved_only cfg fate id device handle s :
  let out := claim_change_set_for_apply cfg fate id device handle s in
  (exists cur, change_sets (mem s) !! id = Some cur /\ cs_state cur = Approved /\
     cs_device cur = device /\
     mem out.2 = set_change_sets (<[id := claimed handle cur]>) (mem s) /\
     (forall r, out.1 = Ok r -> r = claimed handle cur)) \/
  (exists e, out = (Err e, s)).
Proof.
  intros out. destruct (claim_cases cfg fate id device handle s)
    as [(cur&?&?&?&_&?&Hr)|?]; [left|by right].
  exists cur. split_and!; try done. subst out. intros r Hok. destruct Hr as [Hr|(e&Hr)]; congruence.
Qed.

End maps.

(** ** Exclusion *)

Section exclusion.
Context `{EX : Externals} `{SC : StateCodec}.

(** No two live operations share a device or an endpoint. *)
Definition exclusive (m : gmap string OperationRecord) : Prop :=
  forall k k' e e', k <> k' -> m !! k = Some e -> m !! k' = Some e' ->
    terminal (op_state e) = false -> terminal (op_state e') = false ->
    op_device e <> op_device e' /\ op_endpoint e <> op_endpoint e'.

Lemma exclusive_subseteq m m' : m' ⊆ m -> exclusive m -> exclusive m'.
Proof. intros Hs Hm k k' e e' Hne He He'. eapply Hm; [done|by eapply lookup_weaken..]. Qed.

Lemma op_room_subseteq cfg m : op_room cfg m ⊆ m.
Proof. unfold op_room. case_match; [apply map_filter_subseteq|done]. Qed.

Lemma op_conflict_false r e :
  op_conflict r e = false -> terminal (op_state e) = false ->
  op_device e <> op_device r /\ op_endpoint e <> op_endpoint r.
Proof.
  unfold op_conflict. intros Hc Ht. rewrite Ht in Hc. simpl in Hc.
  apply orb_false_iff in Hc. by rewrite !bool_decide_eq_false in Hc.
Qed.

(** Reserving an operation keeps devices exclusive: no two live operations
    ever share a device or an endpoint, a reservation that succeeds is in the
    map and within capacity, and one that fails, at the persist included,
    leaves nothing behind. *)
Theorem insert_keeps_devices_exclusive cfg fate r s :
  exclusive (operations (mem s)) -> operations (mem s) !! op_id r = None ->
  let out := insert cfg fate r s in
  exclusive (operations (mem out.2)) /\
  (out.1 = Ok tt -> operations (mem out.2) !! op_id r = Some r /\
     (N.of_nat (size (operations (mem out.2))) <= max_operations (limits cfg))%N) /\
  (out.1 <> Ok tt -> operations (mem out.2) ⊆ operations (mem s)).
Proof.
  intros Hex Hnew. cbv zeta. pose proof (op_room_subseteq cfg (operations (mem s))) as Hsub.
  destruct (insert_cases cfg fate r s) as [_ [(Hok&[Hroom Hfree Hm])|(e&Herr&Hm)]].
  - assert (op_room cfg (operations (mem s)) !! op_id r = None) as Hn
      by (by eapply lookup_weaken_None).
    rewrite Hm. split_and!; [|intros _|done].
    + intros k k' a b Hne. rewrite !lookup_insert_Some.
      intros [[<- <-]|[_ Ha]] [[<- <-]|[_ Hb]] Ta Tb; [done|..].
      * destruct (op_conflict_false _ _ (Hfree _ _ Hb) Tb). split; congruence.
      * by apply (op_conflict_false _ _ (Hfree _ _ Ha)).
      * by eapply (exclusive_subseteq _ _ Hsub Hex k k').
    + rewrite lookup_insert_eq. split; [done|]. rewrite map_size_insert_None by done. lia.
  - assert (operations (mem (insert cfg fate r s).2) ⊆ operations (mem s)) as Hs.
    { destruct Hm as [->| ->]; [done|]. etrans; [apply delete_subseteq|done]. }
    split_and!; [by eapply exclusive_subseteq|intros; congruence|done].
Qed.

(** No owner has two pending change sets on one device. *)
Definition one_pending (m : gmap string ChangeSetRecord) : Prop :=
  forall k k' r r', k <> k' -> m !! k = Some r -> m !! k' = Some r' ->
    is_pending (cs_state r) = true -> is_pending (cs_state r') = true ->
    ~ (cs_owner r = cs_owner r' /\ cs_device r = cs_device r').

(** Every record of [m'] is a version of one of [m] that is not newly pending. *)
Definition keeps_slots (m m' : gmap string ChangeSetRecord) : Prop :=
  forall k r', m' !! k = Some r' -> exists r, m !! k = Some r /\
    cs_owner r' = cs_owner r /\ cs_device r' = cs_device r /\
    (is_pending (cs_state r') = true -> is_pending (cs_state r) = true).

Lemma keeps_slots_refl m : keeps_slots m m.
Proof. intros k r Hr. by exists r. Qed.

Lemma one_pending_slots m m' : keeps_slots m m' -> one_pending m -> one_pending m'.
Proof.
  intros Hs Hm k k' a b Hne Ha Hb Pa Pb [Eo Ed].
  destruct (Hs k a Ha) as (a0&Ha0&?&?&?), (Hs k' b Hb) as (b0&Hb0&?&?&?).
  apply (Hm k k' a0 b0 Hne Ha0 Hb0); auto. split; congruence.
Qed.

Lemma keeps_slots_retire now m : keeps_slots m (retire now <$> m).
Proof.
  intros k r'. rewrite lookup_fmap. intros (r&Hr&->)%fmap_Some. exists r.
  unfold retire. by case_match.
Qed.

Lemma keeps_slots_swept cfg now m : keeps_slots m (swept cfg now m).
Proof.
  intros k r' Hr'. apply (keeps_slots_retire now m k r'). unfold swept in Hr'.
  case_match; [|done]. by apply map_lookup_filter_Some in Hr' as [? _].
Qed.

Lemma keeps_slots_insert m k cur next :
  m !! k = Some cur -> cs_owner next = cs_owner cur -> cs_device next = cs_device cur ->
  (is_pending (cs_state next) = true -> is_pending (cs_state cur) = true) ->
  keeps_slots m (<[k := next]> m).
Proof.
  intros Hc Ho Hd Hp k' r'. rewrite lookup_insert_Some.
  intros [[<- <-]|[_ Hr']]; [by exists cur|by exists r'].
Qed.

Lemma table_pending s t :
  change_set_transition_allowed s t = true -> is_pending t = true -> is_pending s = true.
Proof. by destruct s, t. Qed.

Lemma keeps_slots_write cfg fate r s :
  keeps_slots (change_sets (mem s)) (change_sets (mem (write_change_set cfg fate r s).2)).
Proof.
  destruct (write_change_set_cases cfg fate r s) as [(cur&Hcur&Hck&_&->)|(e&_&->)];
    [|apply keeps_slots_refl].
  apply check_write_Ok in Hck as ((Ho&Hd&_)&_&_&_&_&_&Ht&_). cbn.
  apply keeps_slots_insert with cur; [done..|]. by apply table_pending.
Qed.

Lemma one_pending_step cfg s s' :
  well_keyed (change_sets (mem s)) -> store_step cfg s s' ->
  one_pending (change_sets (mem s)) -> one_pending (change_sets (mem s')).
Proof.
  intros Hk [fate r|fate r|fate id|now f1 f2 r|fate id dev h|fate r|fate o r] Hp.
  - by destruct (insert_cases cfg fate r s) as [-> _].
  - by destruct (update_cases cfg fate r s) as [-> _].
  - by rewrite remove_mem.
  - destruct (insert_change_set_cases cfg now f1 f2 r s Hk)
      as [(t&_&_&_&[Hpl _ _ _ Hf _ Hslot Hm])|(e&_&[->|(t&_&[->| ->])])].
    + rewrite Hm. pose proof (one_pending_slots _ _ (keeps_slots_swept cfg t _) Hp) as Hp'.
      destruct (normalise_keeps r) as (_&_&Eo&Ed).
      intros k k' a b Hne. rewrite !lookup_insert_Some.
      intros [[<- <-]|[_ Ha]] [[<- <-]|[_ Hb]] Pa Pb [Ho Hd]; [done|..].
      * apply (Hslot _ _ Hb). split_and!; [congruence..|done].
      * apply (Hslot _ _ Ha). split_and!; [congruence..|done].
      * by apply (Hp' k k' a b).
    + done.
    + eapply one_pending_slots; [apply keeps_slots_swept|done].
    + eapply one_pending_slots; [apply keeps_slots_retire|done].
  - destruct (claim_cases cfg fate id dev h s) as [(cur&Hl&Hs&_&_&Hm&_)|(e&->)]; [|done].
    rewrite Hm. eapply one_pending_slots; [|done].
    apply keeps_slots_insert with cur; try done. by rewrite Hs.
  - eapply one_pending_slots; [apply keeps_slots_write|done].
  - unfold update_change_set_from. destruct (change_sets (mem s) !! cs_id r); [|done].
    destruct (negb _); [done|]. eapply one_pending_slots; [apply keeps_slots_write|done].
Qed.

(** An owner never has two pending change sets on one device, over any
    sequence of mutating calls. *)
Theorem one_pending_change_set cfg s s' :
  well_keyed (change_sets (mem s)) -> one_pending (change_sets (mem s)) ->
  rtc (store_step cfg) s s' -> one_pending (change_sets (mem s')).
Proof.
  intros Hk Hp Hs. revert Hk Hp. induction Hs as [s|s s1 s' H1 _ IH]; intros Hk Hp; [done|].
  apply IH; [by eapply store_step_cs|by eapply one_pending_step].
Qed.

End exclusion.

(** ** Digests *)

Section digests.
Context `{EX : Externals} `{XL : !ExternalsLaws EX}.

(** What an approval is signed with: HMAC under the configured key, or SHA-256. *)
Definition seal (key : option bytes) (b : bytes) : bytes :=
  match key with Some k => hmac_sha256 k b | None => sha256 b end.

Definition signed_tuple (cfg : Config) (id : string) (r : ChangeSetRecord) (approver : string)
  (now : N) : json :=
  approval_tuple (match approval_digest_key cfg with
                  | Some _ => "mecmcp-approval-v6" | None => "mecmcp-approval-v5" end)
    id (cs_digest r) (pv_digest <$> cs_preview r) (cs_owner r) approver now.

Lemma sign_approval_seal cfg id r approver now :
  (sign_approval cfg id r approver now).1
  = "sha256:" +:+ bytes_hex (seal (approval_digest_key cfg) (to_vec (signed_tuple cfg id r approver now))).
Proof. unfold sign_approval, signed_tuple, seal. by destruct (approval_digest_key cfg). Qed.

(** An approval digest binds everything it was granted over: unless the
    hash or the MAC collides on these two inputs, equal digests mean the same
    change set, plan digest, preview, owner, approver and time. *)
Theorem approval_digest_binds cfg id r approver now id' r' approver' now' :
  (seal (approval_digest_key cfg) (to_vec (signed_tuple cfg id r approver now))
   = seal (approval_digest_key cfg) (to_vec (signed_tuple cfg id' r' approver' now')) ->
   to_vec (signed_tuple cfg id r approver now) = to_vec (signed_tuple cfg id' r' approver' now')) ->
  (sign_approval cfg id r approver now).1 = (sign_approval cfg id' r' approver' now').1 ->
  id = id' /\ cs_digest r = cs_digest r' /\
  pv_digest <$> cs_preview r = pv_digest <$> cs_preview r' /\
  cs_owner r = cs_owner r' /\ approver = approver' /\ now = now'.
Proof.
  rewrite !sign_approval_seal. intros Hnc Heq%(inj (String.append _))%(inj bytes_hex).
  apply Hnc, (inj to_vec), approval_tuple_inj in Heq as (_&?&?&?&?&?&?). by split_and!.
Qed.

(** The tuple a plan digest is taken over. *)
Definition digested_plan (owner device fp : string) (actions : list json) (targets : list string) :
  json :=
  match targets with
  | [] => plan_tuple owner device fp actions
  | _ => plan_tuple_targets owner device fp actions targets
  end.

(** A plan digest binds the owner, the device, the expected fingerprint, the
    actions in order and the targets: unless SHA-256 collides on these two
    inputs, equal digests mean equal plans. *)
Theorem plan_digest_binds o d f a t o' d' f' a' t' x :
  no_collision (digested_plan o d f a t) (digested_plan o' d' f' a' t') ->
  change_set_digest_with_targets o d f a t = Ok x ->
  change_set_digest_with_targets o' d' f' a' t' = Ok x ->
  o = o' /\ d = d' /\ f = f' /\ a = a' /\ t = t'.
Proof.
  assert (forall o d f a t, change_set_digest_with_targets o d f a t
    = Ok ("sha256:" +:+ digest_hex (to_vec (digested_plan o d f a t)))) as Hd by (by intros ???? []).
  rewrite !Hd. intros Hnc Hx Hx'. rewrite <-Hx in Hx'.
  assert (forall s s' : string, @Ok _ DigestError s = Ok s' -> s = s') as Hok by (by intros ?? [=]).
  apply Hok in Hx'. symmetry in Hx'. apply digest_of_tuple_inj in Hx' as Heq; [|done].
  clear Hx Hx' Hok. revert Heq. clear Hd Hnc.
  unfold digested_plan, plan_tuple, plan_tuple_targets. destruct t, t'; intros [=]; subst; try done.
  split_and!; try done. f_equal. by apply fmap_JString_inj.
Qed.

End digests.

(** ** The state file *)

Section state_file.
Context `{EX : Externals} `{XL : !ExternalsLaws EX} `{SC : StateCodec} `{CL : !StateCodecLaws SC}.

(** A write that succeeded can be read back. *)
Lemma written_Ok proc max fate st old key f :
  (max <= u64_max)%N -> reloadable key st ->
  (forall f, old = Some f -> euid proc = 0%N \/ f_uid f = euid proc) ->
  write_state proc max fate st old = (Ok tt, f) ->
  exists g, f = Some g /\ read_state_with_key (euid proc) (Ok g) max key = Ok (drop_empty_handles st).
Proof.
  intros Hmax Hre Hold Hw.
  assert ((exists g, f = Some g) /\
    (payload_len (to_vec_pretty {| od_version := select_version (drop_empty_handles st);
                                   od_state := drop_empty_handles st |}) <= max)%N /\
    fate = FateOk) as ((g&->)&Hlen&->).
  { revert Hw. unfold write_state. set (p := to_vec_pretty _).
    destruct (N.ltb_spec max (payload_len p)); [done|]. destruct fate; cbn; try done.
    intros [= <-]. eauto. }
  exists g. split; [done|].
  eapply (write_then_read proc max FateOk st old g key); try done. by rewrite Hw.
Qed.

(** A state that was accepted once survives the trip through the file: a
    write that reports success leaves a file that reads back, under the same
    limit and key, as the state that was written, its empty task handles
    dropped. *)
Theorem state_file_round_trip proc max fate st old key :
  (max <= u64_max)%N -> reloadable key st ->
  (forall f, old = Some f -> euid proc = 0%N \/ f_uid f = euid proc) ->
  (write_state proc max fate st old).1 = Ok tt ->
  exists f, (write_state proc max fate st old).2 = Some f /\
    read_state_with_key (euid proc) (Ok f) max key = Ok (drop_empty_handles st).
Proof.
  intros Hmax Hre Hold. destruct (write_state proc max fate st old) as [[[]|] f] eqn:Ew; [|done].
  intros _. by eapply written_Ok.
Qed.

(** A hardened read returns the contents of exactly the files it may: a
    regular file, with no group or other permission, owned by the process
    (unless it runs as root), and within the size limit both as reported and
    as read. *)
Theorem hardened_read_accepts_exactly {C} euid max_bytes (opened : result (File C) string) c :
  read_hardened_file euid max_bytes opened = Ok c <->
  exists f, opened = Ok f /\ c = f_data f /\ f_type f = RegularFile /\
    N.land (N.land (f_mode f) 511) 63 = 0%N /\ (euid = 0%N \/ f_uid f = euid) /\
    (f_size f <= max_bytes)%N /\
    (N.min (f_read_len f) (saturating_add max_bytes 1) <= max_bytes)%N.
Proof. apply read_hardened_file_Ok. Qed.

(** The version a state is written under is always one that can carry it:
    it is a known version, every record validates under it exactly as under
    the newest, and reading it back migrates nothing. *)
Theorem selected_version_is_adequate st key k r :
  change_sets st !! k = Some r ->
  (1 <= select_version st <= 7)%N /\
  validate_change_set_record (select_version st) key k r = validate_change_set_record 7 key k r /\
  migrate_state (select_version st) st = st.
Proof.
  intros Hr. split; [apply select_version_range|]. split; [|apply select_version_stable].
  apply validate_record_version; [by eapply select_version_adequate|]. split; lia.
Qed.

(** What a file that was read holds can be written and read again. *)
Lemma read_reloadable uid f max key D :
  read_state_with_key uid (Ok f) max key = Ok D ->
  key = None \/ (forall on, from_slice (f_data f) = Ok on -> (4 <= od_version on)%N) ->
  reloadable key D.
Proof.
  unfold read_state_with_key. intros (data&Hd&Hr)%result_bind_Ok Hv.
  apply map_err_Ok, read_hardened_file_Ok in Hd as (f'&[= <-]&->&_).
  apply result_bind_Ok in Hr as (on&Hon%map_err_Ok&Hr).
  apply ensure_Ok in Hr as [_ Hr]. apply result_bind_Ok in Hr as ([]&Hval&[= <-]).
  apply validated_reloadable; [done|]. destruct Hv as [->|Hv]; [by left|right; by apply Hv].
Qed.

End state_file.

(** ** Restart and repair *)

Section restart.
Context `{EX : Externals} `{XL : !ExternalsLaws EX} `{SC : StateCodec} `{CL : !StateCodecLaws SC}.

Lemma read_owner uid f max key D :
  read_state_with_key uid (Ok f) max key = Ok D -> uid = 0%N \/ f_uid f = uid.
Proof.
  unfold read_state_with_key. intros (data&Hd&_)%result_bind_Ok.
  by apply map_err_Ok, read_hardened_file_Ok in Hd as (f'&[= <-]&_&_&_&?&_).
Qed.

Lemma recovered_empty sr : recovered sr empty_state = false.
Proof. by destruct sr. Qed.

(** Recovery at start-up is idempotent: starting again from what a start
    left gives the same coordinator and writes nothing. *)
Theorem second_restart_is_identity path lim ttl lab sr key locks proc fate fate' f cfg s f1 :
  (max_state_bytes lim <= u64_max)%N ->
  (forall g on, f = Some g -> from_slice (f_data g) = Ok on -> key <> None ->
     (4 <= od_version on)%N) ->
  load_with_recovery_and_key (Some path) lim ttl lab sr key locks proc fate f = (Ok (cfg, s), f1) ->
  load_with_recovery_and_key (Some path) lim ttl lab sr key locks proc fate' f1 = (Ok (cfg, s), f1).
Proof.
  intros Hmax Hver Hload. pose proof Hload as Hload'. revert Hload'.
  unfold load_with_recovery_and_key. destruct (negb _); [done|].
  destruct (owner_lock locks) as [[]|]; [|done..].
  destruct f as [f|].
  2:{ simpl. rewrite recovered_empty. intros [= <- <- <-]. simpl. by rewrite recovered_empty. }
  destruct (rmw_lock locks) as [[]|] eqn:Hrmw; [|done]. simpl.
  destruct (read_state_with_key _ _ _ _) as [D|] eqn:Er; [|done]. simpl.
  destruct (recovered sr D) eqn:Hrec.
  - destruct (write_state _ _ _ _ _) as [[[]|] f'] eqn:Ew; [|done]. intros [= <- <- <-].
    eapply (written_Ok _ _ _ _ _ key) in Ew as (g&->&Hg); [|done|..].
    + simpl. rewrite Hg, recover_state_handles. simpl.
      by rewrite recover_state_settled, recover_state_idem.
    + apply recover_reloadable. eapply read_reloadable; [done|].
      destruct key; [right|by left]. intros on Hon. by eapply Hver.
    + intros f0 [= <-]. by eapply read_owner.
  - intros [= <- <- <-]. simpl. rewrite Er. simpl. by rewrite Hrec.
Qed.

Lemma resolve_reloadable d id r st :
  reloadable None st -> operations st !! id = Some r ->
  reloadable None (set_operations (<[id := resolve_record d r]>) st).
Proof.
  intros (H1&H2&H3&H4) Hr. split_and!; cbn; [|done| |done].
  - by rewrite map_size_insert_Some.
  - intros k e. rewrite lookup_insert_Some. intros [[<- <-]|[_ He]]; [|by apply H3].
    apply H3 in Hr. revert Hr. by rewrite !validate_operation_record_Ok.
Qed.

(** Offline resolution is exact: it succeeds only with the exact
    confirmation text, while no server owns the file, for a stored operation
    that is not settled; and then the file reads back as before with that one
    operation marked as the operator said, its lock flag cleared. *)
Theorem resolution_changes_one_operation path id d confirmation lim locks proc fate f out f' :
  (max_state_bytes lim <= u64_max)%N ->
  resolve_persisted_operation path id d confirmation lim locks proc fate f = (Ok out, f') ->
  confirmation = expected_confirmation id d /\ owner_lock locks = Ok true /\
  exists g st r g', f = Some g /\ read_state (euid proc) (Ok g) (max_state_bytes lim) = Ok st /\
    operations st !! id = Some r /\ terminal (op_state r) = false /\
    f' = Some g' /\
    read_state (euid proc) (Ok g') (max_state_bytes lim)
    = Ok (drop_empty_handles (set_operations (<[id := resolve_record d r]>) st)) /\
    terminal (op_state (resolve_record d r)) = true /\
    op_config_lock_held (resolve_record d r) = false.
Proof.
  intros Hmax. unfold resolve_persisted_operation. destruct (negb (is_absolute path)); [done|].
  destruct (validate_operation_id id); [|done]. case_bool_decide as Hc; [|done]. simpl.
  destruct (rmw_lock locks); [|done]. destruct (owner_lock locks) as [[]|] eqn:Ho; [|done..].
  destruct f as [g|]; [|unfold read_state, read_state_with_key; cbn; done]. simpl.
  destruct (read_state _ _ _) as [st|] eqn:Er; [|done].
  destruct (operations st !! id) as [r|] eqn:Hr; [|done].
  destruct (terminal (op_state r)) eqn:Ht; [done|].
  destruct (write_state _ _ _ _ _) as [[[]|] f1] eqn:Ew; [|done]. intros [= <- <-].
  split; [done|]. split; [done|].
  eapply (written_Ok _ _ _ _ _ None) in Ew as (g'&->&Hg); [|done|..].
  - exists g, st, r, g'. split_and!; try done; by destruct d.
  - eapply resolve_reloadable; [|done]. eapply read_reloadable; [exact Er|by left].
  - intros f0 [= <-]. by eapply read_owner.
Qed.

End restart.
