(* ===== verification/Apply.v ===== *)
(** * Applying an approved change set (crates/mecmcp-changeset/src/apply.rs)

    [apply_change_set] in the segments the method has: the checks before the
    device guard, the re-check under it, the reservation and the claim, the
    device lock, staging, and the final records. *)

From Stdlib Require Import Ascii.
From S2P Require Import Prelude Externals Lifecycle Types Digest Trust Records Secret Persistence Store StoreFacts Events World.

Section apply.
Context `{EX : Externals} `{SC : StateCodec} `{DT : DeviceTypes}.
Variable cfg : Config.

(** [scheme://host[:port][path]]; the host is ASCII in a parsed URL. *)
Definition canonical_form (scheme host : string) (u : url) : string :=
  let canonical := scheme +:+ "://" +:+ to_lowercase host in
  let canonical := match url_port u with
                   | Some port => canonical +:+ ":" +:+ pretty port
                   | None => canonical
                   end in
  let path := trim_end_matches "/"%char (url_path u) in
  if negb (is_empty_str path) && negb (bool_decide (path = "/"))
  then canonical +:+ path else canonical.

Definition canonicalize_endpoint (endpoint : string) : result string CoordinatorError :=
  let? u := map_err (fun e => cerr "endpoint" ("invalid endpoint URL: " +:+ e))
              (url_parse endpoint) in
  let? host := ok_or (url_host_str u)
                 (cerr "endpoint" "endpoint must contain a valid host") in
  Ok (canonical_form (url_scheme u) host u).

Definition waiver_expiry_error (r : ChangeSetRecord) (now : N) (gate : string) :
  option CoordinatorError :=
  if waiver_lapsed r now
  then Some (cerr "change_set_id" ("waiver expired: this change set was approved by a time-boxed waiver that has lapsed ("
              +:+ gate +:+ "), so it requires a fresh approval or a new waiver"))
  else None.

Record ApplyOutput := {
  ao_operation_id : string;
  ao_before_fingerprint : string;
  ao_after_fingerprint : string;
  ao_staged : StagedHandle;
  ao_recorded_state : ChangeSetState;
}.

(** The arguments of the call; [requires_config_lock] is the transaction's. *)
Record ApplyArgs := {
  aa_change_set_id : string;
  aa_device : string;
  aa_endpoint : string;
  aa_owner : string;
  aa_expected_digest : string;
  aa_expected_fingerprint : string;
  aa_requires_config_lock : bool;
  aa_primary_action_discriminator : string;
  aa_vendor_primary_target : option string;
  aa_config_authority : option string;
}.

(** The approval must be genuine, or a waiver on a lab-mode deployment. *)
Definition check_approval (r : ChangeSetRecord) : result unit CoordinatorError :=
  match cs_approval r with
  | Some approval =>
      ensure negb (bool_decide (ap_approver approval = None)
                   && bool_decide (ap_waived approval = None))
        else cerr "change_set_id" "approval record must contain either an approver or a waiver";
      ensure negb (bool_decide (ap_approver approval = Some (cs_owner r)))
        else cerr "change_set_id" "change set was approved by its own owner; refusing to apply";
      ensure negb (bool_decide (is_Some (ap_waived approval)) && negb (lab_mode cfg))
        else cerr "change_set_id" "change set was approved by a lab-mode waiver, but lab mode is not enabled on this deployment";
      Ok tt
  | None =>
      ensure bool_decide (is_Some (cs_approver r))
        else cerr "change_set_id" "approved change set missing approval record";
      ensure negb (bool_decide (cs_approver r = Some (cs_owner r)))
        else cerr "change_set_id" "change set was approved by its own owner; refusing to apply";
      Ok tt
  end.

(** Retire a record found past its deadline, then refuse. *)
Definition expire_apply {A} (r : ChangeSetRecord) (message : string) :
  prog (result A CoordinatorError) :=
  try! _ := ask (UpdateChangeSet (set_cs_state Expired r)) in
  Ret (Err (cerr "change_set_id" message)).

(** Before the guard: returns the canonical endpoint. *)
Definition apply_precheck (a : ApplyArgs) : prog (result string CoordinatorError) :=
  try! _ := lift (map_err (fun e => cerr "expected_digest" (digest_error_to_string e))
                    (validate_digest (aa_expected_digest a) "expected_digest")) in
  try! _ := lift (map_err (fun e => cerr "expected_fingerprint" (digest_error_to_string e))
                    (Digest.validate_fingerprint (aa_expected_fingerprint a))) in
  try! endpoint := lift (canonicalize_endpoint (aa_endpoint a)) in
  try! r := ask (GetChangeSet (aa_change_set_id a) (aa_device a)) in
  refuse! negb (bool_decide (cs_owner r = aa_owner a))
    with cerr "change_set_id" "only the principal that created the change set may apply it";
  refuse! negb (bool_decide (cs_state r = Approved))
    with cerr "change_set_id" "change set requires approval before apply";
  try! now_for_waiver := now_unix in
  match waiver_expiry_error r now_for_waiver "before device guard" with
  | Some error => Ret (Err error)
  | None =>
  try! _ := lift (check_approval r) in
  try! now := now_unix in
  if (cs_expires_at_unix r <=? now)%N then expire_apply r "approved change set expired" else
  refuse! negb (bool_decide (cs_digest r = aa_expected_digest a))
          || negb (bool_decide (cs_expected_candidate_fingerprint r = aa_expected_fingerprint a))
    with cerr "expected_digest" "apply input does not match the exact approved plan";
  Ret (Ok endpoint)
  end.

(** [serde_json::from_value] of each stored action, in order. *)
Fixpoint parse_actions (idx : nat) (values : list json) : result (list Action) CoordinatorError :=
  match values with
  | [] => Ok []
  | value :: values =>
      let? a := map_err (fun e => cerr "actions" ("failed to deserialize action "
                            +:+ pretty (N.of_nat idx) +:+ ": " +:+ e)) (action_from_value value) in
      let? l := parse_actions (S idx) values in
      Ok (a :: l)
  end.

(** Under the guard, before anything is reserved: the record and actions. *)
Definition apply_recheck (a : ApplyArgs) :
  prog (result (ChangeSetRecord * string * list Action) CoordinatorError) :=
  let! is_cancelled := ask IsCancelled in
  refuse! is_cancelled with cerr "device" "operation cancelled";
  try! r := ask (GetChangeSet (aa_change_set_id a) (aa_device a)) in
  try! now_after_guard := now_unix in
  refuse! negb (bool_decide (cs_owner r = aa_owner a))
          || negb (bool_decide (cs_state r = Approved))
          || negb (bool_decide (cs_digest r = aa_expected_digest a))
          || negb (bool_decide (cs_expected_candidate_fingerprint r = aa_expected_fingerprint a))
    with cerr "change_set_id" "change set is no longer the exact unexpired approved plan";
  match waiver_expiry_error r now_after_guard "after acquiring device guard" with
  | Some error => Ret (Err error)
  | None =>
  if (cs_expires_at_unix r <=? now_after_guard)%N
  then expire_apply r "change set expired while waiting for device guard" else
  let! before := ask Fingerprint in
  try! before_fingerprint :=
    lift (map_err (fun e => cerr "device" ("fingerprint failed: " +:+ e)) before) in
  refuse! negb (bool_decide (before_fingerprint = aa_expected_fingerprint a))
    with cerr "expected_fingerprint" ("device fingerprint changed: expected "
           +:+ aa_expected_fingerprint a +:+ ", found " +:+ before_fingerprint);
  refuse! is_empty_str (cs_policy_signature r)
    with cerr "change_set_id" "change set created before policy signatures were tracked; cannot apply";
  try! actions := lift (parse_actions 0 (cs_actions r)) in
  Ret (Ok (r, before_fingerprint, actions))
  end.

Definition apply_operation_record (a : ApplyArgs) (endpoint operation_id before_fingerprint : string)
  (r : ChangeSetRecord) (n_actions : nat) : OperationRecord := {|
  op_id := operation_id;
  op_owner := aa_owner a;
  op_device := aa_device a;
  op_endpoint := endpoint;
  op_action := JString (aa_primary_action_discriminator a);
  op_xpath := aa_vendor_primary_target a;
  op_actions := cs_actions r;
  op_change_set_id := Some (aa_change_set_id a);
  op_current := before_fingerprint;
  op_state := Staging;
  op_job_id := None;
  op_details := Some ("staging change set " +:+ aa_change_set_id a +:+ " with "
                        +:+ pretty (N.of_nat n_actions) +:+ " actions");
  op_config_lock_held := false;
  op_policy_signature := cs_policy_signature r;
  op_attribution := None;
  op_rollback_deadline_unix := None;
  op_config_authority := aa_config_authority a;
|}.

(** Reserve the device with an operation record, then claim the change set:
    the operation identifier and the claimed, linked record. *)
Definition apply_reserve (a : ApplyArgs) (endpoint : string) (r : ChangeSetRecord)
  (before_fingerprint : string) (n_actions : nat) :
  prog (result (string * ChangeSetRecord) CoordinatorError) :=
  try! operation_id := new_operation_id in
  try! _ := ask (Insert (apply_operation_record a endpoint operation_id before_fingerprint r
                           n_actions)) in
  let! claim := ask (Claim (cs_id r) (cs_device r) HandleExpected) in
  match claim with
  | Err error => do! ask (Remove operation_id); Ret (Err error)
  | Ok claimed =>
  let r := set_cs_operation_id (Some operation_id) claimed in
  let! linked := ask (UpdateChangeSet r) in
  match linked with
  | Err error => do! ask (Remove operation_id); Ret (Err error)
  | Ok _ => Ret (Ok (operation_id, r))
  end end.

(** Drop the reservation and fail the change set, best effort. *)
Definition abandon {A} (operation_id : string) (r : ChangeSetRecord) (error : CoordinatorError) :
  prog (result A CoordinatorError) :=
  do! ask (Remove operation_id);
  do! ask (UpdateChangeSet (set_cs_state Failed r));
  Ret (Err error).

(** Persist that a lock may be held, then take it if the device has one. *)
Definition apply_lock (a : ApplyArgs) (operation_id : string) (r : ChangeSetRecord) :
  prog (result bool CoordinatorError) :=
  try! pre_stage := ask (GetRecord operation_id (aa_owner a) (aa_device a)) in
  let! persisted := ask (Update (set_op_lock true pre_stage)) in
  match persisted with
  | Err error => abandon operation_id r error
  | Ok _ =>
  if aa_requires_config_lock a then
    let! locked := ask (Lock ("mecmcp change set " +:+ aa_change_set_id a)) in
    match locked with
    | Err error =>
        abandon operation_id r (cerr "config_lock"
          ("could not acquire the device configuration lock: " +:+ error))
    | Ok _ => Ret (Ok true)
    end
  else Ret (Ok false)
  end.

(** Release a lock this call took, ignoring the outcome. *)
Definition release_if (acquired : bool) : prog unit :=
  if acquired then do! ask Unlock; Ret tt else Ret tt.

(** The adjacent fingerprint read and stage. *)
Definition apply_stage (a : ApplyArgs) (operation_id : string) (r : ChangeSetRecord)
  (lock_acquired : bool) (actions : list Action) : prog (result StagedHandle CoordinatorError) :=
  let! fp := ask Fingerprint in
  match fp with
  | Err e =>
      do! release_if lock_acquired;
      abandon operation_id r (cerr "device" ("pre-stage fingerprint failed: " +:+ e))
  | Ok pre_stage_fingerprint =>
  if negb (bool_decide (pre_stage_fingerprint = aa_expected_fingerprint a)) then
    do! release_if lock_acquired;
    abandon operation_id r (cerr "expected_fingerprint"
      ("device fingerprint changed between check and stage: expected "
         +:+ aa_expected_fingerprint a +:+ ", found " +:+ pre_stage_fingerprint))
  else
  let! staged := ask (Stage actions) in
  match staged with
  | Ok staged => Ret (Ok staged)
  | Err error =>
      let! updated := ask (UpdateChangeSet (set_cs_state Failed r)) in
      do! ask (Remove operation_id);
      try! _ := lift updated in
      let! hash := ask Nonce in
      Ret (Err (cerr "device" ("staging failed: " +:+ render_tagged hash "device.stage_error" error)))
  end end.

(** The post-stage fingerprint read; on failure the operation is recorded as
    indeterminate before the change set is failed. *)
Definition apply_after_stage (a : ApplyArgs) (operation_id : string) (r : ChangeSetRecord) :
  prog (result string CoordinatorError) :=
  let! fp := ask Fingerprint in
  match fp with
  | Ok after_fingerprint => Ret (Ok after_fingerprint)
  | Err error =>
      let! hash := ask Nonce in
      let tagged := render_tagged hash "device.fingerprint_error" error in
      try! rec := ask (GetRecord operation_id (aa_owner a) (aa_device a)) in
      try! _ := ask (Update (set_op_details (Some ("fingerprint read failed after staging: "
                       +:+ tagged +:+ "; staged changes remain on device"))
                       (set_op_state Indeterminate rec))) in
      do! ask (UpdateChangeSet (set_cs_state Failed r));
      Ret (Err (cerr "device" ("fingerprint read failed after staging: " +:+ tagged
                                 +:+ "; operation is indeterminate")))
  end.

(** The final records; the handle is returned whatever they do. *)
Definition apply_finish (a : ApplyArgs) (operation_id : string) (r : ChangeSetRecord)
  (before_fingerprint after_fingerprint : string) (staged : StagedHandle) (n_actions : nat) :
  prog (result ApplyOutput CoordinatorError) :=
  try! rec := ask (GetRecord operation_id (aa_owner a) (aa_device a)) in
  let rec := set_op_lock true
    (set_op_details (Some ("applied change set " +:+ aa_change_set_id a +:+ " with "
                             +:+ pretty (N.of_nat n_actions) +:+ " actions"))
    (set_op_state Staged (set_op_current after_fingerprint rec))) in
  let! updated := ask (Update rec) in
  do! (match updated with
       | Ok _ => Ret tt
       | Err _ =>
           do! ask (Update (set_op_details
                  (Some "staging succeeded but Staged record persistence failed; handle returned")
                  (set_op_state Indeterminate rec)));
           Ret tt
       end);
  let! applied := ask (UpdateChangeSet (set_cs_state Applied r)) in
  Ret (Ok {| ao_operation_id := operation_id;
             ao_before_fingerprint := before_fingerprint;
             ao_after_fingerprint := after_fingerprint;
             ao_staged := staged;
             ao_recorded_state := match applied with Ok _ => Applied | Err _ => Applying end |}).

Definition apply_change_set (a : ApplyArgs) : prog (result ApplyOutput CoordinatorError) :=
  try! endpoint := apply_precheck a in
  with_device_guard (aa_device a) (
    try! (r, before_fingerprint, actions) := apply_recheck a in
    try! (operation_id, r) := apply_reserve a endpoint r before_fingerprint (length actions) in
    try! lock_acquired := apply_lock a operation_id r in
    try! staged := apply_stage a operation_id r lock_acquired actions in
    try! after_fingerprint := apply_after_stage a operation_id r in
    apply_finish a operation_id r before_fingerprint after_fingerprint staged (length actions)).

End apply.
