(* ===== verification/Operation.v ===== *)
(** * Direct operations (crates/mecmcp-changeset/src/operation.rs)

    Stage, diff, validate, commit and discard, each the whole method.  The
    long ones are cut where the code changes phase. *)

From Stdlib Require Import Ascii.
From S2P Require Import Prelude Externals Lifecycle Types Digest Trust Records Secret Persistence Store StoreFacts Events World Apply.

Section operation.
Context `{EX : Externals} `{SC : StateCodec} `{DT : DeviceTypes}.
Variable cfg : Config.

(** This file's own canonicaliser: HTTPS only. *)
Definition canonicalize_endpoint (endpoint : string) : result string CoordinatorError :=
  ensure starts_with "https://" endpoint || starts_with "HTTPS://" endpoint
    else cerr "endpoint" "endpoint must start with https://";
  let? u := map_err (fun e => cerr "endpoint" ("invalid endpoint URL: " +:+ e))
              (url_parse endpoint) in
  ensure bool_decide (url_scheme u = "https")
    else cerr "endpoint" "endpoint must use https scheme";
  let? host := ok_or (url_host_str u)
                 (cerr "endpoint" "endpoint must contain a valid host") in
  Ok (canonical_form "https" host u).

Record StageOutput := {
  so_operation_id : string;
  so_staged : StagedHandle;
  so_before_fingerprint : string;
  so_after_fingerprint : string;
}.

(** ** Stage *)

Record StageArgs := {
  sa_device : string;
  sa_owner : string;
  sa_expected_fingerprint : string;
  sa_endpoint : string;
  sa_requires_config_lock : bool;
  sa_actions : list Action;
  sa_primary_action_discriminator : string;
  sa_vendor_primary_target : option string;
  sa_policy_signature : string;
  sa_config_authority : option string;
}.

Definition stage_record (a : StageArgs) (operation_id endpoint : string) (actions : list json) :
  OperationRecord := {|
  op_id := operation_id;
  op_owner := sa_owner a;
  op_device := sa_device a;
  op_endpoint := endpoint;
  op_action := JString (sa_primary_action_discriminator a);
  op_xpath := sa_vendor_primary_target a;
  op_actions := actions;
  op_change_set_id := None;
  op_current := sa_expected_fingerprint a;
  op_state := Staging;
  op_job_id := None;
  op_details := None;
  op_config_lock_held := false;
  op_policy_signature := sa_policy_signature a;
  op_attribution := None;
  op_rollback_deadline_unix := None;
  op_config_authority := sa_config_authority a;
|}.

(** How the staging block ended: an error says whether the device was touched
    and whether this call holds its lock.  The record is threaded, as the
    block mutates it. *)
Inductive StageEnd :=
| StageDone (before after : string) (staged : StagedHandle)
| StageError (error : CoordinatorError) (device_touched device_lock_acquired : bool).

(** The lock, and the persisted risk before it. *)
Definition stage_lock (a : StageArgs) (rec : OperationRecord) :
  prog (result bool CoordinatorError * OperationRecord) :=
  if sa_requires_config_lock a then
    let rec := set_op_lock true rec in
    let! updated := ask (Update rec) in
    match updated with
    | Err e => Ret (Err e, rec)
    | Ok _ =>
        let! locked := ask (Lock ("mecmcp operation " +:+ op_id rec)) in
        match locked with
        | Err e => Ret (Err (cerr "config_lock" e), rec)
        | Ok _ => Ret (Ok true, rec)
        end
    end
  else Ret (Ok false, rec).

Definition stage_block (a : StageArgs) (rec : OperationRecord) :
  prog (StageEnd * OperationRecord) :=
  let! (locked, rec) := stage_lock a rec in
  match locked with
  | Err e => Ret (StageError e false false, rec)
  | Ok locked =>
  let! before := ask Fingerprint in
  match before with
  | Err e => Ret (StageError (cerr "transaction" e) false locked, rec)
  | Ok before =>
  if negb (bool_decide (sa_expected_fingerprint a = before))
  then Ret (StageError (cerr "expected_candidate_fingerprint"
                          "candidate changed since the caller observed it") false locked, rec)
  else
  let rec := set_op_lock true rec in
  let! updated := ask (Update rec) in
  match updated with
  | Err e => Ret (StageError e false locked, rec)
  | Ok _ =>
  let! staged := ask (Stage (sa_actions a)) in
  match staged with
  | Err e => Ret (StageError (cerr "transaction" e) true locked, rec)
  | Ok staged =>
  let! after := ask Fingerprint in
  match after with
  | Err e => Ret (StageError (cerr "transaction" e) true locked, rec)
  | Ok after => Ret (StageDone before after staged, rec)
  end end end end end.

(** Settling the record after the block. *)
Definition stage_settle (rec : OperationRecord) (ended : StageEnd) :
  prog (result StageOutput CoordinatorError) :=
  let reconcile (text : string) :=
    text +:+ " (operation " +:+ op_id rec +:+ " requires manual reconciliation)" in
  match ended with
  | StageDone before after staged =>
      let rec := set_op_lock true (set_op_state Staged (set_op_current after rec)) in
      let! updated := ask (Update rec) in
      match updated with
      | Err persist_error =>
          do! ask (Update (set_op_lock true (set_op_details
                 (Some ("staging succeeded but final persistence failed: "
                          +:+ coordinator_error_to_string persist_error))
                 (set_op_current after (set_op_state Indeterminate rec)))));
          Ret (Err (cerr "state" (reconcile (coordinator_error_to_string persist_error))))
      | Ok _ =>
          Ret (Ok {| so_operation_id := op_id rec; so_staged := staged;
                     so_before_fingerprint := before; so_after_fingerprint := after |})
      end
  | StageError error true _ =>
      do! ask (Update (set_op_lock true (set_op_details
             (Some ("staging failed after the candidate was touched: "
                      +:+ coordinator_error_to_string error))
             (set_op_state Indeterminate rec))));
      Ret (Err (cerr "transaction" (reconcile (coordinator_error_to_string error))))
  | StageError error false locked =>
      let! released := (if locked : bool
                        then let! u := ask Unlock in
                             Ret (match u with Ok Released => true | _ => false end)
                        else Ret true) in
      if released : bool then do! ask (Remove (op_id rec)); Ret (Err error)
      else
        do! ask (Update (set_op_lock true (set_op_details
               (Some ("staging failed and the device lock could not be confirmed released: "
                        +:+ coordinator_error_to_string error))
               (set_op_state Indeterminate rec))));
        Ret (Err (cerr "config_lock" (coordinator_error_to_string error +:+ " (operation "
               +:+ op_id rec +:+ " may still hold the device lock)")))
  end.

Definition stage_operation (a : StageArgs) : prog (result StageOutput CoordinatorError) :=
  refuse! (match sa_actions a with [] => true | _ => false end)
    with cerr "actions" "actions must not be empty";
  try! endpoint := lift (canonicalize_endpoint (sa_endpoint a)) in
  with_device_guard (sa_device a) (
    let! is_cancelled := ask IsCancelled in
    refuse! is_cancelled with cerr "device" "operation cancelled";
    try! operation_id := new_operation_id in
    try! _ := lift (map_err (fun e => cerr "expected_candidate_fingerprint"
                               (digest_error_to_string e))
                      (Digest.validate_fingerprint (sa_expected_fingerprint a))) in
    try! actions := lift (collect ((fun x => map_err (fun e => cerr "actions" e)
                                               (action_to_value x)) <$> sa_actions a)) in
    let rec := stage_record a operation_id endpoint actions in
    try! _ := ask (Insert rec) in
    let! (ended, rec) := stage_block a rec in
    stage_settle rec ended).

(** ** Diff *)

Definition record_error {A} (r : result A RecordError) : result A CoordinatorError :=
  map_err (fun e => cerr (re_field e) (re_message e)) r.

(** The guarded prologue: cancellation, then the record read afresh. *)
Definition reread (operation_id owner device : string) :
  prog (result OperationRecord CoordinatorError) :=
  let! is_cancelled := ask IsCancelled in
  refuse! is_cancelled with cerr "device" "operation cancelled";
  ask (GetRecord operation_id owner device).

(** The fingerprint guard every later step repeats. *)
Definition guard_fingerprint (rec : OperationRecord) (expected_fingerprint : string) :
  prog (result unit CoordinatorError) :=
  let! fp := ask Fingerprint in
  try! actual := lift (map_err (fun e => cerr "transaction" e) fp) in
  lift (record_error (require_operation_fingerprint rec expected_fingerprint actual)).

Definition diff_operation (operation_id device owner expected_fingerprint : string)
  (staged : StagedHandle) : prog (result Diff CoordinatorError) :=
  try! rec := ask (GetRecord operation_id owner device) in
  with_device_guard (op_device rec) (
    try! rec := reread operation_id owner device in
    refuse! (match op_state rec with Staged | Validated | OpFailed => false | _ => true end)
      with cerr "operation_id" "operation is no longer in a state where diff is meaningful";
    try! _ := guard_fingerprint rec expected_fingerprint in
    let! diff := ask (GetDiff staged) in
    Ret (map_err (fun e => cerr "transaction" e) diff)).

(** ** Validate *)

Definition validate_operation (operation_id device owner expected_fingerprint : string)
  (staged : StagedHandle) : prog (result Validation CoordinatorError) :=
  try! rec := ask (GetRecord operation_id owner device) in
  refuse! negb (bool_decide (op_state rec = Staged))
    with cerr "operation_id" "operation is not in staged state";
  with_device_guard (op_device rec) (
    try! rec := reread operation_id owner device in
    refuse! negb (bool_decide (op_state rec = Staged))
      with cerr "operation_id" "operation is not in staged state";
    try! _ := guard_fingerprint rec expected_fingerprint in
    let rec := set_op_state Validating rec in
    try! _ := ask (Update rec) in
    let! validation := ask (Validate staged) in
    match validation with
    | Ok validation =>
        try! _ := ask (Update (set_op_details None (set_op_state Validated rec))) in
        Ret (Ok validation)
    | Err error =>
        try! _ := ask (Update (set_op_details (Some error) (set_op_state OpFailed rec))) in
        Ret (Err (cerr "transaction" error))
    end).

(** ** Commit *)

Record CommitArgs := {
  ca_operation_id : string;
  ca_device : string;
  ca_owner : string;
  ca_expected_fingerprint : string;
  ca_current_policy_signature : string;
  ca_staged : StagedHandle;
  ca_attribution : Attribution;
  ca_options : CommitOptions;
}.

(** Everything before the device is told: the record with its attribution. *)
Definition commit_gate (a : CommitArgs) : prog (result OperationRecord CoordinatorError) :=
  try! rec := reread (ca_operation_id a) (ca_owner a) (ca_device a) in
  refuse! negb (bool_decide (op_state rec = Validated))
    with cerr "operation_id" "operation must validate successfully before commit";
  try! _ := lift (record_error (require_operation_policy rec (ca_current_policy_signature a))) in
  try! _ := guard_fingerprint rec (ca_expected_fingerprint a) in
  let rec := set_op_attribution (Some (persisted_attribution (ca_attribution a))) rec in
  let! is_cancelled := ask IsCancelled in
  refuse! is_cancelled
    with cerr "device" "operation cancelled before the commit was sent; the operation is still staged";
  Ret (Ok rec).

Definition evidence_changeset (a : CommitArgs) (rec : OperationRecord) : string :=
  default (ca_operation_id a) (op_change_set_id rec).

(** The apply-intent record: a spool that refuses stops the commit. *)
Definition commit_intent (a : CommitArgs) (rec : OperationRecord) :
  prog (result unit CoordinatorError) :=
  if evidence cfg then
    let! spooled := ask (ApplyIntent (attr_request_id (ca_attribution a)) (evidence_changeset a rec)
                           (op_device rec) (principal_to_string (attr_principal (ca_attribution a)))) in
    Ret (map_err (fun error => cerr "device"
           ("commit refused: the apply-intent evidence record could not be persisted ("
              +:+ error +:+ "); the operation is still staged")) spooled)
  else Ret (Ok tt).

Definition commit_receipt (a : CommitArgs) (rec : OperationRecord) (succeeded : bool)
  (details : option string) : prog unit :=
  if evidence cfg then
    do! ask (ResultReceipt (attr_request_id (ca_attribution a)) (evidence_changeset a rec)
               (op_device rec) (principal_to_string (attr_principal (ca_attribution a)))
               succeeded (if succeeded then "" else default "" details));
    Ret tt
  else Ret tt.

(** Recording what the device answered. *)
Definition commit_settle (a : CommitArgs) (rec : OperationRecord)
  (outcome : result CommitOutcome string) : prog (result CommitOutcome CoordinatorError) :=
  match outcome with
  | Ok (Reconciled succeeded job_id details) =>
      let rec := set_op_details details (set_op_job_id job_id
                   (set_op_state (if succeeded then Committed else OpFailed) rec)) in
      let rec := if succeeded then set_op_lock false rec else rec in
      do! commit_receipt a rec succeeded details;
      try! _ := ask (Update rec) in
      Ret (Ok (Reconciled succeeded job_id details))
  | Ok (Detached job_id) =>
      try! _ := ask (Update (set_op_job_id job_id rec)) in
      Ret (Ok (Detached job_id))
  | Ok (OutcomeIndeterminate reason) =>
      try! _ := ask (Update (set_op_details (Some reason) (set_op_state Indeterminate rec))) in
      Ret (Ok (OutcomeIndeterminate reason))
  | Ok (AwaitingConfirmation job_id rollback_deadline_unix details) =>
      try! _ := ask (Update (set_op_lock false (set_op_deadline (Some rollback_deadline_unix)
                   (set_op_details details (set_op_job_id job_id rec))))) in
      Ret (Ok (AwaitingConfirmation job_id rollback_deadline_unix details))
  | Err error =>
      try! _ := ask (Update (set_op_details (Some error) (set_op_state OpFailed rec))) in
      Ret (Err (cerr "transaction" error))
  end.

Definition commit_operation (a : CommitArgs) : prog (result CommitOutcome CoordinatorError) :=
  try! rec := ask (GetRecord (ca_operation_id a) (ca_owner a) (ca_device a)) in
  with_device_guard (op_device rec) (
    try! rec := commit_gate a in
    try! _ := commit_intent a rec in
    let rec := set_op_state Committing rec in
    try! _ := ask (Update rec) in
    let! answer := ask (Commit (ca_staged a) (ca_attribution a) (ca_options a)) in
    match answer with
    | Some outcome => commit_settle a rec outcome
    | None =>
        try! _ := ask (Update (set_op_details (Some "commit cancelled; outcome unknown")
                                 (set_op_state Indeterminate rec))) in
        Ret (Ok (OutcomeIndeterminate "commit cancelled; outcome unknown"))
    end).

(** ** Discard *)

Definition undiscardable (s : LifecycleState) : bool :=
  match s with
  | Validating | Committing | Committed | Discarded | Indeterminate => true
  | _ => false
  end.

Definition in_flight (details : string) (rec : OperationRecord) : OperationRecord :=
  set_op_details (Some details) (set_op_state Indeterminate rec).

(** Releasing the lock after a revert: the record to finish with. *)
Definition discard_unlock (rec : OperationRecord) : prog (result OperationRecord CoordinatorError) :=
  let! unlocked := ask Unlock in
  match unlocked with
  | Ok Released =>
      Ret (Ok (set_op_details (Some "candidate reverted")
                 (set_op_state Discarded (set_op_lock false rec))))
  | Ok Unsupported =>
      try! _ := ask (Update (in_flight "candidate reverted; the transaction offers no explicit unlock, so the configuration lock state is unchanged" rec)) in
      Ret (Err (cerr "transaction" "candidate reverted but the configuration lock state could not be verified; manual reconciliation required"))
  | Err error =>
      try! _ := ask (Update (set_op_lock true
                   (in_flight ("candidate reverted but unlock failed: " +:+ error) rec))) in
      Ret (Err (cerr "transaction"
        ("candidate reverted but the configuration lock could not be released: " +:+ error)))
  end.

(** The revert itself, with the in-flight state persisted around it. *)
Definition discard_rollback (rec : OperationRecord) : prog (result unit CoordinatorError) :=
  try! _ := ask (Update (in_flight "rollback in progress" rec)) in
  let! outcome := ask (Rollback CandidateRevert) in
  match outcome with
  | Ok outcome =>
      if rb_succeeded outcome then
        try! _ := ask (Update (in_flight "candidate reverted; verifying lock release" rec)) in
        Ret (Ok tt)
      else
        try! _ := ask (Update (set_op_details (rb_details outcome) (set_op_state OpFailed rec))) in
        Ret (Err (cerr "transaction" (default "rollback failed" (rb_details outcome))))
  | Err e =>
      try! _ := ask (Update (in_flight ("rollback outcome unknown: " +:+ e) rec)) in
      Ret (Err (cerr "transaction" e))
  end.

Definition discard_finish (rec : OperationRecord) : prog (result string CoordinatorError) :=
  let! after := ask Fingerprint in
  match after with
  | Ok fp =>
      try! _ := ask (Update (set_op_current fp rec)) in
      Ret (Ok fp)
  | Err e =>
      try! _ := ask (Update (in_flight ("candidate reverted; fingerprint read failed: " +:+ e) rec)) in
      Ret (Err (cerr "transaction" e))
  end.

Definition discard_operation (operation_id device owner expected_fingerprint : string) :
  prog (result string CoordinatorError) :=
  try! rec := ask (GetRecord operation_id owner device) in
  refuse! undiscardable (op_state rec)
    with cerr "operation_id" "operation cannot be discarded in its current state";
  with_device_guard (op_device rec) (
    try! rec := reread operation_id owner device in
    refuse! undiscardable (op_state rec)
      with cerr "operation_id" "operation cannot be discarded in its current state";
    try! _ := guard_fingerprint rec expected_fingerprint in
    try! _ := discard_rollback rec in
    try! rec := discard_unlock rec in
    discard_finish rec).

End operation.
