(* ===== verification/Handlers.v ===== *)
(** * Handlers run alone

    Functional behaviour of single requests: what must hold for a handler to
    succeed, and what it leaves.  The lemmas below take a run that ended in
    success apart, one question at a time. *)

From S2P Require Import Prelude Externals Lifecycle Types Digest Trust Records Secret Persistence Reload Store StoreFacts Recovery Events World Changeset Apply Operation.

Section handlers.
Context `{EX : Externals} `{SC : StateCodec} `{DT : DeviceTypes}.
Variable cfg : Config.
Variable env : Env.

Local Abbreviation css w := (change_sets (mem (w_store w))).
Local Abbreviation ops w := (operations (mem (w_store w))).

(** The run of [p] from time [t] and world [w] returns [a] in world [w']. *)
Definition returns {A} (t : nat) (p : prog A) (w : World) (a : A) (w' : World) : Prop :=
  exists log, run cfg env t p w = (Some (a, w'), log).

Lemma returns_Ret {A} t (a b : A) w w' : returns t (Ret a) w b w' -> a = b /\ w = w'.
Proof. intros [log H]. cbn in H. by simplify_eq. Qed.

Lemma returns_Vis {A X} t (e : Event X) (k : X -> prog A) w a w' :
  returns t (Vis e k) w a w' ->
  exists x w1, handle cfg env 0 t e w = Some (x, w1) /\ returns (S t) (k x) w1 a w'.
Proof.
  intros [log H]. cbn in H. destruct (handle cfg env 0 t e w) as [[x w1]|]; [|done].
  destruct (run cfg env (S t) (k x) w1) as [o l] eqn:E. simplify_eq.
  exists x, w1. split; [done|]. by exists l.
Qed.

Lemma returns_ask {A B E} t (e : Event (result A E)) (k : A -> prog (result B E)) w b w' :
  returns t (bind_ok (ask e) k) w (Ok b) w' ->
  exists a w1, handle cfg env 0 t e w = Some (Ok a, w1) /\ returns (S t) (k a) w1 (Ok b) w'.
Proof.
  intros ([a|e']&w1&Hh&Hk)%returns_Vis; cbn in Hk; [by exists a, w1|].
  by apply returns_Ret in Hk as [? _].
Qed.

Lemma returns_lift {A B} t (r : result A CoordinatorError)
  (k : A -> prog (result B CoordinatorError)) w b w' :
  returns t (bind_ok (lift r) k) w (Ok b) w' -> exists a, r = Ok a /\ returns t (k a) w (Ok b) w'.
Proof. destruct r; cbn; [by eauto|]. by intros [? _]%returns_Ret. Qed.

Lemma returns_now {B} t (k : N -> prog (result B CoordinatorError)) w b w' :
  returns t (bind_ok now_unix k) w (Ok b) w' ->
  exists now, clock env t = Ok now /\ returns (S t) (k now) w (Ok b) w'.
Proof.
  intros (x&w1&Hh&Hk)%returns_Vis. cbn in Hh. unfold pure in Hh. simplify_eq.
  destruct (clock env t) as [now|e]; cbn in Hk; [by eauto|]. by apply returns_Ret in Hk as [? _].
Qed.

Lemma returns_emit {B} t (e : Event unit) (k : unit -> prog B) w b w' :
  (forall x w1, handle cfg env 0 t e w = Some (x, w1) -> w1 = w) ->
  returns t (bind (emit cfg e tt) k) w b w' -> exists t', returns t' (k tt) w b w'.
Proof.
  intros Hp. unfold emit. destruct (evidence cfg); cbn; [|by eauto].
  intros ([]&w1&Hh&Hk)%returns_Vis. apply Hp in Hh as ->. eauto.
Qed.

Lemma returns_refuse {B} t (b : bool) e (k : prog (result B CoordinatorError)) w x w' :
  returns t (if b then Ret (Err e) else k) w (Ok x) w' -> b = false /\ returns t k w (Ok x) w'.
Proof. destruct b; [|done]. by intros [? _]%returns_Ret. Qed.

(** A store call that leaves the operations alone. *)
Lemma update_from_Ok t o r w x w1 :
  handle cfg env 0 t (UpdateChangeSetFrom o r) w = Some (Ok x, w1) ->
  exists cur, css w !! cs_id r = Some cur /\ cs_state cur = o /\
    css w1 = <[cs_id r := normalise r]> (css w) /\ ops w1 = ops w /\ w_guards w1 = w_guards w.
Proof.
  cbn. unfold on_store. intros [= Hx <-]. cbn.
  destruct (update_change_set_from_cases cfg (persist env t) o r (w_store w))
    as [(cur&?&?&_&_&->)|(e&?&_)]; [by exists cur|congruence].
Qed.

Lemma get_cs_Ok t id device w r w1 :
  handle cfg env 0 t (GetChangeSet id device) w = Some (Ok r, w1) ->
  w1 = w /\ css w !! id = Some r /\ cs_device r = device.
Proof.
  cbn. unfold pure, change_set. intros [= Hx <-]. split; [done|].
  destruct (validate_operation_id id); [|done]. simpl in Hx.
  destruct (css w !! id) as [r'|]; [|done]. simpl in Hx.
  case_bool_decide; simpl in Hx; by simplify_eq.
Qed.

(** The record an approval leaves. *)
Definition approved (id : string) (r : ChangeSetRecord) (approver : string) (now : N) :
  ChangeSetRecord :=
  set_cs_approval (Some approver) (Some {|
    ap_approver := Some approver; ap_approved_at_unix := now;
    ap_digest := (sign_approval cfg id r approver now).1;
    ap_digest_version := (sign_approval cfg id r approver now).2;
    ap_waived := None |}) (set_cs_state Approved r).

(** C31 Approving succeeds only for a planned, unexpired change set of the named
    device, by a human who is not its owner and who states its exact plan
    digest; it then stores that record approved, signed over that digest, and
    changes nothing else. *)
Theorem approval_needs_a_second_human t id device approver digest actor w out w' :
  well_keyed (css w) ->
  returns t (approve_change_set cfg id device approver digest actor) w (Ok out) w' ->
  exists r now, css w !! id = Some r /\ cs_device r = device /\ cs_state r = Planned /\
    cs_digest r = digest /\ cs_owner r <> approver /\ actor = Human /\
    (now < cs_expires_at_unix r)%N /\
    css w' = <[id := normalise (approved id r approver now)]> (css w) /\ ops w' = ops w.
Proof.
  intros Hk H. unfold approve_change_set in H.
  apply returns_lift in H as (_&_&H). apply returns_ask in H as (r&w1&Hg&H).
  apply get_cs_Ok in Hg as (->&Hr&Hd).
  apply returns_refuse in H as [Ho%bool_decide_eq_false H].
  apply returns_refuse in H as [Ha%negb_false_iff%bool_decide_eq_true H].
  apply returns_refuse in H as [Hs%negb_false_iff%bool_decide_eq_true H].
  apply returns_now in H as (now&_&H).
  destruct (N.leb_spec (cs_expires_at_unix r) now) as [?|Hexp].
  { unfold expire in H. apply returns_ask in H as (?&?&_&H). by apply returns_Ret in H as [? _]. }
  apply returns_refuse in H as [Hdg%negb_false_iff%bool_decide_eq_true H].
  apply returns_lift in H as (_&_&H). apply returns_lift in H as (_&_&H).
  apply returns_lift in H as (_&_&H).
  destruct (sign_approval cfg id r approver now) as [ad dv] eqn:Es.
  apply returns_ask in H as (u&w2&Hu&H). apply update_from_Ok in Hu as (cur&_&_&Hc&Ho'&_).
  cbn in Hc. rewrite (Hk _ _ Hr) in Hc.
  apply returns_emit in H as (t'&[_ <-]%returns_Ret).
  - exists r, now. unfold approved. rewrite Es. by split_and!.
  - intros x w3. cbn. unfold pure. by intros [=].
Qed.

(** Cancelling twice is cancelling once: after a cancel that succeeded the
    stored record is [Cancelled], and from then on any cancel of it, at any
    time, answers the same and changes nothing. *)
Theorem cancel_is_idempotent t id device principal w out w' :
  well_keyed (css w) ->
  returns t (cancel_change_set id device principal) w (Ok out) w' ->
  exists r, css w' !! id = Some r /\ cs_state r = Cancelled /\
    forall t' principal', returns t' (cancel_change_set id device principal') w'
      (Ok (change_set_output r)) w'.
Proof.
  intros Hk H. unfold cancel_change_set in H. apply returns_ask in H as (r&w1&Hg&H).
  assert (validate_operation_id id = Ok tt) as Hid.
  { revert Hg. cbn. unfold change_set. by destruct (validate_operation_id id) as [[]|]. }
  apply get_cs_Ok in Hg as (->&Hr&Hd).
  assert (forall r' w2, css w2 !! id = Some r' -> cs_device r' = device ->
    cs_state r' = Cancelled -> forall t' principal',
    returns t' (cancel_change_set id device principal') w2 (Ok (change_set_output r')) w2) as Hgo.
  { intros r' w2 Hr' Hd' Hs' t' q. unfold cancel_change_set, returns. cbn. unfold pure, change_set.
    rewrite Hid. simpl. rewrite Hr'. simpl. rewrite (bool_decide_eq_true_2 _ Hd'). simpl.
    rewrite (bool_decide_eq_true_2 _ Hs'). simpl. eauto. }
  case_bool_decide as Hs.
  - apply returns_Ret in H as [_ <-]. exists r. by eauto.
  - apply returns_refuse in H as [_ H]. apply returns_refuse in H as [_ H].
    apply returns_ask in H as (u&w2&Hu&H). apply update_from_Ok in Hu as (cur&_&_&Hc&_&_).
    apply returns_Ret in H as [_ <-]. cbn in Hc. rewrite (Hk _ _ Hr) in Hc.
    exists (normalise (set_cs_state Cancelled r)).
    assert (css w2 !! id = Some (normalise (set_cs_state Cancelled r))) as Hl
      by (by rewrite Hc, lookup_insert_eq).
    destruct (normalise_keeps (set_cs_state Cancelled r)) as (_&_&_&Ed).
    split; [done|]. split; [by rewrite normalise_state|]. apply Hgo; [done| |by rewrite normalise_state].
    by rewrite Ed.
Qed.

Lemma returns_bind {A B} t (p : prog A) (f : A -> prog B) w b w' :
  returns t (bind p f) w b w' ->
  exists a t1 w1, returns t p w a w1 /\ returns t1 (f a) w1 b w'.
Proof.
  revert t w. induction p as [a|X e k IH]; intros t w; cbn [bind].
  - intros H. exists a, t, w. split; [by exists []|done].
  - intros (x&w1&Hh&Hk)%returns_Vis. apply IH in Hk as (a&t1&w2&[l Ha]&Hb).
    exists a, t1, w2. split; [|done]. unfold returns. cbn. rewrite Hh, Ha. eauto.
Qed.

Lemma returns_try {A B} t (p : prog (result A CoordinatorError))
  (f : A -> prog (result B CoordinatorError)) w b w' :
  returns t (bind_ok p f) w (Ok b) w' ->
  exists a t1 w1, returns t p w (Ok a) w1 /\ returns t1 (f a) w1 (Ok b) w'.
Proof.
  intros ([a|e]&t1&w1&Ha&Hb)%returns_bind; cbn in Hb; [by exists a, t1, w1|].
  by apply returns_Ret in Hb as [? _].
Qed.

(** Without lab mode no waived change set can be applied, whatever kind of
    waiver it carries: the waivers that [waive_approval_operator] grants on
    such a deployment lead nowhere. *)
Theorem waiver_needs_lab_mode_to_apply t a w r out w' :
  lab_mode cfg = false -> css w !! aa_change_set_id a = Some r ->
  is_Some (cs_approval r ≫= ap_waived) ->
  ~ returns t (apply_change_set cfg a) w (Ok out) w'.
Proof.
  intros Hlab Hr Hwv (endpoint&t1&w1&H&_)%returns_try. unfold apply_precheck in H.
  apply returns_lift in H as (_&_&H). apply returns_lift in H as (_&_&H).
  apply returns_lift in H as (ep&_&H). apply returns_ask in H as (r'&w2&Hg&H).
  apply get_cs_Ok in Hg as (->&Hr'&_). simplify_eq.
  apply returns_refuse in H as [_ H]. apply returns_refuse in H as [_ H].
  apply returns_now in H as (now&_&H).
  destruct (waiver_expiry_error r now _); [by apply returns_Ret in H as [? _]|].
  apply returns_lift in H as ([]&Hck&_). unfold check_approval in Hck.
  destruct (cs_approval r) as [ap|]; [|by destruct Hwv].
  apply ensure_Ok in Hck as [_ Hck]. apply ensure_Ok in Hck as [_ Hck].
  apply ensure_Ok in Hck as [Hck _]. simpl in Hwv.
  by rewrite (bool_decide_eq_true_2 _ Hwv), Hlab in Hck.
Qed.

End handlers.
