(* ===== verification/Protocol.v ===== *)
(** * The protocol handlers follow

    A thread context records what a handler may rely on: the guard it holds,
    the operation records it read under that guard, the change-set records it
    has seen, the identifiers it drew and the claim it won.  [pre] is what a
    handler owes before each question, [allowed] what it may assume of the
    answer, and [wp] the programs that keep the protocol.  Nothing here looks
    at the world: the next file shows that the world keeps its side. *)

From S2P Require Import Prelude Externals Lifecycle Types Digest Trust Records Secret Persistence Store StoreFacts Events World Apply.

(** ** How records may move *)

(** The fields a plan is made of. *)
Definition same_plan (r r' : ChangeSetRecord) : Prop :=
  cs_id r' = cs_id r /\ cs_owner r' = cs_owner r /\ cs_device r' = cs_device r /\
  cs_expected_candidate_fingerprint r' = cs_expected_candidate_fingerprint r /\
  cs_actions r' = cs_actions r /\ cs_digest r' = cs_digest r /\
  cs_expires_at_unix r' = cs_expires_at_unix r /\
  cs_policy_signature r' = cs_policy_signature r /\ cs_targets r' = cs_targets r /\
  cs_preview r' = cs_preview r.

(** A later version of the same record: the plan never changes, and once it
    has left [Planned] neither does its approval. *)
Definition cs_evolves (r r' : ChangeSetRecord) : Prop :=
  same_plan r r' /\
  (cs_state r <> Planned ->
   cs_state r' <> Planned /\ cs_approval r' = cs_approval r /\ cs_approver r' = cs_approver r).

Definition op_edge (s t : LifecycleState) : bool :=
  match s, t with
  | Staging, (Staging | Staged | Indeterminate) => true
  | Staged, (Validating | Indeterminate) => true
  | Validating, (Validated | OpFailed) => true
  | Validated, (Committing | Indeterminate) => true
  | Committing, (Committing | Committed | OpFailed | Indeterminate) => true
  | OpFailed, Indeterminate => true
  | Indeterminate, (Indeterminate | OpFailed | Discarded) => true
  | _, _ => false
  end.

(** One step of an operation record: its identity and plan stay, its state
    follows [op_edge], and it is only discarded with the device lock released. *)
Definition op_move (r r' : OperationRecord) : Prop :=
  op_id r' = op_id r /\ op_owner r' = op_owner r /\ op_device r' = op_device r /\
  op_endpoint r' = op_endpoint r /\ op_actions r' = op_actions r /\
  op_change_set_id r' = op_change_set_id r /\
  op_policy_signature r' = op_policy_signature r /\
  op_edge (op_state r) (op_state r') = true /\
  (op_state r' = Discarded -> op_config_lock_held r' = false).

(** ** Contexts *)

(** What a thread is: applying one change set, or anything else. *)
Record Ctx := {
  kind : option string;
  held : option string;
  known : gmap string OperationRecord;
  safe : gset string;  (** operations whose known version is in the state file *)
  seen : gmap string ChangeSetRecord;
  fresh : gset string;
  claim : option ChangeSetRecord;
  intent : bool;
}.

Definition start (k : option string) : Ctx := {|
  kind := k; held := None; known := ∅; safe := ∅; seen := ∅; fresh := ∅; claim := None; intent := false |}.

Definition set_held (h : option string) (c : Ctx) : Ctx := {|
  kind := kind c; held := h; known := match h with Some _ => known c | None => ∅ end;
  safe := match h with Some _ => safe c | None => ∅ end; seen := seen c; fresh := fresh c; claim := claim c; intent := intent c |}.
Definition set_known (f : gmap string OperationRecord -> gmap string OperationRecord) (c : Ctx) :
  Ctx := {|
  kind := kind c; held := held c; known := f (known c); safe := safe c;
  seen := seen c; fresh := fresh c; claim := claim c; intent := intent c |}.
Definition set_safe (f : gset string -> gset string) (c : Ctx) : Ctx := {|
  kind := kind c; held := held c; known := known c; safe := f (safe c);
  seen := seen c; fresh := fresh c; claim := claim c; intent := intent c |}.
Definition set_seen (f : gmap string ChangeSetRecord -> gmap string ChangeSetRecord) (c : Ctx) :
  Ctx := {|
  kind := kind c; held := held c; known := known c; safe := safe c;
  seen := f (seen c); fresh := fresh c; claim := claim c; intent := intent c |}.
Definition set_fresh (f : gset string -> gset string) (c : Ctx) : Ctx := {|
  kind := kind c; held := held c; known := known c; safe := safe c;
  seen := seen c; fresh := f (fresh c); claim := claim c; intent := intent c |}.
Definition set_claim (r : option ChangeSetRecord) (c : Ctx) : Ctx := {|
  kind := kind c; held := held c; known := known c; safe := safe c;
  seen := seen c; fresh := fresh c; claim := r; intent := intent c |}.
Definition set_intent (b : bool) (c : Ctx) : Ctx := {|
  kind := kind c; held := held c; known := known c; safe := safe c;
  seen := seen c; fresh := fresh c; claim := claim c; intent := b |}.

(** After a record was written, or may have been. *)
Definition written (r : OperationRecord) (c : Ctx) : Ctx :=
  set_safe (fun f => {[ op_id r ]} ∪ f) (set_known (<[op_id r := r]>) c).
Definition unsure (id : string) : Ctx -> Ctx := set_safe (fun f => f ∖ {[ id ]}).

Definition id_of (seed : N) : string := bytes_hex (be_bytes 32 seed "").

Section protocol.
Context `{EX : Externals} `{SC : StateCodec} `{DT : DeviceTypes}.
Variable cfg : Config.

(** A record that a restart of this deployment will accept. *)
Definition cs_ok (r : ChangeSetRecord) : Prop :=
  validate_change_set_record 7 (approval_digest_key cfg) (cs_id r) r = Ok tt.
Definition op_ok (r : OperationRecord) : Prop :=
  validate_operation_record (op_id r) r = Ok tt.

(** What staging under a change set requires: this thread won the claim, the
    actions are the claimed plan's, and the plan was approved. *)
Definition may_stage (c : Ctx) (actions : list Action) : Prop :=
  forall id, kind c = Some id ->
  exists r, claim c = Some r /\ cs_id r = id /\
    parse_actions 0 (cs_actions r) = Ok actions /\ check_approval cfg r = Ok tt.

(** What a device commit requires: the guard, a record that is [Committing] in
    the state file, and the intent in the evidence trail. *)
Definition may_commit (c : Ctx) : Prop :=
  (exists id r, known c !! id = Some r /\ id ∈ safe c /\ op_state r = Committing) /\
  (evidence cfg = true -> intent c = true).

Definition pre (c : Ctx) {X} (e : Event X) : Prop :=
  match e with
  | Insert r => held c = Some (op_device r) /\ op_state r = Staging /\ op_id r ∈ fresh c /\ op_ok r
  | Update r =>
      op_ok r /\ exists cur, known c !! op_id r = Some cur /\ op_move cur r
  | Remove id => exists cur, known c !! id = Some cur /\ op_state cur = Staging
  | InsertChangeSet r => cs_id r ∈ fresh c /\ cs_ok r
  | UpdateChangeSet r =>
      cs_ok r /\ exists s, seen c !! cs_id r = Some s /\ cs_state s <> Planned /\ cs_evolves s r
  | UpdateChangeSetFrom observed r =>
      cs_ok r /\ exists s, seen c !! cs_id r = Some s /\ cs_state s = observed /\ cs_evolves s r
  | Claim id device handle => kind c = Some id
  | LockGuard device => held c = None
  | UnlockGuard device => held c = Some device
  | Stage actions => may_stage c actions
  | Commit staged attribution options => may_commit c
  | _ => True
  end.

Definition allowed (c : Ctx) {X} (e : Event X) : X -> Prop :=
  match e in Event X return X -> Prop with
  | GetRecord id owner device => fun x =>
      forall r, x = Ok r ->
        op_id r = id /\ op_owner r = owner /\ op_device r = device /\ op_ok r /\
        forall cur, known c !! id = Some cur -> r = cur
  | GetChangeSet id device => fun x =>
      forall r, x = Ok r ->
        cs_id r = id /\ cs_device r = device /\ cs_ok r /\
        forall s, seen c !! id = Some s -> cs_evolves s r
  | Claim id device handle => fun x =>
      forall r, x = Ok r ->
        cs_id r = id /\ cs_state r = Applying /\ cs_ok r /\
        forall s, seen c !! id = Some s -> cs_evolves s r
  | Fingerprint => fun x => forall fp, x = Ok fp -> Digest.validate_fingerprint fp = Ok tt
  | _ => fun _ => True
  end.

Definition next (c : Ctx) {X} (e : Event X) : X -> Ctx :=
  match e in Event X return X -> Ctx with
  | Random => fun x =>
      match x with Ok seed => set_fresh (fun f => {[ id_of seed ]} ∪ f) c | Err _ => c end
  | GetRecord id owner device => fun x =>
      match x with
      | Ok r => if decide (held c = Some device) then set_known (<[id := r]>) c else c
      | Err _ => c
      end
  | Insert r => fun x =>
      let c := set_fresh (fun f => f ∖ {[ op_id r ]}) c in
      match x with Ok _ => written r c | Err _ => c end
  | Update r => fun x =>
      match x with Ok _ => written r c | Err _ => unsure (op_id r) c end
  | Remove id => fun _ => unsure id (set_known (delete id) c)
  | GetChangeSet id device => fun x =>
      match x with Ok r => set_seen (<[id := r]>) c | Err _ => c end
  | InsertChangeSet r => fun _ => set_fresh (fun f => f ∖ {[ cs_id r ]}) c
  | Claim id device handle => fun x =>
      match x with Ok r => set_claim (Some r) (set_seen (<[id := r]>) c) | Err _ => c end
  | LockGuard device => fun x => if x : bool then set_held (Some device) c else c
  | UnlockGuard device => fun _ => set_held None c
  | Stage actions => fun _ => set_claim None c
  | ApplyIntent _ _ _ _ => fun x => match x with Ok _ => set_intent true c | Err _ => c end
  | _ => fun _ => c
  end.

Fixpoint wp {A} (c : Ctx) (p : prog A) (Φ : A -> Ctx -> Prop) : Prop :=
  match p with
  | Ret a => Φ a c
  | Vis e k => pre c e /\ forall x, allowed c e x -> wp (next c e x) (k x) Φ
  end.

(** ** Rules *)

Lemma wp_mono {A} (p : prog A) c (Φ Ψ : A -> Ctx -> Prop) :
  wp c p Φ -> (forall a c', Φ a c' -> Ψ a c') -> wp c p Ψ.
Proof.
  revert c; induction p as [a|X e k IH]; intros c; simpl; [eauto|].
  intros [Hp Hk] HΦ. eauto.
Qed.

Lemma wp_bind {A B} (p : prog A) (f : A -> prog B) c Φ :
  wp c p (fun a c' => wp c' (f a) Φ) -> wp c (bind p f) Φ.
Proof.
  revert c; induction p as [a|X e k IH]; intros c; simpl; [done|].
  intros [Hp Hk]. eauto.
Qed.

Lemma wp_ask {A X} (e : Event X) (k : X -> prog A) c Φ :
  pre c e -> (forall x, allowed c e x -> wp (next c e x) (k x) Φ) -> wp c (bind (ask e) k) Φ.
Proof. done. Qed.

Lemma wp_ask_ok {A B E} (e : Event (result A E)) (k : A -> prog (result B E)) c Φ :
  pre c e ->
  (forall x, allowed c e (Err x) -> Φ (Err x) (next c e (Err x))) ->
  (forall a, allowed c e (Ok a) -> wp (next c e (Ok a)) (k a) Φ) ->
  wp c (bind_ok (ask e) k) Φ.
Proof. intros Hp He Hk. split; [done|]. intros [a|x] Hx; simpl; auto. Qed.

Lemma wp_bind_inv {A B} (p : prog A) (f : A -> prog B) c Φ :
  wp c (bind p f) Φ -> wp c p (fun a c' => wp c' (f a) Φ).
Proof.
  revert c; induction p as [a|X e k IH]; intros c; simpl; [done|].
  intros [Hp Hk]. eauto.
Qed.

(** [?] is associative. *)
Lemma wp_try_assoc {A B D E} (p : prog (result A E)) (f : A -> prog (result B E))
  (g : B -> prog (result D E)) c Φ :
  wp c (bind_ok p (fun a => bind_ok (f a) g)) Φ -> wp c (bind_ok (bind_ok p f) g) Φ.
Proof.
  intros Hp%wp_bind_inv. apply wp_bind, wp_bind. eapply wp_mono; [exact Hp|].
  intros [a|e] c' Ha; simpl in *; [|done]. by apply wp_bind_inv in Ha.
Qed.

(** Sequencing with [?]: the continuation only runs on success. *)
Lemma wp_try {A B E} (p : prog (result A E)) (f : A -> prog (result B E)) c
  (Φ : result B E -> Ctx -> Prop) (Ψ : result A E -> Ctx -> Prop) :
  wp c p Ψ ->
  (forall e c', Ψ (Err e) c' -> Φ (Err e) c') ->
  (forall a c', Ψ (Ok a) c' -> wp c' (f a) Φ) ->
  wp c (bind_ok p f) Φ.
Proof.
  intros Hp He Ha. apply wp_bind. eapply wp_mono; [done|].
  intros [a|e] c' HΨ; simpl; eauto.
Qed.

Lemma wp_now {A} (k : N -> prog (result A CoordinatorError)) c Φ :
  (forall e, Φ (Err e) c) -> (forall t, wp c (k t) Φ) ->
  wp c (bind_ok now_unix k) Φ.
Proof. intros He Hk. split; [done|]. intros [t|e] _; simpl; auto. Qed.

Lemma wp_new_id {A} (k : string -> prog (result A CoordinatorError)) c Φ :
  (forall e, Φ (Err e) c) ->
  (forall seed, wp (set_fresh (fun f => {[ id_of seed ]} ∪ f) c) (k (id_of seed)) Φ) ->
  wp c (bind_ok new_operation_id k) Φ.
Proof.
  intros He Hk. split; [done|]. intros [seed|e] _; cbn [bind bind_ok next]; [|by apply He].
  apply Hk.
Qed.

Lemma wp_lift {A B} (r : result A CoordinatorError) (k : A -> prog (result B CoordinatorError)) c Φ :
  (forall e, Φ (Err e) c) -> (forall a, r = Ok a -> wp c (k a) Φ) ->
  wp c (bind_ok (lift r) k) Φ.
Proof. intros He Hk. destruct r; simpl; [by apply Hk|apply He]. Qed.

(** The fields a reload checks; the rest of a record is progress. *)
Lemma op_ok_progress r r' :
  op_id r' = op_id r -> op_owner r' = op_owner r -> op_device r' = op_device r ->
  op_endpoint r' = op_endpoint r -> op_actions r' = op_actions r ->
  Digest.validate_fingerprint (op_current r') = Ok tt ->
  op_ok r -> op_ok r'.
Proof.
  intros Hid Ho Hd He Ha Hf (?&?&?&?&?&?&?)%validate_operation_record_Ok.
  apply validate_operation_record_Ok. rewrite Ho, Hd, He, Ha, Hid. by split_and!.
Qed.

Lemma op_ok_current r : op_ok r -> Digest.validate_fingerprint (op_current r) = Ok tt.
Proof. by intros (_&_&_&_&?&_)%validate_operation_record_Ok. Qed.

End protocol.

(** ** Symbolic execution

    [wp_step] advances the goal by one question or one branch; an answer with
    something to assume is split into its two cases. *)

Ltac wp_simpl :=
  cbn [wp bind bind_ok ask lift pre allowed next].

Ltac wp_step :=
  match goal with
  | |- True => exact I
  | |- True /\ _ => split; [exact I|]
  | |- forall x, True -> _ => intros ? _
  | |- forall x, (forall r, x = Ok r -> _) -> _ =>
      let H := fresh "Hans" in
      intros [?|?] H; [specialize (H _ eq_refl); destruct_and? H|clear H]
  | |- wp _ _ (bind_ok (bind_ok _ _) _) _ => apply wp_try_assoc
  | |- wp _ _ (bind_ok now_unix _) _ => apply wp_now; [intros ?|intros ?]
  | |- wp _ _ (bind_ok new_operation_id _) _ => apply wp_new_id; [intros ?|intros ?]
  | |- wp _ _ (match ?x with _ => _ end) _ => destruct x eqn:?
  | |- wp _ _ (bind_ok (match ?x with _ => _ end) _) _ => destruct x eqn:?
  | |- wp _ _ (bind (match ?x with _ => _ end) _) _ => destruct x eqn:?
  | |- wp _ _ _ _ => progress wp_simpl
  end.

Ltac op_move_tac :=
  unfold op_move; cbn; split_and!; try done; try congruence;
  try match goal with Hs : op_state ?r = _ |- context [op_edge (op_state ?r) _] =>
    by rewrite Hs end.

Ltac op_ok_tac :=
  match goal with Hr : op_ok ?r |- op_ok _ =>
    by (apply op_ok_progress with r; try done; by apply op_ok_current) end.

