(* ===== verification/Conformance.v ===== *)
(** * Every handler keeps the protocol

    One lemma per handler except [apply_change_set] (next file): its program
    asks only what Protocol.v lets it ask, and tells the truth in each write.
    The lemmas follow the code question by question. *)

From S2P Require Import Prelude Externals Lifecycle Types Digest Trust Records Secret Persistence Reload Store StoreFacts Events World Changeset Apply Operation Protocol.

(** ** Records *)

Lemma cs_evolves_refl r : cs_evolves r r.
Proof. by repeat split. Qed.

Lemma cs_evolves_trans r1 r2 r3 : cs_evolves r1 r2 -> cs_evolves r2 r3 -> cs_evolves r1 r3.
Proof.
  intros [(?&?&?&?&?&?&?&?&?&?) He1] [(?&?&?&?&?&?&?&?&?&?) He2]. split.
  - unfold same_plan. split_and!; congruence.
  - intros Hs. destruct (He1 Hs) as (Hs2&?&?). destruct (He2 Hs2) as (?&?&?).
    split_and!; congruence.
Qed.

(** Moving the state, or the bookkeeping fields, of a record. *)
Lemma cs_evolves_state r s : (cs_state r <> Planned -> s <> Planned) -> cs_evolves r (set_cs_state s r).
Proof. intros Hs. split; [by repeat split|]. intros Hr. split_and!; auto. Qed.

Section conformance.
Context `{EX : Externals} `{XL : !ExternalsLaws EX} `{SC : StateCodec} `{DT : DeviceTypes}.
Variable cfg : Config.

Lemma cs_ok_state s r : cs_ok cfg (set_cs_state s r) <-> cs_ok cfg r.
Proof. done. Qed.

Lemma cs_ok_operation_id o r : cs_ok cfg (set_cs_operation_id o r) <-> cs_ok cfg r.
Proof. done. Qed.

(** What [approve_change_set] writes passes the validation of the next load. *)
Definition approved_record (id : string) (r : ChangeSetRecord) (approver : string) (now : N) :
  ChangeSetRecord :=
  set_cs_approval (Some approver) (Some {|
    ap_approver := Some approver; ap_approved_at_unix := now;
    ap_digest := (sign_approval cfg id r approver now).1;
    ap_digest_version := (sign_approval cfg id r approver now).2;
    ap_waived := None |}) (set_cs_state Approved r).

Lemma approved_record_ok r approver now :
  cs_ok cfg r -> cs_owner r <> approver -> cs_ok cfg (approved_record (cs_id r) r approver now).
Proof.
  intros (Hplan&_&_)%validate_record_Ok Hne. apply validate_record_Ok.
  split; [done|]. split; [|simpl; congruence].
  intros a [= <-]. apply validate_approval_Ok. simpl. unfold sign_approval.
  unfold expected_approval_digest, expected_approver_digest. simpl.
  destruct (approval_digest_key cfg) as [key|] eqn:Ek; simpl; split_and!; try naive_solver.
  - apply sha256_digest_valid, hex32_is_hex64, hmac_len.
  - unfold verify_approval_digest_v6. by rewrite bool_decide_eq_true_2.
  - apply sha256_digest_valid, digest_hex_is_hex64.
Qed.

Lemma waived_record_ok r now waiver :
  cs_ok cfg r -> cs_ok cfg (waived_record (cs_id r) r now waiver).
Proof.
  intros (Hplan&_&_)%validate_record_Ok. apply validate_record_Ok.
  split; [done|]. split; [|done].
  intros a [= <-]. apply validate_approval_Ok. simpl.
  split_and!; try (by intros [[] _]); try (by intros (_&[]&_)); try done.
  apply sha256_digest_valid, digest_hex_is_hex64.
Qed.

(** Approving or waiving is an evolution of a planned record. *)
Lemma cs_evolves_approval approver approval r :
  cs_state r = Planned -> cs_evolves r (set_cs_approval approver approval (set_cs_state Approved r)).
Proof. intros Hs. split; [by repeat split|]. congruence. Qed.

(** A guarded body: it starts with the guard and must end with it. *)
Lemma wp_guard {A} device (body : prog (result A CoordinatorError)) c :
  held c = None ->
  wp cfg (set_held (Some device) c) body (fun _ c => held c = Some device) ->
  wp cfg c (with_device_guard device body) (fun _ c => held c = None).
Proof.
  intros Hc Hbody. unfold with_device_guard. wp_simpl. split; [done|]. intros [] _; [|done].
  apply wp_bind. eapply wp_mono; [exact Hbody|]. intros a c' Hc'. wp_simpl. auto.
Qed.

(** The change-set writes a handler makes after reading the record. *)
Lemma pre_update_from c id r next :
  cs_id r = id -> cs_ok cfg next -> cs_evolves r next ->
  cs_ok cfg next /\ exists s, seen (set_seen (<[id := r]>) c) !! cs_id next = Some s /\
    cs_state s = cs_state r /\ cs_evolves s next.
Proof.
  intros Hid Hok Hev. split; [done|]. exists r. assert (cs_id next = id) as -> by
    (destruct Hev as [(->&_) _]; done).
  simpl. by rewrite lookup_insert_eq.
Qed.

Lemma wp_cancel id device principal c :
  held c = None ->
  wp cfg c (cancel_change_set id device principal) (fun _ c => held c = None).
Proof.
  intros Hc. unfold cancel_change_set. repeat wp_step; try done. split.
  - apply pre_update_from; [done|by apply cs_ok_state|by apply cs_evolves_state].
  - by intros [] _.
Qed.

Lemma wp_status id device c :
  held c = None ->
  wp cfg c (change_set_status id device) (fun _ c => held c = None).
Proof.
  intros Hc. unfold change_set_status, retire_if_deadline_passed. repeat wp_step; try done. split.
  - apply pre_update_from; [done|by apply cs_ok_state|by apply cs_evolves_state].
  - by intros [] _.
Qed.

Lemma wp_status_with_actions id device c :
  held c = None ->
  wp cfg c (change_set_status_with_actions id device) (fun _ c => held c = None).
Proof.
  intros Hc. unfold change_set_status_with_actions, retire_if_deadline_passed.
  repeat wp_step; try done. split.
  - apply pre_update_from; [done|by apply cs_ok_state|by apply cs_evolves_state].
  - by intros [] _.
Qed.

Lemma wp_expire {A} id r message c :
  cs_id r = id -> cs_ok cfg r -> held c = None ->
  wp cfg (set_seen (<[id := r]>) c) (expire (A := A) r message) (fun _ c => held c = None).
Proof.
  intros Hid Hok Hc. unfold expire. wp_simpl. split; [|by intros [] _].
  apply pre_update_from; [done|by apply cs_ok_state|by apply cs_evolves_state].
Qed.

Lemma wp_emit {A} (e : Event A) d (k : A -> prog (result ChangeSetOutput CoordinatorError)) c Φ :
  pre cfg c e -> (forall x, allowed cfg c e x -> wp cfg (next c e x) (k x) Φ) ->
  wp cfg c (k d) Φ -> wp cfg c (bind (emit cfg e d) k) Φ.
Proof. intros Hp Hk Hd. unfold emit. destruct (evidence cfg); wp_simpl; auto. Qed.

Lemma wp_approve id device approver expected_digest actor c :
  held c = None ->
  wp cfg c (approve_change_set cfg id device approver expected_digest actor)
    (fun _ c => held c = None).
Proof.
  intros Hc. unfold approve_change_set. repeat wp_step; try done; [by apply wp_expire|].
  bools. subst. split.
  - apply pre_update_from; [done| |by apply cs_evolves_approval].
    match goal with Hs : sign_approval _ _ ?r _ ?now = _ |- _ =>
      pose proof (approved_record_ok r approver now) as Hok; unfold approved_record in Hok;
      rewrite Hs in Hok; by apply Hok end.
  - intros [] _; [|done]. apply wp_emit; done.
Qed.

Lemma wp_grant_waiver id r now waiver c :
  cs_id r = id -> cs_ok cfg r -> cs_state r = Planned -> held c = None ->
  wp cfg (set_seen (<[id := r]>) c) (grant_waiver cfg id r now waiver)
    (fun _ c => held c = None).
Proof.
  intros <- Hok Hs Hc. unfold grant_waiver. wp_simpl. split.
  - apply pre_update_from; [done|by apply waived_record_ok|by apply cs_evolves_approval].
  - intros [] _; [|done]. apply wp_emit; done.
Qed.

Lemma wp_waive id device owner expected_digest c :
  held c = None ->
  wp cfg c (waive_approval cfg id device owner expected_digest) (fun _ c => held c = None).
Proof.
  intros Hc. unfold waive_approval. repeat wp_step; try done; [by apply wp_expire|].
  bools. by apply wp_grant_waiver.
Qed.

Lemma wp_waive_operator id device owner expected_digest wk reason expires ticket c :
  held c = None ->
  wp cfg c (waive_approval_operator cfg id device owner expected_digest wk reason expires ticket)
    (fun _ c => held c = None).
Proof.
  intros Hc. unfold waive_approval_operator. repeat wp_step; try done; [by apply wp_expire|..];
  bools; by apply wp_grant_waiver.
Qed.

(** ** Creating *)

Lemma id_of_hex64 seed : is_hex64 (id_of seed).
Proof. apply hex32_is_hex64. unfold id_of. by rewrite be_bytes_len. Qed.

Lemma validate_actions_count {A} ser (actions : list A) lim :
  validate_change_set_actions ser actions lim = Ok tt ->
  actions <> [] /\ (N.of_nat (length actions) <= max_actions_per_set lim)%N.
Proof.
  unfold validate_change_set_actions. destruct actions as [|x l]; [done|].
  destruct (N.ltb_spec (max_actions_per_set lim) (N.of_nat (length (x :: l)))); done.
Qed.

Lemma collect_length {A E} (l : list (result A E)) r : collect l = Ok r -> length r = length l.
Proof. intros ->%collect_Ok. by rewrite length_fmap. Qed.

Lemma change_set_digest_valid owner device fp actions d field :
  change_set_digest owner device fp actions = Ok d -> validate_digest d field = Ok tt.
Proof. intros [= <-]. apply sha256_digest_valid, digest_hex_is_hex64. Qed.

Lemma created_record_ok id owner device fp actions d expires policy :
  is_hex64 id -> owner <> "" -> device <> "" -> Digest.validate_fingerprint fp = Ok tt ->
  actions <> [] -> (N.of_nat (length actions) <= MAX_CHANGE_SET_ACTIONS)%N ->
  change_set_digest owner device fp actions = Ok d ->
  cs_ok cfg {|
    cs_id := id; cs_owner := owner; cs_device := device;
    cs_expected_candidate_fingerprint := fp; cs_actions := actions; cs_digest := d;
    cs_state := Planned; cs_approver := None; cs_approval := None;
    cs_expires_at_unix := expires; cs_operation_id := None; cs_policy_signature := policy;
    cs_targets := []; cs_preview := None; cs_task_id := None; cs_apply_without_handle := false |}.
Proof.
  intros. apply validate_record_Ok. split; [|done]. apply validate_plan_Ok. simpl.
  split_and!; try done. by eapply change_set_digest_valid.
Qed.

Lemma wp_create device actions owner fp policy c :
  owner <> "" -> device <> "" ->
  (max_actions_per_set (limits cfg) <= MAX_CHANGE_SET_ACTIONS)%N ->
  held c = None ->
  wp cfg c (create_change_set cfg device actions owner fp policy) (fun _ c => held c = None).
Proof.
  intros Ho Hd Hmax Hc. unfold create_change_set. repeat wp_step; try done.
  split; [|intros [] _; [apply wp_emit; done|done]]. bools.
  match goal with
  | Ha : validate_change_set_actions _ _ _ = Ok ?u, Hc : collect _ = Ok _,
    Hf : Digest.validate_fingerprint _ = Ok ?u' |- _ =>
      destruct u, u'; apply validate_actions_count in Ha as [Hne Hle];
      apply collect_length in Hc as Hlen; rewrite length_fmap in Hlen
  end.
  cbn [cs_id fresh set_fresh]. split; [set_solver|].
  apply created_record_ok; try done; [apply id_of_hex64| |rewrite Hlen; lia].
  intros ->. by destruct actions.
Qed.

(** ** Operations under the guard *)

Lemma wp_get_record {A} id owner device (k : OperationRecord -> prog (result A CoordinatorError)) c Φ :
  (forall e, Φ (Err e) c) ->
  (forall r, op_id r = id -> op_owner r = owner -> op_device r = device -> op_ok r ->
     (forall cur, known c !! id = Some cur -> r = cur) ->
     wp cfg (if decide (held c = Some device) then set_known (<[id := r]>) c else c) (k r) Φ) ->
  wp cfg c (bind_ok (ask (GetRecord id owner device)) k) Φ.
Proof.
  intros He Hk. split; [done|]. intros [r|e] Hr; simpl; [|apply He].
  destruct (Hr r eq_refl) as (?&?&?&?&?). auto.
Qed.

Lemma wp_reread {A} id owner device (k : OperationRecord -> prog (result A CoordinatorError)) c Φ :
  held c = Some device ->
  (forall e, Φ (Err e) c) ->
  (forall r, op_id r = id -> op_device r = device -> op_ok r ->
     wp cfg (set_known (<[id := r]>) c) (k r) Φ) ->
  wp cfg c (bind_ok (reread id owner device) k) Φ.
Proof.
  intros Hh He Hk. unfold reread. split; [done|]. intros [] _; simpl; [apply He|].
  split; [done|]. intros [r|e] Hr; simpl; [|apply He].
  destruct (Hr r eq_refl) as (?&?&?&?&?). rewrite decide_True by done. auto.
Qed.

Lemma wp_guard_fingerprint {A} rec fp (k : unit -> prog (result A CoordinatorError)) c Φ :
  (forall e, Φ (Err e) c) -> wp cfg c (k tt) Φ ->
  wp cfg c (bind_ok (guard_fingerprint rec fp) k) Φ.
Proof.
  intros He Hk. unfold guard_fingerprint. split; [done|]. intros [f|e] _; simpl; [|apply He].
  destruct (record_error _) as [[]|e]; [exact Hk|apply He].
Qed.

(** An update of a known record, with [?]. *)
Lemma wp_update {A} cur r (k : unit -> prog (result A CoordinatorError)) c Φ :
  known c !! op_id r = Some cur -> op_move cur r -> op_ok r ->
  (forall e, Φ (Err e) (unsure (op_id r) c)) ->
  wp cfg (written r c) (k tt) Φ ->
  wp cfg c (bind_ok (ask (Update r)) k) Φ.
Proof.
  intros Hk Hm Hok He Hn. split; [simpl; eauto|]. intros [[]|e] _; simpl; auto.
Qed.

(** The record written is the one the context knows, moved along an edge. *)
Ltac wp_upd :=
  eapply wp_update; [cbn; apply lookup_insert_eq|op_move_tac|op_ok_tac|done|].

Lemma wp_diff id device owner fp staged c :
  held c = None ->
  wp cfg c (diff_operation id device owner fp staged) (fun _ c => held c = None).
Proof.
  intros Hc. unfold diff_operation. apply wp_get_record; [done|]. intros r ?? <- ? _.
  rewrite decide_False by congruence. apply wp_guard; [done|].
  apply wp_reread; [done..|]. intros rec ???.
  wp_step; [done|]. apply wp_guard_fingerprint; [done|]. by repeat wp_step.
Qed.

Lemma wp_validate id device owner fp staged c :
  held c = None ->
  wp cfg c (validate_operation id device owner fp staged) (fun _ c => held c = None).
Proof.
  intros Hc. unfold validate_operation. apply wp_get_record; [done|]. intros r ?? <- ? _.
  rewrite decide_False by congruence. wp_step; [done|]. apply wp_guard; [done|].
  apply wp_reread; [done..|]. intros rec <- ??. wp_step; [done|]. bools.
  apply wp_guard_fingerprint; [done|]. wp_upd. wp_simpl. split; [done|].
  intros [v|error] _; by wp_upd.
Qed.

Lemma wp_commit_gate {A} a (k : OperationRecord -> prog (result A CoordinatorError)) c Φ :
  held c = Some (ca_device a) -> (forall e c', held c' = held c -> Φ (Err e) c') ->
  (forall rec, op_id rec = ca_operation_id a -> op_device rec = ca_device a -> op_ok rec ->
     op_state rec = Validated ->
     wp cfg (set_known (<[ca_operation_id a := rec]>) c)
       (k (set_op_attribution (Some (persisted_attribution (ca_attribution a))) rec)) Φ) ->
  wp cfg c (bind_ok (commit_gate a) k) Φ.
Proof.
  intros Hh He Hk. unfold commit_gate. apply wp_try_assoc, wp_reread; [done|by intros; apply He|].
  intros rec ???. wp_step; [by apply He|]. bools. apply wp_try_assoc, wp_lift; [by intros; apply He|].
  intros _ _. apply wp_try_assoc, wp_guard_fingerprint; [by intros; apply He|].
  split; [done|]. intros [] _; simpl; [by apply He|auto].
Qed.

Lemma wp_intent {A} a rec (k : unit -> prog (result A CoordinatorError)) c Φ :
  (forall e, Φ (Err e) c) ->
  (forall c', known c' = known c -> held c' = held c -> (evidence cfg = true -> intent c' = true) ->
     wp cfg c' (k tt) Φ) ->
  wp cfg c (bind_ok (commit_intent cfg a rec) k) Φ.
Proof.
  intros He Hk. unfold commit_intent. destruct (evidence cfg) eqn:E; simpl; [|by apply Hk].
  split; [done|]. intros [[]|e] _; simpl; [by apply Hk|apply He].
Qed.

Lemma wp_receipt {A} a rec ok details (k : unit -> prog A) c Φ :
  wp cfg c (k tt) Φ -> wp cfg c (bind (commit_receipt cfg a rec ok details) k) Φ.
Proof. intros Hk. unfold commit_receipt. by destruct (evidence cfg). Qed.

(** Whatever the device answered, the write moves a committing record. *)
Lemma wp_commit_settle a rec outcome c :
  known c !! op_id rec = Some rec -> op_state rec = Committing -> op_ok rec ->
  wp cfg c (commit_settle cfg a rec outcome) (fun _ c' => held c' = held c).
Proof.
  intros Hk Hs Hok. unfold commit_settle.
  destruct outcome as [[[] job details|job|reason|job deadline details]|error];
    try apply wp_receipt; (eapply wp_update; [exact Hk|op_move_tac|op_ok_tac|done|done]).
Qed.

Lemma wp_commit a c :
  held c = None -> wp cfg c (commit_operation cfg a) (fun _ c => held c = None).
Proof.
  intros Hc. unfold commit_operation. apply wp_get_record; [done|]. intros r ?? -> ? _.
  rewrite decide_False by congruence. apply wp_guard; [done|].
  apply wp_commit_gate; [done|done|]. intros rec Hid Hdev Hok Hs.
  apply wp_intent; [done|]. intros c' Hk Hh Hi.
  eapply wp_update; [cbn; rewrite Hk, Hid; apply lookup_insert_eq|op_move_tac|op_ok_tac|done|].
  split.
  { split; [|done]. eexists _, _. split_and!; [apply lookup_insert_eq|cbn; set_solver|done]. }
  intros [outcome|] _.
  - eapply wp_mono; [apply wp_commit_settle; [apply lookup_insert_eq|done|op_ok_tac]|].
    intros _ c'' ->. simpl. by rewrite Hh.
  - by wp_upd.
Qed.

(** ** Discard *)

(** Once the in-flight state is recorded, every later write leaves it. *)
Definition in_doubt (rec : OperationRecord) (c : Ctx) : Prop :=
  exists cur, known c !! op_id rec = Some cur /\ op_state cur = Indeterminate /\
    op_move (in_flight "" rec) cur.

Lemma op_move_in_flight rec rec' :
  op_id rec' = op_id rec -> op_owner rec' = op_owner rec -> op_device rec' = op_device rec ->
  op_endpoint rec' = op_endpoint rec -> op_actions rec' = op_actions rec ->
  op_change_set_id rec' = op_change_set_id rec ->
  op_policy_signature rec' = op_policy_signature rec ->
  op_edge Indeterminate (op_state rec') = true ->
  (op_state rec' = Discarded -> op_config_lock_held rec' = false) ->
  forall cur, op_state cur = Indeterminate -> op_move (in_flight "" rec) cur -> op_move cur rec'.
Proof.
  intros ????????? cur Hs (?&?&?&?&?&?&?&_&_). unfold op_move. cbn in *.
  rewrite Hs. split_and!; (congruence || auto).
Qed.

(** A write of the record under discard, with [?]. *)
Lemma wp_update_doubt {A} rec rec' (k : unit -> prog (result A CoordinatorError)) c Φ :
  in_doubt rec c ->
  op_id rec' = op_id rec -> op_owner rec' = op_owner rec -> op_device rec' = op_device rec ->
  op_endpoint rec' = op_endpoint rec -> op_actions rec' = op_actions rec ->
  op_change_set_id rec' = op_change_set_id rec ->
  op_policy_signature rec' = op_policy_signature rec ->
  op_edge Indeterminate (op_state rec') = true ->
  (op_state rec' = Discarded -> op_config_lock_held rec' = false) ->
  op_ok rec' ->
  (forall e, Φ (Err e) (unsure (op_id rec') c)) ->
  (forall c', held c' = held c -> (op_state rec' = Indeterminate -> in_doubt rec c') ->
     wp cfg c' (k tt) Φ) ->
  wp cfg c (bind_ok (ask (Update rec')) k) Φ.
Proof.
  intros (cur&Hk&Hs&Hm) Hid ????????? He Hn.
  assert (op_move cur rec') as Hmv by (eapply op_move_in_flight; eauto).
  eapply wp_update; [rewrite Hid; exact Hk|done|done|done|]. apply Hn; [done|].
  intros Hi. exists rec'. cbn. rewrite <-Hid, lookup_insert_eq. split_and!; try done.
Qed.

Ltac wp_doubt :=
  eapply wp_update_doubt; [eassumption|done..|op_ok_tac|done|].

Lemma wp_discard_rollback rec c :
  known c !! op_id rec = Some rec -> op_ok rec -> undiscardable (op_state rec) = false ->
  wp cfg c (discard_rollback rec)
    (fun r c' => held c' = held c /\ (r = Ok tt -> in_doubt rec c')).
Proof.
  intros Hk Hok Hu. unfold discard_rollback.
  assert (op_edge (op_state rec) Indeterminate = true) as He by (by destruct (op_state rec)).
  eapply wp_update; [exact Hk|by op_move_tac|op_ok_tac|done|].
  match goal with |- wp _ ?c1 _ _ => assert (in_doubt rec c1) as Hd end.
  { eexists. cbn. rewrite lookup_insert_eq. split; [done|]. split; [done|by op_move_tac]. }
  apply wp_ask; [done|]. cbn [next].
  intros [outcome|e] _; [destruct (rb_succeeded outcome)|]; wp_doubt; intros c' Hc' Hd'; cbn;
    (split; [by rewrite Hc'|]); [by auto|done..].
Qed.

Lemma wp_discard_unlock rec c :
  in_doubt rec c -> op_ok rec ->
  wp cfg c (discard_unlock rec)
    (fun r c' => held c' = held c /\
       forall rec', r = Ok rec' -> in_doubt rec c' /\
         rec' = set_op_details (Some "candidate reverted")
                  (set_op_state Discarded (set_op_lock false rec))).
Proof.
  intros Hd Hok. unfold discard_unlock. apply wp_ask; [done|]. cbn [next].
  intros [[]|error] _.
  - split; [done|]. by intros rec' [= <-].
  - wp_doubt. intros c' Hc' _. by split.
  - wp_doubt. intros c' Hc' _. by split.
Qed.

Lemma wp_discard id device owner fp c :
  held c = None ->
  wp cfg c (discard_operation id device owner fp) (fun _ c => held c = None).
Proof.
  intros Hc. unfold discard_operation. apply wp_get_record; [done|]. intros r ?? <- ? _.
  rewrite decide_False by congruence. wp_step; [done|]. apply wp_guard; [done|].
  apply wp_reread; [done..|]. intros rec <- ??. wp_step; [done|]. bools.
  apply wp_guard_fingerprint; [done|].
  eapply wp_try; [apply wp_discard_rollback; [apply lookup_insert_eq|done|done]|naive_solver|].
  intros [] c1 [Hh1 Hd1]. specialize (Hd1 eq_refl).
  eapply wp_try; [by apply wp_discard_unlock|cbn; naive_solver congruence|].
  intros rec' c2 [Hh2 Hd2]. destruct (Hd2 rec' eq_refl) as [Hd3 ->]. unfold discard_finish.
  apply wp_ask; [done|]. cbn [next]. intros [f|e] Hf; eapply wp_update_doubt; try done; try op_ok_tac;
    try (cbn; congruence); try (intros; cbn in *; congruence).
  apply op_ok_progress with rec; try done. by apply Hf.
Qed.

(** ** Stage *)

(** What the staging block knows of its record throughout: the store holds a
    staging version of it. *)
Definition staging (rec : OperationRecord) (c : Ctx) : Prop :=
  op_ok rec /\ op_state rec = Staging /\
  exists cur, known c !! op_id rec = Some cur /\ op_state cur = Staging /\ op_move rec cur.

(** Any later version of a staging record is a move from what is stored. *)
Lemma staging_move rec rec' cur :
  op_state cur = Staging -> op_move rec cur ->
  op_id rec' = op_id rec -> op_owner rec' = op_owner rec -> op_device rec' = op_device rec ->
  op_endpoint rec' = op_endpoint rec -> op_actions rec' = op_actions rec ->
  op_change_set_id rec' = op_change_set_id rec ->
  op_policy_signature rec' = op_policy_signature rec ->
  op_edge Staging (op_state rec') = true -> op_state rec' <> Discarded ->
  op_move cur rec'.
Proof.
  intros Hs (?&?&?&?&?&?&?&_&_) ?????????. unfold op_move. rewrite Hs.
  split_and!; intros; congruence.
Qed.

Lemma staging_lock rec c : staging rec c -> staging (set_op_lock true rec) c.
Proof.
  intros (Hok&Hs&cur&Hk&Hc&Hm). split; [op_ok_tac|]. split; [done|]. exists cur. by split_and!.
Qed.

(** A write of the staging record, whatever its outcome. *)
Lemma wp_stage_write {A} rec rec' (k : result unit CoordinatorError -> prog A) c Φ :
  staging rec c ->
  op_id rec' = op_id rec -> op_owner rec' = op_owner rec -> op_device rec' = op_device rec ->
  op_endpoint rec' = op_endpoint rec -> op_actions rec' = op_actions rec ->
  op_change_set_id rec' = op_change_set_id rec ->
  op_policy_signature rec' = op_policy_signature rec ->
  op_edge Staging (op_state rec') = true -> op_state rec' <> Discarded ->
  op_ok rec' ->
  (forall e c', held c' = held c -> claim c' = claim c -> kind c' = kind c -> staging rec c' ->
     wp cfg c' (k (Err e)) Φ) ->
  (forall c', held c' = held c -> claim c' = claim c -> kind c' = kind c ->
     (op_state rec' = Staging -> staging rec' c') ->
     wp cfg c' (k (Ok tt)) Φ) ->
  wp cfg c (bind (ask (Update rec')) k) Φ.
Proof.
  intros (Hok&Hs&cur&Hk&Hc&Hm) Hid ????????? He Hn.
  assert (op_move cur rec') as Hmv by (eapply staging_move; eauto).
  apply wp_ask; [split; [done|]; exists cur; by rewrite Hid|].
  intros [[]|e] _; [|apply He; try done; split; [done|]; split; [done|]; by exists cur].
  apply Hn; [done..|]. intros Hi. split; [done|]. split; [done|].
  exists rec'. cbn. rewrite lookup_insert_eq. split; [done|]. split; [done|].
  unfold op_move. cbn. rewrite Hi. by split_and!.
Qed.

Ltac wp_staging := eapply wp_stage_write; [eassumption|done..|op_ok_tac| |].

Lemma wp_stage_lock a rec c :
  staging rec c ->
  wp cfg c (stage_lock a rec)
    (fun out c' => held c' = held c /\ kind c' = kind c /\ staging out.2 c' /\
       op_id out.2 = op_id rec).
Proof.
  intros Hst. unfold stage_lock. destruct (sa_requires_config_lock a); [|done].
  apply staging_lock in Hst. pose proof Hst as (Hok&Hs&_).
  eapply wp_stage_write; try done; [by rewrite Hs|by rewrite Hs|].
  intros c' Hh ? Hk Hst'. specialize (Hst' Hs).
  apply wp_ask; [done|]. intros [[]|e] _; done.
Qed.

Lemma wp_stage_block a rec c :
  kind c = None -> staging rec c ->
  wp cfg c (stage_block a rec)
    (fun out c' => held c' = held c /\ staging out.2 c' /\ op_id out.2 = op_id rec /\
       forall b f st, out.1 = StageDone b f st -> Digest.validate_fingerprint f = Ok tt).
Proof.
  intros Hn Hst. unfold stage_block. apply wp_bind.
  eapply wp_mono; [by apply wp_stage_lock|].
  intros [[locked|e] rec1] c1 (Hh1&Hk1&Hst1&Hid1); simpl in *; [|done].
  split; [done|]. intros [before|e] _; simpl; [|done]. case_match; [done|].
  apply staging_lock in Hst1. pose proof Hst1 as (Hok&Hs&_).
  eapply (wp_stage_write (set_op_lock true rec1) _ _ c1); try done;
    [by rewrite Hs|by rewrite Hs|intros e c2 Hh2 _ _ Hst2; cbn; by rewrite Hh2|].
  intros c2 Hh2 Hcl2 Hk2 Hst2. specialize (Hst2 Hs).
  apply wp_ask; [intros id; congruence|]. cbn [next].
  intros [st|e] _; [|cbn; by rewrite Hh2].
  apply wp_ask; [done|]. cbn [next]. intros [after|e] Hf; [|cbn; by rewrite Hh2].
  cbn. rewrite Hh2. split_and!; try done. intros b f st' [= -> -> ->]. by apply Hf.
Qed.

Lemma wp_stage_settle rec ended c :
  staging rec c ->
  (forall b f st, ended = StageDone b f st -> Digest.validate_fingerprint f = Ok tt) ->
  wp cfg c (stage_settle rec ended) (fun _ c' => held c' = held c).
Proof.
  intros Hst Hf. pose proof Hst as (Hok&Hs&cur&Hk&Hcs&Hm). unfold stage_settle.
  destruct ended as [before after st|error [] locked].
  - assert (op_ok (set_op_current after rec)) as Hok'
      by (apply op_ok_progress with rec; try done; by eapply Hf).
    eapply wp_stage_write; [exact Hst|done..|op_ok_tac| |done].
    intros e c1 Hh1 _ _ Hst1. eapply wp_stage_write; [exact Hst1|done..|op_ok_tac| |].
    + intros e' c' Hh _ _ _. cbn. by rewrite Hh.
    + intros c' Hh _ _ _. cbn. by rewrite Hh.
  - eapply wp_stage_write; [exact Hst|done..|op_ok_tac|done|].
    intros c' Hh _ _ _. cbn. by rewrite Hh.
  - apply wp_bind.
    assert (wp cfg c (if locked : bool then let! u := ask Unlock in
              Ret (match u with Ok Released => true | _ => false end) else Ret true)
              (fun _ c' => c' = c)) as Hrel by (by destruct locked).
    eapply wp_mono; [exact Hrel|]. intros [] c' ->.
    + apply wp_ask; [simpl; eauto|]. done.
    + eapply wp_stage_write; [exact Hst|done..|op_ok_tac|done|].
      intros c' Hh _ _ _. cbn. by rewrite Hh.
Qed.

(** The canonical form of an accepted endpoint parses, as the reload of its
    record will require. *)
Definition canonical_parses : Prop :=
  forall e c, Apply.canonicalize_endpoint e = Ok c -> is_ok (url_parse c) = true.

Lemma operation_endpoint_apply e c :
  Operation.canonicalize_endpoint e = Ok c -> Apply.canonicalize_endpoint e = Ok c.
Proof.
  unfold Operation.canonicalize_endpoint, Apply.canonicalize_endpoint.
  rewrite ensure_Ok. intros [_ (u&->%map_err_Ok&Hu)%result_bind_Ok]. simpl.
  apply ensure_Ok in Hu as [Hs%bool_decide_eq_true Hu]. by rewrite Hs.
Qed.

Lemma wp_stage a c :
  canonical_parses -> sa_owner a <> "" -> sa_device a <> "" ->
  kind c = None -> held c = None ->
  wp cfg c (stage_operation a) (fun _ c => held c = None).
Proof.
  intros Hcan Ho Hd Hn Hc. unfold stage_operation. wp_step; [done|].
  apply wp_lift; [done|]. intros endpoint He.
  apply wp_guard; [done|]. apply wp_ask; [done|]. intros [] _; [done|].
  apply wp_new_id; [done|]. intros seed.
  apply wp_lift; [done|]. intros [] Hfp%map_err_Ok. apply wp_lift; [done|].
  intros actions Hact%collect_length. rewrite length_fmap in Hact.
  set (rec := stage_record _ _ _ _).
  assert (op_ok rec) as Hok.
  { apply validate_operation_record_Ok. cbn. split_and!; try done; [apply id_of_hex64| |].
    - by apply operation_endpoint_apply, Hcan in He.
    - intros ->. by destruct (sa_actions a). }
  apply wp_ask_ok; [cbn; set_solver|done|]. intros [] _.
  apply wp_bind. eapply wp_mono; [apply (wp_stage_block a rec)|].
  - done.
  - split; [done|]. split; [done|]. exists rec. cbn. rewrite lookup_insert_eq. done.
  - intros [ended rec1] c1 (Hh&Hst&_&Hf). cbn in Hh, Hst, Hf.
    eapply wp_mono; [by apply wp_stage_settle|]. intros _ c2 ->. by rewrite Hh.
Qed.

End conformance.
