(* ===== verification/ConformanceApply.v ===== *)
(** * [apply_change_set] keeps the protocol

    In particular the actions it stages are those of the plan whose claim it
    won, and that plan carries an approval the deployment accepts. *)

From S2P Require Import Prelude Externals Lifecycle Types Digest Trust Records Secret Persistence Reload Store StoreFacts Events World Changeset Apply Operation Protocol Conformance.

Section apply_conformance.
Context `{EX : Externals} `{XL : !ExternalsLaws EX} `{SC : StateCodec} `{DT : DeviceTypes}.
Variable cfg : Config.
Variable a : ApplyArgs.

(** An approved record this thread has read. *)
Definition plan_seen (r : ChangeSetRecord) (c : Ctx) : Prop :=
  seen c !! cs_id r = Some r /\ cs_id r = aa_change_set_id a /\ cs_device r = aa_device a /\
  cs_owner r = aa_owner a /\ cs_state r = Approved /\ cs_ok cfg r /\
  cs_digest r = aa_expected_digest a /\
  cs_expected_candidate_fingerprint r = aa_expected_fingerprint a.

Lemma evolves_approved r r' :
  cs_evolves r r' -> cs_state r = Approved ->
  check_approval cfg r = Ok tt -> check_approval cfg r' = Ok tt.
Proof.
  intros [(_&Ho&_) He] Hs. destruct He as (_&Ha&Har); [by rewrite Hs|].
  unfold check_approval. by rewrite Ha, Har, Ho.
Qed.

(** Retiring a record that was read past its deadline. *)
Lemma wp_expire_apply {A} r message c :
  cs_ok cfg r -> cs_state r = Approved -> seen c !! cs_id r = Some r ->
  wp cfg c (expire_apply (A := A) r message) (fun out c' => c' = c /\ forall x, out <> Ok x).
Proof.
  intros Hok Hs Hseen. unfold expire_apply.
  apply wp_ask_ok; [|by intros; split|by intros; split].
  split; [by apply cs_ok_state|]. exists r. split_and!; [done|congruence|].
  by apply cs_evolves_state.
Qed.

Lemma wp_precheck c :
  held c = None -> kind c = Some (aa_change_set_id a) ->
  wp cfg c (apply_precheck cfg a) (fun out c' =>
    held c' = None /\ kind c' = kind c /\
    forall endpoint, out = Ok endpoint ->
      Apply.canonicalize_endpoint (aa_endpoint a) = Ok endpoint /\
      Digest.validate_fingerprint (aa_expected_fingerprint a) = Ok tt /\
      exists r, plan_seen r c' /\ check_approval cfg r = Ok tt).
Proof.
  intros Hh Hk. unfold apply_precheck.
  apply wp_lift; [done|]. intros _ _. apply wp_lift; [done|]. intros [] Hfp%map_err_Ok.
  apply wp_lift; [done|]. intros endpoint He.
  apply wp_ask_ok; [done|done|]. intros r Hr. destruct (Hr r eq_refl) as (Hid&Hdev&Hok&_).
  cbn [next]. wp_step; [done|]. wp_step; [done|]. bools.
  apply wp_now; [done|]. intros t1. wp_step; [done|].
  apply wp_lift; [done|]. intros [] Hap. apply wp_now; [done|]. intros t2. wp_step.
  { eapply wp_mono; [apply wp_expire_apply; [done|done|]|].
    - cbn. rewrite Hid. apply lookup_insert_eq.
    - intros out c' [-> Hne]. split_and!; [done|done|]. intros ? ->. by destruct (Hne endpoint0). }
  wp_step; [done|]. bools. split_and!; [done|done|]. intros ? [= <-]. split_and!; try done.
  exists r. split; [|done]. unfold plan_seen. cbn. rewrite <-Hid, lookup_insert_eq.
  by split_and!.
Qed.

Lemma wp_recheck r0 c :
  held c = Some (aa_device a) -> plan_seen r0 c -> check_approval cfg r0 = Ok tt ->
  wp cfg c (apply_recheck a) (fun out c' =>
    held c' = held c /\ kind c' = kind c /\
    forall r before actions, out = Ok (r, before, actions) ->
      plan_seen r c' /\ check_approval cfg r = Ok tt /\
      before = aa_expected_fingerprint a /\
      parse_actions 0 (cs_actions r) = Ok actions).
Proof.
  intros Hh (Hs0&Hid0&_&_&Hst0&_) Hap. unfold apply_recheck.
  apply wp_ask; [done|]. intros [] _; [done|].
  apply wp_ask_ok; [done|done|]. intros r Hr. destruct (Hr r eq_refl) as (Hid&Hdev&Hok&Hev).
  cbn [next] in *. rewrite Hid0 in Hs0. specialize (Hev r0 Hs0).
  apply wp_now; [done|]. intros t. wp_step; [done|]. bools. wp_step; [done|]. wp_step.
  { eapply wp_mono; [apply wp_expire_apply; [done|done|]|].
    - cbn. rewrite Hid. apply lookup_insert_eq.
    - intros out c' [-> Hne]. split_and!; [done|done|]. intros ??? ->. by destruct (Hne (r1, before, actions)). }
  apply wp_ask; [done|]. intros before _. cbn [next].
  apply wp_lift; [done|]. intros before' _. wp_step; [done|]. bools. wp_step; [done|].
  apply wp_lift; [done|]. intros actions Hpa. split_and!; [done|done|].
  intros ??? [= <- <- <-]. split_and!; [|by eapply evolves_approved|done|done].
  unfold plan_seen. cbn. rewrite <-Hid, lookup_insert_eq. by split_and!.
Qed.

(** ** After the claim *)

(** The guard is held, the reservation is a staging record, and [r] is a
    version of a change set that has left [Planned]. *)
Definition applying (operation_id : string) (r : ChangeSetRecord) (c : Ctx) : Prop :=
  held c = Some (aa_device a) /\ kind c = Some (aa_change_set_id a) /\
  (exists cur, known c !! operation_id = Some cur /\ op_id cur = operation_id /\
     op_state cur = Staging /\ op_ok cur) /\
  (exists s, seen c !! cs_id r = Some s /\ cs_state s <> Planned /\ cs_evolves s r) /\
  cs_state r <> Planned /\ cs_ok cfg r.

(** The plan this thread may stage. *)
Definition claims (actions : list Action) (c : Ctx) : Prop :=
  exists r, claim c = Some r /\ cs_id r = aa_change_set_id a /\
    parse_actions 0 (cs_actions r) = Ok actions /\ check_approval cfg r = Ok tt.

(** Writing the change set in a later state, ignoring the outcome. *)
Lemma wp_settle {A} operation_id r s (k : result unit CoordinatorError -> prog A) c Φ :
  applying operation_id r c -> s <> Planned ->
  (forall x, wp cfg c (k x) Φ) ->
  wp cfg c (bind (ask (UpdateChangeSet (set_cs_state s r))) k) Φ.
Proof.
  intros (_&_&_&(s0&Hs0&Hn&Hev)&_&Hok) Hs Hk. apply wp_ask; [|intros x _; apply Hk].
  split; [by apply cs_ok_state|]. exists s0. split_and!; [done|done|].
  eapply cs_evolves_trans; [done|]. by apply cs_evolves_state.
Qed.

Lemma wp_abandon {A} operation_id r error c :
  applying operation_id r c ->
  wp cfg c (abandon (A := A) operation_id r error)
    (fun out c' => held c' = Some (aa_device a) /\ forall x, out <> Ok x).
Proof.
  intros (Hh&Hk&(cur&Hc&Hid&Hs&Hok)&(s0&Hs0&Hn&Hev)&_&Hcs). unfold abandon.
  apply wp_ask; [exists cur; done|]. intros [] _. cbn [next].
  apply wp_ask; [|by intros; split].
  split; [by apply cs_ok_state|]. exists s0. split_and!; [done|done|].
  eapply cs_evolves_trans; [done|]. by apply cs_evolves_state.
Qed.

(** The same for an update of the reservation. *)
Lemma applying_update operation_id r c rec :
  applying operation_id r c -> op_id rec = operation_id -> op_state rec = Staging -> op_ok rec ->
  applying operation_id r (set_known (<[operation_id := rec]>) c).
Proof.
  intros (Hh&Hk&_&Hseen&Hn&Hok) Hid Hs Hr. split_and!; try done.
  exists rec. cbn. rewrite lookup_insert_eq. by split_and!.
Qed.

(** Reading the reservation back gives the record the context knows. *)
Lemma wp_get_reservation {A} operation_id r (k : OperationRecord -> prog (result A CoordinatorError))
  c Φ :
  applying operation_id r c -> (forall e, Φ (Err e) c) ->
  (forall rec c', applying operation_id r c' -> claim c' = claim c ->
     known c' !! operation_id = Some rec -> op_id rec = operation_id -> op_state rec = Staging ->
     op_ok rec -> wp cfg c' (k rec) Φ) ->
  wp cfg c (bind_ok (ask (GetRecord operation_id (aa_owner a) (aa_device a))) k) Φ.
Proof.
  intros Hap He Hk. pose proof Hap as (Hh&_&(cur&Hc&Hid&Hs&Hok)&_).
  apply wp_ask_ok; [done|intros; apply He|]. intros rec Hr.
  destruct (Hr rec eq_refl) as (_&_&_&_&Hcur). rewrite (Hcur cur Hc). cbn [next].
  rewrite decide_True by done. apply Hk; try done; [by apply applying_update|].
  apply lookup_insert_eq.
Qed.

Lemma wp_apply_lock operation_id r actions c :
  applying operation_id r c -> claims actions c ->
  wp cfg c (apply_lock a operation_id r) (fun out c' =>
    held c' = Some (aa_device a) /\
    forall l, out = Ok l -> applying operation_id r c' /\ claims actions c').
Proof.
  intros Hap Hcl. unfold apply_lock. pose proof Hap as (Hh&_).
  eapply wp_get_reservation; [done|done|]. intros rec c1 Hap1 Hcl1 Hk1 Hid Hs Hok.
  assert (claims actions c1) as Hcl2 by (unfold claims; by rewrite Hcl1).
  apply wp_ask.
  { split; [op_ok_tac|]. exists rec. split; [cbn; by rewrite Hid|]. by op_move_tac. }
  intros [[]|error] _; cbn [next].
  2:{ eapply wp_mono; [by apply wp_abandon|]. naive_solver. }
  assert (applying operation_id r (set_known (<[op_id (set_op_lock true rec) :=
            set_op_lock true rec]>) c1)) as Hap3.
  { cbn. rewrite Hid. apply applying_update; try done. }
  pose proof Hap3 as (Hh3&_).
  destruct (aa_requires_config_lock a); [|split; [done|]; naive_solver].
  apply wp_ask; [done|]. intros [[]|error] _; cbn [next]; [split; [done|]; naive_solver|].
  eapply wp_mono; [by apply wp_abandon|]. naive_solver.
Qed.

Lemma wp_apply_stage operation_id r lock actions c :
  applying operation_id r c -> claims actions c ->
  wp cfg c (apply_stage a operation_id r lock actions) (fun out c' =>
    held c' = Some (aa_device a) /\
    forall st, out = Ok st -> applying operation_id r c').
Proof.
  intros Hap Hcl. unfold apply_stage. pose proof Hap as (Hh&Hkind&(cur&Hc&Hid&Hs&Hok)&_).
  assert (forall error, wp cfg c (do! release_if lock; abandon (A := StagedHandle) operation_id r error)
    (fun out c' => held c' = Some (aa_device a) /\ forall st, out = Ok st -> applying operation_id r c'))
    as Hab.
  { intros error. apply wp_bind. apply wp_mono with (fun _ c' => c' = c); [by destruct lock|].
    intros _ c' ->. eapply wp_mono; [by apply wp_abandon|]. naive_solver. }
  apply wp_ask; [done|]. intros [fp|e] _; cbn [next]; [|apply Hab].
  wp_step; [apply Hab|].
  apply wp_ask.
  { intros id Hid'. assert (id = aa_change_set_id a) as -> by congruence. exact Hcl. }
  intros [st|error] _; cbn [next]; [split; [done|by intros]|].
  eapply (wp_settle operation_id); [done|done|]. intros x.
  apply wp_ask; [exists cur; done|]. intros [] _. apply wp_lift; [done|].
  intros [] _. apply wp_ask; done.
Qed.

Lemma wp_apply_after operation_id r c :
  applying operation_id r c ->
  wp cfg c (apply_after_stage a operation_id r) (fun out c' =>
    held c' = Some (aa_device a) /\
    forall fp, out = Ok fp -> applying operation_id r c' /\ Digest.validate_fingerprint fp = Ok tt).
Proof.
  intros Hap. unfold apply_after_stage. pose proof Hap as (Hh&_).
  apply wp_ask; [done|]. intros [fp|e] Hf; cbn [next].
  { split; [done|]. intros ? [= <-]. split; [done|by apply Hf]. }
  apply wp_ask; [done|]. intros hash _. cbn [next].
  eapply wp_get_reservation; [done|done|]. intros rec c1 Hap1 _ Hk1 Hid Hs Hok.
  pose proof Hap1 as (Hh1&_).
  apply wp_ask_ok; [|done|].
  { split; [op_ok_tac|]. exists rec. split; [cbn; by rewrite Hid|]. by op_move_tac. }
  intros [] _. cbn [next]. destruct Hap1 as (_&_&_&(s0&Hs0&Hn&Hev)&_&Hcs).
  apply wp_ask; [|done]. split; [by apply cs_ok_state|]. exists s0. split_and!; [done|done|].
  eapply cs_evolves_trans; [done|]. by apply cs_evolves_state.
Qed.

Lemma wp_apply_finish operation_id r before after st n c :
  applying operation_id r c -> Digest.validate_fingerprint after = Ok tt ->
  wp cfg c (apply_finish a operation_id r before after st n)
    (fun _ c' => held c' = Some (aa_device a)).
Proof.
  intros Hap Hf. unfold apply_finish. pose proof Hap as (Hh&_).
  eapply wp_get_reservation; [done|done|]. intros rec c1 Hap1 _ Hk1 Hid Hs Hok.
  assert (op_ok (set_op_current after rec)) as Hok' by (by apply op_ok_progress with rec).
  pose proof Hap1 as (Hh1&_&_&(s0&Hs0&Hn&Hev)&_&Hcs).
  assert (forall c', held c' = held c1 -> seen c' = seen c1 ->
    wp cfg c' (let! applied := ask (UpdateChangeSet (set_cs_state Applied r)) in
      Ret (Ok {| ao_operation_id := operation_id; ao_before_fingerprint := before;
        ao_after_fingerprint := after; ao_staged := st;
        ao_recorded_state := match applied with Ok _ => Applied | Err _ => Applying end |}))
      (fun (_ : result ApplyOutput CoordinatorError) c' => held c' = Some (aa_device a))) as Hfin.
  { intros c' Hh' Hs'. apply wp_ask; [|intros; cbn; by rewrite Hh'].
    split; [by apply cs_ok_state|]. exists s0. rewrite Hs'. split_and!; [done|done|].
    eapply cs_evolves_trans; [done|]. by apply cs_evolves_state. }
  apply wp_ask.
  { split; [op_ok_tac|]. exists rec. split; [cbn; by rewrite Hid|]. by op_move_tac. }
  intros [[]|e] _; cbn [next]; apply wp_bind; [by apply Hfin|].
  apply wp_ask.
  { split; [op_ok_tac|]. exists rec. split; [cbn; by rewrite Hid|]. by op_move_tac. }
  intros [[]|e'] _; cbn [next]; by apply Hfin.
Qed.

(** The reservation, and the claim that makes the plan this thread's. *)
Lemma wp_reserve endpoint r before actions c :
  held c = Some (aa_device a) -> kind c = Some (aa_change_set_id a) ->
  plan_seen r c -> check_approval cfg r = Ok tt ->
  is_ok (url_parse endpoint) = true -> Digest.validate_fingerprint before = Ok tt ->
  parse_actions 0 (cs_actions r) = Ok actions ->
  wp cfg c (apply_reserve a endpoint r before (length actions)) (fun out c' =>
    held c' = Some (aa_device a) /\
    forall operation_id r', out = Ok (operation_id, r') ->
      applying operation_id r' c' /\ claims actions c').
Proof.
  intros Hh Hk (Hseen&Hid&Hdev&Hown&Hst&Hok&_&_) Hap Hurl Hfp Hpa. unfold apply_reserve.
  apply wp_new_id; [done|]. intros seed. set (rec := apply_operation_record _ _ _ _ _ _).
  assert (op_ok rec) as Hrec.
  { apply validate_record_Ok in Hok as [(_&_&Ho&Hd&_&_&Hne&_)%validate_plan_Ok _].
    apply validate_operation_record_Ok. cbn. rewrite <-Hown, <-Hdev.
    split_and!; try done. apply id_of_hex64. }
  apply wp_ask_ok; [cbn; set_solver|done|]. intros [] _. set (c1 := next _ _ _).
  assert (known c1 !! id_of seed = Some rec) as Hkn by apply lookup_insert_eq.
  apply wp_ask; [cbn; congruence|]. intros [rc|error] Hrc; cbn [next].
  2:{ apply wp_ask; [by exists rec|]. by intros [] _. }
  destruct (Hrc rc eq_refl) as (Hrid&Hrst&Hrok&Hrev). specialize (Hrev r Hseen).
  assert (check_approval cfg rc = Ok tt) as Hrap by (by eapply evolves_approved).
  assert (cs_evolves rc (set_cs_operation_id (Some (id_of seed)) rc)) as Hev by (by repeat split).
  apply wp_ask.
  { split; [by apply cs_ok_operation_id|]. exists rc. cbn. rewrite Hrid, lookup_insert_eq.
    split_and!; [done|congruence|done]. }
  intros [[]|error] _; cbn [next].
  2:{ apply wp_ask; [by exists rec|]. by intros [] _. }
  split; [done|]. intros ? ? [= <- <-]. split.
  - split_and!; try done; [by exists rec| |cbn; congruence].
    exists rc. cbn. rewrite Hrid, lookup_insert_eq. split_and!; [done|congruence|done].
  - exists rc. split_and!; try done; [congruence|]. destruct Hrev as [(_&_&_&_&->&_) _]. done.
Qed.

Lemma wp_apply c :
  canonical_parses -> held c = None -> kind c = Some (aa_change_set_id a) ->
  wp cfg c (apply_change_set cfg a) (fun _ c' => held c' = None).
Proof.
  intros Hcan Hh Hk. unfold apply_change_set.
  eapply wp_try; [by apply wp_precheck|naive_solver|].
  intros endpoint c1 (Hh1&Hk1&Hok1). destruct (Hok1 endpoint eq_refl) as (He&Hfp&r0&Hseen&Hap).
  apply wp_guard; [done|].
  eapply wp_try; [by apply (wp_recheck r0)|naive_solver|].
  intros [[r before] actions] c2 (Hh2&Hk2&Hok2).
  destruct (Hok2 r before actions eq_refl) as (Hseen2&Hap2&->&Hpa). cbn in Hh2, Hk2.
  eapply wp_try; [apply wp_reserve; try done; [congruence|by eapply Hcan]|naive_solver|].
  intros [operation_id r'] c3 (Hh3&Hok3). destruct (Hok3 _ _ eq_refl) as [Ha3 Hc3].
  eapply wp_try; [by apply wp_apply_lock|naive_solver|].
  intros lock c4 (Hh4&Hok4). destruct (Hok4 _ eq_refl) as [Ha4 Hc4].
  eapply wp_try; [by apply wp_apply_stage|naive_solver|].
  intros st c5 (Hh5&Hok5). specialize (Hok5 _ eq_refl).
  eapply wp_try; [by apply wp_apply_after|naive_solver|].
  intros after c6 (Hh6&Hok6). destruct (Hok6 _ eq_refl) as [Ha6 Hf6].
  by apply wp_apply_finish.
Qed.

End apply_conformance.
