(* ===== verification/Soundness.v ===== *)
(** * The world keeps its side of the protocol

    If every thread keeps the protocol of Protocol.v, then in every
    interleaving the assumptions it lets them make are true.  [world_ok] is
    the invariant of the store, [thread_ok] what a thread's context says about
    the world, and [step_ok] the step that preserves both. *)

From S2P Require Import Prelude Externals Lifecycle Types Digest Trust Records Secret Persistence Reload Store StoreFacts Events World Changeset Apply Operation Protocol Conformance.

(** A later version of a record in the store: it evolved, and an approval that
    was spent stays spent. *)
Definition cs_later (r r' : ChangeSetRecord) : Prop :=
  cs_evolves r r' /\
  (approval_spent (cs_state r) = true -> approval_spent (cs_state r') = true).

(** One step in the life of an operation identifier. *)
Inductive op_step : option OperationRecord -> option OperationRecord -> Prop :=
| op_same o : op_step o o
| op_reserved r : op_state r = Staging -> op_step None (Some r)
| op_moved r r' : op_move r r' -> op_step (Some r) (Some r')
| op_evicted r : terminal (op_state r) = true -> op_step (Some r) None
| op_dropped r : op_state r = Staging -> op_step (Some r) None.

Section soundness.
Context `{EX : Externals} `{SC : StateCodec} `{DT : DeviceTypes}.
Variable cfg : Config.

Local Abbreviation ops w := (operations (mem (w_store w))).
Local Abbreviation css w := (change_sets (mem (w_store w))).

(** [B] is the set of identifiers that have ever been used. *)
Record world_ok (B : gset string) (w : World) : Prop := {
  wo_ops : forall k r, ops w !! k = Some r -> validate_operation_record k r = Ok tt;
  wo_css : forall k r, css w !! k = Some r ->
    validate_change_set_record 7 (approval_digest_key cfg) k r = Ok tt;
  wo_ops_size : (N.of_nat (size (ops w)) <= MAX_OPERATIONS)%N;
  wo_css_size : (N.of_nat (size (css w)) <= MAX_CHANGE_SETS)%N;
  wo_ops_born : forall k, is_Some (ops w !! k) -> k ∈ B;
  wo_css_born : forall k, is_Some (css w !! k) -> k ∈ B;
}.

Record thread_ok (B : gset string) (w : World) (tid : nat) (c : Ctx) : Prop := {
  to_held : forall d, held c = Some d -> w_guards w !! d = Some tid;
  to_known : forall id r, known c !! id = Some r ->
    id ∈ B /\ held c = Some (op_device r) /\
    (ops w !! id = Some r \/ (terminal (op_state r) = true /\ ops w !! id = None));
  to_seen : forall id s, seen c !! id = Some s ->
    id ∈ B /\ forall r, css w !! id = Some r -> cs_evolves s r;
  to_fresh : fresh c ## B;
}.

(** What one thread's step leaves of the operations, for a thread holding
    another device, and of the change sets, for every thread. *)
Definition ops_rely (B : gset string) (h x : option string)
  (m m' : gmap string OperationRecord) : Prop :=
  forall id, m' !! id = m !! id \/
    (exists r, m !! id = Some r /\ terminal (op_state r) = true /\ m' !! id = None) \/
    (x = Some id /\
     (forall r, m !! id = Some r -> h = Some (op_device r)) /\ (m !! id = None -> id ∉ B)).

Definition css_rely (B : gset string) (m m' : gmap string ChangeSetRecord) : Prop :=
  forall id r', id ∈ B -> m' !! id = Some r' -> exists r, m !! id = Some r /\ cs_later r r'.

(** ** Records *)

Lemma cs_later_refl r : cs_later r r.
Proof. split; [apply cs_evolves_refl|done]. Qed.

Lemma valid_cs_id v key k r : validate_change_set_record v key k r = Ok tt -> cs_id r = k.
Proof. intros (Hp&_)%validate_record_Ok. by apply validate_plan_Ok in Hp as (_&?&_). Qed.

Lemma valid_op_id k r : validate_operation_record k r = Ok tt -> op_id r = k.
Proof. by intros (_&?&_)%validate_operation_record_Ok. Qed.

Lemma normalise_evolves r : cs_evolves r (normalise r).
Proof.
  unfold normalise, normalise_apply_marker, normalise_task_handle.
  repeat case_match; by repeat split.
Qed.

Lemma normalise_valid v key k r :
  validate_change_set_record v key k (normalise r) = validate_change_set_record v key k r.
Proof.
  unfold normalise, normalise_apply_marker, normalise_task_handle. by repeat case_match.
Qed.

Lemma retire_later now r : cs_later r (retire now r).
Proof.
  unfold retire. destruct (must_retire now r); [|apply cs_later_refl].
  split; [|done]. by apply cs_evolves_state.
Qed.

Lemma retire_valid v key k now r :
  validate_change_set_record v key k (retire now r) = validate_change_set_record v key k r.
Proof. unfold retire. by case_match. Qed.

Lemma swept_lookup now (m : gmap string ChangeSetRecord) k r :
  swept cfg now m !! k = Some r -> exists r0, m !! k = Some r0 /\ r = retire now r0.
Proof.
  unfold swept. intros Hk.
  assert ((retire now <$> m) !! k = Some r) as Hr.
  { case_match; [|done]. by apply map_lookup_filter_Some in Hk as [? _]. }
  rewrite lookup_fmap in Hr. by apply fmap_Some in Hr as (r0&?&->); eauto.
Qed.

Lemma swept_size now m : (size (swept cfg now m) <= size m)%nat.
Proof.
  unfold swept. case_match; [|by rewrite map_size_fmap].
  etrans; [apply map_size_filter|]. by rewrite map_size_fmap.
Qed.

(** Two versions of what a thread saw: the later write evolves the current. *)
Lemma evolves_merge s cur r :
  cs_evolves s cur -> cs_evolves s r ->
  (cs_state s <> Planned \/ cs_state cur = cs_state s) -> cs_evolves cur r.
Proof.
  intros [(?&?&?&?&?&?&?&?&?&?) Hc] [(?&?&?&?&?&?&?&?&?&?) Hr] Hs. split.
  - unfold same_plan. split_and!; congruence.
  - intros Hn. assert (cs_state s <> Planned) as Hs' by (destruct Hs; congruence).
    destruct (Hc Hs') as (_&?&?), (Hr Hs') as (?&?&?). split_and!; congruence.
Qed.

(** ** One step of the store *)

(** What a step does to the store, when the thread holds the guard of [h] and
    writes the operation [x]. *)
Record moved (B B' : gset string) (h x : option string) (w w' : World) : Prop := {
  mv_world : world_ok B' w';
  mv_born : B ⊆ B';
  mv_guards : w_guards w' = w_guards w;
  mv_ops : forall id, op_step (ops w !! id) (ops w' !! id);
  mv_ops_rely : ops_rely B h x (ops w) (ops w');
  mv_css_rely : css_rely B (css w) (css w');
}.

Hypothesis limit_ops : (max_operations (limits cfg) <= MAX_OPERATIONS)%N.
Hypothesis limit_css : (max_change_sets (limits cfg) <= MAX_CHANGE_SETS)%N.

Lemma css_rely_refl B m : css_rely B m m.
Proof. intros id r _ Hr. exists r. split; [done|apply cs_later_refl]. Qed.

Lemma world_ok_grow B B' w : B ⊆ B' -> world_ok B w -> world_ok B' w.
Proof. intros HB [? ? ? ? Ho Hc]. split; eauto. Qed.

Lemma moved_refl B h x w : world_ok B w -> moved B B h x w w.
Proof. intros Hw. split; try done; [constructor|by left|apply css_rely_refl]. Qed.

Lemma world_keyed B w : world_ok B w -> well_keyed (css w).
Proof. intros Hw k r Hr. by eapply valid_cs_id, wo_css. Qed.

(** A step that only touches the change sets. *)
Lemma css_moved B B' h x w out :
  world_ok B w -> B ⊆ B' ->
  operations (mem out) = ops w ->
  (forall k r, change_sets (mem out) !! k = Some r ->
     validate_change_set_record 7 (approval_digest_key cfg) k r = Ok tt /\ k ∈ B') ->
  (N.of_nat (size (change_sets (mem out))) <= MAX_CHANGE_SETS)%N ->
  css_rely B (css w) (change_sets (mem out)) ->
  moved B B' h x w {| w_store := out; w_guards := w_guards w |}.
Proof.
  intros [Ho Hc Hso Hsc Hbo Hbc] HB Eo Hk Hs Hr.
  split; simpl; try done; rewrite ?Eo; [split; simpl; rewrite ?Eo; eauto|constructor|by left].
  - intros k r Hkr. by apply (Hk k r).
  - intros k [r Hkr]. by apply (Hk k r).
Qed.

(** A step that only touches the operations. *)
Lemma ops_moved B B' h x w out :
  world_ok B w -> B ⊆ B' ->
  change_sets (mem out) = css w ->
  (forall k r, operations (mem out) !! k = Some r ->
     validate_operation_record k r = Ok tt /\ k ∈ B') ->
  (N.of_nat (size (operations (mem out))) <= MAX_OPERATIONS)%N ->
  (forall id, op_step (ops w !! id) (operations (mem out) !! id)) ->
  ops_rely B h x (ops w) (operations (mem out)) ->
  moved B B' h x w {| w_store := out; w_guards := w_guards w |}.
Proof.
  intros [Ho Hc Hso Hsc Hbo Hbc] HB Ec Hk Hs Hst Hr.
  split; simpl; try done; rewrite ?Ec; [split; simpl; rewrite ?Ec; eauto|apply css_rely_refl].
  - intros k r Hkr. by apply (Hk k r).
  - intros k [r Hkr]. by apply (Hk k r).
Qed.

(** A step that leaves the memory as it was. *)
Lemma mem_moved B h x w out :
  world_ok B w -> mem out = mem (w_store w) ->
  moved B B h x w {| w_store := out; w_guards := w_guards w |}.
Proof.
  intros Hw Hm. apply ops_moved; [done|done|by rewrite Hm|..]; rewrite Hm.
  - intros k e Hke. split; [by eapply wo_ops|]. apply (wo_ops_born _ _ Hw). eauto.
  - by eapply wo_ops_size.
  - constructor.
  - by left.
Qed.

(** Making room only evicts terminal operations. *)
Lemma op_room_lookup m k :
  op_room cfg m !! k = m !! k \/
  exists r, m !! k = Some r /\ terminal (op_state r) = true /\ op_room cfg m !! k = None.
Proof.
  unfold op_room. case_match; [|by left].
  destruct (m !! k) as [r|] eqn:E; [|left; apply map_lookup_filter_None; auto].
  destruct (terminal (op_state r)) eqn:Et.
  - right. exists r. split_and!; [done..|]. apply map_lookup_filter_None. right.
    intros r' Hr'. rewrite E in Hr'. injection Hr' as <-. simpl. congruence.
  - left. by apply map_lookup_filter_Some.
Qed.

Lemma op_room_size m : (size (op_room cfg m) <= size m)%nat.
Proof. unfold op_room. case_match; [apply map_size_filter|done]. Qed.

Lemma op_room_step m k : op_step (m !! k) (op_room cfg m !! k).
Proof. destruct (op_room_lookup m k) as [->|(r&->&?&->)]; by constructor. Qed.

Lemma insert_moved B c w fate r :
  world_ok B w -> fresh c ## B -> pre cfg c (Insert r) ->
  moved B ({[ op_id r ]} ∪ B) (held c) (Some (op_id r)) w
    {| w_store := (insert cfg fate r (w_store w)).2; w_guards := w_guards w |}.
Proof.
  intros Hw Hf (Hh&Hst&Hin&Hok).
  assert (op_id r ∉ B) as HnB by set_solver.
  assert (ops w !! op_id r = None) as HN.
  { apply eq_None_not_Some. intros ?. by apply HnB, (wo_ops_born _ _ Hw). }
  assert (op_room cfg (ops w) !! op_id r = None) as HN'.
  { destruct (op_room_lookup (ops w) (op_id r)) as [->|(?&?&_)]; [done|congruence]. }
  destruct (insert_cases cfg fate r (w_store w)) as [Ec Hcase].
  assert (forall k e, op_room cfg (ops w) !! k = Some e ->
    validate_operation_record k e = Ok tt /\ k ∈ {[op_id r]} ∪ B) as Hroom.
  { intros k e He. destruct (op_room_lookup (ops w) k) as [Hk|(?&_&_&?)]; [|congruence].
    rewrite Hk in He. split; [by eapply wo_ops|]. apply elem_of_union_r, (wo_ops_born _ _ Hw). eauto. }
  destruct Hcase as [(_&[Hsz _ Hm])|(e&_&Hm)].
  - apply ops_moved; [done|set_solver|done|..]; rewrite Hm.
    + intros k e. rewrite lookup_insert_Some. intros [[<- <-]|[_ ?]]; [|auto].
      split; [done|set_solver].
    + rewrite map_size_insert_None by done. lia.
    + intros k. destruct (decide (op_id r = k)) as [<-|Hne].
      * rewrite lookup_insert_eq, HN. by constructor.
      * rewrite lookup_insert_ne by done. apply op_room_step.
    + intros k. destruct (decide (op_id r = k)) as [<-|Hne].
      * right; right. rewrite HN. split_and!; [done..|]. by intros.
      * rewrite lookup_insert_ne by done. destruct (op_room_lookup (ops w) k); auto.
  - assert (operations (mem (insert cfg fate r (w_store w)).2) = op_room cfg (ops w)) as Hm'.
    { destruct Hm as [->| ->]; [done|]. by apply delete_id. }
    apply ops_moved; [done|set_solver|done|..]; rewrite Hm'.
    + auto.
    + pose proof (op_room_size (ops w)). pose proof (wo_ops_size _ _ Hw). lia.
    + intros. apply op_room_step.
    + intros k. destruct (op_room_lookup (ops w) k); auto.
Qed.

(** A live record a thread knows is the one in the store. *)
Lemma known_live B w tid c id cur :
  thread_ok B w tid c -> known c !! id = Some cur -> terminal (op_state cur) = false ->
  ops w !! id = Some cur /\ held c = Some (op_device cur).
Proof.
  intros Ht Hk Hl. destruct (to_known _ _ _ _ Ht id cur Hk) as (_&?&[?|[? _]]); [done|congruence].
Qed.

Lemma op_move_live r r' : op_move r r' -> terminal (op_state r) = false.
Proof. intros (_&_&_&_&_&_&_&He&_). by destruct (op_state r). Qed.

Lemma update_moved B c w tid fate r :
  world_ok B w -> thread_ok B w tid c -> pre cfg c (Update r) ->
  moved B B (held c) (Some (op_id r)) w {| w_store := (update cfg fate r (w_store w)).2; w_guards := w_guards w |}.
Proof.
  intros Hw Ht (Hok&cur&Hk&Hmv). pose proof (op_move_live _ _ Hmv) as Hl.
  destruct (known_live _ _ _ _ _ _ Ht Hk Hl) as [Hcur Hh].
  destruct (update_cases cfg fate r (w_store w)) as [Ec [(_&Hm)|(e&_&Hm)]];
    [|by apply mem_moved].
  apply ops_moved; [done|done|done|..]; rewrite Hm.
  - intros k e. rewrite lookup_insert_Some. intros [[<- <-]|[_ Hke]].
    + split; [done|]. apply (wo_ops_born _ _ Hw). eauto.
    + split; [by eapply wo_ops|]. apply (wo_ops_born _ _ Hw). eauto.
  - rewrite map_size_insert_Some by eauto. by eapply wo_ops_size.
  - intros k. destruct (decide (op_id r = k)) as [<-|Hne].
    + rewrite lookup_insert_eq, Hcur. by constructor.
    + rewrite lookup_insert_ne by done. constructor.
  - intros k. destruct (decide (op_id r = k)) as [<-|Hne].
    + right; right. rewrite Hcur. split_and!; [done|naive_solver|done].
    + rewrite lookup_insert_ne by done. by left.
Qed.

Lemma remove_moved B c w tid fate id :
  world_ok B w -> thread_ok B w tid c -> pre cfg c (Remove id) ->
  moved B B (held c) (Some id) w {| w_store := remove cfg fate id (w_store w); w_guards := w_guards w |}.
Proof.
  intros Hw Ht (cur&Hk&Hst).
  destruct (known_live _ _ _ _ _ _ Ht Hk) as [Hcur Hh]; [by rewrite Hst|].
  apply ops_moved; [done|done|..]; rewrite remove_mem; simpl; [done|..].
  - intros k e. rewrite lookup_delete_Some. intros [_ Hke].
    split; [by eapply wo_ops|]. apply (wo_ops_born _ _ Hw). eauto.
  - pose proof (map_size_delete id (ops w)) as Hd. rewrite Hcur in Hd.
    pose proof (wo_ops_size _ _ Hw). lia.
  - intros k. destruct (decide (id = k)) as [<-|Hne].
    + rewrite lookup_delete_eq, Hcur. by constructor.
    + rewrite lookup_delete_ne by done. constructor.
  - intros k. destruct (decide (id = k)) as [<-|Hne].
    + right; right. rewrite Hcur. split_and!; [done|naive_solver|done].
    + rewrite lookup_delete_ne by done. by left.
Qed.

(** Replacing one change set by a later version of itself. *)
Lemma css_insert_moved B h x w out id cur r :
  world_ok B w -> operations (mem out) = ops w ->
  change_sets (mem out) = <[id := r]> (css w) ->
  css w !! id = Some cur -> cs_later cur r ->
  validate_change_set_record 7 (approval_digest_key cfg) id r = Ok tt ->
  moved B B h x w {| w_store := out; w_guards := w_guards w |}.
Proof.
  intros Hw Eo Ec Hcur Hl Hv. apply css_moved; [done|done|done|..]; rewrite Ec.
  - intros k e. rewrite lookup_insert_Some. intros [[<- <-]|[_ Hke]].
    + split; [done|]. apply (wo_css_born _ _ Hw). eauto.
    + split; [by eapply wo_css|]. apply (wo_css_born _ _ Hw). eauto.
  - rewrite map_size_insert_Some by eauto. by eapply wo_css_size.
  - intros k e _. rewrite lookup_insert_Some. intros [[<- <-]|[_ Hke]]; [eauto|].
    exists e. split; [done|apply cs_later_refl].
Qed.

Lemma claimed_later handle r : cs_state r = Approved -> cs_later r (claimed handle r).
Proof. intros E. split; [|done]. by split. Qed.

Lemma claimed_valid v key k handle r :
  validate_change_set_record v key k (claimed handle r) = validate_change_set_record v key k r.
Proof. done. Qed.

Lemma claim_moved B h x w fate id device handle :
  world_ok B w ->
  moved B B h x w {| w_store := (claim_change_set_for_apply cfg fate id device handle (w_store w)).2;
                   w_guards := w_guards w |}.
Proof.
  intros Hw.
  destruct (claim_cases cfg fate id device handle (w_store w))
    as [(cur&Hcur&Hs&_&_&Hm&_)|(e&->)]; [|by destruct w; apply moved_refl].
  eapply css_insert_moved; [done| | |done|by apply claimed_later|]; [by rewrite Hm..|].
  rewrite claimed_valid. by eapply wo_css.
Qed.

Lemma write_later cur r :
  cs_evolves cur r -> check_change_set_write (Some cur) (normalise r) ViaUpdate = Ok tt ->
  cs_later cur (normalise r).
Proof.
  intros He (_&_&_&_&_&_&Hs&_)%check_write_Ok. split.
  - eapply cs_evolves_trans; [done|apply normalise_evolves].
  - by apply table_keeps_spent.
Qed.

Lemma update_cs_moved B c h x w tid fate r :
  world_ok B w -> thread_ok B w tid c -> pre cfg c (UpdateChangeSet r) ->
  moved B B h x w {| w_store := (update_change_set cfg fate r (w_store w)).2;
                   w_guards := w_guards w |}.
Proof.
  intros Hw Ht (Hok&s&Hs&Hn&He).
  destruct (write_change_set_cases cfg fate r (w_store w))
    as [(cur&Hcur&Hck&_&Hm)|(e&_&Hm)]; fold (update_change_set cfg fate r (w_store w)) in *.
  - pose proof (proj2 (to_seen _ _ _ _ Ht _ _ Hs) _ Hcur) as Hev.
    eapply css_insert_moved; [done| | |exact Hcur|apply (write_later cur r);
      [by eapply evolves_merge; eauto|done]|]; [by rewrite Hm..|].
    by rewrite normalise_valid.
  - by apply mem_moved.
Qed.

Lemma update_from_moved B c h x w tid fate o r :
  world_ok B w -> thread_ok B w tid c -> pre cfg c (UpdateChangeSetFrom o r) ->
  moved B B h x w {| w_store := (update_change_set_from cfg fate o r (w_store w)).2;
                   w_guards := w_guards w |}.
Proof.
  intros Hw Ht (Hok&s&Hs&Ho&He).
  destruct (update_change_set_from_cases cfg fate o r (w_store w))
    as [(cur&Hcur&Hst&Hck&_&Hm)|(e&_&Hm)].
  - pose proof (proj2 (to_seen _ _ _ _ Ht _ _ Hs) _ Hcur) as Hev.
    eapply css_insert_moved; [done| | |exact Hcur|apply (write_later cur r);
      [eapply evolves_merge; [done..|right; congruence]|done]|]; [by rewrite Hm..|].
    by rewrite normalise_valid.
  - by apply mem_moved.
Qed.

(** What a sweep leaves are retired versions of what was there. *)
Definition sweeps (t : N) (m m' : gmap string ChangeSetRecord) : Prop :=
  (size m' <= size m)%nat /\
  forall k r, m' !! k = Some r -> exists r0, m !! k = Some r0 /\ r = retire t r0.

Lemma swept_sweeps t m : sweeps t m (swept cfg t m).
Proof. split; [apply swept_size|apply swept_lookup]. Qed.

Lemma retire_sweeps t m : sweeps t m (retire t <$> m).
Proof.
  split; [by rewrite map_size_fmap|]. intros k r. rewrite lookup_fmap.
  intros (r0&?&->)%fmap_Some. eauto.
Qed.

Lemma sweeps_valid B w t m' k r :
  world_ok B w -> sweeps t (css w) m' -> m' !! k = Some r ->
  validate_change_set_record 7 (approval_digest_key cfg) k r = Ok tt /\ k ∈ B.
Proof.
  intros Hw [_ Hs] Hk. apply Hs in Hk as (r0&Hr&->). rewrite retire_valid.
  split; [by eapply wo_css|]. apply (wo_css_born _ _ Hw). eauto.
Qed.

Lemma sweeps_rely B t m m' : sweeps t m m' -> css_rely B m m'.
Proof.
  intros [_ Hs] k r _ Hk. apply Hs in Hk as (r0&?&->). exists r0. split; [done|apply retire_later].
Qed.

Lemma sweep_moved B B' h x w out t :
  world_ok B w -> B ⊆ B' -> operations (mem out) = ops w ->
  sweeps t (css w) (change_sets (mem out)) ->
  moved B B' h x w {| w_store := out; w_guards := w_guards w |}.
Proof.
  intros Hw HB Eo Hs. apply css_moved; [done..| | |].
  - intros k r Hk. destruct (sweeps_valid _ _ _ _ _ _ Hw Hs Hk). set_solver.
  - destruct Hs as [Hs _]. pose proof (wo_css_size _ _ Hw). lia.
  - by eapply sweeps_rely.
Qed.

Lemma created_moved B c h x w out t r :
  world_ok B w -> fresh c ## B -> cs_id r ∈ fresh c -> cs_ok cfg r ->
  operations (mem out) = ops w -> css w !! cs_id r = None ->
  (N.of_nat (size (swept cfg t (css w))) < max_change_sets (limits cfg))%N ->
  change_sets (mem out) = <[cs_id r := normalise r]> (swept cfg t (css w)) ->
  moved B ({[ cs_id r ]} ∪ B) h x w {| w_store := out; w_guards := w_guards w |}.
Proof.
  intros Hw Hf Hin Hok Eo Hfr Hsz Hm. pose proof (swept_sweeps t (css w)) as Hs.
  assert (swept cfg t (css w) !! cs_id r = None) as HN.
  { apply eq_None_not_Some. intros [y Hy]. apply (proj2 Hs) in Hy as (?&?&_). congruence. }
  apply css_moved; [done|set_solver|done|..]; rewrite Hm.
  - intros k y. rewrite lookup_insert_Some. intros [[<- <-]|[_ Hk]].
    + rewrite normalise_valid. split; [done|set_solver].
    + destruct (sweeps_valid _ _ _ _ _ _ Hw Hs Hk). set_solver.
  - rewrite map_size_insert_None by done. lia.
  - intros k y Hb. rewrite lookup_insert_Some. intros [[<- _]|[_ Hk]]; [set_solver|].
    by eapply sweeps_rely.
Qed.

Lemma insert_cs_moved B c h x w now fate1 fate2 r :
  world_ok B w -> fresh c ## B -> pre cfg c (InsertChangeSet r) ->
  moved B ({[ cs_id r ]} ∪ B) h x w
    {| w_store := (insert_change_set cfg now fate1 fate2 r (w_store w)).2;
       w_guards := w_guards w |}.
Proof.
  intros Hw Hf (Hin&Hok).
  destruct (insert_change_set_cases cfg now fate1 fate2 r (w_store w) (world_keyed _ _ Hw))
    as [(t&_&_&Eo&[_ _ _ _ Hfr Hsz _ Hm])|(e&_&[Hm|(t&_&[Hm|Hm])])].
  - by eapply created_moved.
  - destruct (mem_moved B h x w _ Hw Hm). split; try done; [|set_solver].
    eapply world_ok_grow; [|done]. set_solver.
  - eapply (sweep_moved _ _ _ _ _ _ t); [done|set_solver|by rewrite Hm|].
    rewrite Hm. apply swept_sweeps.
  - eapply (sweep_moved _ _ _ _ _ _ t); [done|set_solver|by rewrite Hm|].
    rewrite Hm. apply retire_sweeps.
Qed.

(** ** Other threads *)

Lemma thread_ok_moved B B' h x w w' tid c :
  moved B B' h x w w' -> thread_ok B w tid c ->
  (forall id r, x = Some id -> known c !! id = Some r -> h <> Some (op_device r)) ->
  fresh c ## B' ->
  thread_ok B' w' tid c.
Proof.
  intros [_ HB Hg _ Ho Hc] [Hh Hk Hs Hf] Hx Hf'. split.
  - rewrite Hg. done.
  - intros id r Hr. destruct (Hk id r Hr) as (Hb&Hheld&Hin). split_and!; [set_solver|done|].
    destruct (Ho id) as [->|[(e&He&?&->)|(Ex&H1&H2)]]; [done|naive_solver|].
    destruct Hin as [Hin|[_ Hin]]; [|by apply H2 in Hin].
    by apply Hx in Hr; [apply H1 in Hin|].
  - intros id s Hsn. destruct (Hs id s Hsn) as [Hb He]. split; [set_solver|].
    intros r Hr. destruct (Hc _ _ Hb Hr) as (r0&Hr0&Hl&_). eapply cs_evolves_trans; eauto.
  - done.
Qed.

Lemma thread_ok_other B B' c x w w' tid tid' c' :
  moved B B' (held c) x w w' -> thread_ok B w tid c -> thread_ok B w tid' c' ->
  tid' <> tid -> fresh c' ## B' -> thread_ok B' w' tid' c'.
Proof.
  intros Hm Ht Ht' Hne Hf. eapply thread_ok_moved; [done..| |done].
  intros id r _ Hr Hh. apply (to_held _ _ _ _ Ht) in Hh.
  destruct (to_known _ _ _ _ Ht' id r Hr) as (_&Hh'&_). apply (to_held _ _ _ _ Ht') in Hh'.
  congruence.
Qed.

(** ** One step of the system *)

Variable env : Env.

Definition drawn (t : nat) : gset string :=
  match entropy env t with Ok seed => {[ id_of seed ]} | Err _ => ∅ end.

Record stepped (B B' : gset string) (tid t : nat) (w w' : World) (c : Ctx) {X} (e : Event X)
  (x : X) : Prop := {
  st_allowed : allowed cfg c e x;
  st_world : world_ok B' w';
  st_thread : thread_ok B' w' tid (next c e x);
  st_born : B ⊆ B' /\ B' ⊆ B ∪ fresh c;
  st_fresh : fresh (next c e x) ⊆ fresh c ∪ drawn t;
  st_ops : forall id, op_step (ops w !! id) (ops w' !! id);
  st_absent : forall id, id ∈ B -> ops w !! id = None -> ops w' !! id = None;
  st_css : css_rely B (css w) (css w');
  st_other : forall tid' c', tid' <> tid -> thread_ok B w tid' c' -> fresh c' ## B' ->
    thread_ok B' w' tid' c';
}.

(** A question that is answered without a change of state. *)
Lemma step_pure B tid t w c {X} (e : Event X) x :
  world_ok B w -> thread_ok B w tid c ->
  allowed cfg c e x -> thread_ok B w tid (next c e x) ->
  fresh (next c e x) ⊆ fresh c ∪ drawn t ->
  stepped B B tid t w w c e x.
Proof.
  intros Hw Ht Ha Hn Hf. split; try done; [set_solver|constructor|apply css_rely_refl].
Qed.

Lemma step_store B B' h tid t w w' c {X} (e : Event X) x :
  world_ok B w -> thread_ok B w tid c -> moved B B' (held c) h w w' ->
  allowed cfg c e x -> thread_ok B' w' tid (next c e x) -> B' ⊆ B ∪ fresh c ->
  fresh (next c e x) ⊆ fresh c ∪ drawn t ->
  stepped B B' tid t w w' c e x.
Proof.
  intros Hw Ht Hm Ha Hn HB Hf. pose proof Hm as [? ? _ ? Ho ?]. split; try done.
  - intros id Hid HN. destruct (Ho id) as [->|[(r&?&_)|(_&_&Hb)]]; [done|congruence|].
    by apply Hb in HN.
  - intros tid' c' Hne Ht' Hf'. by eapply thread_ok_other.
Qed.

(** Forgetting what a context knows is always sound. *)
Lemma thread_ok_weaken B w tid c c' :
  thread_ok B w tid c -> held c' = held c -> known c' ⊆ known c -> seen c' ⊆ seen c ->
  fresh c' ⊆ fresh c -> thread_ok B w tid c'.
Proof.
  intros [Hh Hk Hs Hf] Eh Ek Es Ef. split.
  - by rewrite Eh.
  - intros id r Hr. rewrite Eh. apply Hk. by eapply lookup_weaken.
  - intros id s Hr. apply Hs. by eapply lookup_weaken.
  - set_solver.
Qed.

Lemma record_Ok id owner device s r :
  record id owner device s = Ok r ->
  operations (mem s) !! id = Some r /\ op_owner r = owner /\ op_device r = device.
Proof.
  unfold record. destruct (validate_operation_id id); [|done]. simpl.
  destruct (operations (mem s) !! id) as [r'|]; [|done]. simpl.
  repeat case_bool_decide; simpl; intros; by simplify_eq.
Qed.

Lemma change_set_Ok id device s r :
  change_set id device s = Ok r -> change_sets (mem s) !! id = Some r /\ cs_device r = device.
Proof.
  unfold change_set. destruct (validate_operation_id id); [|done]. simpl.
  destruct (change_sets (mem s) !! id) as [r'|]; [|done]. simpl.
  case_bool_decide; simpl; intros; by simplify_eq.
Qed.

Lemma thread_ok_known B w tid c id r :
  thread_ok B w tid c -> id ∈ B -> held c = Some (op_device r) -> ops w !! id = Some r ->
  thread_ok B w tid (set_known (<[id := r]>) c).
Proof.
  intros [Hh Hk Hs Hf] Hb Hd Hr. split; [done| |done|done].
  intros k r'. cbn. rewrite lookup_insert_Some. intros [[<- <-]|[_ ?]]; auto.
Qed.

Lemma thread_ok_safe B w tid f c : thread_ok B w tid c -> thread_ok B w tid (set_safe f c).
Proof. intros [? ? ? ?]. by split. Qed.

Lemma thread_ok_seen B w tid c id r :
  thread_ok B w tid c -> id ∈ B -> css w !! id = Some r ->
  thread_ok B w tid (set_seen (<[id := r]>) c).
Proof.
  intros [Hh Hk Hs Hf] Hb Hr. split; [done|done| |done].
  intros k r'. cbn. rewrite lookup_insert_Some. intros [[<- <-]|[_ ?]]; [|auto].
  split; [done|]. intros r' Hr'. simplify_eq. apply cs_evolves_refl.
Qed.

Lemma step_get_record B tid t w c id owner device :
  world_ok B w -> thread_ok B w tid c ->
  stepped B B tid t w w c (GetRecord id owner device) (record id owner device (w_store w)).
Proof.
  intros Hw Ht. apply step_pure; try done; cbn [allowed next];
    destruct (record id owner device (w_store w)) as [r|e] eqn:Er; try done;
    [|destruct (decide _)|destruct (decide _)|set_solver].
  - intros r' [= <-]. apply record_Ok in Er as (Hr&?&?).
    pose proof (wo_ops _ _ Hw _ _ Hr) as Hv. pose proof (valid_op_id _ _ Hv).
    split_and!; try done; [by subst id|]. intros cur Hcur.
    destruct (to_known _ _ _ _ Ht _ _ Hcur) as (_&_&[?|[_ ?]]); congruence.
  - apply record_Ok in Er as (Hr&?&?). apply thread_ok_known; [done| |congruence|done].
    apply (wo_ops_born _ _ Hw). eauto.
  - done.
  - cbn. set_solver.
  - set_solver.
Qed.

Lemma step_get_cs B tid t w c id device :
  world_ok B w -> thread_ok B w tid c ->
  stepped B B tid t w w c (GetChangeSet id device) (change_set id device (w_store w)).
Proof.
  intros Hw Ht. apply step_pure; try done; cbn [allowed next];
    destruct (change_set id device (w_store w)) as [r|e] eqn:Er; try done; [| |set_solver..].
  - intros r' [= <-]. apply change_set_Ok in Er as (Hr&?).
    pose proof (wo_css _ _ Hw _ _ Hr) as Hv. pose proof (valid_cs_id _ _ _ _ Hv).
    split_and!; try done; [by subst id|]. intros s Hs.
    by apply (proj2 (to_seen _ _ _ _ Ht _ _ Hs)).
  - apply change_set_Ok in Er as (Hr&?). apply thread_ok_seen; [done| |done].
    apply (wo_css_born _ _ Hw). eauto.
Qed.

Lemma step_insert B tid t w c fate r :
  world_ok B w -> thread_ok B w tid c -> pre cfg c (Insert r) ->
  stepped B ({[ op_id r ]} ∪ B) tid t w
    {| w_store := (insert cfg fate r (w_store w)).2; w_guards := w_guards w |}
    c (Insert r) (insert cfg fate r (w_store w)).1.
Proof.
  intros Hw Ht Hp. pose proof (to_fresh _ _ _ _ Ht) as Hf.
  pose proof (insert_moved B c w fate r Hw Hf Hp) as Hm. destruct Hp as (Hh&_&Hin&_).
  set (c1 := set_fresh (fun f => f ∖ {[ op_id r ]}) c).
  match type of Hm with moved _ ?B' _ _ _ ?w' =>
    assert (thread_ok B' w' tid c1) as H1 end.
  { eapply thread_ok_moved; [done|apply thread_ok_weaken with c; cbn; [done..|set_solver]| |].
    - cbn. intros id r' [= <-] (?&_)%(to_known _ _ _ _ Ht) _. set_solver.
    - cbn. set_solver. }
  destruct (insert_cases cfg fate r (w_store w)) as [_ [(Hx&[_ _ Em])|(e&Hx&_)]].
  - eapply step_store; [done..| |set_solver|]; rewrite Hx; cbn; [|set_solver].
    apply thread_ok_safe, thread_ok_known; [done|set_solver|done|]. cbn. by rewrite Em, lookup_insert_eq.
  - eapply step_store; [done..| |set_solver|]; rewrite Hx; cbn; [done|set_solver].
Qed.

(** Forgetting one operation. *)
Lemma thread_ok_forget B B' h id w w' tid c :
  moved B B' h (Some id) w w' -> thread_ok B w tid c -> fresh c ## B' ->
  thread_ok B' w' tid (set_known (delete id) c).
Proof.
  intros Hm Ht Hf. eapply thread_ok_moved; [done|apply thread_ok_weaken with c; cbn| |done].
  - done.
  - done.
  - apply delete_subseteq.
  - done.
  - done.
  - cbn. intros k r [= <-]. by rewrite lookup_delete_eq.
Qed.

Lemma step_update B tid t w c fate r :
  world_ok B w -> thread_ok B w tid c -> pre cfg c (Update r) ->
  stepped B B tid t w
    {| w_store := (update cfg fate r (w_store w)).2; w_guards := w_guards w |}
    c (Update r) (update cfg fate r (w_store w)).1.
Proof.
  intros Hw Ht Hp. pose proof (to_fresh _ _ _ _ Ht) as Hf.
  pose proof (update_moved B c w tid fate r Hw Ht Hp) as Hm. destruct Hp as (Hok&cur&Hk&Hmv).
  destruct (known_live _ _ _ _ _ _ Ht Hk (op_move_live _ _ Hmv)) as [_ Hh].
  destruct (to_known _ _ _ _ Ht _ _ Hk) as (Hb&_).
  destruct (update_cases cfg fate r (w_store w)) as [_ [(Hx&Em)|(e&Hx&Em)]];
    (eapply step_store; [done..| |set_solver|]); rewrite Hx; cbn; [|set_solver| |set_solver].
  - apply thread_ok_safe.
    assert (set_known (<[op_id r := r]>) c
            = set_known (<[op_id r := r]>) (set_known (delete (op_id r)) c)) as ->.
    { unfold set_known; cbn. by rewrite insert_delete_eq. }
    apply thread_ok_known; [by eapply thread_ok_forget|done| |].
    + destruct Hmv as (_&_&Ed&_). cbn. congruence.
    + cbn. by rewrite Em, lookup_insert_eq.
  - apply thread_ok_safe.
    eapply (thread_ok_moved B B None None); [by apply mem_moved|done..].
Qed.

Lemma step_remove B tid t w c fate id :
  world_ok B w -> thread_ok B w tid c -> pre cfg c (Remove id) ->
  stepped B B tid t w
    {| w_store := remove cfg fate id (w_store w); w_guards := w_guards w |} c (Remove id) tt.
Proof.
  intros Hw Ht Hp. pose proof (to_fresh _ _ _ _ Ht) as Hf.
  pose proof (remove_moved B c w tid fate id Hw Ht Hp) as Hm.
  eapply step_store; [done..| |set_solver|set_solver].
  by apply thread_ok_safe; eapply thread_ok_forget.
Qed.

Lemma step_insert_cs B tid t w c now fate1 fate2 r :
  world_ok B w -> thread_ok B w tid c -> pre cfg c (InsertChangeSet r) ->
  stepped B ({[ cs_id r ]} ∪ B) tid t w
    {| w_store := (insert_change_set cfg now fate1 fate2 r (w_store w)).2;
       w_guards := w_guards w |}
    c (InsertChangeSet r) (insert_change_set cfg now fate1 fate2 r (w_store w)).1.
Proof.
  intros Hw Ht Hp. pose proof (to_fresh _ _ _ _ Ht) as Hf.
  pose proof (fun h x => insert_cs_moved B c h x w now fate1 fate2 r Hw Hf Hp) as Hm.
  destruct Hp as [Hin _].
  eapply step_store; [done|done|exact (Hm _ None)|done| |set_solver|cbn; set_solver].
  eapply thread_ok_moved; [exact (Hm None None)| |done|cbn; set_solver].
  apply thread_ok_weaken with c; cbn; [done..|set_solver].
Qed.

(** The change-set writes that teach the thread nothing. *)
Lemma step_write B tid t w out c {X} (e : Event X) x :
  world_ok B w -> thread_ok B w tid c ->
  (forall h x, moved B B h x w {| w_store := out; w_guards := w_guards w |}) ->
  allowed cfg c e x -> next c e x = c ->
  stepped B B tid t w {| w_store := out; w_guards := w_guards w |} c e x.
Proof.
  intros Hw Ht Hm Ha Hn. pose proof (to_fresh _ _ _ _ Ht) as Hf.
  eapply step_store; [done|done|exact (Hm _ None)|done|rewrite Hn|set_solver|rewrite Hn; set_solver].
  by eapply thread_ok_moved; [exact (Hm None None)|..].
Qed.

Lemma step_claim B tid t w c fate id device handle :
  world_ok B w -> thread_ok B w tid c ->
  stepped B B tid t w
    {| w_store := (claim_change_set_for_apply cfg fate id device handle (w_store w)).2;
       w_guards := w_guards w |}
    c (Claim id device handle)
    (claim_change_set_for_apply cfg fate id device handle (w_store w)).1.
Proof.
  intros Hw Ht.
  pose proof (fun h x => claim_moved B h x w fate id device handle Hw) as Hm.
  destruct (claim_cases cfg fate id device handle (w_store w))
    as [(cur&Hcur&Hst&_&_&Em&[Hx|(e&Hx)])|(e&Hx)]; [|by rewrite Hx in *; apply step_write..].
  rewrite Hx.
  pose proof (wo_css _ _ Hw _ _ Hcur) as Hv. pose proof (valid_cs_id _ _ _ _ Hv) as Hid.
  assert (id ∈ B) as Hb by (apply (wo_css_born _ _ Hw); eauto).
  eapply step_store; [done|done|exact (Hm _ None)|cbn|cbn|set_solver|cbn; set_solver].
  - intros r [= <-]. split_and!; [done|done|by unfold cs_ok; rewrite claimed_valid; cbn; rewrite Hid|].
    intros s Hs. eapply cs_evolves_trans; [by apply (proj2 (to_seen _ _ _ _ Ht _ _ Hs))|].
    by apply claimed_later.
  - match goal with |- thread_ok _ ?w' _ _ =>
      assert (thread_ok B w' tid (set_seen (<[id := claimed handle cur]>) c)) as H1 end.
    { apply thread_ok_seen; [|done|cbn; by rewrite Em; cbn; rewrite lookup_insert_eq].
      eapply thread_ok_moved; [exact (Hm None None)|done|done|by eapply to_fresh]. }
    by destruct H1; split.
Qed.

Lemma step_lock B tid t w c device :
  world_ok B w -> thread_ok B w tid c -> held c = None -> w_guards w !! device = None ->
  stepped B B tid t w
    {| w_store := w_store w; w_guards := <[device := tid]> (w_guards w) |}
    c (LockGuard device) true.
Proof.
  intros Hw Ht Hh Hg. split; cbn; try done.
  - by destruct Hw.
  - destruct Ht as [H1 H2 H3 H4]. split; cbn; try done.
    + intros d [= <-]. by rewrite lookup_insert_eq.
    + intros id r Hr. destruct (H2 _ _ Hr) as (_&?&_). congruence.
  - set_solver.
  - set_solver.
  - constructor.
  - apply css_rely_refl.
  - intros tid' c' Hne [H1 H2 H3 H4] _. split; cbn; try done.
    intros d Hd%H1. rewrite lookup_insert_ne by congruence. done.
Qed.

Lemma step_unlock B tid t w c device :
  world_ok B w -> thread_ok B w tid c -> held c = Some device ->
  stepped B B tid t w
    {| w_store := w_store w; w_guards := delete device (w_guards w) |}
    c (UnlockGuard device) tt.
Proof.
  intros Hw Ht Hh. split; cbn; try done.
  - by destruct Hw.
  - destruct Ht as [H1 H2 H3 H4]. by split.
  - set_solver.
  - set_solver.
  - constructor.
  - apply css_rely_refl.
  - intros tid' c' Hne [H1 H2 H3 H4] _. split; cbn; try done.
    intros d Hd%H1. pose proof (to_held _ _ _ _ Ht _ Hh).
    rewrite lookup_delete_ne by congruence. done.
Qed.

(** Fingerprints a device reports are well formed (the contract of
    [DeviceTransaction::fingerprint]). *)
Hypothesis fingerprints : forall t fp, dev_fingerprint env t = Ok fp ->
  Digest.validate_fingerprint fp = Ok tt.

(** One answer of the world to a thread that keeps the protocol. *)
Lemma step_ok B tid t w c {X} (e : Event X) x w' :
  world_ok B w -> thread_ok B w tid c -> drawn t ## B -> pre cfg c e ->
  handle cfg env tid t e w = Some (x, w') ->
  exists B', stepped B B' tid t w w' c e x.
Proof.
  intros Hw Ht Hd Hp Hh. pose proof (to_fresh _ _ _ _ Ht) as Hf.
  unfold handle, pure, on_store in Hh.
  destruct e; cbv beta iota zeta in Hh; simplify_eq; eexists;
    try (apply step_pure; cbn [allowed next]; (done || set_solver)).
  - apply step_pure; cbn [allowed next]; try done; unfold drawn in *;
      destruct (entropy env t); try done; [|set_solver..].
    destruct Ht as [H1 H2 H3 H4]. split; cbn; try done. set_solver.
  - by apply step_get_record.
  - by apply step_insert.
  - by apply step_update.
  - by apply step_remove.
  - by apply step_get_cs.
  - by apply step_insert_cs.
  - by apply step_claim.
  - apply step_write; try done. intros h x. by eapply update_cs_moved.
  - apply step_write; try done. intros h x. by eapply update_from_moved.
  - destruct (cancelled env t); simplify_eq; [apply step_pure; cbn; (done || set_solver)|].
    destruct (w_guards w !! _) eqn:?; simplify_eq. by apply step_lock.
  - by apply step_unlock.
  - destruct (spool env t); apply step_pure; cbn; try done; [by destruct Ht; split|set_solver..].
  - apply step_pure; cbn; try done; [by destruct Ht; split|set_solver].
Qed.

End soundness.
