(* ===== verification/Durability.v ===== *)
(** * What the state file holds while handlers run

    Every write of the state file, whether it succeeds or fails half way,
    installs a snapshot that a restart accepts.  [disk_write] is one such
    write; the lemmas below show that each question a handler asks makes only
    writes whose snapshot relates to memory as the protocol promises
    ([step_disk]), so that what a thread persisted stays in the file. *)

From S2P Require Import Prelude Externals Lifecycle Types Digest Trust Records Secret Persistence Reload Store StoreFacts Events World Apply Protocol Conformance Soundness.

Section durability.
Context `{EX : Externals} `{XL : !ExternalsLaws EX} `{SC : StateCodec} `{CL : !StateCodecLaws SC}.
Context `{DT : DeviceTypes}.
Variable cfg : Config.
Local Abbreviation ops w := (operations (mem (w_store w))).
Local Abbreviation css w := (change_sets (mem (w_store w))).
Local Abbreviation key := (approval_digest_key cfg).
Local Abbreviation proc := (process cfg).
Local Abbreviation max := (max_state_bytes (limits cfg)).

Hypothesis limit_ops : (max_operations (limits cfg) <= MAX_OPERATIONS)%N.
Hypothesis limit_css : (max_change_sets (limits cfg) <= MAX_CHANGE_SETS)%N.
Hypothesis limit_bytes : (max <= u64_max)%N.

(** What a restart of this deployment reads from the file. *)
Definition reads (d : option StateFile) (D : ChangesetState) : Prop :=
  exists f, d = Some f /\ read_state_with_key (euid proc) (Ok f) max key = Ok D.

(** No file yet, or one a restart accepts. *)
Definition readable (d : option StateFile) : Prop := d = None \/ exists D, reads d D.

(** One attempt to replace the file by a snapshot satisfying [P]. *)
Definition disk_write (P : ChangesetState -> Prop) (d d' : option StateFile) : Prop :=
  exists fate M, reloadable key M /\ P M /\ d' = (write_state proc max fate M d).2.

Lemma reads_fun d D D' : reads d D -> reads d D' -> D = D'.
Proof. intros (f&->&H1) (f'&[= <-]&H2). congruence. Qed.

Lemma readable_owner d f :
  readable d -> d = Some f -> euid proc = 0%N \/ f_uid f = euid proc.
Proof.
  intros [->|(D&f'&->&Hr)]; [done|]. intros [= ->]. unfold read_state_with_key in Hr.
  apply result_bind_Ok in Hr as (data&Hr&_).
  apply map_err_Ok, read_hardened_file_Ok in Hr as (f'&[= <-]&_&_&_&?&_). done.
Qed.

(** A write leaves the old file, or one that reads back as the snapshot. *)
Lemma disk_write_reads P d d' :
  readable d -> disk_write P d d' ->
  d' = d \/ exists M, P M /\ reads d' (drop_empty_handles M).
Proof.
  intros Hd (fate&M&Hre&HP&->). unfold write_state at 1 2.
  set (p := to_vec_pretty _). destruct (N.ltb_spec max (payload_len p)) as [?|Hlen]; [by left|].
  assert (forall fate', (forall x, fate' <> FateBefore x) ->
    (write_state proc max fate' M d).2 = Some (written_file proc d p) ->
    reads (Some (written_file proc d p)) (drop_empty_handles M)) as Hok.
  { intros fate' Hf' Hw. eexists. split; [done|].
    eapply write_then_read; try done. intros f Hf. by eapply readable_owner. }
  destruct fate as [|x|x]; simpl; [right|by left|right]; exists M; (split; [done|]).
  - apply (Hok FateOk); [done|]. unfold write_state. fold p.
    by rewrite (proj2 (N.ltb_ge _ _)).
  - apply (Hok (FateAfter x)); [done|]. unfold write_state. fold p.
    by rewrite (proj2 (N.ltb_ge _ _)).
Qed.

(** After any number of attempts the file is the old one, or a snapshot. *)
Lemma disk_writes_reads P d d' :
  readable d -> rtc (disk_write P) d d' ->
  readable d' /\ (d' = d \/ exists M, P M /\ reads d' (drop_empty_handles M)).
Proof.
  intros Hd Hw. revert Hd. induction Hw as [d|d d1 d' H1 Hw IH]; intros Hd; [by auto|].
  assert (readable d1) as Hd1.
  { destruct (disk_write_reads _ _ _ Hd H1) as [->|(M&_&?)]; [done|right; eauto]. }
  destruct (IH Hd1) as [? [->|?]]; split; eauto. by eapply disk_write_reads.
Qed.

(** ** One persist *)

Lemma persist_disk fate s (P : ChangesetState -> Prop) :
  reloadable key (mem s) -> P (mem s) ->
  rtc (disk_write P) (disk s) (disk (persist_locked cfg fate s).2).
Proof.
  intros Hre HP. unfold persist_locked. destruct (state_path cfg); [|done].
  destruct fate as [e|fate]; [done|]. apply rtc_once. exists fate, (mem s).
  split_and!; [done..|]. by destruct (write_state _ _ _ _ _).
Qed.

(** A persist that succeeds leaves the file reading as memory. *)
Lemma persist_Ok_reads fate s :
  readable (disk s) -> reloadable key (mem s) -> state_path cfg = true ->
  (persist_locked cfg fate s).1 = Ok tt ->
  reads (disk (persist_locked cfg fate s).2) (drop_empty_handles (mem s)).
Proof.
  intros Hd Hre Hp Hok.
  assert (disk_write (eq (mem s)) (disk s) (disk (persist_locked cfg fate s).2)) as Hw.
  { revert Hok. unfold persist_locked. rewrite Hp. destruct fate as [e|fate]; [done|].
    intros _. exists fate, (mem s). split_and!; [done..|]. by destruct (write_state _ _ _ _ _). }
  destruct (disk_write_reads _ _ _ Hd Hw) as [Hsame|(M&<-&?)]; [|done].
  destruct (persist_Ok_in_sync cfg fate s Hok Hp) as (f&Hf&Hdata).
  rewrite persist_mem in Hdata. rewrite Hf in Hsame.
  destruct Hd as [Hd|(D&f'&Hf'&Hr)]; [congruence|].
  assert (f' = f) as -> by congruence. rewrite Hf. exists f. split; [done|].
  unfold read_state_with_key in *. apply result_bind_Ok in Hr as (data&Hr&_). rewrite Hr. simpl.
  apply map_err_Ok, read_hardened_file_Ok in Hr as (f'&[= <-]&->&_).
  rewrite Hdata, from_to_slice. simpl.
  pose proof (select_version_range (drop_empty_handles (mem s))).
  rewrite !(proj2 (N.leb_le _ _)) by lia. simpl.
  rewrite reloadable_validates by by apply reloadable_drop.
  simpl. by rewrite select_version_stable.
Qed.

(** ** The snapshots of each operation

    The snapshot an operation writes is the memory it would leave if nothing
    were persisted at all. *)

Definition volatile : Config := {|
  state_path := false; limits := limits cfg; approval_ttl := approval_ttl cfg;
  lab_mode := lab_mode cfg; approval_digest_key := approval_digest_key cfg;
  evidence := evidence cfg; process := process cfg |}.

Lemma world_volatile B w : world_ok volatile B w <-> world_ok cfg B w.
Proof. split; intros [? ? ? ? ? ?]; by split. Qed.

(** What a snapshot written by a thread holding [h] keeps of the memory [w]. *)
Definition snapshot (B : gset string) (h x : option string) (w : World) (M : ChangesetState) :
  Prop :=
  ops_rely B h x (ops w) (operations M) /\ css_rely B (css w) (change_sets M).

Lemma world_reloadable B w : world_ok cfg B w -> reloadable key (mem (w_store w)).
Proof.
  intros [Ho Hc Hso Hsc _ _]. split_and!; try done. intros k r Hr v Hv.
  rewrite (validate_record_version v 7); [by apply Hc|done|]. split; lia.
Qed.

(** A persist of the memory a well-behaved step would leave. *)
Lemma step_persist B B' h x w s w' fate :
  moved cfg B B' h x w w' -> mem s = mem (w_store w') ->
  rtc (disk_write (snapshot B h x w)) (disk s) (disk (persist_locked cfg fate s).2).
Proof.
  intros [Hw _ _ _ Ho Hc] Hm. apply persist_disk; rewrite Hm; [|by split].
  by eapply world_reloadable.
Qed.

Lemma moved_disk B B' h x w s w' fate :
  moved volatile B B' h x w w' -> mem s = mem (w_store w') ->
  rtc (disk_write (snapshot B h x w)) (disk s) (disk (persist_locked cfg fate s).2).
Proof.
  intros [Hw%world_volatile ? ? ? ? ?]. by apply (step_persist B B').
Qed.

Lemma insert_disk B B' h x w fate r :
  moved volatile B B' h x w
    {| w_store := (insert volatile fate r (w_store w)).2; w_guards := w_guards w |} ->
  rtc (disk_write (snapshot B h x w)) (disk (w_store w)) (disk (insert cfg fate r (w_store w)).2).
Proof.
  intros Hm. revert Hm. unfold insert. cbn [volatile limits].
  set (s1 := if (max_operations (limits cfg) <=? _)%N then _ else w_store w).
  assert (disk (w_store w) = disk s1) as Hd by (subst s1; by case_match).
  destruct (max_operations _ <=? N.of_nat (size (operations (mem s1))))%N; [by rewrite Hd|].
  destruct (any _ _); [by rewrite Hd|].
  unfold persist_locked at 1. cbn [state_path volatile]. intros Hm.
  set (s2 := op_map (<[op_id r := r]>) s1) in *.
  assert (disk (w_store w) = disk s2) as -> by done.
  pose proof (moved_disk _ _ _ _ _ s2 _ fate Hm eq_refl) as Hw.
  by destruct (persist_locked cfg fate s2) as [[[]|e] s3].
Qed.

Lemma update_disk B B' h x w fate r :
  moved volatile B B' h x w
    {| w_store := (update volatile fate r (w_store w)).2; w_guards := w_guards w |} ->
  rtc (disk_write (snapshot B h x w)) (disk (w_store w)) (disk (update cfg fate r (w_store w)).2).
Proof.
  unfold update. unfold persist_locked at 1. cbn [state_path volatile]. intros Hm.
  set (s2 := op_map (<[op_id r := r]>) (w_store w)) in *.
  pose proof (moved_disk _ _ _ _ _ s2 _ fate Hm eq_refl) as Hw.
  by destruct (persist_locked cfg fate s2) as [[[]|e] s3].
Qed.

Lemma remove_disk B B' h x w fate id :
  moved volatile B B' h x w
    {| w_store := remove volatile fate id (w_store w); w_guards := w_guards w |} ->
  rtc (disk_write (snapshot B h x w)) (disk (w_store w)) (disk (remove cfg fate id (w_store w))).
Proof.
  unfold remove. unfold persist_locked at 1. cbn [state_path volatile]. intros Hm.
  exact (moved_disk _ _ _ _ _ (op_map (delete id) (w_store w)) _ fate Hm eq_refl).
Qed.

Lemma write_disk B B' h x w fate r :
  moved volatile B B' h x w
    {| w_store := (write_change_set volatile fate r (w_store w)).2; w_guards := w_guards w |} ->
  rtc (disk_write (snapshot B h x w)) (disk (w_store w))
    (disk (write_change_set cfg fate r (w_store w)).2).
Proof.
  unfold write_change_set. destruct (check_change_set_write _ _ _) as [[]|e]; [|done].
  unfold persist_locked at 1. cbn [state_path volatile]. intros Hm.
  set (s2 := cs_map _ _) in *.
  pose proof (moved_disk _ _ _ _ _ s2 _ fate Hm eq_refl) as Hw.
  by destruct (persist_locked cfg fate s2) as [[[]|e] s3].
Qed.

Lemma claim_disk B B' h x w fate id device handle :
  moved volatile B B' h x w
    {| w_store := (claim_change_set_for_apply volatile fate id device handle (w_store w)).2;
       w_guards := w_guards w |} ->
  rtc (disk_write (snapshot B h x w)) (disk (w_store w))
    (disk (claim_change_set_for_apply cfg fate id device handle (w_store w)).2).
Proof.
  unfold claim_change_set_for_apply.
  destruct (validate_operation_id id); [|done].
  destruct (change_sets _ !! id) as [r|]; [|done].
  destruct (negb _); [done|]. destruct (negb _); [done|].
  destruct (check_change_set_write _ _ _) as [[]|e]; [|done].
  unfold persist_locked at 1. cbn [state_path volatile]. intros Hm.
  set (s2 := cs_map _ _) in *.
  pose proof (moved_disk _ _ _ _ _ s2 _ fate Hm eq_refl) as Hw.
  by destruct (persist_locked cfg fate s2) as [[[]|e] s3].
Qed.

Lemma sweep_disk B h x w now fate :
  world_ok cfg B w ->
  rtc (disk_write (snapshot B h x w)) (disk (w_store w)) (disk (sweep cfg now fate (w_store w)).2).
Proof.
  intros Hw. unfold sweep.
  set (s1 := cs_map (fmap (retire now)) (w_store w)).
  set (s2 := if (_ <=? _)%N then _ else s1).
  assert (disk s2 = disk (w_store w) /\
          mem s2 = set_change_sets (swept cfg now) (mem (w_store w))) as [Hd Hm].
  { subst s2 s1. unfold swept, at_capacity, cs_map, set_mem, set_change_sets; simpl.
    rewrite map_size_fmap. by case_match. }
  assert (rtc (disk_write (snapshot B h x w)) (disk s2) (disk (persist_locked cfg fate s2).2))
    as Hp.
  { eapply (step_persist B B h x w s2 {| w_store := s2; w_guards := w_guards w |}); [|done].
    apply (sweep_moved cfg limit_ops limit_css B B h x w s2 now); [done..|by rewrite Hm|].
    rewrite Hm. apply swept_sweeps. }
  rewrite Hd in Hp.
  destruct (persist_locked cfg fate s2) as [[[]|e] s3]; repeat case_match; simplify_eq;
    simpl in *; by rewrite ?Hd.
Qed.

Lemma insert_cs_disk B c h x w now fate1 fate2 r :
  world_ok cfg B w -> fresh c ## B -> pre cfg c (InsertChangeSet r) ->
  rtc (disk_write (snapshot B h x w)) (disk (w_store w))
    (disk (insert_change_set cfg now fate1 fate2 r (w_store w)).2).
Proof.
  intros Hw Hf [Hin Hok]. unfold insert_change_set. fold (normalise r).
  destruct (validate_target_set r _); [|done]. destruct (validate_preview r _); [|done].
  destruct (negb _); [done|]. destruct (_ || _); [done|]. rewrite normalise_id.
  destruct (change_sets _ !! cs_id r) eqn:Hl; [done|]. destruct now as [t|]; [|done].
  pose proof (sweep_disk B h x w t fate1 Hw) as Hs.
  pose proof (sweep_cases cfg t fate1 (w_store w) (world_keyed _ _ _ Hw)) as Hc.
  destruct (sweep cfg t fate1 (w_store w)) as [[[]|e] s1]; simpl in *; [|done].
  destruct Hc as [[_ Hm]|(e&?&_)]; [|done].
  destruct (N.leb_spec (max_change_sets (limits cfg)) (N.of_nat (size (change_sets (mem s1)))))
    as [?|Hsz]; [done|].
  destruct (List.find _ _); [done|].
  set (s2 := cs_map (<[cs_id r := normalise r]>) s1).
  assert (rtc (disk_write (snapshot B h x w)) (disk s2) (disk (persist_locked cfg fate2 s2).2))
    as Hp.
  { eapply (step_persist B ({[cs_id r]} ∪ B) h x w s2 {| w_store := s2; w_guards := w_guards w |});
      [|done].
    eapply (created_moved cfg limit_ops limit_css B c h x w s2 t r); try done; subst s2; cbn;
      rewrite ?Hm; try done. by rewrite Hm in Hsz. }
  change (disk s2) with (disk s1) in Hp.
  destruct (persist_locked cfg fate2 s2) as [[[]|e] s3]; simpl in *; by etrans.
Qed.

(** ** Every question *)

(** The operation a question writes. *)
Definition touched {X} (e : Event X) : option string :=
  match e with
  | Insert r | Update r => Some (op_id r)
  | Remove id => Some id
  | _ => None
  end.

Lemma step_disk env B tid t w c {X} (e : Event X) x w' :
  world_ok cfg B w -> thread_ok B w tid c -> pre cfg c e ->
  handle cfg env tid t e w = Some (x, w') ->
  rtc (disk_write (snapshot B (held c) (touched e) w)) (disk (w_store w)) (disk (w_store w')).
Proof.
  intros Hw Ht Hp Hh. pose proof (to_fresh _ _ _ _ Ht) as Hf.
  pose proof (proj2 (world_volatile B w) Hw) as Hv.
  unfold handle, pure, on_store in Hh.
  destruct e; cbv beta iota zeta in Hh; simplify_eq; try done; cbn [touched w_store].
  - by eapply insert_disk, insert_moved.
  - by eapply update_disk, update_moved.
  - by eapply remove_disk, remove_moved.
  - by eapply insert_cs_disk.
  - by eapply claim_disk, claim_moved.
  - by eapply write_disk, (update_cs_moved volatile).
  - unfold update_change_set_from.
    destruct (change_sets _ !! _) eqn:Hl; [|done].
    destruct (negb _) eqn:Ho; [done|].
    eapply write_disk. pose proof (fun h x => update_from_moved volatile B c h x w tid (persist env t) _ _ Hv Ht Hp) as Hm.
    revert Hm. unfold update_change_set_from. rewrite Hl, Ho. intros Hm. apply Hm.
  - repeat case_match; by simplify_eq.
Qed.

(** ** What a thread persisted stays *)

(** The operations a thread holds safe are in the file as it knows them. *)
Definition disk_ok (d : option StateFile) (c : Ctx) : Prop :=
  forall id, id ∈ safe c -> exists r, known c !! id = Some r /\
    (terminal (op_state r) = false -> state_path cfg = true ->
     exists D, reads d D /\ operations D !! id = Some r).

(** A change set whose approval is spent in memory and in the file. *)
Definition spent (id : string) (w : World) : Prop :=
  (forall r, css w !! id = Some r -> approval_spent (cs_state r) = true) /\
  (state_path cfg = true -> forall D r, reads (disk (w_store w)) D ->
     change_sets D !! id = Some r -> approval_spent (cs_state r) = true).

Lemma snapshot_keeps B h x w M id r :
  snapshot B h x w M -> ops w !! id = Some r -> terminal (op_state r) = false ->
  (x = Some id -> h <> Some (op_device r)) -> operations M !! id = Some r.
Proof.
  intros [Ho _] Hr Hl Hx. destruct (Ho id) as [->|[(e&He&?&_)|(->&Hd&_)]]; [done|congruence|].
  by apply Hd in Hr; apply Hx in Hr.
Qed.

(** A record in the file that no write touched is still there. *)
Lemma disk_keeps B h x w d d' id r :
  readable d -> rtc (disk_write (snapshot B h x w)) d d' ->
  ops w !! id = Some r -> terminal (op_state r) = false ->
  (x = Some id -> h <> Some (op_device r)) ->
  (exists D, reads d D /\ operations D !! id = Some r) ->
  exists D, reads d' D /\ operations D !! id = Some r.
Proof.
  intros Hd Hw Hr Hl Hx HD.
  destruct (disk_writes_reads _ _ _ Hd Hw) as [_ [->|(M&HM&HR)]]; [done|].
  eexists. split; [done|]. rewrite drop_empty_handles_operations. by eapply snapshot_keeps.
Qed.

Lemma disk_ok_moved B h x w tid d d' c :
  readable d -> rtc (disk_write (snapshot B h x w)) d d' -> thread_ok B w tid c ->
  (forall id r, x = Some id -> id ∈ safe c -> known c !! id = Some r -> h <> Some (op_device r)) ->
  disk_ok d c -> disk_ok d' c.
Proof.
  intros Hd Hw Ht Hx Hok id Hid. destruct (Hok id Hid) as (r&Hr&HD). exists r. split; [done|].
  intros Hl Hp. eapply disk_keeps; [done|done|by eapply known_live|done|by eauto|by auto].
Qed.

Lemma spent_moved B B' h x w w' id :
  readable (disk (w_store w)) ->
  rtc (disk_write (snapshot B h x w)) (disk (w_store w)) (disk (w_store w')) ->
  css_rely B (css w) (css w') -> world_ok cfg B' w' -> id ∈ B -> spent id w -> spent id w'.
Proof.
  intros Hd Hw Hc _ Hb [Hm HD]. split.
  - intros r Hr. destruct (Hc _ _ Hb Hr) as (r0&Hr0&_&Hs). eauto.
  - intros Hp D r HR Hr. specialize (HD Hp).
    destruct (disk_writes_reads _ _ _ Hd Hw) as [_ [E|(M&[_ HM]&HR')]]; [rewrite E in HR; eauto|].
    rewrite (reads_fun _ _ _ HR HR') in Hr. rewrite drop_empty_handles_change_sets in Hr.
    rewrite lookup_fmap in Hr. apply fmap_Some in Hr as (r1&Hr1&->).
    destruct (HM _ _ Hb Hr1) as (r0&Hr0&_&Hs).
    unfold drop_empty_handle. case_match; simpl; eauto.
Qed.

(** A write that is acknowledged is in the file. *)
Lemma update_Ok_reads B w fate r :
  readable (disk (w_store w)) ->
  world_ok cfg B {| w_store := (update cfg fate r (w_store w)).2; w_guards := w_guards w |} ->
  state_path cfg = true -> (update cfg fate r (w_store w)).1 = Ok tt ->
  reads (disk (update cfg fate r (w_store w)).2)
    (drop_empty_handles (mem (update cfg fate r (w_store w)).2)).
Proof.
  intros Hd Hw%world_reloadable Hp. revert Hw. unfold update.
  set (s2 := op_map (<[op_id r := r]>) (w_store w)).
  pose proof (persist_mem cfg fate s2) as Hm.
  pose proof (persist_Ok_reads fate s2 Hd) as Hr.
  destruct (persist_locked cfg fate s2) as [[[]|e] s3]; simpl in *; [|done].
  rewrite Hm. intros Hw _. by apply Hr.
Qed.

Lemma insert_Ok_reads B w fate r :
  readable (disk (w_store w)) ->
  world_ok cfg B {| w_store := (insert cfg fate r (w_store w)).2; w_guards := w_guards w |} ->
  state_path cfg = true -> (insert cfg fate r (w_store w)).1 = Ok tt ->
  reads (disk (insert cfg fate r (w_store w)).2)
    (drop_empty_handles (mem (insert cfg fate r (w_store w)).2)).
Proof.
  intros Hd Hw%world_reloadable Hp. revert Hw. unfold insert.
  set (s1 := if (max_operations (limits cfg) <=? _)%N then _ else w_store w).
  assert (disk s1 = disk (w_store w)) as Hd1 by (subst s1; by case_match).
  rewrite <-Hd1 in Hd.
  destruct (max_operations _ <=? N.of_nat (size (operations (mem s1))))%N; [done|].
  destruct (any _ _); [done|].
  set (s2 := op_map (<[op_id r := r]>) s1).
  pose proof (persist_mem cfg fate s2) as Hm.
  pose proof (persist_Ok_reads fate s2 Hd) as Hr.
  destruct (persist_locked cfg fate s2) as [[[]|e] s3]; simpl in *; [|done].
  rewrite Hm. intros Hw _. by apply Hr.
Qed.

Lemma claim_Ok_reads B w fate id device handle r :
  readable (disk (w_store w)) ->
  world_ok cfg B {| w_store := (claim_change_set_for_apply cfg fate id device handle (w_store w)).2;
                    w_guards := w_guards w |} ->
  state_path cfg = true ->
  (claim_change_set_for_apply cfg fate id device handle (w_store w)).1 = Ok r ->
  reads (disk (claim_change_set_for_apply cfg fate id device handle (w_store w)).2)
    (drop_empty_handles (mem (claim_change_set_for_apply cfg fate id device handle (w_store w)).2)).
Proof.
  intros Hd Hw%world_reloadable Hp. revert Hw. unfold claim_change_set_for_apply.
  destruct (validate_operation_id id); [|done].
  destruct (change_sets _ !! id) as [r0|]; [|done].
  destruct (negb _); [done|]. destruct (negb _); [done|].
  destruct (check_change_set_write _ _ _) as [[]|e]; [|done].
  set (s2 := cs_map _ _).
  pose proof (persist_mem cfg fate s2) as Hm.
  pose proof (persist_Ok_reads fate s2 Hd) as Hr.
  destruct (persist_locked cfg fate s2) as [[[]|e] s3]; simpl in *; [|done].
  rewrite Hm. intros Hw _. by apply Hr.
Qed.

Lemma disk_ok_ext d c c' :
  disk_ok d c -> safe c' ⊆ safe c -> (forall id, id ∈ safe c' -> known c' !! id = known c !! id) ->
  disk_ok d c'.
Proof. intros Hok Hs Hk id Hid. rewrite Hk by done. apply Hok. set_solver. Qed.

Lemma disk_ok_written d r c :
  disk_ok d (unsure (op_id r) c) ->
  (state_path cfg = true -> exists D, reads d D /\ operations D !! op_id r = Some r) ->
  disk_ok d (written r c).
Proof.
  intros Hok HD id. cbn. intros Hid. destruct (decide (id = op_id r)) as [->|Hne].
  - exists r. rewrite lookup_insert_eq. eauto.
  - rewrite lookup_insert_ne by done. apply Hok. cbn. set_solver.
Qed.

(** A thread's own step. *)
Lemma disk_ok_own env B B' tid t w w' c {X} (e : Event X) x :
  world_ok cfg B w -> thread_ok B w tid c -> pre cfg c e ->
  handle cfg env tid t e w = Some (x, w') ->
  world_ok cfg B' w' -> allowed cfg c e x ->
  readable (disk (w_store w)) -> disk_ok (disk (w_store w)) c ->
  disk_ok (disk (w_store w')) (next c e x).
Proof.
  intros Hw Ht Hp Hh Hw' Ha Hd Hok.
  pose proof (step_disk env B tid t w c e x w' Hw Ht Hp Hh) as Hdw.
  assert (disk_ok (disk (w_store w'))
            match touched e with Some id => unsure id c | None => c end) as Hdo.
  { eapply disk_ok_moved; [done|done| |..].
    - destruct (touched e); [by apply thread_ok_safe|done].
    - intros id r ->. cbn. set_solver.
    - destruct (touched e); [|done]. eapply disk_ok_ext; [done|cbn; set_solver|done]. }
  clear Hdw. unfold handle, pure, on_store in Hh.
  destruct e; cbv beta iota zeta in Hh; simplify_eq; cbn [touched next] in *;
    try done; try by (case_match; eapply disk_ok_ext; cbn).
  - case_match; [|done]. case_match; [|done].
    eapply disk_ok_ext; [done|done|]. cbn. intros k Hk.
    destruct (Hdo k Hk) as (cur&Hc&_). rewrite Hc.
    destruct (decide (operation_id = k)) as [->|Hne]; [|by rewrite lookup_insert_ne].
    rewrite lookup_insert_eq. f_equal. by eapply Ha.
  - destruct (insert_cases cfg (persist env t) r (w_store w)) as [_ [(Hx&[_ _ Em])|(e&Hx&_)]];
      rewrite Hx.
    + apply disk_ok_written; [by eapply disk_ok_ext; cbn|]. intros Hsp. eexists.
      split; [by eapply insert_Ok_reads|].
      by rewrite drop_empty_handles_operations, Em, lookup_insert_eq.
    + destruct Hp as (_&_&Hf&_). assert (op_id r ∉ safe c).
      { intros Hin. destruct (Hok _ Hin) as (cur&Hk&_). pose proof (to_fresh _ _ _ _ Ht).
        destruct (to_known _ _ _ _ Ht _ _ Hk) as (?&_). set_solver. }
      eapply disk_ok_ext; [done|cbn; set_solver|done].
  - destruct (update_cases cfg (persist env t) r (w_store w)) as [_ [(Hx&Em)|(e&Hx&_)]];
      rewrite Hx; [|done].
    apply disk_ok_written; [done|]. intros Hsp. eexists. split; [by eapply update_Ok_reads|].
    by rewrite drop_empty_handles_operations, Em, lookup_insert_eq.
  - eapply disk_ok_ext; [done|done|]. cbn. intros k Hk. rewrite lookup_delete_ne; [done|set_solver].
  - case_match; [by simplify_eq|]. case_match; by simplify_eq.
Qed.

End durability.
