(* ===== verification/System.v ===== *)
(** * The system: many requests at once

    [serve] dispatches a request to its handler; a pool of requests runs under
    any schedule of [World.schedule], with dropped futures, failing writes and
    any device.  [base] is the invariant of such a run: it combines the store
    invariant (Soundness.v) with the state file (Durability.v). *)

From S2P Require Import Prelude Externals Lifecycle Types Digest Trust Records Secret Persistence Reload Store StoreFacts Recovery Events World Changeset Apply Operation Protocol Conformance ConformanceApply Soundness Durability.

Section system.
Context `{EX : Externals} `{XL : !ExternalsLaws EX} `{SC : StateCodec} `{CL : !StateCodecLaws SC}.
Context `{DT : DeviceTypes}.
Variable cfg : Config.
Variable env : Env.

Local Abbreviation ops w := (operations (mem (w_store w))).
Local Abbreviation css w := (change_sets (mem (w_store w))).
Local Abbreviation file w := (disk (w_store w)).

(** ** Requests *)

Inductive Request :=
| ReqCreate (device : string) (actions : list Action) (owner fingerprint policy : string)
| ReqApprove (id device approver digest : string) (actor : ActorType)
| ReqWaive (id device owner digest : string)
| ReqWaiveOperator (id device owner digest : string) (kind : WaiverKind) (reason : string)
    (expires : option N) (ticket : option string)
| ReqStatus (id device : string)
| ReqStatusWithActions (id device : string)
| ReqCancel (id device principal : string)
| ReqApply (a : ApplyArgs)
| ReqStage (a : StageArgs)
| ReqDiff (id device owner fingerprint : string) (staged : StagedHandle)
| ReqValidate (id device owner fingerprint : string) (staged : StagedHandle)
| ReqCommit (a : CommitArgs)
| ReqDiscard (id device owner fingerprint : string).

Definition finish {A} (p : prog A) : prog unit := bind p (fun _ => Ret tt).

Definition serve (q : Request) : prog unit :=
  match q with
  | ReqCreate device actions owner fp policy =>
      finish (create_change_set cfg device actions owner fp policy)
  | ReqApprove id device approver digest actor =>
      finish (approve_change_set cfg id device approver digest actor)
  | ReqWaive id device owner digest => finish (waive_approval cfg id device owner digest)
  | ReqWaiveOperator id device owner digest kind reason expires ticket =>
      finish (waive_approval_operator cfg id device owner digest kind reason expires ticket)
  | ReqStatus id device => finish (change_set_status id device)
  | ReqStatusWithActions id device => finish (change_set_status_with_actions id device)
  | ReqCancel id device principal => finish (cancel_change_set id device principal)
  | ReqApply a => finish (apply_change_set cfg a)
  | ReqStage a => finish (stage_operation a)
  | ReqDiff id device owner fp staged => finish (diff_operation id device owner fp staged)
  | ReqValidate id device owner fp staged => finish (validate_operation id device owner fp staged)
  | ReqCommit a => finish (commit_operation cfg a)
  | ReqDiscard id device owner fp => finish (discard_operation id device owner fp)
  end.

(** The change set a request applies. *)
Definition applies (q : Request) : option string :=
  match q with ReqApply a => Some (aa_change_set_id a) | _ => None end.

(** Owner and device names that the state file accepts. *)
Definition named (q : Request) : bool :=
  match q with
  | ReqCreate device _ owner _ _ => negb (is_empty_str device) && negb (is_empty_str owner)
  | ReqStage a => negb (is_empty_str (sa_device a)) && negb (is_empty_str (sa_owner a))
  | _ => true
  end.

(** Limits within what the state file accepts. *)
Record deployable : Prop := {
  dep_ops : (max_operations (limits cfg) <= MAX_OPERATIONS)%N;
  dep_css : (max_change_sets (limits cfg) <= MAX_CHANGE_SETS)%N;
  dep_actions : (max_actions_per_set (limits cfg) <= MAX_CHANGE_SET_ACTIONS)%N;
  dep_bytes : (max_state_bytes (limits cfg) <= u64_max)%N;
}.

Lemma wp_serve q :
  deployable -> canonical_parses -> named q = true ->
  wp cfg (start (applies q)) (serve q) (fun _ _ => True).
Proof.
  intros Hdep Hcan Hn.
  assert (forall A (p : prog A) (Φ : A -> Ctx -> Prop), wp cfg (start (applies q)) p Φ ->
    wp cfg (start (applies q)) (finish p) (fun _ _ => True)) as Hf.
  { intros A p Φ Hp. apply wp_bind. by eapply wp_mono. }
  destruct q; cbn [serve applies] in *; eapply Hf.
  - apply andb_true_iff in Hn as [?%is_empty_str_false ?%is_empty_str_false].
    apply wp_create; try done. apply Hdep.
  - by apply wp_approve.
  - by apply wp_waive.
  - by apply wp_waive_operator.
  - by apply wp_status.
  - by apply wp_status_with_actions.
  - by apply wp_cancel.
  - by apply wp_apply.
  - apply andb_true_iff in Hn as [?%is_empty_str_false ?%is_empty_str_false].
    by apply wp_stage.
  - by apply wp_diff.
  - by apply wp_validate.
  - by apply wp_commit.
  - by apply wp_discard.
Qed.

(** ** The invariant of a run *)

Definition launch (w : World) (qs : list Request) : Pool unit := {|
  p_world := w; p_threads := Some ∘ serve <$> qs; p_time := 0; p_log := [] |}.

(** What the model leaves to the environment: fresh identifiers never repeat,
    and the device reports well-formed fingerprints. *)
Record lawful (B0 : gset string) : Prop := {
  law_distinct : forall t t', t <> t' -> drawn env t ## drawn env t';
  law_new : forall t, drawn env t ## B0;
  law_fingerprint : forall t fp, dev_fingerprint env t = Ok fp ->
    Digest.validate_fingerprint fp = Ok tt;
}.

(** What the contexts [cs] say of a pool. *)
Record base (kinds : list (option string)) (B : gset string) (cs : list Ctx) (p : Pool unit) :
  Prop := {
  b_world : world_ok cfg B (p_world p);
  b_disk : readable cfg (file (p_world p));
  b_kinds : kind <$> cs = kinds;
  b_thread : forall tid c, cs !! tid = Some c ->
    thread_ok B (p_world p) tid c /\ disk_ok cfg (file (p_world p)) c;
  b_wp : forall tid q, p_threads p !! tid = Some (Some q) ->
    exists c, cs !! tid = Some c /\ wp cfg c q (fun _ _ => True);
  b_fresh : forall i j ci cj, i <> j -> cs !! i = Some ci -> cs !! j = Some cj ->
    fresh ci ## fresh cj;
  b_future : forall t, p_time p <= t -> drawn env t ## B /\
    forall i c, cs !! i = Some c -> drawn env t ## fresh c;
}.

Lemma disjoint_cover (X Y Z W : gset string) : X ## Y -> X ## Z -> W ⊆ Y ∪ Z -> X ## W.
Proof. set_solver. Qed.

Lemma kind_next c {X} (e : Event X) x : kind (next c e x) = kind c.
Proof. destruct e; cbn; repeat case_match; done. Qed.

Hypothesis deploy : deployable.

(** What one answer does, in full. *)
Lemma base_step kinds B B0 cs p tid {X} (e : Event X) c x w' :
  lawful B0 -> base kinds B cs p -> cs !! tid = Some c -> pre cfg c e ->
  handle cfg env tid (p_time p) e (p_world p) = Some (x, w') ->
  exists B', stepped cfg env B B' tid (p_time p) (p_world p) w' c e x /\
    rtc (disk_write cfg (snapshot B (held c) (touched e) (p_world p))) (file (p_world p)) (file w').
Proof.
  intros Hlaw [Hw Hd Hk Ht Hwp Hfr Hfu] Hc Hpre Hh. destruct (Ht _ _ Hc) as [Htc _].
  destruct (step_ok cfg (dep_ops deploy) (dep_css deploy) env (law_fingerprint _ Hlaw)
              B tid (p_time p) (p_world p) c e x w' Hw Htc) as [B' Hs]; try done.
  { by apply Hfu. }
  exists B'. split; [done|]. eapply step_disk; try done; apply deploy.
Qed.

Lemma base_run kinds B B0 B' cs p tid {X} (e : Event X) k c x w' :
  lawful B0 -> base kinds B cs p ->
  p_threads p !! tid = Some (Some (Vis e k)) -> cs !! tid = Some c ->
  pre cfg c e -> (forall x, allowed cfg c e x -> wp cfg (next c e x) (k x) (fun _ _ => True)) ->
  handle cfg env tid (p_time p) e (p_world p) = Some (x, w') ->
  stepped cfg env B B' tid (p_time p) (p_world p) w' c e x ->
  rtc (disk_write cfg (snapshot B (held c) (touched e) (p_world p))) (file (p_world p)) (file w') ->
  base kinds B' (<[tid := next c e x]> cs)
    {| p_world := w'; p_threads := <[tid := Some (k x)]> (p_threads p);
       p_time := S (p_time p); p_log := Obs tid e x :: p_log p |}.
Proof.
  intros Hlaw [Hw Hd Hk Ht Hwp Hfr Hfu] Htid Hc Hpre Hnext Hh [Ha Hw' Hth [HB HB'] Hfresh _ _ _ Hoth] Hdw.
  destruct (Ht _ _ Hc) as [Htc Hdc].
  assert (forall i ci, i <> tid -> cs !! i = Some ci -> fresh ci ## B') as Hdis.
  { intros i ci Hne Hi. pose proof (Hfr _ _ _ _ Hne Hi Hc).
    pose proof (to_fresh _ _ _ _ (proj1 (Ht _ _ Hi))). by eapply disjoint_cover; [| |exact HB']. }
  assert (forall i ci, i <> tid -> cs !! i = Some ci -> fresh ci ## fresh (next c e x)) as Hdis'.
  { intros i ci Hne Hi. pose proof (Hfr _ _ _ _ Hne Hi Hc).
    destruct (Hfu (p_time p)) as [_ Hf]; [done|]. specialize (Hf _ _ Hi).
    by eapply disjoint_cover; [| |exact Hfresh]. }
  split; cbn; try done.
  - by eapply disk_writes_reads; [apply deploy|..].
  - rewrite list_fmap_insert, kind_next, Hk. apply list_insert_id. subst kinds.
    by rewrite list_lookup_fmap, Hc.
  - intros i ci Hi. apply list_lookup_insert_Some in Hi as [(<-&<-&_)|[Hne Hi]].
    + split; [done|].
      by eapply (disk_ok_own cfg (dep_ops deploy) (dep_css deploy) (dep_bytes deploy) env B B').
    + destruct (Ht _ _ Hi) as [Hti Hdi]. split; [by apply Hoth; eauto|].
      eapply disk_ok_moved; [apply deploy|done|done|done| |done].
      intros id r _ _ Hr Hh'. apply (to_held _ _ _ _ Htc) in Hh'.
      destruct (to_known _ _ _ _ Hti id r Hr) as (_&Hd'&_). apply (to_held _ _ _ _ Hti) in Hd'.
      congruence.
  - intros i q Hi. apply list_lookup_insert_Some in Hi as [(<-&[= <-]&_)|[Hne Hi]].
    + exists (next c e x). split; [|by apply Hnext]. apply list_lookup_insert_eq.
      by eapply lookup_lt_Some.
    + rewrite list_lookup_insert_ne by done. eauto.
  - intros i j ci cj Hne Hi Hj.
    apply list_lookup_insert_Some in Hi as [(<-&<-&_)|[? Hi]];
      apply list_lookup_insert_Some in Hj as [(<-&<-&_)|[? Hj]]; [done| | |exact (Hfr i j ci cj Hne Hi Hj)].
    + symmetry. by eapply Hdis'.
    + by eapply Hdis'.
  - intros t Hle. destruct (Hfu t) as [H1 H2]; [lia|].
    pose proof (H2 _ _ Hc). pose proof (law_distinct _ Hlaw t (p_time p)) as Hd'.
    assert (drawn env t ## drawn env (p_time p)) by (apply Hd'; lia).
    split; [by eapply disjoint_cover; [| |exact HB']|]. intros i ci Hi.
    apply list_lookup_insert_Some in Hi as [(<-&<-&_)|[? Hi]]; [|by eauto].
    by eapply disjoint_cover; [| |exact Hfresh].
Qed.

End system.
