(* ===== verification/Ledger.v ===== *)
(** * The ledger of a run

    Claims and stagings, as the log of a run records them: each change set is
    claimed at most once, and staged at most as often as it was claimed. *)

From S2P Require Import Prelude Externals Lifecycle Types Digest Trust Records Secret Persistence Reload Store StoreFacts Recovery Events World Changeset Apply Operation Protocol Conformance ConformanceApply Soundness Durability System.

(** ** Observations *)

Section observations.
Context `{DT : DeviceTypes}.

(** Thread [tid] claimed [r]. *)
Definition claims_record (tid : nat) (r : ChangeSetRecord) (o : obs) : Prop :=
  match o with
  | @Obs _ X tid' e x =>
      tid' = tid /\
      (match e in Event X return X -> Prop with
       | Claim id _ _ => fun x => id = cs_id r /\ x = Ok r
       | _ => fun _ => False
       end) x
  end.

(** A claim of [id] that succeeded. *)
Definition claims (id : string) (o : obs) : bool :=
  match o with
  | @Obs _ X _ e x =>
      (match e in Event X return X -> bool with
       | Claim id' _ _ => fun x => is_ok x && bool_decide (id' = id)
       | _ => fun _ => false
       end) x
  end.

(** A staging on the device by a thread that applies [id]. *)
Definition stages (kinds : list (option string)) (id : string) (o : obs) : bool :=
  match o with
  | Obs tid (Stage _) _ => bool_decide (kinds !! tid = Some (Some id))
  | _ => false
  end.

(** Thread [tid] put its intent in the evidence trail. *)
Definition records_intent (tid : nat) (o : obs) : Prop :=
  match o with
  | @Obs _ X tid' e x =>
      tid' = tid /\
      (match e in Event X return X -> Prop with
       | ApplyIntent _ _ _ _ => fun x => x = Ok tt
       | _ => fun _ => False
       end) x
  end.

Definition count (f : obs -> bool) (l : list obs) : nat := length (List.filter f l).

(** [P] of every observation and what came before it. *)
Fixpoint each (P : obs -> list obs -> Prop) (l : list obs) : Prop :=
  match l with [] => True | o :: l => P o l /\ each P l end.

End observations.

Section ledger.
Context `{EX : Externals} `{XL : !ExternalsLaws EX} `{SC : StateCodec} `{CL : !StateCodecLaws SC}.
Context `{DT : DeviceTypes}.
Variable cfg : Config.
Variable env : Env.

Local Abbreviation ops w := (operations (mem (w_store w))).
Local Abbreviation css w := (change_sets (mem (w_store w))).
Local Abbreviation file w := (disk (w_store w)).

(** A staging by an applying thread is of the plan it claimed, approved. *)
Definition staged_as_claimed (kinds : list (option string)) (o : obs) (past : list obs) : Prop :=
  match o with
  | Obs tid (Stage actions) _ => forall id, kinds !! tid = Some (Some id) ->
      exists r, cs_id r = id /\ Exists (claims_record tid r) past /\
        parse_actions 0 (cs_actions r) = Ok actions /\ check_approval cfg r = Ok tt
  | _ => True
  end.

(** What a thread's claim means for the log. *)
Definition pending_ok (kinds : list (option string)) (cs : list Ctx) (log : list obs) : Prop :=
  forall tid c r, cs !! tid = Some c -> claim c = Some r ->
    kind c = Some (cs_id r) /\ Exists (claims_record tid r) log /\
    0 < count (claims (cs_id r)) log /\ count (stages kinds (cs_id r)) log = 0 /\
    forall tid' c' r', tid' <> tid -> cs !! tid' = Some c' -> claim c' = Some r' ->
      cs_id r' <> cs_id r.

(** The claims and stagings so far. *)
Record ledger (kinds : list (option string)) (B : gset string) (w : World) (cs : list Ctx)
  (log : list obs) : Prop := {
  l_claimed : forall id, 0 < count (claims id) log ->
    count (claims id) log = 1 /\ id ∈ B /\ spent cfg id w;
  l_stages : forall id, count (stages kinds id) log <= count (claims id) log;
  l_pending : pending_ok kinds cs log;
  l_staged : each (staged_as_claimed kinds) log;
  l_intent : forall tid c, cs !! tid = Some c -> intent c = true ->
    Exists (records_intent tid) log;
}.

Definition inv (kinds : list (option string)) (p : Pool unit) : Prop :=
  exists B cs, base cfg env kinds B cs p /\ ledger kinds B (p_world p) cs (p_log p).


(** ** What an observation tells *)

Lemma count_cons f o l : count f (o :: l) = (if f o then 1 else 0) + count f l.
Proof. unfold count. simpl. by destruct (f o). Qed.

Hypothesis deploy : deployable cfg.

(** A claim that succeeds finds an approved record and leaves it spent. *)
Lemma claims_inv B' tid t w w' id {X} (e : Event X) x :
  claims id (Obs tid e x) = true -> handle cfg env tid t e w = Some (x, w') ->
  readable cfg (file w) -> world_ok cfg B' w' ->
  (exists cur, css w !! id = Some cur /\ cs_state cur = Approved) /\ spent cfg id w'.
Proof.
  intros Hc Hh Hd Hw'. unfold handle, pure, on_store in Hh. destruct e; try done. cbn in Hc.
  cbv beta iota zeta in Hh. simplify_eq.
  match type of Hw' with context [claim_change_set_for_apply _ ?f ?i ?d ?h _] =>
    destruct (claim_cases cfg f i d h (w_store w))
      as [(cur&Hcur&Hst&_&_&Em&[Hx|(e&Hx)])|(e&Hx)] end;
    rewrite Hx in Hc; simpl in Hc; try done.
  apply bool_decide_eq_true in Hc as ->. split; [by eauto|]. split; cbn.
  - intros r. rewrite Em. cbn. rewrite lookup_insert_eq. by intros [= <-].
  - intros Hp D r HR. eapply (claim_Ok_reads cfg (dep_ops _ deploy) (dep_css _ deploy) (dep_bytes _ deploy)) in Hw';
      [|done..].
    rewrite (reads_fun _ _ _ _ HR Hw'), drop_empty_handles_change_sets, Em. cbn.
    rewrite lookup_fmap, lookup_insert_eq. cbn. intros [= <-].
    unfold drop_empty_handle. by case_match.
Qed.

(** A staging spends the thread's claim. *)
Lemma stages_inv kinds tid c id {X} (e : Event X) x :
  stages kinds id (Obs tid e x) = true -> kinds !! tid = Some (kind c) -> pre cfg c e ->
  exists r, claim c = Some r /\ cs_id r = id /\ claim (next c e x) = None.
Proof.
  intros Hs Hk Hp. destruct e; try done. apply bool_decide_eq_true in Hs.
  destruct (Hp id) as (r&?&?&_); [congruence|]. eauto.
Qed.

(** Where a claim comes from. *)
Lemma claim_next kinds tid c r {X} (e : Event X) x :
  claim (next c e x) = Some r -> pre cfg c e -> allowed cfg c e x ->
  (claim c = Some r /\ forall id, stages kinds id (Obs tid e x) = false) \/
  (claims (cs_id r) (Obs tid e x) = true /\ claims_record tid r (Obs tid e x) /\
   kind c = Some (cs_id r) /\ forall id, stages kinds id (Obs tid e x) = false).
Proof.
  intros Hr Hp Ha. destruct e; cbn in *; repeat case_match; cbn in *; simplify_eq; auto.
  right. destruct (Ha _ eq_refl) as (?&_). subst. by rewrite bool_decide_eq_true_2.
Qed.

Lemma intent_next tid c {X} (e : Event X) x :
  intent (next c e x) = true -> intent c = true \/ records_intent tid (Obs tid e x).
Proof.
  intros Hr. destruct e; cbn in *; repeat case_match; cbn in *; simplify_eq; auto.
  match goal with u : unit |- _ => destruct u end. auto.
Qed.

Lemma pending_run kinds cs tid {X} (e : Event X) c x log :
  cs !! tid = Some c -> kinds !! tid = Some (kind c) -> pre cfg c e -> allowed cfg c e x ->
  (forall id, claims id (Obs tid e x) = true -> count (claims id) log = 0) ->
  (forall id, count (stages kinds id) log <= count (claims id) log) ->
  pending_ok kinds cs log ->
  pending_ok kinds (<[tid := next c e x]> cs) (Obs tid e x :: log).
Proof.
  intros Hc Hk Hpre Ha Hnew Hst Hpe i ci r Hi Hr. rewrite !count_cons.
  apply list_lookup_insert_Some in Hi as [(<-&<-&_)|[Hne Hi]].
  - rewrite kind_next.
    apply (claim_next kinds tid) in Hr as [[Hr Hno]|(Hcl&Hrec&Hkc&Hno)]; [| |done..]; rewrite Hno.
    + destruct (Hpe _ _ _ Hc Hr) as (?&?&?&?&Hu).
      split_and!; [done|by right|case_match; lia|done|].
      intros i' c' r' Hne'. rewrite list_lookup_insert_ne by done. by apply Hu.
    + specialize (Hnew _ Hcl). specialize (Hst (cs_id r)). rewrite Hcl.
      split_and!; [done|by left|lia|lia|].
      intros i' c' r' Hne'. rewrite list_lookup_insert_ne by done. intros Hi' Hr' Eid.
      destruct (Hpe _ _ _ Hi' Hr') as (_&_&Hpos&_). rewrite Eid in Hpos. lia.
  - destruct (Hpe _ _ _ Hi Hr) as (?&?&?&?&Hu). split_and!; [done|by right|case_match; lia| |].
    + destruct (stages kinds (cs_id r) (Obs tid e x)) eqn:E; [|done].
      eapply stages_inv in E as (r2&Hr2&Eid&_); [|done..].
      exfalso. exact (Hu tid c r2 Hne Hc Hr2 Eid).
    + intros i' c' r' Hne' Hi'. apply list_lookup_insert_Some in Hi' as [(<-&<-&_)|[_ Hi']];
        [|by eapply Hu].
      intros Hr' Eid. apply (claim_next kinds tid) in Hr' as [[Hr' _]|(Hcl&_)]; [| |done..].
      * exact (Hu _ _ _ Hne Hc Hr' Eid).
      * apply Hnew in Hcl. rewrite Eid in Hcl. lia.
Qed.

(** One answer keeps the ledger. *)
Lemma ledger_run kinds B B' B0 cs p tid {X} (e : Event X) c x w' log :
  lawful env B0 -> base cfg env kinds B cs p -> cs !! tid = Some c -> pre cfg c e ->
  handle cfg env tid (p_time p) e (p_world p) = Some (x, w') ->
  stepped cfg env B B' tid (p_time p) (p_world p) w' c e x ->
  rtc (disk_write cfg (snapshot B (held c) (touched e) (p_world p))) (file (p_world p)) (file w') ->
  ledger kinds B (p_world p) cs log ->
  ledger kinds B' w' (<[tid := next c e x]> cs) (Obs tid e x :: log).
Proof.
  intros Hlaw Hb Hc Hpre Hh Hs Hdw [Hcl Hst Hpe Heach Hin].
  pose proof (b_disk _ _ _ _ _ _ Hb) as Hd.
  pose proof (st_world _ _ _ _ _ _ _ _ _ _ _ Hs) as Hw'.
  pose proof (st_allowed _ _ _ _ _ _ _ _ _ _ _ Hs) as Ha.
  destruct (st_born _ _ _ _ _ _ _ _ _ _ _ Hs) as [HB _].
  assert (kinds !! tid = Some (kind c)) as Hk.
  { rewrite <-(b_kinds _ _ _ _ _ _ Hb). by rewrite list_lookup_fmap, Hc. }
  assert (forall id, claims id (Obs tid e x) = true -> count (claims id) log = 0 /\ id ∈ B) as Hnew.
  { intros id Hid. eapply claims_inv in Hid as [(cur&Hcur&Happ) _]; [|done..]. split.
    - destruct (count (claims id) log) eqn:E; [done|].
      destruct (Hcl id) as (_&_&[Hsp _]); [lia|]. apply Hsp in Hcur. by rewrite Happ in Hcur.
    - apply (wo_css_born _ _ _ (b_world _ _ _ _ _ _ Hb)). eauto. }
  split.
  - intros id. rewrite count_cons. destruct (claims id (Obs tid e x)) eqn:E; simpl.
    + destruct (Hnew id E) as [-> ?]. eapply claims_inv in E as [_ ?]; [|done..].
      intros _. split_and!; [done|set_solver|done].
    + intros Hpos. destruct (Hcl id Hpos) as (?&?&?). split_and!; [done|set_solver|].
      eapply spent_moved; [apply deploy|done|done| |done|done|done]. apply Hs.
  - intros id. rewrite !count_cons. specialize (Hst id).
    destruct (stages kinds id (Obs tid e x)) eqn:E; [|case_match; lia].
    eapply stages_inv in E as (r&Hr&<-&_); [|done..].
    destruct (Hpe _ _ _ Hc Hr) as (_&_&?&->&_). case_match; lia.
  - eapply pending_run; try done. intros id Hid. by apply Hnew.
  - split; [|done]. destruct e; try done. cbn. intros id Hid.
    destruct (Hpre id) as (r&Hr&Eid&Hpa&Hap); [congruence|].
    destruct (Hpe _ _ _ Hc Hr) as (_&?&_). exists r. by split_and!.
  - intros i ci Hi Hint. apply list_lookup_insert_Some in Hi as [(<-&<-&_)|[Hne Hi]].
    + apply (intent_next tid) in Hint as [Hint|Hint]; [right; by eapply Hin|by left].
    + right. by eapply Hin.
Qed.

(** ** Every schedule keeps the invariant *)

Definition forget (tid : nat) (cs : list Ctx) : list Ctx := alter (fun c => start (kind c)) tid cs.

Lemma forget_lookup tid cs i ci :
  forget tid cs !! i = Some ci ->
  (i = tid /\ exists c, cs !! i = Some c /\ ci = start (kind c)) \/ (i <> tid /\ cs !! i = Some ci).
Proof.
  unfold forget. destruct (decide (tid = i)) as [->|Hne].
  - rewrite list_lookup_alter_eq. intros (c&?&->)%fmap_Some. eauto.
  - rewrite list_lookup_alter_ne by done. auto.
Qed.

Lemma base_drop kinds B cs p tid :
  base cfg env kinds B cs p -> base cfg env kinds B (forget tid cs) (turn cfg env (Drop tid) p).
Proof.
  intros [Hw Hd Hk Ht Hwp Hfr Hfu]. split; cbn; try done.
  - by destruct Hw; split.
  - subst kinds. apply list_eq; intros i. rewrite !list_lookup_fmap. unfold forget.
    destruct (decide (tid = i)) as [->|Hne].
    + rewrite list_lookup_alter_eq. by destruct (cs !! i).
    + by rewrite list_lookup_alter_ne.
  - intros i ci Hi. apply forget_lookup in Hi as [(->&c&Hc&->)|[Hne Hi]].
    + split; [|by intros id]. split; cbn; [done..|set_solver].
    + destruct (Ht _ _ Hi) as [[Hh H2 H3 H4] ?]. split; [|done]. split; try done.
      intros d Hd'. cbn. apply map_lookup_filter_Some. split; [by apply Hh|done].
  - intros i q Hi. apply list_lookup_insert_Some in Hi as [(_&?&_)|[Hne Hi]]; [done|].
    destruct (Hwp _ _ Hi) as (c&Hc&?). exists c. split; [|done]. unfold forget.
    by rewrite list_lookup_alter_ne.
  - intros i j ci cj Hne Hi Hj.
    apply forget_lookup in Hi as [(->&c&Hc&->)|[? Hi]]; [set_solver|].
    apply forget_lookup in Hj as [(->&c&Hc&->)|[? Hj]]; [set_solver|]. by eapply (Hfr i j).
  - intros t Hle. destruct (Hfu t Hle) as [? Hf]. split; [done|]. intros i ci Hi.
    apply forget_lookup in Hi as [(->&c&Hc&->)|[? Hi]]; [set_solver|eauto].
Qed.

Lemma ledger_drop kinds B cs w g tid log :
  ledger kinds B w cs log ->
  ledger kinds B {| w_store := w_store w; w_guards := g |} (forget tid cs) log.
Proof.
  intros [Hcl Hst Hpe Heach Hin]. split; try done.
  - intros i ci r Hi Hr. apply forget_lookup in Hi as [(->&c&Hc&->)|[? Hi]]; [done|].
    destruct (Hpe _ _ _ Hi Hr) as (?&?&?&?&Hu). split_and!; try done.
    intros i' c' r' Hne Hi' Hr'. apply forget_lookup in Hi' as [(->&c&Hc&->)|[? Hi']]; [done|].
    by eapply Hu.
  - intros i ci Hi Hint. apply forget_lookup in Hi as [(->&c&Hc&->)|[? Hi]]; [done|eauto].
Qed.

Lemma inv_turn kinds B0 d p : lawful env B0 -> inv kinds p -> inv kinds (turn cfg env d p).
Proof.
  intros Hlaw (B&cs&Hb&Hl). destruct d as [tid|tid].
  - cbn. destruct (p_threads p !! tid) as [[[a|X e k]|]|] eqn:Ht; try by (exists B, cs).
    destruct (handle cfg env tid (p_time p) e (p_world p)) as [[x w']|] eqn:Hh;
      [|by exists B, cs].
    destruct (b_wp _ _ _ _ _ _ Hb _ _ Ht) as (c&Hc&Hpre&Hnext).
    destruct (base_step cfg env deploy _ _ _ _ _ _ _ _ _ _ Hlaw Hb Hc Hpre Hh) as (B'&Hs&Hdw).
    exists B', (<[tid := next c e x]> cs). split.
    + by eapply base_run.
    + by eapply ledger_run.
  - exists B, (forget tid cs). split; [by apply base_drop|]. by apply ledger_drop.
Qed.

Lemma inv_schedule kinds B0 ds p : lawful env B0 -> inv kinds p -> inv kinds (schedule cfg env ds p).
Proof.
  intros Hlaw. revert p. unfold schedule.
  induction ds as [|d ds IH]; intros p Hp; simpl; [done|]. eapply IH, inv_turn; eauto.
Qed.

(** A store to start from: valid, with a file a restart accepts. *)
Record startable (w : World) : Prop := {
  s_world : world_ok cfg (dom (ops w) ∪ dom (css w)) w;
  s_file : readable cfg (file w);
  s_guards : w_guards w = ∅;
}.

Lemma inv_launch w qs :
  startable w -> lawful env (dom (ops w) ∪ dom (css w)) -> canonical_parses ->
  forallb named qs = true -> inv (applies <$> qs) (launch cfg w qs).
Proof.
  intros [Hw Hd _] Hlaw Hcan Hn.
  exists (dom (ops w) ∪ dom (css w)), (start ∘ applies <$> qs). split; split; cbn; try done.
  - rewrite <-list_fmap_compose. by apply list_fmap_ext.
  - intros tid c Hc. rewrite list_lookup_fmap in Hc. apply fmap_Some in Hc as (q&_&->).
    split; [|by intros id]. split; cbn; [done..|set_solver].
  - intros tid q Hq. rewrite list_lookup_fmap in Hq. apply fmap_Some in Hq as (q'&Hq&[= ->]).
    exists (start (applies q')). rewrite list_lookup_fmap, Hq. split; [done|].
    apply wp_serve; try done. rewrite forallb_forall in Hn. apply Hn.
    apply list_elem_of_In. by eapply list_elem_of_lookup_2.
  - intros i j ci cj _ Hi _. rewrite list_lookup_fmap in Hi. apply fmap_Some in Hi as (q&_&->).
    set_solver.
  - intros t _. split; [apply Hlaw|]. intros i c Hi.
    rewrite list_lookup_fmap in Hi. apply fmap_Some in Hi as (q&_&->). set_solver.
  - unfold count. simpl. lia.
  - intros i c r Hi Hr. rewrite list_lookup_fmap in Hi. by apply fmap_Some in Hi as (q&_&->).
  - intros i c Hi Hr. rewrite list_lookup_fmap in Hi. by apply fmap_Some in Hi as (q&_&->).
Qed.

End ledger.
