(* ===== verification/Guarantees.v ===== *)
(** * What the coordinator guarantees

    Theorems about every schedule of every list of requests: how often an
    approval is used, what is sent to the device, what a crash leaves behind,
    and how records may change.  [setting] collects what they assume of the
    deployment, of the store they start from and of the environment. *)

From S2P Require Import Prelude Externals Lifecycle Types Digest Trust Records Secret Persistence Reload Store StoreFacts Recovery Events World Changeset Apply Operation Protocol Conformance ConformanceApply Soundness Durability System Ledger Contracts.

Section guarantees.
Context `{EX : Externals} `{XL : !ExternalsLaws EX} `{SC : StateCodec} `{CL : !StateCodecLaws SC}.
Context `{DT : DeviceTypes}.

Local Abbreviation ops w := (operations (mem (w_store w))).
Local Abbreviation css w := (change_sets (mem (w_store w))).
Local Abbreviation file w := (disk (w_store w)).

Record setting (cfg : Config) (env : Env) (w : World) (qs : list Request) : Prop := {
  set_limits : deployable cfg;
  set_store : startable cfg w;
  set_env : lawful env (dom (ops w) ∪ dom (css w));
  set_urls : canonical_parses;
  set_named : forallb named qs = true;
}.

Variable cfg : Config.
Variable env : Env.
Variable w : World.
Variable qs : list Request.

(** The system after the turns [ds]. *)
Definition after (ds : list Turn) : Pool unit := schedule cfg env ds (launch cfg w qs).

Lemma after_inv ds : setting cfg env w qs -> inv cfg env (applies <$> qs) (after ds).
Proof.
  intros [Hdep Hs Hl Hu Hn]. eapply inv_schedule; [done..|]. by apply inv_launch.
Qed.

Lemma after_app ds ds' : after (ds ++ ds') = schedule cfg env ds' (after ds).
Proof. unfold after, schedule. by rewrite foldl_app. Qed.

(** ** How records move over time *)

(** Identifiers that were used stay used. *)
Definition since (B : gset string) (w1 w2 : World) : Prop :=
  (forall id, id ∈ B -> ops w1 !! id = None -> ops w2 !! id = None) /\
  (forall id r, id ∈ B -> ops w1 !! id = Some r -> terminal (op_state r) = true ->
     ops w2 !! id = Some r \/ ops w2 !! id = None) /\
  css_rely B (css w1) (css w2).

Lemma cs_later_trans r1 r2 r3 : cs_later r1 r2 -> cs_later r2 r3 -> cs_later r1 r3.
Proof. intros [? ?] [? ?]. split; [by eapply cs_evolves_trans|auto]. Qed.

Lemma since_refl B w1 : since B w1 w1.
Proof. split_and!; [done|auto|apply css_rely_refl]. Qed.

Lemma since_trans B B' w1 w2 w3 : B ⊆ B' -> since B w1 w2 -> since B' w2 w3 -> since B w1 w3.
Proof.
  intros HB (Ha&Ht&Hc) (Ha'&Ht'&Hc'). split_and!.
  - intros id Hid HN. apply Ha'; [set_solver|auto].
  - intros id r Hid Hr Hte. destruct (Ht id r Hid Hr Hte) as [H2|H2].
    + apply Ht'; [set_solver|done..].
    + right. apply Ha'; [set_solver|done].
  - intros id r3 Hid Hr3. destruct (Hc' id r3) as (r2&Hr2&?); [set_solver|done|].
    destruct (Hc id r2 Hid Hr2) as (r1&?&?). exists r1. split; [done|]. by eapply cs_later_trans.
Qed.

Lemma op_step_terminal r o :
  op_step (Some r) o -> terminal (op_state r) = true -> o = Some r \/ o = None.
Proof.
  intros Hs Ht. inversion Hs as [|? ?|? r' Hm| |]; subst; auto.
  apply op_move_live in Hm. congruence.
Qed.

Lemma turn_since kinds B0 B cs p d :
  deployable cfg -> lawful env B0 ->
  base cfg env kinds B cs p -> ledger cfg kinds B (p_world p) cs (p_log p) ->
  exists B' cs', base cfg env kinds B' cs' (turn cfg env d p) /\
    ledger cfg kinds B' (p_world (turn cfg env d p)) cs' (p_log (turn cfg env d p)) /\
    B ⊆ B' /\ since B (p_world p) (p_world (turn cfg env d p)) /\
    forall id, op_step (ops (p_world p) !! id) (ops (p_world (turn cfg env d p)) !! id).
Proof.
  intros Hdep Hlaw Hb Hl. destruct d as [tid|tid].
  - cbn. destruct (p_threads p !! tid) as [[[a|X e k]|]|] eqn:Ht;
      try by (exists B, cs; split_and!; [done..|apply since_refl|constructor]).
    destruct (handle cfg env tid (p_time p) e (p_world p)) as [[x w']|] eqn:Hh;
      [|exists B, cs; split_and!; [done..|apply since_refl|constructor]].
    destruct (b_wp _ _ _ _ _ _ Hb _ _ Ht) as (c&Hc&Hpre&Hnext).
    destruct (base_step cfg env Hdep _ _ _ _ _ _ _ _ _ _ Hlaw Hb Hc Hpre Hh) as (B'&Hs&Hdw).
    exists B', (<[tid := next c e x]> cs). cbn. split_and!.
    + by eapply base_run.
    + by eapply ledger_run.
    + apply Hs.
    + split_and!; [apply Hs| |apply Hs]. intros id r _ Hr Hte.
      eapply op_step_terminal; [|done]. rewrite <-Hr. apply Hs.
    + apply Hs.
  - exists B, (forget tid cs). split_and!.
    + by apply base_drop.
    + by apply ledger_drop.
    + done.
    + split_and!; cbn; [done|auto|apply css_rely_refl].
    + constructor.
Qed.

Lemma schedule_since kinds B0 B cs p ds :
  deployable cfg -> lawful env B0 ->
  base cfg env kinds B cs p -> ledger cfg kinds B (p_world p) cs (p_log p) ->
  since B (p_world p) (p_world (schedule cfg env ds p)).
Proof.
  intros Hdep Hlaw. revert B cs p. induction ds as [|d ds IH]; intros B cs p Hb Hl;
    [apply since_refl|]. unfold schedule. simpl.
  destruct (turn_since _ _ _ _ _ d Hdep Hlaw Hb Hl) as (B'&cs'&Hb'&Hl'&HB&Hs&_).
  eapply since_trans; [exact HB|done|]. by eapply IH.
Qed.

(** ** A restart *)

(** What a load that succeeds starts from. *)
Lemma load_Ok path ttl lab sr locks fate f cfg' s' f' :
  load_with_recovery_and_key (Some path) (limits cfg) ttl lab sr (approval_digest_key cfg) locks
    (process cfg) fate f = (Ok (cfg', s'), f') ->
  (f = None /\ mem s' = recover_state sr empty_state) \/
  exists D, reads cfg f D /\ mem s' = recover_state sr D.
Proof.
  unfold load_with_recovery_and_key. destruct (negb _); [done|].
  destruct (owner_lock locks) as [[]|]; [|done..].
  destruct f as [f|].
  - destruct (rmw_lock locks) as [[]|]; [|done]. simpl.
    destruct (read_state_with_key _ _ _ _) as [D|] eqn:Er; [|done]. simpl.
    intros Hl. right. exists D. split; [by exists f|].
    destruct (recovered sr D); [|by injection Hl as <- <- <-].
    destruct (write_state _ _ _ _ _) as [[[]|] ?]; [|done]. by injection Hl as <- <- <-.
  - intros Hl. left. split; [done|]. revert Hl. simpl.
    destruct (recovered sr empty_state); [|by intros [= <- <- <-]].
    destruct (write_state _ _ _ _ _) as [[[]|] ?]; [|done]. by intros [= <- <- <-].
Qed.

Lemma recover_change_set_spent r :
  approval_spent (cs_state r) = true -> approval_spent (cs_state (recover_change_set r)) = true.
Proof.
  unfold recover_change_set, normalise_task_handle. intros. by repeat case_match.
Qed.

(** A live operation of a device keeps every other one out. *)
Lemma insert_blocked cfg' fate s id r r' :
  operations (mem s) !! id = Some r -> terminal (op_state r) = false ->
  op_device r' = op_device r -> exists e, (insert cfg' fate r' s).1 = Err e.
Proof.
  intros Hr Hl Hd. destruct (insert_cases cfg' fate r' s) as [_ [(_&[_ Hfree _])|(e&He&_)]]; [|eauto].
  exfalso. assert (op_room cfg' (operations (mem s)) !! id = Some r) as Hroom.
  { destruct (op_room_lookup cfg' (operations (mem s)) id) as [->|(r0&?&?&_)]; [done|congruence]. }
  apply Hfree in Hroom. unfold op_conflict in Hroom. rewrite Hl, Hd in Hroom. simpl in Hroom.
  by rewrite bool_decide_eq_true_2 in Hroom.
Qed.

Lemma recover_committing sr r :
  op_state r = Committing -> op_state (recover_operation sr r) = Indeterminate /\
  op_device (recover_operation sr r) = op_device r.
Proof.
  intros E. unfold recover_operation, op_in_flight. rewrite E.
  rewrite (bool_decide_eq_false_2 (Committing = Staged)) by done. by rewrite andb_false_r.
Qed.

(** What holds when a thread is about to commit. *)
Lemma at_commit ds tid staged attribution options k :
  setting cfg env w qs ->
  p_threads (after ds) !! tid = Some (Some (Vis (Commit staged attribution options) k)) ->
  exists id r, ops (p_world (after ds)) !! id = Some r /\ op_state r = Committing /\
    w_guards (p_world (after ds)) !! op_device r = Some tid /\
    (state_path cfg = true -> exists D, reads cfg (file (p_world (after ds))) D /\
       operations D !! id = Some r) /\
    (evidence cfg = true -> Exists (records_intent tid) (p_log (after ds))).
Proof.
  intros (B&cs&Hb&Hl)%(after_inv ds) Ht.
  destruct (b_wp _ _ _ _ _ _ Hb _ _ Ht) as (c&Hc&[(id&r&Hk&Hsafe&Hst) Hi]&_).
  destruct (b_thread _ _ _ _ _ _ Hb _ _ Hc) as [Htc Hdc].
  destruct (known_live _ _ _ _ _ _ Htc Hk) as [Hr Hh]; [by rewrite Hst|].
  exists id, r. split_and!; [done..|by apply (to_held _ _ _ _ Htc)| |].
  - intros Hp. destruct (Hdc id Hsafe) as (r'&Hk'&HD). simplify_eq. apply HD; [by rewrite Hst|done].
  - intros He. eapply l_intent; eauto.
Qed.

(** ** The guarantees *)

(** C1 The approval of a change set is used at most once: in every
    interleaving of any requests, with any failures and dropped futures, the
    threads that apply a change set stage it on the device at most once, and
    only under a claim that succeeded. *)
Theorem approval_used_at_most_once ds id :
  setting cfg env w qs ->
  count (stages (applies <$> qs) id) (p_log (after ds)) <= count (claims id) (p_log (after ds)) <= 1.
Proof.
  intros (B&cs&_&[Hc Hs _ _ _])%(after_inv ds). split; [apply Hs|].
  destruct (count (claims id) (p_log (after ds))) eqn:E; [lia|].
  destruct (Hc id) as (?&_); lia.
Qed.

(** C2 A claimed change set cannot be claimed again after a restart: whatever
    the moment of the crash and whichever writes failed, the state a restart
    loads refuses every later claim of it. *)
Theorem claim_survives_restart ds id path ttl lab sr locks fate cfg' s' f' fate' device handle :
  setting cfg env w qs -> state_path cfg = true ->
  0 < count (claims id) (p_log (after ds)) ->
  load_with_recovery_and_key (Some path) (limits cfg) ttl lab sr (approval_digest_key cfg) locks
    (process cfg) fate (file (p_world (after ds))) = (Ok (cfg', s'), f') ->
  exists e, (claim_change_set_for_apply cfg' fate' id device handle s').1 = Err e.
Proof.
  intros (B&cs&_&[Hc _ _ _ _])%(after_inv ds) Hp Hpos Hl.
  destruct (Hc id Hpos) as (_&_&[_ Hsp]). specialize (Hsp Hp).
  destruct (claim_cases cfg' fate' id device handle s') as [(cur&Hcur&Hst&_)|(e&->)];
    [|by exists e]. exfalso.
  apply load_Ok in Hl as [[_ Hm]|(D&HR&Hm)]; rewrite Hm in Hcur; cbn in Hcur.
  - by rewrite lookup_fmap, lookup_empty in Hcur.
  - rewrite lookup_fmap in Hcur. apply fmap_Some in Hcur as (r&Hr&->).
    apply (Hsp D r HR), recover_change_set_spent in Hr. by rewrite Hst in Hr.
Qed.

(** C5 What an apply stages on the device is the plan it claimed: the actions
    are those of the claimed record, and that record carried an approval the
    coordinator accepts (two persons, or a waiver that is in force). *)
Theorem staged_plan_was_approved ds :
  setting cfg env w qs ->
  each (staged_as_claimed cfg (applies <$> qs)) (p_log (after ds)).
Proof. by intros (B&cs&_&[_ _ _ ? _])%(after_inv ds). Qed.

(** C3 A device is only committed to under its guard, with the operation
    recorded as [Committing] in memory and in the state file, and, where an
    evidence trail is configured, with the intent in it. *)
Theorem commit_is_recorded_first ds tid staged attribution options k :
  setting cfg env w qs ->
  p_threads (after ds) !! tid = Some (Some (Vis (Commit staged attribution options) k)) ->
  (exists id r, ops (p_world (after ds)) !! id = Some r /\ op_state r = Committing /\
     w_guards (p_world (after ds)) !! op_device r = Some tid /\
     (state_path cfg = true -> exists D, reads cfg (file (p_world (after ds))) D /\
        operations D !! id = Some r)) /\
  (evidence cfg = true -> Exists (records_intent tid) (p_log (after ds))).
Proof.
  intros Hs Ht. destruct (at_commit ds tid _ _ _ _ Hs Ht) as (id&r&?&?&?&?&?). split; eauto 10.
Qed.

(** C4 A crash while a device commit is in flight is never forgotten: the
    restart finds the operation [Indeterminate], and no new operation can be
    reserved on that device until an operator has resolved it. *)
Theorem crash_during_commit_blocks ds tid staged attribution options k
  path ttl lab sr locks fate cfg' s' f' :
  setting cfg env w qs -> state_path cfg = true ->
  p_threads (after ds) !! tid = Some (Some (Vis (Commit staged attribution options) k)) ->
  load_with_recovery_and_key (Some path) (limits cfg) ttl lab sr (approval_digest_key cfg) locks
    (process cfg) fate (file (p_world (after ds))) = (Ok (cfg', s'), f') ->
  exists id r, operations (mem s') !! id = Some r /\ op_state r = Indeterminate /\
    w_guards (p_world (after ds)) !! op_device r = Some tid /\
    forall fate' r', op_device r' = op_device r -> exists e, (insert cfg' fate' r' s').1 = Err e.
Proof.
  intros Hs Hp Ht Hl. destruct (at_commit ds tid _ _ _ _ Hs Ht) as (id&r&_&Hst&Hg&HD&_).
  destruct (HD Hp) as (D&HR&Hr).
  apply load_Ok in Hl as [[Hn _]|(D'&HR'&Hm)]; [destruct HR as (f&Hf&_); congruence|].
  rewrite (reads_fun _ _ _ _ HR HR') in Hr. destruct (recover_committing sr r Hst) as [Hi Hd].
  assert (operations (mem s') !! id = Some (recover_operation sr r)) as Hr'.
  { rewrite Hm. cbn. by rewrite lookup_fmap, Hr. }
  exists id, (recover_operation sr r). split_and!; [done..|by rewrite Hd|].
  intros fate' r' Ed. eapply insert_blocked; [done| |done]. by rewrite Hi.
Qed.


(** C7 An operation record only moves along its lifecycle: in each turn of a
    run it stays, is reserved as [Staging], follows an edge of [op_move]
    (keeping its identity, and discarded only with the device lock released),
    or leaves the store settled or never staged. *)
Theorem operation_follows_lifecycle ds d id :
  setting cfg env w qs ->
  op_step (ops (p_world (after ds)) !! id) (ops (p_world (after (ds ++ [d]))) !! id).
Proof.
  intros Hs. destruct (after_inv ds Hs) as (B&cs&Hb&Hl). destruct Hs as [Hdep _ Hlaw _ _].
  rewrite after_app. by destruct (turn_since _ _ _ _ _ d Hdep Hlaw Hb Hl) as (B'&cs'&_&_&_&_&?).
Qed.

(** A settled operation is final: a record that is [Committed] or
    [Discarded] never changes again; it can only leave the store, and its
    identifier is never reused. *)
Theorem settled_operation_is_final ds ds' id r :
  setting cfg env w qs ->
  ops (p_world (after ds)) !! id = Some r -> terminal (op_state r) = true ->
  ops (p_world (after (ds ++ ds'))) !! id = Some r \/
  ops (p_world (after (ds ++ ds'))) !! id = None.
Proof.
  intros Hs Hr Ht. destruct (after_inv ds Hs) as (B&cs&Hb&Hl). destruct Hs as [Hdep _ Hlaw _ _].
  rewrite after_app. eapply schedule_since; [done..| |done|done].
  apply (wo_ops_born _ _ _ (b_world _ _ _ _ _ _ Hb)). eauto.
Qed.

(** C8 What was approved stays what it was: from any moment on, a change set
    that is still stored has the same plan (actions, digest, targets, preview,
    fingerprint, deadline), keeps its approval once it left [Planned], and once
    its approval is spent or withdrawn it never becomes usable again. *)
Theorem approved_plan_is_frozen ds ds' id r r' :
  setting cfg env w qs ->
  css (p_world (after ds)) !! id = Some r ->
  css (p_world (after (ds ++ ds'))) !! id = Some r' ->
  cs_evolves r r' /\ (approval_spent (cs_state r) = true -> approval_spent (cs_state r') = true).
Proof.
  intros Hs Hr Hr'. destruct (after_inv ds Hs) as (B&cs&Hb&Hl). destruct Hs as [Hdep _ Hlaw _ _].
  rewrite after_app in Hr'.
  assert (id ∈ B) as Hid by (apply (wo_css_born _ _ _ (b_world _ _ _ _ _ _ Hb)); eauto).
  destruct (schedule_since _ _ _ _ _ ds' Hdep Hlaw Hb Hl) as (_&_&Hc).
  destruct (Hc id r' Hid Hr') as (r0&Hr0&?). by simplify_eq.
Qed.

End guarantees.

(** ** Starting up *)

Section startup.
Context `{EX : Externals} `{XL : !ExternalsLaws EX} `{SC : StateCodec} `{CL : !StateCodecLaws SC}.

Lemma reloadable_startable (cfg : Config) s :
  reloadable (approval_digest_key cfg) (mem s) -> readable cfg (disk s) ->
  startable cfg {| w_store := s; w_guards := ∅ |}.
Proof.
  intros (Hso&Hsc&Ho&Hc) Hd. split; [|done|done]. split; cbn; try done.
  - intros k r Hr. apply (Hc k r Hr). split; lia.
  - intros k Hk. apply elem_of_union_l. by apply elem_of_dom.
  - intros k Hk. apply elem_of_union_r. by apply elem_of_dom.
Qed.

(** A restart that succeeds re-establishes everything the guarantees start
    from: the recovered state is valid, and the state file can be read again.
    With a configured approval key this needs a file of version 4 or later. *)
Theorem load_is_startable path lim ttl lab sr key locks proc fate f cfg' s' f' :
  (max_state_bytes lim <= u64_max)%N ->
  (forall g on, f = Some g -> from_slice (f_data g) = Ok on -> key <> None ->
     (4 <= od_version on)%N) ->
  load_with_recovery_and_key (Some path) lim ttl lab sr key locks proc fate f = (Ok (cfg', s'), f') ->
  disk s' = f' /\ recovered sr (mem s') = false /\
  startable cfg' {| w_store := s'; w_guards := ∅ |}.
Proof.
  intros Hmax Hver. unfold load_with_recovery_and_key.
  set (conf := Build_Config true lim ttl lab key false proc). destruct (negb _); [done|].
  destruct (owner_lock locks) as [[]|]; [|done..].
  assert (forall D d, reloadable key D -> readable conf d ->
    (if recovered sr D then
       let '(res, file') := write_state proc (max_state_bytes lim) fate (recover_state sr D) d in
       match res with
       | Err e => (Err (persistence_to_coordinator e), file')
       | Ok _ => (Ok (conf, {| mem := recover_state sr D; disk := file' |}), file')
       end
     else (Ok (conf, {| mem := recover_state sr D; disk := d |}), d)) = (Ok (cfg', s'), f') ->
    disk s' = f' /\ recovered sr (mem s') = false /\
    startable cfg' {| w_store := s'; w_guards := ∅ |}) as Hgo.
  { intros D d HD Hd. pose proof (recover_reloadable sr key D HD) as HR.
    destruct (recovered sr D).
    - destruct (write_state proc _ fate _ d) as [[[]|] file'] eqn:Ew; [|done].
      intros [= <- <- <-]. split_and!; [done|apply recover_state_settled|].
      apply reloadable_startable; [done|]. cbn.
      destruct (disk_write_reads conf Hmax (fun _ => True) d file') as [->|(M&_&?)]; [done| |done|].
      { exists fate, (recover_state sr D). split_and!; [done..|]. cbn. by rewrite Ew. }
      right. eauto.
    - intros [= <- <- <-]. split_and!; [done|apply recover_state_settled|].
      by apply reloadable_startable. }
  destruct f as [f|].
  - destruct (rmw_lock locks) as [[]|]; [|done]. simpl.
    destruct (read_state_with_key _ _ _ _) as [D|] eqn:Er; [|done]. simpl. apply Hgo.
    + eapply read_reloadable; [done|]. destruct key as [k|]; [right|by left].
      intros on Hon. by eapply Hver.
    + right. exists D. by exists f.
  - apply (Hgo empty_state None); [|by left]. split_and!; try done; unfold empty_state; cbn; lia.
Qed.

End startup.
