(* ===== verification/Scenario.v ===== *)
(** * Concrete runs

    A small deployment with a device whose actions are strings, and two runs
    of it: a change set that is created, approved and applied by two threads at
    once, and an operation that is staged, validated and committed.  They show
    that the assumptions of Guarantees.v can hold, with everything evaluated. *)

From Stdlib Require Import Ascii.
From S2P Require Import Prelude Externals Lifecycle Types Digest Trust Records Secret Persistence Reload Store StoreFacts Recovery Events World Changeset Apply Operation Protocol Conformance ConformanceApply Soundness Durability System Ledger Guarantees.

#[local] Existing Instance toy_externals.
#[local] Existing Instance toy_externals_laws.
#[local] Existing Instance toy_codec.
#[local] Existing Instance toy_codec_laws.

(** ** The deployment *)

Definition toy_device : DeviceTypes := {|
  Action := string; StagedHandle := list string; Diff := unit; Validation := unit;
  action_to_value a := Ok (JString a);
  action_from_value j := match j with JString a => Ok a | _ => Err "not a string" end;
|}.
#[local] Existing Instance toy_device.

Definition toy_config : Config := {|
  state_path := true; limits := default_limits; approval_ttl := 3600; lab_mode := false;
  approval_digest_key := None; evidence := true;
  process := {| euid := 1000; temp_gid := 1000; can_chown := false |} |}.

Definition toy_fingerprint : string := "sha256:" +:+ id_of 0.

(** Thirty-two seeds, one per moment; writes and device calls succeed. *)
Definition toy_env : Env := {|
  clock _ := Ok 1000%N;
  entropy t := if Nat.ltb t 32 then Ok (N.of_nat t) else Err "exhausted";
  hash_seed _ := 0%N; cancelled _ := false;
  persist _ := Written FateOk; persist_sweep _ := Written FateOk; spool _ := Ok tt;
  dev_fingerprint _ := Ok toy_fingerprint;
  dev_stage _ actions := Ok actions;
  dev_diff _ _ := Ok tt; dev_validate _ _ := Ok tt;
  dev_commit _ _ := Ok (Reconciled true (Some "job-1") None);
  dev_rollback _ _ := Ok {| rb_succeeded := true; rb_details := None |};
  dev_lock _ := Ok tt; dev_unlock _ := Ok Released |}.

Definition toy_world : World := {|
  w_store := {| mem := empty_state; disk := None |}; w_guards := ∅ |}.

(** ** Its assumptions hold *)

Lemma split_at_app c s a b t :
  Toy.split_at c s = Some (a, b) -> Toy.split_at c (a +:+ String c t) = Some (a, t).
Proof.
  revert a b. induction s as [|d s IH]; intros a b; simpl; [done|].
  destruct (Ascii.eqb c d) eqn:E.
  - intros [= <- <-]. simpl. by rewrite Ascii.eqb_refl.
  - destruct (Toy.split_at c s) as [[x y]|]; simpl; [|done]. intros [= <- <-]. simpl.
    rewrite E. by erewrite IH.
Qed.

Lemma canonical_form_shape scheme host u :
  exists rest, canonical_form scheme host u = scheme +:+ String ":" ("//" +:+ rest).
Proof.
  unfold canonical_form. repeat case_match; rewrite ?str_app_assoc; by eexists.
Qed.

Lemma toy_urls : canonical_parses.
Proof.
  intros e c. unfold Apply.canonicalize_endpoint.
  intros (u&Hu%map_err_Ok&(host&_&[= <-])%result_bind_Ok)%result_bind_Ok.
  destruct (canonical_form_shape (url_scheme u) host u) as [rest ->].
  change (ok_or (Toy.parse e) "relative URL without a base" = Ok u) in Hu.
  change (is_ok (ok_or (Toy.parse (url_scheme u +:+ String ":" ("//" +:+ rest)))
    "relative URL without a base") = true).
  unfold Toy.parse in *.
  destruct (Toy.split_at ":" e) as [[sch r]|] eqn:Es;
    cbn [mbind option_bind ok_or] in Hu; [|done].
  destruct (strip_prefix "//" r) as [r'|]; cbn [mbind option_bind ok_or] in Hu; [|done].
  assert (url_scheme u = sch) as -> by (by destruct (Toy.split_at "/" r') as [[]|]; simplify_eq/=).
  erewrite split_at_app by done. cbn. by destruct (Toy.split_at "/" rest) as [[]|].
Qed.

Definition toy_ids : list string := (fun t => id_of (N.of_nat t)) <$> seq 0 32.

Lemma toy_lawful : lawful toy_env ∅.
Proof.
  assert (bool_decide (NoDup toy_ids) = true) as Hd%bool_decide_eq_true by (vm_compute; reflexivity).
  split.
  - intros t t' Hne. unfold drawn. cbn [entropy toy_env].
    destruct (Nat.ltb_spec t 32), (Nat.ltb_spec t' 32);
      try (apply disjoint_empty_l || apply disjoint_empty_r).
    apply disjoint_singleton_l, not_elem_of_singleton. intros E. apply Hne.
    rewrite NoDup_alt in Hd. apply (Hd t t' (id_of (N.of_nat t))); unfold toy_ids;
      rewrite list_lookup_fmap, lookup_seq_lt by done;
      [reflexivity|exact (f_equal Some (eq_sym E))].
  - intros t. apply disjoint_empty_r.
  - intros t fp [= <-]. vm_compute. reflexivity.
Qed.

Lemma toy_startable : startable toy_config toy_world.
Proof.
  split; [|by left|done]. split; cbn; try done; try lia; intros k; rewrite lookup_empty; intros [? ?];
    done.
Qed.

Lemma toy_deployable : deployable toy_config.
Proof. split; vm_compute; discriminate. Qed.

Lemma toy_setting qs : forallb named qs = true -> setting toy_config toy_env toy_world qs.
Proof.
  intros Hn. split; [apply toy_deployable|apply toy_startable| |apply toy_urls|done].
  change (dom _ ∪ dom _) with (∅ ∪ ∅ : gset string). rewrite union_empty_l_L. apply toy_lawful.
Qed.

(** ** A change set, applied by two threads at once *)

Definition toy_cs_id : string := id_of 1.

Definition toy_digest : string :=
  match change_set_digest "alice" "fw1" toy_fingerprint [JString "set mtu 9000"] with
  | Ok d => d
  | Err _ => ""
  end.

Definition toy_apply : ApplyArgs := {|
  aa_change_set_id := toy_cs_id; aa_device := "fw1"; aa_endpoint := "https://fw1.example/";
  aa_owner := "alice"; aa_expected_digest := toy_digest;
  aa_expected_fingerprint := toy_fingerprint; aa_requires_config_lock := true;
  aa_primary_action_discriminator := "set"; aa_vendor_primary_target := None;
  aa_config_authority := None |}.

Definition change_requests : list Request := [
  ReqCreate "fw1" ["set mtu 9000"] "alice" toy_fingerprint "policy-1";
  ReqApprove toy_cs_id "fw1" "bob" toy_digest Human;
  ReqApply toy_apply;
  ReqApply toy_apply ].

Definition runs (tid n : nat) : list Turn := replicate n (Run tid).

(** The two applies alternate after the approval. *)
Definition change_schedule : list Turn :=
  runs 0 8 ++ runs 1 8 ++ concat (replicate 40 [Run 2; Run 3]).

(** ** An operation, up to its commit *)

Definition toy_op_id : string := id_of 2.

Definition toy_stage : StageArgs := {|
  sa_device := "fw2"; sa_owner := "alice"; sa_expected_fingerprint := toy_fingerprint;
  sa_endpoint := "https://fw2.example/"; sa_requires_config_lock := true;
  sa_actions := ["set mtu 1500"]; sa_primary_action_discriminator := "set";
  sa_vendor_primary_target := None; sa_policy_signature := ""; sa_config_authority := None |}.

Definition toy_commit : CommitArgs := {|
  ca_operation_id := toy_op_id; ca_device := "fw2"; ca_owner := "alice";
  ca_expected_fingerprint := toy_fingerprint; ca_current_policy_signature := "";
  ca_staged := ["set mtu 1500"];
  ca_attribution := {| attr_principal := PUnauthenticated; attr_actor_type := Human;
    attr_agent := None; attr_on_behalf_of := None; attr_change_ref := None;
    attr_request_id := "req-1" |};
  ca_options := {| confirm_timeout := None |} |}.

Definition operation_requests : list Request := [
  ReqStage toy_stage;
  ReqValidate toy_op_id "fw2" "alice" toy_fingerprint ["set mtu 1500"];
  ReqCommit toy_commit ].

(** The committing thread has recorded its intent and stands before the device. *)
Definition commit_schedule : list Turn := runs 0 12 ++ runs 1 9 ++ runs 2 8.

(** ** Reading results off a run *)

Lemma is_ok_Ok {A E} (r : result A E) : is_ok r = true -> exists a, r = Ok a.
Proof. destruct r; [eauto|done]. Qed.

Definition test {A} (f : A -> bool) (o : option A) : bool :=
  match o with Some a => f a | None => false end.

Lemma test_Some {A} (f : A -> bool) o : test f o = true -> exists a, o = Some a /\ f a = true.
Proof. destruct o; [eauto|done]. Qed.

Definition commits {A} (q : prog A) : bool :=
  match q with Vis (Commit _ _ _) _ => true | _ => false end.

Lemma commits_Vis {A} (q : prog A) :
  commits q = true -> exists s a o k, q = Vis (Commit s a o) k.
Proof. destruct q as [|X []]; try done. eauto. Qed.

Local Abbreviation changed := (after toy_config toy_env toy_world change_requests).
Local Abbreviation operated := (after toy_config toy_env toy_world operation_requests).
Local Abbreviation mem_of p := (mem (w_store (p_world p))).
Local Abbreviation disk_of p := (disk (w_store (p_world p))).

Lemma change_setting : setting toy_config toy_env toy_world change_requests.
Proof. by apply toy_setting. Qed.

Lemma operation_setting : setting toy_config toy_env toy_world operation_requests.
Proof. by apply toy_setting. Qed.

(** A restart from what a run left on disk. *)
Local Abbreviation restart p :=
  (load_with_recovery_and_key (Some "/var/lib/mecmcp/state.json") (limits toy_config) 3600 false
    RecoverDiscard (approval_digest_key toy_config)
    {| rmw_lock := Ok tt; owner_lock := Ok true |} (process toy_config) FateOk (disk_of p)).

Lemma restart_Ok (out : result (Config * Store) CoordinatorError * option StateFile) :
  is_ok out.1 = true -> exists cfg' s' f', out = (Ok (cfg', s'), f').
Proof. destruct out as [[[cfg' s']|e] f']; [eauto|done]. Qed.

(** What the runs compute. *)

Lemma change_restarts : exists cfg' s' f', restart (changed change_schedule) = (Ok (cfg', s'), f').
Proof. apply restart_Ok. vm_compute. reflexivity. Qed.

Lemma commit_restarts :
  exists cfg' s' f', restart (operated commit_schedule) = (Ok (cfg', s'), f').
Proof. apply restart_Ok. vm_compute. reflexivity. Qed.

Lemma change_claimed : 0 < count (claims toy_cs_id) (p_log (changed change_schedule)).
Proof. apply Nat.ltb_lt. vm_compute. reflexivity. Qed.

Lemma change_staged :
  count (stages (applies <$> change_requests) toy_cs_id) (p_log (changed change_schedule)) = 1.
Proof. vm_compute. reflexivity. Qed.

Lemma before_commit : exists staged attribution options k,
  p_threads (operated commit_schedule) !! 2
  = Some (Some (Vis (Commit staged attribution options) k)).
Proof.
  destruct (test_Some (test commits) (p_threads (operated commit_schedule) !! 2))
    as (o&Ho&(q&->&(s&a&opt&k&->)%commits_Vis)%test_Some); [vm_compute; reflexivity|].
  exists s, a, opt, k. exact Ho.
Qed.

Lemma commit_file : exists f, disk_of (operated commit_schedule) = Some f.
Proof.
  destruct (test_Some (fun _ => true) (disk_of (operated commit_schedule))) as (f&Hf&_);
    [vm_compute; reflexivity|]. exists f. exact Hf.
Qed.

Lemma commit_settles : exists r,
  operations (mem_of (operated (commit_schedule ++ runs 2 4))) !! toy_op_id = Some r /\
  op_state r = Committed.
Proof.
  destruct (test_Some (fun r => bool_decide (op_state r = Committed))
    (operations (mem_of (operated (commit_schedule ++ runs 2 4))) !! toy_op_id))
    as (r&Hr&Hs%bool_decide_eq_true); [vm_compute; reflexivity|]. exists r. exact (conj Hr Hs).
Qed.

Lemma change_approved : exists r,
  change_sets (mem_of (changed (runs 0 8 ++ runs 1 8))) !! toy_cs_id = Some r /\
  cs_state r = Approved.
Proof.
  destruct (test_Some (fun r => bool_decide (cs_state r = Approved))
    (change_sets (mem_of (changed (runs 0 8 ++ runs 1 8))) !! toy_cs_id))
    as (r&Hr&Hs%bool_decide_eq_true); [vm_compute; reflexivity|]. exists r. exact (conj Hr Hs).
Qed.

Lemma change_applied : exists r,
  change_sets (mem_of (changed ((runs 0 8 ++ runs 1 8) ++ runs 2 30))) !! toy_cs_id = Some r /\
  cs_state r = Applied.
Proof.
  destruct (test_Some (fun r => bool_decide (cs_state r = Applied))
    (change_sets (mem_of (changed ((runs 0 8 ++ runs 1 8) ++ runs 2 30))) !! toy_cs_id))
    as (r&Hr&Hs%bool_decide_eq_true); [vm_compute; reflexivity|]. exists r. exact (conj Hr Hs).
Qed.

(** ** The guarantees apply to these runs *)

Lemma approval_used_at_most_once_witness :
  count (stages (applies <$> change_requests) toy_cs_id) (p_log (changed change_schedule)) = 1 /\
  count (stages (applies <$> change_requests) toy_cs_id) (p_log (changed change_schedule))
  <= count (claims toy_cs_id) (p_log (changed change_schedule)) <= 1.
Proof.
  split; [exact change_staged|].
  exact (approval_used_at_most_once toy_config toy_env toy_world change_requests change_schedule
           toy_cs_id change_setting).
Defined.

Lemma claim_survives_restart_witness :
  exists cfg' s' f', restart (changed change_schedule) = (Ok (cfg', s'), f') /\
    exists e, (claim_change_set_for_apply cfg' (Written FateOk) toy_cs_id "fw1" HandleExpected s').1
              = Err e.
Proof.
  destruct change_restarts as (cfg'&s'&f'&E). exists cfg', s', f'. split; [exact E|].
  exact (claim_survives_restart toy_config toy_env toy_world change_requests change_schedule
    toy_cs_id _ _ _ _ _ _ _ _ _ _ _ _ change_setting eq_refl change_claimed E).
Defined.

Lemma staged_plan_was_approved_witness :
  count (stages (applies <$> change_requests) toy_cs_id) (p_log (changed change_schedule)) = 1 /\
  each (staged_as_claimed toy_config (applies <$> change_requests)) (p_log (changed change_schedule)).
Proof.
  split; [exact change_staged|].
  exact (staged_plan_was_approved toy_config toy_env toy_world change_requests change_schedule
           change_setting).
Defined.

Lemma commit_is_recorded_first_witness :
  exists staged attribution options k,
    p_threads (operated commit_schedule) !! 2
    = Some (Some (Vis (Commit staged attribution options) k)) /\
    (exists id r, operations (mem_of (operated commit_schedule)) !! id = Some r /\
       op_state r = Committing /\
       w_guards (p_world (operated commit_schedule)) !! op_device r = Some 2 /\
       (state_path toy_config = true ->
        exists D, reads toy_config (disk_of (operated commit_schedule)) D /\
          operations D !! id = Some r)) /\
    (evidence toy_config = true -> Exists (records_intent 2) (p_log (operated commit_schedule))).
Proof.
  destruct before_commit as (s&a&opt&k&Ho). exists s, a, opt, k. split; [exact Ho|].
  exact (commit_is_recorded_first toy_config toy_env toy_world operation_requests commit_schedule
           2 s a opt k operation_setting Ho).
Defined.

Lemma crash_during_commit_blocks_witness :
  exists cfg' s' f', restart (operated commit_schedule) = (Ok (cfg', s'), f') /\
    exists id r, operations (mem s') !! id = Some r /\ op_state r = Indeterminate /\
      w_guards (p_world (operated commit_schedule)) !! op_device r = Some 2 /\
      forall fate' r', op_device r' = op_device r -> exists e, (insert cfg' fate' r' s').1 = Err e.
Proof.
  destruct before_commit as (s&a&opt&k&Ho). destruct commit_restarts as (cfg'&s'&f'&E).
  exists cfg', s', f'. split; [exact E|].
  exact (crash_during_commit_blocks toy_config toy_env toy_world operation_requests commit_schedule
           2 s a opt k _ _ _ _ _ _ _ _ _ operation_setting eq_refl Ho E).
Defined.


Lemma operation_follows_lifecycle_witness :
  op_step (operations (mem_of (operated commit_schedule)) !! toy_op_id)
    (operations (mem_of (operated (commit_schedule ++ [Run 2]))) !! toy_op_id).
Proof.
  exact (operation_follows_lifecycle toy_config toy_env toy_world operation_requests commit_schedule
           (Run 2) toy_op_id operation_setting).
Defined.

Lemma settled_operation_is_final_witness :
  exists r, op_state r = Committed /\
    operations (mem_of (operated (commit_schedule ++ runs 2 4))) !! toy_op_id = Some r /\
    (operations (mem_of (operated ((commit_schedule ++ runs 2 4) ++ runs 0 9))) !! toy_op_id
     = Some r \/
     operations (mem_of (operated ((commit_schedule ++ runs 2 4) ++ runs 0 9))) !! toy_op_id
     = None).
Proof.
  destruct commit_settles as (r&Hr&Hs). exists r. split; [exact Hs|]. split; [exact Hr|].
  refine (settled_operation_is_final toy_config toy_env toy_world operation_requests
           (commit_schedule ++ runs 2 4) (runs 0 9) toy_op_id r operation_setting Hr _).
  rewrite Hs. reflexivity.
Defined.

Lemma approved_plan_is_frozen_witness :
  exists r r',
    change_sets (mem_of (changed (runs 0 8 ++ runs 1 8))) !! toy_cs_id = Some r /\
    cs_state r = Approved /\ cs_state r' = Applied /\
    cs_evolves r r' /\
    (approval_spent (cs_state r) = true -> approval_spent (cs_state r') = true).
Proof.
  destruct change_approved as (r&Hr&Hs), change_applied as (r'&Hr'&Hs').
  exists r, r'. split; [exact Hr|]. split; [exact Hs|]. split; [exact Hs'|].
  exact (approved_plan_is_frozen toy_config toy_env toy_world change_requests
           (runs 0 8 ++ runs 1 8) (runs 2 30) toy_cs_id r r' change_setting Hr Hr').
Defined.

Lemma load_is_startable_witness :
  exists cfg' s' f', restart (operated commit_schedule) = (Ok (cfg', s'), f') /\
    disk s' = f' /\ recovered RecoverDiscard (mem s') = false /\
    startable cfg' {| w_store := s'; w_guards := ∅ |}.
Proof.
  destruct commit_restarts as (cfg'&s'&f'&E). exists cfg', s', f'. split; [exact E|].
  refine (load_is_startable _ _ _ _ _ _ _ _ _ _ _ _ _ _ _ E).
  - vm_compute. discriminate.
  - intros g on _ _ Hk. contradiction Hk. reflexivity.
Defined.
