(* ===== verification/Witnesses.v ===== *)
(** * The contracts on concrete inputs

    The theorems of Contracts.v and Handlers.v applied to the toy deployment of
    Scenario.v, and the behaviours that surprised: each of the last section's
    examples is a run of the model that the code's own comments rule out. *)

From S2P Require Import Prelude Externals Lifecycle Types Digest Trust Records Secret Persistence Reload Store StoreFacts Recovery Events World Changeset Contracts Apply Operation Handlers Protocol Conformance System Ledger Guarantees Scenario.

#[local] Existing Instance toy_externals.
#[local] Existing Instance toy_externals_laws.
#[local] Existing Instance toy_codec.
#[local] Existing Instance toy_codec_laws.
#[local] Existing Instance toy_device.

Definition toy_record : ChangeSetRecord := {|
  cs_id := toy_cs_id; cs_owner := "alice"; cs_device := "fw1";
  cs_expected_candidate_fingerprint := toy_fingerprint;
  cs_actions := [JString "set mtu 9000"]; cs_digest := toy_digest; cs_state := Planned;
  cs_approver := None; cs_approval := None; cs_expires_at_unix := 4600;
  cs_operation_id := None; cs_policy_signature := "policy-1"; cs_targets := [];
  cs_preview := None; cs_task_id := None; cs_apply_without_handle := false |}.

Definition toy_operation : OperationRecord := stage_record toy_stage toy_op_id "https://fw2.example" [JString "set mtu 1500"].

Definition toy_state : ChangesetState := {|
  operations := {[ toy_op_id := toy_operation ]}; change_sets := {[ toy_cs_id := toy_record ]} |}.

Definition empty_store : Store := {| mem := empty_state; disk := None |}.

Definition one_created : Store :=
  (insert_change_set toy_config (Ok 1000%N) (Written FateOk) (Written FateOk) toy_record empty_store).2.

Lemma empty_css k : change_sets (mem empty_store) !! k = None.
Proof. exact (lookup_empty k). Qed.

Lemma empty_ops k : operations (mem empty_store) !! k = None.
Proof. exact (lookup_empty k). Qed.

Lemma empty_keyed : well_keyed (change_sets (mem empty_store)).
Proof. intros k r Hr. by rewrite empty_css in Hr. Qed.

Lemma one_created_step : rtc (store_step toy_config) empty_store one_created.
Proof. apply rtc_once. exact (do_insert_cs _ _ _ _ _ _). Qed.

Lemma toy_reloadable : reloadable None toy_state.
Proof.
  assert (validate_state_with_key toy_state 7 None = Ok tt) as Hv by (vm_compute; reflexivity).
  apply validated_reloadable in Hv; [|by left]. exact Hv.
Qed.

(** ** The coordinator's maps *)

Lemma store_refines_lifecycle_witness :
  bool_decide (is_Some (change_sets (mem one_created) !! toy_cs_id)) = true /\
  well_keyed (change_sets (mem one_created)) /\
  forall k, rtc cs_step (change_sets (mem empty_store) !! k) (change_sets (mem one_created) !! k).
Proof.
  split; [vm_compute; reflexivity|].
  exact (store_refines_lifecycle toy_config empty_store one_created empty_keyed one_created_step).
Defined.

Lemma lifecycle_terminates_witness :
  nsteps state_change 1 toy_record (set_cs_state Expired toy_record) /\
  1 + lifecycle_rank Expired <= lifecycle_rank Planned <= 5.
Proof.
  assert (nsteps state_change 1 toy_record (set_cs_state Expired toy_record)) as H.
  { apply nsteps_once. split; [apply step_expire; reflexivity|discriminate]. }
  split; [exact H|]. exact (lifecycle_terminates 1 toy_record (set_cs_state Expired toy_record) H).
Defined.

Lemma insert_keeps_devices_exclusive_witness :
  let out := insert toy_config (Written FateOk) toy_operation empty_store in
  is_ok out.1 = true /\ exclusive (operations (mem out.2)) /\
  (out.1 = Ok tt -> operations (mem out.2) !! op_id toy_operation = Some toy_operation /\
     (N.of_nat (size (operations (mem out.2))) <= max_operations (limits toy_config))%N) /\
  (out.1 <> Ok tt -> operations (mem out.2) ⊆ operations (mem empty_store)).
Proof.
  cbv zeta. split; [vm_compute; reflexivity|].
  refine (insert_keeps_devices_exclusive toy_config (Written FateOk) toy_operation empty_store _ _).
  - intros k k' e e' _ He. rewrite empty_ops in He. discriminate He.
  - apply empty_ops.
Defined.

Lemma one_pending_change_set_witness :
  one_pending (change_sets (mem one_created)).
Proof.
  refine (one_pending_change_set toy_config empty_store one_created empty_keyed _ one_created_step).
  intros k k' r r' _ Hr. rewrite empty_css in Hr. discriminate Hr.
Defined.

(** ** Digests and the state file *)

Lemma approval_digest_binds_witness :
  toy_cs_id = toy_cs_id /\ cs_digest toy_record = cs_digest toy_record /\
  pv_digest <$> cs_preview toy_record = pv_digest <$> cs_preview toy_record /\
  cs_owner toy_record = cs_owner toy_record /\ "bob" = "bob" /\ 1000%N = 1000%N.
Proof.
  exact (approval_digest_binds toy_config toy_cs_id toy_record "bob" 1000 toy_cs_id toy_record "bob"
           1000 (fun _ => eq_refl) eq_refl).
Defined.

Lemma plan_digest_binds_witness :
  "alice" = "alice" /\ "fw1" = "fw1" /\ toy_fingerprint = toy_fingerprint /\
  [JString "set mtu 9000"] = [JString "set mtu 9000"] /\ ["fw1"; "fw2"] = ["fw1"; "fw2"].
Proof.
  refine (plan_digest_binds "alice" "fw1" toy_fingerprint [JString "set mtu 9000"] ["fw1"; "fw2"]
            "alice" "fw1" toy_fingerprint [JString "set mtu 9000"] ["fw1"; "fw2"] _ _ eq_refl eq_refl).
  intros _. reflexivity.
Defined.

Lemma state_file_round_trip_witness :
  exists f, (write_state (process toy_config) 1048576 FateOk toy_state None).2 = Some f /\
    read_state_with_key (euid (process toy_config)) (Ok f) 1048576 None
    = Ok (drop_empty_handles toy_state).
Proof.
  refine (state_file_round_trip (process toy_config) 1048576 FateOk toy_state None None
            _ toy_reloadable _ _).
  - vm_compute. discriminate.
  - intros f. discriminate.
  - vm_compute. reflexivity.
Defined.

Lemma selected_version_is_adequate_witness :
  (1 <= select_version toy_state <= 7)%N /\
  validate_change_set_record (select_version toy_state) None toy_cs_id toy_record
  = validate_change_set_record 7 None toy_cs_id toy_record /\
  migrate_state (select_version toy_state) toy_state = toy_state.
Proof.
  refine (selected_version_is_adequate toy_state None toy_cs_id toy_record _).
  apply lookup_singleton_eq.
Defined.

(** ** Restart and repair *)

Local Abbreviation restarted f :=
  (load_with_recovery_and_key (Some "/var/lib/mecmcp/state.json") (limits toy_config) 3600 false
    RecoverDiscard (approval_digest_key toy_config)
    {| rmw_lock := Ok tt; owner_lock := Ok true |} (process toy_config) FateOk f).

Local Abbreviation crashed_file :=
  (disk (w_store (p_world (after toy_config toy_env toy_world operation_requests commit_schedule)))).

Lemma second_restart_is_identity_witness :
  exists cfg s f, restarted crashed_file = (Ok (cfg, s), f) /\ restarted f = (Ok (cfg, s), f).
Proof.
  destruct commit_restarts as (cfg&s&f&E). exists cfg, s, f. split; [exact E|].
  refine (second_restart_is_identity _ _ _ _ _ _ _ _ _ _ _ _ _ _ _ _ E).
  - vm_compute. discriminate.
  - intros g on _ _ Hk. contradiction Hk. reflexivity.
Defined.

Local Abbreviation resolved :=
  (resolve_persisted_operation "/var/lib/mecmcp/state.json" toy_op_id DispCommitted
    ("RESOLVED " +:+ toy_op_id +:+ " AS COMMITTED") (limits toy_config)
    {| rmw_lock := Ok tt; owner_lock := Ok true |} (process toy_config) FateOk crashed_file).

Lemma crash_resolves : exists out f', resolved = (Ok out, f').
Proof.
  assert (is_ok resolved.1 = true) as H by (vm_compute; reflexivity).
  destruct resolved as [[out|e] f']; [exists out, f'; exact eq_refl|discriminate H].
Qed.

Lemma resolution_changes_one_operation_witness :
  exists out f', resolved = (Ok out, f') /\
    exists g st r g', crashed_file = Some g /\
      read_state (euid (process toy_config)) (Ok g) (max_state_bytes (limits toy_config)) = Ok st /\
      operations st !! toy_op_id = Some r /\ terminal (op_state r) = false /\ f' = Some g' /\
      read_state (euid (process toy_config)) (Ok g') (max_state_bytes (limits toy_config))
      = Ok (drop_empty_handles
              (set_operations (<[toy_op_id := resolve_record DispCommitted r]>) st)) /\
      terminal (op_state (resolve_record DispCommitted r)) = true /\
      op_config_lock_held (resolve_record DispCommitted r) = false.
Proof.
  destruct crash_resolves as (out&f'&E). exists out, f'. split; [exact E|].
  assert ((max_state_bytes (limits toy_config) <= u64_max)%N) as Hmax by (vm_compute; discriminate).
  exact (proj2 (proj2 (resolution_changes_one_operation _ _ _ _ _ _ _ _ _ _ _ Hmax E))).
Defined.

(** ** Handlers *)

Definition created_world : World := {|
  w_store := one_created; w_guards := ∅ |}.

Lemma created_keyed : well_keyed (change_sets (mem (w_store created_world))).
Proof. by apply (store_step_cs toy_config empty_store one_created empty_keyed), do_insert_cs. Qed.

Definition succeeds {A} (p : prog (result A CoordinatorError)) (w : World) : bool :=
  match run toy_config toy_env 0 p w with (Some (Ok _, _), _) => true | _ => false end.

Lemma succeeds_returns {A} (p : prog (result A CoordinatorError)) w :
  succeeds p w = true -> exists out w', returns toy_config toy_env 0 p w (Ok out) w'.
Proof.
  unfold succeeds, returns. destruct (run toy_config toy_env 0 p w) as [[[[out|e] w']|] log];
    intros H; try discriminate H. exists out, w', log. reflexivity.
Qed.

Local Abbreviation approve_request :=
  (approve_change_set toy_config toy_cs_id "fw1" "bob" toy_digest Human).

Lemma approval_needs_a_second_human_witness :
  exists out w', returns toy_config toy_env 0 approve_request created_world (Ok out) w' /\
    exists r now, change_sets (mem (w_store created_world)) !! toy_cs_id = Some r /\
      cs_device r = "fw1" /\ cs_state r = Planned /\ cs_digest r = toy_digest /\
      cs_owner r <> "bob" /\ Human = Human /\ (now < cs_expires_at_unix r)%N /\
      change_sets (mem (w_store w'))
      = <[toy_cs_id := normalise (approved toy_config toy_cs_id r "bob" now)]>
          (change_sets (mem (w_store created_world))) /\
      operations (mem (w_store w')) = operations (mem (w_store created_world)).
Proof.
  destruct (succeeds_returns approve_request created_world) as (out&w'&H); [vm_compute; reflexivity|].
  exists out, w'. split; [exact H|].
  exact (approval_needs_a_second_human toy_config toy_env 0 toy_cs_id "fw1" "bob" toy_digest Human
           created_world out w' created_keyed H).
Defined.

Lemma cancel_is_idempotent_witness :
  exists out w', returns toy_config toy_env 0 (cancel_change_set toy_cs_id "fw1" "alice")
                   created_world (Ok out) w' /\
    exists r, change_sets (mem (w_store w')) !! toy_cs_id = Some r /\ cs_state r = Cancelled /\
      forall t' principal', returns toy_config toy_env t'
        (cancel_change_set toy_cs_id "fw1" principal') w' (Ok (change_set_output r)) w'.
Proof.
  destruct (succeeds_returns (cancel_change_set toy_cs_id "fw1" "alice") created_world)
    as (out&w'&H); [vm_compute; reflexivity|].
  exists out, w'. split; [exact H|].
  exact (cancel_is_idempotent toy_config toy_env 0 toy_cs_id "fw1" "alice" created_world out w'
           created_keyed H).
Defined.

Definition world_after {A} (p : prog A) (w : World) : World :=
  match (run toy_config toy_env 0 p w).1 with Some x => x.2 | None => w end.

(** What an operator's waiver leaves on a deployment without lab mode. *)
Definition waived_world : World :=
  world_after (waive_approval_operator toy_config toy_cs_id "fw1" "alice" toy_digest OperatorTool
                 "outage" None (Some "INC-1")) created_world.

Lemma waiver_needs_lab_mode_to_apply_witness :
  exists r, change_sets (mem (w_store waived_world)) !! toy_cs_id = Some r /\
    cs_state r = Approved /\
    ~ exists out w', returns toy_config toy_env 0 (apply_change_set toy_config toy_apply)
                       waived_world (Ok out) w'.
Proof.
  destruct (test_Some (fun r => bool_decide (cs_state r = Approved)
                                && bool_decide (is_Some (cs_approval r ≫= ap_waived)))
    (change_sets (mem (w_store waived_world)) !! toy_cs_id)) as (r&Hr&H); [vm_compute; reflexivity|].
  apply andb_true_iff in H as [Hs%bool_decide_eq_true Hw%bool_decide_eq_true].
  exists r. split; [exact Hr|]. split; [exact Hs|]. intros (out&w'&H).
  exact (waiver_needs_lab_mode_to_apply toy_config toy_env 0 toy_apply waived_world r out w'
           eq_refl Hr Hw H).
Defined.

(** ** Behaviours the comments rule out *)

(** The write gate lets the actions of a stored plan be replaced: it freezes
    the digest but not what the digest is of, so an in-process write can leave
    a record that the next start-up refuses to load. *)
Example gate_admits_replaced_actions :
  exists cur next, check_change_set_write (Some cur) next ViaUpdate = Ok tt /\
    validate_change_set_record 7 None (cs_id cur) cur = Ok tt /\
    cs_actions next <> cs_actions cur /\
    is_ok (validate_change_set_record 7 None (cs_id next) next) = false.
Proof.
  exists toy_record, {|
    cs_id := toy_cs_id; cs_owner := "alice"; cs_device := "fw1";
    cs_expected_candidate_fingerprint := toy_fingerprint;
    cs_actions := [JString "delete everything"]; cs_digest := toy_digest; cs_state := Planned;
    cs_approver := None; cs_approval := None; cs_expires_at_unix := 4600;
    cs_operation_id := None; cs_policy_signature := "policy-1"; cs_targets := [];
    cs_preview := None; cs_task_id := None; cs_apply_without_handle := false |}.
  split; [vm_compute; reflexivity|]. split; [vm_compute; reflexivity|].
  split; [discriminate|vm_compute; reflexivity].
Qed.

(** A deployment with room for one change set, holding an approved one whose
    deadline has passed. *)
Definition full_config : Config := {|
  state_path := true;
  limits := {| max_operations := 1; max_change_sets := 1; max_actions_per_set := 64;
               max_change_set_bytes := 262144; max_state_bytes := 1048576;
               max_targets_per_set := 64; max_preview_bytes := 1024 |};
  approval_ttl := 3600; lab_mode := false; approval_digest_key := None; evidence := false;
  process := process toy_config |}.

Definition overdue : ChangeSetRecord := set_cs_state Approved toy_record.

Definition overdue_store : Store :=
  let m := {| operations := ∅; change_sets := {[ toy_cs_id := overdue ]} |} in
  {| mem := m; disk := (write_state (process full_config) 1048576 FateOk m None).2 |}.

(** At capacity, a sweep whose persist fails is not undone: the evicted
    record is put back as [Expired] while the file still says [Approved]. *)
Example failed_sweep_at_capacity_keeps_expiry :
  let out := sweep full_config 9000 (LockFailed "busy") overdue_store in
  is_ok out.1 = false /\ disk out.2 = disk overdue_store /\
  cs_state <$> (change_sets (mem overdue_store) !! toy_cs_id) = Some Approved /\
  cs_state <$> (change_sets (mem out.2) !! toy_cs_id) = Some Expired.
Proof. vm_compute. repeat split; reflexivity. Qed.

(** An approval under digest version 6 whose digest nobody needed a key for. *)
Definition forged : ChangeSetRecord :=
  set_cs_approval (Some "mallory") (Some {|
    ap_approver := Some "mallory"; ap_approved_at_unix := 1000;
    ap_digest := compute_approval_digest_legacy toy_cs_id toy_digest "alice" "mallory" 1000;
    ap_digest_version := 6; ap_waived := None |}) (set_cs_state Approved toy_record).

Definition forged_file : StateFile :=
  {| f_type := RegularFile; f_mode := 384; f_uid := 1000; f_gid := 1000;
     f_size := 1; f_read_len := 1;
     f_data := {| od_version := 3;
                  od_state := {| operations := ∅; change_sets := {[ toy_cs_id := forged ]} |} |}
            : payload |}.

(** A configured approval key can be side-stepped by an old file version: a
    version 3 file whose approval claims digest version 6 but carries the
    unkeyed legacy digest is accepted under the key, while the state it is
    migrated to does not validate under that key. *)
Example old_version_bypasses_approval_key :
  exists st, read_state_with_key 1000 (Ok forged_file) 1048576 (Some "key") = Ok st /\
    cs_state <$> (change_sets st !! toy_cs_id) = Some Approved /\
    is_ok (validate_state_with_key st (select_version st) (Some "key")) = false.
Proof.
  eexists. split; [vm_compute; reflexivity|]. split; vm_compute; reflexivity.
Qed.

(** The device refuses to stage. *)
Definition refusing_env : Env := {|
  clock := clock toy_env; entropy := entropy toy_env; hash_seed := hash_seed toy_env;
  cancelled := cancelled toy_env; persist := persist toy_env;
  persist_sweep := persist_sweep toy_env; spool := spool toy_env;
  dev_fingerprint := dev_fingerprint toy_env; dev_stage _ _ := Err "rejected";
  dev_diff := dev_diff toy_env; dev_validate := dev_validate toy_env;
  dev_commit := dev_commit toy_env; dev_rollback := dev_rollback toy_env;
  dev_lock := dev_lock toy_env; dev_unlock := dev_unlock toy_env |}.

Definition locks (o : obs) : bool := match o with Obs _ (Lock _) _ => true | _ => false end.
Definition unlocks (o : obs) : bool := match o with Obs _ Unlock _ => true | _ => false end.

Definition refused_run : Pool unit :=
  after toy_config refusing_env toy_world change_requests (runs 0 8 ++ runs 1 8 ++ runs 2 40).

(** When the device refuses to stage, an apply that took the device's
    configuration lock leaves it locked and forgets the operation: no unlock
    was sent, and no record says that a lock may be held. *)
Example refused_stage_leaves_device_locked :
  count locks (p_log refused_run) = 1 /\ count unlocks (p_log refused_run) = 0 /\
  size (operations (mem (w_store (p_world refused_run)))) = 0.
Proof. vm_compute. repeat split; reflexivity. Qed.
