(* ===== verification/Json.v ===== *)
(** * JSON values as [serde_json::Value] has them

    The accessors the sources use on parsed values, and what holds of values
    whose objects repeat no key. *)

From S2P Require Import Prelude Externals.

Open Scope list_scope.

Definition json_as_str (j : json) : option string :=
  match j with JString s => Some s | _ => None end.

Definition json_as_array (j : json) : option (list json) :=
  match j with JArray l => Some l | _ => None end.

Definition json_as_object (j : json) : option (list (string * json)) :=
  match j with JObject l => Some l | _ => None end.

(** [serde_json::Value]: of repeated keys the last value stays, at the place
    of the first. *)
Fixpoint map_insert (k : string) (v : json) (l : list (string * json)) : list (string * json) :=
  match l with
  | [] => [(k, v)]
  | (k', v') :: l => if String.eqb k k' then (k, v) :: l else (k', v') :: map_insert k v l
  end.

Fixpoint json_value (j : json) : json :=
  match j with
  | JArray l => JArray (json_value <$> l)
  | JObject l => JObject (foldl (fun acc kv => map_insert kv.1 kv.2 acc) []
                            ((fun kv => (kv.1, json_value kv.2)) <$> l))
  | j => j
  end.

Fixpoint assoc (k : string) (l : list (string * json)) : option json :=
  match l with
  | [] => None
  | (k', v) :: l => if String.eqb k k' then Some v else assoc k l
  end.

(** [Value::get] of a string index. *)
Definition json_get (k : string) (j : json) : option json :=
  match j with JObject l => assoc k l | _ => None end.

Definition is_null (j : json) : bool := match j with JNull => true | _ => false end.

(** ** Values without repeated keys *)

Fixpoint unique_keys (j : json) : bool :=
  match j with
  | JArray l => forallb unique_keys l
  | JObject l => bool_decide (NoDup l.*1) && forallb (fun kv => unique_keys kv.2) l
  | _ => true
  end.

Lemma map_insert_fresh k v l : k ∉ l.*1 -> map_insert k v l = (l ++ [(k, v)])%list.
Proof.
  induction l as [|[k' v'] l IH]; [done|]. simpl. intros [Hne Hni]%not_elem_of_cons.
  destruct (String.eqb_spec k k'); [done|]. by rewrite IH.
Qed.

Lemma foldl_map_insert acc l :
  NoDup (acc ++ l).*1 ->
  foldl (fun acc kv => map_insert kv.1 kv.2 acc) acc l = (acc ++ l)%list.
Proof.
  revert acc; induction l as [|[k v] l IH]; intros acc Hnd; [by rewrite app_nil_r|].
  simpl. rewrite map_insert_fresh.
  - rewrite IH; rewrite <-app_assoc; done.
  - rewrite fmap_app, NoDup_app in Hnd. destruct Hnd as (_&Hd&_).
    intros Hin. apply (Hd _ Hin). simpl. apply list_elem_of_here.
Qed.

Lemma fmap_id_Forall {A} (f : A -> A) l : Forall (fun x => f x = x) l -> f <$> l = l.
Proof. induction 1 as [|x l Hx _ IH]; [done|]. by rewrite fmap_cons, Hx, IH. Qed.

Lemma json_value_unique j : unique_keys j = true -> json_value j = j.
Proof.
  induction j as [| | | |l IH|l IH] using json_ind_full; try done.
  - cbn [unique_keys]. intros Hu. rewrite forallb_forall in Hu. change (JArray (json_value <$> l) = JArray l). f_equal.
    apply fmap_id_Forall, Forall_forall. rewrite Forall_forall in IH.
    intros x Hx. apply IH, Hu, list_elem_of_In; done.
  - cbn [unique_keys]. intros [Hnd%bool_decide_eq_true Hu]%andb_true_iff.
    rewrite forallb_forall in Hu.
    change (JObject (foldl (fun acc kv => map_insert kv.1 kv.2 acc) []
      ((fun kv => (kv.1, json_value kv.2)) <$> l)) = JObject l). f_equal.
    rewrite (fmap_id_Forall (fun kv => (kv.1, json_value kv.2)) l); [by rewrite foldl_map_insert|].
    rewrite Forall_forall in IH |- *. intros [k v] Hx. apply pair_equal_spec. split; [done|].
    apply (IH _ Hx), (Hu (k, v)), list_elem_of_In; done.
Qed.

Lemma assoc_unique k v l : NoDup l.*1 -> (k, v) ∈ l -> assoc k l = Some v.
Proof.
  induction l as [|[k' v'] l IH]; [by intros _ ?%elem_of_nil|].
  rewrite fmap_cons, NoDup_cons. intros [Hni Hnd] [[= <- <-]|Hin]%elem_of_cons; simpl.
  - by rewrite String.eqb_refl.
  - destruct (String.eqb_spec k k') as [->|]; [|auto].
    destruct Hni. apply list_elem_of_fmap. by exists (k', v).
Qed.

Lemma assoc_Some k v l : assoc k l = Some v -> (k, v) ∈ l.
Proof.
  induction l as [|[k' v'] l IH]; [done|]. cbn [assoc].
  destruct (String.eqb_spec k k') as [->|]; [intros [= ->]; apply list_elem_of_here|].
  intros Ha. apply list_elem_of_further. auto.
Qed.

(** ** Objects as maps *)

Lemma foldl_insert_list_to_map {V} (l : list (string * V)) (m : gmap string V) :
  NoDup l.*1 ->
  foldl (fun m kv => <[kv.1 := kv.2]> m) m l = list_to_map (M := gmap string V) l ∪ m.
Proof.
  revert m; induction l as [|[k v] l IH]; intros m Hnd; simpl.
  - by rewrite (left_id_L ∅ (∪)).
  - rewrite fmap_cons, NoDup_cons in Hnd. destruct Hnd as [Hni Hnd].
    rewrite IH by done. rewrite <-insert_union_r, insert_union_l; [done|].
    by apply not_elem_of_list_to_map_1.
Qed.

Lemma assoc_list_to_map k l : assoc k l = list_to_map (M := gmap string json) l !! k.
Proof.
  induction l as [|[k' v] l IH]; simpl; [by rewrite lookup_empty|].
  destruct (String.eqb_spec k k') as [->|Hne]; [by rewrite lookup_insert_eq|].
  by rewrite lookup_insert_ne.
Qed.

Lemma assoc_btree_list k (m : gmap string json) : assoc k (btree_list m) = m !! k.
Proof.
  rewrite assoc_list_to_map. destruct (m !! k) as [v|] eqn:E.
  - apply elem_of_list_to_map; [apply btree_list_NoDup|by apply elem_of_btree_list].
  - apply not_elem_of_list_to_map. intros ([k' v]&->&Hin)%list_elem_of_fmap.
    apply elem_of_btree_list in Hin. simpl in E. congruence.
Qed.

Lemma assoc_map_insert k k' v l :
  assoc k (map_insert k' v l) = if String.eqb k k' then Some v else assoc k l.
Proof.
  induction l as [|[k2 v2] l IH]; simpl; [done|].
  destruct (String.eqb_spec k' k2) as [->|Hne]; simpl.
  - by destruct (String.eqb_spec k k2).
  - rewrite IH. by destruct (String.eqb_spec k k2), (String.eqb_spec k k'); subst.
Qed.

Lemma map_insert_keys k v l k' : k' ∈ (map_insert k v l).*1 <-> k' = k \/ k' ∈ l.*1.
Proof.
  induction l as [|[k2 v2] l IH]; simpl; [by rewrite list_elem_of_singleton, elem_of_nil; intuition|].
  destruct (String.eqb_spec k k2) as [->|]; simpl; rewrite !elem_of_cons; [|rewrite IH]; intuition.
Qed.

Lemma map_insert_NoDup k v l : NoDup l.*1 -> NoDup (map_insert k v l).*1.
Proof.
  induction l as [|[k2 v2] l IH]; simpl; intros Hnd; [apply NoDup_singleton|].
  rewrite NoDup_cons in Hnd. destruct Hnd as [Hni Hnd].
  destruct (String.eqb_spec k k2) as [->|Hne]; simpl; apply NoDup_cons; [done|].
  split; [|by apply IH]. rewrite map_insert_keys. naive_solver.
Qed.

(** A parsed value repeats no key. *)
Lemma foldl_map_insert_NoDup l acc :
  NoDup acc.*1 -> NoDup (foldl (fun acc kv => map_insert kv.1 kv.2 acc) acc l).*1.
Proof. revert acc; induction l; simpl; auto using map_insert_NoDup. Qed.

Lemma map_insert_elem k v l kv : kv ∈ map_insert k v l -> kv = (k, v) \/ kv ∈ l.
Proof.
  induction l as [|[k2 v2] l IH]; simpl; [rewrite list_elem_of_singleton; auto|].
  destruct (String.eqb k k2); rewrite !elem_of_cons; naive_solver.
Qed.

Lemma foldl_map_insert_elem l acc kv :
  kv ∈ foldl (fun acc kv => map_insert kv.1 kv.2 acc) acc l -> kv ∈ acc \/ kv ∈ l.
Proof.
  revert acc; induction l as [|[k v] l IH]; simpl; intros acc; [auto|].
  intros [Hin|Hin]%IH; [apply map_insert_elem in Hin as [->|Hin]|]; rewrite elem_of_cons; auto.
Qed.

Lemma json_value_keys j : unique_keys (json_value j) = true.
Proof.
  induction j as [| | | |l IH|l IH] using json_ind_full; try done.
  - change (forallb unique_keys (json_value <$> l) = true). rewrite forallb_forall.
    intros x (y&->&Hy)%list_elem_of_In%list_elem_of_fmap. rewrite Forall_forall in IH. auto.
  - change (unique_keys (JObject (foldl (fun acc kv => map_insert kv.1 kv.2 acc) []
      ((fun kv => (kv.1, json_value kv.2)) <$> l))) = true).
    cbn [unique_keys]. apply andb_true_iff. split.
    + apply bool_decide_eq_true, foldl_map_insert_NoDup. constructor.
    + rewrite forallb_forall. intros x Hx%list_elem_of_In.
      apply foldl_map_insert_elem in Hx as [?%elem_of_nil|([k v]&->&Hy)%list_elem_of_fmap]; [done|].
      rewrite Forall_forall in IH. apply (IH _ Hy).
Qed.

Lemma unique_keys_object l :
  unique_keys (JObject l) = true <-> NoDup l.*1 /\ forall k v, (k, v) ∈ l -> unique_keys v = true.
Proof.
  cbn [unique_keys]. rewrite andb_true_iff, bool_decide_eq_true, forallb_forall. apply and_iff_compat_l.
  split; [intros Hf k v Hin; by apply (Hf (k, v)), list_elem_of_In|].
  intros Hf [k v] Hin%list_elem_of_In. eauto.
Qed.
