(* ===== verification/Text.v ===== *)
(** * Text scanning

    The parts of Rust's [str] that the token, policy and log-reading code use:
    splitting at a predicate, trimming, suffixes, substring search and Unicode
    white space. *)

From S2P Require Import Prelude.
From Stdlib Require Import Ascii.

(** The longest prefix whose characters satisfy [p], and the rest. *)
Fixpoint str_span (p : ascii -> bool) (s : string) : string * string :=
  match s with
  | EmptyString => ("", "")
  | String c s' =>
      if p c then let '(a, b) := str_span p s' in (String c a, b) else ("", s)
  end.

(** [str::trim_start_matches], [trim_end_matches] and [trim_matches] of a
    character predicate. *)
Fixpoint trim_start (p : ascii -> bool) (s : string) : string :=
  match s with
  | EmptyString => ""
  | String c s' => if p c then trim_start p s' else s
  end.

Fixpoint trim_end (p : ascii -> bool) (s : string) : string :=
  match s with
  | EmptyString => ""
  | String c s =>
      match trim_end p s with
      | EmptyString => if p c then "" else String c ""
      | t => String c t
      end
  end.

Definition trim_matches (p : ascii -> bool) (s : string) : string :=
  trim_end p (trim_start p s).

(** [str::contains] of a substring. *)
Fixpoint contains_str (needle s : string) : bool :=
  starts_with needle s || match s with EmptyString => false | String _ s => contains_str needle s end.

(** [str::strip_suffix]. *)
Fixpoint strip_suffix (suffix s : string) : option string :=
  if bool_decide (s = suffix) then Some ""
  else match s with
       | EmptyString => None
       | String c s => String c <$> strip_suffix suffix s
       end.

Definition ends_with (suffix s : string) : bool :=
  match strip_suffix suffix s with Some _ => true | None => false end.

(** [str::split] of one character. *)
Fixpoint str_split (sep : ascii) (s : string) : list string :=
  match s with
  | EmptyString => [""]
  | String c s =>
      if Ascii.eqb c sep then "" :: str_split sep s
      else match str_split sep s with
           | x :: l => String c x :: l
           | [] => [String c ""]
           end
  end.

(** ** Spans *)

Lemma str_span_app p s : (str_span p s).1 +:+ (str_span p s).2 = s.
Proof.
  induction s as [|c s IH]; [done|]. simpl. destruct (p c); [|done].
  destruct (str_span p s) as [a b]. simpl in *. by rewrite str_app_cons, IH.
Qed.

Lemma str_span_fst p s : str_forall p (str_span p s).1 = true.
Proof.
  induction s as [|c s IH]; [done|]. simpl. destruct (p c) eqn:E; [|done].
  destruct (str_span p s) as [a b]. simpl in *. by rewrite E.
Qed.

Lemma str_span_snd p s c r : (str_span p s).2 = String c r -> p c = false.
Proof.
  induction s as [|d s IH]; [done|]. simpl. destruct (p d) eqn:E; [|by intros [= <- _]].
  by destruct (str_span p s) as [a b].
Qed.

(** The first character of [b], if any, stops the span. *)
Definition stops (p : ascii -> bool) (b : string) : Prop :=
  match b with EmptyString => True | String c _ => p c = false end.

Lemma str_span_intro p a b :
  str_forall p a = true -> stops p b -> str_span p (a +:+ b) = (a, b).
Proof.
  induction a as [|c a IH]; simpl; rewrite ?str_app_nil, ?str_app_cons.
  - intros _ Hb. destruct b as [|c b]; [done|]. simpl in *. by rewrite Hb.
  - rewrite andb_true_iff. intros [Hc Ha] Hb. simpl. by rewrite Hc, IH.
Qed.

Lemma str_span_eq p s a b :
  str_span p s = (a, b) <-> s = a +:+ b /\ str_forall p a = true /\ stops p b.
Proof.
  split; [|intros (->&?&?); by apply str_span_intro].
  intros H. split_and!.
  - by rewrite <-(str_span_app p s), H.
  - pose proof (str_span_fst p s) as Hf. by rewrite H in Hf.
  - destruct b as [|c b]; [done|]. eapply (str_span_snd p s). by rewrite H.
Qed.

(** ** Trimming *)

Lemma trim_start_spec p s :
  exists pre, s = pre +:+ trim_start p s /\ str_forall p pre = true /\ stops p (trim_start p s).
Proof.
  induction s as [|c s IH]; [by exists ""|]. simpl. destruct (p c) eqn:E.
  - destruct IH as (pre&Hs&Hp&Hst). exists (String c pre). rewrite str_app_cons, <-Hs. simpl.
    by rewrite E, Hp.
  - exists "". by rewrite str_app_nil.
Qed.

Lemma trim_start_id p s : stops p s -> trim_start p s = s.
Proof. destruct s; simpl; [done|]. by intros ->. Qed.

Lemma trim_start_app p a s : str_forall p a = true -> trim_start p (a +:+ s) = trim_start p s.
Proof.
  induction a as [|c a IH]; [done|]. rewrite str_app_cons. simpl.
  rewrite andb_true_iff. intros [-> ?]. auto.
Qed.

Lemma trim_end_spec p s :
  exists post, s = trim_end p s +:+ post /\ str_forall p post = true.
Proof.
  induction s as [|c s IH]; [by exists ""|]. destruct IH as (post&Hs&Hp). simpl.
  destruct (trim_end p s) as [|d t] eqn:Et.
  - rewrite str_app_nil in Hs. subst s. destruct (p c) eqn:E.
    + exists (String c post). rewrite str_app_nil. simpl. by rewrite E, Hp.
    + exists post. by rewrite str_app_cons, str_app_nil.
  - exists post. by rewrite str_app_cons, <-Hs.
Qed.

Lemma trim_end_all p s : str_forall p s = true -> trim_end p s = "".
Proof.
  induction s as [|c s IH]; [done|]. simpl. rewrite andb_true_iff. intros [Hc Hs].
  by rewrite IH, Hc.
Qed.

(** A string without blanks is what trimming leaves of it. *)
Lemma trim_end_app p s post :
  str_exists p s = false -> str_forall p post = true -> trim_end p (s +:+ post) = s.
Proof.
  intros Hs Hp. induction s as [|c s IH]; simpl in Hs.
  - by rewrite str_app_nil, trim_end_all.
  - apply orb_false_iff in Hs as [Hc Hs]. rewrite str_app_cons. simpl. rewrite IH by done.
    destruct s; [by rewrite Hc|done].
Qed.

Lemma str_exists_stops p s : str_exists p s = false -> stops p s.
Proof. destruct s; simpl; [done|]. by intros [-> _]%orb_false_iff. Qed.

Lemma stops_app p s t : s <> "" -> stops p s -> stops p (s +:+ t).
Proof. destruct s; [done|]. by rewrite str_app_cons. Qed.

Lemma trim_matches_eq p s c :
  c <> "" -> str_exists p c = false ->
  trim_matches p s = c <->
  exists pre post, s = pre +:+ c +:+ post /\ str_forall p pre = true /\ str_forall p post = true.
Proof.
  intros Hne Hc. unfold trim_matches. split.
  - intros Ht. destruct (trim_start_spec p s) as (pre&Hs&Hpre&_).
    destruct (trim_end_spec p (trim_start p s)) as (post&Hs'&Hpost).
    rewrite Ht in Hs'. exists pre, post. by rewrite <-Hs'.
  - intros (pre&post&->&Hpre&Hpost). rewrite trim_start_app by done.
    rewrite trim_start_id; [by apply trim_end_app|].
    by apply stops_app, str_exists_stops.
Qed.

(** Trimming stops at the last character that is not trimmed. *)
Lemma trim_end_keep p x c post :
  c <> "" -> str_exists p c = false -> str_forall p post = true ->
  trim_end p (x +:+ c +:+ post) = x +:+ c.
Proof.
  intros Hne Hc Hp. induction x as [|d x IH]; [rewrite !str_app_nil; by apply trim_end_app|].
  rewrite !str_app_cons. simpl. rewrite IH.
  destruct x as [|e x]; [|done]. rewrite str_app_nil. by destruct c.
Qed.

Lemma str_exists_app p s t : str_exists p (s +:+ t) = str_exists p s || str_exists p t.
Proof. induction s as [|c s IH]; [done|]. rewrite str_app_cons. simpl. by rewrite IH, orb_assoc. Qed.

Lemma str_forall_stops p s : s <> "" -> str_forall p s = true -> ~ stops p s.
Proof. destruct s; [done|]. simpl. intros _ [Hc _]%andb_true_iff. congruence. Qed.

(** ** Unicode white space

    [char::is_whitespace] on UTF-8 bytes: the number of bytes of the white
    space character at the head of [s], if there is one.  Valid UTF-8 is
    self-synchronizing, so a match inside a string is always a character. *)
Definition whitespace_width (s : string) : option nat :=
  match N_of_ascii <$> String.list_ascii_of_string s with
  | c :: r =>
      if (9 <=? c)%N && (c <=? 13)%N || (c =? 32)%N then Some 1 else
      match r with
      | d :: r =>
          if (c =? 194)%N && ((d =? 133)%N || (d =? 160)%N) then Some 2 else
          match r with
          | e :: _ =>
              if (c =? 225)%N && (d =? 154)%N && (e =? 128)%N
                 || (c =? 226)%N && (d =? 128)%N
                    && ((128 <=? e)%N && (e <=? 138)%N || (e =? 168)%N || (e =? 169)%N || (e =? 175)%N)
                 || (c =? 226)%N && (d =? 129)%N && (e =? 159)%N
                 || (c =? 227)%N && (d =? 128)%N && (e =? 128)%N
              then Some 3 else None
          | [] => None
          end
      | [] => None
      end
  | [] => None
  end.

(** [s.contains(char::is_whitespace)]. *)
Fixpoint contains_whitespace (s : string) : bool :=
  match s with
  | EmptyString => false
  | String _ s' => bool_decide (is_Some (whitespace_width s)) || contains_whitespace s'
  end.

(** [s.trim().is_empty()]: white space characters only.  [skip] counts the
    bytes of the current character that are still to be passed. *)
Fixpoint blank_from (skip : nat) (s : string) : bool :=
  match s with
  | EmptyString => true
  | String _ s' =>
      match skip with
      | S k => blank_from k s'
      | O => match whitespace_width s with Some (S k) => blank_from k s' | _ => false end
      end
  end.

Definition is_blank (s : string) : bool := blank_from 0 s.

(** [str::trim]. *)
Fixpoint trim_start_from (skip : nat) (s : string) : string :=
  match s with
  | EmptyString => ""
  | String _ s' =>
      match skip with
      | S k => trim_start_from k s'
      | O => match whitespace_width s with Some (S k) => trim_start_from k s' | _ => s end
      end
  end.

Fixpoint trim_end_blank (s : string) : string :=
  if is_blank s then "" else match s with String c s' => String c (trim_end_blank s') | EmptyString => "" end.

Definition trim (s : string) : string := trim_end_blank (trim_start_from 0 s).

(** [str::split_whitespace]; [word] is what was read of the current word. *)
Fixpoint words_from (skip : nat) (word s : string) : list string :=
  match s with
  | EmptyString => if is_empty_str word then [] else [word]
  | String c s' =>
      match skip with
      | S k => words_from k word s'
      | O => match whitespace_width s with
             | Some (S k) => (if is_empty_str word then [] else [word]) ++ words_from k "" s'
             | _ => words_from 0 (word +:+ String c "") s'
             end
      end
  end.

Definition split_whitespace (s : string) : list string := words_from 0 "" s.

(** ** Decimal numbers *)

(** [str::parse::<u64>]: digits, after at most one plus sign, without
    overflow. *)
Fixpoint digits_value (acc : N) (s : string) : option N :=
  match s with
  | EmptyString => Some acc
  | String c s =>
      if is_ascii_digit c then
        let v := (acc * 10 + (N_of_ascii c - 48))%N in
        if (u64_max <? v)%N then None else digits_value v s
      else None
  end.

Definition parse_u64 (s : string) : option N :=
  match s with
  | EmptyString => None
  | String c s' =>
      if Ascii.eqb c "+" then (if is_empty_str s' then None else digits_value 0 s')
      else digits_value 0 s
  end.

Lemma pretty_N_digits (n : N) : str_forall is_ascii_digit (pretty n) = true /\ pretty n <> "".
Proof.
  assert (forall n s, str_forall is_ascii_digit s = true ->
    str_forall is_ascii_digit (pretty_N_go n s) = true /\ (s <> "" -> pretty_N_go n s <> "")) as Hgo.
  { clear n. intros n. induction (N.lt_wf_0 n) as [n _ IH]. intros s Hs.
    destruct (decide (n = 0)%N) as [->|Hn]; [by rewrite pretty_N_go_0|].
    rewrite pretty_N_go_step by lia. destruct (IH (n `div` 10)%N) with (s := String (pretty_N_char (n `mod` 10)) s).
    - by apply N.div_lt; lia.
    - cbn [str_forall]. rewrite Hs, andb_true_r. unfold pretty_N_char. by repeat case_match.
    - auto. }
  unfold pretty, pretty_N. destruct (decide (n = 0)%N) as [->|Hn]; [done|].
  rewrite pretty_N_go_step by lia. destruct (Hgo (n `div` 10)%N (String (pretty_N_char (n `mod` 10)) "")); [|auto].
  cbn [str_forall]. rewrite andb_true_r. unfold pretty_N_char. by repeat case_match.
Qed.

Lemma digits_value_pretty n s : (n <= u64_max)%N -> digits_value 0 (pretty_N_go n s) = digits_value n s.
Proof.
  revert s. induction (N.lt_wf_0 n) as [n _ IH]. intros s Hn.
  destruct (decide (n = 0)%N) as [->|Hne]; [by rewrite pretty_N_go_0|].
  rewrite pretty_N_go_step by lia.
  assert (n `div` 10 <= n)%N by (apply N.Div0.div_le_upper_bound; lia).
  rewrite IH by (apply N.div_lt || idtac; lia). cbn [digits_value].
  assert (n `mod` 10 < 10)%N as Hm by (apply N.mod_lt; lia).
  assert (is_ascii_digit (pretty_N_char (n `mod` 10)) = true /\
          N_of_ascii (pretty_N_char (n `mod` 10)) = (48 + n `mod` 10)%N) as [-> ->].
  { destruct (n `mod` 10)%N as [|p]; [done|]. do 4 (destruct p as [p|p|]; try done; try lia). }
  replace (n `div` 10 * 10 + (48 + n `mod` 10 - 48))%N with n.
  - by rewrite (proj2 (N.ltb_ge u64_max n)).
  - rewrite (N.add_comm 48), N.add_sub, N.mul_comm. by apply N.div_mod.
Qed.

Lemma parse_u64_digits (n : N) : parse_u64 (pretty n) = digits_value 0 (pretty n).
Proof.
  destruct (pretty_N_digits n) as [Hd Hne]. destruct (pretty n) as [|c s]; [done|]. cbn in Hd |- *.
  apply andb_true_iff in Hd as [Hc _]. destruct (Ascii.eqb_spec c "+") as [->|]; [discriminate Hc|done].
Qed.

Lemma parse_u64_pretty n : (n <= u64_max)%N -> parse_u64 (pretty n) = Some n.
Proof.
  intros Hn. rewrite parse_u64_digits.
  unfold pretty, pretty_N. case_decide as Hz; [by subst|]. by apply digits_value_pretty.
Qed.

(** A number ends at the first character that is not a digit. *)
Lemma digits_split a b c x y :
  str_forall is_ascii_digit a = true -> str_forall is_ascii_digit b = true -> is_ascii_digit c = false ->
  a +:+ String c x = b +:+ String c y -> a = b /\ x = y.
Proof.
  intros Ha Hb Hc. revert b Hb. induction a as [|d a IH]; intros [|e b] Hb E.
  - by injection E as ->.
  - rewrite str_app_nil, str_app_cons in E. injection E as <- _. cbn in Hb. by rewrite Hc in Hb.
  - rewrite str_app_nil, str_app_cons in E. injection E as -> _. cbn in Ha. by rewrite Hc in Ha.
  - rewrite !str_app_cons in E. injection E as <- E. cbn in Ha, Hb.
    apply andb_true_iff in Ha as [_ Ha], Hb as [_ Hb]. destruct (IH Ha b Hb E) as [-> ->]. done.
Qed.

Lemma digits_value_large n s : (u64_max < n)%N -> digits_value 0 (pretty_N_go n s) = None.
Proof.
  revert s. induction (N.lt_wf_0 n) as [n _ IH]. intros s Hn. rewrite pretty_N_go_step by lia.
  destruct (decide (u64_max < n `div` 10)%N) as [Hd|Hd].
  { apply IH; [apply N.div_lt; lia|done]. }
  rewrite digits_value_pretty by lia. cbn [digits_value].
  assert (n `mod` 10 < 10)%N as Hm by (apply N.mod_lt; lia).
  assert (N_of_ascii (pretty_N_char (n `mod` 10)) = (48 + n `mod` 10)%N) as ->.
  { destruct (n `mod` 10)%N as [|p]; [done|]. do 4 (destruct p as [p|p|]; try done; try lia). }
  rewrite (N.add_comm 48), N.add_sub, N.mul_comm, <-N.div_mod by done.
  rewrite (proj2 (N.ltb_lt u64_max n)) by done. by destruct (is_ascii_digit _).
Qed.

Lemma parse_u64_pretty_inv (n m : N) : parse_u64 (pretty n) = Some m -> m = n.
Proof.
  intros Hp. destruct (decide (n <= u64_max)%N) as [Hn|Hn].
  { rewrite parse_u64_pretty in Hp by done. by injection Hp. }
  rewrite parse_u64_digits in Hp. unfold pretty, pretty_N in Hp. case_decide; [subst; lia|].
  by rewrite digits_value_large in Hp by lia.
Qed.

(** ** Searching text *)

(** [str::split] of a pattern; [piece] is what was read since the last one. *)
Fixpoint split_from (pat : string) (skip : nat) (piece s : string) : list string :=
  match s with
  | EmptyString => [piece]
  | String c s' =>
      match skip with
      | S k => split_from pat k piece s'
      | O => if starts_with pat s then piece :: split_from pat (String.length pat - 1) "" s'
             else split_from pat 0 (piece +:+ String c "") s'
      end
  end.

Definition split_str (pat s : string) : list string := split_from pat 0 "" s.

Lemma list_ascii_app a b :
  String.list_ascii_of_string (a +:+ b) = (String.list_ascii_of_string a ++ String.list_ascii_of_string b)%list.
Proof. induction a as [|c a IH]; [by rewrite str_app_nil|]. rewrite str_app_cons. cbn. by rewrite IH. Qed.

Lemma starts_with_spec p s : starts_with p s = true <-> exists t, s = p +:+ t.
Proof.
  unfold starts_with. destruct (strip_prefix p s) as [t|] eqn:E.
  - apply strip_prefix_Some in E. split; [by exists t|done].
  - split; [done|]. intros [t Ht%strip_prefix_Some]. congruence.
Qed.

(** A match that starts before a character the pattern does not have ends
    before it. *)
Lemma starts_with_before p x c y :
  contains_char c p = false -> starts_with p (x +:+ String c y) = starts_with p x.
Proof.
  unfold contains_char, starts_with. revert x. induction p as [|d p IH]; intros x Hc; [by destruct x|].
  cbn in Hc. apply orb_false_iff in Hc as [Hd Hc]. destruct x as [|e x].
  - rewrite str_app_nil. cbn. by rewrite Ascii.eqb_sym, Hd.
  - rewrite str_app_cons. cbn. destruct (Ascii.eqb d e); [by apply IH|done].
Qed.

Lemma contains_before p x c y :
  contains_char c p = false -> p <> "" ->
  contains_str p (x +:+ String c y) = contains_str p x || contains_str p y.
Proof.
  intros Hc Hp. induction x as [|d x IH].
  - rewrite str_app_nil. cbn [contains_str].
    replace (starts_with p (String c y)) with (starts_with p "") by (symmetry; exact (starts_with_before p "" c y Hc)).
    destruct p; [done|]. reflexivity.
  - rewrite str_app_cons. cbn [contains_str]. rewrite IH, <-(str_app_cons d x), starts_with_before by done.
    by rewrite orb_assoc.
Qed.

Lemma contains_char_app c x y : contains_char c (x +:+ y) = contains_char c x || contains_char c y.
Proof. apply str_exists_app. Qed.

Lemma contains_absent c p s : contains_char c p = true -> contains_char c s = false -> contains_str p s = false.
Proof.
  intros Hp. induction s as [|d s IH]; intros Hs; cbn [contains_str]; apply orb_false_iff; split.
  1, 3: destruct (starts_with p _) eqn:E; [|done]; apply starts_with_spec in E as [t E];
    by rewrite E, contains_char_app, Hp in Hs.
  - done.
  - apply IH. unfold contains_char in Hs. cbn in Hs. by apply orb_false_iff in Hs as [_ Hs].
Qed.

Lemma split_before p piece x c y :
  contains_char c p = false -> p <> "" -> contains_str p x = false ->
  split_from p 0 piece (x +:+ String c y) = split_from p 0 (piece +:+ x +:+ String c "") y.
Proof.
  intros Hc Hp. revert piece. induction x as [|d x IH]; intros piece Hx.
  - rewrite !str_app_nil. cbn [split_from].
    replace (starts_with p (String c y)) with (starts_with p "") by (symmetry; exact (starts_with_before p "" c y Hc)).
    by destruct p.
  - cbn [contains_str] in Hx. apply orb_false_iff in Hx as [Hd Hx]. rewrite str_app_cons. cbn [split_from].
    rewrite <-str_app_cons, starts_with_before, Hd, IH by done. f_equal. by rewrite !str_app_assoc, str_app_cons, str_app_nil.
Qed.

Lemma split_skip p piece x s : split_from p (String.length x) piece (x +:+ s) = split_from p 0 piece s.
Proof. induction x as [|c x IH]; [by rewrite str_app_nil|]. rewrite str_app_cons. cbn. exact IH. Qed.

Lemma split_here c p piece s :
  split_from (String c p) 0 piece (String c p +:+ s) = piece :: split_from (String c p) 0 "" s.
Proof.
  rewrite str_app_cons. cbn [split_from]. rewrite <-str_app_cons.
  assert (starts_with (String c p) (String c p +:+ s) = true) as -> by (apply starts_with_spec; by exists s).
  cbn [String.length]. rewrite Nat.sub_succ, Nat.sub_0_r. f_equal. apply split_skip.
Qed.

Lemma split_none p piece s : contains_str p s = false -> split_from p 0 piece s = [piece +:+ s].
Proof.
  revert piece. induction s as [|c s IH]; intros piece Hs; [by rewrite str_app_nil_r|].
  cbn [contains_str] in Hs. apply orb_false_iff in Hs as [Hc Hs]. cbn [split_from]. rewrite Hc, IH by done.
  by rewrite str_app_assoc, str_app_cons, str_app_nil.
Qed.

Lemma contains_here p s : contains_str p (p +:+ s) = true.
Proof.
  destruct (p +:+ s) eqn:E; cbn [contains_str]; rewrite <-E;
    assert (starts_with p (p +:+ s) = true) as -> by (apply starts_with_spec; by exists s); done.
Qed.

(** ** Printable text *)

Definition visible (c : ascii) : bool := let n := N_of_ascii c in (33 <=? n)%N && (n <=? 126)%N.

Lemma visible_width c s : visible c = true -> whitespace_width (String c s) = None.
Proof.
  unfold visible. intros [H1%N.leb_le H2%N.leb_le]%andb_true_iff. cbn. set (n := N_of_ascii c) in *.
  rewrite (proj2 (N.leb_gt n 13)), (proj2 (N.eqb_neq n 32)), andb_false_r by lia. cbn [orb].
  rewrite (proj2 (N.eqb_neq n 194)), (proj2 (N.eqb_neq n 225)), (proj2 (N.eqb_neq n 226)),
    (proj2 (N.eqb_neq n 227)) by lia. by repeat case_match.
Qed.

Lemma words_from_visible word d s :
  str_forall visible d = true -> words_from 0 word (d +:+ s) = words_from 0 (word +:+ d) s.
Proof.
  revert word. induction d as [|c d IH]; intros word; [by rewrite str_app_nil, str_app_nil_r|].
  cbn [str_forall]. intros [Hc Hd]%andb_true_iff. rewrite str_app_cons. cbn [words_from].
  rewrite visible_width, IH by done. by rewrite str_app_assoc.
Qed.

Lemma words_visible d : str_forall visible d = true -> d <> "" -> split_whitespace d = [d].
Proof.
  intros Hd Hne. unfold split_whitespace. rewrite <-(str_app_nil_r d), words_from_visible by done.
  rewrite str_app_nil. cbn [words_from]. rewrite str_app_nil_r. by destruct d.
Qed.

Lemma visible_blank x c y : str_forall visible x = true -> visible c = true -> is_blank (x +:+ String c y) = false.
Proof.
  intros Hx Hc. unfold is_blank. destruct x as [|d x]; [rewrite str_app_nil; cbn [blank_from]; by rewrite visible_width|].
  cbn [str_forall] in Hx. apply andb_true_iff in Hx as [Hd _]. rewrite str_app_cons. cbn [blank_from]. by rewrite visible_width.
Qed.

Lemma trim_end_visible d s : str_forall visible d = true -> is_blank s = true -> trim_end_blank (d +:+ s) = d.
Proof.
  intros Hd Hs. induction d as [|c d IH]; [rewrite str_app_nil; destruct s as [|? ?]; [done|]; cbn [trim_end_blank]; by rewrite Hs|].
  cbn [str_forall] in Hd. apply andb_true_iff in Hd as [Hc Hd]. rewrite str_app_cons. cbn [trim_end_blank].
  assert (is_blank (String c (d +:+ s)) = false) as -> by exact (visible_blank "" c (d +:+ s) eq_refl Hc).
  by rewrite IH.
Qed.

Lemma trim_visible d : str_forall visible d = true -> trim d = d.
Proof.
  intros Hd. unfold trim. rewrite <-(str_app_nil_r (trim_start_from 0 d)).
  replace (trim_start_from 0 d) with d; [by apply trim_end_visible|].
  destruct d as [|c d]; [done|]. cbn [str_forall] in Hd. apply andb_true_iff in Hd as [Hc _].
  cbn [trim_start_from]. by rewrite visible_width.
Qed.

Lemma str_forall_impl (p q : ascii -> bool) s :
  (forall c, p c = true -> q c = true) -> str_forall p s = true -> str_forall q s = true.
Proof. intros Hpq. induction s as [|c s IH]; [done|]. cbn. intros [?%Hpq ?]%andb_true_iff. apply andb_true_iff. auto. Qed.

Lemma str_forall_absent p c s : p c = false -> str_forall p s = true -> contains_char c s = false.
Proof.
  intros Hc. unfold contains_char. induction s as [|d s IH]; [done|]. cbn. intros [Hd Hs]%andb_true_iff.
  rewrite IH by done. destruct (Ascii.eqb_spec c d) as [->|]; [congruence|done].
Qed.

(** Digits are not white space. *)
Lemma words_from_digits word d s :
  str_forall is_ascii_digit d = true -> words_from 0 word (d +:+ s) = words_from 0 (word +:+ d) s.
Proof.
  intros Hd. apply words_from_visible, (str_forall_impl is_ascii_digit); [|done].
  intros c Hc. unfold is_ascii_digit in Hc. unfold visible. apply andb_true_iff in Hc as [H1%N.leb_le H2%N.leb_le].
  apply andb_true_iff. split; apply N.leb_le; lia.
Qed.
