(* ===== verification/Scope.v ===== *)
(** * Token scopes, digests and the bearer header

    crates/mecmcp-auth/src/scope.rs, grant.rs, token.rs and bearer.rs: what a
    token may name, how its secret is stored and compared, and how the secret
    is read out of an HTTP header. *)

From S2P Require Import Prelude Externals Json Text.
From Stdlib Require Import Ascii.

(** ** Scopes (scope.rs) *)

Definition MAX_SCOPE_NAMES : N := 256.

Definition ScopeError := string.

Inductive ScopeSet :=
| Wildcard
| Allowlist (names : list string).

#[export] Instance ScopeSet_eq_dec : EqDecision ScopeSet.
Proof. solve_decision. Defined.

Definition allows (s : ScopeSet) (name : string) : bool :=
  match s with
  | Wildcard => true
  | Allowlist names => any (fun allowed => bool_decide (allowed = name)) names
  end.

Definition allows_tool (s : ScopeSet) (name : string) (write_tools : list string) : bool :=
  match s with
  | Wildcard => negb (bool_decide (name ∈ write_tools))
  | Allowlist names => any (fun allowed => bool_decide (allowed = name)) names
  end.

Definition scope_is_empty (s : ScopeSet) : bool :=
  match s with Allowlist [] => true | _ => false end.

Definition summary (s : ScopeSet) : string :=
  match s with Wildcard => "*" | Allowlist names => str_join "," names end.

Fixpoint validate_names (field : string) (names : list string) (seen : gset string) :
  result unit ScopeError :=
  match names with
  | [] => Ok tt
  | name :: names =>
      ensure negb (bool_decide (name = "*"))
        else (field +:+ " scope may use '*' only as the sole list entry");
      ensure negb (is_empty_str name || (128 <? str_len name)%N || contains_char "000" name)
        else (field +:+ " scope contains an out-of-range name");
      ensure negb (bool_decide (name ∈ seen))
        else ("duplicate name '" +:+ name +:+ "' in " +:+ field +:+ " scope");
      validate_names field names ({[ name ]} ∪ seen)
  end.

Definition scope_validate (s : ScopeSet) (field : string) : result unit ScopeError :=
  match s with
  | Wildcard => Ok tt
  | Allowlist names =>
      ensure (N.of_nat (length names) <=? MAX_SCOPE_NAMES)%N
        else (field +:+ " scope contains more than " +:+ pretty MAX_SCOPE_NAMES +:+ " names");
      validate_names field names ∅
  end.

Definition scope_serialize (s : ScopeSet) : json :=
  match s with
  | Wildcard => JArray [JString "*"]
  | Allowlist names => JArray (JString <$> names)
  end.

(** [Vec::<String>::deserialize]. *)
Definition vec_string_deserialize (j : json) : result (list string) string :=
  let? l := ok_or (json_as_array j) "invalid type, expected a sequence" in
  collect ((fun x => ok_or (json_as_str x) "invalid type, expected a string") <$> l).

Definition scope_deserialize (j : json) : result ScopeSet string :=
  let? names := vec_string_deserialize j in
  Ok (if bool_decide (names = ["*"]) then Wildcard else Allowlist names).

(** ** Grants (grant.rs)

    The vendor seam: the type of write authority is the consuming server's. *)

Definition GrantError := string.

Class Grant (G : Type) := {
  Action : Type;
  allows_action : G -> Action -> bool;
  allows_subject : G -> string -> bool;
  grant_validate : G -> result unit GrantError;
  subjects_are_targets : G -> bool;
}.

Inductive NoGrant := MkNoGrant.
Inductive NoAction :=.

#[export] Instance NoGrant_grant : Grant NoGrant := {|
  Action := NoAction;
  allows_action _ _ := false;
  allows_subject _ _ := false;
  grant_validate _ := Ok tt;
  subjects_are_targets _ := false;
|}.

(** ** Token secrets and digests (token.rs) *)

Inductive TokenError := Random.

Definition token_error_to_string (e : TokenError) : string :=
  "operating-system random source failed".

Definition SECRET_BYTES : nat := 32.
Definition DIGEST_PREFIX : string := "sha256:".

Definition ALPHABET : string :=
  "ABCDEFGHIJKLMNOPQRSTUVWXYZabcdefghijklmnopqrstuvwxyz0123456789-_".

(** [ALPHABET[index]]; an index past the end would panic, and none is. *)
Definition alphabet (index : N) : ascii :=
  match String.get (N.to_nat index) ALPHABET with Some c => c | None => "A" end.

(** One chunk of up to three bytes: [chunk.len() + 1] characters of it. *)
Definition encode_chunk (c0 : ascii) (c1 c2 : option ascii) : string :=
  let b0 := N_of_ascii c0 in
  let b1 := from_option N_of_ascii 0%N c1 in
  let b2 := from_option N_of_ascii 0%N c2 in
  let triple := N.lor (N.lor (N.shiftl b0 16) (N.shiftl b1 8)) b2 in
  let i0 := alphabet (N.land (N.shiftr triple 18) 63) in
  let i1 := alphabet (N.land (N.shiftr triple 12) 63) in
  let i2 := alphabet (N.land (N.shiftr triple 6) 63) in
  let i3 := alphabet (N.land triple 63) in
  match c1, c2 with
  | None, _ => String i0 (String i1 "")
  | Some _, None => String i0 (String i1 (String i2 ""))
  | Some _, Some _ => String i0 (String i1 (String i2 (String i3 "")))
  end.

Fixpoint base64url_no_pad (b : bytes) : string :=
  match b with
  | String b0 (String b1 (String b2 rest)) =>
      encode_chunk b0 (Some b1) (Some b2) +:+ base64url_no_pad rest
  | String b0 (String b1 EmptyString) => encode_chunk b0 (Some b1) None
  | String b0 EmptyString => encode_chunk b0 None None
  | EmptyString => ""
  end.

Section digests.
Context `{Externals}.

Definition TokenDigest := string.

Definition from_secret (secret : string) : TokenDigest :=
  DIGEST_PREFIX +:+ base64url_no_pad (sha256 secret).

(** [ct_eq] of the two digest strings. *)
Definition digest_verify (d : TokenDigest) (candidate : string) : bool :=
  bool_decide (from_secret candidate = d).

(** [random] is what the operating system's generator delivered. *)
Definition mint (random : option bytes) : result (string * TokenDigest) TokenError :=
  let? r := ok_or random Random in
  let encoded := base64url_no_pad r in
  Ok (encoded, from_secret encoded).

End digests.

Definition digest_deserialize (j : json) : result string string :=
  let? raw := ok_or (json_as_str j) "invalid type, expected a string" in
  ensure starts_with DIGEST_PREFIX raw
    else ("token digest must start with '" +:+ DIGEST_PREFIX +:+ "'");
  Ok raw.

(** ** The bearer header (bearer.rs) *)

Definition MAX_AUTHORIZATION_HEADER_BYTES : N := 4096.

Inductive BearerSyntax := Strict | Trimmed.

Inductive BearerHeaderError := TooLarge | InvalidCharacters | WrongScheme | Empty | EmbeddedWhitespace.

Definition is_ascii_control (c : ascii) : bool :=
  let n := N_of_ascii c in (n <=? 31)%N || (n =? 127)%N.

Definition is_ascii (c : ascii) : bool := (N_of_ascii c <=? 127)%N.

Definition is_ascii_whitespace (c : ascii) : bool :=
  let n := N_of_ascii c in
  (n =? 32)%N || (n =? 9)%N || (n =? 10)%N || (n =? 12)%N || (n =? 13)%N.

Definition header_byte (c : ascii) : bool :=
  Ascii.eqb c "009" || (is_ascii c && negb (is_ascii_control c)).

Definition eq_ignore_ascii_case (a b : string) : bool :=
  bool_decide (to_lowercase a = to_lowercase b).

Definition parse_bearer_header (value : string) (syntax : BearerSyntax) :
  result string BearerHeaderError :=
  if (MAX_AUTHORIZATION_HEADER_BYTES <? str_len value)%N then Err TooLarge
  else if negb (str_forall header_byte value) then Err InvalidCharacters
  else
    let value := match syntax with
                 | Strict => value
                 | Trimmed => trim_matches is_ascii_whitespace value
                 end in
    (* [find] and [split_at]: the bytes before the first blank, and the rest. *)
    let '(scheme, remainder) := str_span (fun c => negb (is_ascii_whitespace c)) value in
    if is_empty_str remainder then
      (if eq_ignore_ascii_case value "bearer" then Err Empty else Err WrongScheme)
    else if negb (eq_ignore_ascii_case scheme "bearer") then Err WrongScheme
    else
      let credential := trim_matches is_ascii_whitespace remainder in
      if is_empty_str credential then Err Empty
      else if str_exists is_ascii_whitespace credential then Err EmbeddedWhitespace
      else Ok credential.

(** ** What scopes permit *)

Lemma allowlist_any (names : list string) name :
  any (fun allowed => bool_decide (allowed = name)) names = true <-> name ∈ names.
Proof. rewrite any_true. setoid_rewrite bool_decide_eq_true. naive_solver. Qed.

Lemma allows_true s name :
  allows s name = true <-> s = Wildcard \/ exists names, s = Allowlist names /\ name ∈ names.
Proof. destruct s; simpl; [naive_solver|]. rewrite allowlist_any. naive_solver. Qed.

Lemma allows_tool_true s name write_tools :
  allows_tool s name write_tools = true <->
  (s = Wildcard /\ name ∉ write_tools) \/ exists names, s = Allowlist names /\ name ∈ names.
Proof.
  destruct s; simpl; [rewrite negb_bool_decide; naive_solver|].
  rewrite allowlist_any. naive_solver.
Qed.

(** A name a scope may list. *)
Definition name_in_range (name : string) : Prop :=
  name <> "*" /\ name <> "" /\ (str_len name <= 128)%N /\ contains_char "000" name = false.

Lemma in_range_true name :
  negb (is_empty_str name || (128 <? str_len name)%N || contains_char "000" name) = true <->
  name <> "" /\ (str_len name <= 128)%N /\ contains_char "000" name = false.
Proof.
  rewrite negb_true_iff, !orb_false_iff, N.ltb_ge, <-not_true_iff_false, is_empty_str_spec. tauto.
Qed.

Lemma validate_names_Ok field names seen :
  validate_names field names seen = Ok tt <->
  Forall name_in_range names /\ NoDup names /\ Forall (.∉ seen) names.
Proof.
  revert seen; induction names as [|name names IH]; intros seen; simpl.
  { split; [|done]. intros _. split_and!; [constructor..]. }
  rewrite !ensure_Ok, IH, !negb_bool_decide, in_range_true, !Forall_cons, NoDup_cons.
  assert (Forall (.∉ {[ name ]} ∪ seen) names <-> name ∉ names /\ Forall (.∉ seen) names) as ->.
  { rewrite !Forall_forall. split; [|set_solver].
    intros Hf. split; [intros Hin|intros x Hx]; [|by apply Hf in Hx; set_solver].
    apply Hf in Hin. set_solver. }
  unfold name_in_range at 2. tauto.
Qed.

Definition scope_well_formed (s : ScopeSet) : Prop :=
  match s with
  | Wildcard => True
  | Allowlist names =>
      (N.of_nat (length names) <= MAX_SCOPE_NAMES)%N /\ NoDup names /\ Forall name_in_range names
  end.

Lemma scope_validate_Ok s field : scope_validate s field = Ok tt <-> scope_well_formed s.
Proof.
  destruct s as [|names]; simpl; [done|]. rewrite ensure_Ok, N.leb_le, validate_names_Ok.
  split; [tauto|]. intros (?&?&?). split_and!; try done. apply Forall_forall. set_solver.
Qed.

Lemma scope_round_trip s :
  scope_well_formed s -> scope_deserialize (scope_serialize s) = Ok s.
Proof.
  assert (forall names, vec_string_deserialize (JArray (JString <$> names)) = Ok names) as Hv.
  { intros names. unfold vec_string_deserialize. simpl. apply collect_Ok.
    rewrite <-list_fmap_compose. done. }
  destruct s as [|names]; [done|]. intros (_&_&Hr). unfold scope_deserialize. simpl scope_serialize.
  rewrite Hv. simpl. rewrite bool_decide_eq_false_2; [done|]. intros ->.
  apply Forall_cons in Hr as [[Hs _] _]. congruence.
Qed.

(** ** base64url *)

Lemma lor_shiftl_add x y k : (y < 2 ^ k)%N -> N.lor (N.shiftl x k) y = (x * 2 ^ k + y)%N.
Proof.
  intros Hy. rewrite <-N.shiftl_mul_pow2.
  assert (N.land (N.shiftl x k) y = 0)%N as Hd.
  { apply N.bits_inj; intros n. rewrite N.land_spec, N.bits_0.
    destruct (N.lt_ge_cases n k); [by rewrite N.shiftl_spec_low|].
    rewrite <-(N.mod_small y (2 ^ k)) by done. by rewrite N.mod_pow2_bits_high, andb_false_r. }
  by rewrite N.add_nocarry_lxor, N.lxor_lor.
Qed.

Lemma land_63 x : N.land x 63 = (x mod 64)%N.
Proof. exact (N.land_ones x 6). Qed.

(** The value of a character, as a decoder reads it. *)
Definition sextet (c : ascii) : N := from_option N.of_nat 64%N (String.index 0 (String c "") ALPHABET).

Lemma alphabet_sextet i : (i < 64)%N -> sextet (alphabet i) = i.
Proof.
  intros Hi. rewrite <-(N2Nat.id i) in Hi |- *. revert Hi. generalize (N.to_nat i) as n. intros n Hn.
  assert (n < 64)%nat as Hlt by lia. clear Hn.
  do 64 (destruct n as [|n]; [vm_compute; reflexivity|]). lia.
Qed.

Lemma alphabet_inj i j : (i < 64)%N -> (j < 64)%N -> alphabet i = alphabet j -> i = j.
Proof. intros Hi Hj Heq%(f_equal sextet). by rewrite !alphabet_sextet in Heq. Qed.

Lemma N_ascii_lt c : (N_of_ascii c < 256)%N.
Proof. apply N_ascii_bounded. Qed.

Lemma N_of_ascii_inj c d : N_of_ascii c = N_of_ascii d -> c = d.
Proof. intros H. by rewrite <-(ascii_N_embedding c), H, ascii_N_embedding. Qed.

(** The four sextets of a 24-bit value. *)
Lemma sextets_of w x y z :
  (w < 64)%N -> (x < 64)%N -> (y < 64)%N -> (z < 64)%N ->
  let t := (w * 262144 + x * 4096 + y * 64 + z)%N in
  (t / 2 ^ 18 mod 64 = w /\ t / 2 ^ 12 mod 64 = x /\ t / 2 ^ 6 mod 64 = y /\ t mod 64 = z)%N.
Proof.
  intros ???? t. subst t. split_and!; symmetry.
  - apply (N.mod_unique _ _ 0); [done|].
    symmetry. apply (N.div_unique _ _ _ (x * 4096 + y * 64 + z)); lia.
  - apply (N.mod_unique _ _ w); [done|].
    symmetry. apply (N.div_unique _ _ _ (y * 64 + z)); lia.
  - apply (N.mod_unique _ _ (w * 64 + x)); [done|].
    symmetry. apply (N.div_unique _ _ _ z); lia.
  - apply (N.mod_unique _ _ (w * 4096 + x * 64 + y)); [done|lia].
Qed.

Lemma chunk_sextets b0 b1 b2 :
  (b0 < 256)%N -> (b1 < 256)%N -> (b2 < 256)%N ->
  let t := N.lor (N.lor (N.shiftl b0 16) (N.shiftl b1 8)) b2 in
  (N.land (N.shiftr t 18) 63 = b0 / 4 /\
   N.land (N.shiftr t 12) 63 = b0 mod 4 * 16 + b1 / 16 /\
   N.land (N.shiftr t 6) 63 = b1 mod 16 * 4 + b2 / 64 /\
   N.land t 63 = b2 mod 64)%N.
Proof.
  intros H0 H1 H2 t.
  assert (t = b0 / 4 * 262144 + (b0 mod 4 * 16 + b1 / 16) * 4096
              + (b1 mod 16 * 4 + b2 / 64) * 64 + b2 mod 64)%N as ->.
  { subst t. rewrite <-N.lor_assoc, lor_shiftl_add, lor_shiftl_add by (try done;
      rewrite lor_shiftl_add by done; change (2 ^ 8)%N with 256%N; change (2 ^ 16)%N with 65536%N; lia).
    pose proof (N.div_mod b0 4 ltac:(done)). pose proof (N.div_mod b1 16 ltac:(done)).
    pose proof (N.div_mod b2 64 ltac:(done)). change (2 ^ 8)%N with 256%N.
    change (2 ^ 16)%N with 65536%N. lia. }
  rewrite !land_63, !N.shiftr_div_pow2. apply sextets_of.
  - by apply N.Div0.div_lt_upper_bound.
  - pose proof (N.mod_lt b0 4 ltac:(done)). pose proof (N.Div0.div_lt_upper_bound b1 16 16 ltac:(done)). lia.
  - pose proof (N.mod_lt b1 16 ltac:(done)). pose proof (N.Div0.div_lt_upper_bound b2 64 4 ltac:(done)). lia.
  - by apply N.mod_lt.
Qed.

Lemma byte_inj m c d :
  (m <> 0 -> N_of_ascii c / m = N_of_ascii d / m ->
   N_of_ascii c mod m = N_of_ascii d mod m -> c = d)%N.
Proof.
  intros Hm Hd Hr. apply N_of_ascii_inj.
  rewrite (N.div_mod (N_of_ascii c) m), (N.div_mod (N_of_ascii d) m) by done. congruence.
Qed.

Lemma digits_inj k x y x' y' :
  (y < k -> y' < k -> x * k + y = x' * k + y' -> x = x' /\ y = y')%N.
Proof. intros Hy Hy' Heq. apply (N.div_mod_unique k); lia. Qed.

Definition opt_byte (c : option ascii) : N := from_option N_of_ascii 0%N c.

Lemma opt_byte_lt c : (opt_byte c < 256)%N.
Proof. destruct c; simpl; [apply N_ascii_lt|done]. Qed.

Lemma opt_byte_parts c :
  (opt_byte c / 4 < 64 /\ opt_byte c mod 4 < 4 /\ opt_byte c / 16 < 16 /\
   opt_byte c mod 16 < 16 /\ opt_byte c / 64 < 4 /\ opt_byte c mod 64 < 64)%N.
Proof.
  pose proof (opt_byte_lt c).
  split_and!; try (by apply N.mod_lt); by apply N.Div0.div_lt_upper_bound.
Qed.

Lemma encode_chunk_inj a0 a1 a2 b0 b1 b2 :
  (a1 = None -> a2 = None) -> (b1 = None -> b2 = None) ->
  encode_chunk a0 a1 a2 = encode_chunk b0 b1 b2 -> a0 = b0 /\ a1 = b1 /\ a2 = b2.
Proof.
  intros Ha Hb. unfold encode_chunk. fold (opt_byte a1) (opt_byte a2) (opt_byte b1) (opt_byte b2).
  destruct (chunk_sextets _ _ _ (N_ascii_lt a0) (opt_byte_lt a1) (opt_byte_lt a2)) as (->&->&->&->).
  destruct (chunk_sextets _ _ _ (N_ascii_lt b0) (opt_byte_lt b1) (opt_byte_lt b2)) as (->&->&->&->).
  pose proof (opt_byte_parts (Some a0)). pose proof (opt_byte_parts (Some b0)).
  pose proof (opt_byte_parts a1). pose proof (opt_byte_parts b1).
  pose proof (opt_byte_parts a2). pose proof (opt_byte_parts b2).
  destruct a1 as [a1|], b1 as [b1|]; rewrite ?(Ha eq_refl), ?(Hb eq_refl) in *; clear Ha Hb;
    try destruct a2 as [a2|]; try destruct b2 as [b2|]; cbn [opt_byte from_option] in *;
    change (0 mod 16)%N with 0%N in *; change (0 / 16)%N with 0%N in *; change (0 / 64)%N with 0%N in *;
    intros Heq; try discriminate Heq; injection Heq; clear Heq; intros;
    repeat match goal with
    | H : alphabet _ = alphabet _ |- _ => apply alphabet_inj in H; [|lia..]
    | H : (_ * 16 + _ = _ * 16 + _)%N |- _ => apply digits_inj in H as [??]; [|lia..]
    | H : (_ * 4 + _ = _ * 4 + _)%N |- _ => apply digits_inj in H as [??]; [|lia..]
    end;
    split_and!; try done; try f_equal;
    first [by apply (byte_inj 4) | by apply (byte_inj 16) | by apply (byte_inj 64)].
Qed.

Lemma base64url_cons3 a b c s :
  base64url_no_pad (String a (String b (String c s)))
  = encode_chunk a (Some b) (Some c) +:+ base64url_no_pad s.
Proof. done. Qed.

(** Induction three bytes at a time, as [chunks(3)] goes. *)
Lemma chunks_ind (P : bytes -> Prop) :
  P "" -> (forall a, P (String a "")) -> (forall a b, P (String a (String b ""))) ->
  (forall a b c s, P s -> P (String a (String b (String c s)))) -> forall s, P s.
Proof.
  intros H0 H1 H2 H3. fix IH 1. intros [|a [|b [|c s]]]; [done|apply H1|apply H2|apply H3, IH].
Qed.

Lemma base64url_len s :
  String.length (base64url_no_pad s)
  = (String.length s / 3 * 4 + match String.length s mod 3 with 0 => 0 | S m => m + 2 end)%nat.
Proof.
  induction s as [|a|a b|a b c s IH] using chunks_ind; [done..|].
  rewrite base64url_cons3, str_length_app, IH. cbn [String.length].
  replace (S (S (S (String.length s)))) with (String.length s + 1 * 3)%nat by lia.
  rewrite Nat.div_add, Nat.Div0.mod_add by done.
  cbn [String.length encode_chunk]. lia.
Qed.

Lemma base64url_inj s t : base64url_no_pad s = base64url_no_pad t -> s = t.
Proof.
  assert (forall a x y z, String.length (encode_chunk a x y +:+ z)
    = (match x, y with None, _ => 2 | Some _, None => 3 | _, _ => 4 end + String.length z)%nat) as Hlen.
  { intros a x y z. rewrite str_length_app. by destruct x, y. }
  revert t. induction s as [|a|a b|a b c s IH] using chunks_ind;
    intros [|a' [|b' [|c' t]]] Heq; try done; rewrite ?base64url_cons3 in Heq.
  all: try (apply (f_equal String.length) in Heq; rewrite ?Hlen in Heq; simpl in Heq; lia).
  - apply (encode_chunk_inj a None None a' None None) in Heq; naive_solver.
  - apply (encode_chunk_inj a (Some b) None a' (Some b') None) in Heq; naive_solver.
  - apply str_app_inj_len in Heq as [He Heq]; [|done].
    apply encode_chunk_inj in He as (->&[= ->]&[= ->]); [|done..]. by rewrite (IH t).
Qed.

(** ** The bearer grammar *)

Lemma lower_whitespace c : is_ascii_whitespace (to_ascii_lower c) = is_ascii_whitespace c.
Proof. destruct c as [[] [] [] [] [] [] [] []]; vm_compute; reflexivity. Qed.

Lemma to_lowercase_whitespace s :
  str_exists is_ascii_whitespace (to_lowercase s) = str_exists is_ascii_whitespace s.
Proof. induction s as [|c s IH]; simpl; [done|]. by rewrite lower_whitespace, IH. Qed.

Lemma bearer_scheme s :
  to_lowercase s = "bearer" ->
  s <> "" /\ str_forall (fun c => negb (is_ascii_whitespace c)) s = true /\
  str_exists is_ascii_whitespace s = false.
Proof.
  intros Hs. assert (str_exists is_ascii_whitespace s = false) as He
    by (by rewrite <-to_lowercase_whitespace, Hs).
  split; [by intros ->|]. split; [|done]. by rewrite str_forall_exists, He.
Qed.

(** A scheme, blanks and a credential without blanks. *)
Record bearer_form (value c : string) (scheme gap post : string) : Prop := {
  bf_value : value = scheme +:+ gap +:+ c +:+ post;
  bf_scheme : to_lowercase scheme = "bearer";
  bf_gap : gap <> "" /\ str_forall is_ascii_whitespace gap = true;
  bf_credential : c <> "" /\ str_exists is_ascii_whitespace c = false;
  bf_post : str_forall is_ascii_whitespace post = true;
}.

(** The part of the parser after the optional outer trim. *)
Definition parse_trimmed (value : string) : result string BearerHeaderError :=
  let '(scheme, remainder) := str_span (fun c => negb (is_ascii_whitespace c)) value in
  if is_empty_str remainder then
    (if eq_ignore_ascii_case value "bearer" then Err Empty else Err WrongScheme)
  else if negb (eq_ignore_ascii_case scheme "bearer") then Err WrongScheme
  else
    let credential := trim_matches is_ascii_whitespace remainder in
    if is_empty_str credential then Err Empty
    else if str_exists is_ascii_whitespace credential then Err EmbeddedWhitespace
    else Ok credential.

Lemma parse_trimmed_Ok value c :
  parse_trimmed value = Ok c <-> exists scheme gap post, bearer_form value c scheme gap post.
Proof.
  unfold parse_trimmed. split.
  - destruct (str_span _ value) as [scheme remainder] eqn:Hsp.
    apply str_span_eq in Hsp as (->&_&Hst). destruct (is_empty_str remainder) eqn:Her.
    { by destruct (eq_ignore_ascii_case _ _). }
    unfold eq_ignore_ascii_case. case_bool_decide as Hsch; [|done]. cbn [negb].
    destruct (is_empty_str (trim_matches _ remainder)) eqn:Hec; [done|].
    destruct (str_exists _ (trim_matches _ remainder)) eqn:Hws; [done|]. intros [= Hc].
    assert (c <> "") as Hne by (intros ->; by rewrite Hc in Hec).
    rewrite Hc in Hws. destruct (proj1 (trim_matches_eq _ _ _ Hne Hws) Hc) as (gap&post&->&Hg&Hp).
    exists scheme, gap, post. split; try done. split; [|done]. intros ->.
    apply str_exists_stops in Hws. rewrite str_app_nil in Hst. destruct c; [done|].
    rewrite str_app_cons in Hst. simpl in *. by rewrite Hws in Hst.
  - intros (scheme&gap&post&[-> Hs [Hg Hgw] [Hc Hcw] Hp]). destruct (bearer_scheme _ Hs) as (_&Hsw&_).
    rewrite str_span_intro; [|done|].
    2:{ destruct gap; [done|]. rewrite str_app_cons. simpl in *.
        apply andb_true_iff in Hgw as [-> _]. done. }
    destruct (is_empty_str (gap +:+ c +:+ post)) eqn:He.
    { apply is_empty_str_spec in He. by destruct gap. }
    unfold eq_ignore_ascii_case. rewrite bool_decide_eq_true_2 by done. cbn [negb].
    assert (trim_matches is_ascii_whitespace (gap +:+ c +:+ post) = c) as ->
      by (apply trim_matches_eq; eauto).
    rewrite Hcw. by destruct c.
Qed.

Lemma trim_matches_form value c scheme gap post :
  bearer_form value c scheme gap post ->
  forall pre, str_forall is_ascii_whitespace pre = true ->
  trim_matches is_ascii_whitespace (pre +:+ value) = scheme +:+ gap +:+ c.
Proof.
  intros [-> Hs _ [Hc Hcw] Hp] pre Hpre. destruct (bearer_scheme _ Hs) as (Hne&_&Hsw).
  unfold trim_matches. rewrite trim_start_app by done.
  rewrite trim_start_id by (by apply stops_app, str_exists_stops).
  rewrite <-(str_app_assoc scheme gap), trim_end_keep by done. by rewrite str_app_assoc.
Qed.

Lemma parse_bearer_header_Ok value syntax c :
  parse_bearer_header value syntax = Ok c <->
  (str_len value <= MAX_AUTHORIZATION_HEADER_BYTES)%N /\ str_forall header_byte value = true /\
  exists pre rest scheme gap post, value = pre +:+ rest /\
    str_forall is_ascii_whitespace pre = true /\ (syntax = Strict -> pre = "") /\
    bearer_form rest c scheme gap post.
Proof.
  change (parse_bearer_header value syntax) with
    (if (MAX_AUTHORIZATION_HEADER_BYTES <? str_len value)%N then Err TooLarge
     else if negb (str_forall header_byte value) then Err InvalidCharacters
     else parse_trimmed (match syntax with
            | Strict => value | Trimmed => trim_matches is_ascii_whitespace value end)).
  destruct (N.ltb_spec MAX_AUTHORIZATION_HEADER_BYTES (str_len value)); [split; [done|]; intros [? _]; lia|].
  destruct (str_forall header_byte value); cbn [negb]; [|split; [done|]; by intros (_&?&_)].
  rewrite parse_trimmed_Ok. destruct syntax; split.
  - intros (s&g&p&Hf). split_and!; [done..|]. exists "", value, s, g, p. by rewrite str_app_nil.
  - intros (_&_&pre&rest&s&g&p&->&_&Hst&Hf). rewrite Hst, str_app_nil by done. eauto.
  - intros (s&g&p&[Hv Hs Hg Hc Hp]). split_and!; [done..|]. unfold trim_matches in Hv.
    destruct (trim_start_spec is_ascii_whitespace value) as (pre&Hpre&Hw&_).
    destruct (trim_end_spec is_ascii_whitespace (trim_start is_ascii_whitespace value)) as (q&Hq&Hqw).
    rewrite Hv in Hq. exists pre, (trim_start is_ascii_whitespace value), s, g, (p +:+ q).
    split_and!; [done..|]. split; try done; [|by rewrite str_forall_app, Hp, Hqw].
    rewrite Hq, !str_app_assoc. done.
  - intros (_&_&pre&rest&s&g&p&->&Hw&_&Hf). exists s, g, "".
    rewrite (trim_matches_form _ _ _ _ _ Hf pre Hw). destruct Hf. split; try done.
    by rewrite str_app_nil_r.
Qed.
