(* ===== verification/Tokens.v ===== *)
(** * Token entries, the token store and call authorization

    crates/mecmcp-auth/src/entry.rs and store.rs, and
    crates/mecmcp-server/src/authorize.rs: what one token declares, which
    entry a presented secret selects, and which calls the selected caller may
    make.  Instants ([DateTime<Utc>]) are nanoseconds since the epoch. *)

From S2P Require Import Prelude Externals Text Scope.
From Stdlib Require Import Ascii ZArith.

(** ** One entry (entry.rs) *)

Definition MAX_TOKEN_NAME : N := 128.

Inductive Tier := Public | Private.

#[export] Instance Tier_eq_dec : EqDecision Tier.
Proof. solve_decision. Defined.

Inductive ActorType := Human | Agent | Unknown.

#[export] Instance ActorType_eq_dec : EqDecision ActorType.
Proof. solve_decision. Defined.

Inductive EntryError :=
| EntryScope (name : string) (source : ScopeError)
| EntryGrant (name : string) (source : GrantError)
| EntryInvalid (detail : string).

Record TokenEntry (G : Type) := {
  te_name : string;
  te_digest : string;
  te_devices : ScopeSet;
  te_tools : ScopeSet;
  te_created_at : Z;
  te_expires_at : option Z;
  te_grant : option G;
  te_provider : option string;
  te_provider_tier : option Tier;
  te_on_behalf_of : option string;
  te_actor_type : ActorType;
}.
Arguments te_name {G}. Arguments te_digest {G}. Arguments te_devices {G}.
Arguments te_tools {G}. Arguments te_created_at {G}. Arguments te_expires_at {G}.
Arguments te_grant {G}. Arguments te_provider {G}. Arguments te_provider_tier {G}.
Arguments te_on_behalf_of {G}. Arguments te_actor_type {G}.

Definition is_expired_at {G} (e : TokenEntry G) (now : Z) : bool :=
  match te_expires_at e with Some expiry => (expiry <=? now)%Z | None => false end.

Definition effective_actor_type {G} (e : TokenEntry G) : ActorType :=
  if bool_decide (is_Some (te_provider e)) && bool_decide (te_actor_type e = Unknown)
  then Agent else te_actor_type e.

Definition present_but_blank (v : option string) : bool := from_option is_blank false v.

Definition entry_validate `{Grant G} (e : TokenEntry G) : result unit EntryError :=
  let name := te_name e in
  ensure negb (is_empty_str name || (MAX_TOKEN_NAME <? str_len name)%N)
    else (EntryInvalid ("token name must be 1-" +:+ pretty MAX_TOKEN_NAME +:+ " characters"));
  ensure negb (contains_char "000" name || contains_whitespace name)
    else (EntryInvalid ("token name '" +:+ name +:+ "' contains whitespace or a null byte"));
  check? map_err (EntryScope name) (scope_validate (te_devices e) "devices");
  check? map_err (EntryScope name) (scope_validate (te_tools e) "tools");
  check? match te_grant e with
         | Some g => map_err (EntryGrant name) (grant_validate g)
         | None => Ok tt
         end;
  check? match te_provider e, te_provider_tier e with
         | Some _, None => Err (EntryInvalid ("token '" +:+ name
             +:+ "': provider is set but provider_tier is missing"))
         | None, Some _ => Err (EntryInvalid ("token '" +:+ name
             +:+ "': provider_tier is set but provider is missing"))
         | _, _ => Ok tt
         end;
  ensure negb (present_but_blank (te_provider e))
    else (EntryInvalid ("token '" +:+ name +:+ "': provider is present but empty"));
  ensure negb (present_but_blank (te_on_behalf_of e))
    else (EntryInvalid ("token '" +:+ name +:+ "': on_behalf_of is present but empty"));
  ensure negb (bool_decide (is_Some (te_provider e)) && bool_decide (te_actor_type e = Human))
    else (EntryInvalid ("token '" +:+ name +:+ "': provider metadata contradicts actor_type "
            +:+ dquote +:+ "human" +:+ dquote));
  Ok tt.

(** ** The store (store.rs) *)

Definition MAX_TOKENS : N := 1024.

Inductive StoreError :=
| Duplicate (name : string)
| TooMany (n : N)
| InEntry (e : EntryError).

Fixpoint validate_entries `{Grant G} (entries : list (TokenEntry G)) (seen : gset string) :
  result unit StoreError :=
  match entries with
  | [] => Ok tt
  | e :: entries =>
      check? map_err InEntry (entry_validate e);
      ensure negb (bool_decide (te_name e ∈ seen)) else (Duplicate (te_name e));
      validate_entries entries ({[ te_name e ]} ∪ seen)
  end.

(** A [TokenStore] is its entries; [try_new] is the only way to make one. *)
Definition try_new `{Grant G} (entries : list (TokenEntry G)) :
  result (list (TokenEntry G)) StoreError :=
  ensure (N.of_nat (length entries) <=? MAX_TOKENS)%N
    else (TooMany (N.of_nat (length entries)));
  check? validate_entries entries ∅;
  Ok entries.

Section store.
Context `{Externals}.
Context {G : Type}.

(** Every entry is compared, and the last one that matches wins. *)
Definition authenticate_at (store : list (TokenEntry G)) (candidate : string) (now : Z) :
  option (TokenEntry G) :=
  foldl (fun found e =>
    if digest_verify (te_digest e) candidate && negb (is_expired_at e now) then Some e else found)
    None store.

End store.

(** The authenticated identity of one request; [request_id] is the fresh UUID
    the conversion mints. *)
Record CallerCtx (G : Type) := {
  cc_token_name : string;
  cc_devices : ScopeSet;
  cc_tools : ScopeSet;
  cc_grant : option G;
  cc_provider : option string;
  cc_provider_tier : option Tier;
  cc_on_behalf_of : option string;
  cc_actor_type : ActorType;
  cc_client_name : option string;
  cc_model_id : option string;
  cc_session_id : option string;
  cc_request_id : string;
}.
Arguments cc_token_name {G}. Arguments cc_devices {G}. Arguments cc_tools {G}.
Arguments cc_grant {G}. Arguments cc_provider {G}. Arguments cc_provider_tier {G}.
Arguments cc_on_behalf_of {G}. Arguments cc_actor_type {G}. Arguments cc_client_name {G}.
Arguments cc_model_id {G}. Arguments cc_session_id {G}. Arguments cc_request_id {G}.

Definition caller_of {G} (e : TokenEntry G) (request_id : string) : CallerCtx G := {|
  cc_token_name := te_name e;
  cc_devices := te_devices e;
  cc_tools := te_tools e;
  cc_grant := te_grant e;
  cc_provider := te_provider e;
  cc_provider_tier := te_provider_tier e;
  cc_on_behalf_of := te_on_behalf_of e;
  cc_actor_type := effective_actor_type e;
  cc_client_name := None;
  cc_model_id := None;
  cc_session_id := None;
  cc_request_id := request_id;
|}.

Definition filter_device_names {G} (ctx : option (CallerCtx G)) (names : list string) :
  list string :=
  match ctx with
  | Some ctx => base.filter (fun name => allows (cc_devices ctx) name = true) names
  | None => names
  end.

Definition filter_target_names {G} (ctx : option (CallerCtx G)) (names : list string) :
  list string := filter_device_names ctx names.

(** ** Authorization (mecmcp-server/src/authorize.rs) *)

Inductive AuthorizationError :=
| ToolNotInScope (token tool : string)
| TargetNotInScope (token tool target : string).

Section authorize.
Context {G : Type}.

Definition authorize_tool (caller : option (CallerCtx G)) (tool : string)
  (write_tools : list string) : result unit AuthorizationError :=
  match caller with
  | None => Ok tt
  | Some c =>
      if allows_tool (cc_tools c) tool write_tools then Ok tt
      else Err (ToolNotInScope (cc_token_name c) tool)
  end.

Definition authorize_target (caller : option (CallerCtx G)) (tool target : string) :
  result unit AuthorizationError :=
  match caller with
  | None => Ok tt
  | Some c =>
      if allows (cc_devices c) target then Ok tt
      else Err (TargetNotInScope (cc_token_name c) tool target)
  end.

Definition authorize_call (caller : option (CallerCtx G)) (tool : string)
  (target : option string) (write_tools : list string) : result unit AuthorizationError :=
  check? authorize_tool caller tool write_tools;
  match target with
  | Some target => authorize_target caller tool target
  | None => Ok tt
  end.

(** A tool is its name and the rest of its description. *)
Definition filter_tools_for_scope {D} (tools : list (string * D)) (caller : option (CallerCtx G))
  (write_tools : list string) : list (string * D) :=
  match caller with
  | None => tools
  | Some c => base.filter (fun tool => allows_tool (cc_tools c) tool.1 write_tools = true) tools
  end.

End authorize.

(** ** Stores that [try_new] accepts *)

Section store_facts.
Context `{Grant G}.

Lemma validate_entries_Ok (entries : list (TokenEntry G)) seen :
  validate_entries entries seen = Ok tt <->
  Forall (fun e => entry_validate e = Ok tt) entries /\ NoDup (te_name <$> entries) /\
  Forall (fun e => te_name e ∉ seen) entries.
Proof.
  revert seen; induction entries as [|e entries IH]; intros seen.
  { simpl. split; [|done]. intros _. split_and!; [constructor..]. }
  cbn [validate_entries]. rewrite check_Ok, ensure_Ok, IH, map_err_Ok, negb_bool_decide.
  rewrite fmap_cons, !Forall_cons, NoDup_cons.
  assert (Forall (fun e' => te_name e' ∉ ({[te_name e]} ∪ seen : gset string)) entries <->
    te_name e ∉ te_name <$> entries /\ Forall (fun e' => te_name e' ∉ seen) entries) as ->; [|tauto].
  rewrite !Forall_forall. setoid_rewrite list_elem_of_fmap. split; [|set_solver].
  intros Hf. split; [|by intros x Hx; apply Hf in Hx; set_solver].
  intros (e'&He&Hin). apply Hf in Hin. set_solver.
Qed.

Lemma try_new_Ok (entries store : list (TokenEntry G)) :
  try_new entries = Ok store <->
  store = entries /\ (N.of_nat (length entries) <= MAX_TOKENS)%N /\
  Forall (fun e => entry_validate e = Ok tt) entries /\ NoDup (te_name <$> entries).
Proof.
  unfold try_new. rewrite ensure_Ok, check_Ok, N.leb_le, validate_entries_Ok. split.
  - intros (?&(?&?&_)&[= ->]). done.
  - intros (->&?&?&?). split_and!; try done. apply Forall_forall. set_solver.
Qed.

Lemma entry_validate_scopes (e : TokenEntry G) :
  entry_validate e = Ok tt ->
  scope_well_formed (te_devices e) /\ scope_well_formed (te_tools e).
Proof.
  unfold entry_validate. intros [_ [_ Hv]%ensure_Ok]%ensure_Ok.
  apply check_Ok in Hv as [Hd%map_err_Ok%scope_validate_Ok Hv].
  apply check_Ok in Hv as [Ht%map_err_Ok%scope_validate_Ok _]. done.
Qed.

Lemma entry_validate_grant (e : TokenEntry G) g :
  entry_validate e = Ok tt -> te_grant e = Some g -> grant_validate g = Ok tt.
Proof.
  unfold entry_validate. intros [_ [_ Hv]%ensure_Ok]%ensure_Ok Hg. rewrite Hg in Hv.
  apply check_Ok in Hv as [_ Hv]. apply check_Ok in Hv as [_ Hv].
  by apply check_Ok in Hv as [Hv%map_err_Ok _].
Qed.

(** A validated entry never combines a provider with a human actor. *)
Lemma entry_validate_actor (e : TokenEntry G) :
  entry_validate e = Ok tt -> te_provider e <> None -> effective_actor_type e = Agent.
Proof.
  unfold entry_validate, effective_actor_type. intros [_ [_ Hv]%ensure_Ok]%ensure_Ok Hp.
  do 4 (apply check_Ok in Hv as [_ Hv]). do 2 (apply ensure_Ok in Hv as [_ Hv]).
  apply ensure_Ok in Hv as [Hv _]. destruct (te_provider e); [|done].
  rewrite bool_decide_eq_true_2 in * by eauto. simpl in *.
  by destruct (te_actor_type e).
Qed.

End store_facts.

Section authentication.
Context `{Externals}.
Context {G : Type}.
Implicit Types e : TokenEntry G.

(** The entry answers to this secret now. *)
Definition answers (candidate : string) (now : Z) e : Prop :=
  te_digest e = from_secret candidate /\
  match te_expires_at e with Some expiry => (now < expiry)%Z | None => True end.

Lemma answers_true candidate now e :
  digest_verify (te_digest e) candidate && negb (is_expired_at e now) = true <->
  answers candidate now e.
Proof.
  unfold answers, digest_verify, is_expired_at. rewrite andb_true_iff, bool_decide_eq_true.
  destruct (te_expires_at e) as [x|]; [destruct (Z.leb_spec x now)|]; simpl;
    split; intros [Hd Ht]; split; try done; try lia; congruence.
Qed.

#[global] Instance answers_dec candidate now e : Decision (answers candidate now e).
Proof.
  destruct (digest_verify (te_digest e) candidate && negb (is_expired_at e now)) eqn:E.
  - left. by apply answers_true.
  - right. intros Ha%answers_true. congruence.
Defined.

Lemma authenticate_snoc store e candidate now :
  authenticate_at (store ++ [e])%list candidate now
  = if decide (answers candidate now e) then Some e else authenticate_at store candidate now.
Proof.
  unfold authenticate_at. rewrite foldl_app. simpl.
  destruct (digest_verify (te_digest e) candidate && negb (is_expired_at e now)) eqn:E;
    destruct (decide _) as [Ha|Ha]; try done; exfalso.
  - by apply Ha, answers_true.
  - apply answers_true in Ha. congruence.
Qed.

Lemma authenticate_Some store candidate now e :
  authenticate_at store candidate now = Some e <->
  exists before after : list (TokenEntry G), store = (before ++ e :: after)%list /\ answers candidate now e /\
    Forall (fun e' => ~ answers candidate now e') after.
Proof.
  revert e; induction store as [|x store IH] using rev_ind; intros e.
  { split; [done|]. intros ([]&?&?&_); done. }
  rewrite authenticate_snoc. destruct (decide (answers candidate now x)) as [Hx|Hx].
  - split.
    + intros [= <-]. exists store, []. split_and!; [done..|constructor].
    + intros (before&after&Heq&He&Ha). destruct after as [|y after _] using rev_ind.
      * by apply app_inj_tail in Heq as [_ ->].
      * rewrite app_comm_cons, app_assoc in Heq. apply app_inj_tail in Heq as [_ ->].
        by apply Forall_app in Ha as [_ [? _]%Forall_cons].
  - rewrite IH. split.
    + intros (before&after&->&He&Ha). exists before, (after ++ [x])%list.
      split_and!; [by rewrite <-app_assoc|done|]. apply Forall_app. auto.
    + intros (before&after&Heq&He&Ha). destruct after as [|y after _] using rev_ind.
      * by apply app_inj_tail in Heq as [_ ->].
      * rewrite app_comm_cons, app_assoc in Heq. apply app_inj_tail in Heq as [-> ->].
        apply Forall_app in Ha as [Ha _]. eauto.
Qed.

Lemma authenticate_None store candidate now :
  authenticate_at store candidate now = None <->
  Forall (fun e => ~ answers candidate now e) store.
Proof.
  induction store as [|x store IH] using rev_ind; [done|].
  rewrite authenticate_snoc, Forall_app, Forall_singleton.
  destruct (decide (answers candidate now x)); [naive_solver|]. rewrite IH. naive_solver.
Qed.

End authentication.

(** ** What an authorized call is *)

Section authorize_facts.
Context {G : Type}.

Lemma authorize_tool_Ok (c : CallerCtx G) tool write_tools :
  authorize_tool (Some c) tool write_tools = Ok tt <->
  allows_tool (cc_tools c) tool write_tools = true.
Proof. simpl. by destruct (allows_tool _ _ _). Qed.

Lemma authorize_call_Ok (c : CallerCtx G) tool target write_tools :
  authorize_call (Some c) tool target write_tools = Ok tt <->
  allows_tool (cc_tools c) tool write_tools = true /\
  forall t, target = Some t -> allows (cc_devices c) t = true.
Proof.
  unfold authorize_call. rewrite check_Ok, authorize_tool_Ok. apply and_iff_compat_l.
  destruct target as [t|]; [|done]. simpl. destruct (allows _ t) eqn:E; split; try done.
  - intros _ t' Ht. congruence.
  - intros Hall. by rewrite (Hall t eq_refl) in E.
Qed.

End authorize_facts.
