(* ===== verification/TokenFile.v ===== *)
(** * The token file (crates/mecmcp-auth/src/file.rs)

    Reading, validating and rewriting [tokens.json], with the serde encoding
    of an entry that entry.rs declares (field aliases, defaults, skipped
    fields).  The JSON text layer, date formatting and the encoding of the
    vendor's grant are third-party code: classes with the laws relied on. *)

From S2P Require Import Prelude Externals Json Text Secret Scope Tokens.
From Stdlib Require Import Ascii ZArith.

(** ** Third-party code *)

(** [serde_json]'s text layer.  [text_parse] keeps repeated keys: what a
    typed parse makes of them is decided below. *)
Class JsonText := {
  text : Type;
  text_len : text -> N;
  text_utf8 : text -> bool;
  text_parse : text -> result json string;
  text_print : json -> text;
}.

Class JsonTextLaws `(JsonText) : Prop := {
  text_print_utf8 : forall j, text_utf8 (text_print j) = true;
  text_parse_print : forall j, text_parse (text_print j) = Ok j;
}.

(** [chrono]: RFC 3339 text of an instant, and an instant from Unix seconds. *)
Class Chrono := {
  to_rfc3339 : Z -> string;
  parse_datetime : string -> option Z;
  from_timestamp : Z -> option Z;
}.

(** Years 0 to 9999, the range RFC 3339 can express. *)
Definition rfc3339_range (t : Z) : Prop :=
  (-62167219200000000000 <= t < 253402300800000000000)%Z.

Class ChronoLaws `(Chrono) : Prop := {
  parse_to_rfc3339 : forall t, rfc3339_range t -> parse_datetime (to_rfc3339 t) = Some t;
}.

(** The serde encoding of the vendor's grant type. *)
Class StoredGrant (G : Type) := {
  grant_to_value : G -> result json string;
  grant_from_value : json -> result G string;
}.

(** ** JSON values *)

Fixpoint first_dropped_key (raw round_tripped : json) : option string :=
  match raw with
  | JObject before =>
      match round_tripped with
      | JObject after =>
          (fix go before :=
             match before with
             | [] => None
             | (key, value) :: before =>
                 match assoc key after with
                 | None => Some key
                 | Some kept =>
                     match first_dropped_key value kept with
                     | Some nested => Some (key +:+ "." +:+ nested)
                     | None => go before
                     end
                 end
             end) before
      | _ => None
      end
  | JArray before =>
      match round_tripped with
      | JArray after =>
          (* [zip]: the longer array's tail is not compared. *)
          (fix go before after index :=
             match before, after with
             | b :: before, a :: after =>
                 match first_dropped_key b a with
                 | Some nested => Some ("[" +:+ pretty (N.of_nat index) +:+ "]." +:+ nested)
                 | None => go before after (S index)
                 end
             | _, _ => None
             end) before after 0
      | _ => None
      end
  | _ => None
  end.

(** ** Deserialization, as serde derives it *)

(** A struct is an object, or an array with its fields in order. *)
Definition struct_fields (names : list string) (j : json) : result (list (string * json)) string :=
  match j with
  | JObject l => Ok l
  | JArray l => if (length l <=? length names)%nat then Ok (zip names l) else Err "trailing characters"
  | _ => Err "invalid type, expected a struct"
  end.

(** The value under a field's name or one of its aliases. *)
Definition field (names : list string) (l : list (string * json)) : result (option json) string :=
  match base.filter (fun kv => existsb (String.eqb kv.1) names = true) l with
  | [] => Ok None
  | [(_, v)] => Ok (Some v)
  | _ => Err "duplicate field"
  end.

Definition required {A} (names : list string) (l : list (string * json))
  (f : json -> result A string) : result A string :=
  let? v := field names l in
  match v with Some v => f v | None => Err "missing field" end.

Definition defaulted {A} (d : A) (names : list string) (l : list (string * json))
  (f : json -> result A string) : result A string :=
  let? v := field names l in
  match v with Some v => f v | None => Ok d end.

(** [Option<T>]: [null] is [None]. *)
Definition optional {A} (f : json -> result A string) (j : json) : result (option A) string :=
  if is_null j then Ok None else let? a := f j in Ok (Some a).

Definition string_deserialize (j : json) : result string string :=
  ok_or (json_as_str j) "invalid type, expected a string".

(** Decimal integers as JSON writes them. *)
Fixpoint digits_value (s : string) (acc : Z) : option Z :=
  match s with
  | EmptyString => Some acc
  | String c s =>
      if is_ascii_digit c then digits_value s (acc * 10 + (Z.of_N (N_of_ascii c) - 48))%Z else None
  end.

Definition integer_value (repr : string) : option Z :=
  match repr with
  | String "-" rest => if is_empty_str rest then None else Z.opp <$> digits_value rest 0
  | _ => if is_empty_str repr then None else digits_value repr 0
  end.

Definition int_deserialize (lo hi : Z) (j : json) : result Z string :=
  match j with
  | JNumber repr =>
      let? z := ok_or (integer_value repr) "invalid type, expected an integer" in
      ensure (lo <=? z)%Z && (z <=? hi)%Z else "invalid value"; Ok z
  | _ => Err "invalid type, expected an integer"
  end.

Definition tier_deserialize (j : json) : result Tier string :=
  match j with
  | JString "public" => Ok Public
  | JString "private" => Ok Private
  | _ => Err "unknown variant"
  end.

Definition actor_type_deserialize (j : json) : result ActorType string :=
  match j with
  | JString "human" => Ok Human
  | JString "agent" => Ok Agent
  | JString "unknown" => Ok Unknown
  | _ => Err "unknown variant"
  end.

Definition tier_serialize (t : Tier) : json :=
  JString match t with Public => "public" | Private => "private" end.

Definition actor_type_serialize (t : ActorType) : json :=
  JString match t with Human => "human" | Agent => "agent" | Unknown => "unknown" end.

Section encoding.
Context `{Chrono} {G : Type} `{StoredGrant G}.

(** The untagged [Raw]: RFC 3339 text, or Unix seconds. *)
Definition timestamp_deserialize (j : json) : result Z string :=
  match j with
  | JString s => ok_or (parse_datetime s) "data did not match any variant of untagged enum Raw"
  | j =>
      let? seconds := map_err (fun _ => "data did not match any variant of untagged enum Raw")
                        (int_deserialize (-9223372036854775808) 9223372036854775807 j) in
      ok_or (from_timestamp seconds) "timestamp is out of range"
  end.

Definition timestamp_serialize (t : Z) : json := JString (to_rfc3339 t).

Definition entry_field_names : list string :=
  ["name"; "digest"; "devices"; "tools"; "created_at"; "expires_at"; "grant"; "provider";
   "provider_tier"; "on_behalf_of"; "actor_type"].

Definition entry_deserialize (j : json) : result (TokenEntry G) string :=
  let? l := struct_fields entry_field_names j in
  let? name := required ["name"] l string_deserialize in
  let? digest := required ["digest"; "hash"] l digest_deserialize in
  let? devices := defaulted Wildcard ["devices"; "routers"; "targets"] l scope_deserialize in
  let? tools := defaulted Wildcard ["tools"] l scope_deserialize in
  let? created_at := required ["created_at"; "created_at_unix"] l timestamp_deserialize in
  let? expires_at := defaulted None ["expires_at"; "expires_at_unix"] l
                       (optional timestamp_deserialize) in
  let? grant := defaulted None ["grant"; "mutation"] l (optional grant_from_value) in
  let? provider := defaulted None ["provider"] l (optional string_deserialize) in
  let? provider_tier := defaulted None ["provider_tier"] l (optional tier_deserialize) in
  let? on_behalf_of := defaulted None ["on_behalf_of"] l (optional string_deserialize) in
  let? actor_type := defaulted Unknown ["actor_type"] l actor_type_deserialize in
  Ok {| te_name := name; te_digest := digest; te_devices := devices; te_tools := tools;
        te_created_at := created_at; te_expires_at := expires_at; te_grant := grant;
        te_provider := provider; te_provider_tier := provider_tier;
        te_on_behalf_of := on_behalf_of; te_actor_type := actor_type |}.

Definition opt_field (k : string) (v : option json) : list (string * json) :=
  match v with Some v => [(k, v)] | None => [] end.

(** The fields written; [grant] is the grant's own encoding, already made. *)
Definition entry_fields (e : TokenEntry G) (grant : option json) : list (string * json) :=
  [("name", JString (te_name e)); ("digest", JString (te_digest e));
   ("devices", scope_serialize (te_devices e)); ("tools", scope_serialize (te_tools e));
   ("created_at", timestamp_serialize (te_created_at e))]
  ++ opt_field "expires_at" (timestamp_serialize <$> te_expires_at e)
  ++ opt_field "grant" grant
  ++ opt_field "provider" (JString <$> te_provider e)
  ++ opt_field "provider_tier" (tier_serialize <$> te_provider_tier e)
  ++ opt_field "on_behalf_of" (JString <$> te_on_behalf_of e)
  ++ opt_field "actor_type" (if bool_decide (te_actor_type e = Unknown) then None
                             else Some (actor_type_serialize (te_actor_type e))).

Definition entry_serialize (e : TokenEntry G) : result json string :=
  match te_grant e with
  | Some g => let? v := grant_to_value g in Ok (JObject (entry_fields e (Some v)))
  | None => Ok (JObject (entry_fields e None))
  end.

End encoding.

(** ** The document and the file *)

Inductive FileError :=
| Io (detail : string)
| Parse (detail : string)
| InStore (source : StoreError)
| Permissions (detail : string).

Definition file_invalid (detail : string) : FileError := InStore (InEntry (EntryInvalid detail)).

Definition DEFAULT_STORE_VERSION : N := 1.

Definition token_file_limit : N := 1024 * 1024.

Definition check_supported_version (version : N) : result unit FileError :=
  ensure (version =? 1)%N || (version =? 2)%N
    else (file_invalid ("unsupported store version " +:+ pretty version
            +:+ ", supported versions: 1, 2"));
  Ok tt.

Definition map_secret_error (e : SecretError) : FileError :=
  match e with
  | FileIo d => Io d
  | other => Permissions (secret_error_to_string other)
  end.

(** The names a token's scopes may reference. *)
Record KnownNames := { kn_devices : option (list string); kn_tools : list string }.

Definition unknown_name (name kind : string) (known : list string) (listed : list string) :
  result unit string :=
  try_each (fun x => ensure any (fun k => bool_decide (k = x)) known
              else ("token '" +:+ name +:+ "' references unknown " +:+ kind +:+ " '" +:+ x +:+ "'");
            Ok tt) listed.

Definition validate_references {G} (store : list (TokenEntry G)) (known : KnownNames) :
  result unit string :=
  try_each (fun e =>
    check? match te_devices e, kn_devices known with
           | Allowlist devices, Some known_devices =>
               unknown_name (te_name e) "device" known_devices devices
           | _, _ => Ok tt
           end;
    match te_tools e with
    | Allowlist tools => unknown_name (te_name e) "tool" (kn_tools known) tools
    | Wildcard => Ok tt
    end) store.

Definition validate_scope_agreement `{Grant G} (e : TokenEntry G) : result unit string :=
  let target_scoped_grant := from_option subjects_are_targets false (te_grant e) in
  ensure negb (target_scoped_grant && bool_decide (te_devices e = Wildcard))
    else ("token '" +:+ te_name e +:+ "' pairs a wildcard target scope with a grant that names "
      +:+ "specific targets; narrow the scope to the grant's subjects so both layers agree");
  Ok tt.

(** The process that writes: its effective uid, the gid its temporary file
    gets, and whether its [chown] succeeds. *)
Record Writer := { wr_euid : N; wr_temp_gid : N; wr_can_chown : bool }.

Definition needs_ownership_change (replacement_uid replacement_gid destination_uid
  destination_gid : N) : bool :=
  negb (replacement_uid =? destination_uid)%N || negb (replacement_gid =? destination_gid)%N.

Section file.
Context `{Externals} `{JsonText} `{Chrono} {G : Type} `{Grant G} `{StoredGrant G}.

(** What is at the path; a symbolic link is taken to lead to a file. *)
Definition TokenPath := option (File text).

Definition document_deserialize (j : json) : result (N * list (TokenEntry G)) string :=
  let? l := struct_fields ["version"; "tokens"] j in
  let? version := defaulted DEFAULT_STORE_VERSION ["version"] l
                    (fun v => let? z := int_deserialize 0 4294967295 v in Ok (Z.to_N z)) in
  let? tokens := required ["tokens"] l (fun v =>
    let? xs := ok_or (json_as_array v) "invalid type, expected a sequence" in
    collect (entry_deserialize <$> xs)) in
  Ok (version, tokens).

Definition document_serialize (version : N) (tokens : list (TokenEntry G)) : result json string :=
  let? xs := collect (entry_serialize <$> tokens) in
  Ok (JObject [("version", json_u64 version); ("tokens", JArray xs)]).

(** The check of one token: the grant as written against the grant as it
    would be written again. *)
Definition reject_dropped_in (raw_token : json) (e : TokenEntry G) : result unit FileError :=
  match json_get "grant" raw_token with
  | None => Ok tt
  | Some raw_grant =>
      if is_null raw_grant then Ok tt
      else match te_grant e with
           | None => Err (file_invalid ("token '" +:+ te_name e
               +:+ "' carries a grant this build cannot represent"))
           | Some grant =>
               let? round_tripped := map_err (fun d => file_invalid ("token '" +:+ te_name e
                 +:+ "' grant is not serializable: " +:+ d)) (grant_to_value grant) in
               match first_dropped_key raw_grant round_tripped with
               | Some k => Err (file_invalid ("token '" +:+ te_name e +:+ "' grant has field '"
                   +:+ k +:+ "' that this build does not understand"))
               | None => Ok tt
               end
           end
  end.

Definition reject_dropped_grant_fields (parsed : json) (tokens : list (TokenEntry G)) :
  result unit FileError :=
  match json_get "tokens" (json_value parsed) ≫= json_as_array with
  | None => Ok tt
  | Some raw_tokens => try_each (fun p => reject_dropped_in p.1 p.2) (zip raw_tokens tokens)
  end.

Definition read_store (euid : N) (file : TokenPath) :
  result (list (TokenEntry G) * N) FileError :=
  let? body := map_err map_secret_error
    (read_hardened_file euid token_file_limit (ok_or file "No such file or directory")) in
  ensure text_utf8 body else (Io "invalid utf-8 sequence");
  let? parsed := map_err Parse (text_parse body) in
  let? doc := map_err Parse (document_deserialize parsed) in
  check? check_supported_version doc.1;
  check? reject_dropped_grant_fields parsed doc.2;
  let? store := map_err InStore (try_new doc.2) in
  Ok (store, doc.1).

(** [fate] is the failure of a file-system call before the rename, if any;
    after a rename nothing fails. *)
Definition write_atomic (w : Writer) (fate : option string) (entries : list (TokenEntry G))
  (version : N) (old : TokenPath) : result unit FileError * TokenPath :=
  match check_supported_version version with
  | Err e => (Err e, old)
  | Ok _ =>
      match document_serialize version entries with
      | Err d => (Err (Parse d), old)
      | Ok doc =>
          let body := text_print doc in
          match fate with
          | Some d => (Err (Io d), old)
          | None =>
              let '(uid, gid) :=
                match old with
                | Some f =>
                    if needs_ownership_change (wr_euid w) (wr_temp_gid w) (f_uid f) (f_gid f)
                       && wr_can_chown w
                    then (f_uid f, f_gid f) else (wr_euid w, wr_temp_gid w)
                | None => (wr_euid w, wr_temp_gid w)
                end in
              (Ok tt, Some {| f_type := RegularFile; f_mode := 384; f_uid := uid; f_gid := gid;
                              f_size := text_len body; f_read_len := text_len body;
                              f_data := body |})
          end
      end
  end.

(** Write what was prepared; every check comes before the first write. *)
Definition commit_store {A} (w : Writer) (fate : option string)
  (prepared : result (A * list (TokenEntry G) * N) FileError) (file : TokenPath) :
  result A FileError * TokenPath :=
  match prepared with
  | Err e => (Err e, file)
  | Ok (a, entries, version) =>
      let '(r, file') := write_atomic w fate entries version file in
      (let? _ := r in Ok a, file')
  end.

Definition named (name : string) (e : TokenEntry G) : bool := bool_decide (te_name e = name).

Definition mint_for (random : option bytes) : result (string * string) FileError :=
  map_err (fun e => file_invalid (token_error_to_string e)) (mint random).

Definition add_with_options (w : Writer) (fate : option string) (random : option bytes) (now : Z)
  (name : string) (devices tools : ScopeSet) (expires_at : option Z) (grant : option G)
  (provider : option string) (provider_tier : option Tier) (on_behalf_of : option string)
  (actor_type : option ActorType) (known : KnownNames) (file : TokenPath) :
  result string FileError * TokenPath :=
  commit_store w fate
    (let? current := match file with
                     | Some _ => read_store (wr_euid w) file
                     | None => Ok ([], DEFAULT_STORE_VERSION)
                     end in
     ensure negb (any (named name) current.1)
       else (InStore (Duplicate ("token '" +:+ name +:+ "' already exists")));
     let? minted := mint_for random in
     let entries := (current.1 ++ [ {|
       te_name := name; te_digest := minted.2; te_devices := devices; te_tools := tools;
       te_created_at := now; te_expires_at := expires_at; te_grant := grant;
       te_provider := provider; te_provider_tier := provider_tier;
       te_on_behalf_of := on_behalf_of; te_actor_type := default Unknown actor_type |} ])%list in
     let? updated := map_err InStore (try_new entries) in
     check? map_err file_invalid (validate_references updated known);
     let? entry := ok_or (List.find (named name) updated)
                     (file_invalid "minted token missing from store") in
     check? map_err file_invalid (validate_scope_agreement entry);
     Ok (minted.1, updated, current.2)) file.

Definition does_not_exist (name : string) : FileError :=
  file_invalid ("token '" +:+ name +:+ "' does not exist").

(** [iter().map(..)]: the named entry rewritten, the others cloned. *)
Definition rewrite_named (name : string) (f : TokenEntry G -> TokenEntry G)
  (entries : list (TokenEntry G)) : list (TokenEntry G) :=
  (fun e => if named name e then f e else e) <$> entries.

Definition with_digest (digest : string) (e : TokenEntry G) : TokenEntry G := {|
  te_name := te_name e; te_digest := digest; te_devices := te_devices e; te_tools := te_tools e;
  te_created_at := te_created_at e; te_expires_at := te_expires_at e; te_grant := te_grant e;
  te_provider := te_provider e; te_provider_tier := te_provider_tier e;
  te_on_behalf_of := te_on_behalf_of e; te_actor_type := te_actor_type e |}.

Definition rotate (w : Writer) (fate : option string) (random : option bytes) (name : string)
  (known : KnownNames) (file : TokenPath) : result string FileError * TokenPath :=
  commit_store w fate
    (let? current := read_store (wr_euid w) file in
     ensure any (named name) current.1 else (does_not_exist name);
     let? minted := mint_for random in
     let? updated := map_err InStore
       (try_new (rewrite_named name (with_digest minted.2) current.1)) in
     check? map_err file_invalid (validate_references updated known);
     Ok (minted.1, updated, current.2)) file.

Definition with_scopes (devices tools : option ScopeSet) (grant : option G) (e : TokenEntry G) :
  TokenEntry G := {|
  te_name := te_name e; te_digest := te_digest e;
  te_devices := default (te_devices e) devices; te_tools := default (te_tools e) tools;
  te_created_at := te_created_at e; te_expires_at := te_expires_at e;
  te_grant := match grant with Some g => Some g | None => te_grant e end;
  te_provider := te_provider e; te_provider_tier := te_provider_tier e;
  te_on_behalf_of := te_on_behalf_of e; te_actor_type := te_actor_type e |}.

Definition set_scopes (w : Writer) (fate : option string) (name : string)
  (devices tools : option ScopeSet) (grant : option G) (known : KnownNames) (file : TokenPath) :
  result unit FileError * TokenPath :=
  commit_store w fate
    (let? current := read_store (wr_euid w) file in
     ensure any (named name) current.1 else (does_not_exist name);
     let? updated := map_err InStore
       (try_new (rewrite_named name (with_scopes devices tools grant) current.1)) in
     check? map_err file_invalid (validate_references updated known);
     let? changed := ok_or (List.find (named name) updated)
       (file_invalid ("token '" +:+ name +:+ "' missing from store after scope change")) in
     check? map_err file_invalid (validate_scope_agreement changed);
     Ok (tt, updated, current.2)) file.

Definition with_provenance (provider : option string) (provider_tier : option Tier)
  (on_behalf_of : option string) (actor_type : option ActorType) (e : TokenEntry G) :
  TokenEntry G := {|
  te_name := te_name e; te_digest := te_digest e; te_devices := te_devices e;
  te_tools := te_tools e; te_created_at := te_created_at e; te_expires_at := te_expires_at e;
  te_grant := te_grant e; te_provider := provider; te_provider_tier := provider_tier;
  te_on_behalf_of := on_behalf_of; te_actor_type := default Unknown actor_type |}.

Definition set_provenance (w : Writer) (fate : option string) (name : string)
  (provider : option string) (provider_tier : option Tier) (on_behalf_of : option string)
  (actor_type : option ActorType) (file : TokenPath) : result unit FileError * TokenPath :=
  commit_store w fate
    (let? current := read_store (wr_euid w) file in
     ensure any (named name) current.1 else (does_not_exist name);
     let? updated := map_err InStore (try_new (rewrite_named name
       (with_provenance provider provider_tier on_behalf_of actor_type) current.1)) in
     Ok (tt, updated, current.2)) file.

Definition revoke (w : Writer) (fate : option string) (name : string) (known : KnownNames)
  (file : TokenPath) : result bool FileError * TokenPath :=
  match read_store (wr_euid w) file with
  | Err e => (Err e, file)
  | Ok (current, version) =>
      let entries := base.filter (fun e => te_name e <> name) current in
      if (length current =? length entries)%nat then (Ok false, file)
      else commit_store w fate
             (let? updated := map_err InStore (try_new entries) in
              check? map_err file_invalid (validate_references updated known);
              Ok (true, updated, version)) file
  end.

(** A loaded file, and the reload that keeps the old store on failure. *)
Record TokenStoreFile := { tsf_store : list (TokenEntry G); tsf_version : N }.

Definition token_load (euid : N) (file : TokenPath) : result TokenStoreFile FileError :=
  let? r := read_store euid file in
  Ok {| tsf_store := r.1; tsf_version := r.2 |}.

Definition reload (euid : N) (file : TokenPath) (loaded : TokenStoreFile) :
  result unit FileError * TokenStoreFile :=
  match read_store euid file with
  | Ok r => (Ok tt, {| tsf_store := r.1; tsf_version := r.2 |})
  | Err e => (Err e, loaded)
  end.

End file.

(** ** Where the file is *)

Inductive Stat := Present | NotFound | StatFailed (detail : string).

Record ResolvedTokenPath := {
  rp_path : string; rp_used_fallback : bool; rp_fallback_from : option string }.

Definition resolve_token_path (primary fallback : string) (stat : string -> Stat) :
  result ResolvedTokenPath string :=
  match stat primary with
  | Present => Ok {| rp_path := primary; rp_used_fallback := false; rp_fallback_from := None |}
  | NotFound =>
      match stat fallback with
      | Present => Ok {| rp_path := fallback; rp_used_fallback := true;
                         rp_fallback_from := Some primary |}
      | NotFound => Ok {| rp_path := primary; rp_used_fallback := false; rp_fallback_from := None |}
      | StatFailed d => Err d
      end
  | StatFailed d => Err d
  end.
