(* ===== verification/TokenFacts.v ===== *)
(** * What the token file holds

    The encoding of a store reads back as that store, and each of the
    commands of file.rs that rewrite the file is, through that encoding, an
    operation on the entries by name. *)

From S2P Require Import Prelude Externals Json Text Secret Scope Tokens TokenFile.
From Stdlib Require Import Ascii ZArith.

Open Scope list_scope.

(** ** Grants that survive a rewrite *)

(** A value compared with itself drops nothing. *)
Lemma first_dropped_key_refl j : unique_keys j = true -> first_dropped_key j j = None.
Proof.
  induction j as [| | | |l IH|l IH] using json_ind_full; try done.
  - simpl. generalize 0. induction IH as [|x l Hx _ IHl]; intros n Hu; [done|].
    simpl in Hu. apply andb_true_iff in Hu as [Hux Hul]. by rewrite Hx, IHl.
  - intros [Hnd%bool_decide_eq_true Hu]%andb_true_iff.
    assert (forall k v, (k, v) ∈ l -> assoc k l = Some v) as Hget by (intros; by apply assoc_unique).
    simpl. clear Hnd. revert Hget Hu. generalize l at 2 4. intros after.
    induction IH as [|[k v] l Hx _ IHl]; intros Hget Hu; [done|]. simpl in Hu, Hx.
    apply andb_true_iff in Hu as [Hux Hul].
    rewrite (Hget k v (list_elem_of_here _ _)), Hx by done.
    apply IHl; [|done]. intros k' v' Hin. by apply Hget, elem_of_cons; right.
Qed.

(** ** The encoding of one entry *)

Class StoredGrantLaws (G : Type) `{StoredGrant G} : Prop := {
  grant_round_trip : forall (g : G) v, grant_to_value g = Ok v ->
    v <> JNull /\ grant_from_value v = Ok g /\ unique_keys v = true;
}.

Lemma scope_serialize_unique s : unique_keys (scope_serialize s) = true.
Proof.
  destruct s as [|names]; [done|]. simpl. apply forallb_forall. intros x Hx%list_elem_of_In.
  by apply list_elem_of_fmap in Hx as (n&->&_).
Qed.

Section entry_encoding.
Context `{CL : ChronoLaws} {G : Type} `{GL : StoredGrantLaws G}.
Implicit Types e : TokenEntry G.

(** What an entry needs to be written and read back. *)
Definition storable e : Prop :=
  starts_with DIGEST_PREFIX (te_digest e) = true /\ rfc3339_range (te_created_at e) /\
  (forall t, te_expires_at e = Some t -> rfc3339_range t) /\
  scope_well_formed (te_devices e) /\ scope_well_formed (te_tools e).

(** The encoding of an optional grant. *)
Definition encodes (g : option G) (v : option json) : Prop :=
  match g, v with
  | Some g, Some v => grant_to_value g = Ok v
  | None, None => True
  | _, _ => False
  end.

Lemma entry_serialize_Ok e j :
  entry_serialize e = Ok j <-> exists v, encodes (te_grant e) v /\ j = JObject (entry_fields e v).
Proof.
  unfold entry_serialize. destruct (te_grant e) as [g|]; simpl.
  - rewrite result_bind_Ok. split.
    + intros (v&Hv&[= <-]). by exists (Some v).
    + intros ([v|]&Hv&->); [|done]. eauto.
  - split; [intros [= <-]; by exists None|]. by intros ([]&?&->).
Qed.

Lemma opt_field_keys k v : (opt_field k v).*1 `sublist_of` [k].
Proof. destruct v; simpl; [done|apply sublist_nil_l]. Qed.

Lemma entry_fields_keys e v : NoDup (entry_fields e v).*1.
Proof.
  apply (sublist_NoDup _ entry_field_names); [by apply (bool_decide_unpack _); vm_compute|].
  unfold entry_fields. rewrite !fmap_app.
  change entry_field_names with
    (["name"; "digest"; "devices"; "tools"; "created_at"] ++ ["expires_at"] ++ ["grant"]
     ++ ["provider"] ++ ["provider_tier"] ++ ["on_behalf_of"] ++ ["actor_type"]).
  repeat apply sublist_app; try apply opt_field_keys. done.
Qed.

Lemma entry_fields_unique e v :
  encodes (te_grant e) v -> unique_keys (JObject (entry_fields e v)) = true.
Proof.
  intros Hv. cbn [unique_keys]. rewrite bool_decide_eq_true_2 by apply entry_fields_keys.
  assert (forall k o, (forall x, o = Some x -> unique_keys x = true) ->
    forallb (fun kv => unique_keys kv.2) (opt_field k o) = true) as Hopt.
  { intros k [x|] Hx; [|done]. simpl. by rewrite Hx. }
  unfold entry_fields. rewrite !forallb_app, !andb_true_iff. split_and!; try apply Hopt.
  - done.
  - cbn [forallb snd]. by rewrite !scope_serialize_unique.
  - intros x Hx. by destruct (te_expires_at e); simplify_eq/=.
  - intros x ->. destruct (te_grant e); [|done]. by eapply grant_round_trip.
  - intros x Hx. by destruct (te_provider e); simplify_eq/=.
  - intros x Hx. by destruct (te_provider_tier e); simplify_eq/=.
  - intros x Hx. by destruct (te_on_behalf_of e); simplify_eq/=.
  - intros x Hx. by destruct (te_actor_type e); simplify_eq/=.
Qed.

Lemma filter_opt_field names k o :
  base.filter (fun kv => existsb (String.eqb kv.1) names = true) (opt_field k o)
  = if existsb (String.eqb k) names then opt_field k o else [].
Proof.
  destruct o as [v|]; cbn [opt_field]; [|by destruct (existsb _ _)].
  rewrite filter_cons, filter_nil. cbn [fst]. destruct (existsb _ _); [by rewrite decide_True|].
  by rewrite decide_False.
Qed.

(** The value of a field that is written at most once. *)
Ltac solve_field :=
  match goal with l := entry_fields _ _ |- _ => unfold l, field, entry_fields end;
  rewrite !list.filter_app, !filter_opt_field; cbn;
  try match goal with |- context [opt_field _ ?o] => destruct o end; reflexivity.

Lemma entry_fields_values e v :
  let l := entry_fields e v in
  field ["name"] l = Ok (Some (JString (te_name e))) /\
  field ["digest"; "hash"] l = Ok (Some (JString (te_digest e))) /\
  field ["devices"; "routers"; "targets"] l = Ok (Some (scope_serialize (te_devices e))) /\
  field ["tools"] l = Ok (Some (scope_serialize (te_tools e))) /\
  field ["created_at"; "created_at_unix"] l = Ok (Some (timestamp_serialize (te_created_at e))) /\
  field ["expires_at"; "expires_at_unix"] l = Ok (timestamp_serialize <$> te_expires_at e) /\
  field ["grant"; "mutation"] l = Ok v /\
  field ["provider"] l = Ok (JString <$> te_provider e) /\
  field ["provider_tier"] l = Ok (tier_serialize <$> te_provider_tier e) /\
  field ["on_behalf_of"] l = Ok (JString <$> te_on_behalf_of e) /\
  field ["actor_type"] l = Ok (if bool_decide (te_actor_type e = Unknown) then None
     else Some (actor_type_serialize (te_actor_type e))).
Proof. intros l. split_and!; solve_field. Qed.

Lemma timestamp_round_trip t :
  rfc3339_range t -> timestamp_deserialize (timestamp_serialize t) = Ok t.
Proof. intros Ht. simpl. by rewrite parse_to_rfc3339. Qed.

Lemma optional_round_trip {A} (ser : A -> json) (de : json -> result A string) (o : option A) :
  (forall a, o = Some a -> is_null (ser a) = false /\ de (ser a) = Ok a) ->
  match ser <$> o with Some v => optional de v | None => Ok None end = Ok o.
Proof.
  destruct o as [a|]; [|done]. intros Ha. destruct (Ha a eq_refl) as [Hn Hd]. simpl.
  unfold optional. by rewrite Hn, Hd.
Qed.

Lemma grant_option_round_trip (g : option G) v :
  encodes g v ->
  match v with Some v => optional grant_from_value v | None => Ok None end = Ok g.
Proof.
  destruct g as [g|], v as [v|]; simpl; try done. intros Hv.
  destruct (grant_round_trip g v Hv) as (Hn&Hg&_). unfold optional. rewrite Hg. by destruct v.
Qed.

Lemma entry_round_trip e j :
  storable e -> entry_serialize e = Ok j -> entry_deserialize j = Ok e.
Proof.
  intros (Hdg&Hca&Hex&Hdv&Htl) (v&Hv&->)%entry_serialize_Ok. unfold entry_deserialize.
  cbn [struct_fields result_bind]. unfold required, defaulted.
  destruct (entry_fields_values e v) as (->&->&->&->&->&->&->&->&->&->&->).
  unfold digest_deserialize. cbn [result_bind json_as_str ok_or string_deserialize]. rewrite Hdg.
  cbn [result_bind]. rewrite !scope_round_trip, timestamp_round_trip by done. cbn [result_bind].
  rewrite (optional_round_trip timestamp_serialize) by (intros t Ht; split; [done|];
    by apply timestamp_round_trip, Hex). cbn [result_bind].
  rewrite (grant_option_round_trip (te_grant e)) by done. cbn [result_bind].
  rewrite !(optional_round_trip JString) by done. cbn [result_bind].
  rewrite (optional_round_trip tier_serialize) by (intros [] _; done). cbn [result_bind].
  by destruct e as [?????????? []].
Qed.

Lemma entry_fields_grant e v : json_get "grant" (JObject (entry_fields e v)) = v.
Proof.
  destruct e as [nm dg dv tl ca ea gr pr pt ob at_]. destruct ea, v as [v|]; try done;
    destruct pr, pt, ob, at_; done.
Qed.

End entry_encoding.

(** ** The encoding of the store *)

Section file_facts.
Context `{Externals} `{JL : JsonTextLaws} `{CL : ChronoLaws} {G : Type} `{Grant G}.
Context `{SG : StoredGrant G} `{GL : !StoredGrantLaws G}.
Implicit Types e : TokenEntry G.
Implicit Types es : list (TokenEntry G).

Lemma supported_version_Ok version :
  check_supported_version version = Ok tt <-> version = 1%N \/ version = 2%N.
Proof.
  unfold check_supported_version. rewrite ensure_Ok, orb_true_iff, !N.eqb_eq. naive_solver.
Qed.

(** An entry just encoded carries no grant field this build would drop. *)
Lemma reject_dropped_own e x : entry_serialize e = Ok x -> reject_dropped_in x e = Ok tt.
Proof.
  intros (v&Hv&->)%entry_serialize_Ok. unfold reject_dropped_in. rewrite entry_fields_grant.
  destruct v as [v|]; [|done]. destruct (is_null v); [done|].
  destruct (te_grant e) as [g|]; [|done]. simpl in Hv. rewrite Hv. simpl.
  rewrite first_dropped_key_refl; [done|]. by eapply grant_round_trip.
Qed.

Lemma document_round_trip version es j :
  version = 1%N \/ version = 2%N -> Forall storable es ->
  document_serialize version es = Ok j ->
  document_deserialize j = Ok (version, es) /\ reject_dropped_grant_fields j es = Ok tt.
Proof.
  intros Hv Hes. unfold document_serialize.
  intros (xs&Hxs%collect_Ok&[= <-])%result_bind_Ok.
  assert (Forall2 (fun e x => entry_serialize e = Ok x) es xs) as Hser.
  { clear Hes Hv. revert xs Hxs. induction es as [|e es IH]; intros [|x xs]; try done.
    rewrite !fmap_cons. intros [= Hx Hxs]. constructor; auto. }
  split.
  - assert (collect (entry_deserialize <$> xs) = Ok es) as Hc.
    { apply collect_Ok. clear Hxs. induction Hser as [|e x es xs He _ IH]; [done|].
      apply Forall_cons in Hes as [Hse Hes]. rewrite !fmap_cons, IH by done.
      by erewrite entry_round_trip. }
    unfold document_deserialize. cbn [struct_fields result_bind].
    assert (forall v ts, field ["version"] [("version", v); ("tokens", ts)] = Ok (Some v)) as Hf1 by done.
    assert (forall v ts, field ["tokens"] [("version", v); ("tokens", ts)] = Ok (Some ts)) as Hf2 by done.
    unfold required, defaulted. rewrite Hf1, Hf2. cbn [result_bind json_as_array ok_or]. rewrite Hc.
    by destruct Hv as [-> | ->].
  - unfold reject_dropped_grant_fields.
    assert (Forall (fun x => unique_keys x = true) xs) as Hu.
    { clear Hes Hxs. induction Hser as [|e x es xs He _ IH]; constructor; [|done].
      apply entry_serialize_Ok in He as (v&Hv'&->). by apply entry_fields_unique. }
    rewrite json_value_unique.
    2:{ cbn [unique_keys forallb snd json_u64]. rewrite andb_true_r, andb_true_l.
        apply andb_true_iff. split; [done|]. apply forallb_forall. intros x Hx%list_elem_of_In.
        by eapply Forall_forall in Hu. }
    change (json_get "tokens" (JObject [("version", json_u64 version); ("tokens", JArray xs)]))
      with (Some (JArray xs)). cbn [mbind option_bind json_as_array].
    apply try_each_Ok. intros [x e] Hin. apply list_elem_of_lookup in Hin as [i Hi].
    apply lookup_zip_Some in Hi as [Hx He].
    apply reject_dropped_own. exact (Forall2_lookup_lr _ _ _ _ _ _ Hser He Hx).
Qed.

(** ** Writing and reading back *)

(** What survives a rewrite of an entry that was read: a known digest scheme
    and instants RFC 3339 can write. *)
Definition writable e : Prop :=
  starts_with DIGEST_PREFIX (te_digest e) = true /\ rfc3339_range (te_created_at e) /\
  (forall t, te_expires_at e = Some t -> rfc3339_range t).

Lemma writable_storable e : writable e -> entry_validate e = Ok tt -> storable e.
Proof. intros (?&?&?) [? ?]%entry_validate_scopes. done. Qed.

Lemma write_atomic_Ok w fate es version old file' :
  write_atomic w fate es version old = (Ok tt, file') ->
  (version = 1%N \/ version = 2%N) /\
  exists doc f, document_serialize version es = Ok doc /\ file' = Some f /\
    f_type f = RegularFile /\ f_mode f = 384%N /\ f_data f = text_print doc /\
    f_size f = f_read_len f /\
    (f_uid f = wr_euid w \/ exists g, old = Some g /\ f_uid f = f_uid g) /\
    (forall g, old = Some g -> wr_can_chown w = true \/ wr_euid w = f_uid g -> f_uid f = f_uid g).
Proof.
  unfold write_atomic. destruct (check_supported_version version) as [[]|] eqn:Hv; [|done].
  apply supported_version_Ok in Hv. destruct (document_serialize version es) as [doc|] eqn:Hdoc; [|done].
  destruct fate; [done|]. destruct old as [g|].
  - unfold needs_ownership_change.
    destruct (N.eqb_spec (wr_euid w) (f_uid g)), (N.eqb_spec (wr_temp_gid w) (f_gid g)),
      (wr_can_chown w) eqn:Hch; intros [= <-]; (split; [done|]); eexists _, _;
      split_and!; try done; simpl; try (by left); try (right; eauto; done);
      intros g' [= <-] [?|?]; congruence.
  - intros [= <-]. split; [done|]. eexists _, _. split_and!; try done. by left.
Qed.

Lemma write_atomic_Err w fate es version old file' err :
  write_atomic w fate es version old = (Err err, file') -> file' = old.
Proof.
  unfold write_atomic. destruct (check_supported_version version); [|congruence].
  destruct (document_serialize version es); [|congruence]. destruct fate; [congruence|].
  by destruct (match old with Some f => _ | None => _ end).
Qed.

(** A store that was written reads back, by anyone who may open it. *)
Lemma written_reads w fate es version old file' reader :
  write_atomic w fate es version old = (Ok tt, file') ->
  Forall writable es -> try_new es = Ok es ->
  (forall f, file' = Some f -> (f_size f <= token_file_limit)%N /\ (reader = 0%N \/ f_uid f = reader)) ->
  read_store reader file' = Ok (es, version).
Proof.
  intros (Hv&doc&f&Hdoc&->&Hty&Hmode&Hdata&Hlen&_)%write_atomic_Ok Hw Hnew Hf.
  destruct (Hf f eq_refl) as [Hsize Howner].
  assert (read_hardened_file reader token_file_limit (Ok f) = Ok (text_print doc)) as Hread.
  { apply read_hardened_file_Ok. exists f. split_and!; try done. split_and!; try done.
    - by rewrite Hmode.
    - rewrite <-Hlen. lia. }
  apply try_new_Ok in Hnew as Hnew'. destruct Hnew' as (_&_&Hval&_).
  assert (Forall storable es) as Hst.
  { apply Forall_forall. intros e He. rewrite Forall_forall in Hw, Hval.
    apply writable_storable; auto. }
  destruct (document_round_trip _ _ _ Hv Hst Hdoc) as [Hde Hrej].
  unfold read_store. cbn [ok_or]. rewrite Hread. cbn [map_err result_bind].
  rewrite text_print_utf8, text_parse_print. cbn [map_err result_bind]. rewrite Hde.
  cbn [map_err result_bind fst snd]. rewrite (proj2 (supported_version_Ok _) Hv).
  cbn [result_bind]. rewrite Hrej. cbn [result_bind]. by rewrite Hnew.
Qed.

Lemma digest_prefix_of_entry j e :
  entry_deserialize j = Ok e -> starts_with DIGEST_PREFIX (te_digest e) = true.
Proof.
  unfold entry_deserialize. intros (l&_&Hj)%result_bind_Ok.
  apply result_bind_Ok in Hj as (name&_&Hj). apply result_bind_Ok in Hj as (digest&Hd&Hj).
  do 9 (apply result_bind_Ok in Hj as (?&_&Hj)). injection Hj as <-. simpl.
  unfold required in Hd. apply result_bind_Ok in Hd as ([v|]&_&Hd); [|done].
  apply result_bind_Ok in Hd as (raw&_&[Hp Hd]%ensure_Ok). by injection Hd as <-.
Qed.

Lemma read_store_Ok reader file es version :
  read_store reader file = Ok (es, version) ->
  try_new es = Ok es /\ Forall (fun e => starts_with DIGEST_PREFIX (te_digest e) = true) es /\
  (exists f, file = Some f /\ (reader = 0%N \/ f_uid f = reader)).
Proof.
  unfold read_store. intros (body&Hb%map_err_Ok&[_ Hr]%ensure_Ok)%result_bind_Ok.
  apply read_hardened_file_Ok in Hb as (f&Hf%ok_or_Ok&_&_&_&Ho&_).
  apply result_bind_Ok in Hr as (parsed&_&Hr).
  apply result_bind_Ok in Hr as (doc&Hdoc%map_err_Ok&Hr).
  apply check_Ok in Hr as [_ Hr]. apply check_Ok in Hr as [_ Hr].
  apply result_bind_Ok in Hr as (store&Hs%map_err_Ok&[= <- <-]).
  apply try_new_Ok in Hs as Hs'. destruct Hs' as (->&_). split; [done|]. split; [|eauto].
  unfold document_deserialize in Hdoc. apply result_bind_Ok in Hdoc as (l&_&Hdoc).
  apply result_bind_Ok in Hdoc as (v&_&Hdoc). apply result_bind_Ok in Hdoc as (ts&Hts&[= <-]).
  unfold required in Hts. apply result_bind_Ok in Hts as ([j|]&_&Hts); [|done].
  apply result_bind_Ok in Hts as (xs&_&Hts%collect_Ok). apply Forall_forall. intros e He. cbn [snd] in He.
  apply (list_elem_of_fmap_2 (@Ok _ string)) in He. rewrite <-Hts in He.
  apply list_elem_of_fmap in He as (x&Hx&_). by eapply digest_prefix_of_entry.
Qed.

End file_facts.
