(* ===== verification/TokenCommands.v ===== *)
(** * The token commands as operations on entries by name

    The five commands of file.rs that rewrite the token file, as one type, the
    abstract effect each promises on the entry it names, and the refinement:
    through validation, encoding, the atomic write and the next read, a
    command that reports success has that effect and no other, and one that
    reports an error leaves the file as it was. *)

From S2P Require Import Prelude Externals Json Text Secret Scope Tokens TokenFile TokenFacts.
From Stdlib Require Import Ascii ZArith.

Open Scope list_scope.

Inductive TokenCommand (G : Type) :=
| Add (name : string) (devices tools : ScopeSet) (expires_at : option Z) (grant : option G)
    (provider : option string) (provider_tier : option Tier) (on_behalf_of : option string)
    (actor_type : option ActorType) (known : KnownNames)
| Rotate (name : string) (known : KnownNames)
| SetScopes (name : string) (devices tools : option ScopeSet) (grant : option G)
    (known : KnownNames)
| SetProvenance (name : string) (provider : option string) (provider_tier : option Tier)
    (on_behalf_of : option string) (actor_type : option ActorType)
| Revoke (name : string) (known : KnownNames).
Arguments Add {G}. Arguments Rotate {G}. Arguments SetScopes {G}.
Arguments SetProvenance {G}. Arguments Revoke {G}.

Definition command_name {G} (cmd : TokenCommand G) : string :=
  match cmd with
  | Add n _ _ _ _ _ _ _ _ _ | Rotate n _ | SetScopes n _ _ _ _
  | SetProvenance n _ _ _ _ | Revoke n _ => n
  end.

Section commands.
Context `{Externals} `{JsonText} `{Chrono} {G : Type} `{Grant G} `{StoredGrant G}.
Implicit Types e : TokenEntry G.
Implicit Types es : list (TokenEntry G).

(** The outcome carries the new secret, when the command mints one. *)
Definition run_command (w : Writer) (fate : option string) (random : option bytes) (now : Z)
  (cmd : TokenCommand G) (file : TokenPath) : result (option string) FileError * TokenPath :=
  match cmd with
  | Add name devices tools expires_at grant provider tier obo actor known =>
      let '(r, file') := add_with_options w fate random now name devices tools expires_at grant
                           provider tier obo actor known file in
      (let? s := r in Ok (Some s), file')
  | Rotate name known =>
      let '(r, file') := rotate w fate random name known file in
      (let? s := r in Ok (Some s), file')
  | SetScopes name devices tools grant known =>
      let '(r, file') := set_scopes w fate name devices tools grant known file in
      (let? _ := r in Ok None, file')
  | SetProvenance name provider tier obo actor =>
      let '(r, file') := set_provenance w fate name provider tier obo actor file in
      (let? _ := r in Ok None, file')
  | Revoke name known =>
      let '(r, file') := revoke w fate name known file in
      (let? _ := r in Ok None, file')
  end.

(** The entry under a name. *)
Definition token (name : string) es : option (TokenEntry G) := List.find (named name) es.

(** What a command makes of the entry it names. *)
Definition effect (cmd : TokenCommand G) (now : Z) (secret : option string)
  (current : option (TokenEntry G)) : option (TokenEntry G) :=
  match cmd with
  | Add name devices tools expires_at grant provider tier obo actor _ =>
      Some {| te_name := name; te_digest := from_secret (default "" secret);
              te_devices := devices; te_tools := tools; te_created_at := now;
              te_expires_at := expires_at; te_grant := grant; te_provider := provider;
              te_provider_tier := tier; te_on_behalf_of := obo;
              te_actor_type := default Unknown actor |}
  | Rotate _ _ => with_digest (from_secret (default "" secret)) <$> current
  | SetScopes _ devices tools grant _ => with_scopes devices tools grant <$> current
  | SetProvenance _ provider tier obo actor => with_provenance provider tier obo actor <$> current
  | Revoke _ _ => None
  end.

(** The entries at a path; no file is an empty store. *)
Definition entries_at (euid : N) (file : TokenPath) : result (list (TokenEntry G) * N) FileError :=
  match file with
  | Some _ => read_store euid file
  | None => Ok ([], DEFAULT_STORE_VERSION)
  end.

(** ** Lists of entries by name *)

Lemma token_cons name e es :
  token name (e :: es) = if decide (te_name e = name) then Some e else token name es.
Proof.
  unfold token, named. simpl. case_bool_decide; [by rewrite decide_True|by rewrite decide_False].
Qed.

Lemma token_app name es es' :
  token name (es ++ es') = match token name es with Some e => Some e | None => token name es' end.
Proof.
  induction es as [|e es IH]; [done|]. rewrite <-app_comm_cons, !token_cons, IH.
  by destruct (decide _).
Qed.

Lemma token_rewrite name n f es :
  (forall e, te_name (f e) = te_name e) ->
  token n (rewrite_named name f es)
  = if decide (n = name) then f <$> token n es else token n es.
Proof.
  intros Hf. induction es as [|e es IH]; [by destruct (decide _)|].
  unfold rewrite_named in *. rewrite fmap_cons, !token_cons, IH. unfold named.
  case_bool_decide as He; rewrite ?Hf; destruct (decide (te_name e = n)), (decide (n = name));
    try done; congruence.
Qed.

Lemma token_filter name n es :
  token n (base.filter (fun e => te_name e <> name) es)
  = if decide (n = name) then None else token n es.
Proof.
  induction es as [|e es IH]; [by destruct (decide _)|]. rewrite filter_cons, token_cons.
  destruct (decide (te_name e <> name)) as [Hne|He%dec_stable]; rewrite ?token_cons, IH;
    destruct (decide (te_name e = n)), (decide (n = name)); try done; congruence.
Qed.

Lemma token_None name es : token name es = None <-> any (named name) es = false.
Proof.
  unfold token. rewrite any_false. split.
  - intros Hf e He. apply (List.find_none _ _ Hf). by apply list_elem_of_In.
  - intros Ha. destruct (List.find _ es) as [e|] eqn:E; [|done].
    apply List.find_some in E as [Hin He]. rewrite Ha in He; [done|]. by apply list_elem_of_In.
Qed.

Lemma token_name name es e : token name es = Some e -> te_name e = name /\ e ∈ es.
Proof.
  intros [Hin Hn%bool_decide_eq_true]%List.find_some. split; [done|]. by apply list_elem_of_In.
Qed.

(** ** Commits *)

Lemma commit_store_Ok {A} w fate (p : result (A * list (TokenEntry G) * N) FileError) file a file' :
  commit_store w fate p file = (Ok a, file') ->
  exists es version, p = Ok (a, es, version) /\
    write_atomic w fate es version file = (Ok tt, file').
Proof.
  unfold commit_store. destruct p as [[[a' es] version]|]; [|done].
  destruct (write_atomic w fate es version file) as [[[]|] f] eqn:E; [|done].
  simpl. intros [= <- <-]. eauto.
Qed.

Lemma commit_store_Err {A} w fate (p : result (A * list (TokenEntry G) * N) FileError) file err file' :
  commit_store w fate p file = (Err err, file') -> file' = file.
Proof.
  unfold commit_store. destruct p as [[[a' es] version]|]; [|congruence].
  destruct (write_atomic w fate es version file) as [[[]|] f] eqn:E; [done|].
  simpl. intros [= <- <-]. by eapply write_atomic_Err.
Qed.

Lemma mint_for_Ok random secret digest :
  mint_for random = Ok (secret, digest) -> digest = from_secret secret.
Proof.
  unfold mint_for, mint. intros Hm%map_err_Ok. apply result_bind_Ok in Hm as (r&_&Hm). congruence.
Qed.

(** A failed command leaves the file as it was. *)
Lemma run_command_Err w fate random now cmd file err file' :
  run_command w fate random now cmd file = (Err err, file') -> file' = file.
Proof.
  destruct cmd; simpl.
  - destruct (add_with_options _ _ _ _ _ _ _ _ _ _ _ _ _ _ file) as [[] f] eqn:E; [done|].
    simpl. intros [= <- <-]. by eapply commit_store_Err.
  - destruct (rotate _ _ _ _ _ file) as [[] f] eqn:E; [done|].
    simpl. intros [= <- <-]. by eapply commit_store_Err.
  - destruct (set_scopes _ _ _ _ _ _ _ file) as [[] f] eqn:E; [done|].
    simpl. intros [= <- <-]. by eapply commit_store_Err.
  - destruct (set_provenance _ _ _ _ _ _ _ file) as [[] f] eqn:E; [done|].
    simpl. intros [= <- <-]. by eapply commit_store_Err.
  - destruct (revoke _ _ _ _ file) as [[] f] eqn:E; [done|]. simpl. intros [= <- <-].
    unfold revoke in E. destruct (read_store _ file) as [[es v]|]; [|congruence].
    destruct (_ =? _)%nat; [congruence|]. by eapply commit_store_Err.
Qed.

(** A command that rewrote the file: the entries it wrote, and what they are
    under each name. *)
Record rewrote (w : Writer) (fate : option string) (now : Z) (cmd : TokenCommand G)
  (out : option string) (file file' : TokenPath) (es es' : list (TokenEntry G)) (version : N) :
  Prop := {
  rw_write : write_atomic w fate es' version file = (Ok tt, file');
  rw_valid : try_new es' = Ok es';
  rw_effect : forall n, token n es' = if decide (n = command_name cmd)
                                      then effect cmd now out (token n es) else token n es;
  rw_digest : forall e', e' ∈ es' -> (exists e, e ∈ es /\ te_digest e' = te_digest e)
                \/ (exists s, out = Some s /\ te_digest e' = from_secret s);
  rw_dates : forall e', e' ∈ es' -> (exists e, e ∈ es /\ te_created_at e' = te_created_at e
                  /\ te_expires_at e' = te_expires_at e) \/
                (effect cmd now out None = Some e');
}.

Lemma elem_of_rewrite name f es e' :
  e' ∈ rewrite_named name f es -> exists e, e ∈ es /\ (e' = e \/ e' = f e).
Proof.
  unfold rewrite_named. rewrite list_elem_of_fmap. intros (e&->&He). exists e. split; [done|].
  destruct (named name e); auto.
Qed.

(** The shape the three rewriting commands share. *)
Lemma rewrite_rewrote w fate now cmd out file file' es f version :
  write_atomic w fate (rewrite_named (command_name cmd) f es) version file = (Ok tt, file') ->
  try_new (rewrite_named (command_name cmd) f es) = Ok (rewrite_named (command_name cmd) f es) ->
  (forall e, te_name (f e) = te_name e) ->
  (forall cur, effect cmd now out cur = f <$> cur) ->
  (forall e, te_digest (f e) = te_digest e \/ exists s, out = Some s /\ te_digest (f e) = from_secret s) ->
  (forall e, te_created_at (f e) = te_created_at e /\ te_expires_at (f e) = te_expires_at e) ->
  rewrote w fate now cmd out file file' es (rewrite_named (command_name cmd) f es) version.
Proof.
  intros Hw Hn Hf Heff Hd Ht. split; try done.
  - intros n. rewrite token_rewrite by done. by rewrite Heff.
  - intros e' (e&He&[->| ->])%elem_of_rewrite; [by left; eauto|]. destruct (Hd e); eauto.
  - intros e' (e&He&[->| ->])%elem_of_rewrite; left; exists e; [done|]. split; [done|apply Ht].
Qed.

Lemma add_rewrote w fate random now name dv tl ex gr pr pt ob at_ known file s file' es version :
  add_with_options w fate random now name dv tl ex gr pr pt ob at_ known file = (Ok s, file') ->
  entries_at (wr_euid w) file = Ok (es, version) ->
  exists es', rewrote w fate now (Add name dv tl ex gr pr pt ob at_ known) (Some s) file file' es es' version.
Proof.
  intros (es'&v&Hp&Hw)%commit_store_Ok Hes. fold (entries_at (wr_euid w) file) in Hp.
  rewrite Hes in Hp. cbn [result_bind fst snd] in Hp.
  apply ensure_Ok in Hp as [Hnew%negb_true_iff%token_None Hp].
  apply result_bind_Ok in Hp as ([s' d]&Hm%mint_for_Ok&Hp). cbn [fst snd] in Hp. subst d.
  apply result_bind_Ok in Hp as (up&Ht%map_err_Ok&Hp). apply check_Ok in Hp as [_ Hp].
  apply result_bind_Ok in Hp as (?&_&Hp). apply check_Ok in Hp as [_ Hp].
  injection Hp as <- <- <-. apply try_new_Ok in Ht as Ht'. destruct Ht' as [-> _].
  eexists. split; try done.
  - intros n. rewrite token_app, token_cons. cbn [te_name command_name effect].
    destruct (decide (n = name)) as [->|Hne].
    + by rewrite Hnew, decide_True.
    + rewrite decide_False by congruence. by destruct (token n es).
  - intros e' [He'|He'%list_elem_of_singleton]%elem_of_app; [eauto|]. right. subst e'. simpl. eauto.
  - intros e' [He'|He'%list_elem_of_singleton]%elem_of_app; [by left; eauto|]. right. by subst e'.
Qed.

Lemma rotate_rewrote w fate random now name known file s file' es version :
  rotate w fate random name known file = (Ok s, file') ->
  read_store (wr_euid w) file = Ok (es, version) ->
  exists es', rewrote w fate now (Rotate name known) (Some s) file file' es es' version.
Proof.
  intros (es'&v&Hp&Hw)%commit_store_Ok Hes. rewrite Hes in Hp. cbn [result_bind fst snd] in Hp.
  apply ensure_Ok in Hp as [_ Hp].
  apply result_bind_Ok in Hp as ([s' d]&Hm%mint_for_Ok&Hp). cbn [fst snd] in Hp. subst d.
  apply result_bind_Ok in Hp as (up&Ht%map_err_Ok&Hp). apply check_Ok in Hp as [_ Hp].
  injection Hp as <- <- <-. apply try_new_Ok in Ht as Ht'. destruct Ht' as [-> _].
  eexists. by apply (rewrite_rewrote w fate now (Rotate name known)); eauto.
Qed.

Lemma set_scopes_rewrote w fate now name dv tl gr known file u file' es version :
  set_scopes w fate name dv tl gr known file = (Ok u, file') ->
  read_store (wr_euid w) file = Ok (es, version) ->
  exists es', rewrote w fate now (SetScopes name dv tl gr known) None file file' es es' version.
Proof.
  intros (es'&v&Hp&Hw)%commit_store_Ok Hes. rewrite Hes in Hp. cbn [result_bind fst snd] in Hp.
  apply ensure_Ok in Hp as [_ Hp].
  apply result_bind_Ok in Hp as (up&Ht%map_err_Ok&Hp). apply check_Ok in Hp as [_ Hp].
  apply result_bind_Ok in Hp as (?&_&Hp). apply check_Ok in Hp as [_ Hp].
  injection Hp as <- <- <-. apply try_new_Ok in Ht as Ht'. destruct Ht' as [-> _].
  eexists. by apply (rewrite_rewrote w fate now (SetScopes name dv tl gr known)); eauto.
Qed.

Lemma set_provenance_rewrote w fate now name pr pt ob at_ file u file' es version :
  set_provenance w fate name pr pt ob at_ file = (Ok u, file') ->
  read_store (wr_euid w) file = Ok (es, version) ->
  exists es', rewrote w fate now (SetProvenance name pr pt ob at_) None file file' es es' version.
Proof.
  intros (es'&v&Hp&Hw)%commit_store_Ok Hes. rewrite Hes in Hp. cbn [result_bind fst snd] in Hp.
  apply ensure_Ok in Hp as [_ Hp]. apply result_bind_Ok in Hp as (up&Ht%map_err_Ok&Hp).
  injection Hp as <- <- <-. apply try_new_Ok in Ht as Ht'. destruct Ht' as [-> _].
  eexists. by apply (rewrite_rewrote w fate now (SetProvenance name pr pt ob at_)); eauto.
Qed.

Lemma filter_full (P : TokenEntry G -> Prop) `{!forall e, Decision (P e)} es :
  length es = length (base.filter P es) -> base.filter P es = es.
Proof.
  assert (forall l, length (base.filter P l) <= length l) as Hle.
  { intros l. induction l as [|x l IH]; [done|]. rewrite filter_cons. destruct (decide _); simpl; lia. }
  induction es as [|e es IH]; [done|]. rewrite filter_cons. destruct (decide (P e)); simpl.
  - intros [= Hl]. by rewrite IH.
  - pose proof (Hle es). lia.
Qed.

Lemma revoke_rewrote w fate now name known file b file' es version :
  revoke w fate name known file = (Ok b, file') ->
  read_store (wr_euid w) file = Ok (es, version) ->
  (file' = file /\ token name es = None) \/
  exists es', rewrote w fate now (Revoke name known) None file file' es es' version.
Proof.
  unfold revoke. intros Hr Hes. rewrite Hes in Hr. destruct (Nat.eqb_spec (length es)
    (length (base.filter (fun e => te_name e <> name) es))) as [Hlen|_].
  - injection Hr as <- <-. left. split; [done|].
    rewrite <-(filter_full (fun e => te_name e <> name) es) by done.
    rewrite token_filter. by rewrite decide_True.
  - right. apply commit_store_Ok in Hr as (es'&v&Hp&Hw).
    apply result_bind_Ok in Hp as (up&Ht%map_err_Ok&Hp). apply check_Ok in Hp as [_ Hp].
    injection Hp as <- <- <-. apply try_new_Ok in Ht as Ht'. destruct Ht' as [-> _].
    eexists. split; try done.
    + intros n. rewrite token_filter. done.
    + intros e' [_ He']%list_elem_of_filter. eauto.
    + intros e' [_ He']%list_elem_of_filter. eauto.
Qed.

Lemma run_command_Ok w fate random now cmd file out file' es version :
  run_command w fate random now cmd file = (Ok out, file') ->
  entries_at (wr_euid w) file = Ok (es, version) ->
  (file' = file /\ effect cmd now out (token (command_name cmd) es) = token (command_name cmd) es) \/
  exists es', rewrote w fate now cmd out file file' es es' version.
Proof.
  intros Hr Hes. destruct cmd as [name dv tl ex gr pr pt ob at_ known| | | |]; simpl in Hr.
  1: { destruct (add_with_options _ _ _ _ _ _ _ _ _ _ _ _ _ _ file) as [[]f] eqn:E; [|done].
       injection Hr as <- <-. right. by eapply add_rewrote. }
  all: destruct file as [g|]; [|done]; cbn [entries_at] in Hes.
  - destruct (rotate _ _ _ _ _ _) as [[]f] eqn:E; [|done]. injection Hr as <- <-.
    right. by eapply rotate_rewrote.
  - destruct (set_scopes _ _ _ _ _ _ _ _) as [[]f] eqn:E; [|done]. injection Hr as <- <-.
    right. by eapply set_scopes_rewrote.
  - destruct (set_provenance _ _ _ _ _ _ _ _) as [[]f] eqn:E; [|done]. injection Hr as <- <-.
    right. by eapply set_provenance_rewrote.
  - destruct (revoke _ _ _ _ _) as [[]f] eqn:E; [|done]. injection Hr as <- <-.
    destruct (revoke_rewrote _ _ now _ _ _ _ _ _ _ E Hes) as [[-> Hn]|?]; [left|by right].
    simpl. by rewrite Hn.
Qed.

End commands.

(** ** Refinement *)

Section refinement.
Context `{Externals} `{JL : JsonTextLaws} `{CL : ChronoLaws} {G : Type} `{Grant G}.
Context `{SG : StoredGrant G} `{GL : !StoredGrantLaws G}.
Implicit Types e : TokenEntry G.
Implicit Types es : list (TokenEntry G).

(** Instants that RFC 3339 can write. *)
Definition dated e : Prop :=
  rfc3339_range (te_created_at e) /\ forall t, te_expires_at e = Some t -> rfc3339_range t.

Definition command_dated (cmd : TokenCommand G) (now : Z) : Prop :=
  match cmd with
  | Add _ _ _ expires_at _ _ _ _ _ _ =>
      rfc3339_range now /\ forall t, expires_at = Some t -> rfc3339_range t
  | _ => True
  end.

Lemma from_secret_prefix s : starts_with DIGEST_PREFIX (from_secret s) = true.
Proof.
  unfold starts_with, from_secret.
  by rewrite (proj2 (strip_prefix_Some DIGEST_PREFIX _ _) eq_refl).
Qed.

Lemma rewrote_writable w fate now cmd out file file' es es' version :
  rewrote w fate now cmd out file file' es es' version ->
  Forall (fun e => starts_with DIGEST_PREFIX (te_digest e) = true) es ->
  Forall dated es -> command_dated cmd now -> Forall writable es'.
Proof.
  rewrite !Forall_forall. intros Hrw Hdg Hdt Hcmd e' He'. split.
  - destruct (rw_digest _ _ _ _ _ _ _ _ _ _ Hrw e' He') as [(e&He&->)|(s&_&->)];
      [by apply Hdg|apply from_secret_prefix].
  - destruct (rw_dates _ _ _ _ _ _ _ _ _ _ Hrw e' He') as [(e&He&->&->)|Heff]; [by apply Hdt|].
    destruct cmd; simpl in Heff; try done. by injection Heff as <-.
Qed.

(** The owner check is all a read depends on of the reader. *)
Lemma read_store_reader r r' file x :
  read_store (G := G) r file = Ok x ->
  (forall f, file = Some f -> r' = 0%N \/ f_uid f = r') -> read_store r' file = Ok x.
Proof.
  intros Hx Hr. rewrite <-Hx. unfold read_store.
  assert (exists b, read_hardened_file r token_file_limit (ok_or file "No such file or directory") = Ok b)
    as [b Hb].
  { unfold read_store in Hx. apply result_bind_Ok in Hx as (b&Hb%map_err_Ok&_). eauto. }
  rewrite Hb. apply read_hardened_file_Ok in Hb as (f&Hf&->&Ht&Hm&_&Hs&Hs').
  rewrite (proj2 (read_hardened_file_Ok r' token_file_limit _ (f_data f))); [done|].
  exists f. split_and!; try done. split_and!; try done. apply ok_or_Ok in Hf. auto.
Qed.

(** A file someone may read back. *)
Definition readable_by (reader : N) (file : TokenPath) : Prop :=
  forall f, file = Some f -> (f_size f <= token_file_limit)%N /\ (reader = 0%N \/ f_uid f = reader).

Lemma command_effect w fate random now cmd file out file' es version reader :
  entries_at (wr_euid w) file = Ok (es, version) ->
  run_command w fate random now cmd file = (Ok out, file') ->
  Forall dated es -> command_dated cmd now -> readable_by reader file' ->
  exists es', read_store reader file' = Ok (es', version) /\
    forall n, token n es' = if decide (n = command_name cmd)
                            then effect cmd now out (token n es) else token n es.
Proof.
  intros Hes Hrun Hdt Hcmd Hf.
  destruct (run_command_Ok _ _ _ _ _ _ _ _ _ _ Hrun Hes) as [[-> Heff]|(es'&Hrw)].
  - assert (exists g, file = Some g) as [g ->].
    { destruct file as [g|]; [eauto|]. destruct cmd; simpl in Hrun; try done.
      destruct (add_with_options _ _ _ _ _ _ _ _ _ _ _ _ _ _ None) as [[]f] eqn:E; [|done].
      injection Hrun as <- ->. apply commit_store_Ok in E as (?&?&_&Hw).
      apply write_atomic_Ok in Hw as (_&?&?&_&?&_). done. }
    exists es. split; [eapply read_store_reader; [exact Hes|]; intros f' Hf'; by apply Hf in Hf' as [_ ?]|].
    intros n. destruct (decide _) as [->|]; [by rewrite Heff|done].
  - exists es'. split; [|apply Hrw]. eapply written_reads; [apply Hrw| |apply Hrw|done].
    eapply rewrote_writable; [done| |done..].
    destruct file as [g|]; [|by injection Hes as <- <-; constructor].
    by apply read_store_Ok in Hes as (_&?&_).
Qed.


(** ** What a rotated or revoked secret still opens *)

Lemma token_elem es e : NoDup (te_name <$> es) -> e ∈ es -> token (te_name e) es = Some e.
Proof.
  induction es as [|x es IH]; [by intros _ ?%elem_of_nil|]. rewrite fmap_cons, NoDup_cons, token_cons.
  intros [Hni Hnd] [->|Hin]%elem_of_cons; [by rewrite decide_True|].
  rewrite decide_False; [auto|]. intros Heq. apply Hni. rewrite Heq.
  by apply list_elem_of_fmap_2.
Qed.

Lemma authenticate_token es candidate t e :
  NoDup (te_name <$> es) -> authenticate_at es candidate t = Some e ->
  token (te_name e) es = Some e /\ answers candidate t e.
Proof.
  intros Hnd (b&a&->&Ha&_)%authenticate_Some. split; [|done].
  apply token_elem; [done|]. apply elem_of_app. right. apply list_elem_of_here.
Qed.

Lemma read_store_NoDup reader file es version :
  read_store reader file = Ok (es, version) -> NoDup (te_name <$> es).
Proof. by intros (Ht&_)%read_store_Ok; apply try_new_Ok in Ht as (_&_&_&?). Qed.

(** Once a revoke or a rotation succeeded and the server reloaded, the old
    secret is dead: after a revoke nothing authenticates as that token, and
    after a rotation only a secret with the new digest does. *)
Theorem withdrawn_secret_is_dead w fate random now name known (rotated : bool) file out file' es
  version reader loaded candidate t e :
  entries_at (wr_euid w) file = Ok (es, version) -> Forall dated es ->
  run_command w fate random now (if rotated then Rotate name known else Revoke name known) file
    = (Ok out, file') ->
  readable_by reader file' ->
  authenticate_at (tsf_store (reload reader file' loaded).2) candidate t = Some e ->
  te_name e = name ->
  rotated = true /\ exists s, out = Some s /\ from_secret candidate = from_secret s.
Proof.
  intros Hes Hdt Hrun Hf Ha Hn.
  assert (exists s, rotated = true -> out = Some s) as [s Hs].
  { destruct rotated; [|by exists ""]. simpl in Hrun.
    destruct (rotate _ _ _ _ _ _) as [[s|] g]; [|done]. injection Hrun as <- _. by exists s. }
  destruct (command_effect _ _ _ _ _ _ _ _ _ _ reader Hes Hrun Hdt ltac:(by destruct rotated) Hf)
    as (es'&Hread&Htok).
  unfold reload in Ha. rewrite Hread in Ha. cbn [snd tsf_store] in Ha.
  apply authenticate_token in Ha as [Ht [Hd _]]; [|by eapply read_store_NoDup].
  rewrite Htok, decide_True in Ht by (by destruct rotated). destruct rotated; [|done].
  split; [done|]. exists s. split; [auto|]. rewrite (Hs eq_refl) in Ht. simpl in Ht.
  destruct (token (te_name e) es) as [e0|]; [|done]. injection Ht as <-. by rewrite <-Hd.
Qed.

(** A rotated token keeps working under its new secret, with the scopes,
    the expiry and the grant it had, unless another token's digest is that of
    the new secret. *)
Theorem rotated_token_keeps_its_authority w fate random now name known file s file' es version
  reader loaded e0 t :
  entries_at (wr_euid w) file = Ok (es, version) -> Forall dated es ->
  token name es = Some e0 -> is_expired_at e0 t = false ->
  Forall (fun e => te_digest e <> from_secret s) es ->
  run_command w fate random now (Rotate name known) file = (Ok (Some s), file') ->
  readable_by reader file' ->
  authenticate_at (tsf_store (reload reader file' loaded).2) s t = Some (with_digest (from_secret s) e0).
Proof.
  intros Hes Hdt Htk Hexp Hfresh Hrun Hf.
  destruct (command_effect _ _ _ _ _ _ _ _ _ _ reader Hes Hrun Hdt ltac:(done) Hf)
    as (es'&Hread&Htok).
  pose proof (Htok name) as Hname. rewrite decide_True in Hname by done. rewrite Htk in Hname.
  simpl in Hname. unfold reload. rewrite Hread. cbn [fst snd tsf_store].
  pose proof (read_store_NoDup _ _ _ _ Hread) as Hnd.
  apply token_name in Hname as Hin. destruct Hin as [_ Hin].
  assert (answers s t (with_digest (from_secret s) e0)) as Hans.
  { apply answers_true. unfold digest_verify. rewrite bool_decide_eq_true_2 by done.
    unfold is_expired_at in *. simpl. by rewrite Hexp. }
  destruct (authenticate_at es' s t) as [e|] eqn:Ha.
  - apply authenticate_token in Ha as [Ht [Hd _]]; [|done].
    rewrite Htok in Ht. destruct (decide _) as [Hn|Hn].
    + simpl in Ht, Hn. rewrite Hn, Htk in Ht. exact (eq_sym Ht).
    + apply token_name in Ht as [_ Hin']. rewrite Forall_forall in Hfresh.
      by destruct (Hfresh e Hin').
  - apply authenticate_None in Ha. rewrite Forall_forall in Ha. by destruct (Ha _ Hin).
Qed.

End refinement.
