(* ===== verification/RateLimit.v ===== *)
(** * Request-rate limiting

    crates/mecmcp-transport/src/config.rs (the limits) and rate_limit.rs: the
    address a request is charged to, the token bucket, the bounded map of
    buckets and the two checks.  An [Instant] is nanoseconds; [u128]
    arithmetic saturates where the source saturates. *)

From S2P Require Import Prelude Text.
From Stdlib Require Import Ascii.

Open Scope N_scope.

(** ** Limits (config.rs) *)

Record LimitsConfig := {
  max_request_body_bytes : N;
  max_inflight_requests : N;
  max_inflight_requests_per_token : N;
  max_requests_per_second_per_ip : N;
  max_request_burst_per_ip : N;
  max_requests_per_second_per_token : N;
  max_request_burst_per_token : N;
  max_inflight_requests_per_device : N;
  max_sessions : N;
  max_sessions_per_token : N;
  session_idle_timeout_secs : N;
  session_max_lifetime_secs : N;
}.

Definition default_config : LimitsConfig := {|
  max_request_body_bytes := 10 * 1024 * 1024;
  max_inflight_requests := 64;
  max_inflight_requests_per_token := 16;
  max_requests_per_second_per_ip := 50;
  max_request_burst_per_ip := 100;
  max_requests_per_second_per_token := 20;
  max_request_burst_per_token := 40;
  max_inflight_requests_per_device := 4;
  max_sessions := 128;
  max_sessions_per_token := 16;
  session_idle_timeout_secs := 300;
  session_max_lifetime_secs := 3600;
|}.

Inductive LimitsConfigError :=
| IncompleteTokenRateLimit (rate burst : N)
| IncompleteIpRateLimit (rate burst : N).

Definition config_validate (c : LimitsConfig) : result unit LimitsConfigError :=
  let token_rate := max_requests_per_second_per_token c in
  let token_burst := max_request_burst_per_token c in
  ensure Bool.eqb (token_rate =? 0) (token_burst =? 0)
    else (IncompleteTokenRateLimit token_rate token_burst);
  let ip_rate := max_requests_per_second_per_ip c in
  let ip_burst := max_request_burst_per_ip c in
  ensure Bool.eqb (ip_rate =? 0) (ip_burst =? 0)
    else (IncompleteIpRateLimit ip_rate ip_burst);
  Ok tt.

Definition ip_rate_limit_enabled (c : LimitsConfig) : bool :=
  (0 <? max_requests_per_second_per_ip c) && (0 <? max_request_burst_per_ip c).

Definition token_rate_limit_enabled (c : LimitsConfig) : bool :=
  (0 <? max_requests_per_second_per_token c) && (0 <? max_request_burst_per_token c).

(** ** The address a request is charged to *)

Inductive IpAddr := V4 (a : N) | V6 (a : N).

#[export] Instance IpAddr_eq_dec : EqDecision IpAddr.
Proof. solve_decision. Defined.

(** [IpAddr::to_canonical]: an IPv4-mapped IPv6 address is the IPv4 one. *)
Definition to_canonical (ip : IpAddr) : IpAddr :=
  match ip with
  | V4 a => V4 a
  | V6 a => if N.shiftr a 32 =? 65535 then V4 (a mod 2 ^ 32) else V6 a
  end.

(** White space among the characters [HeaderValue::to_str] lets through. *)
Definition header_blank (c : ascii) : bool :=
  let n := N_of_ascii c in ((9 <=? n) && (n <=? 13)) || (n =? 32).

Section resolve.
(** [str::parse::<IpAddr>] and [IpNet::contains]. *)
Variable parse_ip : string -> option IpAddr.
Variable IpNet : Type.
Variable contains : IpNet -> IpAddr -> bool.

Definition trusted (proxies : list IpNet) (ip : IpAddr) : bool :=
  any (fun network => contains network ip) proxies.

(** The entries of all header lines; a line that is not visible ASCII is
    [None] and ends the collection. *)
Fixpoint forwarded_entries (lines : list (option string)) : option (list string) :=
  match lines with
  | [] => Some []
  | None :: _ => None
  | Some value :: lines =>
      match forwarded_entries lines with
      | Some rest => Some (str_split "," value ++ rest)%list
      | None => None
      end
  end.

(** The walk over the entries, rightmost first. *)
Fixpoint walk (peer : IpAddr) (proxies : list IpNet) (entries : list string) : IpAddr :=
  match entries with
  | [] => peer
  | entry :: entries =>
      match to_canonical <$> parse_ip (trim_matches header_blank entry) with
      | None => peer
      | Some addr => if negb (trusted proxies addr) then addr else walk peer proxies entries
      end
  end.

Definition resolve_rate_limit_ip (peer : IpAddr) (lines : list (option string))
  (proxies : list IpNet) : IpAddr :=
  let peer := to_canonical peer in
  if negb (trusted proxies peer) then peer
  else match forwarded_entries lines with
       | None => peer
       | Some entries => walk peer proxies (reverse entries)
       end.

End resolve.

(** ** Token buckets *)

Definition TOKEN_SCALE : N := 1000000000.
Definition u128_max : N := 2 ^ 128 - 1.
Definition sat_mul (a b : N) : N := N.min (a * b) u128_max.
Definition sat_add (a b : N) : N := N.min (a + b) u128_max.
Definition div_ceil (a b : N) : N := if a mod b =? 0 then a / b else a / b + 1.

Definition capacity_units (burst : N) : N := sat_mul burst TOKEN_SCALE.
Definition refill_units (elapsed rate : N) : N := sat_mul elapsed rate.

Inductive RateDecision := Allowed | Limited (retry_after_secs : N).

#[export] Instance RateDecision_eq_dec : EqDecision RateDecision.
Proof. solve_decision. Defined.

Record Bucket := { available_units : N; last_refill : N }.

Definition bucket_full (burst now : N) : Bucket :=
  {| available_units := capacity_units burst; last_refill := now |}.

(** [checked_duration_since] is [None] for an instant before the last refill. *)
Definition refilled (b : Bucket) (now rate burst : N) : Bucket :=
  if last_refill b <=? now then
    {| available_units := N.min (sat_add (available_units b) (refill_units (now - last_refill b) rate))
                                (capacity_units burst);
       last_refill := now |}
  else b.

Definition bucket_check (b : Bucket) (now rate burst : N) : RateDecision * Bucket :=
  let b := refilled b now rate burst in
  if TOKEN_SCALE <=? available_units b then
    (Allowed, {| available_units := available_units b - TOKEN_SCALE; last_refill := last_refill b |})
  else
    let deficit_units := TOKEN_SCALE - available_units b in
    let wait_ns := div_ceil deficit_units rate in
    let retry_secs := N.max (div_ceil wait_ns TOKEN_SCALE) 1 in
    (Limited (if retry_secs <=? u64_max then retry_secs else u64_max), b).

(** ** The bounded map *)

Definition MAX_IP_BUCKETS : N := 8192.
Definition MAX_TOKEN_BUCKETS : N := 2048.

Record BucketMap := { buckets : gmap string (Bucket * N); max_size : N }.

Definition bucket_map_new (max_size : N) : BucketMap := {| buckets := ∅; max_size := max_size |}.

(** [min_by_key]: the first entry with the smallest access time. *)
Fixpoint oldest (l : list (string * (Bucket * N))) : option (string * N) :=
  match l with
  | [] => None
  | (k, (_, t)) :: l =>
      match oldest l with
      | Some (k', t') => if t <=? t' then Some (k, t) else Some (k', t')
      | None => Some (k, t)
      end
  end.

Section bucket_map.
(** The order in which a [HashMap] is iterated. *)
Variable iter : gmap string (Bucket * N) -> list (string * (Bucket * N)).

(** The key that makes room for a new one. *)
Definition evicted (m : BucketMap) (key : string) : option string :=
  match buckets m !! key with
  | Some _ => None
  | None => if max_size m <=? N.of_nat (size (buckets m)) then fst <$> oldest (iter (buckets m)) else None
  end.

Definition bucket_map_check (m : BucketMap) (key : string) (now rate burst : N) :
  RateDecision * BucketMap :=
  let room := match evicted m key with Some k => delete k (buckets m) | None => buckets m end in
  let bucket := match room !! key with Some (b, _) => b | None => bucket_full burst now end in
  let '(decision, bucket') := bucket_check bucket now rate burst in
  (decision, {| buckets := <[key := (bucket', now)]> room; max_size := max_size m |}).

(** ** The limiter *)

Record RateLimitState := {
  ip_buckets : BucketMap;
  token_buckets : BucketMap;
  ip_rate_per_second : N;
  ip_burst : N;
  token_rate_per_second : N;
  token_burst : N;
}.

Definition rate_limit_new (c : LimitsConfig) : RateLimitState := {|
  ip_buckets := bucket_map_new MAX_IP_BUCKETS;
  token_buckets := bucket_map_new MAX_TOKEN_BUCKETS;
  ip_rate_per_second := max_requests_per_second_per_ip c;
  ip_burst := max_request_burst_per_ip c;
  token_rate_per_second := max_requests_per_second_per_token c;
  token_burst := max_request_burst_per_token c;
|}.

Definition check_ip (s : RateLimitState) (ip : string) (now : N) : RateDecision * RateLimitState :=
  if (ip_rate_per_second s =? 0) || (ip_burst s =? 0) then (Allowed, s)
  else let '(d, m) := bucket_map_check (ip_buckets s) ip now (ip_rate_per_second s) (ip_burst s) in
       (d, {| ip_buckets := m; token_buckets := token_buckets s;
              ip_rate_per_second := ip_rate_per_second s; ip_burst := ip_burst s;
              token_rate_per_second := token_rate_per_second s; token_burst := token_burst s |}).

Definition check_token (s : RateLimitState) (token : string) (now : N) :
  RateDecision * RateLimitState :=
  if token_rate_per_second s =? 0 then (Allowed, s)
  else let '(d, m) := bucket_map_check (token_buckets s) token now
                        (token_rate_per_second s) (token_burst s) in
       (d, {| ip_buckets := ip_buckets s; token_buckets := m;
              ip_rate_per_second := ip_rate_per_second s; ip_burst := ip_burst s;
              token_rate_per_second := token_rate_per_second s; token_burst := token_burst s |}).

End bucket_map.

(** ** Who is charged *)

Section resolve_facts.
Variable parse_ip : string -> option IpAddr.
Variable IpNet : Type.
Variable contains : IpNet -> IpAddr -> bool.
Local Abbreviation resolve := (resolve_rate_limit_ip parse_ip IpNet contains).
Local Abbreviation trusted := (trusted IpNet contains).

(** The address an entry of the header names. *)
Definition names_address (entry : string) (a : IpAddr) : Prop :=
  to_canonical <$> parse_ip (trim_matches header_blank entry) = Some a.

Lemma walk_hops peer proxies hops rest :
  Forall (fun h => exists a, names_address h a /\ trusted proxies a = true) hops ->
  walk parse_ip IpNet contains peer proxies (hops ++ rest)%list = walk parse_ip IpNet contains peer proxies rest.
Proof.
  induction 1 as [|h hops (a&Ha&Ht) _ IH]; [done|]. simpl. unfold names_address in Ha.
  by rewrite Ha, Ht.
Qed.

(** No client chooses the bucket it is charged to: the header of an
    untrusted peer is ignored, and behind a chain of trusted proxies the
    address charged is the one the outermost of them recorded, whatever the
    client had put in front of it. *)
Theorem forwarded_for_cannot_be_spoofed peer lines proxies :
  (trusted proxies (to_canonical peer) = false -> resolve peer lines proxies = to_canonical peer) /\
  (forall sent real hops a,
     trusted proxies (to_canonical peer) = true ->
     forwarded_entries lines = Some (sent ++ real :: hops)%list ->
     names_address real a -> trusted proxies a = false ->
     Forall (fun h => exists b, names_address h b /\ trusted proxies b = true) hops ->
     resolve peer lines proxies = a).
Proof.
  unfold resolve_rate_limit_ip. split; [by intros ->|].
  intros sent real hops a -> -> Ha Hu Hh. simpl negb. cbv iota.
  rewrite reverse_app, reverse_cons, <-app_assoc.
  rewrite walk_hops by (by apply Forall_reverse). simpl. unfold names_address in Ha.
  by rewrite Ha, Hu.
Qed.

End resolve_facts.

(** ** How much is admitted *)

Lemma sat_add_le a b : sat_add a b <= a + b.
Proof. unfold sat_add. lia. Qed.

Lemma sat_mul_le a b : sat_mul a b <= a * b.
Proof. unfold sat_mul. lia. Qed.

Lemma bucket_check_eq b now rate burst :
  bucket_check b now rate burst =
  let b := refilled b now rate burst in
  if TOKEN_SCALE <=? available_units b
  then (Allowed, {| available_units := available_units b - TOKEN_SCALE; last_refill := last_refill b |})
  else (Limited (N.min (N.max (div_ceil (div_ceil (TOKEN_SCALE - available_units b) rate) TOKEN_SCALE) 1)
                       u64_max), b).
Proof.
  unfold bucket_check. cbv zeta. destruct (TOKEN_SCALE <=? _); [done|]. do 2 f_equal.
  match goal with |- (if ?x <=? _ then _ else _) = _ => destruct (N.leb_spec x u64_max) end; lia.
Qed.

Section window.
(** A window of time, and the limit in force. *)
Variables t0 t1 rate burst : N.
Local Abbreviation cap := (capacity_units burst).

(** All that can be admitted within the window. *)
Definition allowance : N := cap + rate * (t1 - t0).

Definition bucket_ok (b : Bucket) : Prop := available_units b <= cap /\ last_refill b <= t1.

(** What the bucket can still admit within the window. *)
Definition potential (b : Bucket) : N :=
  N.min (available_units b + rate * (t1 - last_refill b)) allowance.

Lemma refilled_potential b now :
  t0 <= now <= t1 -> bucket_ok b ->
  let b' := refilled b now rate burst in
  bucket_ok b' /\ available_units b' + rate * (t1 - last_refill b') <= potential b.
Proof.
  intros Hw [Hcap Hlast]. unfold refilled, potential, allowance, bucket_ok.
  destruct (N.leb_spec (last_refill b) now) as [Hle|Hgt]; simpl.
  - pose proof (sat_add_le (available_units b) (refill_units (now - last_refill b) rate)) as Hadd.
    assert (refill_units (now - last_refill b) rate <= rate * (now - last_refill b)) as Hmul.
    { rewrite (N.mul_comm rate). apply sat_mul_le. }
    assert (rate * (t1 - last_refill b) = rate * (now - last_refill b) + rate * (t1 - now)) as Hsplit.
    { rewrite <-N.mul_add_distr_l. f_equal. lia. }
    assert (rate * (t1 - now) <= rate * (t1 - t0)) as Hmono by (apply N.mul_le_mono_l; lia).
    split; [lia|]. lia.
  - assert (rate * (t1 - last_refill b) <= rate * (t1 - t0)) as Hmono by (apply N.mul_le_mono_l; lia).
    split; [lia|]. lia.
Qed.

(** One check spends what it admits. *)
Lemma bucket_check_potential b now d b' :
  t0 <= now <= t1 -> bucket_ok b -> bucket_check b now rate burst = (d, b') ->
  bucket_ok b' /\
  TOKEN_SCALE * (if decide (d = Allowed) then 1 else 0) + potential b' <= potential b.
Proof.
  intros Hw Hok. rewrite bucket_check_eq. destruct (refilled_potential b now Hw Hok) as [[Hc Hl] Hp].
  cbv zeta. destruct (N.leb_spec TOKEN_SCALE (available_units (refilled b now rate burst))) as [Hav|Hav];
    intros [= <- <-].
  - rewrite decide_True by done. unfold bucket_ok, potential at 1. simpl. split; [lia|].
    rewrite N.mul_1_r. lia.
  - rewrite decide_False by done. split; [done|]. unfold potential at 1. lia.
Qed.

Lemma bucket_full_potential now :
  t0 <= now <= t1 -> bucket_ok (bucket_full burst now) /\ potential (bucket_full burst now) <= allowance.
Proof. intros Hw. unfold bucket_ok, potential. simpl. lia. Qed.

Section map.
Variable iter : gmap string (Bucket * N) -> list (string * (Bucket * N)).
Variable key : string.

(** Admissions of [key], and how often its bucket was thrown away. *)
Fixpoint tally (m : BucketMap) (reqs : list (string * N)) : N * N :=
  match reqs with
  | [] => (0, 0)
  | (k, now) :: reqs =>
      let '(d, m') := bucket_map_check iter m k now rate burst in
      let '(a, e) := tally m' reqs in
      ((if decide (k = key /\ d = Allowed) then 1 else 0) + a,
       (if decide (evicted iter m k = Some key) then 1 else 0) + e)
  end.

Definition map_ok (m : BucketMap) : Prop := forall k b t, buckets m !! k = Some (b, t) -> bucket_ok b.

Definition map_potential (m : BucketMap) : N :=
  match buckets m !! key with Some (b, _) => potential b | None => allowance end.

Lemma map_check_potential m k now d m' :
  t0 <= now <= t1 -> map_ok m -> bucket_map_check iter m k now rate burst = (d, m') ->
  map_ok m' /\
  TOKEN_SCALE * (if decide (k = key /\ d = Allowed) then 1 else 0) + map_potential m'
  <= map_potential m + allowance * (if decide (evicted iter m k = Some key) then 1 else 0).
Proof.
  intros Hw Hok. unfold bucket_map_check.
  set (room := match evicted iter m k with Some k => delete k (buckets m) | None => buckets m end).
  assert (forall k' b t, room !! k' = Some (b, t) -> bucket_ok b) as Hroom.
  { intros k' b t. unfold room. destruct (evicted iter m k); [|apply Hok].
    intros [_ Hl]%lookup_delete_Some. by eapply Hok. }
  set (b0 := match room !! k with Some (b, _) => b | None => bucket_full burst now end).
  assert (bucket_ok b0) as Hb0.
  { unfold b0. destruct (room !! k) as [[b t]|] eqn:E; [by eapply Hroom|by apply bucket_full_potential]. }
  destruct (bucket_check b0 now rate burst) as [d' b'] eqn:Hc. intros [= <- <-].
  destruct (bucket_check_potential _ _ _ _ Hw Hb0 Hc) as [Hb' Hp]. split.
  { intros k' b t. simpl. intros [[_ [= <- _]]|[_ Hl]]%lookup_insert_Some; [done|by eapply Hroom]. }
  assert (match room !! key with Some (b, _) => potential b | None => allowance end
    <= map_potential m + allowance * (if decide (evicted iter m k = Some key) then 1 else 0)) as Hev.
  { unfold map_potential, room. destruct (evicted iter m k) as [k'|] eqn:Eev.
    - destruct (decide (k' = key)) as [->|Hne].
      + rewrite lookup_delete_eq, decide_True by done. lia.
      + rewrite lookup_delete_ne by done. lia.
    - lia. }
  unfold map_potential at 1. simpl buckets. destruct (decide (k = key)) as [->|Hne].
  - rewrite lookup_insert_eq.
    assert (potential b0 <= match room !! key with Some (b, _) => potential b | None => allowance end).
    { unfold b0. destruct (room !! key) as [[b t]|]; [done|by apply bucket_full_potential]. }
    destruct (decide (d' = Allowed)); [rewrite decide_True by done|rewrite decide_False by naive_solver]; lia.
  - rewrite lookup_insert_ne by done. rewrite decide_False by naive_solver. lia.
Qed.

(** C39 Within any window of time a key is admitted at most its burst plus its
    rate over the window, once more for each time its bucket was evicted to
    make room for another key. *)
Theorem admissions_within_rate m reqs :
  map_ok m -> Forall (fun r => t0 <= r.2 <= t1) reqs ->
  TOKEN_SCALE * (tally m reqs).1 <= (1 + (tally m reqs).2) * (capacity_units burst + rate * (t1 - t0)).
Proof.
  intros Hok Hreqs. fold allowance.
  enough (TOKEN_SCALE * (tally m reqs).1 <= map_potential m + (tally m reqs).2 * allowance) as Hb.
  { assert (map_potential m <= allowance).
    { unfold map_potential, potential. destruct (buckets m !! key) as [[]|]; lia. }
    lia. }
  revert m Hok. induction Hreqs as [|[k now] reqs Hw _ IH]; intros m Hok; [simpl; lia|].
  simpl. destruct (bucket_map_check iter m k now rate burst) as [d m'] eqn:Hc.
  destruct (map_check_potential _ _ _ _ _ Hw Hok Hc) as [Hok' Hp]. specialize (IH m' Hok').
  destruct (tally m' reqs) as [a e]. simpl in *. lia.
Qed.

End map.
End window.

(** ** Waiting as told *)

Lemma div_ceil_le a b c : b <> 0 -> a <= b * c -> div_ceil a b <= c.
Proof.
  intros Hb Ha. unfold div_ceil. destruct (N.eqb_spec (a mod b) 0) as [|Hm].
  - by apply N.Div0.div_le_upper_bound.
  - assert (a / b < c); [|lia]. apply N.Div0.div_lt_upper_bound.
    assert (a <> b * c); [|lia]. intros ->. by rewrite N.mul_comm, N.Div0.mod_mul in Hm.
Qed.

(** The wait a refusal advertises is enough: it is one second, and a check
    after that wait admits, if nothing else was charged to the bucket. *)
Theorem retry_after_is_enough b now rate burst n b' :
  bucket_check b now rate burst = (Limited n, b') ->
  last_refill b <= now -> 0 < rate -> 0 < burst ->
  n = 1 /\ (bucket_check b' (now + n * TOKEN_SCALE) rate burst).1 = Allowed.
Proof.
  rewrite !bucket_check_eq. cbv zeta. intros Hc Hl Hr Hb.
  set (c := refilled b now rate burst) in *.
  assert (last_refill c = now) as Hlast.
  { unfold c, refilled. by rewrite (proj2 (N.leb_le _ _) Hl). }
  destruct (N.leb_spec TOKEN_SCALE (available_units c)) as [?|Hav]; [done|]. injection Hc as Hn <-.
  assert (div_ceil (TOKEN_SCALE - available_units c) rate <= TOKEN_SCALE) as H1.
  { apply div_ceil_le; [lia|]. transitivity (1 * TOKEN_SCALE); [rewrite N.mul_1_l; apply N.le_sub_l|].
    apply N.mul_le_mono_r. lia. }
  assert (div_ceil (div_ceil (TOKEN_SCALE - available_units c) rate) TOKEN_SCALE <= 1) as H2.
  { apply div_ceil_le; [done|]. lia. }
  assert (n = 1) as -> by (rewrite <-Hn; unfold u64_max; lia). split; [done|].
  assert (TOKEN_SCALE <= available_units (refilled c (now + 1 * TOKEN_SCALE) rate burst)) as Hfull.
  { unfold refilled. rewrite Hlast, (proj2 (N.leb_le _ _)) by lia. simpl available_units.
    replace (now + 1 * TOKEN_SCALE - now) with TOKEN_SCALE by lia.
    assert (TOKEN_SCALE <= refill_units TOKEN_SCALE rate) as Href.
    { unfold refill_units, sat_mul. apply N.min_glb; [|done].
      transitivity (TOKEN_SCALE * 1); [lia|]. apply N.mul_le_mono_l. lia. }
    assert (TOKEN_SCALE <= capacity_units burst) as Hcap.
    { unfold capacity_units, sat_mul. apply N.min_glb; [|done].
      transitivity (1 * TOKEN_SCALE); [lia|]. apply N.mul_le_mono_r. lia. }
    assert (sat_add (available_units c) (refill_units TOKEN_SCALE rate) >= TOKEN_SCALE) as Hsat.
    { unfold sat_add. apply N.le_ge, N.min_glb; [lia|done]. }
    lia. }
  by rewrite (proj2 (N.leb_le _ _) Hfull).
Qed.

(** ** The maps stay bounded *)

Section bounded.
Variable iter : gmap string (Bucket * N) -> list (string * (Bucket * N)).
Hypothesis iter_perm : forall m, iter m ≡ₚ map_to_list m.

Lemma oldest_Some l : l <> [] -> exists k b t t', oldest l = Some (k, t) /\ (k, (b, t')) ∈ l.
Proof.
  induction l as [|[k [b t]] l IH]; [done|]. intros _. simpl. destruct l as [|x l].
  - exists k, b, t, t. split; [done|apply list_elem_of_here].
  - destruct IH as (k'&b'&t'&t''&->&Hin); [done|]. destruct (t <=? t').
    + exists k, b, t, t. split; [done|apply list_elem_of_here].
    + exists k', b', t', t''. split; [done|]. by apply elem_of_cons; right.
Qed.

Lemma bucket_map_bounded m k now rate burst :
  0 < max_size m -> N.of_nat (size (buckets m)) <= max_size m ->
  N.of_nat (size (buckets (bucket_map_check iter m k now rate burst).2)) <= max_size m.
Proof.
  intros Hpos Hsz. unfold bucket_map_check. destruct (bucket_check _ _ _ _) as [d b]. simpl.
  unfold evicted. destruct (buckets m !! k) as [[b0 t0]|] eqn:Ek.
  { rewrite map_size_insert_Some by done. done. }
  destruct (N.leb_spec (max_size m) (N.of_nat (size (buckets m)))) as [Hfull|Hroom].
  - destruct (oldest_Some (iter (buckets m))) as (k'&b'&t&t'&->&Hin).
    { intros Hnil. pose proof (iter_perm (buckets m)) as Hp. rewrite Hnil in Hp.
      apply Permutation_nil_l in Hp. symmetry in Hp. apply map_to_list_empty_iff in Hp.
      rewrite Hp, map_size_empty in Hfull. lia. }
    rewrite iter_perm in Hin. apply elem_of_map_to_list in Hin.
    assert (k' <> k) by congruence. simpl.
    rewrite map_size_insert_None by (by rewrite lookup_delete_ne).
    rewrite map_size_delete_Some by eauto. lia.
  - simpl. rewrite map_size_insert_None by done. lia.
Qed.

End bounded.
