(* ===== verification/Sessions.v ===== *)
(** * Session accounting (crates/mecmcp-transport/src/session.rs)

    The tracker of live MCP sessions: the global cap on an atomic counter, the
    cap per token on a mutex-protected table with reservations, idle and
    lifetime expiry.  The operations are split at every point where another
    thread can run, and the steps of any number of threads interleave. *)

From S2P Require Import Prelude.

Open Scope list_scope.

(** ** The token table: every operation runs under the mutex *)

Abbreviation SessionId := string (only parsing).

Record TokenSessionState := {
  counts : gmap string N;
  sessions : gmap SessionId string;
  pending_reservations : N;
  created_unbound : gset SessionId;
  closed_before_bind : gset SessionId;
}.

Definition empty_token_state : TokenSessionState := {|
  counts := ∅; sessions := ∅; pending_reservations := 0;
  created_unbound := ∅; closed_before_bind := ∅ |}.

Definition set_counts (c : gmap string N) (s : TokenSessionState) : TokenSessionState := {|
  counts := c; sessions := sessions s; pending_reservations := pending_reservations s;
  created_unbound := created_unbound s; closed_before_bind := closed_before_bind s |}.

Definition decrement_token (token : string) (s : TokenSessionState) : TokenSessionState :=
  match counts s !! token with
  | Some count =>
      if (1 <? count)%N then set_counts (<[token := (count - 1)%N]> (counts s)) s
      else set_counts (delete token (counts s)) s
  | None => s
  end.

(** A reservation is always pending here, so the subtraction is exact. *)
Definition complete_pending_reservation (s : TokenSessionState) : TokenSessionState :=
  let pending := (pending_reservations s - 1)%N in
  {| counts := counts s; sessions := sessions s; pending_reservations := pending;
     created_unbound := if (pending =? 0)%N then ∅ else created_unbound s;
     closed_before_bind := if (pending =? 0)%N then ∅ else closed_before_bind s |}.

(** [Drop] of a reservation that was not committed. *)
Definition drop_reservation (token : string) (s : TokenSessionState) : TokenSessionState :=
  complete_pending_reservation (decrement_token token s).

Definition set_unbound (u c : gset SessionId) (s : TokenSessionState) : TokenSessionState := {|
  counts := counts s; sessions := sessions s; pending_reservations := pending_reservations s;
  created_unbound := u; closed_before_bind := c |}.

(** [commit] consumes the reservation; on a refusal it is dropped. *)
Definition reservation_commit (token : string) (id : SessionId) (s : TokenSessionState) :
  bool * TokenSessionState :=
  if bool_decide (is_Some (sessions s !! id)) then (false, drop_reservation token s)
  else if bool_decide (id ∈ closed_before_bind s) then
    (false, drop_reservation token
              (set_unbound (created_unbound s) (closed_before_bind s ∖ {[ id ]}) s))
  else if negb (bool_decide (id ∈ created_unbound s)) then (false, drop_reservation token s)
  else
    (true, complete_pending_reservation {|
       counts := counts s; sessions := <[id := token]> (sessions s);
       pending_reservations := pending_reservations s;
       created_unbound := created_unbound s ∖ {[ id ]};
       closed_before_bind := closed_before_bind s |}).

Record TokenSessionCapacity := { tsc_current : N; tsc_max : N }.

Definition try_reserve_token (max_per_token : N) (token : string) (s : TokenSessionState) :
  result bool TokenSessionCapacity * TokenSessionState :=
  if (max_per_token =? 0)%N then (Ok false, s)
  else
    let current := default 0%N (counts s !! token) in
    if (max_per_token <=? current)%N
    then (Err {| tsc_current := current; tsc_max := max_per_token |}, s)
    else (Ok true, {|
            counts := <[token := (current + 1)%N]> (counts s); sessions := sessions s;
            pending_reservations := (pending_reservations s + 1)%N;
            created_unbound := created_unbound s; closed_before_bind := closed_before_bind s |}).

Definition note_session_created (id : SessionId) (s : TokenSessionState) : TokenSessionState :=
  if (0 <? pending_reservations s)%N
  then set_unbound ({[ id ]} ∪ created_unbound s) (closed_before_bind s) s else s.

(** The token half of [unregister_inner]. *)
Definition unregister_token (id : SessionId) (s : TokenSessionState) : TokenSessionState :=
  match sessions s !! id with
  | Some token =>
      decrement_token token {|
        counts := counts s; sessions := delete id (sessions s);
        pending_reservations := pending_reservations s;
        created_unbound := created_unbound s; closed_before_bind := closed_before_bind s |}
  | None =>
      if bool_decide (id ∈ created_unbound s)
      then set_unbound (created_unbound s ∖ {[ id ]}) ({[ id ]} ∪ closed_before_bind s) s
      else s
  end.

(** ** The tracker *)

Record SessionMeta := { created_at : N; last_active : N }.

Record SessionTracker := {
  active : N;
  activity : gmap SessionId SessionMeta;
  token_sessions : TokenSessionState;
}.

Definition tracker_new : SessionTracker :=
  {| active := 0; activity := ∅; token_sessions := empty_token_state |}.

Definition set_active (n : N) (t : SessionTracker) : SessionTracker :=
  {| active := n; activity := activity t; token_sessions := token_sessions t |}.
Definition set_activity (a : gmap SessionId SessionMeta) (t : SessionTracker) : SessionTracker :=
  {| active := active t; activity := a; token_sessions := token_sessions t |}.
Definition set_token_sessions (s : TokenSessionState) (t : SessionTracker) : SessionTracker :=
  {| active := active t; activity := activity t; token_sessions := s |}.

Definition at_capacity (max_sessions : N) (t : SessionTracker) : bool :=
  (0 <? max_sessions)%N && (max_sessions <=? active t)%N.

Definition touch (id : SessionId) (now : N) (t : SessionTracker) : SessionTracker :=
  set_activity (alter (fun m => {| created_at := created_at m; last_active := now |}) id (activity t)) t.

Inductive ReapReason := Idle | Lifetime.

(** [duration_since] saturates at zero. *)
Definition reap_reason (idle_timeout max_lifetime : option N) (now : N) (m : SessionMeta) :
  option ReapReason :=
  let idle := from_option (fun t => t <=? now - last_active m)%N false idle_timeout in
  let lifetime := from_option (fun t => t <=? now - created_at m)%N false max_lifetime in
  if lifetime then Some Lifetime else if idle then Some Idle else None.

Definition reap (idle_timeout max_lifetime : option N) (now : N) (t : SessionTracker) :
  list (SessionId * ReapReason) :=
  omap (fun kv => r ← reap_reason idle_timeout max_lifetime now kv.2; Some (kv.1, r))
    (map_to_list (activity t)).

(** ** Threads

    Where a thread is between two atomic steps: creating a session
    ([create_session] with [try_register]) or dropping one
    ([unregister_inner]). *)

Inductive pc :=
| Noted (id : SessionId)       (* recorded, before the counter *)
| Counted (id : SessionId)    (* counted below the cap, not yet in the map *)
| Rejected (id : SessionId)    (* counted at the cap, to be taken back *)
| Removing (id : SessionId)    (* before the removal from the map *)
| Removed (id : SessionId)     (* out of the map, still counted *)
| Releasing (id : SessionId).  (* before the token table *)

Definition pc_id (p : pc) : SessionId :=
  match p with
  | Noted i | Counted i | Rejected i | Removing i | Removed i | Releasing i => i
  end.

(** One atomic step of a thread; [None] is the end of it. *)
Definition thread_step (max_sessions now : N) (p : pc) (t : SessionTracker) :
  option pc * SessionTracker :=
  match p with
  | Noted id =>
      let prev := active t in
      let t := set_active (prev + 1)%N t in
      if (0 <? max_sessions)%N && (max_sessions <=? prev)%N then (Some (Rejected id), t)
      else (Some (Counted id), t)
  | Counted id =>
      (None, set_activity (<[id := {| created_at := now; last_active := now |}]> (activity t)) t)
  | Rejected id => (Some (Removing id), set_active (active t - 1)%N t)
  | Removing id =>
      match activity t !! id with
      | Some _ => (Some (Removed id), set_activity (delete id (activity t)) t)
      | None => (Some (Releasing id), t)
      end
  | Removed id => (Some (Releasing id), set_active (active t - 1)%N t)
  | Releasing id => (None, set_token_sessions (unregister_token id (token_sessions t)) t)
  end.

(** Everything at one moment: the tracker, the threads, the reservations that
    are held, and every identifier ever handed out. *)
Record Moment := {
  tracker : SessionTracker;
  threads : list pc;
  reservations : list string;
  used : gset SessionId;
}.

Section steps.
Variables max_sessions max_per_token : N.

Inductive step (m : Moment) : Moment -> Prop :=
| step_create id :
    (* a fresh identifier from the wrapped session manager *)
    id ∉ used m ->
    step m {| tracker := set_token_sessions (note_session_created id (token_sessions (tracker m))) (tracker m);
              threads := Noted id :: threads m; reservations := reservations m;
              used := {[ id ]} ∪ used m |}
| step_close id :
    (* a client's close or the reaper *)
    step m {| tracker := tracker m; threads := Removing id :: threads m;
              reservations := reservations m; used := used m |}
| step_thread now l p r p' t' :
    threads m = l ++ p :: r -> thread_step max_sessions now p (tracker m) = (p', t') ->
    step m {| tracker := t'; threads := l ++ option_list p' ++ r;
              reservations := reservations m; used := used m |}
| step_touch id now :
    step m {| tracker := touch id now (tracker m); threads := threads m;
              reservations := reservations m; used := used m |}
| step_reserve token s' :
    try_reserve_token max_per_token token (token_sessions (tracker m)) = (Ok true, s') ->
    step m {| tracker := set_token_sessions s' (tracker m); threads := threads m;
              reservations := token :: reservations m; used := used m |}
| step_commit l token r id b s' :
    reservations m = l ++ token :: r ->
    reservation_commit token id (token_sessions (tracker m)) = (b, s') ->
    step m {| tracker := set_token_sessions s' (tracker m); threads := threads m;
              reservations := l ++ r; used := used m |}
| step_drop l token r :
    reservations m = l ++ token :: r ->
    step m {| tracker := set_token_sessions (drop_reservation token (token_sessions (tracker m))) (tracker m);
              threads := threads m; reservations := l ++ r; used := used m |}.

End steps.

Definition start : Moment :=
  {| tracker := tracker_new; threads := []; reservations := []; used := ∅ |}.

(** The same steps as a function: which one, of which thread. *)
Inductive Move :=
| Create (id : SessionId)
| Close (id : SessionId)
| Run (now : N) (thread : nat)
| Touch (id : SessionId) (now : N)
| Reserve (token : string)
| Commit (reservation : nat) (id : SessionId)
| Drop (reservation : nat).

Definition play (max_sessions max_per_token : N) (m : Moment) (mv : Move) : option Moment :=
  let t := tracker m in
  let upd t' ths rs us := Some {| tracker := t'; threads := ths; reservations := rs; used := us |} in
  match mv with
  | Create id =>
      if decide (id ∉ used m)
      then upd (set_token_sessions (note_session_created id (token_sessions t)) t)
             (Noted id :: threads m) (reservations m) ({[ id ]} ∪ used m)
      else None
  | Close id => upd t (Removing id :: threads m) (reservations m) (used m)
  | Run now i =>
      p ← threads m !! i;
      let '(p', t') := thread_step max_sessions now p t in
      upd t' (take i (threads m) ++ option_list p' ++ drop (S i) (threads m)) (reservations m) (used m)
  | Touch id now => upd (touch id now t) (threads m) (reservations m) (used m)
  | Reserve token =>
      match try_reserve_token max_per_token token (token_sessions t) with
      | (Ok true, s') => upd (set_token_sessions s' t) (threads m) (token :: reservations m) (used m)
      | _ => None
      end
  | Commit i id =>
      token ← reservations m !! i;
      upd (set_token_sessions (reservation_commit token id (token_sessions t)).2 t) (threads m)
        (take i (reservations m) ++ drop (S i) (reservations m)) (used m)
  | Drop i =>
      token ← reservations m !! i;
      upd (set_token_sessions (drop_reservation token (token_sessions t)) t) (threads m)
        (take i (reservations m) ++ drop (S i) (reservations m)) (used m)
  end.

Fixpoint play_all (max_sessions max_per_token : N) (m : Moment) (mvs : list Move) : option Moment :=
  match mvs with
  | [] => Some m
  | mv :: mvs => m' ← play max_sessions max_per_token m mv; play_all max_sessions max_per_token m' mvs
  end.

Lemma play_step ms mt m mv m' : play ms mt m mv = Some m' -> step ms mt m m'.
Proof.
  destruct mv as [id|id|now i|id now|token|i id|i]; cbn [play].
  - destruct (decide _); [|done]. intros [= <-]. by constructor.
  - intros [= <-]. constructor.
  - destruct (threads m !! i) as [p|] eqn:Hp; [|done]. cbn [mbind option_bind].
    destruct (thread_step ms now p (tracker m)) as [p' t'] eqn:Ht. intros [= <-].
    eapply step_thread; [by rewrite (take_drop_middle _ i p)|done].
  - intros [= <-]. constructor.
  - destruct (try_reserve_token _ _ _) as [[[]|] s'] eqn:Hs; try done. intros [= <-]. by constructor.
  - destruct (reservations m !! i) as [token|] eqn:Hp; [|done]. cbn [mbind option_bind]. intros [= <-].
    destruct (reservation_commit token id (token_sessions (tracker m))) as [b s'] eqn:Hs.
    eapply step_commit; [by rewrite (take_drop_middle _ i token)|done].
  - destruct (reservations m !! i) as [token|] eqn:Hp; [|done]. cbn [mbind option_bind]. intros [= <-].
    constructor. by rewrite (take_drop_middle _ i token).
Qed.

Lemma play_all_steps ms mt m mvs m' : play_all ms mt m mvs = Some m' -> rtc (step ms mt) m m'.
Proof.
  revert m. induction mvs as [|mv mvs IH]; intros m; cbn [play_all]; [by intros [= <-]|].
  destruct (play ms mt m mv) as [m1|] eqn:Hm; [|done]. cbn [mbind option_bind]. intros Hr.
  eapply rtc_l; [by eapply play_step|by apply IH].
Qed.

(** ** Counting *)

(** How many elements of a list satisfy a test. *)
Definition tally_of {A} (f : A -> bool) (l : list A) : N := N.of_nat (length (List.filter f l)).

Lemma tally_nil {A} (f : A -> bool) : tally_of f [] = 0%N.
Proof. done. Qed.

Lemma tally_cons {A} (f : A -> bool) x l :
  tally_of f (x :: l) = ((if f x then 1 else 0) + tally_of f l)%N.
Proof. unfold tally_of. simpl. destruct (f x); simpl; lia. Qed.

Lemma tally_app {A} (f : A -> bool) l l' : tally_of f (l ++ l') = (tally_of f l + tally_of f l')%N.
Proof. unfold tally_of. rewrite List.filter_app, length_app. lia. Qed.

Lemma tally_le {A} (f g : A -> bool) l :
  (forall x, f x = true -> g x = true) -> (tally_of f l <= tally_of g l)%N.
Proof.
  intros Hfg. induction l as [|x l IH]; [done|]. rewrite !tally_cons. specialize (Hfg x).
  destruct (f x), (g x); lia || (exfalso; by discriminate Hfg).
Qed.

(** Sessions bound to a token. *)
Definition bound (token : string) (m : gmap SessionId string) : N :=
  N.of_nat (size (base.filter (fun kv : SessionId * string => kv.2 = token) m)).

Lemma bound_insert token id t (m : gmap SessionId string) :
  m !! id = None -> bound token (<[id := t]> m) = ((if decide (t = token) then 1 else 0) + bound token m)%N.
Proof.
  intros Hn. unfold bound. destruct (decide (t = token)) as [->|Hne].
  - rewrite map_filter_insert_True by done. rewrite map_size_insert_None; [lia|].
    apply map_lookup_filter_None. by left.
  - rewrite map_filter_insert_False by done. rewrite delete_id by done. lia.
Qed.

Lemma bound_delete token id t (m : gmap SessionId string) :
  m !! id = Some t -> bound token m = ((if decide (t = token) then 1 else 0) + bound token (delete id m))%N.
Proof.
  intros Hs. rewrite <-(insert_delete_id m id t Hs) at 1. apply bound_insert, lookup_delete_eq.
Qed.

(** ** The table is exact *)

(** What is held for a token: its bound sessions and its reservations. *)
Definition held_for (token : string) (s : TokenSessionState) (rs : list string) : N :=
  (bound token (sessions s) + tally_of (fun t => bool_decide (t = token)) rs)%N.

(** A table of counts that says exactly what is held, within the cap. *)
Record counted (cap : N) (c : gmap string N) (h : string -> N) : Prop := {
  ct_exact : forall token, default 0%N (c !! token) = h token;
  ct_positive : forall token n, c !! token = Some n -> (0 < n)%N;
  ct_cap : forall token, (h token <= cap)%N;
}.

Record table_ok (cap : N) (s : TokenSessionState) (rs : list string) : Prop := {
  tb_counts : counted cap (counts s) (fun token => held_for token s rs);
  tb_pending : pending_reservations s = N.of_nat (length rs);
}.

Lemma decrement_lookup token token' s :
  (forall n, counts s !! token = Some n -> (0 < n)%N) ->
  counts (decrement_token token s) !! token'
  = if decide (token' = token)
    then match counts s !! token with
         | Some n => if (n =? 1)%N then None else Some (n - 1)%N
         | None => None
         end
    else counts s !! token'.
Proof.
  intros Hpos. unfold decrement_token. destruct (counts s !! token) as [n|] eqn:E.
  - specialize (Hpos n eq_refl). destruct (N.ltb_spec 1 n); simpl; destruct (decide (token' = token)) as [->|].
    + rewrite lookup_insert_eq. by rewrite (proj2 (N.eqb_neq n 1)) by lia.
    + by rewrite lookup_insert_ne.
    + rewrite lookup_delete_eq. by rewrite (proj2 (N.eqb_eq n 1)) by lia.
    + by rewrite lookup_delete_ne.
  - by destruct (decide (token' = token)) as [->|].
Qed.

Lemma decrement_fields token s :
  sessions (decrement_token token s) = sessions s /\
  pending_reservations (decrement_token token s) = pending_reservations s /\
  created_unbound (decrement_token token s) = created_unbound s /\
  closed_before_bind (decrement_token token s) = closed_before_bind s.
Proof.
  unfold decrement_token. destruct (counts s !! token); [|done]. by destruct (1 <? _)%N.
Qed.

Lemma counted_ext cap c h h' : (forall token, h token = h' token) -> counted cap c h -> counted cap c h'.
Proof. intros He [H1 H2 H3]. split; [|exact H2|]; intros token; rewrite <-He; [apply H1|apply H3]. Qed.

Lemma counted_decrement cap token s h :
  counted cap (counts s) h -> (0 < h token)%N ->
  counted cap (counts (decrement_token token s))
    (fun t => (h t - if decide (t = token) then 1 else 0)%N).
Proof.
  intros [He Hp Hc] Hpos. split.
  - intros t. rewrite decrement_lookup by (intros; by eapply Hp). destruct (decide (t = token)) as [->|].
    + specialize (He token). destruct (counts s !! token) as [n|]; simpl in He; [|lia].
      destruct (N.eqb_spec n 1); simpl; lia.
    + rewrite He. lia.
  - intros t n. rewrite decrement_lookup by (intros; by eapply Hp). destruct (decide (t = token)) as [->|]; [|by apply Hp].
    destruct (counts s !! token) as [n'|] eqn:E; [|done]. apply Hp in E.
    destruct (N.eqb_spec n' 1); [done|]. intros [= <-]. lia.
  - intros t. specialize (Hc t). destruct (decide (t = token)); lia.
Qed.

Lemma counted_increment cap token c h :
  counted cap c h -> (h token < cap)%N ->
  counted cap (<[token := (default 0 (c !! token) + 1)%N]> c)
    (fun t => ((if decide (token = t) then 1 else 0) + h t)%N).
Proof.
  intros [He Hp Hc] Hlt. split.
  - intros t. destruct (decide (token = t)) as [->|Hne].
    + rewrite lookup_insert_eq. simpl. rewrite He. lia.
    + rewrite lookup_insert_ne by done. rewrite He. lia.
  - intros t n. rewrite lookup_insert_Some. intros [[-> <-]|[_ ?]]; [lia|by eapply Hp].
  - intros t. specialize (Hc t). destruct (decide (token = t)) as [->|]; lia.
Qed.

(** What is held without one of the reservations. *)
Lemma held_split token token' s l r :
  held_for token s (l ++ token' :: r)
  = ((if decide (token' = token) then 1 else 0) + held_for token s (l ++ r))%N.
Proof.
  unfold held_for. rewrite !tally_app, tally_cons.
  destruct (decide (token' = token)); [rewrite bool_decide_eq_true_2 by done|
    rewrite bool_decide_eq_false_2 by done]; lia.
Qed.

Lemma complete_fields s :
  counts (complete_pending_reservation s) = counts s /\
  sessions (complete_pending_reservation s) = sessions s /\
  pending_reservations (complete_pending_reservation s) = (pending_reservations s - 1)%N /\
  created_unbound (complete_pending_reservation s) ⊆ created_unbound s.
Proof. unfold complete_pending_reservation. simpl. split_and!; try done. by destruct (_ =? 0)%N. Qed.

Lemma drop_table cap token s l r :
  table_ok cap s (l ++ token :: r) -> table_ok cap (drop_reservation token s) (l ++ r).
Proof.
  intros [Hc Hp]. unfold drop_reservation.
  destruct (complete_fields (decrement_token token s)) as (Hcs&Hss&Hpp&_).
  destruct (decrement_fields token s) as (Hds&Hdp&_). split.
  - rewrite Hcs. eapply counted_ext; [|apply counted_decrement; [exact Hc|]].
    + intros t. cbv beta. rewrite held_split. unfold held_for. rewrite Hss, Hds.
      destruct (decide (token = t)), (decide (t = token)); try congruence; lia.
    + cbv beta. rewrite held_split, decide_True by done. lia.
  - rewrite Hpp, Hdp, Hp, !length_app. simpl. lia.
Qed.

Lemma commit_table cap token id s b s' l r :
  table_ok cap s (l ++ token :: r) -> reservation_commit token id s = (b, s') ->
  table_ok cap s' (l ++ r).
Proof.
  intros Htb. unfold reservation_commit.
  case_bool_decide as Hs; [intros [= <- <-]; by apply drop_table|].
  case_bool_decide as Hcl; [intros [= <- <-]; apply drop_table; by destruct Htb|].
  case_bool_decide as Hcr; [|intros [= <- <-]; by apply drop_table]. intros [= <- <-].
  apply eq_None_not_Some in Hs. destruct Htb as [Hc Hp].
  match goal with |- table_ok _ (complete_pending_reservation ?x) _ => destruct (complete_fields x) as (Hcs&Hss&Hpp&_) end.
  split.
  - rewrite Hcs. eapply counted_ext; [|exact Hc]. intros t. cbv beta. rewrite held_split. unfold held_for.
    rewrite Hss. simpl. rewrite bound_insert by done. lia.
  - rewrite Hpp. simpl. rewrite Hp, !length_app. simpl. lia.
Qed.

Lemma reserve_table cap token s s' rs :
  table_ok cap s rs -> try_reserve_token cap token s = (Ok true, s') -> table_ok cap s' (token :: rs).
Proof.
  intros [Hc Hp]. unfold try_reserve_token. destruct (cap =? 0)%N; [done|].
  destruct (N.leb_spec cap (default 0%N (counts s !! token))) as [?|Hlt]; [done|]. intros [= <-].
  rewrite (ct_exact _ _ _ Hc) in Hlt. split.
  - eapply counted_ext; [|by apply counted_increment]. intros t. cbv beta.
    change (token :: rs) with ([] ++ token :: rs). by rewrite held_split.
  - simpl. rewrite Hp. simpl. lia.
Qed.

Lemma note_table cap id s rs : table_ok cap s rs -> table_ok cap (note_session_created id s) rs.
Proof. intros [??]. unfold note_session_created. by destruct (0 <? _)%N. Qed.

Lemma unregister_table cap id s rs : table_ok cap s rs -> table_ok cap (unregister_token id s) rs.
Proof.
  intros [Hc Hp]. unfold unregister_token. destruct (sessions s !! id) as [token|] eqn:E.
  - match goal with |- table_ok _ (decrement_token _ ?x) _ => set (s0 := x) end.
    destruct (decrement_fields token s0) as (Hds&Hdp&_).
    assert (forall t, held_for t s rs = ((if decide (token = t) then 1 else 0) + held_for t s0 rs)%N) as Hh.
    { intros t. unfold held_for. rewrite (bound_delete t id token) by done. simpl. lia. }
    split; [|by rewrite Hdp].
    eapply counted_ext; [|apply (counted_decrement cap token s0 _ Hc)].
    + intros t. cbv beta. rewrite Hh. unfold held_for. rewrite Hds.
      destruct (decide (token = t)), (decide (t = token)); try congruence; lia.
    + cbv beta. rewrite Hh, decide_True by done. lia.
  - case_bool_decide; [|done]. by split.
Qed.

(** ** The invariant of all interleavings *)

(** Threads the counter includes, and those that will enter the map. *)
Definition in_counter (p : pc) : bool :=
  match p with Counted _ | Rejected _ | Removed _ => true | _ => false end.
Definition is_admitted (p : pc) : bool := match p with Counted _ => true | _ => false end.
Definition creating (p : pc) : option SessionId :=
  match p with Noted id | Counted id => Some id | _ => None end.

Definition live (m : Moment) : N := N.of_nat (size (activity (tracker m))).

Record session_inv (max_sessions max_per_token : N) (m : Moment) : Prop := {
  si_active : active (tracker m) = (live m + tally_of in_counter (threads m))%N;
  si_cap : (0 < max_sessions -> live m + tally_of is_admitted (threads m) <= max_sessions)%N;
  si_creating : NoDup (omap creating (threads m));
  si_new : forall id, id ∈ omap creating (threads m) -> activity (tracker m) !! id = None /\ id ∈ used m;
  si_used : forall id, is_Some (activity (tracker m) !! id) -> id ∈ used m;
  si_table : table_ok max_per_token (token_sessions (tracker m)) (reservations m);
  si_cover : forall id, is_Some (sessions (token_sessions (tracker m)) !! id) \/
                id ∈ created_unbound (token_sessions (tracker m)) ->
             is_Some (activity (tracker m) !! id) \/ id ∈ pc_id <$> threads m;
  si_once : forall id, id ∈ created_unbound (token_sessions (tracker m)) ->
              sessions (token_sessions (tracker m)) !! id = None;
  si_ids : forall id, is_Some (sessions (token_sessions (tracker m)) !! id) \/
              id ∈ created_unbound (token_sessions (tracker m)) -> id ∈ used m;
}.

Lemma start_inv max_sessions max_per_token : session_inv max_sessions max_per_token start.
Proof.
  split; try done; try (by constructor).
  - intros _. unfold live, tally_of. simpl. rewrite map_size_empty. simpl. lia.
  - intros id Hid. by apply elem_of_nil in Hid.
  - intros id [? Hid]. done.
  - split; [|done]. split; [|done|].
    + intros token. unfold held_for, bound. simpl. by rewrite map_filter_empty, map_size_empty.
    + intros token. unfold held_for, bound, tally_of. simpl. rewrite map_filter_empty, map_size_empty.
      simpl. lia.
  - intros id [[? Hid]|Hid]; [done|]. set_solver.
  - intros id [[? Hid]|Hid]; [done|]. set_solver.
Qed.

(** Nothing but these fields of the token table matters to the cover. *)
Definition table_ids (s : TokenSessionState) (id : SessionId) : Prop :=
  is_Some (sessions s !! id) \/ id ∈ created_unbound s.

Lemma drop_ids token s id : table_ids (drop_reservation token s) id -> table_ids s id.
Proof.
  unfold table_ids, drop_reservation.
  destruct (complete_fields (decrement_token token s)) as (_&->&_&Hu).
  destruct (decrement_fields token s) as (->&_&Hd&_). rewrite Hd in Hu. set_solver.
Qed.

Lemma commit_ids token id s b s' id' :
  reservation_commit token id s = (b, s') -> table_ids s' id' -> table_ids s id'.
Proof.
  unfold reservation_commit. case_bool_decide as Hs; [intros [= <- <-]; by apply drop_ids|].
  case_bool_decide as Hcl; [intros [= <- <-] Hid; by apply drop_ids in Hid|].
  case_bool_decide as Hcr; [|intros [= <- <-]; by apply drop_ids]. intros [= <- <-].
  unfold table_ids.
  match goal with |- context [complete_pending_reservation ?x] =>
    destruct (complete_fields x) as (_&->&_&Hu) end.
  simpl in *. rewrite lookup_insert_is_Some. set_solver.
Qed.

Lemma reserve_ids cap token s s' id :
  try_reserve_token cap token s = (Ok true, s') -> table_ids s' id -> table_ids s id.
Proof.
  unfold try_reserve_token. destruct (cap =? 0)%N; [done|]. by destruct (cap <=? _)%N; intros [= <-].
Qed.

Lemma note_ids id s id' : table_ids (note_session_created id s) id' -> table_ids s id' \/ id' = id.
Proof. unfold table_ids, note_session_created. destruct (0 <? _)%N; simpl; set_solver. Qed.

Lemma unregister_ids id s id' :
  (id ∈ created_unbound s -> sessions s !! id = None) ->
  table_ids (unregister_token id s) id' -> table_ids s id' /\ id' <> id.
Proof.
  intros Honce. unfold table_ids, unregister_token. destruct (sessions s !! id) as [token|] eqn:E.
  - match goal with |- context [decrement_token _ ?x] => destruct (decrement_fields token x) as (->&_&->&_) end.
    simpl. intros [[t Ht]|Hu].
    + apply lookup_delete_Some in Ht as [Hne Ht]. split; [left; eauto|done].
    + split; [by right|]. intros ->. by apply Honce in Hu.
  - case_bool_decide as Hu; simpl.
    + intros [Hs|Hs]; [split; [by left|]; intros ->; rewrite E in Hs; by destruct Hs|]. set_solver.
    + intros Hs. split; [done|]. intros ->. destruct Hs as [[? Hs]|Hs]; [congruence|done].
Qed.

Definition once_bound (s : TokenSessionState) : Prop :=
  forall id, id ∈ created_unbound s -> sessions s !! id = None.

Lemma drop_once token s : once_bound s -> once_bound (drop_reservation token s).
Proof.
  unfold once_bound, drop_reservation. intros Ho id.
  destruct (complete_fields (decrement_token token s)) as (_&->&_&Hu).
  destruct (decrement_fields token s) as (->&_&Hd&_). rewrite Hd in Hu. intros Hid. apply Ho, Hu, Hid.
Qed.

Lemma commit_once token id s b s' :
  reservation_commit token id s = (b, s') -> once_bound s -> once_bound s'.
Proof.
  unfold reservation_commit. case_bool_decide as Hs; [intros [= <- <-]; apply drop_once|].
  case_bool_decide as Hcl; [intros [= <- <-] Ho; by apply drop_once|].
  case_bool_decide as Hcr; [|intros [= <- <-]; apply drop_once]. intros [= <- <-] Ho id'.
  match goal with |- context [complete_pending_reservation ?x] =>
    destruct (complete_fields x) as (_&->&_&Hu) end.
  simpl in *. intros Hid%Hu. rewrite lookup_insert_ne by set_solver. apply Ho. set_solver.
Qed.

Lemma unregister_once id s : once_bound s -> once_bound (unregister_token id s).
Proof.
  unfold once_bound, unregister_token. intros Ho id'. destruct (sessions s !! id) as [token|] eqn:E.
  - match goal with |- context [decrement_token _ ?x] => destruct (decrement_fields token x) as (->&_&->&_) end.
    simpl. intros Hid. rewrite lookup_delete_None. right. auto.
  - case_bool_decide as Hu; simpl; [|auto]. intros Hid. apply Ho. set_solver.
Qed.

Lemma note_once id s :
  sessions s !! id = None -> once_bound s -> once_bound (note_session_created id s).
Proof.
  unfold once_bound, note_session_created. intros Hn Ho id'. destruct (0 <? _)%N; simpl; [|auto].
  intros [->%elem_of_singleton|Hid]%elem_of_union; auto.
Qed.

Section preservation.
Variables max_sessions max_per_token : N.
Local Abbreviation inv := (session_inv max_sessions max_per_token).

(** Steps on the token table alone. *)
Lemma inv_table m s' rs' :
  inv m -> table_ok max_per_token s' rs' -> once_bound s' ->
  (forall id, table_ids s' id -> table_ids (token_sessions (tracker m)) id) ->
  inv {| tracker := set_token_sessions s' (tracker m); threads := threads m;
         reservations := rs'; used := used m |}.
Proof.
  intros [] Ht Ho Hids. split; try done.
  - intros id Hid. by apply si_cover0, Hids.
  - intros id Hid. by apply si_ids0, Hids.
Qed.

Lemma inv_create m id :
  inv m -> id ∉ used m ->
  inv {| tracker := set_token_sessions (note_session_created id (token_sessions (tracker m))) (tracker m);
         threads := Noted id :: threads m; reservations := reservations m;
         used := {[ id ]} ∪ used m |}.
Proof.
  intros [] Hnew. split; unfold live in *; simpl.
  - rewrite tally_cons. simpl. lia.
  - rewrite tally_cons. simpl. lia.
  - constructor; [|done]. intros Hin. by apply si_new0 in Hin as [_ ?].
  - intros id' [->|Hin]%elem_of_cons; [|apply si_new0 in Hin as [??]; split; [done|set_solver]].
    split; [|set_solver]. apply eq_None_not_Some. intros Hs. by apply si_used0 in Hs.
  - intros id' Hs. apply si_used0 in Hs. set_solver.
  - by apply note_table.
  - intros id' [Hid| ->]%note_ids; [|right; apply list_elem_of_here].
    apply si_cover0 in Hid as [?|?]; [by left|right]. by apply elem_of_cons; right.
  - apply note_once; [|done]. apply eq_None_not_Some. intros Hs. apply Hnew, si_ids0. by left.
  - intros id' [Hid| ->]%note_ids; [|set_solver]. apply si_ids0 in Hid. set_solver.
Qed.

Lemma inv_close m id :
  inv m -> inv {| tracker := tracker m; threads := Removing id :: threads m;
                  reservations := reservations m; used := used m |}.
Proof.
  intros []. split; unfold live in *; simpl; try done.
  intros id' Hid. apply si_cover0 in Hid as [?|?]; [by left|right]. by apply elem_of_cons; right.
Qed.

Lemma size_alter (f : SessionMeta -> SessionMeta) id (a : gmap string SessionMeta) :
  size (alter f id a) = size a.
Proof. rewrite <-!(size_dom (D := gset string)). by rewrite dom_alter_L. Qed.

Lemma inv_touch m id now :
  inv m -> inv {| tracker := touch id now (tracker m); threads := threads m;
                  reservations := reservations m; used := used m |}.
Proof.
  assert (forall id' (a : gmap string SessionMeta) f, is_Some (alter f id a !! id') <-> is_Some (a !! id')) as Ha.
  { intros id' a f. destruct (decide (id = id')) as [->|].
    - by rewrite lookup_alter_eq, fmap_is_Some.
    - by rewrite lookup_alter_ne. }
  intros []. split; unfold live, touch in *; simpl; try done.
  - by rewrite size_alter.
  - by rewrite size_alter.
  - intros id' Hin. apply si_new0 in Hin as [Hn ?]. split; [|done].
    apply eq_None_not_Some. rewrite Ha. by apply eq_None_not_Some.
  - intros id'. rewrite Ha. auto.
  - intros id'. rewrite Ha. auto.
Qed.

(** ** The steps of a thread *)

Lemma omap_creating_split l p r :
  omap creating (l ++ p :: r) = omap creating l ++ option_list (creating p) ++ omap creating r.
Proof. rewrite omap_app. f_equal. simpl. by destruct (creating p). Qed.

Lemma creating_sublist l p r : omap creating (l ++ r) `sublist_of` omap creating (l ++ p :: r).
Proof.
  rewrite omap_creating_split, omap_app. apply sublist_app; [done|]. by apply sublist_inserts_l.
Qed.

Lemma elem_of_pcs id l p r :
  id ∈ pc_id <$> (l ++ p :: r) <-> id ∈ pc_id <$> (l ++ r) \/ id = pc_id p.
Proof. rewrite !fmap_app, fmap_cons, !elem_of_app, elem_of_cons. tauto. Qed.

(** A thread moves on and only the counter changes. *)
Lemma inv_move m l p r p' n :
  inv m -> threads m = l ++ p :: r -> pc_id p' = pc_id p ->
  (creating p' = creating p \/ creating p' = None) ->
  n = (live m + tally_of in_counter (l ++ p' :: r))%N ->
  (0 < max_sessions -> live m + tally_of is_admitted (l ++ p' :: r) <= max_sessions)%N ->
  inv {| tracker := set_active n (tracker m); threads := l ++ p' :: r;
         reservations := reservations m; used := used m |}.
Proof.
  intros [] Hth Hid Hcr Hn Hcap. rewrite Hth in *.
  assert (omap creating (l ++ p' :: r) `sublist_of` omap creating (l ++ p :: r)) as Hsub.
  { rewrite !omap_creating_split. destruct Hcr as [-> | ->]; [done|]. simpl.
    apply sublist_app; [done|]. by apply sublist_inserts_l. }
  split; try done.
  - by eapply sublist_NoDup.
  - intros id Hin. apply si_new0. by eapply sublist_subseteq.
  - simpl. intros id Hi. apply si_cover0 in Hi as [?|Hi]; [by left|right].
    rewrite elem_of_pcs in Hi |- *. by rewrite Hid.
Qed.

Lemma inv_insert m l id r now :
  inv m -> threads m = l ++ Counted id :: r ->
  inv {| tracker := set_activity (<[id := {| created_at := now; last_active := now |}]>
                      (activity (tracker m))) (tracker m);
         threads := l ++ r; reservations := reservations m; used := used m |}.
Proof.
  intros [] Hth. rewrite Hth in *.
  assert (id ∈ omap creating (l ++ Counted id :: r)) as Hin.
  { rewrite omap_creating_split. set_solver. }
  destruct (si_new0 _ Hin) as [Hnone Hu]. split; unfold live in *; simpl; try done.
  - rewrite map_size_insert_None by done. rewrite si_active0, !tally_app, tally_cons. simpl. lia.
  - rewrite map_size_insert_None by done. rewrite !tally_app, tally_cons in si_cap0.
    rewrite tally_app. simpl in *. lia.
  - eapply sublist_NoDup; [exact si_creating0|apply creating_sublist].
  - intros id' Hin'. assert (id' <> id) as Hne.
    { intros ->. rewrite omap_creating_split in si_creating0. simpl in si_creating0.
      rewrite omap_app in Hin'. apply NoDup_app in si_creating0 as (_&Hd&Hc).
      apply NoDup_cons in Hc as [Hc _]. apply elem_of_app in Hin' as [Hl|Hr]; [|done].
      apply (Hd id Hl), list_elem_of_here. }
    rewrite lookup_insert_ne by done. apply si_new0.
    by eapply sublist_subseteq; [apply creating_sublist|].
  - intros id'. rewrite lookup_insert_is_Some. intros [->|[_ Hs]]; auto.
  - intros id' Hi. rewrite lookup_insert_is_Some. apply si_cover0 in Hi as [?|Hi].
    + destruct (decide (id = id')); auto.
    + rewrite elem_of_pcs in Hi. simpl in Hi. destruct Hi as [?| ->]; auto.
Qed.

Lemma inv_delete m l id r x :
  inv m -> threads m = l ++ Removing id :: r -> activity (tracker m) !! id = Some x ->
  inv {| tracker := set_activity (delete id (activity (tracker m))) (tracker m);
         threads := l ++ Removed id :: r; reservations := reservations m; used := used m |}.
Proof.
  intros [] Hth Hx. rewrite Hth in *.
  assert (size (activity (tracker m)) = S (size (delete id (activity (tracker m))))) as Hsz.
  { rewrite map_size_delete, Hx. assert (size (activity (tracker m)) <> 0); [|lia].
    apply map_size_ne_0_lookup. eauto. }
  split; unfold live in *; simpl; try done.
  - rewrite si_active0, Hsz, !tally_app, !tally_cons. simpl. lia.
  - rewrite Hsz, !tally_app, !tally_cons in si_cap0. rewrite !tally_app, !tally_cons. simpl in *. lia.
  - by rewrite omap_creating_split in *.
  - intros id' Hin. rewrite omap_creating_split in *. destruct (si_new0 id' Hin) as [Hn ?].
    split; [|done]. rewrite lookup_delete_None. auto.
  - intros id' [y Hy]. apply lookup_delete_Some in Hy as [_ Hy]. apply si_used0. eauto.
  - intros id' Hi. rewrite elem_of_pcs. apply si_cover0 in Hi as [Hs|Hi].
    + destruct (decide (id' = id)) as [->|]; [by right; right|left]. by rewrite lookup_delete_ne.
    + rewrite elem_of_pcs in Hi. auto.
Qed.

Lemma inv_release m l id r :
  inv m -> threads m = l ++ Releasing id :: r ->
  inv {| tracker := set_token_sessions (unregister_token id (token_sessions (tracker m))) (tracker m);
         threads := l ++ r; reservations := reservations m; used := used m |}.
Proof.
  intros [] Hth. rewrite Hth in *. split; unfold live in *; simpl; try done.
  - rewrite si_active0, !tally_app, tally_cons. simpl. lia.
  - rewrite !tally_app, tally_cons in si_cap0. rewrite tally_app. simpl in *. lia.
  - eapply sublist_NoDup; [exact si_creating0|apply creating_sublist].
  - intros id' Hin. apply si_new0. by eapply sublist_subseteq; [apply creating_sublist|].
  - by apply unregister_table.
  - intros id' [Hi Hne]%unregister_ids; [|apply si_once0]. apply si_cover0 in Hi as [?|Hi]; [by left|].
    rewrite elem_of_pcs in Hi. simpl in Hi. destruct Hi as [?|?]; [by right|done].
  - by apply unregister_once.
  - intros id' [Hi _]%unregister_ids; [by apply si_ids0|apply si_once0].
Qed.

Lemma inv_thread m now l p r p' t' :
  inv m -> threads m = l ++ p :: r -> thread_step max_sessions now p (tracker m) = (p', t') ->
  inv {| tracker := t'; threads := l ++ option_list p' ++ r;
         reservations := reservations m; used := used m |}.
Proof.
  intros Hinv Hth. pose proof (si_active _ _ _ Hinv) as Ha. pose proof (si_cap _ _ _ Hinv) as Hc.
  rewrite Hth, !tally_app, !tally_cons in Ha. rewrite Hth, !tally_app, !tally_cons in Hc.
  pose proof (tally_le is_admitted in_counter l ltac:(by intros [])) as Hle.
  pose proof (tally_le is_admitted in_counter r ltac:(by intros [])) as Hle'.
  destruct p as [id|id|id|id|id|id]; cbn [thread_step in_counter is_admitted] in *.
  - destruct (N.ltb_spec 0 max_sessions), (N.leb_spec max_sessions (active (tracker m)));
      intros [= <- <-]; simpl; (eapply inv_move; [done..|by eauto| |]);
      rewrite !tally_app, !tally_cons; cbn [in_counter is_admitted]; lia.
  - intros [= <- <-]. by apply inv_insert.
  - intros [= <- <-]. simpl. eapply inv_move; [done..|by eauto| |];
      rewrite !tally_app, !tally_cons; cbn [in_counter is_admitted]; lia.
  - destruct (activity (tracker m) !! id) as [x|] eqn:E; intros [= <- <-]; simpl.
    + by eapply inv_delete.
    + assert (tracker m = set_active (active (tracker m)) (tracker m)) as -> by by destruct (tracker m).
      eapply inv_move; [done..|by eauto| |];
        rewrite !tally_app, !tally_cons; cbn [in_counter is_admitted]; lia.
  - intros [= <- <-]. simpl. eapply inv_move; [done..|by eauto| |];
      rewrite !tally_app, !tally_cons; cbn [in_counter is_admitted]; lia.
  - intros [= <- <-]. by apply inv_release.
Qed.

Lemma inv_step m m' : inv m -> step max_sessions max_per_token m m' -> inv m'.
Proof.
  intros Hinv []; [by apply inv_create|by apply inv_close|by eapply inv_thread|by apply inv_touch|..].
  - apply inv_table; [done|eapply reserve_table; [apply Hinv|done]| |intros ? Hi; by eapply reserve_ids].
    unfold try_reserve_token in *. destruct (max_per_token =? 0)%N; [done|].
    destruct (max_per_token <=? _)%N; [done|]. simplify_eq. exact (si_once _ _ _ Hinv).
  - pose proof (si_table _ _ _ Hinv) as Htb.
    match goal with H : reservations m = _ |- _ => rewrite H in Htb end.
    apply inv_table; [done|by eapply commit_table|eapply commit_once; [done|exact (si_once _ _ _ Hinv)]|].
    intros ? Hi. by eapply commit_ids.
  - pose proof (si_table _ _ _ Hinv) as Htb.
    match goal with H : reservations m = _ |- _ => rewrite H in Htb end.
    apply inv_table; [done|by apply drop_table|apply drop_once; exact (si_once _ _ _ Hinv)|].
    intros ? Hi. by eapply drop_ids.
Qed.


End preservation.
