(* ===== verification/Boundary.v ===== *)
(** * The authenticated request boundary

    crates/mecmcp-transport/src/preflight.rs, target.rs, concurrency.rs and
    auth.rs: the scope preflight over a JSON-RPC body, the targets the
    per-target limiter charges, and the stack of middleware a request passes
    on its way to the handler, in the order [apply_bearer_boundary] fixes. *)

From S2P Require Import Prelude Externals Json Text Scope Tokens TokenFile RateLimit.
From Stdlib Require Import Ascii ZArith.

Open Scope list_scope.

(** ** Scope preflight (preflight.rs) *)

Inductive MalformedArgumentsPolicy := DenyArguments | IgnoreArguments.
Inductive MalformedTargetPolicy := DenyTarget | IgnoreTarget.
Inductive TargetValueShape := Scalar | NonEmptyArray.

Record TargetField := {
  tf_name : string;
  tf_shape : TargetValueShape;
  tf_malformed : MalformedTargetPolicy;
}.

Definition scalar (name : string) : TargetField :=
  {| tf_name := name; tf_shape := Scalar; tf_malformed := DenyTarget |}.

Record ToolScopePreflight := {
  tp_write_tools : list string;
  tp_target_fields : list TargetField;
  tp_malformed_arguments : MalformedArgumentsPolicy;
}.

Definition is_string (j : json) : bool := match j with JString _ => true | _ => false end.

Definition value_has_shape (value : json) (shape : TargetValueShape) : bool :=
  match shape with
  | Scalar => is_string value
  | NonEmptyArray =>
      match json_as_array value with
      | Some values => negb (bool_decide (values = [])) && forallb is_string values
      | None => false
      end
  end.

Definition str_in (devices : ScopeSet) (j : json) : bool :=
  from_option (allows devices) false (json_as_str j).

Definition target_value_in_scope (value : json) (f : TargetField) (devices : ScopeSet) : bool :=
  let valid := match tf_shape f with
               | Scalar => str_in devices value
               | NonEmptyArray =>
                   match json_as_array value with
                   | Some names => negb (bool_decide (names = [])) && forallb (str_in devices) names
                   | None => false
                   end
               end in
  valid || match tf_malformed f with
           | IgnoreTarget => negb (value_has_shape value (tf_shape f))
           | DenyTarget => false
           end.

Definition request_exceeds_scope {G} (p : ToolScopePreflight) (value : json) (caller : CallerCtx G) :
  bool :=
  if negb (bool_decide (json_get "method" value ≫= json_as_str = Some "tools/call")) then false
  else match json_get "params" value with
       | None => false
       | Some params =>
           match json_get "name" params ≫= json_as_str with
           | None => false
           | Some tool =>
               if negb (allows_tool (cc_tools caller) tool (tp_write_tools p)) then true
               else match json_get "arguments" params with
                    | None => false
                    | Some arguments_value =>
                        match json_as_object arguments_value with
                        | None => match tp_malformed_arguments p with
                                  | DenyArguments => true
                                  | IgnoreArguments => false
                                  end
                        | Some _ =>
                            any (fun f => match json_get (tf_name f) arguments_value with
                                          | Some v => negb (target_value_in_scope v f (cc_devices caller))
                                          | None => false
                                          end) (tp_target_fields p)
                        end
                    end
           end
       end.

(** A buffered body: its bytes, and what [serde_json] makes of them. *)
Record Body := { body_len : N; body_value : option json }.

(** The elements of a body, whether one call or a batch (auth.rs). *)
Definition elements (value : json) : list json :=
  match value with JArray requests => requests | single => [single] end.

Definition preflight_check {G} (p : ToolScopePreflight) (body : Body) (caller : CallerCtx G) :
  result unit string :=
  if (body_len body =? 0)%N then Ok tt
  else match body_value body with
       | None => Ok tt
       | Some value =>
           let denied := match value with
                         | JArray values => any (fun v => request_exceeds_scope p v caller) values
                         | value => request_exceeds_scope p value caller
                         end in
           if denied then Err "insufficient_scope" else Ok tt
       end.

Definition run_preflight {G} (preflight : option ToolScopePreflight) (body : Body)
  (caller : CallerCtx G) : result unit string :=
  match preflight with
  | Some p => preflight_check p body caller
  | None => Ok tt
  end.

(** ** The targets of a body (target.rs) *)

Definition collect_field_targets (value : json) (targets : gset string) : gset string :=
  match value with
  | JString target => {[ target ]} ∪ targets
  | JArray l => list_to_set (omap json_as_str l) ∪ targets
  | _ => targets
  end.

Definition collect_request_targets (request : json) (target_keys : list string)
  (targets : gset string) : gset string :=
  match json_as_object request with
  | None => targets
  | Some _ =>
      if negb (bool_decide (json_get "method" request ≫= json_as_str = Some "tools/call")) then targets
      else
        match json_get "params" request ≫= json_as_object with
        | None => targets
        | Some params =>
            match json_get "arguments" (JObject params) ≫= json_as_object with
            | None => targets
            | Some arguments =>
                foldl (fun targets key =>
                  match json_get key (JObject arguments) with
                  | Some value => collect_field_targets value targets
                  | None => targets
                  end) targets target_keys
            end
        end
  end.

Definition extract_targets (body : Body) (target_keys : list string) : gset string :=
  match body_value body with
  | None => ∅
  | Some value =>
      foldl (fun targets request => collect_request_targets request target_keys targets) ∅
        (elements value)
  end.

(** ** Audited tools (auth.rs) *)

Definition MAX_INTERNED_TOOL_NAMES : N := 256.
Definition MAX_TOOL_NAME_LEN : N := 128.
Definition UNREGISTERED_TOOL : string := "unregistered".

Definition is_ascii_alphanumeric (c : ascii) : bool :=
  let n := N_of_ascii c in
  is_ascii_digit c || ((65 <=? n)%N && (n <=? 90)%N) || ((97 <=? n)%N && (n <=? 122)%N).

Definition tool_name_byte (c : ascii) : bool :=
  is_ascii_alphanumeric c || Ascii.eqb c "_" || Ascii.eqb c "-".

Definition intern_tool_into (table : gset string) (name : string) : string * gset string :=
  if is_empty_str name || (MAX_TOOL_NAME_LEN <? str_len name)%N || negb (str_forall tool_name_byte name)
  then (UNREGISTERED_TOOL, table)
  else if bool_decide (name ∈ table) then (name, table)
  else if (MAX_INTERNED_TOOL_NAMES <=? N.of_nat (size table))%N then (UNREGISTERED_TOOL, table)
  else (name, {[ name ]} ∪ table).

(** The tool a [tools/call] element names. *)
Definition called_tool (request : json) : option string :=
  if bool_decide (json_get "method" request ≫= json_as_str = Some "tools/call")
  then (json_get "params" request ≫= json_get "name") ≫= json_as_str
  else None.

Definition tool_name (table : gset string) (value : json) : option string * gset string :=
  match omap called_tool (elements value) with
  | tool :: _ => let '(name, table) := intern_tool_into table tool in (Some name, table)
  | [] => (None, table)
  end.

Definition audited_call_count (value : json) : N :=
  N.of_nat (length (omap called_tool (elements value))).

(** ** The stack (auth.rs) *)

Inductive BearerAuthError := InvalidRealm (why : string).

Fixpoint validate_realm_bytes (s : string) : result unit BearerAuthError :=
  match s with
  | EmptyString => Ok tt
  | String c s =>
      if Ascii.eqb c (ascii_of_nat 34) then Err (InvalidRealm "contains quotes")
      else if Ascii.eqb c (ascii_of_nat 92) then Err (InvalidRealm "contains backslashes")
      else if is_ascii_control c then Err (InvalidRealm "contains control characters")
      else if negb (is_ascii c) then Err (InvalidRealm "contains non-ASCII")
      else validate_realm_bytes s
  end.

Definition validate_realm (realm : string) : result string BearerAuthError :=
  check? validate_realm_bytes realm;
  Ok realm.

Inductive PresentationError := Missing | Malformed.

(** What the middleware reads of an HTTP request.  A header value that is not
    visible ASCII is [None]; the body may fail while it is streamed. *)
Record Request := {
  rq_post : bool;
  rq_session_id : bool;                    (** an Mcp-Session-Id header *)
  rq_protocol_version : option string;     (** visible ASCII *)
  rq_authorization : list (option string);
  rq_content_length : option N;
  rq_body : Body;
  rq_stream_fails : bool;
}.

Definition bearer_candidate (request : Request) (syntax : BearerSyntax) :
  result string PresentationError :=
  match rq_authorization request with
  | [] => Err Missing
  | _ :: _ :: _ => Err Malformed
  | [value] =>
      let? value := ok_or value Malformed in
      map_err (fun _ => Malformed) (parse_bearer_header value syntax)
  end.

(** Strings compare byte by byte. *)
Fixpoint str_leb (a b : string) : bool :=
  match a, b with
  | EmptyString, _ => true
  | String _ _, EmptyString => false
  | String c a, String d b =>
      if (N_of_ascii c <? N_of_ascii d)%N then true
      else if (N_of_ascii d <? N_of_ascii c)%N then false else str_leb a b
  end.

(** [rmcp]'s first revision with the stateless core. *)
Definition STANDARD_HEADERS : string := "2026-07-28".

Definition declares_stateless_protocol (request : Request) : bool :=
  from_option (str_leb STANDARD_HEADERS) false (rq_protocol_version request).

Definition is_session_creating (request : Request) : bool :=
  rq_post request && negb (rq_session_id request) && negb (declares_stateless_protocol request).

(** How a request ends on its way in; what a client of a full session manager
    sees after the handler ran is part of Sessions.v. *)
Inductive Outcome (G : Type) :=
| Unauthorized                       (* 401 *)
| RateLimited (retry_after : N)      (* 429 *)
| Overloaded (limit : string)        (* 503 *)
| TooLargeBody                       (* 413 *)
| BadRequest                         (* 400 *)
| Forbidden (reason : string)        (* 403 *)
| Dispatched (caller : CallerCtx G). (* the handler runs *)
Arguments Unauthorized {G}. Arguments RateLimited {G}. Arguments Overloaded {G}.
Arguments TooLargeBody {G}. Arguments BadRequest {G}. Arguments Forbidden {G}.
Arguments Dispatched {G}.

(** What the boundary charges, asks and audits on the way, in order.  Of an
    audit event the tool, the layer that emits it and its verdict are kept. *)
Inductive Event :=
| ChargeTokenRate (token : string)
| ChargeGlobal
| ChargeToken (token : string)
| ChargeSession (token : string)
| ChargeTargets (targets : gset string)
| AuditPreflight (tool : string) (allowed : bool)
| AuditRefused (tool : string) (status : N).

Record BearerBoundary := {
  bb_syntax : BearerSyntax;
  bb_preflight : option ToolScopePreflight;
  bb_body_limit : N;
  bb_token_rate_enabled : bool;
  bb_concurrency : bool;
  bb_max_global : N;
  bb_max_per_token : N;
  bb_sessions : bool;
  bb_max_per_target : N;
  bb_target_keys : list string;
}.

(** The answers of the limiters this request meets: the token's rate, whether
    the global and the token's semaphore have a permit, whether the session
    tracker is full and has a slot for the token, and the first exhausted
    target.  Last the status of the handler's response. *)
Record Answers := {
  an_rate : string -> RateDecision;
  an_global : bool;
  an_token : string -> bool;
  an_at_capacity : bool;
  an_reserve : string -> bool;
  an_targets : gset string -> result unit string;
  an_status : N;
}.

(** The HTTP status the client sees. *)
Definition status {G} (an : Answers) (o : Outcome G) : N :=
  match o with
  | Unauthorized => 401
  | RateLimited _ => 429
  | Overloaded _ => 503
  | TooLargeBody => 413
  | BadRequest => 400
  | Forbidden _ => 403
  | Dispatched _ => an_status an
  end.

(** What a layer and all below it do with a request: the events in order, the
    table of interned tool names after it, and how the request ends. *)
Record Passage (G : Type) := {
  pa_events : list Event;
  pa_interned : gset string;
  pa_outcome : Outcome G;
}.
Arguments pa_events {G}. Arguments pa_interned {G}. Arguments pa_outcome {G}.

Section stack.
Context `{Externals}.
Context {G : Type}.

(** [body_limit_middleware]: a declared length over the limit is refused, and
    so is a stream that turns out longer when it is buffered. *)
Definition body_limit_exceeded (limit : N) (request : Request) : bool :=
  (0 <? limit)%N && match rq_content_length request with Some n => (limit <? n)%N | None => false end.

Definition buffer_body (limit : N) (request : Request) : result Body (Outcome G) :=
  if rq_stream_fails request then Err BadRequest
  else if (0 <? limit)%N && (limit <? body_len (rq_body request))%N then Err TooLargeBody
  else Ok (rq_body request).

(** A layer that answers itself, and one that does something first. *)
Definition answer (interned : gset string) (o : Outcome G) : Passage G :=
  {| pa_events := []; pa_interned := interned; pa_outcome := o |}.

Definition layer (events : list Event) (rest : Passage G) : Passage G :=
  {| pa_events := events ++ pa_events rest; pa_interned := pa_interned rest;
     pa_outcome := pa_outcome rest |}.

Definition target_layer (b : BearerBoundary) (an : Answers) (interned : gset string)
  (request : Request) (body : Body) (caller : CallerCtx G) : Passage G :=
  if bb_concurrency b && (0 <? bb_max_per_target b)%N then
    let targets := if rq_post request then extract_targets body (bb_target_keys b) else ∅ in
    layer [ChargeTargets targets]
      match an_targets an targets with
      | Err _ => answer interned (Overloaded "target_concurrency")
      | Ok _ => answer interned (Dispatched caller)
      end
  else answer interned (Dispatched caller).

(** The audited tool of a body, with the table that interned its name. *)
Definition audited_tool (interned : gset string) (body : Body) : option string * gset string :=
  match body_value body with
  | Some value => tool_name interned value
  | None => (None, interned)
  end.

(** The preflight over a buffered body, and everything behind it. *)
Definition judge (b : BearerBoundary) (an : Answers) (interned : gset string)
  (request : Request) (body : Body) (caller : CallerCtx G) : Passage G :=
  let '(audited, interned) := audited_tool interned body in
  let audit e := option_list (e <$> audited) in
  match run_preflight (bb_preflight b) body caller with
  | Err reason => layer (audit (fun tool => AuditPreflight tool false))
                    (answer interned (Forbidden reason))
  | Ok _ =>
      let rest := target_layer b an interned request body caller in
      let code := status an (pa_outcome rest) in
      {| pa_events := audit (fun tool => AuditPreflight tool true) ++ pa_events rest
           ++ (if (400 <=? code)%N && (code <=? 599)%N
               then audit (fun tool => AuditRefused tool code) else []);
         pa_interned := pa_interned rest; pa_outcome := pa_outcome rest |}
  end.

Definition preflight_layer (b : BearerBoundary) (an : Answers) (interned : gset string)
  (request : Request) (caller : CallerCtx G) : Passage G :=
  match buffer_body (bb_body_limit b) request with
  | Err o => answer interned o
  | Ok body => judge b an interned request body caller
  end.

Definition body_limit_layer (b : BearerBoundary) (an : Answers) (interned : gset string)
  (request : Request) (caller : CallerCtx G) : Passage G :=
  if body_limit_exceeded (bb_body_limit b) request then answer interned TooLargeBody
  else preflight_layer b an interned request caller.

(** One limit that is enforced only if configured. *)
Definition limited (on : bool) (event : Event) (available : bool) (limit : string)
  (interned : gset string) (rest : Passage G) : Passage G :=
  if on then layer [event] (if available then rest else answer interned (Overloaded limit))
  else rest.

Definition token_concurrency_layer (b : BearerBoundary) (an : Answers) (interned : gset string)
  (request : Request) (caller : CallerCtx G) : Passage G :=
  let token := cc_token_name caller in
  let session := bb_sessions b && is_session_creating request in
  let rest := body_limit_layer b an interned request caller in
  if bb_concurrency b then
    limited (0 <? bb_max_global b)%N ChargeGlobal (an_global an) "global_concurrency" interned
      (limited (0 <? bb_max_per_token b)%N (ChargeToken token) (an_token an token)
         "token_concurrency" interned
         (if session && an_at_capacity an then answer interned (Overloaded "session_cap")
          else limited session (ChargeSession token) (an_reserve an token) "token_session_cap"
                 interned rest))
  else rest.

Definition token_rate_layer (b : BearerBoundary) (an : Answers) (interned : gset string)
  (request : Request) (caller : CallerCtx G) : Passage G :=
  if bb_token_rate_enabled b then
    layer [ChargeTokenRate (cc_token_name caller)]
      match an_rate an (cc_token_name caller) with
      | Limited n => answer interned (RateLimited n)
      | Allowed => token_concurrency_layer b an interned request caller
      end
  else token_concurrency_layer b an interned request caller.

(** [bearer_auth_middleware] around the rest; [authenticate] is the lookup the
    consuming server supplies.  What clients assert about themselves, which
    the preflight layer copies into the caller and the audit events, is left
    out: no check reads it. *)
Definition apply_bearer_boundary (b : BearerBoundary) (authenticate : string -> option (CallerCtx G))
  (an : Answers) (interned : gset string) (request : Request) : Passage G :=
  match bearer_candidate request (bb_syntax b) with
  | Err _ => answer interned Unauthorized
  | Ok candidate =>
      match authenticate candidate with
      | None => answer interned Unauthorized
      | Some caller => token_rate_layer b an interned request caller
      end
  end.

End stack.

(** ** What passes the preflight *)

(** A call names a target: under a configured field, as a string or in an
    array. *)
Definition under_field (value : json) (t : string) : Prop :=
  value = JString t \/ exists l, value = JArray l /\ JString t ∈ l.

Definition addresses (names : list string) (v : json) (t : string) : Prop :=
  exists key params args value, key ∈ names /\ json_get "params" v = Some params /\
    json_get "arguments" params = Some args /\ json_get key args = Some value /\ under_field value t.

Definition denies_malformed (p : ToolScopePreflight) : Prop :=
  Forall (fun f => tf_malformed f = DenyTarget) (tp_target_fields p).

Lemma in_scope_under_field value f devices t :
  tf_malformed f = DenyTarget -> target_value_in_scope value f devices = true ->
  under_field value t -> allows devices t = true.
Proof.
  unfold target_value_in_scope. intros -> Hv Hu. rewrite orb_false_r in Hv.
  destruct (tf_shape f); destruct Hu as [->|(l&->&Hin)]; simpl in Hv; try done.
  apply andb_true_iff in Hv as [_ Hall]. rewrite forallb_forall in Hall.
  specialize (Hall (JString t)). simpl in Hall. apply Hall. by apply list_elem_of_In.
Qed.

(** The tool and every target of an element that is let through. *)
Lemma within_scope {G} p v (c : CallerCtx G) tool :
  request_exceeds_scope p v c = false -> called_tool v = Some tool ->
  allows_tool (cc_tools c) tool (tp_write_tools p) = true /\
  (denies_malformed p -> forall t, addresses (tf_name <$> tp_target_fields p) v t ->
     allows (cc_devices c) t = true).
Proof.
  unfold request_exceeds_scope, called_tool. case_bool_decide as Hm; [|done]. cbn [negb].
  destruct (json_get "params" v) as [params|] eqn:Ep; [|done]. cbn [mbind option_bind].
  destruct (json_get "name" params ≫= json_as_str) as [tool'|] eqn:En; [|done].
  intros Hx [= ->]. destruct (allows_tool _ _ _) eqn:Et; [|done]. cbn [negb] in Hx. split; [done|].
  intros Hd t (key&params'&args&value&Hk&Hp&Ha&Hv&Hu). rewrite Ep in Hp. simplify_eq. rewrite Ha in Hx.
  destruct args as [| | | | |al]; try done. cbn [json_as_object] in Hx.
  apply list_elem_of_fmap in Hk as (f&->&Hf). rewrite any_false in Hx. specialize (Hx f Hf).
  rewrite Hv in Hx. apply negb_false_iff in Hx.
  eapply in_scope_under_field; [|done..]. by eapply Forall_forall in Hd.
Qed.

Lemma preflight_check_Ok {G} p body (c : CallerCtx G) value v :
  preflight_check p body c = Ok tt -> body_value body = Some value ->
  (body_len body = 0%N -> body_value body = None) -> v ∈ elements value ->
  request_exceeds_scope p v c = false.
Proof.
  unfold preflight_check. intros Hc Hv Hempty Hin. rewrite Hv in Hc, Hempty.
  destruct (N.eqb_spec (body_len body) 0) as [E|_]; [by specialize (Hempty E)|].
  destruct value; simpl in Hin;
    try (apply list_elem_of_singleton in Hin as ->; by destruct (request_exceeds_scope _ _ _)).
  destruct (any _ _) eqn:Ea; [done|]. rewrite any_false in Ea. by apply Ea.
Qed.

(** ** What is charged *)

Lemma elem_of_field_targets value targets t :
  t ∈ collect_field_targets value targets <-> t ∈ targets \/ under_field value t.
Proof.
  unfold under_field. destruct value as [| | |s|l|l]; simpl.
  1-3, 6: split; [by left|]; intros [?|[?|(?&?&_)]]; done.
  - rewrite elem_of_union, elem_of_singleton. split.
    + intros [->|?]; auto.
    + intros [?|[[= ->]|(?&?&_)]]; auto. done.
  - rewrite elem_of_union, elem_of_list_to_set, list_elem_of_omap. split.
    + intros [(x&Hx&Hs)|?]; [|by left]. right. right. exists l. split; [done|].
      by destruct x; simplify_eq/=.
    + intros [?|[?|(l'&[= <-]&Hin)]]; [by right|done|left]. by exists (JString t).
Qed.

Lemma elem_of_request_targets v keys targets t :
  t ∈ collect_request_targets v keys targets ->
  t ∈ targets \/ (json_get "method" v ≫= json_as_str = Some "tools/call" /\ addresses keys v t).
Proof.
  unfold collect_request_targets. destruct (json_as_object v); [|auto].
  case_bool_decide as Hm; [|auto]. cbn [negb].
  destruct (json_get "params" v) as [[| | | | |params]|] eqn:Ep; try (by auto). cbn [mbind option_bind json_as_object].
  destruct (json_get "arguments" (JObject params)) as [[| | | | |args]|] eqn:Ea; try (by auto).
  cbn [mbind option_bind json_as_object].
  assert (forall ks ts, (forall k, k ∈ ks -> k ∈ keys) ->
    t ∈ foldl (fun targets key => match json_get key (JObject args) with
               | Some value => collect_field_targets value targets | None => targets end) ts ks ->
    t ∈ ts \/ addresses keys v t) as Hfold.
  { induction ks as [|k ks IH]; intros ts Hks; simpl; [auto|]. intros Hin%IH; [|set_solver].
    destruct Hin as [Hin|?]; [|by right]. destruct (assoc k args) as [value|] eqn:Ev; [|by left].
    apply elem_of_field_targets in Hin as [?|Hu]; [by left|right].
    exists k, (JObject params), (JObject args), value. split_and!; try done. set_solver. }
  intros Hin%Hfold; [|done]. naive_solver.
Qed.

Lemma elem_of_extract_targets body keys t :
  t ∈ extract_targets body keys ->
  exists value v, body_value body = Some value /\ v ∈ elements value /\
    json_get "method" v ≫= json_as_str = Some "tools/call" /\ addresses keys v t.
Proof.
  unfold extract_targets. destruct (body_value body) as [value|]; [|set_solver].
  assert (forall vs ts, t ∈ foldl (fun targets request => collect_request_targets request keys targets) ts vs ->
    t ∈ ts \/ exists v, v ∈ vs /\ json_get "method" v ≫= json_as_str = Some "tools/call" /\ addresses keys v t) as Hfold.
  { induction vs as [|v vs IH]; intros ts; simpl; [auto|]. intros [Hin|(v'&?&?)]%IH.
    - apply elem_of_request_targets in Hin as [?|?]; [by left|right]. exists v. split; [|done].
      apply list_elem_of_here.
    - right. exists v'. split; [|done]. by apply elem_of_cons; right. }
  intros [?|(v&Hv&Hm&Ha)]%Hfold; [set_solver|]. eauto 10.
Qed.

(** ** The stack as a whole *)

Section stack_facts.
Context {G : Type}.
Implicit Types c : CallerCtx G.

Implicit Types o : Outcome G.

(** Refused before anyone looked at what the body asks for. *)
Definition early o : Prop :=
  match o with Unauthorized | Forbidden _ | Dispatched _ => False | _ => True end.

Definition own_charge c (x : Event) : Prop :=
  match x with
  | ChargeGlobal => True
  | ChargeTokenRate token | ChargeToken token | ChargeSession token => token = cc_token_name c
  | _ => False
  end.

(** What the layers below authentication do: charge the caller's own token,
    then refuse early or judge the body. *)
Definition well_ordered b an i rq c (out : Passage G) : Prop :=
  exists pre, Forall (own_charge c) pre /\
    ((exists o, early o /\ out = layer pre (answer i o)) \/
     out = layer pre (judge b an i rq (rq_body rq) c)).

Lemma ordered_answer b an i rq c o : early o -> well_ordered b an i rq c (answer i o).
Proof. intros Ho. exists []. split; [constructor|left]. by exists o. Qed.

Lemma ordered_layer b an i rq c x out :
  own_charge c x -> well_ordered b an i rq c out -> well_ordered b an i rq c (layer [x] out).
Proof.
  intros Hx (pre&Hp&Ho). exists (x :: pre). split; [by constructor|].
  destruct Ho as [(o&Ho&->)| ->]; [left|by right]. by exists o.
Qed.

Lemma body_limit_ordered b an i rq c : well_ordered b an i rq c (body_limit_layer b an i rq c).
Proof.
  unfold body_limit_layer, preflight_layer, buffer_body.
  destruct (body_limit_exceeded _ _); [by apply ordered_answer|].
  destruct (rq_stream_fails rq); [by apply ordered_answer|].
  destruct (_ && _); [by apply ordered_answer|]. exists []. split; [constructor|right].
  by destruct (judge _ _ _ _ _ _).
Qed.

Lemma limited_ordered b an i rq c on x available limit rest :
  own_charge c x -> well_ordered b an i rq c rest ->
  well_ordered b an i rq c (limited on x available limit i rest).
Proof.
  intros Hx Hr. unfold limited. destruct on; [|done]. apply ordered_layer; [done|].
  destruct available; [done|by apply ordered_answer].
Qed.

Lemma token_concurrency_ordered b an i rq c :
  well_ordered b an i rq c (token_concurrency_layer b an i rq c).
Proof.
  unfold token_concurrency_layer. destruct (bb_concurrency b); [|apply body_limit_ordered].
  do 2 (apply limited_ordered; [done|]). destruct (_ && _); [by apply ordered_answer|].
  apply limited_ordered; [done|apply body_limit_ordered].
Qed.

Lemma token_rate_ordered b an i rq c : well_ordered b an i rq c (token_rate_layer b an i rq c).
Proof.
  unfold token_rate_layer. destruct (bb_token_rate_enabled b); [|apply token_concurrency_ordered].
  apply ordered_layer; [done|].
  destruct (an_rate an _); [apply token_concurrency_ordered|by apply ordered_answer].
Qed.

(** A request either has no caller, and nothing happens, or the stack is well
    ordered for the one it has. *)
Lemma boundary_cases b authenticate an i rq :
  apply_bearer_boundary b authenticate an i rq = answer i Unauthorized \/
  exists candidate c, bearer_candidate rq (bb_syntax b) = Ok candidate /\
    authenticate candidate = Some c /\
    well_ordered b an i rq c (apply_bearer_boundary b authenticate an i rq).
Proof.
  unfold apply_bearer_boundary. destruct (bearer_candidate _ _) as [candidate|]; [|by left].
  destruct (authenticate candidate) as [c|] eqn:Ea; [right|by left].
  exists candidate, c. split; [done|]. split; [done|]. apply token_rate_ordered.
Qed.

Lemma target_layer_inv b an i rq body c :
  let out := target_layer b an i rq body c in
  (pa_outcome out = Dispatched c \/ exists limit, pa_outcome out = Overloaded limit) /\
  pa_interned out = i /\
  (forall x, x ∈ pa_events out -> x = ChargeTargets (extract_targets body (bb_target_keys b))
                                  \/ x = ChargeTargets ∅).
Proof.
  unfold target_layer, layer, answer. destruct (_ && _); simpl;
    [|split_and!; [by left|done|by intros x ?%elem_of_nil]].
  destruct (rq_post rq); destruct (an_targets an _); simpl;
    (split_and!; [eauto|done|]; intros x ->%list_elem_of_singleton; auto).
Qed.

Lemma elem_of_option_list {A} (x : A) m : x ∈ option_list m <-> m = Some x.
Proof. destruct m; simpl; [rewrite list_elem_of_singleton; naive_solver|set_solver]. Qed.

(** The two verdicts on a buffered body. *)
Lemma judge_cases b an i rq body c :
  let out := judge b an i rq body c in
  let name := (audited_tool i body).1 in
  pa_interned out = (audited_tool i body).2 /\
  ((exists reason, run_preflight (bb_preflight b) body c = Err reason /\
      pa_outcome out = Forbidden reason /\
      forall x, x ∈ pa_events out <-> exists tool, name = Some tool /\ x = AuditPreflight tool false) \/
   (run_preflight (bb_preflight b) body c = Ok tt /\
    (pa_outcome out = Dispatched c \/ exists limit, pa_outcome out = Overloaded limit) /\
    forall x, x ∈ pa_events out <->
      (exists tool, name = Some tool /\ x = AuditPreflight tool true) \/
      x ∈ pa_events (target_layer b an (audited_tool i body).2 rq body c) \/
      ((400 <= status an (pa_outcome out) <= 599)%N /\
       exists tool, name = Some tool /\ x = AuditRefused tool (status an (pa_outcome out))))).
Proof.
  unfold judge. destruct (audited_tool i body) as [name i']. cbn [fst snd].
  destruct (target_layer_inv b an i' rq body c) as (Ho&Hi&_).
  destruct (run_preflight (bb_preflight b) body c) as [[]|reason]; cbn [layer answer pa_interned pa_outcome pa_events].
  - split; [done|]. right. split; [done|]. split; [done|]. intros x.
    rewrite !elem_of_app, elem_of_option_list, fmap_Some.
    set (code := status an _). destruct (N.leb_spec 400 code), (N.leb_spec code 599); cbn [andb];
      rewrite ?elem_of_option_list, ?fmap_Some, ?elem_of_nil; naive_solver lia.
  - split; [done|]. left. exists reason. split; [done|]. split; [done|]. intros x.
    rewrite app_nil_r, elem_of_option_list, fmap_Some. done.
Qed.

(** Whatever is charged is charged to an authenticated caller: without one
    no budget is touched; rate, concurrency and sessions are charged to the
    caller's own token; and target permits are asked for only after the preflight, so, for
    bodies whose calls all name a tool and limiter keys that are preflight
    fields, only for targets in the caller's scope. *)
Theorem charges_follow_authorization b p authenticate an i rq x :
  x ∈ pa_events (apply_bearer_boundary b authenticate an i rq) ->
  bb_preflight b = Some p -> denies_malformed p ->
  (forall k, k ∈ bb_target_keys b -> k ∈ tf_name <$> tp_target_fields p) ->
  (body_len (rq_body rq) = 0%N -> body_value (rq_body rq) = None) ->
  (forall value v, body_value (rq_body rq) = Some value -> v ∈ elements value ->
     json_get "method" v ≫= json_as_str = Some "tools/call" -> is_Some (called_tool v)) ->
  exists candidate c, bearer_candidate rq (bb_syntax b) = Ok candidate /\
    authenticate candidate = Some c /\
    match x with
    | ChargeTokenRate token | ChargeToken token | ChargeSession token => token = cc_token_name c
    | ChargeTargets ts => forall t, t ∈ ts -> allows (cc_devices c) t = true
    | ChargeGlobal | AuditPreflight _ _ | AuditRefused _ _ => True
    end.
Proof.
  intros Hx Hp Hd Hkeys Hempty Hnamed.
  destruct (boundary_cases b authenticate an i rq) as [E|(candidate&c&Hc&Ha&pre&Hpre&Hout)];
    [rewrite E in Hx; by apply elem_of_nil in Hx|].
  exists candidate, c. split; [done|]. split; [done|].
  assert (x ∈ pre \/ x ∈ pa_events (judge b an i rq (rq_body rq) c)) as [Hin|Hin].
  { destruct Hout as [(o&_&E)|E]; rewrite E in Hx; apply elem_of_app in Hx as [?|Hx]; auto.
    by apply elem_of_nil in Hx. }
  { rewrite Forall_forall in Hpre. specialize (Hpre x Hin). by destruct x. }
  destruct (judge_cases b an i rq (rq_body rq) c) as [_ [(_&_&_&Hev)|(Hpf&_&Hev)]]; apply Hev in Hin;
    [by destruct Hin as (?&_&->)|]. destruct Hin as [(?&_&->)|[Hin|(_&?&_&->)]]; [done| |done].
  apply target_layer_inv in Hin as [-> | ->]; [|set_solver].
  intros t (value&v&Hv&Hin&Hm&key&params&args&val&Hk&Hrst)%elem_of_extract_targets.
  destruct (Hnamed _ _ Hv Hin Hm) as [tool Htool]. rewrite Hp in Hpf. simpl in Hpf.
  eapply (within_scope p v c tool); [by eapply preflight_check_Ok|done|done|].
  exists key, params, args, val. split; [by apply Hkeys|done].
Qed.

Lemma boundary_dispatched b authenticate an i rq c :
  pa_outcome (apply_bearer_boundary b authenticate an i rq) = Dispatched c ->
  exists candidate, bearer_candidate rq (bb_syntax b) = Ok candidate /\
    authenticate candidate = Some c /\ run_preflight (bb_preflight b) (rq_body rq) c = Ok tt.
Proof.
  destruct (boundary_cases b authenticate an i rq) as [->|(candidate&c'&Hc&Ha&pre&_&[(o&He&->)| ->])].
  - done.
  - cbn. by intros ->.
  - cbn [layer pa_outcome]. destruct (judge_cases b an i rq (rq_body rq) c') as [_ Hj].
    destruct Hj as [(reason&_&->&_)|(Hpf&[->|[? ->]]&_)]; try done. intros [= <-]. eauto.
Qed.

(** ** What is audited *)

Lemma tool_name_Some table value v tool :
  v ∈ elements value -> called_tool v = Some tool -> is_Some (tool_name table value).1.
Proof.
  intros Hin Ht. unfold tool_name. destruct (omap called_tool (elements value)) as [|x l] eqn:E.
  - assert (tool ∈ omap called_tool (elements value)) as Hn by (rewrite list_elem_of_omap; eauto).
    rewrite E in Hn. by apply elem_of_nil in Hn.
  - by destruct (intern_tool_into table x).
Qed.

Lemma intern_bounded table name :
  (N.of_nat (size table) <= MAX_INTERNED_TOOL_NAMES)%N ->
  (N.of_nat (size (intern_tool_into table name).2) <= MAX_INTERNED_TOOL_NAMES)%N.
Proof.
  intros Hs. unfold intern_tool_into. destruct (_ || _ || _); [done|]. case_bool_decide as Hin; [done|].
  destruct (N.leb_spec MAX_INTERNED_TOOL_NAMES (N.of_nat (size table))); [done|]. cbn [snd].
  rewrite size_union, size_singleton; [lia|set_solver].
Qed.

Lemma audited_tool_bounded table body :
  (N.of_nat (size table) <= MAX_INTERNED_TOOL_NAMES)%N ->
  (N.of_nat (size (audited_tool table body).2) <= MAX_INTERNED_TOOL_NAMES)%N.
Proof.
  intros Hs. unfold audited_tool, tool_name. destruct (body_value body) as [value|]; [|done].
  destruct (omap _ _) as [|x l]; [done|]. pose proof (intern_bounded table x Hs) as Hb.
  by destruct (intern_tool_into table x).
Qed.

(** Seen from the audit trail: nothing, or a judged body. *)
Definition is_audit (x : Event) : Prop :=
  match x with AuditPreflight _ _ | AuditRefused _ _ => True | _ => False end.

Lemma boundary_audit b authenticate an i rq :
  let out := apply_bearer_boundary b authenticate an i rq in
  ((early (pa_outcome out) \/ pa_outcome out = Unauthorized) /\ pa_interned out = i /\
   forall x, is_audit x -> x ∉ pa_events out) \/
  exists c, let j := judge b an i rq (rq_body rq) c in
    pa_outcome out = pa_outcome j /\ pa_interned out = pa_interned j /\
    forall x, is_audit x -> x ∈ pa_events out <-> x ∈ pa_events j.
Proof.
  assert (forall c pre x, Forall (own_charge c) pre -> is_audit x -> x ∉ pre) as Hown.
  { intros c pre x Hpre Hx Hin. rewrite Forall_forall in Hpre. specialize (Hpre x Hin). by destruct x. }
  destruct (boundary_cases b authenticate an i rq) as [->|(candidate&c&_&_&pre&Hpre&[(o&He&->)| ->])].
  - left. split_and!; [by right|done|]. intros x _. apply not_elem_of_nil.
  - left. split_and!; [by left|done|]. intros x Hx. cbn. rewrite app_nil_r. by eapply Hown.
  - right. exists c. split_and!; [done..|]. intros x Hx. cbn [layer pa_events]. rewrite elem_of_app.
    split; [|by right]. intros [Hin|?]; [|done]. by destruct (Hown c pre x Hpre Hx).
Qed.

(** An event of the target layer is no audit event. *)
Lemma target_layer_audit b an i rq body c x :
  is_audit x -> x ∉ pa_events (target_layer b an i rq body c).
Proof.
  intros Hx Hin. destruct (target_layer_inv b an i rq body c) as (_&_&Ht).
  by destruct (Ht x Hin) as [-> | ->].
Qed.

(** The audit events of a judged body. *)
Lemma judge_audit b an i rq body c :
  let j := judge b an i rq body c in
  let name := (audited_tool i body).1 in
  (forall tool allowed, AuditPreflight tool allowed ∈ pa_events j <->
     name = Some tool /\ (allowed = false <-> exists reason, pa_outcome j = Forbidden reason)) /\
  (forall tool code, AuditRefused tool code ∈ pa_events j <->
     AuditPreflight tool true ∈ pa_events j /\ code = status an (pa_outcome j) /\ (400 <= code <= 599)%N).
Proof.
  intros j name. destruct (judge_cases b an i rq body c) as [_ Hj]. fold j name in Hj.
  assert (forall x, is_audit x -> x ∉ pa_events (target_layer b an (audited_tool i body).2 rq body c)) as Ht
    by (intros; by apply target_layer_audit).
  destruct Hj as [(reason&_&Ho&Hev)|(_&Ho&Hev)]; split; intros tool v; rewrite !Hev.
  - rewrite Ho. destruct v; naive_solver.
  - naive_solver.
  - specialize (Ht (AuditPreflight tool v) I).
    destruct v; (destruct Ho as [Ho|[? Ho]]; rewrite Ho; naive_solver).
  - pose proof (Ht (AuditRefused tool v) I). pose proof (Ht (AuditPreflight tool true) I). naive_solver.
Qed.

(** The audit trail tells what happened to a request: a preflight event
    says denied exactly when the request was answered 403; a body with a call
    that is judged leaves a preflight event, denied if it was refused; a call
    that was let through and then refused has a second event with the status
    the client saw, and no other request has one; and callers cannot grow the
    table of tool names past its bound. *)
Theorem audit_tells_the_outcome b authenticate an i rq :
  let out := apply_bearer_boundary b authenticate an i rq in
  (forall tool allowed, AuditPreflight tool allowed ∈ pa_events out ->
     (allowed = false <-> exists reason, pa_outcome out = Forbidden reason)) /\
  (forall value v tool, body_value (rq_body rq) = Some value -> v ∈ elements value ->
     called_tool v = Some tool ->
     (forall c, pa_outcome out = Dispatched c ->
        exists name, AuditPreflight name true ∈ pa_events out) /\
     (forall reason, pa_outcome out = Forbidden reason ->
        exists name, AuditPreflight name false ∈ pa_events out)) /\
  (forall name, AuditPreflight name true ∈ pa_events out ->
     (400 <= status an (pa_outcome out) <= 599)%N ->
     AuditRefused name (status an (pa_outcome out)) ∈ pa_events out) /\
  (forall name code, AuditRefused name code ∈ pa_events out ->
     code = status an (pa_outcome out) /\ (400 <= code <= 599)%N /\
     AuditPreflight name true ∈ pa_events out) /\
  ((N.of_nat (size i) <= MAX_INTERNED_TOOL_NAMES)%N ->
   (N.of_nat (size (pa_interned out)) <= MAX_INTERNED_TOOL_NAMES)%N).
Proof.
  intros out. destruct (boundary_audit b authenticate an i rq) as [(Ho&Hi&Hev)|(c&Ho&Hi&Hev)]; fold out in Ho, Hi, Hev.
  - split_and!.
    + intros tool allowed Hin. exfalso. by eapply Hev, Hin.
    + intros value v tool _ _ _. split; intros y E; rewrite E in Ho; by destruct Ho.
    + intros name Hin. exfalso. by eapply Hev, Hin.
    + intros name code Hin. exfalso. by eapply Hev, Hin.
    + by rewrite Hi.
  - destruct (judge_audit b an i rq (rq_body rq) c) as [Hp Hr].
    destruct (judge_cases b an i rq (rq_body rq) c) as [Hint _]. rewrite Ho. split_and!.
    + intros tool allowed Hin%Hev; [|done]. by apply Hp in Hin as [_ ?].
    + intros value v tool Hv Hin Ht. destruct (tool_name_Some i value v tool Hin Ht) as [name Hname].
      assert ((audited_tool i (rq_body rq)).1 = Some name) as Ha by (unfold audited_tool; by rewrite Hv).
      split; intros y E; exists name; (apply Hev; [done|]); apply Hp; (split; [done|]); rewrite E;
        naive_solver.
    + intros name Hin%Hev Hs; [|done]. by apply Hev, Hr.
    + intros name code Hin%Hev; [|done]. apply Hr in Hin as (?&?&?).
      split; [done|]. split; [done|]. by apply Hev.
    + rewrite Hi, Hint. apply audited_tool_bounded.
Qed.

End stack_facts.

(** ** Behind a token store *)

Section store_boundary.
Context `{Externals} {G : Type}.

(** The lookup a server with a token store supplies. *)
Definition store_authenticator (store : list (TokenEntry G)) (now : Z) (request_id : string)
  (candidate : string) : option (CallerCtx G) :=
  (fun e => caller_of e request_id) <$> authenticate_at store candidate now.


End store_boundary.
