(* ===== verification/TargetLimiter.v ===== *)
(** * Per-target concurrency (crates/mecmcp-transport/src/target.rs)

    [TargetLimiter] keeps weak references to one semaphore per target: a
    semaphore lives as long as a request holds one of its permits or is about
    to take one.  Resolving the semaphores runs under the registry's lock;
    taking the permits does not, so requests interleave between any two of
    them. *)

From S2P Require Import Prelude.

Open Scope list_scope.

(** A strong reference to the semaphore of a target. *)
Abbreviation arc := (string * nat)%type (only parsing).

(** A request on its way: the semaphores it resolved and has not yet asked,
    and the permits it holds. *)
Record Acquire := { todo : list arc; got : list arc }.

Record Limiter := {
  registry : gmap string nat;      (** [HashMap<String, Weak<Semaphore>>] *)
  permits : gmap nat N;            (** permits available, by semaphore *)
  next : nat;                      (** the next allocation *)
  requests : list Acquire;
}.

Definition refs (a : Acquire) : list arc := todo a ++ got a.

(** [strong_count() > 0]. *)
Definition alive (l : Limiter) (s : nat) : bool :=
  any (fun a => any (fun r => bool_decide (r.2 = s)) (refs a)) (requests l).

Section limiter.
Variable max : N.

(** [self.max.max(1)]. *)
Definition capacity : N := N.max max 1.

(** One target of [resolve_semaphores]: upgrade, or a new semaphore. *)
Definition resolve_one (st : gmap string nat * gmap nat N * nat) (target : string) :
  gmap string nat * gmap nat N * nat * arc :=
  let '(reg, sems, n) := st in
  match reg !! target with
  | Some s => (reg, sems, n, (target, s))
  | None => (<[target := n]> reg, <[n := capacity]> sems, S n, (target, n))
  end.

Fixpoint resolve_all (st : gmap string nat * gmap nat N * nat) (targets : list string) :
  gmap string nat * gmap nat N * nat * list arc :=
  match targets with
  | [] => (st, [])
  | target :: targets =>
      let '(st, r) := resolve_one st target in
      let '(st, rs) := resolve_all st targets in (st, r :: rs)
  end.

(** [resolve_semaphores], under the lock: dead entries are dropped first. *)
Definition resolve_semaphores (l : Limiter) (targets : list string) : Limiter :=
  let reg := base.filter (fun kv : string * nat => alive l kv.2 = true) (registry l) in
  let '(reg, sems, n, rs) := resolve_all (reg, permits l, next l) targets in
  {| registry := reg; permits := sems; next := n;
     requests := {| todo := rs; got := [] |} :: requests l |}.

(** Dropping a permit gives it back. *)
Definition give_back (sems : gmap nat N) (rs : list arc) : gmap nat N :=
  foldl (fun sems r => alter (fun n => n + 1)%N r.2 sems) sems rs.

(** One [try_acquire_owned] of a request; on failure everything it took is
    dropped.  [None] is the end of the request. *)
Definition acquire_one (a : Acquire) (sems : gmap nat N) : option Acquire * gmap nat N :=
  match todo a with
  | [] => (Some a, sems)
  | (t, s) :: rest =>
      match sems !! s with
      | Some n =>
          if (0 <? n)%N
          then (Some {| todo := rest; got := (t, s) :: got a |}, <[s := (n - 1)%N]> sems)
          else (None, give_back sems (got a))
      | None => (None, give_back sems (got a))
      end
  end.

Inductive limiter_step (l : Limiter) : Limiter -> Prop :=
| limit_resolve targets :
    (* [extract_targets] lists each target once *)
    NoDup targets -> limiter_step l (resolve_semaphores l targets)
| limit_acquire before a after a' sems :
    requests l = before ++ a :: after -> acquire_one a (permits l) = (a', sems) ->
    limiter_step l {| registry := registry l; permits := sems; next := next l;
                      requests := before ++ option_list a' ++ after |}
| limit_release before a after :
    (* the response body ended, or the request was dropped *)
    requests l = before ++ a :: after ->
    limiter_step l {| registry := registry l; permits := give_back (permits l) (got a); next := next l;
                      requests := before ++ after |}.

Definition limiter_start : Limiter := {| registry := ∅; permits := ∅; next := 0; requests := [] |}.

(** ** Counting permits *)

Definition count_sem (s : nat) (rs : list arc) : N :=
  N.of_nat (length (List.filter (fun r => bool_decide (r.2 = s)) rs)).

Definition held_sem (s : nat) (l : list Acquire) : N := count_sem s (l ≫= got).

(** Permits held for a target, over all requests. *)
Definition held_target (t : string) (l : list Acquire) : N :=
  N.of_nat (length (List.filter (fun r => bool_decide (r.1 = t)) (l ≫= got))).

Lemma count_sem_cons s r rs :
  count_sem s (r :: rs) = ((if decide (r.2 = s) then 1 else 0) + count_sem s rs)%N.
Proof.
  unfold count_sem. simpl. destruct (decide (r.2 = s));
    [rewrite bool_decide_eq_true_2 by done|rewrite bool_decide_eq_false_2 by done]; simpl; lia.
Qed.

Lemma count_sem_app s rs rs' : count_sem s (rs ++ rs') = (count_sem s rs + count_sem s rs')%N.
Proof. unfold count_sem. rewrite List.filter_app, length_app. lia. Qed.

Lemma held_sem_app s l l' : held_sem s (l ++ l') = (held_sem s l + held_sem s l')%N.
Proof. unfold held_sem. by rewrite bind_app, count_sem_app. Qed.

Lemma held_sem_cons s a l : held_sem s (a :: l) = (count_sem s (got a) + held_sem s l)%N.
Proof. unfold held_sem. simpl. by rewrite count_sem_app. Qed.

Lemma give_back_lookup sems rs s :
  give_back sems rs !! s = (fun n => n + count_sem s rs)%N <$> sems !! s.
Proof.
  unfold give_back. revert sems. induction rs as [|r rs IH]; intros sems.
  - simpl. destruct (sems !! s); simpl; [|done]. f_equal. unfold count_sem. simpl. lia.
  - cbn [foldl]. rewrite IH, count_sem_cons. destruct (decide (r.2 = s)) as [->|Hne].
    + rewrite lookup_alter_eq. destruct (sems !! s); simpl; [|done]. f_equal. lia.
    + rewrite lookup_alter_ne by done. destruct (sems !! s); simpl; [|done]. by rewrite N.add_0_l.
Qed.

(** ** The invariant *)

Record limiter_inv (l : Limiter) : Prop := {
  li_refs : forall a t s, a ∈ requests l -> (t, s) ∈ refs a -> registry l !! t = Some s;
  li_inj : forall t t' s, registry l !! t = Some s -> registry l !! t' = Some s -> t = t';
  li_next : forall t s, registry l !! t = Some s -> s < next l;
  li_live : forall t s, registry l !! t = Some s -> is_Some (permits l !! s);
  li_sound : forall s n, permits l !! s = Some n -> (n + held_sem s (requests l) = capacity)%N;
  li_old : forall s n, permits l !! s = Some n -> s < next l;
}.

Lemma limiter_start_inv : limiter_inv limiter_start.
Proof. by split; simpl; intros; try set_solver. Qed.

Lemma alive_ref l a t s : a ∈ requests l -> (t, s) ∈ refs a -> alive l s = true.
Proof.
  intros Ha Hr. unfold alive. apply any_true. exists a. split; [done|].
  apply any_true. exists (t, s). split; [done|]. by apply bool_decide_eq_true.
Qed.

(** The registry part of the invariant, with [h] permits held by semaphore. *)
Record registry_inv (h : nat -> N) (reg : gmap string nat) (sems : gmap nat N) (n : nat) : Prop := {
  ri_inj : forall t t' s, reg !! t = Some s -> reg !! t' = Some s -> t = t';
  ri_next : forall t s, reg !! t = Some s -> s < n;
  ri_live : forall t s, reg !! t = Some s -> is_Some (sems !! s);
  ri_sound : forall s k, sems !! s = Some k -> (k + h s = capacity)%N;
  ri_old : forall s k, sems !! s = Some k -> s < n;
  ri_new : forall s, n <= s -> h s = 0%N;
}.

Lemma resolve_one_inv h reg sems n t reg' sems' n' r :
  registry_inv h reg sems n -> resolve_one (reg, sems, n) t = (reg', sems', n', r) ->
  registry_inv h reg' sems' n' /\ reg ⊆ reg' /\ reg' !! r.1 = Some r.2.
Proof.
  intros [] Hr. simpl in Hr. destruct (reg !! t) as [s|] eqn:Et; simplify_eq; [by repeat split|].
  split; [|split; [by apply insert_subseteq|apply lookup_insert_eq]].
  split.
  - intros t1 t2 s. rewrite !lookup_insert_Some.
    intros [[<- <-]|[? H1]] [[<- H2]|[? H2]]; try done; [|subst|eauto].
    + apply ri_next0 in H2. lia.
    + apply ri_next0 in H1. lia.
  - intros t1 s. rewrite lookup_insert_Some. intros [[_ <-]|[_ ?%ri_next0]]; lia.
  - intros t1 s. rewrite lookup_insert_Some. intros [[_ <-]|[_ ?]].
    + rewrite lookup_insert_eq. eauto.
    + rewrite lookup_insert_is_Some. destruct (decide (n = s)); eauto.
  - intros s k. rewrite lookup_insert_Some. intros [[<- <-]|[_ ?]]; [|eauto].
    rewrite ri_new0 by lia. lia.
  - intros s k. rewrite lookup_insert_Some. intros [[<- _]|[_ ?%ri_old0]]; lia.
  - intros s Hs. apply ri_new0. lia.
Qed.

Lemma resolve_all_inv h ts : forall reg sems n reg' sems' n' rs,
  registry_inv h reg sems n -> resolve_all (reg, sems, n) ts = (reg', sems', n', rs) ->
  registry_inv h reg' sems' n' /\ reg ⊆ reg' /\ forall t s, (t, s) ∈ rs -> reg' !! t = Some s.
Proof.
  induction ts as [|t ts IH]; intros reg sems n reg' sems' n' rs Hi Hr; cbn [resolve_all] in Hr.
  { simplify_eq. split; [done|]. split; [done|]. by intros t s ?%elem_of_nil. }
  destruct (resolve_one (reg, sems, n) t) as [[[reg1 sems1] n1] r] eqn:E1.
  destruct (resolve_all (reg1, sems1, n1) ts) as [[[reg2 sems2] n2] rs'] eqn:E2. simplify_eq.
  destruct (resolve_one_inv _ _ _ _ _ _ _ _ _ Hi E1) as (Hi1&Hs1&Hr1).
  destruct (IH _ _ _ _ _ _ _ Hi1 E2) as (Hi2&Hs2&Hr2).
  split; [done|]. split; [by etrans|]. intros t' s [Heq|?]%elem_of_cons; [|auto].
  rewrite <-Heq in Hr1. simpl in Hr1. by eapply lookup_weaken.
Qed.

Lemma li_registry l : limiter_inv l ->
  registry_inv (fun s => held_sem s (requests l)) (registry l) (permits l) (next l).
Proof.
  intros []. split; try done. intros s Hs. unfold held_sem, count_sem.
  destruct (List.filter _ _) as [|[t s'] rs] eqn:E; [done|]. exfalso.
  assert ((t, s') ∈ List.filter (fun r : arc => bool_decide (r.2 = s)) (requests l ≫= got)) as Hin
    by (rewrite E; apply list_elem_of_here).
  apply list_elem_of_In, List.filter_In in Hin as [Hin Hd%bool_decide_eq_true].
  apply list_elem_of_In, list_elem_of_bind in Hin as (a&Hg&Ha). simpl in Hd. subst s'.
  assert (registry l !! t = Some s) as Hreg%li_next0; [|lia].
  apply (li_refs0 a); [done|]. unfold refs. set_solver.
Qed.

Lemma resolve_inv l targets : limiter_inv l -> limiter_inv (resolve_semaphores l targets).
Proof.
  intros Hl. pose proof (li_registry l Hl) as Hreg. unfold resolve_semaphores.
  set (reg := base.filter (fun kv : string * nat => alive l kv.2 = true) (registry l)).
  assert (registry_inv (fun s => held_sem s (requests l)) reg (permits l) (next l)) as Hreg'.
  { destruct Hreg. assert (forall t s, reg !! t = Some s -> registry l !! t = Some s) as Hsub.
    { intros t s. unfold reg. by rewrite map_lookup_filter_Some; intros []. }
    split; eauto. }
  destruct (resolve_all (reg, permits l, next l) targets) as [[[reg' sems'] n'] rs] eqn:E.
  destruct (resolve_all_inv _ _ _ _ _ _ _ _ _ Hreg' E) as ([]&Hsub&Hrs).
  split; simpl; try done.
  intros a t s [->|Ha]%elem_of_cons Hin.
  - unfold refs in Hin. simpl in Hin. rewrite app_nil_r in Hin. auto.
  - eapply lookup_weaken; [|exact Hsub]. unfold reg. apply map_lookup_filter_Some.
    split; [by eapply li_refs|]. by eapply alive_ref.
Qed.

(** Removing a request and giving back what it held. *)
Lemma release_inv l before a after :
  limiter_inv l -> requests l = before ++ a :: after ->
  limiter_inv {| registry := registry l; permits := give_back (permits l) (got a); next := next l;
                 requests := before ++ after |}.
Proof.
  intros [] Hreq. split; simpl; try done.
  - intros a' t s Ha. apply li_refs0. rewrite Hreq. set_solver.
  - intros t s Ht. rewrite give_back_lookup, fmap_is_Some. eauto.
  - intros s n. rewrite give_back_lookup, fmap_Some. intros (k&Hk&->).
    apply li_sound0 in Hk. rewrite Hreq, held_sem_app, held_sem_cons in Hk. rewrite held_sem_app. lia.
  - intros s n. rewrite give_back_lookup, fmap_Some. intros (k&Hk&->). eauto.
Qed.

Lemma acquire_inv l before a after a' sems :
  limiter_inv l -> requests l = before ++ a :: after -> acquire_one a (permits l) = (a', sems) ->
  limiter_inv {| registry := registry l; permits := sems; next := next l;
                 requests := before ++ option_list a' ++ after |}.
Proof.
  intros Hl Hreq. unfold acquire_one. destruct (todo a) as [|[t s] rest] eqn:Et.
  { intros [= <- <-]. simpl. rewrite <-Hreq. by destruct Hl. }
  destruct (permits l !! s) as [n|] eqn:Es; [|intros [= <- <-]; by apply release_inv].
  destruct (N.ltb_spec 0 n) as [Hn|]; [|intros [= <- <-]; by apply release_inv].
  intros [= <- <-]. destruct Hl. split; simpl; try done.
  - intros a' t' s' Ha Hin. assert (exists a0, a0 ∈ requests l /\ (t', s') ∈ refs a0) as (a0&?&?); [|eauto].
    rewrite Hreq. apply elem_of_app in Ha as [Ha|[->|Ha]%elem_of_cons].
    + exists a'. set_solver.
    + exists a. split; [set_solver|]. unfold refs in *. rewrite Et. simpl in *. set_solver.
    + exists a'. set_solver.
  - intros t' s' Ht. rewrite lookup_insert_is_Some. destruct (decide (s = s')); eauto.
  - intros s' k. rewrite held_sem_app, held_sem_cons. cbn [got].
    rewrite count_sem_cons, lookup_insert_Some. cbn [snd].
    assert (forall k, permits l !! s' = Some k ->
      k + (held_sem s' before + (count_sem s' (got a) + held_sem s' after)) = capacity)%N as Hold.
    { intros k' Hk'. apply li_sound0 in Hk'. by rewrite Hreq, held_sem_app, held_sem_cons in Hk'. }
    intros [[-> <-]|[Hne Hk]].
    + apply Hold in Es. rewrite decide_True by done. lia.
    + apply Hold in Hk. rewrite decide_False by done. lia.
  - intros s' k. rewrite lookup_insert_Some. intros [[<- _]|[_ ?]]; eauto.
Qed.

Lemma limiter_step_inv l l' : limiter_inv l -> limiter_step l l' -> limiter_inv l'.
Proof. intros Hl []; [by apply resolve_inv|by eapply acquire_inv|by apply release_inv]. Qed.

(** Permits of a target are permits of the one semaphore registered for it. *)
Lemma held_target_sem l t s :
  limiter_inv l -> registry l !! t = Some s -> held_target t (requests l) = held_sem s (requests l).
Proof.
  intros [] Ht. unfold held_target, held_sem, count_sem. do 2 f_equal.
  apply List.filter_ext_in. intros [t' s'] Hin. simpl. apply bool_decide_ext.
  apply list_elem_of_In, list_elem_of_bind in Hin as (a&Hg&Ha).
  assert (registry l !! t' = Some s') as Hreg by (apply (li_refs0 a); [done|unfold refs; set_solver]).
  split; intros ->; [congruence|by eapply li_inj0].
Qed.

(** In every interleaving of resolving, taking and dropping permits, the
    requests in flight on one target never exceed the limit, although its
    semaphore comes and goes with the requests that use it. *)
Theorem target_permits_bounded l t :
  rtc limiter_step limiter_start l -> (held_target t (requests l) <= N.max max 1)%N.
Proof.
  intros Hr. assert (limiter_inv l) as Hl.
  { eapply (rtc_ind_r limiter_inv); [apply limiter_start_inv| |exact Hr].
    intros l1 l2 _ Hs Hi. by eapply limiter_step_inv. }
  destruct (registry l !! t) as [s|] eqn:Et.
  - rewrite (held_target_sem l t s) by done. destruct (li_live l Hl t s Et) as [n Hn].
    apply (li_sound l Hl) in Hn. unfold capacity in Hn. lia.
  - unfold held_target. destruct (List.filter _ _) as [|[t' s'] rs] eqn:E; [simpl; lia|]. exfalso.
    assert ((t', s') ∈ List.filter (fun r : arc => bool_decide (r.1 = t)) (requests l ≫= got)) as Hin
      by (rewrite E; apply list_elem_of_here).
    apply list_elem_of_In, List.filter_In in Hin as [Hin Hd%bool_decide_eq_true].
    apply list_elem_of_In, list_elem_of_bind in Hin as (a&Hg&Ha). simpl in Hd. subst t'.
    assert (registry l !! t = Some s') by (apply (li_refs l Hl a); [done|unfold refs; set_solver]).
    congruence.
Qed.

End limiter.
