(* ===== verification/BoundaryWitnesses.v ===== *)
(** * The token and transport theorems on concrete inputs

    Toy instances of the third-party classes of TokenFile.v that satisfy their
    laws, a token file made and rotated with them, and the theorems of
    TokenCommands.v, RateLimit.v, Sessions.v, Boundary.v and TargetLimiter.v
    applied to it, to a request and to short interleavings.  The last section
    is a run that the comments of auth.rs rule out. *)

From S2P Require Import Prelude Externals Json Text Secret Scope Tokens TokenFile TokenFacts TokenCommands RateLimit Sessions Boundary TargetLimiter.
From Stdlib Require Import Ascii ZArith.

Open Scope list_scope.

#[local] Existing Instance toy_externals.

(** ** Third-party code *)

Definition toy_text : JsonText := {|
  text := json; text_len j := str_len (to_vec j); text_utf8 _ := true;
  text_parse j := Ok j; text_print j := j;
|}.

Lemma toy_text_laws : JsonTextLaws toy_text.
Proof. by split. Qed.

(** An instant as its sign and its bits. *)
Fixpoint bits (p : positive) : string :=
  match p with
  | xH => ""
  | xO p => String "0" (bits p)
  | xI p => String "1" (bits p)
  end.

Fixpoint of_bits (s : string) : positive :=
  match s with
  | EmptyString => xH
  | String c s => if Ascii.eqb c "0" then xO (of_bits s) else xI (of_bits s)
  end.

Lemma of_bits_bits p : of_bits (bits p) = p.
Proof. induction p as [p IH|p IH|]; simpl; by rewrite ?IH. Qed.

Definition toy_chrono : Chrono := {|
  to_rfc3339 t := match t with Z0 => "z" | Zpos p => String "p" (bits p) | Zneg p => String "n" (bits p) end;
  parse_datetime s := match s with
                      | String c s => if Ascii.eqb c "z" then Some 0%Z
                                      else if Ascii.eqb c "p" then Some (Zpos (of_bits s))
                                      else Some (Zneg (of_bits s))
                      | EmptyString => None
                      end;
  from_timestamp t := Some (t * 1000000000)%Z;
|}.

Lemma toy_chrono_laws : ChronoLaws toy_chrono.
Proof. split. intros [|p|p] _; simpl; by rewrite ?of_bits_bits. Qed.

(** A vendor's grant: write authority on one target; unknown fields of its
    encoding are ignored, as serde ignores them. *)
Record ToyGrant := { tg_subject : string }.

Definition toy_grant : Grant ToyGrant := {|
  Action := unit; allows_action _ _ := true;
  allows_subject g s := bool_decide (tg_subject g = s);
  grant_validate _ := Ok tt; subjects_are_targets _ := true;
|}.

Definition toy_stored_grant : StoredGrant ToyGrant := {|
  grant_to_value g := Ok (JObject [("subject", JString (tg_subject g))]);
  grant_from_value j := match json_get "subject" j with
                        | Some (JString s) => Ok {| tg_subject := s |}
                        | _ => Err "missing field"
                        end;
|}.

#[local] Existing Instance toy_text.
#[local] Existing Instance toy_text_laws.
#[local] Existing Instance toy_chrono.
#[local] Existing Instance toy_chrono_laws.
#[local] Existing Instance toy_grant.
#[local] Existing Instance toy_stored_grant.

Lemma toy_stored_grant_laws : StoredGrantLaws ToyGrant.
Proof. split. intros [s] v [= <-]. by split_and!. Qed.
#[local] Existing Instance toy_stored_grant_laws.

(** ** A token file *)

Definition toy_writer : Writer := {| wr_euid := 1000; wr_temp_gid := 1000; wr_can_chown := false |}.

Definition toy_known : KnownNames :=
  {| kn_devices := Some ["fw1"; "fw2"]; kn_tools := ["show"; "commit"] |}.

Definition toy_random (c : ascii) : option bytes := Some (String c "0123456789abcdef0123456789abcde").

Definition add_ci : TokenCommand ToyGrant :=
  Add "ci" (Allowlist ["fw1"]) (Allowlist ["show"; "commit"]) (Some 5000%Z)
    (Some {| tg_subject := "fw1" |}) None None None None toy_known.

Definition rotate_ci : TokenCommand ToyGrant := Rotate "ci" toy_known.

Definition added : result (option string) FileError * TokenPath :=
  run_command toy_writer None (toy_random "a") 1000 add_ci None.

Definition token_file : TokenPath := added.2.

Definition rotated : result (option string) FileError * TokenPath :=
  run_command toy_writer None (toy_random "b") 2000 rotate_ci token_file.

Definition rotated_file : TokenPath := rotated.2.

Definition secret_of (r : result (option string) FileError * TokenPath) : string :=
  match r.1 with Ok (Some s) => s | _ => "" end.

Definition toy_entry : TokenEntry ToyGrant := {|
  te_name := "ci"; te_digest := from_secret (secret_of added);
  te_devices := Allowlist ["fw1"]; te_tools := Allowlist ["show"; "commit"];
  te_created_at := 1000; te_expires_at := Some 5000%Z; te_grant := Some {| tg_subject := "fw1" |};
  te_provider := None; te_provider_tier := None; te_on_behalf_of := None; te_actor_type := Unknown |}.

Lemma toy_entries : entries_at 1000 token_file = Ok ([toy_entry], 1%N).
Proof. vm_compute. reflexivity. Qed.

Lemma toy_rotated :
  run_command toy_writer None (toy_random "b") 2000 rotate_ci token_file
  = (Ok (Some (secret_of rotated)), rotated_file).
Proof. vm_compute. reflexivity. Qed.

Lemma toy_dated : Forall dated [toy_entry].
Proof.
  constructor; [|constructor]. split; [unfold rfc3339_range; simpl; lia|].
  intros t [= <-]. unfold rfc3339_range. lia.
Qed.

Lemma toy_readable : readable_by 1000 rotated_file.
Proof.
  intros f Hf. assert (match rotated_file with
    | Some f => (f_size f <=? token_file_limit)%N && (f_uid f =? 1000)%N | None => false end = true) as Hb
    by (vm_compute; reflexivity).
  rewrite Hf in Hb. apply andb_true_iff in Hb as [?%N.leb_le ?%N.eqb_eq]. auto.
Qed.


Definition blank_store : TokenStoreFile := {| tsf_store := ([] : list (TokenEntry ToyGrant)); tsf_version := 1 |}.

Lemma rotated_authenticates :
  authenticate_at (tsf_store (reload 1000 rotated_file blank_store).2) (secret_of rotated) 3000
  = Some (with_digest (from_secret (secret_of rotated)) toy_entry).
Proof. vm_compute. reflexivity. Qed.

Lemma withdrawn_secret_is_dead_witness :
  true = true /\ exists s, Some (secret_of rotated) = Some s /\
    from_secret (secret_of rotated) = from_secret s.
Proof.
  exact (withdrawn_secret_is_dead toy_writer None (toy_random "b") 2000 "ci" toy_known true token_file
           (Some (secret_of rotated)) rotated_file [toy_entry] 1 1000 blank_store (secret_of rotated) 3000
           (with_digest (from_secret (secret_of rotated)) toy_entry)
           toy_entries toy_dated toy_rotated toy_readable rotated_authenticates eq_refl).
Defined.

Lemma toy_fresh : Forall (fun e => te_digest e <> from_secret (secret_of rotated)) [toy_entry].
Proof. constructor; [|constructor]. vm_compute. discriminate. Qed.

Lemma rotated_token_keeps_its_authority_witness :
  authenticate_at (tsf_store (reload 1000 rotated_file blank_store).2) (secret_of rotated) 3000
  = Some (with_digest (from_secret (secret_of rotated)) toy_entry).
Proof.
  exact (rotated_token_keeps_its_authority toy_writer None (toy_random "b") 2000 "ci" toy_known
           token_file (secret_of rotated) rotated_file [toy_entry] 1 1000 blank_store toy_entry 3000
           toy_entries toy_dated eq_refl eq_refl toy_fresh toy_rotated toy_readable).
Defined.

(** ** Rate limits *)

Definition toy_parse_ip (s : string) : option IpAddr :=
  if String.eqb s "10.0.0.1" then Some (V4 167772161)
  else if String.eqb s "::ffff:203.0.113.9" then Some (V6 281474087547145)
  else if String.eqb s "198.51.100.7" then Some (V4 3325256711)
  else None.

Definition toy_contains (network ip : IpAddr) : bool := bool_decide (network = ip).

Definition forwarded : list (option string) :=
  [Some "198.51.100.7, ::ffff:203.0.113.9"; Some " 10.0.0.1 "].

Lemma forwarded_for_cannot_be_spoofed_witness :
  resolve_rate_limit_ip toy_parse_ip IpAddr toy_contains (V6 281470849515521) forwarded
    [V4 167772161] = V4 3405803785.
Proof.
  refine (proj2 (forwarded_for_cannot_be_spoofed toy_parse_ip IpAddr toy_contains
                   (V6 281470849515521) forwarded [V4 167772161])
            ["198.51.100.7"] " ::ffff:203.0.113.9" [" 10.0.0.1 "] (V4 3405803785) _ _ _ _ _).
  1-4: vm_compute; reflexivity.
  constructor; [|constructor]. exists (V4 167772161). split; vm_compute; reflexivity.
Defined.

(** Three checks of one client within half a second, at two a second. *)
Definition burst_of_three : list (string * N) :=
  [("client", 0%N); ("client", 100000000%N); ("client", 500000000%N)].

Lemma admissions_within_rate_witness :
  (tally 2 1 map_to_list "client" (bucket_map_new 8) burst_of_three).1 = 2%N /\
  (TOKEN_SCALE * (tally 2 1 map_to_list "client" (bucket_map_new 8) burst_of_three).1
   <= (1 + (tally 2 1 map_to_list "client" (bucket_map_new 8) burst_of_three).2)
      * (capacity_units 1 + 2 * (500000000 - 0)))%N.
Proof.
  split; [vm_compute; reflexivity|].
  refine (admissions_within_rate 0 500000000 2 1 map_to_list "client" (bucket_map_new 8)
            burst_of_three _ _).
  - intros k b t Hk. change (buckets (bucket_map_new 8)) with (∅ : gmap string (Bucket * N)) in Hk.
    by rewrite lookup_empty in Hk.
  - unfold burst_of_three. repeat constructor; simpl; lia.
Defined.

Definition spent_bucket : Bucket := (bucket_check (bucket_full 1 0) 0 2 1).2.

Lemma retry_after_is_enough_witness :
  1%N = 1%N /\
  (bucket_check (bucket_check spent_bucket 100 2 1).2 (100 + 1 * TOKEN_SCALE) 2 1).1 = Allowed.
Proof.
  refine (retry_after_is_enough spent_bucket 100 2 1 1 (bucket_check spent_bucket 100 2 1).2 _ _ _ _).
  - vm_compute. reflexivity.
  - vm_compute. discriminate.
  - reflexivity.
  - reflexivity.
Defined.

(** ** Sessions *)

(** One token, one session: reserved, created, bound; then a second creation
    is refused and cleaned up. *)
Definition sessions_moves : list Move :=
  [Reserve "ci"; Create "s1"; Run 10 0; Run 10 0; Commit 0 "s1";
   Create "s2"; Run 20 0; Run 20 0; Run 20 0; Run 20 0].

Definition sessions_after : Moment := default start (play_all 1 1 start sessions_moves).

Lemma sessions_run : rtc (step 1 1) start sessions_after.
Proof.
  assert (is_Some (play_all 1 1 start sessions_moves)) as [m Hm].
  { apply (bool_decide_unpack (is_Some _)). vm_compute. exact I. }
  unfold sessions_after. rewrite Hm. by apply (play_all_steps _ _ _ sessions_moves).
Qed.


(** ** The boundary *)

Definition toy_fields : ToolScopePreflight := {|
  tp_write_tools := ["commit"]; tp_target_fields := [scalar "device"];
  tp_malformed_arguments := DenyArguments |}.

Definition toy_boundary : BearerBoundary := {|
  bb_syntax := Strict; bb_preflight := Some toy_fields; bb_body_limit := 1024;
  bb_token_rate_enabled := true; bb_concurrency := true; bb_max_global := 64;
  bb_max_per_token := 16; bb_sessions := true; bb_max_per_target := 4;
  bb_target_keys := ["device"] |}.

Definition toy_answers : Answers := {|
  an_rate _ := Allowed; an_global := true; an_token _ := true; an_at_capacity := false;
  an_reserve _ := true; an_targets _ := Ok tt;
  an_status := 200 |}.

Definition call (params : list (string * json)) : json :=
  JObject [("method", JString "tools/call"); ("params", JObject params)].

Definition on_device (device : string) : string * json :=
  ("arguments", JObject [("device", JString device)]).

Definition toy_request (value : json) : Boundary.Request := {|
  rq_post := true; rq_session_id := true; rq_protocol_version := None;
  rq_authorization := [Some ("Bearer " +:+ secret_of added)];
  rq_content_length := Some 100%N; rq_body := {| body_len := 100; body_value := Some value |};
  rq_stream_fails := false |}.

Definition commit_call : json := call [("name", JString "commit"); on_device "fw1"].

Definition toy_authenticate : string -> option (CallerCtx ToyGrant) :=
  store_authenticator [toy_entry] 3000 "req-1".

Definition toy_passage : Passage ToyGrant := {|
  pa_events := [ChargeTokenRate "ci"; ChargeGlobal; ChargeToken "ci"; AuditPreflight "commit" true;
                ChargeTargets {[ "fw1" ]}];
  pa_interned := {[ "commit" ]}; pa_outcome := Dispatched (caller_of toy_entry "req-1") |}.

Lemma toy_dispatch :
  apply_bearer_boundary toy_boundary toy_authenticate toy_answers ∅ (toy_request commit_call)
  = toy_passage.
Proof. vm_compute. reflexivity. Qed.

Lemma toy_denies : denies_malformed toy_fields.
Proof. by repeat constructor. Qed.

Lemma toy_not_empty : body_len (rq_body (toy_request commit_call)) = 0%N ->
  body_value (rq_body (toy_request commit_call)) = None.
Proof. done. Qed.


Lemma toy_named value v :
  body_value (rq_body (toy_request commit_call)) = Some value -> v ∈ elements value ->
  json_get "method" v ≫= json_as_str = Some "tools/call" -> is_Some (called_tool v).
Proof. intros [= <-] ->%list_elem_of_singleton _. vm_compute. by eexists. Qed.

Lemma charges_follow_authorization_witness :
  exists candidate c, bearer_candidate (toy_request commit_call) Strict = Ok candidate /\
    toy_authenticate candidate = Some c /\
    forall t, t ∈ ({[ "fw1" ]} : gset string) -> allows (cc_devices c) t = true.
Proof.
  refine (charges_follow_authorization toy_boundary toy_fields toy_authenticate toy_answers ∅
            (toy_request commit_call) (ChargeTargets {[ "fw1" ]}) _ eq_refl toy_denies _
            toy_not_empty toy_named).
  - fold toy_authenticate. rewrite toy_dispatch. do 4 apply list_elem_of_further. apply list_elem_of_here.
  - intros k Hk. exact Hk.
Defined.

(** ** Target permits *)

(** Two requests for one target with one permit: the second is refused. *)
Lemma limiter_run :
  exists l, rtc (limiter_step 1) limiter_start l /\ held_target "fw1" (requests l) = 1%N /\
    next l = 1%nat.
Proof.
  eexists. split.
  - eapply rtc_l; [apply (limit_resolve 1 _ ["fw1"]), NoDup_singleton|].
    eapply rtc_l; [apply (limit_resolve 1 _ ["fw1"]), NoDup_singleton|].
    eapply rtc_l; [eapply (limit_acquire 1 _ [] _ [_]); vm_compute; reflexivity|].
    eapply rtc_l; [eapply (limit_acquire 1 _ [_] _ []); vm_compute; reflexivity|].
    apply rtc_refl.
  - split; vm_compute; reflexivity.
Qed.

Lemma target_permits_bounded_witness :
  exists l, rtc (limiter_step 1) limiter_start l /\ held_target "fw1" (requests l) = 1%N /\
    (held_target "fw1" (requests l) <= N.max 1 1)%N.
Proof.
  destruct limiter_run as (l&Hr&Hh&_). exists l. split; [exact Hr|]. split; [exact Hh|].
  exact (target_permits_bounded 1 l "fw1" Hr).
Defined.

(** ** A call without a name

    The preflight lets it pass, since it can dispatch nothing, but the target
    layer does not look at the name. *)

(** A [tools/call] without a tool name makes the boundary ask for the
    permits of a target outside the caller's scope. *)
Example nameless_call_charges_foreign_target :
  ChargeTargets {[ "fw2" ]} ∈
    pa_events (apply_bearer_boundary toy_boundary toy_authenticate toy_answers ∅
                 (toy_request (call [on_device "fw2"]))) /\
  allows (te_devices toy_entry) "fw2" = false.
Proof.
  split; [|vm_compute; reflexivity].
  assert (pa_events (apply_bearer_boundary toy_boundary toy_authenticate toy_answers ∅
                       (toy_request (call [on_device "fw2"])))
          = [ChargeTokenRate "ci"; ChargeGlobal; ChargeToken "ci"; ChargeTargets {[ "fw2" ]}]) as ->
    by (vm_compute; reflexivity).
  do 3 apply list_elem_of_further. apply list_elem_of_here.
Qed.

(** ** A grant under its other name

    A field of a grant that the build does not know is refused under [grant]
    and silently dropped under the alias [mutation]. *)

Definition document (key : string) : json :=
  JObject [("version", json_u64 1); ("tokens", JArray [JObject
    [("name", JString "ci"); ("digest", JString (from_secret (secret_of added)));
     ("devices", JArray [JString "fw1"]); ("tools", JArray [JString "show"]);
     ("created_at", timestamp_serialize 1000);
     (key, JObject [("subject", JString "fw1"); ("only_during", JString "maintenance")])]])].

Definition file_with (key : string) : TokenPath := Some {|
  f_type := RegularFile; f_mode := 384; f_uid := 1000; f_gid := 1000; f_size := 500;
  f_read_len := 500; f_data := document key |}.

(** The check that refuses a grant with a field this build would drop does
    not look at the alias: the same grant is refused under [grant] and loaded
    without its restriction under [mutation]. *)
Example alias_drops_grant_restriction :
  is_ok (read_store (G := ToyGrant) 1000 (file_with "grant")) = false /\
  match read_store (G := ToyGrant) 1000 (file_with "mutation") with
  | Ok ([e], _) => te_grant e = Some {| tg_subject := "fw1" |}
  | _ => False
  end.
Proof. split; vm_compute; reflexivity. Qed.
