(* ===== verification/Canonical.v ===== *)
(** * Canonical JSON (crates/mecmcp-audit/src/canonical.rs)

    The rendering every evidence hash is taken over: object keys sorted, no
    white space, nesting bounded.  The facts are the two directions the hash
    chain needs: the order in which members were written does not matter, and
    nothing else is lost. *)

From S2P Require Import Prelude Externals Json Digest.
From Stdlib Require Import Ascii.

Open Scope list_scope.

(** [serde_json] renders a string with its quotes and escapes.  The rendering
    starts with a quote and shows where it ends. *)
Class JsonStrings := { quoted : string -> string }.

Class JsonStringsLaws `(JsonStrings) : Prop := {
  quoted_starts : forall s, exists t, quoted s = dquote +:+ t;
  quoted_split : forall s s' r r', quoted s +:+ r = quoted s' +:+ r' -> s = s' /\ r = r';
}.

Definition GENESIS_PREV_HASH : string :=
  "sha256:0000000000000000000000000000000000000000000000000000000000000000".

Definition MAX_CANONICAL_DEPTH : nat := 128.

Inductive CanonicalError := TooDeep.

(** The members separated by commas. *)
Fixpoint commas (l : list string) : string :=
  match l with
  | [] => ""
  | [x] => x
  | x :: l => x +:+ "," +:+ commas l
  end.

Section canonical.
Context `{Externals} `{JsonStrings}.

(** The members of an object are rendered and put in the order of their keys;
    the only error there is does not depend on which member comes first. *)
Fixpoint write_canonical (value : json) (depth : nat) : result string CanonicalError :=
  if (MAX_CANONICAL_DEPTH <? depth)%nat then Err TooDeep
  else match value with
       | JObject l =>
           let? members := collect ((fun kv : string * result string CanonicalError =>
                let? v := kv.2 in Ok (quoted kv.1 +:+ ":" +:+ v))
             <$> merge_sort key_le ((fun kv => (kv.1, write_canonical kv.2 (S depth))) <$> l)) in
           Ok ("{" +:+ commas members +:+ "}")
       | JArray l =>
           let? items := collect ((fun v => write_canonical v (S depth)) <$> l) in
           Ok ("[" +:+ commas items +:+ "]")
       | JNull => Ok "null"
       | JBool b => Ok (if b then "true" else "false")
       | JNumber repr => Ok repr
       | JString s => Ok (quoted s)
       end.

Definition canonical_json (value : json) : result string CanonicalError := write_canonical value 0.

Definition sha256_hex (b : bytes) : string := bytes_hex (sha256 b).

Definition digest_of (value : json) : result string CanonicalError :=
  let? s := canonical_json value in Ok ("sha256:" +:+ sha256_hex s).

End canonical.

(** ** Values up to the order of members *)

Fixpoint sorted_value (v : json) : json :=
  match v with
  | JArray l => JArray (sorted_value <$> l)
  | JObject l => JObject (merge_sort key_le ((fun kv => (kv.1, sorted_value kv.2)) <$> l))
  | v => v
  end.

(** How deep the values inside a value are. *)
Fixpoint nesting (v : json) : nat :=
  match v with
  | JArray l => foldr (fun v n => S (nesting v) `max` n) 0 l
  | JObject l => foldr (fun kv n => S (nesting kv.2) `max` n) 0 l
  | _ => 0
  end.

(** Number text: what [serde_json] writes for a number. *)
Definition number_byte (c : ascii) : bool :=
  let n := N_of_ascii c in
  ((48 <=? n)%N && (n <=? 57)%N) || (n =? 45)%N || (n =? 43)%N || (n =? 46)%N || (n =? 69)%N || (n =? 101)%N.

Definition number_text (s : string) : bool := negb (is_empty_str s) && str_forall number_byte s.

(** A [serde_json::Value]: numbers are number text, keys are unique. *)
Fixpoint value_ok (v : json) : bool :=
  match v with
  | JNumber r => number_text r
  | JArray l => forallb value_ok l
  | JObject l => bool_decide (NoDup l.*1) && forallb (fun kv => value_ok kv.2) l
  | _ => true
  end.

(** ** Sorting by key *)

Lemma str_leb_trans a b c : String.leb a b = true -> String.leb b c = true -> String.leb a c = true.
Proof.
  unfold String.leb. revert b c. induction a as [|x a IH]; intros [|y b] [|z c]; simpl; try done.
  destruct (Ascii.compare x y) eqn:Exy; try done; destruct (Ascii.compare y z) eqn:Eyz; try done;
    unfold Ascii.compare in *; rewrite ?N.compare_eq_iff, ?N.compare_lt_iff in *.
  - rewrite Exy, Eyz, N.compare_refl. apply IH.
  - rewrite Exy, (proj2 (N.compare_lt_iff _ _) Eyz). done.
  - rewrite <-Eyz, (proj2 (N.compare_lt_iff _ _) Exy). done.
  - rewrite (proj2 (N.compare_lt_iff (N_of_ascii x) (N_of_ascii z))); [done|lia].
Qed.

#[export] Instance key_le_total {V} : Total (@key_le V).
Proof. intros a b. apply String.leb_total. Qed.

#[export] Instance key_le_trans {V} : Transitive (@key_le V).
Proof. intros a b c. apply str_leb_trans. Qed.

(** Distinct keys have one order. *)
Lemma sorted_unique {V} (l l' : list (string * V)) :
  StronglySorted key_le l -> StronglySorted key_le l' -> l ≡ₚ l' -> NoDup l.*1 -> l = l'.
Proof.
  revert l'. induction l as [|x l IH]; intros l' Hs Hs' Hp Hnd; [by apply Permutation_nil_l in Hp|].
  destruct l' as [|y l']; [by apply Permutation_nil_r in Hp|].
  apply StronglySorted_inv in Hs as [Hs Hx], Hs' as [Hs' Hy]. rewrite Forall_forall in Hx, Hy.
  assert (x = y) as ->.
  { assert (x ∈ y :: l') as [?|Hxin]%elem_of_cons by (rewrite <-Hp; apply list_elem_of_here); [done|].
    assert (y ∈ x :: l) as [?|Hyin]%elem_of_cons by (rewrite Hp; apply list_elem_of_here); [done|].
    assert (x.1 = y.1) as E by (apply String.leb_antisym; [by apply Hx|by apply Hy]).
    apply NoDup_cons in Hnd as [Hn _]. destruct Hn. rewrite E. by apply list_elem_of_fmap_2. }
  f_equal. apply IH; [done..| |by apply NoDup_cons in Hnd as [_ ?]]. by eapply Permutation_cons_inv.
Qed.

(** Sorting by key commutes with whatever is done to the values. *)
Lemma merge_sort_fmap {V W} (f : V -> W) (l : list (string * V)) :
  NoDup l.*1 ->
  merge_sort key_le (prod_map id f <$> l) = prod_map id f <$> merge_sort key_le l.
Proof.
  intros Hnd. apply sorted_unique.
  - apply StronglySorted_merge_sort; apply _.
  - assert (StronglySorted key_le (merge_sort key_le l)) as Hs by (apply StronglySorted_merge_sort; apply _).
    induction Hs as [|x l' Hs IH Hx]; simpl; constructor; [done|].
    rewrite Forall_fmap. eapply Forall_impl; [exact Hx|]. done.
  - rewrite merge_sort_Permutation. by rewrite merge_sort_Permutation.
  - rewrite merge_sort_Permutation, <-list_fmap_compose. done.
Qed.

(** ** What is rendered *)

Section rendering.
Context `{Externals} `{JsonStrings}.

Fixpoint render (v : json) : string :=
  match v with
  | JObject l => "{" +:+ commas ((fun kv => quoted kv.1 +:+ ":" +:+ render kv.2) <$> l) +:+ "}"
  | JArray l => "[" +:+ commas (render <$> l) +:+ "]"
  | JNull => "null"
  | JBool b => if b then "true" else "false"
  | JNumber repr => repr
  | JString s => quoted s
  end.

Definition within (d n : nat) : bool := (d + n <=? MAX_CANONICAL_DEPTH)%nat.

(** A list of values, each within the limit or not. *)
Lemma collect_within {A} (f : A -> string) (size : A -> nat) d (l : list A) :
  collect ((fun x => if within (S d) (size x) then Ok (f x) else Err TooDeep) <$> l)
  = if within d (foldr (fun x n => S (size x) `max` n) 0 l) || bool_decide (l = [])
    then Ok (f <$> l) else Err TooDeep.
Proof.
  induction l as [|x l IH]; [by rewrite orb_true_r|]. cbn [fmap list_fmap collect foldr].
  rewrite IH, orb_false_r. unfold within.
  set (n := foldr _ 0 l) in *. set (s := size x).
  destruct (Nat.leb_spec (S d + s) MAX_CANONICAL_DEPTH), (Nat.leb_spec (d + n) MAX_CANONICAL_DEPTH),
    (Nat.leb_spec (d + S s `max` n) MAX_CANONICAL_DEPTH); simpl; try done; try lia.
  case_bool_decide as El; [|done]. subst l. simpl in n. unfold n in *. lia.
Qed.

Lemma nesting_perm (l l' : list (string * json)) :
  l ≡ₚ l' -> nesting (JObject l) = nesting (JObject l').
Proof. intros Hp. cbn [nesting]. induction Hp; simpl in *; lia. Qed.

(** Whether a value is rendered depends only on how deep it is, and what is
    rendered only on its members, not on their order. *)
Lemma write_canonical_eq v d :
  value_ok v = true ->
  write_canonical v d = if within d (nesting v) then Ok (render (sorted_value v)) else Err TooDeep.
Proof.
  revert d. induction v as [| | | |l IH|l IH] using json_ind_full; intros d Hok.
  1-4: cbn [write_canonical nesting sorted_value render]; unfold within; rewrite Nat.add_0_r;
    destruct (Nat.ltb_spec MAX_CANONICAL_DEPTH d), (Nat.leb_spec d MAX_CANONICAL_DEPTH); done || lia.
  - cbn [write_canonical nesting sorted_value render]. cbn [value_ok] in Hok. rewrite forallb_forall in Hok.
    assert ((fun v => write_canonical v (S d)) <$> l
      = (fun v => if within (S d) (nesting v) then Ok (render (sorted_value v)) else Err TooDeep) <$> l) as ->.
    { rewrite Forall_forall in IH. apply list_fmap_ext. intros i v Hv%list_elem_of_lookup_2.
      apply IH; [done|]. by apply Hok, list_elem_of_In. }
    rewrite (collect_within (fun v => render (sorted_value v)) nesting), <-list_fmap_compose.
    destruct (Nat.ltb_spec MAX_CANONICAL_DEPTH d) as [Hd|Hd].
    + unfold within. by rewrite (proj2 (Nat.leb_gt _ _)) by lia.
    + case_bool_decide as El; [subst l|rewrite orb_false_r].
      * unfold within. simpl. by rewrite (proj2 (Nat.leb_le _ _)) by lia.
      * by destruct (within _ _).
  - cbn [write_canonical sorted_value render]. cbn [value_ok] in Hok.
    apply andb_true_iff in Hok as [Hnd%bool_decide_eq_true Hok]. rewrite forallb_forall in Hok.
    change ((fun kv : string * json => (kv.1, write_canonical kv.2 (S d))) <$> l)
      with (prod_map id (fun v => write_canonical v (S d)) <$> l).
    change ((fun kv : string * json => (kv.1, sorted_value kv.2)) <$> l)
      with (prod_map id sorted_value <$> l).
    rewrite !merge_sort_fmap, <-!list_fmap_compose by done.
    pose proof (merge_sort_Permutation key_le l) as Hp. rewrite <-(nesting_perm _ _ Hp).
    assert (forall kv, kv ∈ merge_sort key_le l -> write_canonical kv.2 (S d)
      = if within (S d) (nesting kv.2) then Ok (render (sorted_value kv.2)) else Err TooDeep) as Hm.
    { rewrite Forall_forall in IH. intros kv Hkv. rewrite Hp in Hkv.
      apply (IH kv); [done|]. by apply (Hok kv), list_elem_of_In. }
    revert Hm. generalize (merge_sort key_le l). clear. intros l Hm.
    rewrite (list_fmap_ext _ (fun kv => if within (S d) (nesting kv.2)
      then Ok (quoted kv.1 +:+ ":" +:+ render (sorted_value kv.2)) else Err TooDeep)).
    2:{ intros i kv Hkv%list_elem_of_lookup_2. simpl. rewrite Hm by done. by destruct (within _ _). }
    rewrite (collect_within _ (fun kv => nesting kv.2)). cbn [nesting].
    destruct (Nat.ltb_spec MAX_CANONICAL_DEPTH d) as [Hd|Hd].
    + unfold within. by rewrite (proj2 (Nat.leb_gt _ _)) by lia.
    + case_bool_decide as El; [subst l|rewrite orb_false_r].
      * unfold within. simpl. by rewrite (proj2 (Nat.leb_le _ _)) by lia.
      * by destruct (within _ _).
Qed.

End rendering.

(** Sorting changes neither the depth nor well-formedness. *)
Lemma nesting_sorted v : nesting (sorted_value v) = nesting v.
Proof.
  induction v as [| | | |l IH|l IH] using json_ind_full; try done.
  - cbn [sorted_value nesting]. induction IH as [|x l Hx _ IHl]; [done|]. rewrite fmap_cons. cbn [foldr snd]. by rewrite Hx, IHl.
  - cbn [sorted_value]. rewrite (nesting_perm _ _ (merge_sort_Permutation key_le _)). cbn [nesting].
    induction IH as [|x l Hx _ IHl]; [done|]. rewrite fmap_cons. cbn [foldr snd]. by rewrite Hx, IHl.
Qed.

Lemma sorted_ok v : value_ok v = true -> value_ok (sorted_value v) = true.
Proof.
  induction v as [| | | |l IH|l IH] using json_ind_full; try done; cbn [sorted_value value_ok];
    rewrite Forall_forall in IH.
  - rewrite !forallb_forall. intros Hok x (y&->&Hy)%list_elem_of_In%list_elem_of_fmap.
    apply IH; [done|]. by apply Hok, list_elem_of_In.
  - rewrite !andb_true_iff, !bool_decide_eq_true, !forallb_forall. intros [Hnd Hok]. split.
    + by rewrite merge_sort_Permutation, <-list_fmap_compose.
    + intros x Hx%list_elem_of_In. rewrite merge_sort_Permutation in Hx.
      apply list_elem_of_fmap in Hx as (y&->&Hy). simpl. apply (IH y); [done|]. by apply (Hok y), list_elem_of_In.
Qed.

(** ** Nothing is lost *)

(** What may follow a value. *)
Definition closes (r : string) : Prop :=
  match r with
  | EmptyString => True
  | String c _ => c = ","%char \/ c = "}"%char \/ c = "]"%char
  end.

(** The kind of a value, and the kind its first character announces. *)
Definition kind (v : json) : nat :=
  match v with
  | JNull => 0 | JBool _ => 1 | JNumber _ => 2 | JString _ => 3 | JArray _ => 4 | JObject _ => 5
  end.

Definition kind_of_char (c : ascii) : nat :=
  if Ascii.eqb c "n" then 0
  else if Ascii.eqb c "t" || Ascii.eqb c "f" then 1
  else if Ascii.eqb c (ascii_of_nat 34) then 3
  else if Ascii.eqb c "[" then 4
  else if Ascii.eqb c "{" then 5
  else 2.

Section injectivity.
Context `{Externals} `{JL : JsonStringsLaws}.

Lemma number_byte_kind c : number_byte c = true -> kind_of_char c = 2.
Proof.
  intros Hc. unfold kind_of_char.
  repeat (match goal with |- context [Ascii.eqb c ?d] => destruct (Ascii.eqb_spec c d) as [->|_]; [done|] end).
  done.
Qed.

Lemma render_kind v : value_ok v = true -> exists c t, render v = String c t /\ kind_of_char c = kind v.
Proof.
  destruct v as [|b|repr|s|l|l]; cbn [value_ok render kind]; intros Hok; try (by eexists _, _).
  - destruct b; by eexists _, _.
  - apply andb_true_iff in Hok as [He Hn]. destruct repr as [|c repr]; [done|].
    simpl in Hn. apply andb_true_iff in Hn as [Hc _]. eexists _, _. split; [done|].
    by apply number_byte_kind.
  - destruct (quoted_starts s) as [t ->]. by eexists _, _.
Qed.

(** Number text shows where it ends. *)
Lemma number_split a b r r' :
  str_forall number_byte a = true -> str_forall number_byte b = true -> closes r -> closes r' ->
  a +:+ r = b +:+ r' -> a = b /\ r = r'.
Proof.
  assert (forall c s, number_byte c = true -> ~ closes (String c s)) as Hn.
  { intros c s Hc [->|[->| ->]]; done. }
  revert b. induction a as [|c a IH]; intros [|d b]; rewrite ?str_app_nil, ?str_app_cons; simpl;
    rewrite ?andb_true_iff; intros Ha Hb Hr Hr' E; [done|..].
  - subst r. destruct Hb as [Hd _]. by destruct (Hn d _ Hd Hr).
  - subst r'. destruct Ha as [Hc _]. by destruct (Hn c _ Hc Hr').
  - injection E as -> E. destruct Ha, Hb. by destruct (IH b) as [-> ->].
Qed.

(** Lists of members, given that each member shows where it ends. *)
Lemma commas_split {A} (f : A -> string) (ok : A -> Prop) (e : ascii) (l l' : list A) r r' :
  e = "}"%char \/ e = "]"%char ->
  (forall x, x ∈ l -> ok x /\ forall y r r', ok y -> closes r -> closes r' ->
     f x +:+ r = f y +:+ r' -> x = y /\ r = r') ->
  (forall y, y ∈ l' -> ok y) ->
  (forall x, ok x -> exists c t, f x = String c t /\ c <> e) ->
  commas (f <$> l) +:+ String e r = commas (f <$> l') +:+ String e r' -> l = l' /\ r = r'.
Proof.
  intros He Hl Hl' Hne.
  set (tail := fun l r => match l with [] => String e r | _ => "," +:+ commas (f <$> l) +:+ String e r end).
  assert (forall x l r, commas (f <$> x :: l) +:+ String e r = f x +:+ tail l r) as Hc.
  { intros x0 [|x1 l0] r0; cbn [fmap list_fmap commas tail]; [done|]. by rewrite !str_app_assoc. }
  assert (forall l r, closes (tail l r)) as Hcl.
  { intros [|x0 l0] r0; cbn; [|by left]. destruct He as [->| ->]; auto. }
  revert l' Hl'. induction l as [|x l IH]; intros [|y l'] Hl'; rewrite ?Hc.
  - intros [= ->]. done.
  - destruct (Hne y) as (c&t&Hy&Hce); [by apply Hl', list_elem_of_here|].
    rewrite Hy, str_app_cons. intros [= ? _]. congruence.
  - destruct (Hl x) as [Hok _]; [apply list_elem_of_here|]. destruct (Hne x Hok) as (c&t&Hx&Hce).
    rewrite Hx, str_app_cons. intros [= ? _]. congruence.
  - intros E. destruct (Hl x) as [_ Hx]; [apply list_elem_of_here|].
    apply Hx in E as [-> E]; [|by apply Hl', list_elem_of_here|apply Hcl..].
    destruct l as [|x1 l], l' as [|y1 l']; cbn [tail] in E.
    + by injection E as ->.
    + injection E as E _. by destruct He as [->| ->].
    + injection E as E _. by destruct He as [->| ->].
    + apply (str_app_inj_l ",") in E.
      destruct (IH (fun z Hz => Hl z (list_elem_of_further _ _ _ Hz)) (y1 :: l')) as [-> ->]; [|done|done].
      intros z Hz. by apply Hl', list_elem_of_further.
Qed.

Lemma render_split v w r r' :
  value_ok v = true -> value_ok w = true -> closes r -> closes r' ->
  render v +:+ r = render w +:+ r' -> v = w /\ r = r'.
Proof.
  revert w r r'. induction v as [|b|repr|s|l IH|l IH] using json_ind_full; intros w r r' Hv Hw Hr Hr' E.
  all: destruct (render_kind _ Hv) as (c&t&Ec&Kc), (render_kind _ Hw) as (d&u&Ed&Kd);
    (assert (kind_of_char c = kind_of_char d) as K
       by (rewrite Ec, Ed, !str_app_cons in E; congruence));
    rewrite Kc, Kd in K; clear c t Ec Kc d u Ed Kd;
    destruct w as [|b'|repr'|s'|l'|l']; try discriminate K; cbn [render value_ok] in *.
  - by apply str_app_inj_l in E.
  - destruct b, b'; try discriminate E; by apply str_app_inj_l in E.
  - apply andb_true_iff in Hv as [_ Hv], Hw as [_ Hw]. by destruct (number_split _ _ _ _ Hv Hw Hr Hr' E) as [-> ->].
  - by apply quoted_split in E as [-> ->].
  - rewrite !str_app_assoc in E. apply (str_app_inj_l "[") in E. rewrite !(str_app_cons "]") in E.
    rewrite forallb_forall in Hv, Hw. rewrite Forall_forall in IH.
    destruct (commas_split render (fun v => value_ok v = true) "]" l l' r r') as [-> ->]; [by right|..|done|done].
    + intros x Hx. split; [by apply Hv, list_elem_of_In|]. intros y r0 r0' Hy. apply IH; [done| |done].
      by apply Hv, list_elem_of_In.
    + intros y Hy. by apply Hw, list_elem_of_In.
    + intros x Hx. destruct (render_kind x Hx) as (c&t&Hxc&Hk). exists c, t. split; [done|].
      intros ->. destruct x; try done. cbn in Hxc, Hx. by subst repr.
  - rewrite !str_app_assoc in E. apply (str_app_inj_l "{") in E. rewrite !(str_app_cons "}") in E.
    apply andb_true_iff in Hv as [_ Hv], Hw as [_ Hw]. rewrite forallb_forall in Hv, Hw. rewrite Forall_forall in IH.
    destruct (commas_split (fun kv => quoted kv.1 +:+ ":" +:+ render kv.2) (fun kv => value_ok kv.2 = true)
                "}" l l' r r') as [-> ->]; [by left|..|done|done].
    + intros x Hx. split; [by apply (Hv x), list_elem_of_In|]. intros y r0 r0' Hy Hr0 Hr0'.
      rewrite !str_app_assoc. intros [Ek E']%quoted_split. apply (str_app_inj_l ":") in E'.
      destruct (IH x Hx y.2 r0 r0') as [Ev ->]; [by apply (Hv x), list_elem_of_In|done..|].
      split; [|done]. destruct x, y. simpl in *. by subst.
    + intros y Hy. by apply (Hw y), list_elem_of_In.
    + intros x _. destruct (quoted_starts x.1) as [t ->]. eexists _, _. split; [reflexivity|]. done.
Qed.

Lemma canonical_json_iff v w s :
  value_ok v = true -> value_ok w = true -> canonical_json v = Ok s ->
  (canonical_json w = Ok s <-> sorted_value v = sorted_value w).
Proof.
  intros Hv Hw. unfold canonical_json. rewrite !write_canonical_eq by done. unfold within.
  destruct (Nat.leb_spec (0 + nesting v) MAX_CANONICAL_DEPTH) as [Hd|]; [|done]. intros [= <-]. split.
  - destruct (0 + nesting w <=? MAX_CANONICAL_DEPTH)%nat; [|done]. intros [= E].
    destruct (render_split (sorted_value v) (sorted_value w) "" "") as [? _]; [by apply sorted_ok..|done|done| |done].
    by rewrite E.
  - intros E. rewrite <-E, <-(nesting_sorted w), <-E, nesting_sorted by done.
    by rewrite (proj2 (Nat.leb_le _ _)) by lia.
Qed.

(** Equal digests: the same value, or two renderings that collide. *)
Definition collide (a b : bytes) : Prop := a <> b /\ sha256 a = sha256 b.

Lemma digest_of_inj v w d :
  value_ok v = true -> value_ok w = true -> digest_of v = Ok d -> digest_of w = Ok d ->
  sorted_value v = sorted_value w \/
  exists a b, canonical_json v = Ok a /\ canonical_json w = Ok b /\ collide a b.
Proof.
  intros Hv Hw (a&Ha&Dv)%result_bind_Ok (b&Hb&Dw)%result_bind_Ok. injection Dv as <-. injection Dw as Dw.
  apply (inj bytes_hex) in Dw. destruct (decide (a = b)) as [->|Hne].
  - left. by apply (canonical_json_iff v w b).
  - right. exists a, b. split; [done|]. split; [done|]. by split.
Qed.

Lemma digest_of_prefix v d : digest_of v = Ok d -> exists h, d = "sha256:" +:+ h.
Proof. intros (a&_&[= <-])%result_bind_Ok. by eexists. Qed.

(** The canonical rendering is faithful: a value has one exactly when it is
    not nested too deeply; two values have the same one exactly when they
    differ at most in the order of members, at any depth. *)
Theorem canonical_json_faithful v :
  value_ok v = true ->
  (is_ok (canonical_json v) = true <-> nesting v <= MAX_CANONICAL_DEPTH) /\
  forall w s, value_ok w = true -> canonical_json v = Ok s ->
    (canonical_json w = Ok s <-> sorted_value v = sorted_value w).
Proof.
  intros Hv. split; [|by intros w s Hw; apply canonical_json_iff].
  unfold canonical_json. rewrite write_canonical_eq by done. unfold within.
  destruct (Nat.leb_spec (0 + nesting v) MAX_CANONICAL_DEPTH); simpl; split; done || lia.
Qed.

End injectivity.
