(* ===== verification/Evidence.v ===== *)
(** * Evidence records and their hash chain (crates/mecmcp-audit/src/evidence.rs)

    The four records of a configuration change, the hash each is given, and
    the segments they are linked into.  The facts are what the chain is for:
    whoever recomputes the hashes of two histories that end in the same head
    hash has the same history, or a collision of SHA-256. *)

From S2P Require Import Prelude Externals Json Digest Text Canonical.
From Stdlib Require Import Ascii.

Open Scope list_scope.

(** ** Records

    The fields the four record types of evidence.rs have in common. *)

Record Facts := {
  ev_request_id : string;
  ev_changeset_id : string;
  ev_device_id : string;
  ev_principal : string;
  ev_diff_hash : string;
  ev_timestamp : string;
  ev_run_id : string;
  ev_server_id : string;
  ev_segment_seq : N;
  ev_prev_hash : string;
  ev_metadata : option json;
}.

Inductive EvidenceRecord :=
| Proposal (f : Facts)
| Approval (f : Facts) (approver decision : string)
| ApplyIntent (f : Facts)
| ResultReceipt (f : Facts) (outcome : string) (error : option string).

Definition facts (r : EvidenceRecord) : Facts :=
  match r with Proposal f | Approval f _ _ | ApplyIntent f | ResultReceipt f _ _ => f end.

Definition with_facts (f : Facts) (r : EvidenceRecord) : EvidenceRecord :=
  match r with
  | Proposal _ => Proposal f
  | Approval _ approver decision => Approval f approver decision
  | ApplyIntent _ => ApplyIntent f
  | ResultReceipt _ outcome error => ResultReceipt f outcome error
  end.

Definition record_kind (r : EvidenceRecord) : string :=
  match r with
  | Proposal _ => "evidence:proposal"
  | Approval _ _ _ => "evidence:approval"
  | ApplyIntent _ => "evidence:apply_intent"
  | ResultReceipt _ _ _ => "evidence:result_receipt"
  end.

(** The members only one kind of record has. *)
Definition own_members (r : EvidenceRecord) : list (string * json) :=
  match r with
  | Approval _ approver decision => [("approver", JString approver); ("decision", JString decision)]
  | ResultReceipt _ outcome error =>
      ("outcome", JString outcome) :: from_option (fun e => [("error", JString e)]) [] error
  | _ => []
  end.

Definition fact_members (f : Facts) : list (string * json) :=
  [("request_id", JString (ev_request_id f)); ("changeset_id", JString (ev_changeset_id f));
   ("device_id", JString (ev_device_id f)); ("principal", JString (ev_principal f));
   ("diff_hash", JString (ev_diff_hash f)); ("timestamp", JString (ev_timestamp f));
   ("run_id", JString (ev_run_id f)); ("server_id", JString (ev_server_id f));
   ("segment_seq", json_u64 (ev_segment_seq f)); ("prev_hash", JString (ev_prev_hash f))].

(** [serde_json::to_value] of a record: the tag, then the fields; an absent
    [error] or [metadata] is left out. *)
Definition record_value (r : EvidenceRecord) : json :=
  JObject (("kind", JString (record_kind r)) :: fact_members (facts r) ++ own_members r
           ++ from_option (fun v => [("metadata", v)]) [] (ev_metadata (facts r))).

(** ** Segments *)

Record ChainSegment := {
  sg_run_id : string;
  sg_server_id : string;
  sg_segment_seq : N;
  sg_prev_hash : string;
  sg_records : list EvidenceRecord;
  sg_last_hash : option string;
}.

Record ClosedSegment := {
  cl_run_id : string;
  cl_server_id : string;
  cl_segment_seq : N;
  cl_prev_hash : string;
  cl_records : list EvidenceRecord;
  cl_head_hash : string;
  cl_signature : option string;
}.

Inductive EvidenceError :=
| Canonical (e : CanonicalError)
| RunIdNotMonotonic (current_run_id new_run_id : string)
| EnvelopeMismatch (field record_value segment_value : string).

Definition chain_segment_new (run_id server_id : string) (segment_seq : N) (prev_hash : string) :
  ChainSegment := {|
  sg_run_id := run_id; sg_server_id := server_id; sg_segment_seq := segment_seq;
  sg_prev_hash := prev_hash; sg_records := []; sg_last_hash := None |}.

(** ** Archive *)

Definition archive (segments : list ClosedSegment) (segment : ClosedSegment) :
  result (list ClosedSegment) EvidenceError :=
  match last segments with
  | Some l =>
      if negb (String.leb (cl_run_id l) (cl_run_id segment))
      then Err (RunIdNotMonotonic (cl_run_id l) (cl_run_id segment))
      else Ok (segments ++ [segment])
  | None => Ok [segment]
  end.

Definition server_id_byte (c : ascii) : bool :=
  let n := N_of_ascii c in
  is_ascii_digit c || ((65 <=? n)%N && (n <=? 90)%N) || ((97 <=? n)%N && (n <=? 122)%N)
  || Ascii.eqb c "_" || Ascii.eqb c "-".

Definition validate_server_id (server_id : string) : result unit string :=
  ensure negb (is_blank server_id) else "server_id is empty";
  ensure str_forall server_id_byte server_id
    else ("server_id '" +:+ server_id
          +:+ "' contains unsafe characters (only [A-Za-z0-9_-] allowed)");
  Ok tt.

Section chain.
Context `{Externals} `{JsonStrings}.

(** ** Hashing and linking *)

Definition compute_record_hash (r : EvidenceRecord) (prev_hash : string) :
  result string EvidenceError :=
  let envelope := match record_value r with
                  | JObject l => JObject (map_insert "prev_hash" (JString prev_hash) l)
                  | v => v
                  end in
  map_err Canonical (digest_of envelope).

Definition set_envelope (seg : ChainSegment) (prev : string) (f : Facts) : Facts := {|
  ev_request_id := ev_request_id f; ev_changeset_id := ev_changeset_id f;
  ev_device_id := ev_device_id f; ev_principal := ev_principal f;
  ev_diff_hash := ev_diff_hash f; ev_timestamp := ev_timestamp f;
  ev_run_id := sg_run_id seg; ev_server_id := sg_server_id seg;
  ev_segment_seq := sg_segment_seq seg; ev_prev_hash := prev; ev_metadata := ev_metadata f |}.

Definition validate_and_inject (seg : ChainSegment) (prev : string) (f : Facts) :
  result Facts EvidenceError :=
  ensure is_empty_str (ev_run_id f) || String.eqb (ev_run_id f) (sg_run_id seg)
    else (EnvelopeMismatch "run_id" (ev_run_id f) (sg_run_id seg));
  ensure is_empty_str (ev_server_id f) || String.eqb (ev_server_id f) (sg_server_id seg)
    else (EnvelopeMismatch "server_id" (ev_server_id f) (sg_server_id seg));
  ensure (ev_segment_seq f =? 0)%N || (ev_segment_seq f =? sg_segment_seq seg)%N
    else (EnvelopeMismatch "segment_seq" (pretty (ev_segment_seq f)) (pretty (sg_segment_seq seg)));
  ensure is_empty_str (ev_prev_hash f)
    else (EnvelopeMismatch "prev_hash" (ev_prev_hash f) prev);
  Ok (set_envelope seg prev f).

Definition seg_head (seg : ChainSegment) : string :=
  default (sg_prev_hash seg) (sg_last_hash seg).

Definition chain_append (seg : ChainSegment) (record : EvidenceRecord) :
  result string EvidenceError * ChainSegment :=
  let prev := seg_head seg in
  match (let? f := validate_and_inject seg prev (facts record) in
         let record := with_facts f record in
         let? hash := compute_record_hash record prev in
         Ok (hash, record)) with
  | Err e => (Err e, seg)
  | Ok (hash, record) =>
      (Ok hash, {| sg_run_id := sg_run_id seg; sg_server_id := sg_server_id seg;
                   sg_segment_seq := sg_segment_seq seg; sg_prev_hash := sg_prev_hash seg;
                   sg_records := sg_records seg ++ [record]; sg_last_hash := Some hash |})
  end.

Definition close (seg : ChainSegment) : result ClosedSegment EvidenceError :=
  Ok {| cl_run_id := sg_run_id seg; cl_server_id := sg_server_id seg;
        cl_segment_seq := sg_segment_seq seg; cl_prev_hash := sg_prev_hash seg;
        cl_records := sg_records seg; cl_head_hash := seg_head seg; cl_signature := None |}.

End chain.

(** ** Records as values *)

(** A record whose metadata is a JSON value. *)
Definition record_ok (r : EvidenceRecord) : bool := from_option value_ok true (ev_metadata (facts r)).

Lemma pretty_N_number (n : N) : number_text (pretty n) = true.
Proof.
  destruct (pretty_N_digits n) as [Hd Hne]. unfold number_text. apply andb_true_iff. split.
  - by destruct (pretty n).
  - clear Hne. induction (pretty n) as [|c s IH]; [done|]. cbn [str_forall] in Hd |- *.
    apply andb_true_iff in Hd as [Hc Hs]. rewrite (IH Hs), andb_true_r.
    unfold number_byte. unfold is_ascii_digit in Hc. by rewrite Hc.
Qed.

Lemma record_value_ok r : record_ok r = true -> value_ok (record_value r) = true.
Proof.
  intros Hr. unfold record_value. cbn [value_ok]. apply andb_true_iff. split.
  - apply bool_decide_eq_true. destruct r as [f|f ? ?|f|f ? [e|]]; cbn [facts own_members from_option] in *;
      destruct (ev_metadata f); apply (bool_decide_unpack (NoDup _)); vm_compute; exact I.
  - cbn [forallb snd]. rewrite !forallb_app. unfold fact_members, json_u64. cbn [forallb snd value_ok].
    rewrite pretty_N_number. cbn [andb].
    unfold record_ok in Hr. destruct (ev_metadata (facts r)) as [v|]; cbn in Hr |- *; rewrite ?Hr;
      by destruct r as [f|f ? ?|f|f ? [e|]].
Qed.

(** A record up to the order of members in its metadata. *)
Definition normal (r : EvidenceRecord) : EvidenceRecord :=
  let f := facts r in
  with_facts {| ev_request_id := ev_request_id f; ev_changeset_id := ev_changeset_id f;
                ev_device_id := ev_device_id f; ev_principal := ev_principal f;
                ev_diff_hash := ev_diff_hash f; ev_timestamp := ev_timestamp f;
                ev_run_id := ev_run_id f; ev_server_id := ev_server_id f;
                ev_segment_seq := ev_segment_seq f; ev_prev_hash := ev_prev_hash f;
                ev_metadata := sorted_value <$> ev_metadata f |} r.

Lemma assoc_fmap k (f : json -> json) l : assoc k (prod_map id f <$> l) = f <$> assoc k l.
Proof.
  induction l as [|[k' v] l IH]; [done|]. rewrite fmap_cons. cbn [assoc prod_map fst snd].
  unfold id. by destruct (String.eqb k k').
Qed.

Lemma assoc_perm k (l l' : list (string * json)) : NoDup l.*1 -> l ≡ₚ l' -> assoc k l = assoc k l'.
Proof.
  intros Hnd Hp. assert (NoDup l'.*1) as Hnd' by (by rewrite <-Hp). apply option_eq. intros v. split.
  - intros Ha%assoc_Some. rewrite Hp in Ha. by apply assoc_unique.
  - intros Ha%assoc_Some. rewrite <-Hp in Ha. by apply assoc_unique.
Qed.

(** Equal up to order: every member is equal up to order. *)
Lemma sorted_member l l' k :
  NoDup l.*1 -> NoDup l'.*1 -> sorted_value (JObject l) = sorted_value (JObject l') ->
  sorted_value <$> assoc k l = sorted_value <$> assoc k l'.
Proof.
  intros Hnd Hnd' E. cbn [sorted_value] in E. injection E as E.
  change ((fun kv : string * json => (kv.1, sorted_value kv.2)) <$> l) with (prod_map id sorted_value <$> l) in E.
  change ((fun kv : string * json => (kv.1, sorted_value kv.2)) <$> l') with (prod_map id sorted_value <$> l') in E.
  rewrite <-!assoc_fmap. apply assoc_perm; [by rewrite <-list_fmap_compose|].
  rewrite <-(merge_sort_Permutation key_le (prod_map id sorted_value <$> l)), E.
  apply merge_sort_Permutation.
Qed.

Lemma record_value_inj r r' :
  record_ok r = true -> record_ok r' = true ->
  sorted_value (record_value r) = sorted_value (record_value r') -> normal r = normal r'.
Proof.
  intros Hr%record_value_ok Hr'%record_value_ok E. unfold record_value in *. cbn [value_ok] in Hr, Hr'.
  apply andb_true_iff in Hr as [Hr%bool_decide_eq_true _], Hr' as [Hr'%bool_decide_eq_true _].
  assert (forall k, _) as Hk by (intros k; exact (sorted_member _ _ k Hr Hr' E)). clear E Hr Hr'.
  assert (ev_segment_seq (facts r) = ev_segment_seq (facts r')) as E9.
  { apply json_u64_inj. specialize (Hk "segment_seq"). cbn in Hk. injection Hk as Hk.
    unfold json_u64. by rewrite Hk. }
  pose proof (Hk "request_id") as E1. pose proof (Hk "changeset_id") as E2.
  pose proof (Hk "device_id") as E3. pose proof (Hk "principal") as E4.
  pose proof (Hk "diff_hash") as E5. pose proof (Hk "timestamp") as E6.
  pose proof (Hk "run_id") as E7. pose proof (Hk "server_id") as E8.
  pose proof (Hk "prev_hash") as E10. cbn in E1, E2, E3, E4, E5, E6, E7, E8, E10.
  injection E1 as E1. injection E2 as E2. injection E3 as E3. injection E4 as E4. injection E5 as E5.
  injection E6 as E6. injection E7 as E7. injection E8 as E8. injection E10 as E10.
  pose proof (Hk "kind") as Ek. pose proof (Hk "metadata") as E11. pose proof (Hk "approver") as E12.
  pose proof (Hk "decision") as E13. pose proof (Hk "outcome") as E14. pose proof (Hk "error") as E15.
  clear Hk. unfold normal.
  assert (sorted_value <$> ev_metadata (facts r) = sorted_value <$> ev_metadata (facts r')) as Em.
  { destruct r as [f|f a d|f|f o [e|]], r' as [f'|f' a' d'|f'|f' o' [e'|]]; try discriminate Ek;
      cbn in E11; cbn [facts]; destruct (ev_metadata f), (ev_metadata f'); cbn in E11 |- *; congruence. }
  rewrite E1, E2, E3, E4, E5, E6, E7, E8, E9, E10, Em.
  destruct r as [f|f a d|f|f o e], r' as [f'|f' a' d'|f'|f' o' e']; try discriminate Ek; cbn [with_facts facts];
    [done| |done|].
  - cbn in E12, E13. congruence.
  - cbn [facts] in E15. destruct e, e', (ev_metadata f), (ev_metadata f'); cbn in E14, E15; congruence.
Qed.

(** ** The chain *)

Section chain_facts.
Context `{Externals} `{JL : JsonStringsLaws}.
Implicit Types r : EvidenceRecord.

(** The hash of a record as anyone who holds the record computes it; the
    record carries the hash of its predecessor. *)
Definition record_hash r : result string CanonicalError := digest_of (record_value r).

Lemma compute_record_hash_eq r prev :
  ev_prev_hash (facts r) = prev -> compute_record_hash r prev = map_err Canonical (record_hash r).
Proof. intros <-. by destruct r. Qed.

(** Records that link up from one hash to another. *)
Fixpoint linked (prev : string) (rs : list EvidenceRecord) (head : string) : Prop :=
  match rs with
  | [] => head = prev
  | r :: rs => ev_prev_hash (facts r) = prev /\ exists h, record_hash r = Ok h /\ linked h rs head
  end.

Lemma linked_app prev rs rs' head :
  linked prev (rs ++ rs') head <-> exists mid, linked prev rs mid /\ linked mid rs' head.
Proof.
  revert prev. induction rs as [|r rs IH]; intros prev; cbn [linked app]; [naive_solver|].
  setoid_rewrite IH. naive_solver.
Qed.

Lemma linked_snoc prev rs r head :
  linked prev (rs ++ [r]) head <->
  exists mid, linked prev rs mid /\ ev_prev_hash (facts r) = mid /\ record_hash r = Ok head.
Proof. rewrite linked_app. cbn [linked]. naive_solver. Qed.

(** The envelope a segment gives its records. *)
Definition enveloped (run_id server_id : string) (seq : N) r : Prop :=
  ev_run_id (facts r) = run_id /\ ev_server_id (facts r) = server_id /\ ev_segment_seq (facts r) = seq.

Record segment_ok (seg : ChainSegment) : Prop := {
  so_linked : linked (sg_prev_hash seg) (sg_records seg) (seg_head seg);
  so_empty : sg_records seg = [] -> sg_last_hash seg = None;
  so_envelope : Forall (enveloped (sg_run_id seg) (sg_server_id seg) (sg_segment_seq seg)) (sg_records seg);
}.

Lemma segment_new_ok run server seq prev : segment_ok (chain_segment_new run server seq prev).
Proof. by split. Qed.

Lemma facts_with f r : facts (with_facts f r) = f.
Proof. by destruct r. Qed.

(** What appending to a segment does when it succeeds. *)
Lemma chain_append_Ok seg record h seg' :
  chain_append seg record = (Ok h, seg') ->
  let r := with_facts (set_envelope seg (seg_head seg) (facts record)) record in
  record_hash r = Ok h /\
  seg' = {| sg_run_id := sg_run_id seg; sg_server_id := sg_server_id seg;
            sg_segment_seq := sg_segment_seq seg; sg_prev_hash := sg_prev_hash seg;
            sg_records := sg_records seg ++ [r]; sg_last_hash := Some h |}.
Proof.
  unfold chain_append. destruct (let? _ := _ in _) as [[h' r]|] eqn:E; [|done]. intros [= <- <-].
  unfold validate_and_inject in E. inv_ok. subst.
  rewrite compute_record_hash_eq in Hok0 by (by rewrite facts_with). by apply map_err_Ok in Hok0.
Qed.

Lemma chain_append_ok seg record :
  segment_ok seg -> segment_ok (chain_append seg record).2.
Proof.
  intros [Hl He Hv]. destruct (chain_append seg record) as [[h|e] seg'] eqn:E; cbn [snd].
  - apply chain_append_Ok in E as [Hh ->]. split; cbn; [|by destruct (sg_records seg)|].
    + apply linked_snoc. exists (seg_head seg). by rewrite facts_with.
    + apply Forall_app. split; [done|]. constructor; [|constructor]. unfold enveloped. by rewrite facts_with.
  - unfold chain_append in E. destruct (let? _ := _ in _) as [[]|]; [done|].
    injection E as _ <-. by split.
Qed.

(** ** Tamper evidence *)

Lemma record_hash_nonempty r h : record_hash r = Ok h -> h <> "".
Proof. intros [d ->]%digest_of_prefix. done. Qed.

(** A history that ends where another one, from the start of a chain, ends is
    its last part. *)
Lemma linked_suffix start rs rs' head :
  linked start rs head -> linked "" rs' head ->
  Forall (fun r => record_ok r = true) rs -> Forall (fun r => record_ok r = true) rs' ->
  (exists pre, normal <$> rs' = pre ++ (normal <$> rs) /\ (start = "" -> pre = [])) \/
  exists r r' a b, r ∈ rs /\ r' ∈ rs' /\ canonical_json (record_value r) = Ok a /\
    canonical_json (record_value r') = Ok b /\ collide a b.
Proof.
  revert rs' head. induction rs as [|r rs IH] using rev_ind; intros rs' head Hl Hl' Hok Hok'.
  - left. exists (normal <$> rs'). rewrite app_nil_r. split; [done|]. intros ->. cbn in Hl. subst head.
    destruct rs' as [|r' rs' _] using rev_ind; [done|].
    apply linked_snoc in Hl' as (?&_&_&Hh). by apply record_hash_nonempty in Hh.
  - destruct rs' as [|r' rs' _] using rev_ind.
    { cbn in Hl'. subst head. apply linked_snoc in Hl as (?&_&_&Hh). by apply record_hash_nonempty in Hh. }
    apply linked_snoc in Hl as (mid&Hl&Hm&Hh), Hl' as (mid'&Hl'&Hm'&Hh').
    apply Forall_app in Hok as [Hok Hr], Hok' as [Hok' Hr']. rewrite Forall_singleton in Hr, Hr'.
    destruct (digest_of_inj _ _ _ (record_value_ok r Hr) (record_value_ok r' Hr') Hh Hh')
      as [E|(a&b&Ha&Hb&Hc)]; [|right; exists r, r', a, b; set_solver].
    apply record_value_inj in E; [|done..].
    assert (mid = mid') as <-.
    { rewrite <-Hm, <-Hm'. apply (f_equal (fun r => ev_prev_hash (facts r))) in E.
      unfold normal in E. by rewrite !facts_with in E. }
    destruct (IH rs' mid Hl Hl' Hok Hok') as [(pre&Er&Hpre)|(x&x'&a&b&?&?&?)]; [left|right].
    + exists pre. split; [|done]. rewrite !fmap_app, Er, app_assoc. cbn. by rewrite E.
    + exists x, x', a, b. set_solver.
Qed.

(** A head hash names one history: two sequences of records that link up
    from the start of a chain to the same head are the same, record for
    record, up to the order of members in their metadata, unless the canonical
    renderings of two of them collide under SHA-256. *)
Theorem head_names_history rs rs' head :
  linked "" rs head -> linked "" rs' head ->
  Forall (fun r => record_ok r = true) rs -> Forall (fun r => record_ok r = true) rs' ->
  normal <$> rs = normal <$> rs' \/
  exists r r' a b, r ∈ rs /\ r' ∈ rs' /\ canonical_json (record_value r) = Ok a /\
    canonical_json (record_value r') = Ok b /\ collide a b.
Proof.
  intros Hl Hl' Hok Hok'. destruct (linked_suffix "" rs rs' head Hl Hl' Hok Hok') as [(pre&E&Hpre)|?]; [left|by right].
  by rewrite E, (Hpre eq_refl).
Qed.

End chain_facts.
