(* ===== verification/Recorder.v ===== *)
(** * The evidence recorder (crates/mecmcp-audit/src/recorder.rs)

    One recorder owns the chain of one run: lifecycle points append records,
    full segments close and are signed, and a flush hands what is closed to
    the durable spool.  Every region under the recorder's mutex is one
    definition; threads interleave between them, a flush also between any two
    writes.  The head signature and the key files are signing.rs. *)

From S2P Require Import Prelude Externals Json Digest Text Canonical Evidence.
From Stdlib Require Import Ascii.

Open Scope list_scope.

(** ** Signing heads (signing.rs) *)

Inductive SigningError :=
| KeyFilePermissionsTooPermissive (path : string) (mode : N)
| KeyFileIo (path error : string)
| InvalidKeyEncoding (why : string)
| InvalidSignatureEncoding (why : string)
| InvalidHeadHash (why : string)
| VerificationFailed.

(** [{:04o}] of a mode of at most four digits. *)
Definition octal4 (mode : N) : string :=
  let digit k := String (ascii_of_N (48 + (mode / 8 ^ k) mod 8)) "" in
  digit 3%N +:+ digit 2%N +:+ digit 1%N +:+ digit 0%N.

Definition signing_error_text (e : SigningError) : string :=
  match e with
  | KeyFilePermissionsTooPermissive path mode =>
      "key file " +:+ path +:+ " has mode " +:+ octal4 mode +:+ " (must be 0600)"
  | KeyFileIo path error => "failed to read key file " +:+ path +:+ ": " +:+ error
  | InvalidKeyEncoding e => "invalid key encoding: " +:+ e
  | InvalidSignatureEncoding e => "invalid signature encoding: " +:+ e
  | InvalidHeadHash e => "invalid head hash format: " +:+ e
  | VerificationFailed => "signature verification failed"
  end.

(** [hex::decode_to_slice]. *)
Definition hex_value (c : ascii) : option N :=
  let n := N_of_ascii c in
  if (48 <=? n)%N && (n <=? 57)%N then Some (n - 48)%N
  else if (97 <=? n)%N && (n <=? 102)%N then Some (n - 87)%N
  else if (65 <=? n)%N && (n <=? 70)%N then Some (n - 55)%N
  else None.

Fixpoint hex_decode (s : string) : option bytes :=
  match s with
  | EmptyString => Some ""
  | String a (String b s) =>
      x ← hex_value a; y ← hex_value b; r ← hex_decode s;
      Some (String (ascii_of_N (16 * x + y)) r)
  | String _ EmptyString => None
  end.

Definition decode_head_hash (head_hash : string) : result bytes SigningError :=
  let? hex_part := ok_or (strip_prefix "sha256:" head_hash)
                     (InvalidHeadHash "missing 'sha256:' prefix") in
  ensure (str_len hex_part =? 64)%N
    else (InvalidHeadHash ("expected 64 hex characters, got " +:+ pretty (str_len hex_part)));
  ok_or (hex_decode hex_part) (InvalidHeadHash "hex decode failed").

(** Ed25519 and base64. *)
Class Signing := {
  SigningKey : Type;
  VerifyingKey : Type;
  verifying_key : SigningKey -> VerifyingKey;
  ed25519_sign : SigningKey -> bytes -> bytes;
  ed25519_verify : VerifyingKey -> bytes -> bytes -> bool;
  base64_encode : bytes -> string;
  base64_decode : string -> result bytes string;
}.

Class SigningLaws `(Signing) : Prop := {
  sign_len : forall k b, String.length (ed25519_sign k b) = 64;
  sign_verifies : forall k b, ed25519_verify (verifying_key k) b (ed25519_sign k b) = true;
  base64_round_trip : forall b, base64_decode (base64_encode b) = Ok b;
}.

Section signing.
Context `{Signing}.

Definition sign_digest (digest : string) (key : SigningKey) : result bytes SigningError :=
  let? digest_bytes := decode_head_hash digest in Ok (ed25519_sign key digest_bytes).

Definition verify_digest (digest : string) (signature : bytes) (key : VerifyingKey) :
  result unit SigningError :=
  let? digest_bytes := decode_head_hash digest in
  ensure ed25519_verify key digest_bytes signature else VerificationFailed;
  Ok tt.

Definition sign_head (closed : ClosedSegment) (key : SigningKey) : result bytes SigningError :=
  sign_digest (cl_head_hash closed) key.

Definition verify_head (closed : ClosedSegment) (signature : bytes) (key : VerifyingKey) :
  result unit SigningError := verify_digest (cl_head_hash closed) signature key.

Definition encode_signature (signature : bytes) : string := base64_encode signature.

Definition decode_signature (encoded : string) : result bytes SigningError :=
  let? b := map_err (fun e => InvalidSignatureEncoding ("base64 decode failed: " +:+ e))
              (base64_decode encoded) in
  ensure (str_len b =? 64)%N
    else (InvalidSignatureEncoding ("expected 64 bytes, got " +:+ pretty (str_len b)));
  Ok b.

End signing.

(** ** The recorder *)

Definition SSDF_CHAIN_START : string := "".
Definition MAX_TRACKED_CHANGES : nat := 1024.

Record RecorderConfig := {
  rc_server_id : string;
  rc_run_id : string;
  rc_resume_from : option string;
  rc_records_per_segment : nat;
}.

Record ChangeContext := { cx_device_id : string; cx_principal : string; cx_diff_hash : string }.

Definition no_context : ChangeContext := {| cx_device_id := ""; cx_principal := ""; cx_diff_hash := "" |}.

Record RecorderState := {
  rs_current : ChainSegment;
  rs_next_seq : N;
  rs_prev_head : string;
  rs_closed : list ClosedSegment;
  rs_context : gmap string ChangeContext;
  rs_context_order : list string;
}.

Definition resume_head (remote local_newest : option string) : option string :=
  match local_newest with Some h => Some h | None => remote end.

Definition waiver_metadata (kind reason : string) (expires_at_unix : option N)
  (ticket : option string) : json :=
  JObject ([("waived", JString kind); ("reason", JString reason)]
    ++ from_option (fun e => [("expires_at_unix", json_u64 e)]) [] expires_at_unix
    ++ from_option (fun t => [("ticket", JString t)]) [] ticket).

Section recorder.
Context `{Externals} `{JsonStrings} `{Signing}.
Variable cfg : RecorderConfig.
Variable signing_key : option SigningKey.

Definition chain_start : string := default SSDF_CHAIN_START (rc_resume_from cfg).

Definition recorder_new : RecorderState := {|
  rs_current := chain_segment_new (rc_run_id cfg) (rc_server_id cfg) 0 chain_start;
  rs_next_seq := 1; rs_prev_head := chain_start; rs_closed := [];
  rs_context := ∅; rs_context_order := [] |}.

Definition signed (c : ClosedSegment) : ClosedSegment :=
  match signing_key with
  | None => c
  | Some key =>
      match sign_head c key with
      | Ok signature =>
          {| cl_run_id := cl_run_id c; cl_server_id := cl_server_id c;
             cl_segment_seq := cl_segment_seq c; cl_prev_hash := cl_prev_hash c;
             cl_records := cl_records c; cl_head_hash := cl_head_hash c;
             cl_signature := Some (encode_signature signature) |}
      | Err _ => c
      end
  end.

(** Closing the open segment and starting the next, linked to its head.
    ([close] has no error to return; the segment would be lost with it.) *)
Definition roll (st : RecorderState) : option ClosedSegment * RecorderState :=
  match sg_records (rs_current st) with
  | [] => (None, st)
  | _ =>
      let successor prev := chain_segment_new (rc_run_id cfg) (rc_server_id cfg) (rs_next_seq st) prev in
      match close (rs_current st) with
      | Err _ =>
          (None, {| rs_current := successor ""; rs_next_seq := rs_next_seq st;
                    rs_prev_head := rs_prev_head st; rs_closed := rs_closed st;
                    rs_context := rs_context st; rs_context_order := rs_context_order st |})
      | Ok c =>
          let closed := signed c in
          (Some closed,
           {| rs_current := successor (cl_head_hash closed); rs_next_seq := (rs_next_seq st + 1)%N;
              rs_prev_head := cl_head_hash closed; rs_closed := rs_closed st;
              rs_context := rs_context st; rs_context_order := rs_context_order st |})
      end
  end.

Definition set_current (c : ChainSegment) (st : RecorderState) : RecorderState := {|
  rs_current := c; rs_next_seq := rs_next_seq st; rs_prev_head := rs_prev_head st;
  rs_closed := rs_closed st; rs_context := rs_context st; rs_context_order := rs_context_order st |}.

Definition set_closed (l : list ClosedSegment) (st : RecorderState) : RecorderState := {|
  rs_current := rs_current st; rs_next_seq := rs_next_seq st; rs_prev_head := rs_prev_head st;
  rs_closed := l; rs_context := rs_context st; rs_context_order := rs_context_order st |}.

Definition set_context (c : gmap string ChangeContext) (o : list string) (st : RecorderState) :
  RecorderState := {|
  rs_current := rs_current st; rs_next_seq := rs_next_seq st; rs_prev_head := rs_prev_head st;
  rs_closed := rs_closed st; rs_context := c; rs_context_order := o |}.

(** Append, rolling the segment when it is full; a record that cannot be
    appended is dropped. *)
Definition recorder_append (record : EvidenceRecord) (st : RecorderState) : RecorderState :=
  match chain_append (rs_current st) record with
  | (Err _, _) => st
  | (Ok _, current) =>
      let st := set_current current st in
      if (rc_records_per_segment cfg <=? length (sg_records current))%nat then
        match roll st with
        | (Some closed, st) => set_closed (rs_closed st ++ [closed]) st
        | (None, st) => st
        end
      else st
  end.

(** ** What a change was proposed as *)

Fixpoint evict_oldest (order : list string) (context : gmap string ChangeContext) :
  list string * gmap string ChangeContext :=
  if (MAX_TRACKED_CHANGES <=? size context)%nat then
    match order with
    | [] => ([], context)
    | oldest :: order => evict_oldest order (delete oldest context)
    end
  else (order, context).

Definition remember (changeset_id : string) (c : ChangeContext) (st : RecorderState) : RecorderState :=
  let replacing := bool_decide (is_Some (rs_context st !! changeset_id)) in
  let '(order, context) :=
    if replacing then (rs_context_order st, rs_context st)
    else evict_oldest (rs_context_order st) (rs_context st) in
  let order := if replacing then order else order ++ [changeset_id] in
  set_context (<[changeset_id := c]> context) order st.

Definition forget (changeset_id : string) (st : RecorderState) : RecorderState :=
  match rs_context st !! changeset_id with
  | Some _ => set_context (delete changeset_id (rs_context st))
                (base.filter (fun tracked => tracked <> changeset_id) (rs_context_order st)) st
  | None => st
  end.

Definition context_for (changeset_id : string) (st : RecorderState) : ChangeContext :=
  default no_context (rs_context st !! changeset_id).

(** ** Lifecycle points: the records they append *)

(** Every record leaves its envelope to the segment. *)
Definition blank (request_id changeset_id device_id principal diff_hash now : string)
  (metadata : option json) : Facts := {|
  ev_request_id := request_id; ev_changeset_id := changeset_id; ev_device_id := device_id;
  ev_principal := principal; ev_diff_hash := diff_hash; ev_timestamp := now; ev_run_id := "";
  ev_server_id := ""; ev_segment_seq := 0; ev_prev_hash := ""; ev_metadata := metadata |}.

Definition proposal (now request_id changeset_id device_id principal diff_hash : string)
  (st : RecorderState) : RecorderState :=
  recorder_append (Proposal (blank request_id changeset_id device_id principal diff_hash now None))
    (remember changeset_id
       {| cx_device_id := device_id; cx_principal := principal; cx_diff_hash := diff_hash |} st).

Definition approval (now request_id changeset_id approver decision : string) (st : RecorderState) :
  RecorderState :=
  let context := context_for changeset_id st in
  let st := recorder_append (Approval (blank request_id changeset_id (cx_device_id context) approver
                                         (cx_diff_hash context) now None) approver decision) st in
  if String.eqb decision "approved" then st else forget changeset_id st.

Definition approval_waived (now request_id changeset_id kind reason : string)
  (expires_at_unix : option N) (ticket : option string) (st : RecorderState) : RecorderState :=
  let context := context_for changeset_id st in
  recorder_append (Approval (blank request_id changeset_id (cx_device_id context)
    (cx_principal context) (cx_diff_hash context) now
    (Some (waiver_metadata kind reason expires_at_unix ticket))) "" "approved") st.

(** Up to the flush. *)
Definition apply_intent (now request_id changeset_id device_id principal : string)
  (st : RecorderState) : RecorderState :=
  let context := context_for changeset_id st in
  recorder_append (ApplyIntent (blank request_id changeset_id device_id principal
                                  (cx_diff_hash context) now None)) st.

Definition result_receipt (now request_id changeset_id device_id principal : string)
  (succeeded : bool) (error : string) (st : RecorderState) : RecorderState :=
  let context := context_for changeset_id st in
  let st := recorder_append (ResultReceipt (blank request_id changeset_id device_id principal
      (cx_diff_hash context) now None) (if succeeded then "success" else "failure")
      (if is_empty_str error then None else Some error)) st in
  forget changeset_id st.

(** ** Flushing *)

Definition take_closed (st : RecorderState) : list ClosedSegment * RecorderState :=
  (rs_closed st, set_closed [] st).

Definition close_current (st : RecorderState) : option ClosedSegment * RecorderState := roll st.

(** Everything closed and the open segment, under one lock. *)
Definition claim (st : RecorderState) : list ClosedSegment * RecorderState :=
  let pending := rs_closed st in
  match roll (set_closed [] st) with
  | (Some closed, st) => (pending ++ [closed], st)
  | (None, st) => (pending, st)
  end.

(** What was not written goes back, oldest first. *)
Definition put_back (unwritten : list ClosedSegment) (st : RecorderState) : RecorderState :=
  set_closed (unwritten ++ rs_closed st) st.

(** The recorder, what the spool holds, and the flush in progress: the
    segments it has written and those it has not. *)
Record Moment := {
  mo_state : RecorderState;
  mo_outbox : list ClosedSegment;
  mo_flush : option (list ClosedSegment * list ClosedSegment);
}.

Definition blank_envelope (r : EvidenceRecord) : Prop :=
  ev_run_id (facts r) = "" /\ ev_server_id (facts r) = "" /\ ev_segment_seq (facts r) = 0%N /\
  ev_prev_hash (facts r) = "".

(** A step another thread can take while a flush is writing, or the flush's
    own next write. *)
Inductive busy_step (m : Moment) : Moment -> Prop :=
| busy_append r :
    blank_envelope r ->
    busy_step m {| mo_state := recorder_append r (mo_state m); mo_outbox := mo_outbox m;
                   mo_flush := mo_flush m |}
| busy_remember id c :
    busy_step m {| mo_state := remember id c (mo_state m); mo_outbox := mo_outbox m;
                   mo_flush := mo_flush m |}
| busy_forget id :
    busy_step m {| mo_state := forget id (mo_state m); mo_outbox := mo_outbox m;
                   mo_flush := mo_flush m |}
| busy_wrote written s left :
    mo_flush m = Some (written, s :: left) ->
    busy_step m {| mo_state := mo_state m; mo_outbox := mo_outbox m ++ [s];
                   mo_flush := Some (written ++ [s], left) |}.

Inductive flush_claims (m : Moment) : Moment -> Prop :=
| flush_claim pending st :
    mo_flush m = None -> claim (mo_state m) = (pending, st) ->
    flush_claims m {| mo_state := st; mo_outbox := mo_outbox m; mo_flush := Some ([], pending) |}.

(** The flush returns [Ok]. *)
Inductive flush_succeeds (m : Moment) : Moment -> Prop :=
| flush_success written :
    mo_flush m = Some (written, []) ->
    flush_succeeds m {| mo_state := mo_state m; mo_outbox := mo_outbox m; mo_flush := None |}.

(** The spool refuses a segment.  It may have reached the file all the same:
    the refusal can be that of the [fsync]. *)
Inductive flush_fails (m : Moment) : Moment -> Prop :=
| flush_failure written s left (landed : bool) :
    mo_flush m = Some (written, s :: left) ->
    flush_fails m {| mo_state := put_back (s :: left) (mo_state m);
                     mo_outbox := if landed then mo_outbox m ++ [s] else mo_outbox m;
                     mo_flush := None |}.

Definition recorder_step (m m' : Moment) : Prop :=
  busy_step m m' \/ flush_claims m m' \/ flush_succeeds m m' \/ flush_fails m m'.

Definition recorder_start : Moment :=
  {| mo_state := recorder_new; mo_outbox := []; mo_flush := None |}.

End recorder.

(** ** Closed segments that form one chain *)

Section sealed.
Context `{Externals} `{JL : JsonStringsLaws}.

(** Segments numbered from [n] that link up from [start] to [head]. *)
Fixpoint sealed (run_id server_id start : string) (n : N) (ps : list ClosedSegment) (head : string) :
  Prop :=
  match ps with
  | [] => head = start
  | p :: ps =>
      cl_prev_hash p = start /\ cl_segment_seq p = n /\ cl_run_id p = run_id /\
      cl_server_id p = server_id /\ cl_records p <> [] /\
      linked start (cl_records p) (cl_head_hash p) /\
      Forall (enveloped run_id server_id n) (cl_records p) /\
      sealed run_id server_id (cl_head_hash p) (n + 1) ps head
  end.

Lemma sealed_app run server start n ps ps' head :
  sealed run server start n (ps ++ ps') head <->
  exists mid, sealed run server start n ps mid /\
    sealed run server mid (n + N.of_nat (length ps)) ps' head.
Proof.
  revert start n. induction ps as [|p ps IH]; intros start n; cbn [sealed app length].
  - rewrite N.add_0_r. naive_solver.
  - setoid_rewrite IH. replace (n + N.of_nat (S (length ps)))%N with (n + 1 + N.of_nat (length ps))%N by lia.
    naive_solver.
Qed.

(** The records of such segments, one after the other, are one chain. *)
Lemma sealed_linked run server start n ps head :
  sealed run server start n ps head -> linked start (ps ≫= cl_records) head.
Proof.
  revert start n. induction ps as [|p ps IH]; intros start n; cbn [sealed]; [done|].
  intros (_&_&_&_&_&Hl&_&Hs). rewrite bind_cons. apply linked_app. eauto.
Qed.

Lemma sealed_seq run server start n ps head i p :
  sealed run server start n ps head -> ps !! i = Some p -> cl_segment_seq p = (n + N.of_nat i)%N.
Proof.
  revert start n i. induction ps as [|q ps IH]; intros start n i; [done|].
  cbn [sealed]. intros (_&Hq&_&_&_&_&_&Hs). destruct i as [|i]; [intros [= <-]; rewrite Hq; lia|].
  intros Hi. rewrite (IH _ _ i Hs Hi). lia.
Qed.

End sealed.

(** A repeated write of the same segment, collapsed. *)
Fixpoint squash (l : list ClosedSegment) : list ClosedSegment :=
  match l with
  | s :: (s' :: _) as l => if (cl_segment_seq s =? cl_segment_seq s')%N then squash l else s :: squash l
  | l => l
  end.

Lemma squash_cons s s' l :
  squash (s :: s' :: l) = if (cl_segment_seq s =? cl_segment_seq s')%N then squash (s' :: l)
                          else s :: squash (s' :: l).
Proof. done. Qed.

Lemma last_squash l : last (squash l) = last l.
Proof.
  induction l as [|s [|s' l] IH]; [done..|]. rewrite squash_cons. rewrite last_cons_cons.
  destruct (_ =? _)%N; [done|]. rewrite last_cons, IH.
  by destruct (last (s' :: l)) eqn:E; [|apply last_None in E].
Qed.

Lemma squash_new l s :
  (forall s', last l = Some s' -> cl_segment_seq s' <> cl_segment_seq s) ->
  squash (l ++ [s]) = squash l ++ [s].
Proof.
  induction l as [|x [|y l] IH]; intros Hn; [done|..].
  - cbn. by rewrite (proj2 (N.eqb_neq _ _)) by (by apply Hn).
  - rewrite <-!app_comm_cons, !squash_cons. rewrite app_comm_cons, IH by done. by destruct (_ =? _)%N.
Qed.

Lemma squash_again l s : last l = Some s -> squash (l ++ [s]) = squash l.
Proof.
  induction l as [|x [|y l] IH]; intros Hl; [done|..].
  - injection Hl as ->. cbn. by rewrite N.eqb_refl.
  - rewrite <-!app_comm_cons, !squash_cons. by rewrite app_comm_cons, IH.
Qed.

(** ** What every step keeps *)

Section recorder_facts.
Context `{Externals} `{JL : JsonStringsLaws} `{Signing}.
Variable cfg : RecorderConfig.
Variable signing_key : option SigningKey.
Local Abbreviation run_id := (rc_run_id cfg).
Local Abbreviation server_id := (rc_server_id cfg).
Local Abbreviation roll := (roll cfg signing_key).
Local Abbreviation recorder_append := (recorder_append cfg signing_key).
Local Abbreviation claim := (claim cfg signing_key).
Implicit Types st : RecorderState.
Implicit Types ps : list ClosedSegment.

(** The segments closed so far, and an open segment that continues them. *)
Record continues st ps : Prop := {
  co_sealed : sealed run_id server_id (chain_start cfg) 0 ps (rs_prev_head st);
  co_next : rs_next_seq st = (N.of_nat (length ps) + 1)%N;
  co_segment : segment_ok (rs_current st);
  co_prev : sg_prev_hash (rs_current st) = rs_prev_head st;
  co_seq : sg_segment_seq (rs_current st) = N.of_nat (length ps);
  co_run : sg_run_id (rs_current st) = run_id;
  co_server : sg_server_id (rs_current st) = server_id;
}.

Lemma continues_new : continues (recorder_new cfg) [].
Proof. by split. Qed.

Lemma continues_context st ps c o : continues st ps -> continues (set_context c o st) ps.
Proof. by intros []. Qed.

Lemma continues_closed st ps l : continues st ps -> continues (set_closed l st) ps.
Proof. by intros []. Qed.

Lemma signed_fields c :
  cl_records (signed signing_key c) = cl_records c /\ cl_head_hash (signed signing_key c) = cl_head_hash c /\
  cl_prev_hash (signed signing_key c) = cl_prev_hash c /\ cl_segment_seq (signed signing_key c) = cl_segment_seq c /\
  cl_run_id (signed signing_key c) = cl_run_id c /\ cl_server_id (signed signing_key c) = cl_server_id c.
Proof. unfold signed. by destruct signing_key as [key|]; [destruct (sign_head _ key)|]. Qed.

(** Rolling closes exactly what the open segment holds. *)
Lemma roll_records st oc st' :
  roll st = (oc, st') ->
  (option_list oc ≫= cl_records) ++ sg_records (rs_current st') = sg_records (rs_current st).
Proof.
  unfold Recorder.roll. destruct (sg_records (rs_current st)) as [|r rs] eqn:Er.
  { intros [= <- <-]. by rewrite Er. }
  cbn [close]. intros [= <- <-]. cbn. rewrite !app_nil_r.
  match goal with |- cl_records (signed _ ?c) = _ => by rewrite (proj1 (signed_fields c)) end.
Qed.

Lemma continues_roll st ps oc st' :
  continues st ps -> roll st = (oc, st') ->
  continues st' (ps ++ option_list oc) /\ rs_closed st' = rs_closed st.
Proof.
  intros [] Hr. unfold Recorder.roll in Hr. destruct (sg_records (rs_current st)) as [|r rs] eqn:Er.
  { injection Hr as <- <-. cbn. rewrite app_nil_r. by split_and!. }
  cbn [close] in Hr. injection Hr as <- <-. cbn [option_list].
  destruct (signed_fields {| cl_run_id := sg_run_id (rs_current st); cl_server_id := sg_server_id (rs_current st);
    cl_segment_seq := sg_segment_seq (rs_current st); cl_prev_hash := sg_prev_hash (rs_current st);
    cl_records := sg_records (rs_current st); cl_head_hash := seg_head (rs_current st); cl_signature := None |})
    as (Hrec&Hhead&Hprev&Hseq&Hrun&Hserver).
  set (c := signed _ _) in *. cbn in Hrec, Hhead, Hprev, Hseq, Hrun, Hserver.
  destruct co_segment0 as [Hl He Hv]. split; [|done]. split; cbn; [|rewrite length_app; cbn; lia|apply segment_new_ok|done|rewrite length_app; cbn; lia|done|done].
  apply sealed_app. exists (rs_prev_head st). split; [done|]. cbn [sealed].
  rewrite Hprev, Hseq, Hrun, Hserver, Hrec, Hhead, co_prev0, co_seq0, co_run0, co_server0.
  rewrite co_prev0, co_seq0, co_run0, co_server0 in *. split_and!; try done. by rewrite Er.
Qed.

Lemma continues_current st ps r :
  continues st ps -> continues (set_current (chain_append (rs_current st) r).2 st) ps.
Proof.
  intros []. pose proof (chain_append_ok _ r co_segment0) as Hok.
  destruct (chain_append (rs_current st) r) as [[h|e] seg'] eqn:E; cbn [snd] in *.
  - apply chain_append_Ok in E as [_ ->]. by split.
  - unfold chain_append in E. destruct (let? _ := _ in _) as [[]|]; [done|]. injection E as _ <-. by split.
Qed.

Lemma continues_append st ps r :
  continues st ps ->
  exists new, rs_closed (recorder_append r st) = rs_closed st ++ new /\
    continues (recorder_append r st) (ps ++ new).
Proof.
  intros Hc. pose proof (continues_current st ps r Hc) as Hc'. unfold Recorder.recorder_append.
  destruct (chain_append (rs_current st) r) as [[h|e] seg'] eqn:E; cbn [snd] in Hc';
    [|exists []; by rewrite !app_nil_r].
  destruct (_ <=? _)%nat; [|exists []; by rewrite !app_nil_r].
  destruct (roll (set_current seg' st)) as [[c|] st'] eqn:Er;
    apply (continues_roll _ ps) in Er as [Hc'' Hcl]; try done.
  - exists [c]. cbn [set_closed rs_closed]. rewrite Hcl. split; [done|]. by apply continues_closed.
  - exists []. rewrite app_nil_r. by rewrite app_nil_r in Hc'' |- *.
Qed.

Lemma continues_claim st ps pending st' :
  continues st ps -> claim st = (pending, st') ->
  exists new, pending = rs_closed st ++ new /\ rs_closed st' = [] /\ continues st' (ps ++ new).
Proof.
  intros Hc. unfold Recorder.claim. destruct (roll (set_closed [] st)) as [oc st1] eqn:Er.
  apply (continues_roll _ ps) in Er as [Hc' Hcl]; [|by apply continues_closed].
  destruct oc as [c|]; intros [= <- <-]; [exists [c]|exists []; rewrite app_nil_r]; by split_and!.
Qed.

(** What has not reached the spool. *)
Definition unwritten (m : Moment) : list ClosedSegment :=
  from_option snd [] (mo_flush m) ++ rs_closed (mo_state m).

(** The spool holds the first segments, in order, each once or more in a row;
    the last it holds may still be owed if its write was refused. *)
Inductive covers (outbox written owed : list ClosedSegment) : Prop :=
| covers_exactly : squash outbox = written -> covers outbox written owed
| covers_again s rest : owed = s :: rest -> squash outbox = written ++ [s] -> covers outbox written owed.

Definition recorder_inv (m : Moment) (ps : list ClosedSegment) : Prop :=
  continues (mo_state m) ps /\
  exists written, ps = written ++ unwritten m /\ covers (mo_outbox m) written (unwritten m).

Lemma covers_more outbox written owed new :
  covers outbox written owed -> covers outbox written (owed ++ new).
Proof. intros [?|s rest -> ?]; [by left|]. by eapply covers_again. Qed.

(** Writing the next owed segment. *)
Lemma covers_write start n ps head outbox written s owed :
  sealed run_id server_id start n ps head -> ps = written ++ s :: owed ->
  covers outbox written (s :: owed) -> squash (outbox ++ [s]) = written ++ [s].
Proof.
  intros Hs -> [<-|s' rest [= <- <-] Hq].
  - apply squash_new. intros s' Hs'. rewrite <-last_squash in Hs'.
    rewrite last_lookup in Hs'. set (i := pred (length (squash outbox))) in Hs'.
    assert (i < length (squash outbox))%nat as Hi by (by apply lookup_lt_Some in Hs').
    rewrite (sealed_seq _ _ _ _ _ _ i s' Hs) by (by rewrite lookup_app_l).
    rewrite (sealed_seq _ _ _ _ _ _ (length (squash outbox)) s Hs); [lia|].
    rewrite lookup_app_r by done. by rewrite Nat.sub_diag.
  - rewrite squash_again; [done|]. by rewrite <-last_squash, Hq, last_snoc.
Qed.

Lemma remember_context id c st : exists ctx o, remember id c st = set_context ctx o st.
Proof. unfold remember. case_bool_decide; [|destruct (evict_oldest _ _)]; by eexists _, _. Qed.

Lemma recorder_inv_step m m' ps :
  recorder_inv m ps -> recorder_step cfg signing_key m m' -> exists ps', ps `prefix_of` ps' /\ recorder_inv m' ps'.
Proof.
  intros [Hc (written&Hps&Hcov)] [[]|[[]|[[]|[]]]]; unfold recorder_inv, unwritten in *; cbn.
  - destruct (continues_append _ _ r Hc) as (new&Hcl&Hc'). exists (ps ++ new). split; [by apply prefix_app_r|]. split; [done|].
    exists written. rewrite Hcl, Hps, !app_assoc. split; [done|]. by apply covers_more.
  - exists ps. split; [done|]. destruct (remember_context id c (mo_state m)) as (ctx&o&->).
    split; [by apply continues_context|by exists written].
  - exists ps. split; [done|]. unfold forget. destruct (_ !! _); (split; [|by exists written]); [by apply continues_context|done].
  - rewrite H2 in *. cbn in *. exists ps. do 2 (split; [done|]). exists (written ++ [s]).
    split; [by rewrite Hps, <-app_assoc|]. left. eapply covers_write; [apply Hc|done|done].
  - rewrite H2 in *. cbn in *. destruct (continues_claim _ _ _ _ Hc H3) as (new&->&Hcl&Hc').
    exists (ps ++ new). split; [by apply prefix_app_r|]. split; [done|]. exists written. rewrite Hcl, app_nil_r, Hps, app_assoc.
    split; [done|]. by apply covers_more.
  - rewrite H2 in *. cbn in *. exists ps. do 2 (split; [done|]). by exists written.
  - rewrite H2 in *. cbn in *. exists ps. split; [done|]. split; [by apply continues_closed|].
    exists written. split; [done|]. destruct landed; [|done]. eapply covers_again; [done|].
    eapply covers_write; [apply Hc|done|done].
Qed.

Lemma recorder_reachable m :
  rtc (recorder_step cfg signing_key) (recorder_start cfg) m -> exists ps, recorder_inv m ps.
Proof.
  intros Hr. eapply (rtc_ind_r (fun m => exists ps, recorder_inv m ps)); [| |exact Hr].
  - exists []. split; [apply continues_new|]. exists []. split; [done|]. by left.
  - intros m1 m2 _ Hs [ps Hps]. destruct (recorder_inv_step _ _ _ Hps Hs) as (ps'&_&?). by exists ps'.
Qed.


(** ** Nothing recorded is dropped *)

(** Every record the recorder or the spool holds. *)
Definition held_records (m : Moment) : list EvidenceRecord :=
  ((mo_outbox m ++ unwritten m) ≫= cl_records) ++ sg_records (rs_current (mo_state m)).

Lemma append_records st r :
  (rs_closed (recorder_append r st) ≫= cl_records) ++ sg_records (rs_current (recorder_append r st))
  = (rs_closed st ≫= cl_records) ++ sg_records (chain_append (rs_current st) r).2.
Proof.
  unfold Recorder.recorder_append. destruct (chain_append (rs_current st) r) as [[h|e] seg'] eqn:E; cbn [snd].
  - destruct (_ <=? _)%nat; [|done]. destruct (roll (set_current seg' st)) as [oc st'] eqn:Er.
    assert (rs_closed st' = rs_closed st) as Hcl.
    { unfold Recorder.roll in Er. cbn in Er. destruct (sg_records seg'); by injection Er as <- <-. }
    apply roll_records in Er. cbn [set_current rs_current] in Er. rewrite <-Er.
    destruct oc; cbn; rewrite Hcl, ?bind_app; cbn; by rewrite ?app_nil_r, <-?app_assoc.
  - unfold chain_append in E. destruct (let? _ := _ in _) as [[]|]; [done|]. by injection E as _ <-.
Qed.

Lemma chain_append_sub seg r : sg_records seg ⊆ sg_records (chain_append seg r).2.
Proof.
  destruct (chain_append seg r) as [[h|e] seg'] eqn:E; cbn [snd].
  - apply chain_append_Ok in E as [_ ->]. cbn. set_solver.
  - unfold chain_append in E. destruct (let? _ := _ in _) as [[]|]; [done|]. by injection E as _ <-.
Qed.

Lemma claim_records st pending st' :
  claim st = (pending, st') ->
  (pending ≫= cl_records) ++ sg_records (rs_current st')
  = (rs_closed st ≫= cl_records) ++ sg_records (rs_current st) /\ rs_closed st' = [].
Proof.
  unfold Recorder.claim. destruct (roll (set_closed [] st)) as [oc st1] eqn:Er.
  assert (rs_closed st1 = []) as Hcl.
  { unfold Recorder.roll in Er. cbn in Er. destruct (sg_records (rs_current st)); by injection Er as <- <-. }
  apply roll_records in Er. cbn [set_closed rs_current] in Er.
  destruct oc; intros [= <- <-]; (split; [|done]); rewrite <-Er; cbn;
    by rewrite ?bind_app, ?app_nil_r, <-?app_assoc; cbn; rewrite ?app_nil_r.
Qed.

Definition left_records (m : Moment) : list EvidenceRecord :=
  from_option snd [] (mo_flush m) ≫= cl_records.

Definition state_records st : list EvidenceRecord :=
  (rs_closed st ≫= cl_records) ++ sg_records (rs_current st).

Lemma elem_of_held m r :
  r ∈ held_records m <->
  r ∈ mo_outbox m ≫= cl_records \/ r ∈ left_records m \/ r ∈ state_records (mo_state m).
Proof.
  unfold held_records, unwritten, left_records, state_records. rewrite !bind_app, !elem_of_app. tauto.
Qed.

Lemma busy_held m m' r : busy_step cfg signing_key m m' -> r ∈ held_records m -> r ∈ held_records m'.
Proof.
  rewrite !elem_of_held. unfold left_records. intros []; cbn.
  - unfold state_records. rewrite append_records.
    pose proof (chain_append_sub (rs_current (mo_state m)) r0). set_solver.
  - destruct (remember_context id c (mo_state m)) as (ctx&o&->). done.
  - unfold forget. by destruct (_ !! _).
  - rewrite H2, bind_app. cbn. set_solver.
Qed.

Lemma held_step m m' r :
  recorder_step cfg signing_key m m' -> r ∈ held_records m -> r ∈ held_records m'.
Proof.
  intros [Hb|Hs]; [by apply busy_held|]. rewrite !elem_of_held. unfold left_records.
  destruct Hs as [[]|[[]|[]]]; cbn; rewrite H2; cbn.
  - apply claim_records in H3 as [Hr Hcl]. unfold state_records. rewrite <-Hr, Hcl. set_solver.
  - set_solver.
  - unfold state_records, put_back. cbn. rewrite !bind_app.
    destruct landed; rewrite ?bind_app; cbn; set_solver.
Qed.

(** A flush that holds the lock writes what it claimed. *)
Lemma busy_written m m' written left :
  rtc (busy_step cfg signing_key) m m' -> mo_flush m = Some (written, left) -> written ⊆ mo_outbox m ->
  exists more left', mo_flush m' = Some (written ++ more, left') /\ more ++ left' = left /\
    written ++ more ⊆ mo_outbox m' /\ mo_outbox m ⊆ mo_outbox m'.
Proof.
  intros Hr. revert written left. induction Hr as [m|m m1 m' Hs _ IH]; intros written left Hf Hw.
  { exists [], left. rewrite app_nil_r. by split_and!. }
  destruct Hs; try (by destruct (IH written left Hf Hw) as (more&left'&?); exists more, left').
  rewrite H2 in Hf. injection Hf as -> <-. cbn in IH.
  destruct (IH (written ++ [s]) left0 eq_refl) as (more&left'&Hf'&<-&Hsub&Hsub'); [set_solver|].
  exists (s :: more), left'. rewrite <-app_assoc in Hf', Hsub. split_and!; [done|done|done|set_solver].
Qed.

(** When the flush succeeds, all that was held when it began is in the spool. *)
Lemma flushed_records m m1 m2 m3 r :
  flush_claims cfg signing_key m m1 -> rtc (busy_step cfg signing_key) m1 m2 -> flush_succeeds m2 m3 ->
  r ∈ held_records m -> sg_records (rs_current (mo_state m1)) = [] ->
  r ∈ mo_outbox m3 ≫= cl_records.
Proof.
  intros [pending st Hf Hcl] Hb [written Hw] Hr Hempty. cbn in *.
  destruct (busy_written _ _ [] pending Hb eq_refl) as (more&left'&Hf'&E&Hsub&Hsub'); [set_solver|].
  rewrite Hw in Hf'. injection Hf' as -> <-. rewrite app_nil_r in E. subst more. cbn in *.
  apply elem_of_held in Hr. unfold left_records in Hr. rewrite Hf in Hr. cbn in Hr.
  apply claim_records in Hcl as [Hrec _]. unfold state_records in Hr. rewrite <-Hrec, Hempty, app_nil_r in Hr.
  rewrite !list_elem_of_bind in Hr |- *. set_solver.
Qed.

Lemma claim_empty st pending st' : claim st = (pending, st') -> sg_records (rs_current st') = [].
Proof.
  unfold Recorder.claim. destruct (roll (set_closed [] st)) as [oc st1] eqn:Er. unfold Recorder.roll in Er.
  cbn in Er. destruct (sg_records (rs_current st)) eqn:E; injection Er as <- <-; by intros [= _ <-].
Qed.

(** A record without metadata is never refused. *)
Lemma append_blank st r :
  blank_envelope r -> ev_metadata (facts r) = None ->
  with_facts (set_envelope (rs_current st) (seg_head (rs_current st)) (facts r)) r
    ∈ state_records (recorder_append r st).
Proof.
  intros (Hrun&Hserver&Hseq&Hprev) Hmeta. unfold state_records. rewrite append_records, elem_of_app. right.
  destruct (chain_append (rs_current st) r) as [[h|e] seg'] eqn:E; cbn [snd].
  - apply chain_append_Ok in E as [_ ->]. cbn. set_solver.
  - exfalso. unfold chain_append, validate_and_inject in E. rewrite Hrun, Hserver, Hseq, Hprev in E. cbn in E.
    set (f := set_envelope _ _ _) in E. rewrite compute_record_hash_eq in E by (by rewrite facts_with).
    assert (record_ok (with_facts f r) = true) as Hok%record_value_ok.
    { unfold record_ok. rewrite facts_with. cbn. by rewrite Hmeta. }
    assert (is_ok (record_hash (with_facts f r)) = true) as Hh.
    { unfold record_hash, digest_of, canonical_json. rewrite write_canonical_eq by done.
      assert (nesting (record_value (with_facts f r)) = 1) as ->; [|done].
      unfold record_value. rewrite facts_with. cbn [f set_envelope ev_metadata]. rewrite Hmeta.
      by destruct r as [| | |? ? []]. }
    destruct (record_hash (with_facts f r)); [|done]. discriminate E.
Qed.

(** When [apply_intent] returns [Ok], the record it appended, with its
    place in the chain, is in the spool: whatever other threads do between the
    append and the flush, or while the flush is writing. *)
Theorem apply_intent_is_durable m now rid cid dev principal m0 m1 m2 m3 :
  let appended := {| mo_state := apply_intent cfg signing_key now rid cid dev principal (mo_state m);
                     mo_outbox := mo_outbox m; mo_flush := mo_flush m |} in
  rtc (recorder_step cfg signing_key) appended m0 ->
  flush_claims cfg signing_key m0 m1 -> rtc (busy_step cfg signing_key) m1 m2 -> flush_succeeds m2 m3 ->
  let current := rs_current (mo_state m) in
  ApplyIntent (set_envelope current (seg_head current)
    (blank rid cid dev principal (cx_diff_hash (context_for cid (mo_state m))) now None))
  ∈ mo_outbox m3 ≫= cl_records.
Proof.
  intros appended Hsteps Hclaim Hbusy Hdone current.
  pose proof (append_blank (mo_state m) (ApplyIntent (blank rid cid dev principal
    (cx_diff_hash (context_for cid (mo_state m))) now None)) ltac:(done) eq_refl) as Hin.
  cbn [facts with_facts] in Hin. set (f := set_envelope _ _ _) in Hin |- *. eapply flushed_records; [done..| |by destruct Hclaim; eapply claim_empty].
  assert (ApplyIntent f ∈ held_records appended) as Hheld by (apply elem_of_held; right; by right).
  clear -JL Hsteps Hheld. induction Hsteps as [|m0 m1 m2 Hs _ IH]; [done|]. by apply IH; eapply held_step.
Qed.

End recorder_facts.

(** ** Signatures *)

Section signatures.
Context `{EL : ExternalsLaws} `{JL : JsonStringsLaws} `{SL : SigningLaws}.
Variable cfg : RecorderConfig.
Variable key : SigningKey.

Lemma hex_value_digit n : (n < 16)%N -> hex_value (hex_digit n) = Some n.
Proof.
  intros Hn. unfold hex_digit, hex_value.
  destruct (N.ltb_spec n 10).
  - rewrite N_ascii_embedding by lia. rewrite (proj2 (N.leb_le 48 (48 + n))), (proj2 (N.leb_le (48 + n) 57)) by lia.
    cbn [andb]. f_equal. lia.
  - rewrite N_ascii_embedding by lia.
    rewrite (proj2 (N.leb_gt (87 + n) 57)), andb_false_r by lia.
    rewrite (proj2 (N.leb_le 97 (87 + n))), (proj2 (N.leb_le (87 + n) 102)) by lia. cbn [andb]. f_equal. lia.
Qed.

Lemma hex_decode_hex b : hex_decode (bytes_hex b) = Some b.
Proof.
  induction b as [|c b IH]; [done|]. cbn [bytes_hex hex_decode].
  assert (N_of_ascii c < 256)%N as Hc by apply N_ascii_bounded.
  rewrite !hex_value_digit by (apply N.Div0.div_lt_upper_bound || apply N.mod_lt; lia).
  cbn [mbind option_bind]. rewrite IH. cbn [mbind option_bind]. do 2 f_equal.
  rewrite <-N.div_mod by done. apply ascii_N_embedding.
Qed.

Lemma decode_record_hash r h :
  record_hash r = Ok h -> exists b, decode_head_hash h = Ok b.
Proof.
  intros (s&_&[= <-])%result_bind_Ok. exists (sha256 s). unfold decode_head_hash, sha256_hex.
  rewrite (proj2 (strip_prefix_Some "sha256:" _ _) eq_refl). cbn [ok_or result_bind].
  unfold str_len. rewrite bytes_hex_length, sha256_len. cbn [N.of_nat N.eqb]. by rewrite hex_decode_hex.
Qed.

(** Every closed segment is signed over the head it closed with. *)
Definition signed_by (s : ClosedSegment) : Prop :=
  exists encoded signature, cl_signature s = Some encoded /\ decode_signature encoded = Ok signature /\
    verify_head s signature (verifying_key key) = Ok tt.

Lemma linked_head prev rs head :
  linked prev rs head -> rs <> [] -> exists r, record_hash r = Ok head.
Proof.
  intros Hl Hne. destruct rs as [|r rs _] using rev_ind; [done|].
  apply linked_snoc in Hl as (?&_&_&?). by exists r.
Qed.

Lemma roll_signed st oc st' s :
  segment_ok (rs_current st) -> roll cfg (Some key) st = (oc, st') -> oc = Some s -> signed_by s.
Proof.
  intros [Hl _ _] Hr ->. unfold roll in Hr. destruct (sg_records (rs_current st)) as [|r rs] eqn:Er; [done|].
  cbn [close] in Hr. injection Hr as <- _. destruct (linked_head _ _ _ Hl) as [r' Hh]; [done|].
  apply decode_record_hash in Hh as [b Hb]. unfold signed_by, signed, sign_head, sign_digest. cbn [cl_head_hash].
  rewrite Hb. cbn [result_bind]. eexists _, (ed25519_sign key b). split; [done|].
  unfold decode_signature, encode_signature, verify_head, verify_digest. cbn [cl_head_hash].
  rewrite base64_round_trip, Hb. cbn [map_err result_bind]. unfold str_len.
  by rewrite sign_len, sign_verifies.
Qed.

Lemma append_signed st ps r :
  continues cfg st ps -> Forall signed_by (rs_closed st) ->
  Forall signed_by (rs_closed (recorder_append cfg (Some key) r st)).
Proof.
  intros Hc Hs. pose proof (continues_current cfg _ _ r Hc) as Hc'. unfold recorder_append.
  destruct (chain_append (rs_current st) r) as [[h|e] seg']; [|done]. cbn [snd] in Hc'.
  destruct (_ <=? _)%nat; [|done]. destruct (roll cfg (Some key) (set_current seg' st)) as [[c|] st'] eqn:Er.
  - destruct (continues_roll cfg _ _ _ _ _ Hc' Er) as [_ Hcl]. cbn. rewrite Hcl. apply Forall_app. split; [done|].
    constructor; [|constructor]. by eapply roll_signed; [apply Hc'| |].
  - destruct (continues_roll cfg _ _ _ _ _ Hc' Er) as [_ ->]. done.
Qed.

Lemma claim_signed st ps pending st' :
  continues cfg st ps -> Forall signed_by (rs_closed st) -> claim cfg (Some key) st = (pending, st') ->
  Forall signed_by pending /\ rs_closed st' = [].
Proof.
  intros Hc Hs Hcl. destruct (claim_records cfg _ _ _ _ Hcl) as [_ Hnil]. split; [|done].
  unfold claim in Hcl. destruct (roll cfg (Some key) (set_closed [] st)) as [[c|] st1] eqn:Er;
    injection Hcl as <- <-; [|done]. apply Forall_app. split; [done|]. constructor; [|constructor].
  eapply roll_signed; [|done|done]. apply Hc.
Qed.

Lemma reachable_signed m :
  rtc (recorder_step cfg (Some key)) (recorder_start cfg) m -> Forall signed_by (mo_outbox m ++ unwritten m).
Proof.
  intros Hr.
  eapply (rtc_ind_r (fun m => Forall signed_by (mo_outbox m ++ unwritten m)) (recorder_start cfg));
    [constructor| |exact Hr].
  clear -EL JL SL. intros m m' Hr Hs IH. apply recorder_reachable in Hr as (ps&Hc&_).
  unfold unwritten in *. rewrite !Forall_app in *. destruct IH as (Ho&Hl&Hst).
  destruct Hs as [[]|[[]|[[]|[]]]]; cbn; rewrite ?Forall_app.
  - split_and!; [done|done|]. by eapply append_signed.
  - destruct (remember_context id c (mo_state m)) as (ctx&o&->). by split_and!.
  - unfold forget. by destruct (_ !! _); split_and!.
  - rewrite H2 in Hl. cbn in Hl. apply Forall_cons in Hl as [? ?]. by split_and!; repeat constructor.
  - destruct (claim_signed _ _ _ _ Hc Hst H3) as [? ->]. by split_and!; repeat constructor.
  - by split_and!.
  - rewrite H2 in Hl. cbn in Hl. apply Forall_cons in Hl as [? ?].
    assert (Forall signed_by ((s :: left) ++ rs_closed (mo_state m))) by (apply Forall_app; by repeat constructor).
    destruct landed; rewrite ?Forall_app; repeat split; try done. by apply Forall_singleton.
Qed.

(** With a signing key every segment that closes is signed, and its
    signature verifies over its head: there is no unsigned segment in the
    spool, in a flush or with the recorder. *)
Theorem every_segment_is_signed m s :
  rtc (recorder_step cfg (Some key)) (recorder_start cfg) m -> s ∈ mo_outbox m ++ unwritten m ->
  signed_by s.
Proof. intros Hr. apply (proj1 (Forall_forall _ _)). by apply reachable_signed. Qed.

End signatures.

(** ** Key files (signing.rs)

    Loading the Ed25519 key that signs segments and the one that verifies
    them.  The signing key is refused if anyone but its owner may touch the
    file; what the encoders write is what the loaders read. *)

(** A key file as it is opened: its mode, then its text. *)
Record KeyFile := { kf_path : string; kf_open : result (N * result string string) string }.

(** The raw bytes of Ed25519 keys. *)
Class KeyBytes `{Signing} := {
  signing_key_of_bytes : bytes -> SigningKey;
  signing_key_bytes : SigningKey -> bytes;
  verifying_key_of_bytes : bytes -> result VerifyingKey string;
  verifying_key_bytes : VerifyingKey -> bytes;
}.

(** Keys are 32 bytes, and standard base64 is visible ASCII. *)
Class KeyBytesLaws `(KeyBytes) : Prop := {
  signing_key_len : forall k, String.length (signing_key_bytes k) = 32;
  signing_key_round_trip : forall k, signing_key_of_bytes (signing_key_bytes k) = k;
  verifying_key_len : forall k, String.length (verifying_key_bytes k) = 32;
  verifying_key_round_trip : forall k, verifying_key_of_bytes (verifying_key_bytes k) = Ok k;
  base64_visible : forall b, str_forall visible (base64_encode b) = true;
}.

Section keys.
Context `{KeyBytes}.

(** The text of a key file as 32 bytes. *)
Definition decode_key (contents : string) : result bytes SigningError :=
  let? b := map_err (fun e => InvalidKeyEncoding ("base64 decode failed: " +:+ e))
              (base64_decode (trim contents)) in
  ensure (str_len b =? 32)%N
    else (InvalidKeyEncoding ("expected 32 bytes, got " +:+ pretty (str_len b)));
  Ok b.

Definition load_signing_key (f : KeyFile) : result SigningKey SigningError :=
  let? opened := map_err (KeyFileIo (kf_path f)) (kf_open f) in
  let '(mode, contents) := opened in
  let mode := N.land mode 511 in
  ensure (N.land mode 63 =? 0)%N else (KeyFilePermissionsTooPermissive (kf_path f) mode);
  let? contents := map_err (KeyFileIo (kf_path f)) contents in
  let? b := decode_key contents in
  Ok (signing_key_of_bytes b).

Definition load_verifying_key (f : KeyFile) : result VerifyingKey SigningError :=
  let? opened := map_err (KeyFileIo (kf_path f)) (kf_open f) in
  let? contents := map_err (KeyFileIo (kf_path f)) opened.2 in
  let? b := decode_key contents in
  map_err (fun e => InvalidKeyEncoding ("invalid verifying key: " +:+ e)) (verifying_key_of_bytes b).

Definition encode_signing_key (key : SigningKey) : string := base64_encode (signing_key_bytes key).

Definition encode_verifying_key (key : VerifyingKey) : string := base64_encode (verifying_key_bytes key).

End keys.

(** What the encoders write is what the loaders read; the private key only if
    its file is the owner's. *)
Section round_trip.
Context `{KL : KeyBytesLaws} `{SL : !SigningLaws _}.

Lemma decode_key_encoded b : String.length b = 32 -> decode_key (base64_encode b) = Ok b.
Proof.
  intros Hb. unfold decode_key. rewrite trim_visible by apply base64_visible. rewrite base64_round_trip.
  cbn [map_err result_bind]. unfold str_len. by rewrite Hb.
Qed.

Lemma verifying_key_loads path mode k :
  load_verifying_key {| kf_path := path; kf_open := Ok (mode, Ok (encode_verifying_key k)) |} = Ok k.
Proof.
  unfold load_verifying_key, encode_verifying_key. cbn [kf_open map_err result_bind snd].
  rewrite decode_key_encoded by apply verifying_key_len. cbn [result_bind]. by rewrite verifying_key_round_trip.
Qed.

Lemma signing_key_loads path mode k :
  load_signing_key {| kf_path := path; kf_open := Ok (mode, Ok (encode_signing_key k)) |} =
  if (N.land (N.land mode 511) 63 =? 0)%N then Ok k
  else Err (KeyFilePermissionsTooPermissive path (N.land mode 511)).
Proof.
  unfold load_signing_key, encode_signing_key. cbn [kf_open kf_path map_err result_bind].
  destruct (_ =? 0)%N; [|done]. rewrite decode_key_encoded by apply signing_key_len. cbn [result_bind].
  by rewrite signing_key_round_trip.
Qed.

End round_trip.
