(* ===== verification/Spool.v ===== *)
(** * The evidence spool: outbox and delivery ledger

    crates/mecmcp-audit/src/sinks/delivery_ledger.rs, and the outbox of
    sinks/ssdf.rs with [spool_outcome] of recorder.rs.  Both files hold one
    JSON text per line and are only appended to; a file is its bytes, and an
    append may be cut short.  The serde encodings of a ledger entry and of a
    closed segment are codecs with the laws the code relies on. *)

From S2P Require Import Prelude Text Evidence Recorder.
From Stdlib Require Import Ascii.

Open Scope list_scope.

Abbreviation file_bytes := (list ascii) (only parsing).

(** ** Lines *)

Definition is_newline (c : ascii) : bool := Ascii.eqb c "010".
Definition is_return (c : ascii) : bool := Ascii.eqb c "013".

(** [core::str::from_utf8] accepts: no overlong form, no surrogate, at most
    U+10FFFF. *)
Fixpoint utf8_valid (l : list N) : bool :=
  let tail c := ((128 <=? c) && (c <=? 191))%N in
  match l with
  | [] => true
  | a :: l1 =>
      if (a <? 128)%N then utf8_valid l1
      else match l1 with
      | [] => false
      | b :: l2 =>
          if ((194 <=? a) && (a <=? 223))%N then tail b && utf8_valid l2
          else match l2 with
          | [] => false
          | c :: l3 =>
              if (a =? 224)%N then ((160 <=? b) && (b <=? 191))%N && tail c && utf8_valid l3
              else if (a =? 237)%N then ((128 <=? b) && (b <=? 159))%N && tail c && utf8_valid l3
              else if ((225 <=? a) && (a <=? 239))%N then tail b && tail c && utf8_valid l3
              else match l3 with
              | [] => false
              | d :: l4 =>
                  if (a =? 240)%N then ((144 <=? b) && (b <=? 191))%N && tail c && tail d && utf8_valid l4
                  else if (a =? 244)%N then ((128 <=? b) && (b <=? 143))%N && tail c && tail d && utf8_valid l4
                  else if ((241 <=? a) && (a <=? 243))%N then tail b && tail c && tail d && utf8_valid l4
                  else false
              end
          end
      end
  end.

Definition valid_text (line : list ascii) : bool := utf8_valid (N_of_ascii <$> line).

(** [BufRead::lines]: a line ends at a newline, which is dropped with a
    carriage return before it; the rest of the file is a line if it is not
    empty.  [acc] is the line read so far, backwards. *)
Fixpoint lines_from (acc data : list ascii) : list (list ascii) :=
  match data with
  | [] => match acc with [] => [] | _ => [reverse acc] end
  | c :: data =>
      if is_newline c
      then reverse (match acc with d :: acc' => if is_return d then acc' else acc | [] => [] end)
             :: lines_from [] data
      else lines_from (c :: acc) data
  end.

Definition lines (data : file_bytes) : list (list ascii) := lines_from [] data.

(** One value of [A] as a line of JSON. *)
Class LineCodec (A : Type) := {
  print_line : A -> result string string;
  parse_line : string -> result A string;
}.

(** [serde_json::to_string] writes no line break and no white space only, and
    [from_str] reads back what it wrote. *)
Class LineCodecLaws A `(LineCodec A) : Prop := {
  print_parse : forall a, exists line, print_line a = Ok line /\ parse_line line = Ok a /\
    is_blank line = false /\ valid_text (String.list_ascii_of_string line) = true /\
    Forall (fun c => is_newline c = false /\ is_return c = false) (String.list_ascii_of_string line);
}.

(** The loop over the lines of a file: a line that is not text is an I/O
    error, a blank one is passed over. *)
Fixpoint read_items {A E} `{LineCodec A} (io bad : string -> E) (ls : list (list ascii)) :
  result (list A) E :=
  match ls with
  | [] => Ok []
  | line :: ls =>
      ensure valid_text line else (io "stream did not contain valid UTF-8");
      if is_blank (String.string_of_list_ascii line) then read_items io bad ls
      else let? a := map_err bad (parse_line (String.string_of_list_ascii line)) in
           let? r := read_items io bad ls in
           Ok (a :: r)
  end.

(** What an append does: all of it; its first bytes, then an error; all of
    it, but the [flush] or the [sync] after it fails. *)
Inductive AppendFate :=
| Wrote
| Short (written : nat) (error : string)
| Unsynced (error : string).

Definition append_line (fate : AppendFate) (line : string) (data : file_bytes) :
  result unit string * file_bytes :=
  let line := String.list_ascii_of_string line ++ ["010"%char] in
  match fate with
  | Wrote => (Ok tt, data ++ line)
  | Short n e => (Err e, data ++ take n line)
  | Unsynced e => (Err e, data ++ line)
  end.

(** ** The delivery ledger (delivery_ledger.rs) *)

Record SegmentId := { si_server_id : string; si_run_id : string; si_segment_seq : N }.

Inductive DeliveryStatus :=
| Pending
| Delivered (delivered_at : string)
| Failed (failed_at error : string) (attempts : N).

Record LedgerEntry := { le_id : SegmentId; le_status : DeliveryStatus }.

Inductive LedgerError := LedgerIo (error : string) | InvalidEntry (why : string).

#[export] Instance SegmentId_eq_dec : EqDecision SegmentId.
Proof. solve_decision. Defined.

#[export] Instance SegmentId_countable : Countable SegmentId.
Proof.
  refine (inj_countable' (fun i => (si_server_id i, si_run_id i, si_segment_seq i))
            (fun p => {| si_server_id := p.1.1; si_run_id := p.1.2; si_segment_seq := p.2 |}) _).
  by intros [].
Defined.

(** [iter().rposition(..)]. *)
Fixpoint rposition (p : ascii -> bool) (l : list ascii) : option nat :=
  match l with
  | [] => None
  | c :: l => match rposition p l with
              | Some i => Some (S i)
              | None => if p c then Some 0 else None
              end
  end.

Definition CHUNK : nat := N.to_nat 8192.

(** The backwards scan; a chunk is never empty, so the bytes before [end_] are
    fuel enough. *)
Fixpoint scan_back (fuel : nat) (data : file_bytes) (end_ : nat) : nat :=
  match fuel with
  | O => 0
  | S fuel =>
      if (end_ =? 0)%nat then 0 else
      let start := end_ - CHUNK in
      let buffer := take (end_ - start) (drop start data) in
      match rposition is_newline buffer with
      | Some offset => start + offset + 1
      | None => scan_back fuel data start
      end
  end.

Definition last_newline_end (data : file_bytes) (length : nat) : nat := scan_back (S length) data length.

(** The file and the index kept of it. *)
Record DeliveryLedger := {
  dl_file : file_bytes;
  dl_index : gmap SegmentId DeliveryStatus;
}.

Section ledger.
Context `{LineCodec LedgerEntry}.

Definition index_of (entries : list LedgerEntry) : gmap SegmentId DeliveryStatus :=
  foldl (fun index e => <[le_id e := le_status e]> index) ∅ entries.

(** An unterminated last line is cut off before anything is read. *)
Definition ledger_open (data : file_bytes) : result DeliveryLedger LedgerError :=
  let keep := last_newline_end data (length data) in
  let data := if (keep <? length data)%nat then take keep data else data in
  let? entries := read_items LedgerIo
    (fun e => InvalidEntry ("failed to parse ledger entry: " +:+ e)) (lines data) in
  Ok {| dl_file := data; dl_index := index_of entries |}.

Definition ledger_status (id : SegmentId) (l : DeliveryLedger) : option DeliveryStatus :=
  dl_index l !! id.

Definition write_entry (fate : AppendFate) (id : SegmentId) (status : DeliveryStatus)
  (l : DeliveryLedger) : result unit LedgerError * DeliveryLedger :=
  match print_line {| le_id := id; le_status := status |} with
  | Err e => (Err (InvalidEntry ("failed to serialize entry: " +:+ e)), l)
  | Ok line =>
      match append_line fate line (dl_file l) with
      | (Err e, data) => (Err (LedgerIo e), {| dl_file := data; dl_index := dl_index l |})
      | (Ok _, data) => (Ok tt, {| dl_file := data; dl_index := <[id := status]> (dl_index l) |})
      end
  end.

Definition mark_pending (fate : AppendFate) (id : SegmentId) :=
  write_entry fate id Pending.
Definition mark_delivered (fate : AppendFate) (id : SegmentId) (delivered_at : string) :=
  write_entry fate id (Delivered delivered_at).
Definition mark_failed (fate : AppendFate) (id : SegmentId) (failed_at error : string) (attempts : N) :=
  write_entry fate id (Failed failed_at error attempts).

End ledger.

(** The order is that of the hash map. *)
Definition pending (l : DeliveryLedger) : list SegmentId :=
  map_to_list (dl_index l) ≫= fun '(id, status) =>
    match status with Pending | Failed _ _ _ => [id] | Delivered _ => [] end.

(** ** The outbox (ssdf.rs) *)

Inductive SsdfSinkError :=
| OutboxIo (error : string)
| LedgerFailed (error : LedgerError)
| Http (why : string)
| InvalidSegment (why : string)
| SigningFailed (error : SigningError).

Record SinkFiles := { sk_outbox : file_bytes; sk_ledger : DeliveryLedger }.

Definition segment_id (s : ClosedSegment) : SegmentId :=
  {| si_server_id := cl_server_id s; si_run_id := cl_run_id s; si_segment_seq := cl_segment_seq s |}.

Section outbox.
Context `{LineCodec LedgerEntry} `{LineCodec ClosedSegment}.

(** Starting on the files found: the outbox is opened as it is. *)
Definition sink_open (outbox ledger : file_bytes) : result SinkFiles SsdfSinkError :=
  let? l := map_err LedgerFailed (ledger_open ledger) in
  Ok {| sk_outbox := outbox; sk_ledger := l |}.

Definition spool (fate ledger_fate : AppendFate) (segment : ClosedSegment) (k : SinkFiles) :
  result unit SsdfSinkError * SinkFiles :=
  match print_line segment with
  | Err e => (Err (InvalidSegment ("failed to serialize segment: " +:+ e)), k)
  | Ok line =>
      match append_line fate line (sk_outbox k) with
      | (Err e, data) => (Err (OutboxIo e), {| sk_outbox := data; sk_ledger := sk_ledger k |})
      | (Ok _, data) =>
          let '(r, l) := mark_pending ledger_fate (segment_id segment) (sk_ledger k) in
          (map_err LedgerFailed r, {| sk_outbox := data; sk_ledger := l |})
      end
  end.

Definition load_outbox (k : SinkFiles) : result (list ClosedSegment) SsdfSinkError :=
  read_items OutboxIo (fun e => InvalidSegment ("failed to parse segment: " +:+ e)) (lines (sk_outbox k)).

(** Of the segments in file order. *)
Definition newest_head (server_id : string) (segments : list ClosedSegment) : option string :=
  cl_head_hash <$> last (List.filter (fun s => String.eqb (cl_server_id s) server_id) segments).

Definition produced_head (server_id : string) (k : SinkFiles) : result (option string) SsdfSinkError :=
  let? segments := load_outbox k in
  Ok (newest_head server_id segments).

End outbox.

(** A segment is durable once it is in the outbox; only the outbox refuses. *)
Definition spool_outcome (r : result unit SsdfSinkError) : result unit SsdfSinkError :=
  match r with
  | Ok _ => Ok tt
  | Err (LedgerFailed _) => Ok tt
  | Err e => Err e
  end.

(** ** The scan finds the end of the last complete line *)

Fixpoint complete_len (data : file_bytes) : nat :=
  match data with
  | [] => 0
  | c :: data => match complete_len data with
                 | O => if is_newline c then 1 else 0
                 | S n => S (S n)
                 end
  end.

Lemma complete_len_rposition l :
  complete_len l = match rposition is_newline l with Some i => i + 1 | None => 0 end.
Proof.
  induction l as [|c l IH]; [done|]. cbn. rewrite IH. destruct (rposition is_newline l) as [i|]; [|by destruct (is_newline c)].
  rewrite Nat.add_1_r. lia.
Qed.

Lemma complete_len_app a b :
  complete_len (a ++ b) = match complete_len b with O => complete_len a | n => length a + n end.
Proof.
  induction a as [|c a IH]; cbn; [by destruct (complete_len b)|]. rewrite IH.
  destruct (complete_len b) as [|n]; [done|]. rewrite Nat.add_succ_r. lia.
Qed.

Lemma complete_len_none l : Forall (fun c => is_newline c = false) l -> complete_len l = 0.
Proof. induction 1 as [|c l Hc _ IH]; cbn; [done|]. by rewrite IH, Hc. Qed.

Lemma scan_back_complete fuel data end_ :
  end_ < fuel -> end_ <= length data -> scan_back fuel data end_ = complete_len (take end_ data).
Proof.
  revert end_. induction fuel as [|fuel IH]; intros end_ Hf Hl; [lia|]. cbn [scan_back].
  destruct (Nat.eqb_spec end_ 0) as [->|Hne]; [done|].
  assert (0 < CHUNK) as Hc by (unfold CHUNK; lia). set (start := end_ - CHUNK).
  assert (start < end_) as Hs by (unfold start; lia). clearbody start.
  assert (take end_ data = take start data ++ take (end_ - start) (drop start data)) as ->.
  { rewrite take_drop_commute, Nat.add_sub_assoc, Nat.add_comm, Nat.add_sub by lia.
    rewrite <-(take_drop start (take end_ data)) at 1. by rewrite take_take, Nat.min_l by lia. }
  rewrite complete_len_app, (complete_len_rposition (take _ (drop _ _))).
  destruct (rposition _ _) as [i|]; [|apply IH; lia].
  rewrite !Nat.add_1_r, length_take, Nat.min_l by lia. lia.
Qed.

(** The chunked scan from the end of the ledger finds what a scan of the whole
    file would: the end of the last complete line. *)
Lemma last_newline_end_correct data : last_newline_end data (length data) = complete_len data.
Proof. unfold last_newline_end. rewrite scan_back_complete by lia. by rewrite take_ge. Qed.

(** ** Files of whole lines *)

Section files.
Context {A} `{CL : LineCodecLaws A}.
Implicit Types a : A.

Definition line_of a : file_bytes :=
  match print_line a with
  | Ok line => String.list_ascii_of_string line ++ ["010"%char]
  | Err _ => []
  end.

Definition file_of (items : list A) : file_bytes := items ≫= line_of.

Lemma lines_clean acc l rest :
  Forall (fun c => is_newline c = false /\ is_return c = false) acc ->
  Forall (fun c => is_newline c = false /\ is_return c = false) l ->
  lines_from acc (l ++ "010"%char :: rest) = (reverse acc ++ l) :: lines_from [] rest.
Proof.
  revert acc. induction l as [|c l IH]; intros acc Ha Hl.
  - cbn. rewrite app_nil_r. destruct Ha as [|d acc [_ Hd] _]; [done|]. by rewrite Hd.
  - apply Forall_cons in Hl as [Hc Hl]. cbn [app lines_from]. rewrite (proj1 Hc).
    rewrite IH; [|by constructor|done]. by rewrite reverse_cons, <-app_assoc.
Qed.

Lemma read_file_of {E} (io bad : string -> E) items : read_items io bad (lines (file_of items)) = Ok items.
Proof.
  induction items as [|a items IH]; [done|]. unfold file_of. rewrite bind_cons. unfold line_of at 1.
  destruct (print_parse a) as (line&->&Hp&Hb&Ht&Hc). rewrite <-app_assoc. unfold lines. cbn [app].
  rewrite lines_clean by (constructor || done). cbn [reverse app rev_append read_items].
  rewrite Ht, String.string_of_list_ascii_of_string, Hb, Hp. cbn [map_err result_bind].
  change (lines_from [] (items ≫= line_of)) with (lines (file_of items)). by rewrite IH.
Qed.

Lemma line_of_print a line : print_line a = Ok line -> line_of a = String.list_ascii_of_string line ++ ["010"%char].
Proof. unfold line_of. by intros ->. Qed.

Lemma file_of_snoc items a : file_of (items ++ [a]) = file_of items ++ line_of a.
Proof. unfold file_of. rewrite bind_app. cbn. by rewrite app_nil_r. Qed.

Lemma complete_len_file_of items : complete_len (file_of items) = length (file_of items).
Proof.
  induction items as [|a items IH] using rev_ind; [done|]. rewrite file_of_snoc.
  unfold line_of. destruct (print_parse a) as (line&->&_).
  rewrite app_assoc, complete_len_app, !length_app. cbn. done.
Qed.

(** What is left of a line when its newline is not written holds no newline. *)
Lemma complete_len_stump a n : n < length (line_of a) -> complete_len (take n (line_of a)) = 0.
Proof.
  unfold line_of. destruct (print_parse a) as (line&->&_&_&_&Hc). rewrite length_app. cbn. intros Hn.
  rewrite take_app_le by lia. apply complete_len_none, Forall_take. eapply Forall_impl; [done|]. by intros c [].
Qed.

End files.

(** ** Reopening the ledger *)

Section reopening.
Context `{CL : LineCodecLaws LedgerEntry}.

(** The file is whole lines and the index is that of the file. *)
Definition ledger_ok (l : DeliveryLedger) : Prop :=
  exists entries, dl_file l = file_of entries /\ dl_index l = index_of entries.

Lemma ledger_open_file entries stump :
  complete_len stump = 0 ->
  ledger_open (file_of entries ++ stump) = Ok {| dl_file := file_of entries; dl_index := index_of entries |}.
Proof.
  intros Hs. unfold ledger_open. rewrite last_newline_end_correct, complete_len_app, Hs, complete_len_file_of.
  assert ((if (length (file_of entries) <? length (file_of entries ++ stump))%nat
           then take (length (file_of entries)) (file_of entries ++ stump)
           else file_of entries ++ stump) = file_of entries) as ->.
  { rewrite take_app_length. destruct (Nat.ltb_spec (length (file_of entries)) (length (file_of entries ++ stump))) as [|Hl];
      [done|]. rewrite length_app in Hl. destruct stump; [by rewrite app_nil_r|]. cbn in Hl. lia. }
  by rewrite read_file_of.
Qed.

Lemma ledger_open_whole entries :
  ledger_open (file_of entries) = Ok {| dl_file := file_of entries; dl_index := index_of entries |}.
Proof. rewrite <-(ledger_open_file entries []) by done. by rewrite app_nil_r. Qed.

Lemma index_of_snoc entries e : index_of (entries ++ [e]) = <[le_id e := le_status e]> (index_of entries).
Proof. unfold index_of. by rewrite foldl_snoc. Qed.

Lemma write_entry_wrote id status l r l' : write_entry Wrote id status l = (r, l') -> r = Ok tt.
Proof. unfold write_entry. destruct (print_parse {| le_id := id; le_status := status |}) as (line&->&_). by intros [= <- _]. Qed.

(** A write interrupted at any byte leaves a file that opens, with or without
    the entry. *)
Lemma write_entry_reopens fate id status l r l' :
  ledger_ok l -> write_entry fate id status l = (r, l') ->
  exists l'', ledger_open (dl_file l') = Ok l'' /\ ledger_ok l'' /\
    (dl_index l'' = dl_index l \/ dl_index l'' = <[id := status]> (dl_index l)) /\
    (r = Ok tt -> l'' = l' /\ dl_index l' = <[id := status]> (dl_index l)).
Proof.
  intros (entries&Hf&Hi). unfold write_entry. set (e := {| le_id := id; le_status := status |}).
  destruct (print_parse e) as (line&Hp&_). rewrite Hp. unfold append_line. rewrite <-(line_of_print _ _ Hp), Hf.
  assert (ledger_open (file_of entries ++ line_of e)
          = Ok {| dl_file := file_of (entries ++ [e]); dl_index := <[id := status]> (dl_index l) |}) as Hwhole.
  { rewrite <-file_of_snoc, ledger_open_whole. by rewrite index_of_snoc, Hi. }
  assert (ledger_ok {| dl_file := file_of (entries ++ [e]); dl_index := <[id := status]> (dl_index l) |}) as Hok.
  { exists (entries ++ [e]). by rewrite index_of_snoc, Hi. }
  destruct fate as [|n err|err]; intros [= <- <-]; cbn [dl_file dl_index].
  - eexists. split_and!; [done|done|by right|]. by rewrite file_of_snoc.
  - destruct (decide (n < length (line_of e))).
    + exists l. rewrite ledger_open_file by (by apply complete_len_stump). rewrite <-Hi, <-Hf.
      split_and!; [by destruct l|by exists entries|by left|done].
    + rewrite take_ge by lia. eexists. split_and!; [done|done|by right|done].
  - eexists. split_and!; [done|done|by right|done].
Qed.

(** A ledger write interrupted at any byte loses at most that entry: after
    any entries were written, opening the file again gives the last status of
    each segment they tell, with or without the one being written, and with it
    if the write reported success. *)
Theorem ledger_survives_crash entries fate id status r l' :
  let l := foldl (fun l e => (write_entry Wrote (le_id e) (le_status e) l).2)
             {| dl_file := []; dl_index := ∅ |} entries in
  write_entry fate id status l = (r, l') ->
  exists l'', ledger_open (dl_file l') = Ok l'' /\
    (dl_index l'' = index_of entries \/
     dl_index l'' = index_of (entries ++ [{| le_id := id; le_status := status |}])) /\
    (r = Ok tt -> l'' = l' /\ dl_index l' = index_of (entries ++ [{| le_id := id; le_status := status |}])).
Proof.
  intros l Hw. assert (ledger_ok l /\ dl_index l = index_of entries) as [Hok Hi].
  { unfold l. clear -CL. induction entries as [|e entries IH] using rev_ind; [split; [by exists []|done]|].
    rewrite foldl_snoc, index_of_snoc. set (l := foldl _ _ entries) in *. destruct IH as [Hok <-].
    destruct (write_entry Wrote (le_id e) (le_status e) l) as [r l'] eqn:Hw.
    destruct (write_entry_reopens _ _ _ _ _ _ Hok Hw) as (l''&_&Hok'&_&Hr). cbn [snd].
    destruct (Hr (write_entry_wrote _ _ _ _ _ Hw)) as [-> ?]. done. }
  destruct (write_entry_reopens _ _ _ _ _ _ Hok Hw) as (l''&Ho&_&Hx&Hr). exists l''.
  rewrite index_of_snoc, <-Hi. cbn [le_id le_status]. done.
Qed.

Lemma ledger_open_ok l : ledger_ok l -> ledger_open (dl_file l) = Ok l.
Proof.
  intros (entries&Hf&Hi). rewrite Hf, ledger_open_whole, <-Hi, <-Hf. by destruct l.
Qed.

End reopening.

(** ** The outbox holds what was spooled *)

Section spooling.
Context `{CE : LineCodecLaws LedgerEntry} `{CS : LineCodecLaws ClosedSegment}.

Definition outbox_is (segments : list ClosedSegment) (k : SinkFiles) : Prop :=
  sk_outbox k = file_of segments.

Lemma load_outbox_is segments k : outbox_is segments k -> load_outbox k = Ok segments.
Proof. unfold outbox_is, load_outbox. intros ->. apply read_file_of. Qed.

(** A spool write is one of the recorder's: the segment is in the outbox when
    it is not refused; when it is refused it may be there too, or part of its
    line is. *)
Lemma spool_writes fate ledger_fate s segments k r k' :
  outbox_is segments k -> spool fate ledger_fate s k = (r, k') ->
  (spool_outcome r = Ok tt -> outbox_is (segments ++ [s]) k') /\
  (spool_outcome r <> Ok tt ->
     (exists n e, fate = Short n e /\ sk_outbox k' = file_of segments ++ take n (line_of s)) \/
     outbox_is (segments ++ [s]) k').
Proof.
  unfold outbox_is. intros Hk. unfold spool. destruct (print_parse s) as (line&Hp&_). rewrite Hp.
  unfold append_line. rewrite <-(line_of_print _ _ Hp), Hk, file_of_snoc.
  destruct fate as [|n e|e]; [destruct (mark_pending _ _ _) as [[u|err] l]| |]; intros [= <- <-];
    cbn [spool_outcome map_err sk_outbox]; split; try done; intros _; [left; by exists n, e|by right].
Qed.

End spooling.
