(* ===== verification/Delivery.v ===== *)
(** * Delivering evidence (crates/mecmcp-audit/src/sinks/ssdf.rs)

    What is spooled is sent to the audit table in sequence, after asking what
    the table already holds.  The table is a service: what it does with a
    request is a parameter, and what the sink relies on are laws about it.
    They allow answers to be lost and inserts to land late. *)

From S2P Require Import Prelude Externals Json Text Canonical Evidence Recorder Spool.
From Stdlib Require Import Ascii.

Open Scope list_scope.

(** ** Text the sink builds *)

(** [serde_json::to_string], [urlencoding::encode] and the standard base64
    alphabet. *)
Class SinkText := {
  json_text : json -> string;
  urlencode : string -> string;
  basic_base64 : string -> string;
}.

Record SsdfSinkConfig := {
  sc_endpoint : string;
  sc_database : string;
  sc_username : string;
  sc_password : string;
  sc_verify_username : string;
  sc_verify_password : string;
  sc_initial_backoff : N;
  sc_max_backoff : N;
}.

Record SsdfRow := {
  row_ts : string;
  row_principal : string;
  row_tier : string;
  row_tool : string;
  row_args : string;
  row_data_classes : list string;
  row_decision : string;
  row_row_count : N;
  row_error : string;
  row_prev_hash : string;
  row_row_hash : string;
}.

Record HttpRequest := {
  hr_url : string;
  hr_method : string;
  hr_headers : list (string * string);
  hr_body : string;
}.

Record DeliveryReport := { dr_delivered : N; dr_failed : N }.

Definition degraded (r : DeliveryReport) : bool := (0 <? dr_failed r)%N.

Definition dedup_token (server_id run_id : string) (segment_seq : N) : string :=
  pretty (str_len server_id) +:+ ":" +:+ server_id +:+ ":" +:+ pretty (str_len run_id) +:+ ":"
  +:+ run_id +:+ ":" +:+ pretty segment_seq.

Definition ledger_error_text (e : LedgerError) : string :=
  match e with
  | LedgerIo e => "ledger I/O error: " +:+ e
  | InvalidEntry e => "invalid ledger entry: " +:+ e
  end.

Definition sink_error_text (e : SsdfSinkError) : string :=
  match e with
  | OutboxIo e => "outbox I/O error: " +:+ e
  | LedgerFailed e => "ledger error: " +:+ ledger_error_text e
  | Http e => "HTTP delivery error: " +:+ e
  | InvalidSegment e => "invalid segment encoding: " +:+ e
  | SigningFailed e => "evidence signing key: " +:+ signing_error_text e
  end.

(** [2u64.saturating_pow(n)]. *)
Definition saturating_pow2 (n : N) : N := if (64 <=? n)%N then u64_max else (2 ^ n)%N.

(** [u32] is what is left of the count after the cast. *)
Definition compute_backoff (cfg : SsdfSinkConfig) (attempts random : N) : N :=
  let exp_ms := N.min (sc_initial_backoff cfg * saturating_pow2 ((attempts - 1) mod 2 ^ 32)) u64_max in
  let capped_ms := N.min exp_ms (sc_max_backoff cfg) in
  let jitter_range := (capped_ms / 10)%N in
  let jitter := if (jitter_range =? 0)%N then 0%N
                else (random mod (jitter_range * 2) - jitter_range)%N in
  saturating_add capped_ms jitter.

Section requests.
Context `{SinkText} (cfg : SsdfSinkConfig).

Definition basic (username password : string) : string :=
  "Basic " +:+ basic_base64 (username +:+ ":" +:+ password).

Definition verify_authorization : string := basic (sc_verify_username cfg) (sc_verify_password cfg).

Definition mark_query : string :=
  "SELECT count(), max(JSONExtractUInt(args, 'segment_seq')) FROM " +:+ sc_database cfg +:+ ".audit WHERE tier = 'evidence' AND JSONExtractString(args, 'server_id') = {server_id:String} AND JSONExtractString(args, 'run_id') = {run_id:String} FORMAT TabSeparated".

Definition mark_request (server_id run_id : string) : HttpRequest := {|
  hr_url := sc_endpoint cfg +:+ "/?query=" +:+ urlencode mark_query +:+ "&param_server_id="
            +:+ urlencode server_id +:+ "&param_run_id=" +:+ urlencode run_id;
  hr_method := "POST"; hr_headers := [("Authorization", verify_authorization)]; hr_body := "" |}.

Definition tail_query : string :=
  "SELECT DISTINCT row_hash FROM " +:+ sc_database cfg +:+ ".audit WHERE tier = 'evidence' AND JSONExtractString(args, 'server_id') = {server_id:String} AND row_hash NOT IN ( SELECT prev_hash FROM " +:+ sc_database cfg +:+ ".audit WHERE tier = 'evidence' AND JSONExtractString(args, 'server_id') = {server_id:String} AND prev_hash != '' ) FORMAT TabSeparated".

Definition tail_request (server_id : string) : HttpRequest := {|
  hr_url := sc_endpoint cfg +:+ "/?query=" +:+ urlencode tail_query +:+ "&param_server_id="
            +:+ urlencode server_id;
  hr_method := "POST"; hr_headers := [("Authorization", verify_authorization)]; hr_body := "" |}.

(** [serde_json::to_string] of a row: the fields in order. *)
Definition row_value (r : SsdfRow) : json := JObject
  [("ts", JString (row_ts r)); ("principal", JString (row_principal r)); ("tier", JString (row_tier r));
   ("tool", JString (row_tool r)); ("args", JString (row_args r));
   ("data_classes", JArray (JString <$> row_data_classes r)); ("decision", JString (row_decision r));
   ("row_count", json_u64 (row_row_count r)); ("error", JString (row_error r));
   ("prev_hash", JString (row_prev_hash r)); ("row_hash", JString (row_row_hash r))].

Definition insert_query : string :=
  "INSERT INTO " +:+ sc_database cfg +:+ ".audit FORMAT JSONEachRow".

Definition insert_request (token : string) (rows : list SsdfRow) : HttpRequest := {|
  hr_url := sc_endpoint cfg +:+ "/?query=" +:+ urlencode insert_query
            +:+ "&insert_deduplication_token=" +:+ urlencode token;
  hr_method := "POST";
  hr_headers := [("Content-Type", "application/x-ndjson");
                 ("Authorization", basic (sc_username cfg) (sc_password cfg))];
  hr_body := str_join (String "010" "") (json_text ∘ row_value <$> rows) |}.

End requests.

(** ** Rows *)

Section rows.
Context `{Externals} `{JsonStrings} `{SinkText}.

(** The rows of a run are told apart by these members. *)
Definition row_members (f : Facts) (own : list (string * json)) : list (string * json) :=
  [("request_id", JString (ev_request_id f)); ("changeset_id", JString (ev_changeset_id f));
   ("device_id", JString (ev_device_id f)); ("diff_hash", JString (ev_diff_hash f));
   ("run_id", JString (ev_run_id f)); ("server_id", JString (ev_server_id f));
   ("segment_seq", json_u64 (ev_segment_seq f)); ("prev_hash", JString (ev_prev_hash f))]
  ++ own ++ [("metadata", default JNull (ev_metadata f))].

(** The sink's [compute_record_hash]. *)
Definition row_hash_of (r : EvidenceRecord) : result string SsdfSinkError :=
  map_err (fun 'TooDeep => InvalidSegment ("hash computation failed: value nests deeper than the "
             +:+ pretty (N.of_nat MAX_CANONICAL_DEPTH) +:+ " level canonicalisation limit"))
    (digest_of (record_value r)).

Definition record_to_ssdf_row (r : EvidenceRecord) : result SsdfRow SsdfSinkError :=
  let f := facts r in
  let own := match r with Approval _ approver _ => [("approver", JString approver)] | _ => [] end in
  let? hash := row_hash_of r in
  Ok {| row_ts := ev_timestamp f; row_principal := ev_principal f; row_tier := "evidence";
        row_tool := record_kind r; row_args := json_text (JObject (row_members f own));
        row_data_classes := ["device:" +:+ ev_device_id f];
        row_decision := match r with Approval _ _ decision => decision | _ => "" end;
        row_row_count := 1;
        row_error := match r with ResultReceipt _ _ error => default "" error | _ => "" end;
        row_prev_hash := ev_prev_hash f; row_row_hash := hash |}.

End rows.

(** ** The service *)

Class Warehouse := {
  Remote : Type;
  send : HttpRequest -> Remote -> result string SsdfSinkError * Remote;
}.

Section delivery.
Context `{Externals} `{JsonStrings} `{SinkText} `{Warehouse} `{LineCodec LedgerEntry} `{LineCodec ClosedSegment}.
Variable cfg : SsdfSinkConfig.

(** The answer is a count and a maximum. *)
Definition read_mark (body : string) : result (option N) SsdfSinkError :=
  let fields := split_whitespace body in
  let? count := ok_or (head fields ≫= parse_u64)
                  (Http ("unreadable high-water response: " +:+ str_debug body)) in
  if (count =? 0)%N then Ok None
  else let? m := ok_or (fields !! 1 ≫= parse_u64)
                   (Http ("unreadable high-water maximum: " +:+ str_debug body)) in
       Ok (Some m).

Definition high_water_mark (s : ClosedSegment) (w : Remote) : result (option N) SsdfSinkError * Remote :=
  let '(r, w) := send (mark_request cfg (cl_server_id s) (cl_run_id s)) w in
  (let? body := r in read_mark body, w).

Definition segment_token (s : ClosedSegment) : string :=
  dedup_token (cl_server_id s) (cl_run_id s) (cl_segment_seq s).

Definition deliver_segment (s : ClosedSegment) (w : Remote) : result unit SsdfSinkError * Remote :=
  match high_water_mark s w with
  | (Err e, w) => (Err e, w)
  | (Ok mark, w) =>
      if from_option (fun m => cl_segment_seq s <=? m)%N false mark then (Ok tt, w)
      else match collect (record_to_ssdf_row <$> cl_records s) with
           | Err e => (Err e, w)
           | Ok [] => (Ok tt, w)
           | Ok rows =>
               let '(r, w) := send (insert_request cfg (segment_token s) rows) w in
               (let? _ := r in Ok tt, w)
           end
  end.

(** The head of the remote chain: the one hash no row points at. *)
Definition remote_head (server_id : string) (w : Remote) : result (option string) SsdfSinkError * Remote :=
  let '(r, w) := send (tail_request cfg server_id) w in
  (let? body := r in
   let heads := trim ∘ String.string_of_list_ascii <$> lines (String.list_ascii_of_string body) in
   match base.filter (fun line => is_empty_str line = false) heads with
   | [] => Ok None
   | [h] => Ok (Some h)
   | _ => Err (Http ("chain for server_id " +:+ server_id
            +:+ " has more than one tail; it has forked and a new run must not attach to either branch"))
   end, w).

(** What a pass finds in its surroundings, by the position of the segment it
    is at: the clock, random bits, and what the ledger file does. *)
Record PassEnv := { pe_now : nat -> string; pe_random : nat -> N; pe_fate : nat -> AppendFate }.

Record Pass := {
  ps_ledger : DeliveryLedger;
  ps_remote : Remote;
  ps_report : DeliveryReport;
  ps_blocked : gset (string * string);
  ps_slept : list N;
}.

Definition run_of (s : ClosedSegment) : string * string := (cl_server_id s, cl_run_id s).

Definition pass_delivered (l : DeliveryLedger) (p : Pass) : Pass := {|
  ps_ledger := l; ps_remote := ps_remote p;
  ps_report := {| dr_delivered := dr_delivered (ps_report p) + 1; dr_failed := dr_failed (ps_report p) |};
  ps_blocked := ps_blocked p; ps_slept := ps_slept p |}.

Definition pass_failed (l : DeliveryLedger) (run : string * string) (p : Pass) : Pass := {|
  ps_ledger := l; ps_remote := ps_remote p;
  ps_report := {| dr_delivered := dr_delivered (ps_report p); dr_failed := dr_failed (ps_report p) + 1 |};
  ps_blocked := {[ run ]} ∪ ps_blocked p; ps_slept := ps_slept p |}.

Definition pass_sent (slept : list N) (w : Remote) (p : Pass) : Pass := {|
  ps_ledger := ps_ledger p; ps_remote := w; ps_report := ps_report p; ps_blocked := ps_blocked p;
  ps_slept := ps_slept p ++ slept |}.

Definition pass_ledger (l : DeliveryLedger) (p : Pass) : Pass := {|
  ps_ledger := l; ps_remote := ps_remote p; ps_report := ps_report p; ps_blocked := ps_blocked p;
  ps_slept := ps_slept p |}.

(** A segment that is due: wait, send, and record the outcome. *)
Definition send_one (env : PassEnv) (i : nat) (s : ClosedSegment) (attempts : N) (p : Pass) :
  result unit SsdfSinkError * Pass :=
  let slept := if (0 <? attempts)%N then [compute_backoff cfg attempts (pe_random env i)] else [] in
  let '(r, w) := deliver_segment s (ps_remote p) in
  let p := pass_sent slept w p in
  match r with
  | Ok _ =>
      match mark_delivered (pe_fate env i) (segment_id s) (pe_now env i) (ps_ledger p) with
      | (Err e, l) => (Err (LedgerFailed e), pass_ledger l p)
      | (Ok _, l) => (Ok tt, pass_delivered l p)
      end
  | Err e =>
      match mark_failed (pe_fate env i) (segment_id s) (pe_now env i) (sink_error_text e)
              (attempts + 1) (ps_ledger p) with
      | (Err e, l) => (Err (LedgerFailed e), pass_ledger l p)
      | (Ok _, l) => (Ok tt, pass_failed l (run_of s) p)
      end
  end.

(** One segment of a pass: held back, already delivered, or due. *)
Definition deliver_one (env : PassEnv) (i : nat) (s : ClosedSegment) (p : Pass) :
  result unit SsdfSinkError * Pass :=
  if bool_decide (run_of s ∈ ps_blocked p) then (Ok tt, p) else
  match ledger_status (segment_id s) (ps_ledger p) with
  | Some (Delivered _) => (Ok tt, p)
  | Some (Failed _ _ attempts) => send_one env i s attempts p
  | _ => send_one env i s 0 p
  end.

Fixpoint deliver_all (env : PassEnv) (i : nat) (segments : list ClosedSegment) (p : Pass) :
  result unit SsdfSinkError * Pass :=
  match segments with
  | [] => (Ok tt, p)
  | s :: segments =>
      match deliver_one env i s p with
      | (Err e, p) => (Err e, p)
      | (Ok _, p) => deliver_all env (S i) segments p
      end
  end.

(** By writer, run and number. *)
Definition sequence_le (a b : ClosedSegment) : Prop :=
  match String.compare (cl_server_id a) (cl_server_id b), String.compare (cl_run_id a) (cl_run_id b) with
  | Lt, _ => True
  | Gt, _ => False
  | Eq, Lt => True
  | Eq, Gt => False
  | Eq, Eq => (cl_segment_seq a <= cl_segment_seq b)%N
  end.

#[export] Instance sequence_le_dec a b : Decision (sequence_le a b).
Proof. unfold sequence_le. repeat case_match; apply _. Defined.

Definition attempt_delivery (env : PassEnv) (k : SinkFiles) (w : Remote) :
  result DeliveryReport SsdfSinkError * SinkFiles * Remote :=
  match load_outbox k with
  | Err e => (Err e, k, w)
  | Ok segments =>
      let '(r, p) := deliver_all env 0 (merge_sort sequence_le segments)
        {| ps_ledger := sk_ledger k; ps_remote := w; ps_report := {| dr_delivered := 0; dr_failed := 0 |};
           ps_blocked := ∅; ps_slept := [] |} in
      (let? _ := r in Ok (ps_report p),
       {| sk_outbox := sk_outbox k; sk_ledger := ps_ledger p |}, ps_remote p)
  end.

End delivery.

(** ** What the sink relies on the service for

    An insert is applied whole or not at all, and at most once for a token;
    when its answer is lost it may be applied later.  The two reads answer
    from the rows there are at some moment while they run. *)

Record Table := {
  tb_rows : list SsdfRow;
  tb_accepted : list string;
  tb_sent : list (string * list SsdfRow);
}.

Definition accept (token : string) (rows : list SsdfRow) (sent : list (string * list SsdfRow))
  (t : Table) : Table := {|
  tb_rows := tb_rows t ++ rows; tb_accepted := token :: tb_accepted t; tb_sent := sent |}.

Inductive lands_late (t : Table) : Table -> Prop :=
| late_block token rows :
    (token, rows) ∈ tb_sent t -> token ∉ tb_accepted t -> lands_late t (accept token rows (tb_sent t) t).

Inductive inserts (token : string) (rows : list SsdfRow) (answered : bool) (t : Table) : Table -> Prop :=
| insert_applied :
    token ∉ tb_accepted t -> inserts token rows answered t (accept token rows ((token, rows) :: tb_sent t) t)
| insert_dropped :
    token ∈ tb_accepted t -> inserts token rows answered t t
| insert_lost :
    answered = false ->
    inserts token rows answered t {| tb_rows := tb_rows t; tb_accepted := tb_accepted t;
                                     tb_sent := (token, rows) :: tb_sent t |}.

(** The rows as the service reads them. *)
Class AuditTable `{Warehouse} := {
  observe : Remote -> Table;
  extract_string : string -> string -> string;
  extract_uint : string -> string -> N;
}.

Section table.
Context `{AuditTable}.

Definition in_run (server_id run_id : string) (r : SsdfRow) : bool :=
  String.eqb (row_tier r) "evidence" &&
  String.eqb (extract_string (row_args r) "server_id") server_id &&
  String.eqb (extract_string (row_args r) "run_id") run_id.

Definition row_seq (r : SsdfRow) : N := extract_uint (row_args r) "segment_seq".

(** [count()] and [max(..)], tab separated. *)
Definition mark_answer (rows : list SsdfRow) (server_id run_id : string) : string :=
  let rs := List.filter (in_run server_id run_id) rows in
  pretty (N.of_nat (length rs)) +:+ String "009" (pretty (foldr N.max 0%N (row_seq <$> rs)) +:+ String "010" "").

End table.

(** The segments of each run, in order: what the recorders produced. *)
Definition Book : Type := string * string -> list ClosedSegment.

Class AuditTableLaws `{AuditTable} `{Externals} `{JsonStrings} `{SinkText} (cfg : SsdfSinkConfig)
  (book : Book) : Prop := {
  extract_string_text : forall l k s, NoDup l.*1 -> assoc k l = Some (JString s) ->
    extract_string (json_text (JObject l)) k = s;
  extract_uint_text : forall l k n, NoDup l.*1 -> assoc k l = Some (json_u64 n) -> (n <= u64_max)%N ->
    extract_uint (json_text (JObject l)) k = n;
  send_mark : forall run w r w', book run <> [] ->
    send (mark_request cfg run.1 run.2) w = (r, w') ->
    exists t, rtc lands_late (observe w) t /\ rtc lands_late t (observe w') /\
      forall body, r = Ok body -> body = mark_answer (tb_rows t) run.1 run.2;
  send_insert : forall run i s rows w r w', book run !! i = Some s ->
    collect (record_to_ssdf_row <$> cl_records s) = Ok rows ->
    send (insert_request cfg (segment_token s) rows) w = (r, w') ->
    exists t t', rtc lands_late (observe w) t /\ inserts (segment_token s) rows (is_ok r) t t' /\
      rtc lands_late t' (observe w');
}.
