(* ===== verification/DeliveryFacts.v ===== *)
(** * Every spooled segment reaches the audit table once, in order

    The invariant behind Delivery.v: of each run the table holds the rows of
    the first segments, once each, and at most the next one is on its way.
    It is kept by late arrivals, by inserts whose answer is lost, by passes,
    and by restarts that reopen the files wherever the process died. *)

From S2P Require Import Prelude Externals Json Text Canonical Evidence Recorder Spool Delivery.
From Stdlib Require Import Ascii.

Open Scope list_scope.

(** ** Tokens name segments *)

Lemma dedup_token_inj server run n server' run' n' :
  dedup_token server run n = dedup_token server' run' n' -> server = server' /\ run = run' /\ n = n'.
Proof.
  unfold dedup_token. intros E.
  apply digits_split in E as [El%(inj pretty) E]; [|apply pretty_N_digits..|done].
  apply str_app_inj_len in E as [-> E]; [|unfold str_len in El; lia]. injection E as E.
  apply digits_split in E as [Er%(inj pretty) E]; [|apply pretty_N_digits..|done].
  apply str_app_inj_len in E as [-> E]; [|unfold str_len in Er; lia]. injection E as E. rewrite !str_app_nil in E. apply (inj (pretty (A := N))) in E. by subst.
Qed.

(** ** The order of a pass *)

Lemma str_compare_refl a : String.compare a a = Eq.
Proof. pose proof (String.compare_antisym a a) as E. by destruct (String.compare a a). Qed.

Lemma str_compare_lt_trans a b c :
  String.compare a b = Lt -> String.compare b c = Lt -> String.compare a c = Lt.
Proof.
  intros Hab Hbc. assert (String.leb a c = true) as Hac.
  { apply (str_leb_trans a b c); unfold String.leb; by rewrite ?Hab, ?Hbc. }
  unfold String.leb in Hac. destruct (String.compare a c) eqn:E; [|done|done].
  apply String.compare_eq_iff in E as ->. rewrite String.compare_antisym, Hbc in Hab. done.
Qed.

#[export] Instance sequence_le_trans : Transitive sequence_le.
Proof.
  intros a b c. unfold sequence_le.
  destruct (String.compare (cl_server_id a) (cl_server_id b)) eqn:E1; [|intros _|done];
    destruct (String.compare (cl_server_id b) (cl_server_id c)) eqn:E2; try done.
  - apply String.compare_eq_iff in E1 as ->. rewrite E2.
    destruct (String.compare (cl_run_id a) (cl_run_id b)) eqn:E3; [|intros _|done];
      destruct (String.compare (cl_run_id b) (cl_run_id c)) eqn:E4; try done.
    + apply String.compare_eq_iff in E3 as ->. rewrite E4. lia.
    + apply String.compare_eq_iff in E3 as ->. by rewrite E4.
    + apply String.compare_eq_iff in E4 as <-. by rewrite E3.
    + by rewrite (str_compare_lt_trans _ _ _ E3 E4).
  - apply String.compare_eq_iff in E1 as ->. by rewrite E2.
  - apply String.compare_eq_iff in E2 as <-. by rewrite E1.
  - by rewrite (str_compare_lt_trans _ _ _ E1 E2).
Qed.

#[export] Instance sequence_le_total : Total sequence_le.
Proof.
  intros a b. unfold sequence_le. rewrite (String.compare_antisym (cl_server_id a) (cl_server_id b)).
  rewrite (String.compare_antisym (cl_run_id a) (cl_run_id b)).
  destruct (String.compare (cl_server_id b) (cl_server_id a)), (String.compare (cl_run_id b) (cl_run_id a)); cbn; lia || tauto.
Qed.

Lemma sequence_le_seq a b : sequence_le a b -> run_of a = run_of b -> (cl_segment_seq a <= cl_segment_seq b)%N.
Proof.
  unfold sequence_le, run_of. intros Hle E. injection E as E1 E2. rewrite E1, E2 in Hle.
  by rewrite !str_compare_refl in Hle.
Qed.

(** ** The rows of a run are those of its first segments *)

Section exactly_once.
Context `{AT : AuditTable} `{EX : Externals} `{JS : JsonStrings} `{ST : SinkText}.
Context (cfg : SsdfSinkConfig) (book : Book) {AL : AuditTableLaws cfg book}.
Implicit Types t : Table.
Implicit Types s : ClosedSegment.

Definition segment_rows s : list SsdfRow :=
  match collect (record_to_ssdf_row <$> cl_records s) with Ok rows => rows | Err _ => [] end.

(** The runs of a book are numbered from zero, and their records say so. *)
Definition book_ok : Prop := forall run i s, book run !! i = Some s ->
  run_of s = run /\ cl_segment_seq s = N.of_nat i /\ (N.of_nat i <= u64_max)%N /\ cl_records s <> [] /\
  Forall (enveloped (cl_run_id s) (cl_server_id s) (cl_segment_seq s)) (cl_records s).

Hypothesis BK : book_ok.

Definition landed t s : Prop := segment_token s ∈ tb_accepted t.

Lemma segment_token_inj run i s run' i' s' :
  book run !! i = Some s -> book run' !! i' = Some s' -> segment_token s = segment_token s' ->
  run = run' /\ i = i' /\ s = s'.
Proof.
  intros Hs Hs' (Es&Er&En)%dedup_token_inj.
  destruct (BK _ _ _ Hs) as (<-&Hn&_), (BK _ _ _ Hs') as (<-&Hn'&_).
  assert (run_of s = run_of s') as E by (unfold run_of; congruence). assert (i = i') as -> by lia.
  rewrite E in Hs. split_and!; [done|done|congruence].
Qed.

(** A row says which segment it is of. *)
Lemma record_row f own r :
  NoDup (row_members f own).*1 -> row_tier r = "evidence" ->
  row_args r = json_text (JObject (row_members f own)) -> (ev_segment_seq f <= u64_max)%N ->
  (forall server run, in_run server run r = true <-> (server, run) = (ev_server_id f, ev_run_id f)) /\
  row_seq r = ev_segment_seq f.
Proof.
  intros Hnd Ht Ha Hn. unfold in_run, row_seq. rewrite Ht, Ha.
  rewrite (extract_string_text _ "server_id" (ev_server_id f)) by done.
  rewrite (extract_string_text _ "run_id" (ev_run_id f)) by done.
  rewrite (extract_uint_text _ "segment_seq" (ev_segment_seq f)) by done. split; [|done].
  intros server run. rewrite !andb_true_iff, !String.eqb_eq. naive_solver.
Qed.

Lemma segment_row run i s r :
  book run !! i = Some s -> r ∈ segment_rows s ->
  (forall run', in_run run'.1 run'.2 r = true <-> run' = run) /\ row_seq r = N.of_nat i.
Proof.
  intros Hs Hr. destruct (BK _ _ _ Hs) as (Hrun&Hseq&Hmax&_&Henv). unfold segment_rows in Hr.
  destruct (collect _) as [rows|] eqn:Hc; [|by apply not_elem_of_nil in Hr].
  apply collect_Ok in Hc.
  assert (exists x, x ∈ cl_records s /\ record_to_ssdf_row x = Ok r) as (x&Hx&Hrow).
  { apply (list_elem_of_fmap_2 (@Ok _ SsdfSinkError)) in Hr. rewrite <-Hc in Hr. apply list_elem_of_fmap in Hr as (x&?&?). by exists x. }
  rewrite Forall_forall in Henv. destruct (Henv x Hx) as (Er&Es&En).
  unfold record_to_ssdf_row in Hrow. apply result_bind_Ok in Hrow as (h&_&Hrow). injection Hrow as Hrow.
  destruct (record_row (facts x) (match x with Approval _ approver _ => [("approver", JString approver)] | _ => [] end) r)
    as [Hin Hsq]; [|by subst r|by subst r|by rewrite En, Hseq|].
  { destruct x; apply (bool_decide_unpack (NoDup _)); vm_compute; exact I. }
  split.
  - intros [server rid]. cbn [fst snd]. rewrite Hin, Er, Es, <-Hrun. done.
  - by rewrite Hsq, En, Hseq.
Qed.

(** The rows of one run in a block of another are none. *)
Lemma filter_segment run run' i s :
  book run !! i = Some s ->
  List.filter (in_run run'.1 run'.2) (segment_rows s) = if decide (run' = run) then segment_rows s else [].
Proof.
  intros Hs. assert (forall r, r ∈ segment_rows s -> in_run run'.1 run'.2 r = bool_decide (run' = run)) as Hb.
  { intros r Hr. destruct (segment_row _ _ _ _ Hs Hr) as [Hin _]. apply eq_bool_prop_intro.
    rewrite bool_decide_spec. specialize (Hin run'). rewrite <-Hin. by rewrite Is_true_true. }
  induction (segment_rows s) as [|r rs IH]; [by destruct (decide _)|]. cbn.
  rewrite (Hb r (list_elem_of_here _ _)), IH by (intros; apply Hb; by apply list_elem_of_further).
  rewrite <-decide_bool_decide. by destruct (decide (run' = run)).
Qed.

(** The first [k] segments of a run are in the table, once each and in order;
    of the others at most the next has been sent. *)
Record run_ok t (run : string * string) (k : nat) : Prop := {
  ro_len : k <= length (book run);
  ro_rows : List.filter (in_run run.1 run.2) (tb_rows t) = take k (book run) ≫= segment_rows;
  ro_accepted : forall i s, book run !! i = Some s -> landed t s <-> i < k;
  ro_sent : forall i s rows, book run !! i = Some s -> (segment_token s, rows) ∈ tb_sent t -> i <= k;
  ro_nonempty : forall i s, book run !! i = Some s -> i < k -> segment_rows s <> [];
}.

Record table_ok t : Prop := {
  to_runs : forall run, exists k, run_ok t run k;
  to_sent : forall token rows, (token, rows) ∈ tb_sent t ->
    exists run i s, book run !! i = Some s /\ token = segment_token s /\ rows = segment_rows s /\ rows <> [];
}.

(** The predecessors of a segment are in the table. *)
Definition caught_up t run i : Prop := forall j s, j < i -> book run !! j = Some s -> landed t s.

Lemma accept_next t run i s sent :
  table_ok t -> book run !! i = Some s -> ~ landed t s -> caught_up t run i -> segment_rows s <> [] ->
  (forall b, b ∈ sent -> b = (segment_token s, segment_rows s) \/ b ∈ tb_sent t) ->
  table_ok (accept (segment_token s) (segment_rows s) sent t).
Proof.
  intros [Hruns Hsent] Hs Hnew Hup Hne Hb. split.
  - intros run'. destruct (Hruns run') as [k [Hlen Hrows Hacc Hsnt Hnonempty]].
    destruct (decide (run' = run)) as [->|Hr].
    + assert (k = i) as ->.
      { rewrite (Hacc _ _ Hs) in Hnew. destruct (decide (k < i)) as [Hlt|]; [|lia].
        destruct (lookup_lt_is_Some_2 (book run) k) as [s' Hs']; [apply lookup_lt_Some in Hs; lia|].
        pose proof (proj1 (Hacc _ _ Hs') (Hup _ _ Hlt Hs')). lia. }
      exists (S i). split.
      * apply lookup_lt_Some in Hs. lia.
      * cbn [accept tb_rows]. rewrite List.filter_app, Hrows, (filter_segment run run i s Hs), decide_True by done.
        rewrite (take_S_r _ _ s Hs), bind_app. cbn. by rewrite app_nil_r.
      * intros j s' Hs'. unfold landed. cbn [accept tb_accepted]. rewrite elem_of_cons.
        specialize (Hacc _ _ Hs'). unfold landed in Hacc. rewrite Hacc. split.
        -- intros [E|?]; [|lia]. destruct (segment_token_inj _ _ _ _ _ _ Hs' Hs E) as (_&->&_). lia.
        -- intros Hj. destruct (decide (j = i)) as [->|]; [left; congruence|right; lia].
      * cbn [accept tb_sent]. intros j s' rows Hs' [[= E _]|Hin]%Hb.
        -- destruct (segment_token_inj _ _ _ _ _ _ Hs' Hs E) as (_&->&_). lia.
        -- pose proof (Hsnt _ _ _ Hs' Hin). lia.
      * intros j s' Hs' Hj. destruct (decide (j = i)) as [->|]; [congruence|apply (Hnonempty j s' Hs'); lia].
    + exists k. split; [done| | | |done].
      * cbn [accept tb_rows]. rewrite List.filter_app, Hrows, (filter_segment run run' i s Hs), decide_False by done.
        by rewrite app_nil_r.
      * intros j s' Hs'. unfold landed. cbn [accept tb_accepted]. rewrite elem_of_cons.
        specialize (Hacc _ _ Hs'). unfold landed in Hacc. rewrite Hacc. split; [|by right].
        intros [E|?]; [|done]. by destruct (segment_token_inj _ _ _ _ _ _ Hs' Hs E).
      * cbn [accept tb_sent]. intros j s' rows Hs' [[= E _]|Hin]%Hb; [|by eapply Hsnt].
        by destruct (segment_token_inj _ _ _ _ _ _ Hs' Hs E).
  - cbn [accept tb_sent]. intros token rows [[= -> ->]|Hin]%Hb; [|by apply Hsent]. by exists run, i, s.
Qed.

(** What was sent but not accepted is the next of its run. *)
Lemma sent_next t run i s rows :
  table_ok t -> book run !! i = Some s -> (segment_token s, rows) ∈ tb_sent t -> caught_up t run i.
Proof.
  intros [Hruns _] Hs Hin j s' Hj Hs'. destruct (Hruns run) as [k Hk].
  apply (ro_accepted _ _ _ Hk _ _ Hs'). pose proof (ro_sent _ _ _ Hk _ _ _ Hs Hin). lia.
Qed.

(** Nothing lands twice and nothing is taken back. *)
Definition grows t t' : Prop := tb_accepted t ⊆ tb_accepted t'.

Lemma late_ok t t' : table_ok t -> lands_late t t' -> table_ok t' /\ grows t t'.
Proof.
  intros Ht [token rows Hin Hnew]. split; [|unfold grows; cbn; set_solver].
  destruct (to_sent _ Ht _ _ Hin) as (run&i&s&Hs&->&->&Hne).
  eapply accept_next; [done|exact Hs|exact Hnew|by eapply sent_next|done|by right].
Qed.

Lemma lates_ok t t' : table_ok t -> rtc lands_late t t' -> table_ok t' /\ grows t t'.
Proof.
  intros Ht Hr. induction Hr as [t|t t1 t2 Hl _ IH]; [split; [done|unfold grows; set_solver]|].
  destruct (late_ok _ _ Ht Hl) as [Ht1 Hg]. destruct (IH Ht1) as [Ht2 Hg']. split; [done|].
  unfold grows in *. set_solver.
Qed.

Lemma landed_grows t t' s : grows t t' -> landed t s -> landed t' s.
Proof. unfold grows, landed. set_solver. Qed.

Lemma caught_up_grows t t' run i : grows t t' -> caught_up t run i -> caught_up t' run i.
Proof. intros Hg Hc j s Hj Hs. eapply landed_grows; [done|by eapply Hc]. Qed.

Lemma inserts_ok t t' run i s answered :
  table_ok t -> book run !! i = Some s -> caught_up t run i -> segment_rows s <> [] ->
  inserts (segment_token s) (segment_rows s) answered t t' ->
  table_ok t' /\ grows t t' /\ (answered = true -> landed t' s).
Proof.
  intros Ht Hs Hup Hne [Hnew|Hold|Hlost]; unfold grows.
  - split_and!; [|cbn; set_solver|intros _; apply list_elem_of_here].
    eapply accept_next; [done|done|exact Hnew|done|done|]. intros b. rewrite elem_of_cons. naive_solver.
  - by split_and!.
  - split_and!; [|done|by rewrite Hlost]. split.
    + intros run'. destruct (to_runs _ Ht run') as [k []]. exists k. split; [done..| |done].
      cbn [tb_sent]. intros j s' rows Hs'. rewrite elem_of_cons. intros [[= E _]|?]; [|by eapply ro_sent0].
      destruct (segment_token_inj _ _ _ _ _ _ Hs' Hs E) as (->&->&->).
      destruct (decide (i <= k)) as [|Hlt]; [done|exfalso].
      destruct (lookup_lt_is_Some_2 (book run) k) as [s2 Hs2]; [apply lookup_lt_Some in Hs; lia|].
      pose proof (proj1 (ro_accepted0 _ _ Hs2) (Hup k s2 ltac:(lia) Hs2)). lia.
    + cbn [tb_sent]. intros token rows. rewrite elem_of_cons. intros [[= -> ->]|?]; [by exists run, i, s|].
      by apply (to_sent _ Ht).
Qed.

(** ** The high-water mark *)

Lemma split_two_numbers (a b : N) :
  split_whitespace (pretty a +:+ String "009" (pretty b +:+ String "010" "")) = [pretty a; pretty b].
Proof.
  unfold split_whitespace. destruct (pretty_N_digits a) as [Ha Hna], (pretty_N_digits b) as [Hb Hnb].
  rewrite words_from_digits, str_app_nil by done. cbn [words_from].
  change (whitespace_width (String "009" ?x)) with (Some 1). cbv iota.
  rewrite words_from_digits, str_app_nil by done. cbn [words_from].
  change (whitespace_width (String "010" "")) with (Some 1). cbv iota.
  by destruct (pretty a), (pretty b).
Qed.

Lemma read_mark_answer rows server run m :
  read_mark (mark_answer rows server run) = Ok m ->
  let rs := List.filter (in_run server run) rows in
  (m = None /\ rs = []) \/ (m = Some (foldr N.max 0%N (row_seq <$> rs)) /\ rs <> []).
Proof.
  unfold mark_answer. set (rs := List.filter _ rows). set (top := foldr _ _ _). intros Hm. cbv zeta.
  unfold read_mark in Hm. rewrite split_two_numbers in Hm. cbn in Hm.
  destruct (parse_u64 (pretty (N.of_nat (length rs)))) as [c|] eqn:Hc; [|done].
  apply parse_u64_pretty_inv in Hc as ->. cbn in Hm. destruct rs as [|r rs']; [injection Hm as <-; by left|].
  rewrite (proj2 (N.eqb_neq _ _)) in Hm by (cbn; lia).
  destruct (parse_u64 (pretty top)) as [c|] eqn:Hc; [|done].
  apply parse_u64_pretty_inv in Hc as ->. injection Hm as <-. by right.
Qed.

(** A segment at or below the mark is in the table. *)
Lemma mark_landed t run i s m :
  table_ok t -> book run !! i = Some s -> read_mark (mark_answer (tb_rows t) run.1 run.2) = Ok (Some m) ->
  (cl_segment_seq s <= m)%N -> landed t s.
Proof.
  intros Ht Hs Hm Hle. apply read_mark_answer in Hm as [[? _]|[[= ->] Hne]]; [done|].
  destruct (to_runs _ Ht run) as [k Hk]. destruct (BK _ _ _ Hs) as (_&Hseq&_). rewrite Hseq in Hle.
  apply (ro_accepted _ _ _ Hk _ _ Hs). rewrite (ro_rows _ _ _ Hk) in Hle, Hne.
  assert (forall r, r ∈ take k (book run) ≫= segment_rows -> (row_seq r < N.of_nat k)%N) as Hall.
  { intros r (s'&Hr&(j&Hj&Hlt)%elem_of_take)%list_elem_of_bind.
    destruct (segment_row _ _ _ _ Hj Hr) as [_ ->]. lia. }
  assert (0 < k) as Hk0 by (destruct k; [done|lia]).
  enough (foldr N.max 0%N (row_seq <$> take k (book run) ≫= segment_rows) < N.of_nat k)%N by lia.
  clear -Hall Hk0. induction (take k (book run) ≫= segment_rows) as [|r rs IH]; cbn; [lia|].
  apply N.max_lub_lt; [apply Hall, list_elem_of_here|]. apply IH. intros. by apply Hall, list_elem_of_further.
Qed.

(** ** One segment *)

Lemma deliver_segment_ok run i s w r w' :
  table_ok (observe w) -> book run !! i = Some s -> caught_up (observe w) run i ->
  deliver_segment cfg s w = (r, w') ->
  table_ok (observe w') /\ grows (observe w) (observe w') /\ (r = Ok tt -> landed (observe w') s).
Proof.
  intros Ht Hs Hup. destruct (BK _ _ _ Hs) as (Hrun&_&_&Hrec&_). unfold deliver_segment, high_water_mark.
  destruct (send _ w) as [body w1] eqn:Hsend.
  destruct (send_mark run w body w1) as (t&Hl1&Hl2&Hbody).
  { intros E. by rewrite E in Hs. }
  { rewrite <-Hrun. exact Hsend. }
  destruct (lates_ok _ _ Ht Hl1) as [Ht1 Hg1]. destruct (lates_ok _ _ Ht1 Hl2) as [Ht2 Hg2].
  assert (grows (observe w) (observe w1)) as Hg by (unfold grows in *; set_solver).
  destruct (let? b := body in read_mark b) as [mark|e] eqn:Em; [|by intros [= <- <-]].
  apply result_bind_Ok in Em as (b&->&Hm). rewrite (Hbody b eq_refl) in Hm.
  destruct (from_option _ _ mark) eqn:Hle.
  { intros [= <- <-]. split_and!; [done|done|intros _]. destruct mark as [m|]; [|done].
    eapply landed_grows; [exact Hg2|]. eapply mark_landed; [done|done|exact Hm|by apply N.leb_le]. }
  destruct (collect _) as [rows|e] eqn:Hc; [|by intros [= <- <-]].
  assert (rows <> []) as Hne.
  { apply collect_Ok in Hc. intros ->. by destruct (cl_records s). }
  destruct rows as [|row rows]; [done|]. set (block := row :: rows) in *.
  destruct (send _ w1) as [r2 w2] eqn:Hsend2. intros [= <- <-].
  destruct (send_insert run i s block w1 r2 w2 Hs Hc Hsend2) as (t1&t2&Hla&Hins&Hlb).
  assert (block = segment_rows s) as Eb by (unfold segment_rows; by rewrite Hc).
  destruct (lates_ok _ _ Ht2 Hla) as [Ht3 Hg3].
  rewrite Eb in Hins. destruct (inserts_ok t1 t2 run i s (is_ok r2) Ht3 Hs) as (Ht4&Hg4&Hland);
    [by eapply caught_up_grows; [|exact Hup]; unfold grows in *; set_solver|by rewrite <-Eb|done|].
  destruct (lates_ok _ _ Ht4 Hlb) as [Ht5 Hg5].
  split_and!; [done|unfold grows in *; set_solver|].
  destruct r2 as [b2|]; [|done]. intros _. eapply landed_grows; [exact Hg5|]. by apply Hland.
Qed.

(** ** The ledger says delivered only of what landed *)

Context `{CE : LineCodecLaws LedgerEntry}.

Definition delivered_ok t (l : DeliveryLedger) : Prop := forall run i s at_,
  book run !! i = Some s -> ledger_status (segment_id s) l = Some (Delivered at_) -> landed t s.

(** Whatever the process is doing when it dies. *)
Definition reopens t (l : DeliveryLedger) : Prop :=
  exists l', ledger_open (dl_file l) = Ok l' /\ ledger_ok l' /\ delivered_ok t l'.

Lemma delivered_grows t t' l : grows t t' -> delivered_ok t l -> delivered_ok t' l.
Proof. intros Hg Hd run i s a Hs Hl. eapply landed_grows; [done|by eapply Hd]. Qed.

Lemma delivered_index t l l' : dl_index l = dl_index l' -> delivered_ok t l -> delivered_ok t l'.
Proof. unfold delivered_ok, ledger_status. by intros ->. Qed.

Lemma ok_reopens t l : ledger_ok l -> delivered_ok t l -> reopens t l.
Proof. intros Hl Hd. exists l. split_and!; [by apply ledger_open_ok|done|done]. Qed.

Lemma delivered_insert t l l' id status :
  delivered_ok t l -> dl_index l' = <[id := status]> (dl_index l) ->
  (forall run i s at_, book run !! i = Some s -> id = segment_id s -> status = Delivered at_ -> landed t s) ->
  delivered_ok t l'.
Proof.
  intros Hd Hi Hnew run i s a Hs. unfold ledger_status. rewrite Hi.
  destruct (decide (id = segment_id s)) as [->|].
  - rewrite lookup_insert_eq. intros [= ->]. by eapply Hnew.
  - rewrite lookup_insert_ne by done. intros Ha. by eapply Hd.
Qed.

Lemma write_entry_delivered t fate id status l r l' :
  ledger_ok l -> delivered_ok t l ->
  (forall run i s at_, book run !! i = Some s -> id = segment_id s -> status = Delivered at_ -> landed t s) ->
  write_entry fate id status l = (r, l') ->
  delivered_ok t l' /\ reopens t l' /\ (r = Ok tt -> ledger_ok l').
Proof.
  intros Hok Hd Hnew Hw. destruct (write_entry_reopens _ _ _ _ _ _ Hok Hw) as (l''&Ho&Hok'&Hi&Hr).
  split_and!.
  - unfold write_entry in Hw. destruct (print_line _); [|by injection Hw as _ <-].
    destruct (append_line _ _ _) as [[u|] data]; injection Hw as _ <-; [|by apply (delivered_index t l)].
    by apply (delivered_insert t l _ id status).
  - exists l''. split_and!; [done|done|]. destruct Hi as [Hi|Hi]; [by apply (delivered_index t l)|by apply (delivered_insert t l _ id status)].
  - intros Hrr. by destruct (Hr Hrr) as [<- _].
Qed.

(** ** One pass *)

Definition recorded s : Prop := book (run_of s) !! N.to_nat (cl_segment_seq s) = Some s.

Abbreviation seen p := (observe (ps_remote p)) (only parsing).

Record pass_ok (p p' : Pass) (r : result unit SsdfSinkError) : Prop := {
  po_table : table_ok (seen p');
  po_grows : grows (seen p) (seen p');
  po_delivered : delivered_ok (seen p') (ps_ledger p');
  po_reopens : reopens (seen p') (ps_ledger p');
  po_ledger : r = Ok tt -> ledger_ok (ps_ledger p');
  po_blocked : ps_blocked p ⊆ ps_blocked p';
  po_failed : (dr_failed (ps_report p) <= dr_failed (ps_report p'))%N;
  po_clean : dr_failed (ps_report p') = dr_failed (ps_report p) -> ps_blocked p' = ps_blocked p;
}.

Lemma pass_ok_refl p r :
  table_ok (seen p) -> ledger_ok (ps_ledger p) -> delivered_ok (seen p) (ps_ledger p) -> pass_ok p p r.
Proof. intros. split; try done; [unfold grows; set_solver|by apply ok_reopens]. Qed.

Lemma send_one_ok env n s attempts p r p' :
  table_ok (seen p) -> ledger_ok (ps_ledger p) -> delivered_ok (seen p) (ps_ledger p) -> recorded s ->
  caught_up (seen p) (run_of s) (N.to_nat (cl_segment_seq s)) ->
  send_one cfg env n s attempts p = (r, p') ->
  pass_ok p p' r /\ ps_blocked p' ⊆ {[ run_of s ]} ∪ ps_blocked p /\
  (r = Ok tt -> run_of s ∈ ps_blocked p' \/ landed (seen p') s).
Proof.
  intros Ht Hl Hd Hs Hup. unfold send_one.
  destruct (deliver_segment cfg s (ps_remote p)) as [rd w] eqn:Hdel.
  destruct (deliver_segment_ok _ _ _ _ _ _ Ht Hs Hup Hdel) as (Ht'&Hg&Hland). cbv zeta. cbn [pass_sent ps_ledger].
  pose proof (delivered_grows _ _ _ Hg Hd) as Hd'.
  destruct rd as [[]|e].
  - assert (forall run i s' at_ at', book run !! i = Some s' -> segment_id s = segment_id s' ->
      Delivered at_ = Delivered at' -> landed (observe w) s') as Hsame.
    { intros ? ? s' ? ? _ E _. unfold landed. replace (segment_token s') with (segment_token s); [by apply Hland|].
      unfold segment_id in E. injection E as E1 E2 E3. unfold segment_token. congruence. }
    unfold mark_delivered. destruct (write_entry _ _ _ _) as [wr l'] eqn:Hw.
    destruct (write_entry_delivered (observe w) _ _ _ _ _ _ Hl Hd' (fun run i s' a => Hsame run i s' _ a) Hw)
      as (Hd2&Hre&Hok).
    destruct wr as [[]|e']; intros [= <- <-]; (split_and!; [split|..]); cbn; try done; try lia; try set_solver; auto.
  - unfold mark_failed. destruct (write_entry _ _ _ _) as [wr l'] eqn:Hw.
    apply (write_entry_delivered (observe w)) in Hw as (Hd2&Hre&Hok); [|done..].
    destruct wr as [[]|e']; intros [= <- <-]; (split_and!; [split|..]); cbn; try done; try lia; try set_solver; auto.
Qed.

Lemma deliver_one_ok env n s p r p' :
  table_ok (seen p) -> ledger_ok (ps_ledger p) -> delivered_ok (seen p) (ps_ledger p) -> recorded s ->
  (run_of s ∉ ps_blocked p -> caught_up (seen p) (run_of s) (N.to_nat (cl_segment_seq s))) ->
  deliver_one cfg env n s p = (r, p') ->
  pass_ok p p' r /\ ps_blocked p' ⊆ {[ run_of s ]} ∪ ps_blocked p /\
  (r = Ok tt -> run_of s ∈ ps_blocked p' \/ landed (seen p') s).
Proof.
  intros Ht Hl Hd Hs Hup. unfold deliver_one.
  case_bool_decide as Hb; [intros [= <- <-]; split_and!; [by apply pass_ok_refl|set_solver|by left]|].
  destruct (ledger_status _ _) as [[|a|a e m]|] eqn:Hst; try by apply send_one_ok; auto.
  intros [= <- <-]. split_and!; [by apply pass_ok_refl|set_solver|intros _; right; by eapply Hd].
Qed.

(** Every segment still to be looked at has its predecessors landed, or ahead
    of it in the pass. *)
Definition ready t (blocked : gset (string * string)) (todo : list ClosedSegment) : Prop :=
  forall s, s ∈ todo -> run_of s ∉ blocked -> forall j s', j < N.to_nat (cl_segment_seq s) ->
    book (run_of s) !! j = Some s' -> landed t s' \/ s' ∈ todo.

Lemma ready_head t blocked s todo :
  ready t blocked (s :: todo) -> StronglySorted sequence_le (s :: todo) -> run_of s ∉ blocked ->
  caught_up t (run_of s) (N.to_nat (cl_segment_seq s)).
Proof.
  intros Hr Hso Hb j s' Hj Hs'. destruct (Hr s (list_elem_of_here _ _) Hb j s' Hj Hs') as [?|Hin]; [done|exfalso].
  destruct (BK _ _ _ Hs') as (Hrun&Hseq&_). apply elem_of_cons in Hin as [->|Hin]; [lia|].
  apply StronglySorted_inv in Hso as [_ Hle]. rewrite Forall_forall in Hle.
  pose proof (sequence_le_seq _ _ (Hle _ Hin) (eq_sym Hrun)). lia.
Qed.

Lemma ready_tail t t' blocked blocked' s todo :
  ready t blocked (s :: todo) -> recorded s -> grows t t' -> blocked ⊆ blocked' ->
  run_of s ∈ blocked' \/ landed t' s -> ready t' blocked' todo.
Proof.
  intros Hr Hrec Hg Hb Hs s1 Hin Hb1 j s' Hj Hs'.
  destruct (Hr s1 (list_elem_of_further _ _ _ Hin) ltac:(set_solver) j s' Hj Hs') as [?|[->|?]%elem_of_cons];
    [left; by eapply landed_grows| |by right].
  left. destruct (BK _ _ _ Hs') as (E&_). destruct Hs as [Hs|Hs]; [|done]. rewrite E in Hs. set_solver.
Qed.

Lemma deliver_all_ok env n todo p r p' :
  table_ok (seen p) -> ledger_ok (ps_ledger p) -> delivered_ok (seen p) (ps_ledger p) ->
  Forall recorded todo -> StronglySorted sequence_le todo -> ready (seen p) (ps_blocked p) todo ->
  deliver_all cfg env n todo p = (r, p') ->
  pass_ok p p' r /\
  (r = Ok tt -> dr_failed (ps_report p') = dr_failed (ps_report p) ->
     forall s, s ∈ todo -> run_of s ∉ ps_blocked p -> landed (seen p') s).
Proof.
  revert n p. induction todo as [|s todo IH]; intros n p Ht Hl Hd Hrec Hso Hready.
  { intros [= <- <-]. split; [by apply pass_ok_refl|]. intros _ _ s Hs. by apply not_elem_of_nil in Hs. }
  apply Forall_cons in Hrec as [Hs Hrec]. cbn [deliver_all].
  destruct (deliver_one cfg env n s p) as [r1 p1] eqn:H1.
  apply deliver_one_ok in H1 as (Hp1&_&Hone); [|done..|by eapply ready_head].
  destruct r1 as [[]|e]; [|by intros [= <- <-]]. specialize (Hone eq_refl). destruct Hp1.
  intros Hall. apply IH in Hall as [[] Hclean]; [|auto..|by apply StronglySorted_inv in Hso as [? _]|by eapply ready_tail].
  split.
  - split; [done|unfold grows in *; set_solver|done|done|done|set_solver|lia|].
    intros E. rewrite po_clean1, po_clean0 by lia. done.
  - intros Hr Hf s1 Hin Hb. assert (dr_failed (ps_report p1) = dr_failed (ps_report p)) as E1 by lia.
    apply elem_of_cons in Hin as [->|Hin].
    + eapply landed_grows; [exact po_grows1|]. destruct Hone as [Hin|?]; [|done]. by rewrite (po_clean0 E1) in Hin.
    + apply Hclean; [done|lia|done|]. by rewrite (po_clean0 E1).
Qed.

(** A ledger that takes every entry stops no pass. *)
Lemma deliver_all_quiet env n todo p :
  (forall i, pe_fate env i = Wrote) -> (deliver_all cfg env n todo p).1 = Ok tt.
Proof.
  intros Hf. revert n p. induction todo as [|s todo IH]; intros n p; [done|]. cbn [deliver_all].
  assert (forall attempts, (send_one cfg env n s attempts p).1 = Ok tt) as Hsend.
  { intros attempts. unfold send_one, mark_delivered, mark_failed. rewrite Hf.
    destruct (deliver_segment _ _ _) as [[]]; cbv zeta; destruct (write_entry _ _ _ _) as [wr l'] eqn:Hw;
      by rewrite (write_entry_wrote _ _ _ _ _ Hw). }
  assert ((deliver_one cfg env n s p).1 = Ok tt) as Hone.
  { unfold deliver_one. case_bool_decide; [done|]. by destruct (ledger_status _ _) as [[]|]. }
  destruct (deliver_one _ _ _ _ _) as [r p1]. cbn in Hone. subst r. apply IH.
Qed.

(** ** The sink over time *)

Context `{CS : LineCodecLaws ClosedSegment}.

(** A recorder spools the segments of the book in order. *)
Definition next_of (segments : list ClosedSegment) s : Prop :=
  recorded s /\ forall j s', j < N.to_nat (cl_segment_seq s) -> book (run_of s) !! j = Some s' -> s' ∈ segments.

(** The outbox write is not cut short in the middle of the line. *)
Definition whole (fate : AppendFate) : Prop := match fate with Short n _ => n = 0 | _ => True end.

(** Segments are spooled and passes run; the process may die in the middle of
    any ledger write and start again on the files it left. *)
Inductive sink_step : SinkFiles * Remote -> SinkFiles * Remote -> Prop :=
| step_spool fate s segments k r k' w :
    load_outbox k = Ok segments -> next_of segments s -> whole fate ->
    spool fate Wrote s k = (r, k') -> sink_step (k, w) (k', w)
| step_pass env k w r k' w' :
    (forall i, pe_fate env i = Wrote) -> attempt_delivery cfg env k w = (r, k', w') ->
    sink_step (k, w) (k', w')
| step_die_spooling fate ledger_fate s segments k r k' k'' w :
    load_outbox k = Ok segments -> next_of segments s -> whole fate ->
    spool fate ledger_fate s k = (r, k') ->
    sink_open (sk_outbox k') (dl_file (sk_ledger k')) = Ok k'' -> sink_step (k, w) (k'', w)
| step_die_passing env k w r k' k'' w' :
    attempt_delivery cfg env k w = (r, k', w') ->
    sink_open (sk_outbox k') (dl_file (sk_ledger k')) = Ok k'' -> sink_step (k, w) (k'', w').

(** An empty spool, and a table that has seen nothing of these runs. *)
Definition sink_new : SinkFiles := {| sk_outbox := []; sk_ledger := {| dl_file := []; dl_index := ∅ |} |}.

Definition fresh t : Prop :=
  tb_sent t = [] /\ forall run, List.filter (in_run run.1 run.2) (tb_rows t) = [] /\
    forall i s, book run !! i = Some s -> segment_token s ∉ tb_accepted t.

Record sink_ok (segments : list ClosedSegment) (k : SinkFiles) (w : Remote) : Prop := {
  so_outbox : outbox_is segments k;
  so_next : forall s, s ∈ segments -> next_of segments s;
  so_ledger : ledger_ok (sk_ledger k);
  so_delivered : delivered_ok (observe w) (sk_ledger k);
  so_table : table_ok (observe w);
}.

Lemma sink_new_ok w : fresh (observe w) -> sink_ok [] sink_new w.
Proof.
  intros [Hsent Hruns]. split; [done|by intros s Hs; apply not_elem_of_nil in Hs|by exists []| |].
  - intros run i s a _ Ha. unfold ledger_status in Ha. cbn in Ha. by rewrite lookup_empty in Ha.
  - split.
    + intros run. destruct (Hruns run) as [Hrows Hacc]. exists 0. split; [lia|done| | |lia].
      * intros i s Hs. split; [|lia]. intros Hl. by destruct (Hacc i s Hs).
      * intros i s rows _ Hin. rewrite Hsent in Hin. by apply not_elem_of_nil in Hin.
    + intros token rows Hin. rewrite Hsent in Hin. by apply not_elem_of_nil in Hin.
Qed.

Lemma next_of_more segments more s : next_of segments s -> next_of (segments ++ more) s.
Proof. intros [Hr Hp]. split; [done|]. intros j s' Hj Hs'. apply elem_of_app. left. by eapply Hp. Qed.

Lemma spool_ok fate ledger_fate s segments k r k' w :
  sink_ok segments k w -> next_of segments s -> whole fate -> spool fate ledger_fate s k = (r, k') ->
  exists segments', outbox_is segments' k' /\ (forall s', s' ∈ segments' -> next_of segments' s') /\
    delivered_ok (observe w) (sk_ledger k') /\ reopens (observe w) (sk_ledger k') /\
    (ledger_fate = Wrote -> ledger_ok (sk_ledger k')).
Proof.
  intros [Ho Hn Hl Hd Ht] Hs Hw Hsp.
  assert (forall s', s' ∈ segments ++ [s] -> next_of (segments ++ [s]) s') as Hn'.
  { intros s' [?|E%list_elem_of_singleton]%elem_of_app; [|subst s']; apply next_of_more; auto. }
  unfold outbox_is in Ho. unfold spool in Hsp. destruct (print_parse s) as (line&Hp&_). rewrite Hp in Hsp.
  unfold append_line in Hsp. rewrite <-(line_of_print _ _ Hp), Ho in Hsp.
  destruct fate as [|n e|e].
  - destruct (mark_pending _ _ _) as [rm l] eqn:Hm. injection Hsp as <- <-.
    assert (Hwe := Hm). apply (write_entry_delivered (observe w)) in Hwe as (Hd'&Hre&Hok); [|done..].
    exists (segments ++ [s]). split_and!; [by unfold outbox_is; rewrite file_of_snoc|done|done|done|].
    intros ->. apply Hok. by eapply write_entry_wrote.
  - cbn in Hw. subst n. injection Hsp as <- <-. exists segments. unfold outbox_is. cbn. rewrite app_nil_r.
    split_and!; [done|done|done|by apply ok_reopens|done].
  - injection Hsp as <- <-. exists (segments ++ [s]). unfold outbox_is. cbn [sk_outbox sk_ledger].
    rewrite file_of_snoc. split_and!; [done|done|done|by apply ok_reopens|done].
Qed.

Lemma attempt_delivery_ok env segments k w r k' w' :
  sink_ok segments k w -> attempt_delivery cfg env k w = (r, k', w') ->
  sk_outbox k' = sk_outbox k /\ table_ok (observe w') /\ delivered_ok (observe w') (sk_ledger k') /\
  reopens (observe w') (sk_ledger k') /\
  ((forall i, pe_fate env i = Wrote) -> ledger_ok (sk_ledger k')) /\
  forall report, r = Ok report -> dr_failed report = 0%N -> forall s, s ∈ segments -> landed (observe w') s.
Proof.
  intros [Ho Hn Hl Hd Ht]. unfold attempt_delivery. rewrite (load_outbox_is _ _ Ho).
  destruct (deliver_all _ _ _ _ _) as [ra p] eqn:Ha. intros [= <- <- <-]. cbn [sk_outbox sk_ledger]. pose proof Ha as Hr0.
  assert (forall s, s ∈ merge_sort sequence_le segments <-> s ∈ segments) as Hin
    by (intros s; by rewrite merge_sort_Permutation).
  apply deliver_all_ok in Ha as [[] Hclean]; cbn [ps_remote ps_ledger ps_blocked ps_report dr_failed] in *.
  - split_and!; try done.
    + intros Hf. apply po_ledger0. pose proof (deliver_all_quiet env 0 (merge_sort sequence_le segments)) as Hq.
      eapply Hq in Hf. by rewrite Hr0 in Hf.
    + intros report Hr Hz s Hs. destruct ra as [[]|]; [|done]. injection Hr as <-. apply Hclean; [done|done| |set_solver].
      by apply Hin.
  - done.
  - done.
  - done.
  - apply Forall_forall. intros s Hs%Hin. by apply Hn.
  - apply StronglySorted_merge_sort; apply _.
  - intros s Hs%Hin _ j s' Hj Hs'. right. apply Hin. by eapply (proj2 (Hn _ Hs)).
Qed.

Lemma sink_step_ok segments k w x :
  sink_ok segments k w -> sink_step (k, w) x -> exists segments', sink_ok segments' x.1 x.2.
Proof.
  intros Hok Hstep. inversion Hstep as [fate s segs k0 r k' w0 Hload Hn Hw Hsp|env k0 w0 r k' w' Hf Ha
    |fate lf s segs k0 r k' k'' w0 Hload Hn Hw Hsp Ho|env k0 w0 r k' k'' w' Ha Ho]; subst; cbn [fst snd];
    try (rewrite (load_outbox_is _ _ (so_outbox _ _ _ Hok)) in Hload; injection Hload as <-).
  - destruct (spool_ok _ _ _ _ _ _ _ _ Hok Hn Hw Hsp) as (segs'&?&?&?&_&Hl). exists segs'.
    split; [done..|by apply Hl|done|apply Hok].
  - destruct (attempt_delivery_ok _ _ _ _ _ _ _ Hok Ha) as (Eo&?&?&_&Hl&_). exists segments.
    split; [by unfold outbox_is; rewrite Eo; apply Hok|apply Hok|by apply Hl|done|done].
  - destruct (spool_ok _ _ _ _ _ _ _ _ Hok Hn Hw Hsp) as (segs'&?&?&_&(l&Hlo&?&?)&_). exists segs'.
    unfold sink_open in Ho. rewrite Hlo in Ho. injection Ho as <-. split; [done..|apply Hok].
  - destruct (attempt_delivery_ok _ _ _ _ _ _ _ Hok Ha) as (Eo&?&_&(l&Hlo&?&?)&_). exists segments.
    unfold sink_open in Ho. rewrite Hlo in Ho. injection Ho as <-.
    split; [by unfold outbox_is; cbn; rewrite Eo; apply Hok|apply Hok|done..].
Qed.

Lemma sink_reachable w0 k w :
  fresh (observe w0) -> rtc sink_step (sink_new, w0) (k, w) -> exists segments, sink_ok segments k w.
Proof.
  intros Hf Hr. change (exists segments, sink_ok segments (k, w).1 (k, w).2).
  eapply (rtc_ind_r (fun x => exists segments, sink_ok segments x.1 x.2) (sink_new, w0)); [| |exact Hr].
  - exists []. by apply sink_new_ok.
  - intros [k1 w1] x _ Hs [segs Hok]. by eapply sink_step_ok.
Qed.


(** ** A service that answers *)

(** Every record of the book can be hashed, and the rows of a run can be
    counted. *)
Definition book_sendable : Prop :=
  (forall run i s r, book run !! i = Some s -> r ∈ cl_records s -> is_ok (digest_of (record_value r)) = true) /\
  (forall run, N.of_nat (length (book run ≫= segment_rows)) <= u64_max)%N.

Definition answers : Prop := forall req w, is_ok (send req w).1 = true.

Lemma foldr_max_bound (l : list N) b : (forall x, x ∈ l -> (x <= b)%N) -> (foldr N.max 0 l <= b)%N.
Proof.
  induction l as [|x l IH]; intros Hl; cbn; [lia|]. apply N.max_lub; [apply Hl, list_elem_of_here|].
  apply IH. intros. by apply Hl, list_elem_of_further.
Qed.

Lemma mark_readable t run :
  table_ok t -> book_sendable -> is_ok (read_mark (mark_answer (tb_rows t) run.1 run.2)) = true.
Proof.
  intros Ht [_ Hb]. destruct (to_runs _ Ht run) as [k Hk]. unfold mark_answer. rewrite (ro_rows _ _ _ Hk).
  set (rs := take k (book run) ≫= segment_rows).
  assert (length rs <= length (book run ≫= segment_rows)) as Hlen.
  { unfold rs. rewrite <-(take_drop k (book run)) at 2. rewrite bind_app, length_app. lia. }
  assert (foldr N.max 0 (row_seq <$> rs) <= u64_max)%N as Htop.
  { apply foldr_max_bound. intros x (r&->&Hr)%list_elem_of_fmap.
    apply list_elem_of_bind in Hr as (s&Hr&(j&Hj&_)%elem_of_take).
    destruct (segment_row _ _ _ _ Hj Hr) as [_ ->]. by destruct (BK _ _ _ Hj) as (_&_&?&_). }
  specialize (Hb run). unfold read_mark. rewrite split_two_numbers. cbn [head lookup list_lookup mbind option_bind].
  rewrite !parse_u64_pretty by lia. cbn. by destruct (_ =? _)%N.
Qed.

Lemma deliver_segment_answers run i s w :
  table_ok (observe w) -> book run !! i = Some s -> book_sendable -> answers ->
  (deliver_segment cfg s w).1 = Ok tt.
Proof.
  intros Ht Hs Hb Ha. destruct (BK _ _ _ Hs) as (Hrun&_). unfold deliver_segment, high_water_mark.
  destruct (send _ w) as [body w1] eqn:Hsend.
  destruct (send_mark run w body w1) as (t&Hl1&Hl2&Hbody).
  { intros E. by rewrite E in Hs. }
  { rewrite <-Hrun. exact Hsend. }
  pose proof (Ha (mark_request cfg (cl_server_id s) (cl_run_id s)) w) as Hok. rewrite Hsend in Hok.
  destruct body as [body|]; [|done]. cbn [result_bind]. rewrite (Hbody body eq_refl).
  destruct (lates_ok _ _ Ht Hl1) as [Ht1 _]. pose proof (mark_readable t run Ht1 Hb) as Hm.
  destruct (read_mark _) as [mark|]; [|done]. destruct (from_option _ _ mark); [done|].
  assert (is_ok (collect (record_to_ssdf_row <$> cl_records s)) = true) as Hc.
  { destruct Hb as [Hh _]. assert (forall r, r ∈ cl_records s -> is_ok (digest_of (record_value r)) = true) as Hall by eauto.
    clear -Hall. induction (cl_records s) as [|r rs IH]; [done|]. cbn.
    pose proof (Hall r (list_elem_of_here _ _)) as Hr. unfold record_to_ssdf_row, row_hash_of.
    destruct (digest_of (record_value r)); [|done]. cbn.
    destruct (collect _) eqn:E; [done|]. cbn in IH. apply IH. intros. by apply Hall, list_elem_of_further. }
  destruct (collect _) as [[|row rows]|]; [done| |done].
  pose proof (Ha (insert_request cfg (segment_token s) (row :: rows)) w1) as Hok2.
  by destruct (send _ w1) as [[] w2].
Qed.

Lemma deliver_all_answers env n todo p r p' :
  table_ok (seen p) -> ledger_ok (ps_ledger p) -> delivered_ok (seen p) (ps_ledger p) ->
  Forall recorded todo -> StronglySorted sequence_le todo -> ready (seen p) (ps_blocked p) todo ->
  (forall i, pe_fate env i = Wrote) -> book_sendable -> answers ->
  deliver_all cfg env n todo p = (r, p') -> dr_failed (ps_report p') = dr_failed (ps_report p).
Proof.
  intros Ht Hl Hd Hrec Hso Hready Hf Hb Ha. revert n p Ht Hl Hd Hready.
  induction todo as [|s todo IH]; intros n p Ht Hl Hd Hready; [by intros [= _ <-]|].
  apply Forall_cons in Hrec as [Hs Hrec]. cbn [deliver_all].
  assert (forall attempts, dr_failed (ps_report (send_one cfg env n s attempts p).2) = dr_failed (ps_report p)) as Hsend.
  { intros attempts. unfold send_one. pose proof (deliver_segment_answers _ _ _ _ Ht Hs Hb Ha) as Hok.
    destruct (deliver_segment _ _ _) as [rd w1]. cbn in Hok. subst rd. cbv zeta. by destruct (mark_delivered _ _ _ _) as [[] ?]. }
  assert (dr_failed (ps_report (deliver_one cfg env n s p).2) = dr_failed (ps_report p)) as Hone.
  { unfold deliver_one. case_bool_decide; [done|]. by destruct (ledger_status _ _) as [[]|]. }
  destruct (deliver_one cfg env n s p) as [r1 p1] eqn:Hd1. cbn [snd] in Hone.
  apply deliver_one_ok in Hd1 as (Hp1&_&Hland); [|done..|by eapply ready_head].
  destruct r1 as [[]|e]; [|by intros [= <- <-]]. destruct Hp1. rewrite <-Hone.
  pose proof (ready_tail _ _ _ _ _ _ Hready Hs po_grows0 po_blocked0 (Hland eq_refl)) as Hready'.
  apply StronglySorted_inv in Hso as [Hso _]. by apply IH; auto.
Qed.

(** Delivery makes progress: a pass during which the service answers and
    the ledger can be written delivers every segment in the outbox. *)
Theorem answered_pass_delivers_all w0 k w env segments :
  fresh (observe w0) -> rtc sink_step (sink_new, w0) (k, w) -> load_outbox k = Ok segments ->
  (forall i, pe_fate env i = Wrote) -> book_sendable -> answers ->
  exists report k' w', attempt_delivery cfg env k w = (Ok report, k', w') /\ dr_failed report = 0%N /\
    forall run, exists n,
      List.filter (in_run run.1 run.2) (tb_rows (observe w')) = take n (book run) ≫= segment_rows /\
      forall s, s ∈ segments -> run_of s = run -> s ∈ take n (book run).
Proof.
  intros Hf Hr Hload Hw Hb Ha. destruct (sink_reachable _ _ _ Hf Hr) as [segs Hok].
  rewrite (load_outbox_is _ _ (so_outbox _ _ _ Hok)) in Hload. injection Hload as ->.
  destruct (attempt_delivery cfg env k w) as [[r k'] w'] eqn:Hd.
  destruct (attempt_delivery_ok _ _ _ _ _ _ _ Hok Hd) as (_&Ht&_&_&_&Hclean).
  unfold attempt_delivery in Hd. rewrite (load_outbox_is _ _ (so_outbox _ _ _ Hok)) in Hd.
  destruct (deliver_all _ _ _ _ _) as [ra p] eqn:Hall. injection Hd as <- <- <-.
  assert (ra = Ok tt) as ->.
  { pose proof (deliver_all_quiet env 0 (merge_sort sequence_le segments)) as Hq. eapply Hq in Hw. by rewrite Hall in Hw. }
  assert (dr_failed (ps_report p) = 0%N) as Hz.
  { destruct Hok as [Ho Hn Hl Hd' Ht'].
    assert (forall s, s ∈ merge_sort sequence_le segments <-> s ∈ segments) as Hin
      by (intros s; by rewrite merge_sort_Permutation).
    apply deliver_all_answers in Hall; [done|done|done|done| | | |done..].
    - apply Forall_forall. intros s Hs%Hin. by apply Hn.
    - apply StronglySorted_merge_sort; apply _.
    - intros s Hs%Hin _ j s' Hj Hs'. right. apply Hin. by eapply (proj2 (Hn _ Hs)). }
  eexists _, _, _. split; [done|]. split; [done|]. intros run. destruct (to_runs _ Ht run) as [n []]. exists n.
  split; [done|]. intros s Hs <-. destruct (so_next _ _ _ Hok s Hs) as [Hrec _].
  apply elem_of_take. exists (N.to_nat (cl_segment_seq s)). split; [exact Hrec|].
  apply (ro_accepted0 _ _ Hrec). by eapply Hclean.
Qed.

End exactly_once.
