(* ===== verification/Pipeline.v ===== *)
(** * The evidence pipeline (crates/mecmcp-audit/src/service.rs)

    Starting, running and stopping: which head a new run continues from, what
    is spooled at shutdown, and how recorder, spool and delivery fit together.
    The recorder hands the sink its segments in the order delivery needs, and
    the chain goes on across restarts. *)

From S2P Require Import Prelude Externals Json Text Canonical Evidence Recorder Spool Delivery DeliveryFacts.
From Stdlib Require Import Ascii.

Open Scope list_scope.

Section service.
Context `{Externals} `{JsonStrings} `{KeyBytes} `{SinkText} `{Warehouse}.
Context `{LineCodec LedgerEntry} `{LineCodec ClosedSegment}.

Record EvidenceConfig := {
  ec_server_id : string;
  ec_run_id : string;
  ec_records_per_segment : nat;
  ec_sink : SsdfSinkConfig;
  ec_signing_key_path : option KeyFile;
}.

(** [EvidenceService::from_sink]: replay first, then read the two heads, then
    the key. *)
Definition from_sink (config : EvidenceConfig) (env : PassEnv) (k : SinkFiles) (w : Remote) :
  result (RecorderConfig * option SigningKey) SsdfSinkError * SinkFiles * Remote :=
  match attempt_delivery (ec_sink config) env k w with
  | (Err e, k, w) => (Err e, k, w)
  | (Ok _, k, w) =>
      let '(remote, w) := remote_head (ec_sink config) (ec_server_id config) w in
      (let? remote := remote in
       let? local := produced_head (ec_server_id config) k in
       let rc := {| rc_server_id := ec_server_id config; rc_run_id := ec_run_id config;
                    rc_resume_from := resume_head remote local;
                    rc_records_per_segment := ec_records_per_segment config |} in
       match ec_signing_key_path config with
       | Some file => let? key := map_err SigningFailed (load_signing_key file) in Ok (rc, Some key)
       | None => Ok (rc, None)
       end, k, w)
  end.

(** One segment at shutdown: only the first error that is not the ledger's is
    kept. *)
Definition attempt (fates : AppendFate * AppendFate) (s : ClosedSegment)
  (x : option SsdfSinkError * SinkFiles) : option SsdfSinkError * SinkFiles :=
  let '(first_error, k) := x in
  let '(r, k) := spool fates.1 fates.2 s k in
  match r with
  | Ok _ | Err (LedgerFailed _) => (first_error, k)
  | Err e => (Some (default e first_error), k)
  end.

Fixpoint attempt_each (fates : nat -> AppendFate * AppendFate) (i : nat) (segments : list ClosedSegment)
  (x : option SsdfSinkError * SinkFiles) : option SsdfSinkError * SinkFiles :=
  match segments with
  | [] => x
  | s :: segments => attempt_each fates (S i) segments (attempt (fates i) s x)
  end.

Definition spool_everything (rc : RecorderConfig) (key : option SigningKey)
  (fates : nat -> AppendFate * AppendFate) (st : RecorderState) (k : SinkFiles) :
  result unit SsdfSinkError * RecorderState * SinkFiles :=
  let '(closed, st) := take_closed st in
  let x := attempt_each fates 0 closed (None, k) in
  let '(last_, st) := close_current rc key st in
  let '(first_error, k) := match last_ with
                           | Some s => attempt (fates (length closed)) s x
                           | None => x
                           end in
  (match first_error with Some e => Err e | None => Ok tt end, st, k).

(** [shutdown], once the drain has stopped: the delivery is a best effort. *)
Definition shutdown (config : EvidenceConfig) (rc : RecorderConfig) (key : option SigningKey)
  (fates : nat -> AppendFate * AppendFate) (env : PassEnv) (st : RecorderState) (k : SinkFiles) (w : Remote) :
  result unit SsdfSinkError * RecorderState * SinkFiles * Remote :=
  let '(outcome, st, k) := spool_everything rc key fates st k in
  let '(_, k, w) := attempt_delivery (ec_sink config) env k w in
  (outcome, st, k, w).

End service.

(** ** Shutdown spools everything that can be spooled *)

Section at_shutdown.
Context `{Externals} `{JsonStrings} `{Signing}.
Context `{CE : LineCodecLaws LedgerEntry} `{CS : LineCodecLaws ClosedSegment}.

(** The segment reaches the outbox. *)
Definition lands (fate : AppendFate) : bool := match fate with Short _ _ => false | _ => true end.

Definition refused (fate : AppendFate) : bool := match fate with Wrote => false | _ => true end.

Fixpoint kept (fates : nat -> AppendFate * AppendFate) (i : nat) (segments : list ClosedSegment) :
  list ClosedSegment :=
  match segments with
  | [] => []
  | s :: segments => (if lands (fates i).1 then [s] else []) ++ kept fates (S i) segments
  end.

Lemma attempt_keeps fates s before e k e' k' :
  outbox_is before k -> whole fates.1 -> attempt fates s (e, k) = (e', k') ->
  outbox_is (before ++ (if lands fates.1 then [s] else [])) k' /\
  (e' = None <-> e = None /\ refused fates.1 = false).
Proof.
  unfold attempt, outbox_is. intros Hk Hw. destruct fates as [fate lf]. cbn [fst snd] in *. unfold spool.
  destruct (print_parse s) as (line&Hp&_). rewrite Hp. unfold append_line. rewrite <-(line_of_print _ _ Hp), Hk.
  destruct fate as [|n err|err].
  - destruct (mark_pending _ _ _) as [[u|le] l]; intros [= <- <-]; cbn; rewrite file_of_snoc; by intuition.
  - cbn in Hw. subst n. intros [= <- <-]. cbn. rewrite !app_nil_r. split; [done|]. split; [done|]. by intros [].
  - intros [= <- <-]. cbn. rewrite file_of_snoc. split; [done|]. split; [done|]. by intros [].
Qed.

Lemma attempt_each_keeps fates i segments before e k e' k' :
  outbox_is before k -> (forall j, whole (fates j).1) -> attempt_each fates i segments (e, k) = (e', k') ->
  outbox_is (before ++ kept fates i segments) k' /\
  (e' = None <-> e = None /\ forall j, i <= j < i + length segments -> refused (fates j).1 = false).
Proof.
  intros Hk Hw. revert i before e k Hk. induction segments as [|s segments IH]; intros i before e k Hk.
  { intros [= <- <-]. cbn. rewrite app_nil_r. split; [done|]. split; [|by intros []]. intros ->. split; [done|lia]. }
  cbn [attempt_each kept length]. destruct (attempt (fates i) s (e, k)) as [e1 k1] eqn:Ha.
  apply (attempt_keeps _ _ before) in Ha as [Hk1 He1]; [|done|done]. intros Hr.
  apply (IH _ _ _ _ Hk1) in Hr as [Hk2 He2]. rewrite app_assoc. split; [done|]. rewrite He2, He1. split.
  - intros [[-> Hi] Hj]. split; [done|]. intros j Hj'. destruct (decide (j = i)) as [->|]; [done|]. apply Hj. lia.
  - intros [-> Hj]. split_and!; [done|apply Hj; lia|]. intros j Hj'. apply Hj. lia.
Qed.

(** Shutdown loses nothing it can save: every segment the recorder still
    holds, the open one included, is written in order, also after another was
    refused, and success is reported exactly when none was refused. *)
Theorem shutdown_spools_everything rc key fates st k before r st' k' :
  outbox_is before k -> (forall j, whole (fates j).1) ->
  spool_everything rc key fates st k = (r, st', k') ->
  let held := rs_closed st ++ option_list (roll rc key (set_closed [] st)).1 in
  outbox_is (before ++ kept fates 0 held) k' /\ rs_closed st' = [] /\ sg_records (rs_current st') = [] /\
  (r = Ok tt <-> forall j, j < length held -> refused (fates j).1 = false).
Proof.
  intros Hk Hw. unfold spool_everything, take_closed, close_current.
  destruct (attempt_each fates 0 (rs_closed st) (None, k)) as [e1 k1] eqn:Hx1.
  destruct (roll rc key (set_closed [] st)) as [o st1] eqn:Hroll. intros Hr. cbv zeta. cbn [fst].
  assert (rs_closed st1 = [] /\ sg_records (rs_current st1) = []) as [Hc Hs].
  { unfold roll in Hroll. cbn in Hroll. destruct (sg_records (rs_current st)) eqn:E; by injection Hroll as <- <-. }
  apply (attempt_each_keeps _ _ _ before) in Hx1 as [Hk1 He1]; [|done|done]. cbn [Nat.add] in He1.
  assert (forall segs s i, kept fates i (segs ++ [s]) =
            kept fates i segs ++ (if lands (fates (i + length segs)%nat).1 then [s] else [])) as Hkept.
  { clear. intros segs s. induction segs as [|x segs IH]; intros i; cbn; [by rewrite Nat.add_0_r, app_nil_r|].
    by rewrite IH, app_assoc, Nat.add_succ_r. }
  destruct o as [s|]; cbn [option_list option_rect].
  - destruct (attempt _ s (e1, k1)) as [e2 k2] eqn:Hx2. injection Hr as <- <- <-.
    apply (attempt_keeps _ _ (before ++ kept fates 0 (rs_closed st))) in Hx2 as [Hk2 He2]; [|done|done].
    rewrite Hkept, app_assoc. cbn [Nat.add]. split_and!; [done|done|done|]. rewrite length_app. cbn.
    transitivity (e2 = None); [by destruct e2|]. rewrite He2, He1. split.
    + intros [[_ Hj] Hl] j Hlt. destruct (decide (j = length (rs_closed st))) as [->|]; [done|]. apply Hj. lia.
    + intros Hj. split_and!; [done|intros j Hlt; apply Hj; lia|apply Hj; lia].
  - injection Hr as <- <- <-. rewrite app_nil_r. split_and!; [done|done|done|].
    transitivity (e1 = None); [by destruct e1|]. rewrite He1. split.
    + intros [_ Hj] j Hlt. apply Hj. lia.
    + intros Hj. split; [done|]. intros j Hlt. apply Hj. lia.
Qed.

End at_shutdown.

(** ** The recorder spools in the order delivery needs *)

Lemma squash_sub l : squash l ⊆ l.
Proof.
  induction l as [|s [|s' l] IH]; [done..|]. rewrite squash_cons.
  destruct (_ =? _)%N; [set_solver|]. intros x. rewrite !elem_of_cons. set_solver.
Qed.

Section feeding.
Context `{Externals} `{JL : JsonStringsLaws} `{Signing}.
Variable rc : RecorderConfig.
Variable key : option SigningKey.
Implicit Types m : Moment.

(** The one run this recorder makes. *)
Definition book_of (produced : list ClosedSegment) : Book :=
  fun run => if decide (run = (rc_server_id rc, rc_run_id rc)) then produced else [].

(** Every segment of the outbox was written after those before it. *)
Definition in_order (produced outbox : list ClosedSegment) : Prop :=
  forall l s l', outbox = l ++ s :: l' -> next_of (book_of produced) l s.

Lemma sealed_elem run server start n ps head p :
  sealed run server start n ps head -> p ∈ ps ->
  cl_run_id p = run /\ cl_server_id p = server /\ cl_records p <> [] /\
  Forall (enveloped run server (cl_segment_seq p)) (cl_records p).
Proof.
  revert start n. induction ps as [|q ps IH]; intros start n; [by intros _ ?%not_elem_of_nil|].
  cbn [sealed]. intros (_&<-&?&?&?&_&?&Hs) [->|Hin]%elem_of_cons; [done|]. by eapply IH.
Qed.

Lemma recorded_next start ps head written s rest l :
  sealed (rc_run_id rc) (rc_server_id rc) start 0 ps head -> ps = written ++ s :: rest -> written ⊆ l ->
  next_of (book_of ps) l s.
Proof.
  intros Hs Hps Hsub. assert (ps !! length written = Some s) as Hi.
  { rewrite Hps, lookup_app_r by done. by rewrite Nat.sub_diag. }
  pose proof (sealed_seq _ _ _ _ _ _ _ _ Hs Hi) as Hseq.
  destruct (sealed_elem _ _ _ _ _ _ s Hs) as (Hr&Hv&_); [by eapply list_elem_of_lookup_2|].
  assert (book_of ps (run_of s) = ps) as Hb by (unfold book_of, run_of; by rewrite Hr, Hv, decide_True).
  split.
  - unfold recorded. rewrite Hb, Hseq. by replace (N.to_nat (0 + N.of_nat (length written))) with (length written) by lia.
  - intros j s' Hj. rewrite Hb, Hps, lookup_app_l by lia. intros Hs'. apply Hsub. by eapply list_elem_of_lookup_2.
Qed.

Lemma next_of_produced produced more l s :
  next_of (book_of produced) l s -> next_of (book_of (produced ++ more)) l s.
Proof.
  unfold next_of, recorded, book_of. case_decide; [|by intros [? _]; rewrite lookup_nil in *].
  intros [Hr Hp]. split; [by apply lookup_app_l_Some|]. intros j s' Hj Hs'. apply (Hp j s' Hj).
  rewrite lookup_app_l in Hs'; [done|]. apply lookup_lt_Some in Hr. lia.
Qed.

(** A step leaves the outbox, or writes the oldest segment that is owed. *)
Lemma outbox_step m m' :
  recorder_step rc key m m' ->
  mo_outbox m' = mo_outbox m \/
  exists s rest, unwritten m = s :: rest /\ mo_outbox m' = mo_outbox m ++ [s].
Proof.
  unfold unwritten. intros [[]|[[]|[[]|[]]]]; cbn; try (by left).
  - right. rewrite H2. cbn. by eexists _, _.
  - rewrite H2. destruct landed; [right|by left]. cbn. by eexists _, _.
Qed.

Lemma recorder_in_order m :
  rtc (recorder_step rc key) (recorder_start rc) m ->
  exists ps, recorder_inv rc m ps /\ in_order ps (mo_outbox m).
Proof.
  intros Hr. eapply (rtc_ind_r (fun m => exists ps, recorder_inv rc m ps /\ in_order ps (mo_outbox m))
                       (recorder_start rc)); [| |exact Hr].
  - exists []. split; [|by intros [] ? ?]. split; [apply continues_new|]. exists []. split; [done|]. by left.
  - clear -JL. intros m1 m2 _ Hs (ps&Hinv&Hord). pose proof Hinv as [Hc (written&Hps&Hcov)].
    destruct (recorder_inv_step rc key _ _ _ Hinv Hs) as (ps'&[new ->]&Hinv'). exists (ps ++ new). split; [done|].
    intros l s l' El. apply next_of_produced. apply outbox_step in Hs as [Eo|(s0&rest&Eu&Eo)]; [by eapply Hord; rewrite <-Eo|].
    rewrite Eo in El. destruct l' as [|x l' _] using rev_ind.
    + apply app_inj_tail in El as [<- <-]. rewrite Eu in Hps.
      eapply recorded_next; [apply Hc|exact Hps|]. etrans; [|apply squash_sub].
      destruct Hcov as [->|? ? _ ->]; set_solver.
    + rewrite app_comm_cons, app_assoc in El. apply app_inj_tail in El as [El _]. by eapply Hord.
Qed.

Context `{AT : AuditTable} `{ST : SinkText}.
Context `{CE : LineCodecLaws LedgerEntry} `{CS : LineCodecLaws ClosedSegment}.
Variable cfg : SsdfSinkConfig.


End feeding.

(** ** One chain across restarts *)

(** Repeated writes of one segment, collapsed; the runs may differ. *)
Fixpoint distinct (l : list ClosedSegment) : list ClosedSegment :=
  match l with
  | s :: (s' :: _) as l => if decide (segment_id s = segment_id s') then distinct l else s :: distinct l
  | l => l
  end.

Lemma distinct_cons s s' l :
  distinct (s :: s' :: l) = if decide (segment_id s = segment_id s') then distinct (s' :: l) else s :: distinct (s' :: l).
Proof. done. Qed.

Lemma distinct_app a b :
  (forall x y, x ∈ a -> y ∈ b -> segment_id x <> segment_id y) -> distinct (a ++ b) = distinct a ++ distinct b.
Proof.
  induction a as [|s [|s' a] IH]; intros Hd; [done| |].
  - destruct b as [|y b]; [done|]. cbn [app]. rewrite distinct_cons, decide_False; [done|].
    apply Hd; apply list_elem_of_here.
  - cbn [app] in IH |- *. rewrite !distinct_cons, IH by (intros; apply Hd; set_solver). by case_decide.
Qed.

Lemma distinct_squash run l : Forall (fun s => run_of s = run) l -> distinct l = squash l.
Proof.
  induction 1 as [|s l Hs Hl IH]; [done|]. destruct Hl as [|s' l Hs' Hl]; [done|].
  rewrite distinct_cons, squash_cons, IH. unfold run_of in Hs, Hs'. rewrite <-Hs in Hs'. injection Hs' as E1 E2.
  destruct (N.eqb_spec (cl_segment_seq s) (cl_segment_seq s')) as [E|E].
  - rewrite decide_True; [done|]. unfold segment_id. congruence.
  - rewrite decide_False; [done|]. unfold segment_id. by intros [= _ _ ?].
Qed.

Section restarts.
Context `{Externals} `{JL : JsonStringsLaws} `{Signing}.
Variable server_id : string.

(** The outbox over the runs of one writer: each starts where [from_sink]
    says, under a run identifier of its own, and ends wherever it ends. *)
Inductive history : list ClosedSegment -> Prop :=
| history_new : history []
| history_run outbox rc key remote m :
    history outbox -> rc_server_id rc = server_id ->
    Forall (fun s => cl_run_id s <> rc_run_id rc) outbox ->
    rc_resume_from rc = resume_head remote (newest_head server_id outbox) ->
    rtc (recorder_step rc key) (recorder_start rc) m -> history (outbox ++ mo_outbox m).

Lemma newest_head_last l :
  Forall (fun s => cl_server_id s = server_id) l -> newest_head server_id l = cl_head_hash <$> last l.
Proof.
  intros Hl. unfold newest_head. f_equal. induction Hl as [|s l Hs Hl IH]; [done|].
  cbn. rewrite Hs, String.eqb_refl. destruct l as [|s' l]; [done|]. rewrite last_cons_cons, <-IH.
  apply Forall_cons in Hl as [Hs' _]. cbn. by rewrite Hs', String.eqb_refl.
Qed.

Lemma sealed_last run server start n ps s head :
  sealed run server start n ps head -> last ps = Some s -> cl_head_hash s = head.
Proof.
  intros Hs Hl. destruct ps as [|x ps _] using rev_ind; [done|]. rewrite last_snoc in Hl. injection Hl as ->.
  apply sealed_app in Hs as (mid&_&Hs). cbn [sealed] in Hs. by destruct Hs as (_&_&_&_&_&_&_&->).
Qed.

(** What one run leaves in the outbox is a chain from where it started. *)
Lemma run_outbox rc key m :
  rtc (recorder_step rc key) (recorder_start rc) m ->
  Forall (fun s => run_of s = (rc_server_id rc, rc_run_id rc)) (mo_outbox m) /\
  linked (chain_start rc) (distinct (mo_outbox m) ≫= cl_records)
    (default (chain_start rc) (cl_head_hash <$> last (mo_outbox m))).
Proof.
  intros Hr. destruct (recorder_in_order rc key m Hr) as (ps&[Hc (written&Hps&Hcov)]&Hord).
  pose proof (co_sealed _ _ _ Hc) as Hsealed.
  assert (Forall (fun s => run_of s = (rc_server_id rc, rc_run_id rc)) (mo_outbox m)) as Hrun.
  { apply Forall_forall. intros s Hs. apply list_elem_of_split in Hs as (l&l'&E).
    destruct (Hord _ _ _ E) as [Hrec _]. unfold recorded, book_of in Hrec. by case_decide. }
  split; [done|]. rewrite (distinct_squash _ _ Hrun).
  assert (exists rest, ps = squash (mo_outbox m) ++ rest) as [rest E].
  { destruct Hcov as [->|s rest E ->]; [by exists (unwritten m)|]. exists rest. by rewrite Hps, E, <-app_assoc. }
  rewrite E in Hsealed. apply sealed_app in Hsealed as (mid&Hm&_).
  replace (default _ _) with mid; [by eapply sealed_linked|].
  rewrite <-last_squash. destruct (last (squash (mo_outbox m))) as [s|] eqn:El; cbn; [by erewrite sealed_last|].
  apply last_None in El. by rewrite El in Hm.
Qed.

(** Restarts do not break the chain: over any number of runs, each cut off
    anywhere, the records in the outbox link up as one chain, and the head the
    next run will continue from is its end. *)
Theorem chain_survives_restarts outbox :
  history outbox ->
  exists start, linked start (distinct outbox ≫= cl_records) (default start (newest_head server_id outbox)).
Proof.
  intros Hh. enough (Forall (fun s => cl_server_id s = server_id) outbox /\
    exists start, linked start (distinct outbox ≫= cl_records) (default start (cl_head_hash <$> last outbox)))
    as [Hs Hl] by (by rewrite newest_head_last).
  induction Hh as [|outbox rc key remote m _ [Hs [start Hl]] Hsrv Hruns Hres Hr]; [split; [constructor|by exists ""]|].
  destruct (run_outbox rc key m Hr) as [Hrun Hlink]. split.
  { apply Forall_app. split; [done|]. eapply Forall_impl; [exact Hrun|]. intros s [= -> _]. done. }
  assert (distinct (outbox ++ mo_outbox m) = distinct outbox ++ distinct (mo_outbox m)) as ->.
  { apply distinct_app. rewrite Forall_forall in Hruns, Hrun. intros x y Hx Hy E. apply (Hruns x Hx).
    pose proof (Hrun y Hy) as [= _ <-]. unfold segment_id in E. by injection E. }
  rewrite bind_app, last_app. rewrite newest_head_last in Hres by done. unfold chain_start in *. rewrite Hres in Hlink.
  destruct (last outbox) as [s|] eqn:El.
  - exists start. cbn in Hl, Hlink. apply linked_app. exists (cl_head_hash s). split; [done|].
    by destruct (last (mo_outbox m)).
  - apply last_None in El. subst outbox. exists (default SSDF_CHAIN_START remote). cbn in Hlink |- *.
    destruct (last (mo_outbox m)); exact Hlink.
Qed.

End restarts.

(** [from_sink] gives the next run of a history the head it needs. *)
Lemma from_sink_resumes `{Externals} `{JsonStrings} `{KeyBytes} `{SinkText} `{Warehouse} `{LineCodec LedgerEntry}
  `{LineCodec ClosedSegment} config env k w rc key k' w' :
  from_sink config env k w = (Ok (rc, key), k', w') ->
  rc_server_id rc = ec_server_id config /\ rc_run_id rc = ec_run_id config /\
  (is_Some key <-> is_Some (ec_signing_key_path config)) /\
  exists remote segments, load_outbox k' = Ok segments /\
    rc_resume_from rc = resume_head remote (newest_head (ec_server_id config) segments).
Proof.
  unfold from_sink. destruct (attempt_delivery _ _ _ _) as [[[report|e] k1] w1]; [|done].
  destruct (remote_head _ _ _) as [[remote|e] w2]; cbn; [|done]. unfold produced_head.
  destruct (load_outbox k1) as [segments|e] eqn:El; cbn; [|done].
  destruct (ec_signing_key_path config) as [file|]; [destruct (load_signing_key file)|]; cbn; [|done|];
    intros [= <- <- <- <-]; (split_and!; [done|done|by split; eauto|by exists remote, segments]).
Qed.
