(* ===== verification/EvidenceWitnesses.v ===== *)
(** * The evidence trail on concrete runs

    A rendering of strings and a signature scheme that satisfy the laws the
    evidence files rely on, a recorder replayed move by move, and the theorems
    of Canonical.v, Evidence.v and Recorder.v applied to it. *)

From S2P Require Import Prelude Externals Json Digest Text Canonical Evidence Recorder.
From Stdlib Require Import Ascii.

Open Scope list_scope.

#[local] Existing Instance toy_externals.
#[local] Existing Instance toy_externals_laws.

(** ** Strings and signatures *)

Definition toy_strings : JsonStrings := {| quoted s := dquote +:+ Toy.enc_str s "" |}.
#[local] Existing Instance toy_strings.

Lemma toy_enc_str_app s k r : Toy.enc_str s k +:+ r = Toy.enc_str s (k +:+ r).
Proof. induction s as [|c s IH]; simpl; [done|]. by rewrite <-IH. Qed.

#[local] Instance toy_strings_laws : JsonStringsLaws toy_strings.
Proof.
  split; [by intros s; eexists|]. intros s s' r r' E. unfold quoted, toy_strings in E.
  rewrite !str_app_assoc, !toy_enc_str_app in E. by apply str_app_inj_l, toy_enc_str_inj in E.
Qed.

(** A key is one byte, repeated. *)
Definition toy_signature (k : ascii) (b : bytes) : bytes := Toy.hash (String k b) +:+ Toy.hash b.

Definition toy_signing : Signing := {|
  SigningKey := ascii; VerifyingKey := ascii; verifying_key k := k;
  ed25519_sign := toy_signature; ed25519_verify k b s := String.eqb s (toy_signature k b);
  base64_encode := bytes_hex; base64_decode s := ok_or (hex_decode s) "invalid text" |}.
#[local] Existing Instance toy_signing.

#[local] Instance toy_signing_laws : SigningLaws toy_signing.
Proof.
  split; [|by intros k b; apply String.eqb_refl|intros b; cbn; by rewrite hex_decode_hex]. intros k b. cbn.
  unfold toy_signature. rewrite str_length_app.
  assert (forall b, String.length (Toy.hash b) = 32) as E by exact (sha256_len (H := toy_externals)).
  by rewrite !E.
Qed.

Definition toy_key : ascii := "k".

Definition key_text (k : ascii) : bytes := String.string_of_list_ascii (replicate 32 k).
Definition text_key (b : bytes) : ascii := match b with String c _ => c | EmptyString => "0" end.

Definition toy_key_bytes : KeyBytes := {|
  signing_key_of_bytes := text_key : bytes -> SigningKey; signing_key_bytes := key_text;
  verifying_key_of_bytes b := Ok (text_key b); verifying_key_bytes := key_text |}.
#[local] Existing Instance toy_key_bytes.

#[local] Instance toy_key_bytes_laws : KeyBytesLaws toy_key_bytes.
Proof.
  split; try reflexivity. intros b. cbn. induction b as [|c b IH]; [reflexivity|]. cbn [bytes_hex str_forall].
  rewrite IH, andb_true_r. assert (forall n, (n < 16)%N -> visible (hex_digit n) = true) as Hn.
  { intros n Hn. do 16 (destruct n as [|n] using N.peano_ind; [reflexivity|clear IHn; try lia]). }
  by rewrite !Hn by (apply N.Div0.div_lt_upper_bound || apply N.mod_lt; pose proof (N_ascii_bounded c); lia).
Qed.

(** ** Replaying a recorder *)

Inductive Act :=
| Append (r : EvidenceRecord)
| Remember (id : string) (c : ChangeContext)
| Forget (id : string)
| Claim
| Write
| Finish
| Refuse (landed : bool).

#[local] Instance blank_envelope_dec r : Decision (blank_envelope r).
Proof. unfold blank_envelope. apply _. Defined.

Section replay.
Variable cfg : RecorderConfig.
Variable signing_key : option SigningKey.

Definition in_state (st : RecorderState) (m : Moment) : Moment :=
  {| mo_state := st; mo_outbox := mo_outbox m; mo_flush := mo_flush m |}.

Definition act (a : Act) (m : Moment) : option Moment :=
  match a, mo_flush m with
  | Append r, _ => if decide (blank_envelope r)
                   then Some (in_state (recorder_append cfg signing_key r (mo_state m)) m) else None
  | Remember id c, _ => Some (in_state (remember id c (mo_state m)) m)
  | Forget id, _ => Some (in_state (forget id (mo_state m)) m)
  | Claim, None =>
      let '(pending, st) := claim cfg signing_key (mo_state m) in
      Some {| mo_state := st; mo_outbox := mo_outbox m; mo_flush := Some ([], pending) |}
  | Write, Some (written, s :: rest) =>
      Some {| mo_state := mo_state m; mo_outbox := mo_outbox m ++ [s];
              mo_flush := Some (written ++ [s], rest) |}
  | Finish, Some (_, []) =>
      Some {| mo_state := mo_state m; mo_outbox := mo_outbox m; mo_flush := None |}
  | Refuse landed, Some (_, s :: rest) =>
      Some {| mo_state := put_back (s :: rest) (mo_state m);
              mo_outbox := if landed then mo_outbox m ++ [s] else mo_outbox m; mo_flush := None |}
  | _, _ => None
  end.

Definition acts (l : list Act) (m : Moment) : option Moment := foldl (fun o a => o ≫= act a) (Some m) l.

Definition quiet (a : Act) : bool :=
  match a with Append _ | Remember _ _ | Forget _ | Write => true | _ => false end.

Lemma act_busy a m m' : quiet a = true -> act a m = Some m' -> busy_step cfg signing_key m m'.
Proof.
  unfold act. intros Hq Ha. destruct a; try discriminate Hq.
  - destruct (decide _); [|done]. injection Ha as <-. by constructor.
  - injection Ha as <-. constructor.
  - injection Ha as <-. constructor.
  - destruct (mo_flush m) as [[w [|s rest]]|] eqn:E; try done. injection Ha as <-. by constructor.
Qed.

Lemma act_step a m m' : act a m = Some m' -> recorder_step cfg signing_key m m'.
Proof.
  intros Ha. destruct (quiet a) eqn:Hq; [left; by eapply act_busy|]. right. unfold act in Ha.
  destruct a; try discriminate Hq; destruct (mo_flush m) as [[w [|s rest]]|] eqn:E; try done.
  - destruct (claim _ _ _) eqn:Ec. injection Ha as <-. left. by constructor.
  - injection Ha as <-. right. left. by econstructor.
  - injection Ha as <-. right. right. by econstructor.
Qed.

Lemma acts_none l : foldl (fun o a => o ≫= act a) None l = None.
Proof. by induction l. Qed.

Lemma acts_rtc (R : Moment -> Moment -> Prop) l m m' :
  (forall a m m', a ∈ l -> act a m = Some m' -> R m m') -> acts l m = Some m' -> rtc R m m'.
Proof.
  unfold acts. revert m. induction l as [|a l IH]; cbn; intros m Hl Ha; [by injection Ha as <-|].
  destruct (act a m) as [m1|] eqn:E; [|by rewrite acts_none in Ha].
  eapply rtc_l; [eapply Hl; [|exact E]; set_solver|]. apply IH; [|done]. intros. eapply Hl; [|done]. set_solver.
Qed.

Lemma acts_steps l m m' : acts l m = Some m' -> rtc (recorder_step cfg signing_key) m m'.
Proof. apply acts_rtc. intros ? ? ? _. apply act_step. Qed.

Lemma acts_busy l m m' :
  forallb quiet l = true -> acts l m = Some m' -> rtc (busy_step cfg signing_key) m m'.
Proof.
  intros Hq. apply acts_rtc. intros a ? ? Ha. apply act_busy. rewrite forallb_forall in Hq.
  apply Hq. by apply list_elem_of_In.
Qed.

End replay.

(** ** The canonical form *)

Definition ordered : json := JObject [("a", JNumber "1"); ("b", JArray [JString "x"; JNull])].
Definition reordered : json := JObject [("b", JArray [JString "x"; JNull]); ("a", JNumber "1")].

Lemma canonical_json_faithful_witness :
  canonical_json reordered = canonical_json ordered /\
  (is_ok (canonical_json ordered) = true <-> nesting ordered <= MAX_CANONICAL_DEPTH) /\
  forall w s, value_ok w = true -> canonical_json ordered = Ok s ->
    (canonical_json w = Ok s <-> sorted_value ordered = sorted_value w).
Proof.
  split; [vm_compute; reflexivity|]. apply (canonical_json_faithful ordered). vm_compute. reflexivity.
Defined.

(** ** The history of a change *)

Definition toy_recorder : RecorderConfig := {|
  rc_server_id := "srv-1"; rc_run_id := "run-1"; rc_resume_from := None;
  rc_records_per_segment := 2 |}.

Definition planned : EvidenceRecord := Proposal (blank "req-1" "cs-1" "fw1" "alice" "d1" "t1" None).
Definition agreed : EvidenceRecord :=
  Approval (blank "req-2" "cs-1" "fw1" "bob" "d1" "t2" None) "bob" "approved".

(** The two records of a segment, with the hashes that link them. *)
Definition segment_of_two : ChainSegment :=
  (chain_append (chain_append (chain_segment_new "run-1" "srv-1" 0 "") planned).2 agreed).2.

Lemma head_names_history_witness :
  length (sg_records segment_of_two) = 2 /\
  (normal <$> sg_records segment_of_two = normal <$> sg_records segment_of_two \/
   exists r r' a b, r ∈ sg_records segment_of_two /\ r' ∈ sg_records segment_of_two /\
     canonical_json (record_value r) = Ok a /\ canonical_json (record_value r') = Ok b /\ collide a b).
Proof.
  split; [vm_compute; reflexivity|].
  assert (linked "" (sg_records segment_of_two) (seg_head segment_of_two)) as Hl.
  { vm_compute. split; [reflexivity|]. eexists. split; [reflexivity|]. split; [reflexivity|].
    eexists. split; reflexivity. }
  assert (Forall (fun r => record_ok r = true) (sg_records segment_of_two)) as Hok.
  { vm_compute. repeat constructor. }
  exact (head_names_history _ _ (seg_head segment_of_two) Hl Hl Hok Hok).
Defined.

(** ** A run of the recorder *)

(** A segment fills, the flush claims it with a record more, the second write
    is refused after it reached the file, and the next flush writes it again. *)
Definition eventful : list Act :=
  [Append planned; Append agreed;
   Append (ApplyIntent (blank "req-3" "cs-1" "fw1" "alice" "d1" "t3" None));
   Claim; Write; Append planned; Refuse true; Claim; Write; Write; Finish; Append agreed].

Definition eventful_end : Moment :=
  default (recorder_start toy_recorder) (acts toy_recorder (Some toy_key) eventful (recorder_start toy_recorder)).

Lemma eventful_run : rtc (recorder_step toy_recorder (Some toy_key)) (recorder_start toy_recorder) eventful_end.
Proof.
  assert (is_Some (acts toy_recorder (Some toy_key) eventful (recorder_start toy_recorder))) as [m Hm].
  { apply (bool_decide_unpack (is_Some _)). vm_compute. exact I. }
  unfold eventful_end. rewrite Hm. by eapply acts_steps.
Qed.


Lemma every_segment_is_signed_witness :
  exists s, s ∈ mo_outbox eventful_end ++ unwritten eventful_end /\ cl_segment_seq s = 0%N /\
    signed_by toy_key s.
Proof.
  assert (exists s, head (mo_outbox eventful_end) = Some s /\ cl_segment_seq s = 0%N) as (s&Hs&Hseq).
  { eexists. split; vm_compute; reflexivity. }
  exists s. assert (s ∈ mo_outbox eventful_end ++ unwritten eventful_end) as Hin.
  { apply elem_of_app. left. destruct (mo_outbox eventful_end) as [|s' l]; [discriminate Hs|].
    injection Hs as ->. apply list_elem_of_here. }
  split; [exact Hin|]. split; [exact Hseq|].
  exact (every_segment_is_signed toy_recorder toy_key eventful_end s eventful_run Hin).
Defined.

(** Another thread appends before the flush and while it writes. *)
Definition intended : Moment :=
  in_state (apply_intent toy_recorder None "t3" "req-3" "cs-1" "fw1" "alice" (recorder_new toy_recorder))
    (recorder_start toy_recorder).

Definition before_claim : Moment := default intended (acts toy_recorder None [Append planned] intended).
Definition claimed : Moment := default intended (act toy_recorder None Claim before_claim).
Definition writing : Moment := default intended (acts toy_recorder None [Append agreed; Write] claimed).
Definition returned : Moment := default intended (act toy_recorder None Finish writing).

Lemma apply_intent_is_durable_witness :
  length (mo_outbox returned) = 1 /\
  ApplyIntent (set_envelope (chain_segment_new "run-1" "srv-1" 0 "") ""
    (blank "req-3" "cs-1" "fw1" "alice" "" "t3" None)) ∈ mo_outbox returned ≫= cl_records.
Proof.
  split; [vm_compute; reflexivity|].
  refine (apply_intent_is_durable toy_recorder None (recorder_start toy_recorder) "t3" "req-3" "cs-1" "fw1" "alice"
            before_claim claimed writing returned _ _ _ _).
  - apply (acts_steps _ _ [Append planned]). vm_compute. reflexivity.
  - unfold claimed, act. vm_compute (mo_flush before_claim).
    destruct (claim toy_recorder None (mo_state before_claim)) eqn:E. by constructor.
  - apply (acts_busy _ _ [Append agreed; Write]); [reflexivity|]. vm_compute. reflexivity.
  - assert (mo_flush writing = Some (from_option fst [] (mo_flush writing), [])) as Hw by (vm_compute; reflexivity).
    unfold returned, act. rewrite Hw. by econstructor.
Defined.
