(* ===== verification/DeliveryWitnesses.v ===== *)
(** * Spool and delivery on concrete runs

    Line codecs, a service and its table that satisfy the laws of Spool.v and
    Delivery.v, a delivery with a lost request, a late insert, a lost answer
    and a crash, and the theorems applied to it.  The last section is what a
    write that is cut short does to files the process goes on using. *)

From stdpp Require Import countable.
From S2P Require Import Prelude Externals Json Text Canonical Evidence Recorder Spool Delivery DeliveryFacts Pipeline EvidenceWitnesses.
From Stdlib Require Import Ascii.

Open Scope list_scope.

#[local] Existing Instance toy_externals.
#[local] Existing Instance toy_externals_laws.
#[local] Existing Instance toy_strings.
#[local] Existing Instance toy_strings_laws.
#[local] Existing Instance toy_signing.
#[local] Existing Instance toy_signing_laws.
#[local] Existing Instance toy_key_bytes.

(** ** Values as trees, trees as digits *)

Abbreviation tree := (gen_tree (N + string)) (only parsing).
Abbreviation text s := (GenLeaf (inr s)) (only parsing).
Abbreviation number n := (GenLeaf (inl n)) (only parsing).

Fixpoint json_tree (j : json) : tree :=
  match j with
  | JNull => GenNode 0 []
  | JBool b => GenNode (if b then 1 else 2) []
  | JNumber r => GenNode 3 [text r]
  | JString s => GenNode 4 [text s]
  | JArray l => GenNode 5 (json_tree <$> l)
  | JObject l => GenNode 6 ((fun kv => GenNode 7 [text kv.1; json_tree kv.2]) <$> l)
  end.

Fixpoint tree_json (t : tree) : json :=
  match t with
  | GenNode 1 _ => JBool true
  | GenNode 2 _ => JBool false
  | GenNode 3 [text r] => JNumber r
  | GenNode 4 [text s] => JString s
  | GenNode 5 l => JArray (tree_json <$> l)
  | GenNode 6 l => JObject ((fun t => match t with
                                      | GenNode 7 [text k; v] => (k, tree_json v)
                                      | _ => ("", JNull)
                                      end) <$> l)
  | _ => JNull
  end.

Lemma tree_json_tree j : tree_json (json_tree j) = j.
Proof.
  induction j as [| [] | | |l IH|l IH] using json_ind_full; try done.
  - cbn. f_equal. induction IH as [|x l Hx _ IH]; [done|]. cbn. rewrite Hx. by f_equal.
  - cbn. f_equal. induction IH as [|[k v] l Hx _ IH]; [done|]. cbn in Hx |- *. rewrite Hx. by f_equal.
Qed.

Definition option_tree {A} (f : A -> tree) (o : option A) : tree :=
  match o with None => GenNode 0 [] | Some a => GenNode 1 [f a] end.

Definition tree_option {A} (f : tree -> A) (t : tree) : option A :=
  match t with GenNode 1 [t] => Some (f t) | _ => None end.

Definition tree_text (t : tree) : string := match t with text s => s | _ => "" end.

Lemma tree_option_tree {A} (f : A -> tree) g o :
  (forall a, g (f a) = a) -> tree_option g (option_tree f o) = o.
Proof. intros Hf. destruct o; cbn; [by rewrite Hf|done]. Qed.

Definition facts_tree (f : Facts) : tree := GenNode 0
  [text (ev_request_id f); text (ev_changeset_id f); text (ev_device_id f); text (ev_principal f);
   text (ev_diff_hash f); text (ev_timestamp f); text (ev_run_id f); text (ev_server_id f);
   number (ev_segment_seq f); text (ev_prev_hash f); option_tree json_tree (ev_metadata f)].

Definition tree_facts (t : tree) : Facts :=
  match t with
  | GenNode 0 [text a; text b; text c; text d; text e; text f; text g; text h; number n; text i; m] =>
      {| ev_request_id := a; ev_changeset_id := b; ev_device_id := c; ev_principal := d; ev_diff_hash := e;
         ev_timestamp := f; ev_run_id := g; ev_server_id := h; ev_segment_seq := n; ev_prev_hash := i;
         ev_metadata := tree_option tree_json m |}
  | _ => blank "" "" "" "" "" "" None
  end.

Lemma tree_facts_tree f : tree_facts (facts_tree f) = f.
Proof. destruct f. cbn. by rewrite tree_option_tree by apply tree_json_tree. Qed.

Definition record_tree (r : EvidenceRecord) : tree :=
  match r with
  | Proposal f => GenNode 0 [facts_tree f]
  | Approval f a d => GenNode 1 [facts_tree f; text a; text d]
  | ApplyIntent f => GenNode 2 [facts_tree f]
  | ResultReceipt f o e => GenNode 3 [facts_tree f; text o; option_tree (fun e => text e) e]
  end.

Definition tree_record (t : tree) : EvidenceRecord :=
  match t with
  | GenNode 1 [f; text a; text d] => Approval (tree_facts f) a d
  | GenNode 2 [f] => ApplyIntent (tree_facts f)
  | GenNode 3 [f; text o; e] => ResultReceipt (tree_facts f) o (tree_option tree_text e)
  | GenNode _ (f :: _) => Proposal (tree_facts f)
  | _ => Proposal (tree_facts (text ""))
  end.

Lemma tree_record_tree r : tree_record (record_tree r) = r.
Proof. destruct r; cbn [tree_record record_tree]; rewrite tree_facts_tree; try done. by rewrite tree_option_tree. Qed.

Definition segment_tree (s : ClosedSegment) : tree := GenNode 0
  [text (cl_run_id s); text (cl_server_id s); number (cl_segment_seq s); text (cl_prev_hash s);
   GenNode 0 (record_tree <$> cl_records s); text (cl_head_hash s);
   option_tree (fun e => text e) (cl_signature s)].

Definition tree_segment (t : tree) : option ClosedSegment :=
  match t with
  | GenNode 0 [text run; text server; number seq; text prev; GenNode 0 rs; text head; signature] =>
      Some {| cl_run_id := run; cl_server_id := server; cl_segment_seq := seq; cl_prev_hash := prev;
              cl_records := tree_record <$> rs; cl_head_hash := head;
              cl_signature := tree_option tree_text signature |}
  | _ => None
  end.

Lemma tree_segment_tree s : tree_segment (segment_tree s) = Some s.
Proof.
  destruct s as [a b c d rs e sg]. cbn. rewrite tree_option_tree by done. do 2 f_equal.
  induction rs as [|r rs IH]; [done|]. cbn. by rewrite tree_record_tree, IH.
Qed.

Definition entry_tree (e : LedgerEntry) : tree := GenNode 0
  [text (si_server_id (le_id e)); text (si_run_id (le_id e)); number (si_segment_seq (le_id e));
   match le_status e with
   | Pending => GenNode 0 []
   | Delivered a => GenNode 1 [text a]
   | Failed a e n => GenNode 2 [text a; text e; number n]
   end].

Definition tree_entry (t : tree) : option LedgerEntry :=
  match t with
  | GenNode 0 [text server; text run; number seq; status] =>
      Some {| le_id := {| si_server_id := server; si_run_id := run; si_segment_seq := seq |};
              le_status := match status with
                           | GenNode 1 [text a] => Delivered a
                           | GenNode 2 [text a; text e; number n] => Failed a e n
                           | _ => Pending
                           end |}
  | _ => None
  end.

Lemma tree_entry_tree e : tree_entry (entry_tree e) = Some e.
Proof. by destruct e as [[] []]. Qed.

(** ** Lines of digits *)

(** A number in binary, from the low digit, ended by a dot. *)
Fixpoint bits (p : positive) (s : string) : string :=
  match p with xO p => String "0" (bits p s) | xI p => String "1" (bits p s) | xH => String "." s end.

Definition print_numbers (l : list N) : string := foldr (fun n => bits (N.succ_pos n)) "" l.

Fixpoint read_numbers (high : positive -> positive) (s : string) : list N :=
  match s with
  | String "0" s => read_numbers (fun p => high (xO p)) s
  | String "1" s => read_numbers (fun p => high (xI p)) s
  | String "." s => Pos.pred_N (high xH) :: read_numbers id s
  | _ => []
  end.

Lemma read_bits high p s : read_numbers high (bits p s) = Pos.pred_N (high p) :: read_numbers id s.
Proof. revert high. induction p as [p IH|p IH|]; intros high; cbn; by rewrite ?IH. Qed.

Lemma read_print_numbers l : read_numbers id (print_numbers l) = l.
Proof.
  induction l as [|n l IH]; [done|]. cbn [print_numbers foldr]. rewrite read_bits. fold (print_numbers l).
  rewrite IH. unfold id. f_equal. lia.
Qed.

(** A string is its characters from the last, and an end. *)
Fixpoint text_numbers (s : string) (l : list N) : list N :=
  match s with "" => l | String c s => text_numbers s ((3 + N_of_ascii c)%N :: l) end.

Definition token_numbers (x : nat * nat + (N + string)) (l : list N) : list N :=
  match x with
  | inl (k, n) => 0%N :: N.of_nat k :: N.of_nat n :: l
  | inr (inl n) => 1%N :: n :: l
  | inr (inr s) => text_numbers s (2%N :: l)
  end.

Fixpoint read_tokens (acc : string) (l : list N) : list (nat * nat + (N + string)) :=
  match l with
  | 0%N :: k :: n :: l => inl (N.to_nat k, N.to_nat n) :: read_tokens "" l
  | 1%N :: n :: l => inr (inl n) :: read_tokens "" l
  | 2%N :: l => inr (inr acc) :: read_tokens "" l
  | c :: l => read_tokens (String (ascii_of_N (c - 3)) acc) l
  | [] => []
  end.

Lemma read_char c acc l : read_tokens acc ((3 + N_of_ascii c)%N :: l) = read_tokens (String c acc) l.
Proof. destruct c as [[] [] [] [] [] [] [] []]; reflexivity. Qed.

Lemma read_text s acc l : read_tokens acc (text_numbers s l) = read_tokens (s +:+ acc) l.
Proof.
  revert l. induction s as [|c s IH]; intros l; cbn [text_numbers]; [by rewrite str_app_nil|].
  by rewrite IH, read_char, str_app_cons.
Qed.

Lemma read_tokens_numbers l : read_tokens "" (foldr token_numbers [] l) = l.
Proof.
  induction l as [|[[k n]|[n|s]] l IH]; [done|..]; cbn [foldr token_numbers].
  - cbn [read_tokens]. by rewrite IH, !Nat2N.id.
  - cbn [read_tokens]. by rewrite IH.
  - rewrite read_text, str_app_nil_r. cbn [read_tokens]. by rewrite IH.
Qed.

Definition print_tree (t : tree) : string :=
  String "#" (print_numbers (foldr token_numbers [] (gen_tree_to_list t))).

Definition parse_tree (s : string) : option tree :=
  match s with String "#" s => gen_tree_of_list [] (read_tokens "" (read_numbers id s)) | _ => None end.

Lemma parse_print_tree t : parse_tree (print_tree t) = Some t.
Proof.
  unfold parse_tree, print_tree. rewrite read_print_numbers, read_tokens_numbers.
  by rewrite <-(app_nil_r (gen_tree_to_list t)), gen_tree_of_to_list.
Qed.

Lemma print_tree_clean t :
  is_blank (print_tree t) = false /\
  valid_text (String.list_ascii_of_string (print_tree t)) = true /\
  Forall (fun c => is_newline c = false /\ is_return c = false) (String.list_ascii_of_string (print_tree t)).
Proof.
  unfold print_tree. generalize (foldr token_numbers [] (gen_tree_to_list t)). intros l. split.
  { by destruct (print_numbers l) as [|? []]. }
  cbn [String.list_ascii_of_string]. split.
  - unfold valid_text. cbn. induction l as [|n l IH]; [done|]. cbn [print_numbers foldr].
    fold (print_numbers l). by induction (N.succ_pos n).
  - constructor; [done|]. induction l as [|n l IH]; [constructor|]. cbn [print_numbers foldr].
    fold (print_numbers l). induction (N.succ_pos n); cbn; repeat constructor; done.
Qed.

Definition tree_codec {A} (f : A -> tree) (g : tree -> option A) : LineCodec A := {|
  print_line a := Ok (print_tree (f a));
  parse_line s := ok_or (parse_tree s ≫= g) "invalid line" |}.

Lemma tree_codec_laws {A} (f : A -> tree) g :
  (forall a, g (f a) = Some a) -> LineCodecLaws A (tree_codec f g).
Proof.
  intros Hg. split. intros a. exists (print_tree (f a)). destruct (print_tree_clean (f a)) as (?&?&?).
  split_and!; try done. cbn [parse_line tree_codec]. rewrite parse_print_tree. cbn. by rewrite Hg.
Qed.

Definition toy_entries : LineCodec LedgerEntry := tree_codec entry_tree tree_entry.
Definition toy_segments : LineCodec ClosedSegment := tree_codec segment_tree tree_segment.
#[local] Existing Instance toy_entries.
#[local] Existing Instance toy_segments.

#[local] Instance toy_entries_laws : LineCodecLaws LedgerEntry toy_entries.
Proof. apply tree_codec_laws, tree_entry_tree. Qed.

#[local] Instance toy_segments_laws : LineCodecLaws ClosedSegment toy_segments.
Proof. apply tree_codec_laws, tree_segment_tree. Qed.

(** ** A service *)

Definition toy_text : SinkText := {|
  json_text j := print_tree (json_tree j); urlencode s := s; basic_base64 s := s |}.
#[local] Existing Instance toy_text.

Definition toy_sink : SsdfSinkConfig := {|
  sc_endpoint := "http://127.0.0.1:8123"; sc_database := "ssdf"; sc_username := "ssdf_audit";
  sc_password := "p1"; sc_verify_username := "ssdf_audit_verify"; sc_verify_password := "p2";
  sc_initial_backoff := 100; sc_max_backoff := 60000 |}.

Definition no_segment : ClosedSegment := {|
  cl_run_id := ""; cl_server_id := ""; cl_segment_seq := 0; cl_prev_hash := ""; cl_records := [];
  cl_head_hash := ""; cl_signature := None |}.

Definition closed_of (g : ChainSegment) : ClosedSegment := match close g with Ok c => c | Err _ => no_segment end.

Definition seg0 : ClosedSegment := Eval vm_compute in closed_of segment_of_two.

Definition seg1 : ClosedSegment := Eval vm_compute in closed_of
  (chain_append (chain_segment_new "run-1" "srv-1" 1 (cl_head_hash seg0))
     (ApplyIntent (blank "req-3" "cs-1" "fw1" "alice" "d1" "t3" None))).2.

#[local] Instance HttpRequest_eq_dec : EqDecision HttpRequest.
Proof. solve_decision. Defined.

(** What happens to one request. *)
Inductive Weather := Fine | AnswerLost | RequestLost | LateThenFine.

Record ToyRemote := { tr_table : Table; tr_weather : list Weather }.

Definition land_one (t : Table) : Table :=
  match tb_sent t with
  | (token, rows) :: _ => if decide (token ∈ tb_accepted t) then t else accept token rows (tb_sent t) t
  | [] => t
  end.

Definition toy_extract (args k : string) : option json :=
  t ← parse_tree args; match tree_json t with JObject l => assoc k l | _ => None end.

Definition toy_extract_string (args k : string) : string :=
  match toy_extract args k with Some (JString s) => s | _ => "" end.

Definition toy_extract_uint (args k : string) : N :=
  match toy_extract args k with Some (JNumber r) => default 0%N (parse_u64 r) | _ => 0%N end.

Definition toy_answer (t : Table) : string :=
  let rs := List.filter (fun r => String.eqb (row_tier r) "evidence" &&
      String.eqb (toy_extract_string (row_args r) "server_id") (rc_server_id toy_recorder) &&
      String.eqb (toy_extract_string (row_args r) "run_id") (rc_run_id toy_recorder)) (tb_rows t) in
  pretty (N.of_nat (length rs)) +:+ String "009"
    (pretty (foldr N.max 0%N ((fun r => toy_extract_uint (row_args r) "segment_seq") <$> rs)) +:+ String "010" "").

Definition toy_insert (token : string) (rows : list SsdfRow) (w : Weather) (t : Table) :
  result string SsdfSinkError * Table :=
  let sent := (token, rows) :: tb_sent t in
  let lost := {| tb_rows := tb_rows t; tb_accepted := tb_accepted t; tb_sent := sent |} in
  let r := match w with Fine | LateThenFine => Ok "" | _ => Err (Http "timeout") end in
  match w with
  | RequestLost => (r, lost)
  | _ => if decide (token ∈ tb_accepted t) then (r, t) else (r, accept token rows sent t)
  end.

(** The service of one run knows the requests it can get; [always] is one that
    is up. *)
Section service.
Variable segments : list ClosedSegment.
Variable always : bool.

Definition insert_of (s : ClosedSegment) : HttpRequest :=
  insert_request toy_sink (segment_token s) (segment_rows s).

Definition toy_send (req : HttpRequest) (w : ToyRemote) : result string SsdfSinkError * ToyRemote :=
  let weather := if always then Fine else default Fine (head (tr_weather w)) in
  let rest := tail (tr_weather w) in
  if decide (req = mark_request toy_sink (rc_server_id toy_recorder) (rc_run_id toy_recorder)) then
    let t := match weather with LateThenFine => land_one (tr_table w) | _ => tr_table w end in
    (match weather with Fine | LateThenFine => Ok (toy_answer t) | _ => Err (Http "timeout") end,
     {| tr_table := t; tr_weather := rest |})
  else match list_find (fun s => req = insert_of s) segments with
       | Some (_, s) =>
           let '(r, t) := toy_insert (segment_token s) (segment_rows s) weather (tr_table w) in
           (r, {| tr_table := t; tr_weather := rest |})
       | None => (if always then Ok "" else Err (Http "refused"), w)
       end.

Definition toy_warehouse : Warehouse := {| Remote := ToyRemote; send := toy_send |}.

Definition toy_table : @AuditTable toy_warehouse :=
  @Build_AuditTable toy_warehouse tr_table toy_extract_string toy_extract_uint.

End service.

Lemma toy_extract_text l k : toy_extract (json_text (JObject l)) k = assoc k l.
Proof.
  unfold toy_extract. cbn [json_text toy_text]. rewrite parse_print_tree. cbn [mbind option_bind].
  by rewrite tree_json_tree.
Qed.

Lemma land_one_late t : rtc lands_late t (land_one t).
Proof.
  unfold land_one. destruct (tb_sent t) as [|[token rows] l] eqn:E; [done|]. case_decide; [done|].
  apply rtc_once. rewrite <-E. constructor; [rewrite E; apply list_elem_of_here|done].
Qed.

Lemma toy_insert_inserts token rows w t r t' :
  toy_insert token rows w t = (r, t') -> inserts token rows (is_ok r) t t'.
Proof.
  unfold toy_insert. destruct w; [| |intros [= <- <-]; by constructor|];
    (case_decide; intros [= <- <-]; by constructor).
Qed.

Lemma mark_is_no_insert server run s : mark_request toy_sink server run <> insert_of s.
Proof. intros E. apply (f_equal hr_headers) in E. discriminate E. Qed.

Lemma insert_of_token s s' : insert_of s = insert_of s' -> segment_token s = segment_token s'.
Proof.
  intros E. apply (f_equal hr_url) in E. unfold insert_of, insert_request in E. cbn [hr_url] in E.
  repeat apply str_app_inj_l in E. exact E.
Qed.

Section laws.
Variable segments : list ClosedSegment.
Variable always : bool.
#[local] Instance laws_warehouse : Warehouse := toy_warehouse segments always.
#[local] Instance laws_table : AuditTable := toy_table segments always.

Lemma toy_laws : book_ok (book_of toy_recorder segments) -> AuditTableLaws toy_sink (book_of toy_recorder segments).
Proof.
  intros BK. split.
  - intros l k s _ Ha. change (toy_extract_string (json_text (JObject l)) k = s). unfold toy_extract_string. by rewrite toy_extract_text, Ha.
  - intros l k n _ Ha Hn. change (toy_extract_uint (json_text (JObject l)) k = n). unfold toy_extract_uint. rewrite toy_extract_text, Ha. cbn [json_u64].
    by rewrite parse_u64_pretty.
  - intros run w r w'. unfold book_of. case_decide as E; [subst run|done]. intros _. cbn [send laws_warehouse toy_warehouse fst snd].
    unfold toy_send. rewrite decide_True by done. intros [= <- <-]. cbn [observe laws_table toy_table tr_table].
    destruct (if always then _ else _).
    1-3: exists (tr_table w); split_and!; [reflexivity|reflexivity|]; by intros body [= <-].
    exists (land_one (tr_table w)). split_and!; [apply land_one_late|reflexivity|]. by intros body [= <-].
  - intros run i s rows w r w' Hs Hrows. cbn [send laws_warehouse toy_warehouse].
    assert (segment_rows s = rows) as <- by (unfold segment_rows; by rewrite Hrows).
    fold (insert_of s). unfold toy_send.
    rewrite decide_False by (intros ?%eq_sym; by eapply mark_is_no_insert).
    assert (s ∈ segments) as Hin.
    { unfold book_of in Hs. case_decide; [|by rewrite lookup_nil in Hs]. by eapply list_elem_of_lookup_2. }
    destruct (list_find_elem_of (fun s' => insert_of s = insert_of s') segments s Hin eq_refl) as [[j s'] Hf].
    rewrite Hf. apply list_find_Some in Hf as (Hj&E&_). apply insert_of_token in E.
    assert (run = (rc_server_id toy_recorder, rc_run_id toy_recorder)) as ->
      by (unfold book_of in Hs; case_decide; [done|by rewrite lookup_nil in Hs]).
    assert (s = s') as <-.
    { destruct (segment_token_inj (book_of toy_recorder segments) BK
                  (rc_server_id toy_recorder, rc_run_id toy_recorder) i s
                  (rc_server_id toy_recorder, rc_run_id toy_recorder) j s') as (_&_&?);
        [done|unfold book_of; by rewrite decide_True|done|done]. }
    destruct (toy_insert _ _ _ _) as [r1 t1] eqn:Hi. intros [= <- <-].
    exists (tr_table w), t1. split_and!; [reflexivity|by eapply toy_insert_inserts|reflexivity].
Qed.

End laws.

(** ** A delivery with everything that can go wrong *)

Definition toy_chain : list ClosedSegment := [seg0; seg1].
Definition toy_book : Book := book_of toy_recorder toy_chain.

(** The first insert is lost and lands during the next pass; the answer to the
    second one is lost, and the process dies writing that down. *)
Definition stormy : list Weather := [Fine; RequestLost; LateThenFine; Fine; AnswerLost].

Definition empty_table : Table := {| tb_rows := []; tb_accepted := []; tb_sent := [] |}.

Definition well : PassEnv := {| pe_now _ := "t9"; pe_random _ := 7%N; pe_fate _ := Wrote |}.

Definition dying : PassEnv := {|
  pe_now _ := "t9"; pe_random _ := 7%N;
  pe_fate i := if decide (i = 1) then Short 5 "killed" else Wrote |}.

Section storm.
Variable always : bool.
#[local] Instance storm_warehouse : Warehouse := toy_warehouse toy_chain always.
#[local] Instance storm_table : AuditTable := toy_table toy_chain always.

Definition stepped : SinkFiles * Remote -> SinkFiles * Remote -> Prop := sink_step toy_sink toy_book.

Definition spooled (s : ClosedSegment) (x : SinkFiles * Remote) : SinkFiles * Remote := ((spool Wrote Wrote s x.1).2, x.2).

Definition passed (env : PassEnv) (x : SinkFiles * Remote) : SinkFiles * Remote :=
  let '(_, k, w) := attempt_delivery toy_sink env x.1 x.2 in (k, w).

Definition reopened (x : SinkFiles * Remote) : SinkFiles * Remote :=
  match sink_open (sk_outbox x.1) (dl_file (sk_ledger x.1)) with Ok k => (k, x.2) | Err _ => x end.

Definition storm_start : SinkFiles * Remote := (sink_new, {| tr_table := empty_table; tr_weather := stormy |}).
Definition storm_first := passed well (spooled seg0 storm_start).
Definition storm_crash := reopened (passed dying (spooled seg1 storm_first)).
Definition storm_end := passed well storm_crash.

Lemma spooled_step segments s x :
  load_outbox x.1 = Ok segments -> next_of toy_book segments s -> stepped x (spooled s x).
Proof.
  intros Hl Hn. destruct x as [k w]. eapply (step_spool _ _ Wrote); [exact Hl|exact Hn|exact I|].
  apply surjective_pairing.
Qed.

Lemma passed_step env x : (forall i, pe_fate env i = Wrote) -> stepped x (passed env x).
Proof.
  intros He. destruct x as [k w]. unfold passed. destruct (attempt_delivery _ _ _ _) as [[r k'] w'] eqn:E.
  by eapply step_pass.
Qed.

Lemma died_step env x :
  is_ok (sink_open (sk_outbox (passed env x).1) (dl_file (sk_ledger (passed env x).1))) = true ->
  stepped x (reopened (passed env x)).
Proof.
  intros Ho. destruct x as [k w]. unfold reopened in *. destruct (sink_open _ _) as [k''|] eqn:Hk; [|discriminate Ho].
  unfold passed in Hk |- *. destruct (attempt_delivery _ _ _ _) as [[r k'] w'] eqn:E. by eapply step_die_passing.
Qed.

Lemma toy_book_ok : book_ok toy_book.
Proof.
  intros run i s. unfold toy_book, book_of. case_decide as E; [subst run|by rewrite lookup_nil].
  destruct i as [|[|i]]; intros [= <-].
  all: repeat split; [vm_compute; discriminate|discriminate|vm_compute; repeat constructor].
Qed.

Lemma storm_fresh : fresh toy_book (observe storm_start.2).
Proof. split; [reflexivity|]. intros run. split; [reflexivity|]. intros i s _ []%not_elem_of_nil. Qed.

Lemma storm_first_run : rtc stepped storm_start storm_first.
Proof.
  eapply rtc_l; [apply (spooled_step [])|apply rtc_once, passed_step; reflexivity].
  - reflexivity.
  - split; [vm_compute; reflexivity|]. intros j s Hj. vm_compute in Hj. lia.
Qed.

Lemma second_next : next_of toy_book [seg0] seg1.
Proof.
  split; [vm_compute; reflexivity|]. intros [|j] s Hj; [|vm_compute in Hj; lia].
  vm_compute. intros [= <-]. by apply list_elem_of_singleton.
Qed.

End storm.

Lemma storm_second : next_of toy_book [seg0] seg1 /\ load_outbox (storm_first false).1 = Ok [seg0].
Proof. split; [apply second_next|vm_compute; reflexivity]. Qed.

Lemma storm_reopens :
  let x := passed false dying (spooled false seg1 (storm_first false)) in
  is_ok (sink_open (sk_outbox x.1) (dl_file (sk_ledger x.1))) = true.
Proof. vm_compute. reflexivity. Qed.

Lemma storm_run : rtc (stepped false) (storm_start false) (storm_end false).
Proof.
  destruct storm_second as [Hn Hl]. unfold storm_end, storm_crash. transitivity (storm_first false); [apply storm_first_run|].
  refine (rtc_l _ _ _ _ (spooled_step false _ _ _ Hl Hn) _).
  refine (rtc_l _ _ _ _ (died_step false dying _ storm_reopens) _).
  exact (rtc_once _ _ (passed_step false well _ (fun _ => eq_refl))).
Qed.

(** ** The theorems on these runs *)

Section in_the_storm.
#[local] Instance bad_warehouse : Warehouse := storm_warehouse false.
#[local] Instance bad_table : AuditTable := storm_table false.


End in_the_storm.

Section in_calm.
#[local] Instance good_warehouse : Warehouse := storm_warehouse true.
#[local] Instance good_table : AuditTable := storm_table true.

Lemma calm_sendable : book_sendable toy_book.
Proof.
  unfold toy_book, book_of. split.
  - intros run i s r. case_decide; [|by rewrite lookup_nil]. destruct i as [|[|i]]; intros [= <-] Hr.
    all: repeat (apply elem_of_cons in Hr as [->|Hr]; [vm_compute; reflexivity|]); by apply not_elem_of_nil in Hr.
  - intros run. case_decide; [vm_compute; discriminate|vm_compute; discriminate].
Qed.

Lemma calm_answers : answers.
Proof.
  intros req w. cbn [send good_warehouse storm_warehouse toy_warehouse]. unfold toy_send.
  case_decide; [reflexivity|]. destruct (list_find _ _) as [[j s]|]; [|reflexivity].
  unfold toy_insert. by case_decide.
Qed.

Definition calm : SinkFiles * Remote := spooled true seg1 (spooled true seg0 (storm_start true)).

Lemma calm_run : rtc (stepped true) (storm_start true) calm.
Proof.
  refine (rtc_l _ _ _ _ (spooled_step true [] seg0 (storm_start true) eq_refl _) _).
  - split; [vm_compute; reflexivity|]. intros j s Hj. vm_compute in Hj. lia.
  - refine (rtc_once _ _ (spooled_step true [seg0] seg1 _ _ second_next)). vm_compute. reflexivity.
Qed.

Lemma answered_pass_delivers_all_witness :
  exists report k' w', attempt_delivery toy_sink well calm.1 calm.2 = (Ok report, k', w') /\
    dr_failed report = 0%N /\
    forall run, exists n,
      List.filter (in_run run.1 run.2) (tb_rows (observe w')) = take n (toy_book run) ≫= segment_rows /\
      forall s, s ∈ toy_chain -> run_of s = run -> s ∈ take n (toy_book run).
Proof.
  assert (rtc (stepped true) (storm_start true) (calm.1, calm.2)) as Hr
    by (rewrite <-surjective_pairing; exact calm_run).
  assert (load_outbox calm.1 = Ok toy_chain) as Hl by (vm_compute; reflexivity).
  exact (answered_pass_delivers_all toy_sink toy_book (AL := toy_laws toy_chain true toy_book_ok) toy_book_ok
           (storm_start true).2 calm.1 calm.2 well toy_chain (storm_fresh true) Hr Hl (fun _ => eq_refl)
           calm_sendable calm_answers).
Defined.

End in_calm.

Definition id0 : SegmentId := segment_id seg0.
Definition id1 : SegmentId := segment_id seg1.

Definition ledger_of (entries : list LedgerEntry) : DeliveryLedger :=
  foldl (fun l e => (write_entry Wrote (le_id e) (le_status e) l).2) {| dl_file := []; dl_index := ∅ |} entries.

Definition two_pending : list LedgerEntry :=
  [{| le_id := id0; le_status := Pending |}; {| le_id := id1; le_status := Pending |}].

Definition cut_short : result unit LedgerError * DeliveryLedger :=
  write_entry (Short 9 "killed") id0 (Delivered "t9") (ledger_of two_pending).

Lemma ledger_survives_crash_witness :
  exists l, ledger_open (dl_file cut_short.2) = Ok l /\
    (dl_index l = index_of two_pending \/
     dl_index l = index_of (two_pending ++ [{| le_id := id0; le_status := Delivered "t9" |}])) /\
    (cut_short.1 = Ok tt -> l = cut_short.2 /\
     dl_index cut_short.2 = index_of (two_pending ++ [{| le_id := id0; le_status := Delivered "t9" |}])).
Proof.
  exact (ledger_survives_crash two_pending (Short 9 "killed") id0 (Delivered "t9") cut_short.1 cut_short.2
           (surjective_pairing _)).
Defined.

(** The recorder stops with a full segment and a record more; the disk refuses
    the first write. *)
Definition stopping : RecorderState := mo_state
  (default (recorder_start toy_recorder)
     (acts toy_recorder None [Append planned; Append agreed; Append planned] (recorder_start toy_recorder))).

Definition full_disk (i : nat) : AppendFate * AppendFate :=
  (if decide (i = 0) then Short 0 "disk full" else Wrote, Wrote).

Definition stopped := spool_everything toy_recorder None full_disk stopping sink_new.

Lemma triple_eta {A B C} (x : A * B * C) : x = (x.1.1, x.1.2, x.2).
Proof. by destruct x as [[]]. Qed.

Lemma shutdown_spools_everything_witness :
  let held := rs_closed stopping ++ option_list (roll toy_recorder None (set_closed [] stopping)).1 in
  length held = 2 /\
  outbox_is ([] ++ kept full_disk 0 held) stopped.2 /\ rs_closed stopped.1.2 = [] /\
  sg_records (rs_current stopped.1.2) = [] /\
  (stopped.1.1 = Ok tt <-> forall j, j < length held -> refused (full_disk j).1 = false).
Proof.
  split; [vm_compute; reflexivity|].
  assert (forall j, whole (full_disk j).1) as Hw by (intros j; unfold full_disk; by case_decide).
  assert (spool_everything toy_recorder None full_disk stopping sink_new = (stopped.1.1, stopped.1.2, stopped.2)) as E
    by (unfold stopped; apply triple_eta).
  exact (shutdown_spools_everything toy_recorder None full_disk stopping sink_new [] _ _ _ eq_refl Hw E).
Defined.

Section fed.
#[local] Instance fed_warehouse : Warehouse := storm_warehouse false.
#[local] Instance fed_table : AuditTable := storm_table false.


End fed.

(** ** A second run *)

Definition resumed : RecorderConfig := {|
  rc_server_id := "srv-1"; rc_run_id := "run-2";
  rc_resume_from := resume_head None (newest_head "srv-1" (mo_outbox eventful_end));
  rc_records_per_segment := 2 |}.

Lemma resumed_from : rc_resume_from resumed = resume_head None (newest_head "srv-1" (mo_outbox eventful_end)).
Proof. unfold resumed. cbn [rc_resume_from]. reflexivity. Qed.

Definition resumed_acts : list Act := [Append planned; Append agreed; Claim; Write; Finish].

Definition resumed_end : Moment :=
  default (recorder_start resumed) (acts resumed (Some toy_key) resumed_acts (recorder_start resumed)).

Lemma resumed_run : rtc (recorder_step resumed (Some toy_key)) (recorder_start resumed) resumed_end.
Proof.
  assert (is_Some (acts resumed (Some toy_key) resumed_acts (recorder_start resumed))) as [m Hm].
  { apply (bool_decide_unpack (is_Some _)). vm_compute. exact I. }
  unfold resumed_end. rewrite Hm. by eapply acts_steps.
Qed.

Lemma chain_survives_restarts_witness :
  let outbox := mo_outbox eventful_end ++ mo_outbox resumed_end in
  length (distinct outbox) = 4 /\
  exists start, linked start (distinct outbox ≫= cl_records) (default start (newest_head "srv-1" outbox)).
Proof.
  split; [vm_compute; reflexivity|].
  pose proof (@history_run _ _ toy_signing "srv-1" [] toy_recorder (Some toy_key) None eventful_end
    (history_new _) eq_refl (Forall_nil_2 _) eq_refl eventful_run) as Hfirst.
  rewrite app_nil_l in Hfirst.
  assert (Forall (fun s => cl_run_id s <> rc_run_id resumed) (mo_outbox eventful_end)) as Hruns.
  { apply (bool_decide_unpack (Forall _ _)). vm_compute. exact I. }
  pose proof (@history_run _ _ toy_signing "srv-1" _ resumed (Some toy_key) None resumed_end
    Hfirst eq_refl Hruns resumed_from resumed_run) as Hh.
  exact (chain_survives_restarts "srv-1" _ Hh).
Defined.

(** ** Writes that are cut short *)

Section cut.
#[local] Instance cut_warehouse : Warehouse := storm_warehouse true.

Definition torn_outbox : SinkFiles := (spool (Short 9 "killed") Wrote seg1 (spooled true seg0 (storm_start true)).1).2.

Definition next_start : EvidenceConfig := {|
  ec_server_id := "srv-1"; ec_run_id := "run-2"; ec_records_per_segment := 2; ec_sink := toy_sink;
  ec_signing_key_path := None |}.

Definition invalid_segment {A} (r : result A SsdfSinkError) : bool :=
  match r with Err (InvalidSegment _) => true | _ => false end.

(** The outbox has no repair: after a write that stopped inside a line the sink
    opens, but no pass gets past reading the outbox, and the service, which
    makes one first, does not start. *)
Lemma torn_outbox_stops_service :
  is_ok (sink_open (sk_outbox torn_outbox) (dl_file (sk_ledger torn_outbox))) = true /\
  let '(k, w) := reopened true (torn_outbox, (storm_start true).2) in
  invalid_segment (attempt_delivery toy_sink well k w).1.1 = true /\
  invalid_segment (from_sink next_start well k w).1.1 = true.
Proof. vm_compute. repeat split. Qed.

End cut.

(** The ledger repairs an unfinished last line when it is opened, not when a
    running process writes on after a write that failed: the next entry joins
    the rest of the failed one, and the file does not open again. *)
Lemma ledger_write_after_failure_is_lost :
  let '(r, l) := write_entry Wrote id1 (Delivered "t9") cut_short.2 in
  cut_short.1 = Err (LedgerIo "killed") /\ r = Ok tt /\ is_ok (ledger_open (dl_file l)) = false.
Proof. vm_compute. repeat split. Qed.
