(* ===== verification/DeviceLog.v ===== *)
(** * Commit comments and device logs
    (crates/mecmcp-changeset/src/commit_metadata.rs, crates/mecmcp-audit/src/device_log.rs)

    The provenance line a commit carries, and the two readers that find its
    request identifier again in a git log of backups or in what Junos reports.
    The reader takes the first identifier of a line: a comment that holds one
    of its own is read instead, and one that does not comes back as it went. *)

From S2P Require Import Prelude Types Text Spool.
From Stdlib Require Import Ascii.

Open Scope list_scope.

(** ** The comment *)

Inductive CommitMetaError := SinkFailed (why : string).

Definition commit_meta_error_text (e : CommitMetaError) : string :=
  match e with SinkFailed msg => "sink failed: " +:+ msg end.

Inductive AttachOutcome := Attached | Missed (reason : string).

Section compose.
(** [str::to_lowercase] of the standard library's Unicode tables. *)
Variable lower : string -> string.

Definition provenance_string (agent : AgentIdentity) (on_behalf_of : option string) : string :=
  let provider_tier := lower (provider agent +:+ "-" +:+ tier_to_string (provider_tier agent)) in
  let skills := match skills_used agent with [] => "none" | l => str_join " " l end in
  match on_behalf_of with
  | Some user => provider_tier +:+ ", " +:+ model_id agent +:+ ", " +:+ skills +:+ ", " +:+ user
  | None => provider_tier +:+ ", " +:+ model_id agent +:+ ", " +:+ skills
  end.

(** The line given to the sink; there is none without an agent. *)
Definition commit_line (operator_comment : option string) (a : Attribution) : option string :=
  agent ← attr_agent a;
  let provenance :=
    provenance_string agent (attr_on_behalf_of a) +:+ " request.id=" +:+ attr_request_id a in
  Some match operator_comment with
       | Some comment => if is_blank comment then provenance else trim comment +:+ " | " +:+ provenance
       | None => provenance
       end.

(** The commit goes on whatever the sink answers. *)
Definition apply_commit_metadata {Sink} (attach : string -> Sink -> result unit CommitMetaError * Sink)
  (operator_comment : option string) (a : Attribution) (sink : Sink) : AttachOutcome * Sink :=
  match commit_line operator_comment a with
  | None => (Attached, sink)
  | Some line =>
      match attach line sink with
      | (Ok _, sink) => (Attached, sink)
      | (Err e, sink) => (Missed (commit_meta_error_text e), sink)
      end
  end.

End compose.

(** ** Reading logs *)

(** The lines of a reader; one that is not text is passed over. *)
Definition text_lines (data : file_bytes) : list string :=
  String.string_of_list_ascii <$> List.filter valid_text (lines data).

Inductive LogFormat := Git | JunosNative.

Record DeviceCommitRef := { dc_device_id : string; dc_commit_sha : string; dc_request_id : string }.

Definition is_hexdigit (c : ascii) : bool :=
  let n := N_of_ascii c in is_lower_hex c || ((65 <=? n)%N && (n <=? 70)%N).

Definition starts_with_digit (s : string) : bool :=
  match s with String c _ => is_ascii_digit c | EmptyString => false end.

Definition git_commit_line (line : string) : bool :=
  match strip_prefix "commit " line with
  | Some sha => let sha := trim sha in negb (is_empty_str sha) && str_forall is_hexdigit sha
  | None => false
  end.

Definition junos_commit_line (line : string) : bool :=
  let trimmed := trim_start_from 0 line in
  starts_with_digit trimmed && (contains_str "UTC by" trimmed || contains_str "UTC via" trimmed).

Definition detect_format (content : file_bytes) : LogFormat :=
  let first := take 50 (String.string_of_list_ascii <$> lines content) in
  if existsb git_commit_line first then Git
  else if existsb junos_commit_line first then JunosNative
  else Git.

(** Up to the first comma or white space. *)
Definition request_id_in (part : string) : string :=
  trim (default "" (head (split_whitespace (default "" (head (split_str "," part)))))).

(** The request identifier of a line that names one. *)
Definition request_id_of (line : string) : option string :=
  if contains_str "request.id=" line then
    part ← split_str "request.id=" line !! 1;
    let id := request_id_in part in
    if is_empty_str id then None else Some id
  else None.

Definition extract_junos_timestamp (line : string) : option string :=
  if contains_str "UTC" line then
    before ← head (split_str "UTC" line);
    let parts := split_whitespace (trim before) in
    if (3 <=? length parts)%nat then
      date ← parts !! (length parts - 2);
      time ← parts !! (length parts - 1);
      if contains_char "-" date && contains_char ":" time then Some (date +:+ "T" +:+ time +:+ "Z") else None
    else None
  else None.

Record JunosLog := { jl_timestamp : option string; jl_in_comment : bool; jl_commits : list DeviceCommitRef }.

Definition junos_line (device_id : string) (st : JunosLog) (line : string) : JunosLog :=
  let st :=
    if negb (starts_with " " line) && negb (starts_with (String "009" "") line) then
      if starts_with_digit (trim_start_from 0 line) then
        match extract_junos_timestamp line with
        | Some t => {| jl_timestamp := Some t; jl_in_comment := false; jl_commits := jl_commits st |}
        | None => st
        end
      else st
    else {| jl_timestamp := jl_timestamp st; jl_in_comment := true; jl_commits := jl_commits st |} in
  match jl_in_comment st, jl_timestamp st, request_id_of line with
  | true, Some t, Some id =>
      {| jl_timestamp := jl_timestamp st; jl_in_comment := jl_in_comment st;
         jl_commits := jl_commits st
           ++ [{| dc_device_id := device_id; dc_commit_sha := t; dc_request_id := id |}] |}
  | _, _, _ => st
  end.

Definition parse_junos_native_log (data : file_bytes) (device_id : string) : list DeviceCommitRef :=
  jl_commits (foldl (junos_line device_id)
    {| jl_timestamp := None; jl_in_comment := false; jl_commits := [] |} (text_lines data)).

Record GitLog := { gl_sha : option string; gl_device : option string; gl_commits : list DeviceCommitRef }.

Definition git_line (st : GitLog) (line : string) : GitLog :=
  let st := match strip_prefix "commit " line with
            | Some sha => {| gl_sha := Some (trim sha); gl_device := None; gl_commits := gl_commits st |}
            | None => st
            end in
  let st := if contains_str "Device:" line then
              match split_str "Device:" line !! 1 with
              | Some d => {| gl_sha := gl_sha st; gl_device := Some (trim d); gl_commits := gl_commits st |}
              | None => st
              end
            else st in
  match gl_sha st, gl_device st, request_id_of line with
  | Some sha, Some device, Some id =>
      {| gl_sha := gl_sha st; gl_device := gl_device st;
         gl_commits := gl_commits st
           ++ [{| dc_device_id := device; dc_commit_sha := sha; dc_request_id := id |}] |}
  | _, _, _ => st
  end.

Definition parse_device_log (data : file_bytes) : list DeviceCommitRef :=
  gl_commits (foldl git_line {| gl_sha := None; gl_device := None; gl_commits := [] |} (text_lines data)).

Definition parse_device_log_with_format (data : file_bytes) (format : LogFormat) (device_id : option string) :
  list DeviceCommitRef :=
  match format with
  | Git => parse_device_log data
  | JunosNative => parse_junos_native_log data (default "unknown" device_id)
  end.

Definition parse_device_log_auto (content : file_bytes) (device_id : option string) : list DeviceCommitRef :=
  parse_device_log_with_format content (detect_format content) device_id.

(** ** Logs of clean lines *)

Lemma utf8_valid_app l l' : utf8_valid l = true -> utf8_valid (l ++ l') = utf8_valid l'.
Proof.
  assert (length l <= length l) as Hn by done. revert Hn. generalize (length l) at 2. intros n. revert l.
  induction n as [|n IH]; intros [|a l1] Hn; [done|cbn in Hn; lia|done|]. cbn [utf8_valid app length] in *.
  destruct (a <? 128)%N; [apply IH; cbn in *; lia|].
  destruct l1 as [|b l2]; [done|]. cbn [app].
  destruct (_ && _); [intros [-> Hl]%andb_true_iff; apply IH; [cbn in *; lia|done]|].
  destruct l2 as [|c l3]; [done|]. cbn [app].
  destruct (a =? 224)%N; [intros [-> Hl]%andb_true_iff; apply IH; [cbn in *; lia|done]|].
  destruct (a =? 237)%N; [intros [-> Hl]%andb_true_iff; apply IH; [cbn in *; lia|done]|].
  destruct (_ && _); [intros [-> Hl]%andb_true_iff; apply IH; [cbn in *; lia|done]|].
  destruct l3 as [|d l4]; [done|]. cbn [app].
  destruct (a =? 240)%N; [intros [-> Hl]%andb_true_iff; apply IH; [cbn in *; lia|done]|].
  destruct (a =? 244)%N; [intros [-> Hl]%andb_true_iff; apply IH; [cbn in *; lia|done]|].
  destruct (_ && _); [intros [-> Hl]%andb_true_iff; apply IH; [cbn in *; lia|done]|done].
Qed.

(** One line of text. *)
Definition clean (s : string) : Prop :=
  valid_text (String.list_ascii_of_string s) = true /\
  Forall (fun c => is_newline c = false /\ is_return c = false) (String.list_ascii_of_string s).

Lemma clean_app a b : clean a -> clean b -> clean (a +:+ b).
Proof.
  unfold clean, valid_text. rewrite !list_ascii_app, fmap_app. intros [Ha Hca] [Hb Hcb].
  split; [by rewrite utf8_valid_app|by apply Forall_app].
Qed.

Lemma visible_clean d : str_forall visible d = true -> clean d.
Proof.
  unfold clean, valid_text. induction d as [|c d IH]; [by split|]. cbn [str_forall]. intros [Hc Hd]%andb_true_iff.
  destruct (IH Hd) as [Hv Hl]. unfold visible in Hc. apply andb_true_iff in Hc as [H1%N.leb_le H2%N.leb_le]. split.
  - cbn. rewrite (proj2 (N.ltb_lt _ 128)) by lia. exact Hv.
  - cbn. constructor; [|done]. unfold is_newline, is_return.
    split; apply Ascii.eqb_neq; intros ->; vm_compute in H1; by apply H1.
Qed.

Definition log_of (ls : list string) : file_bytes :=
  ls ≫= fun l => String.list_ascii_of_string l ++ ["010"%char].

Lemma lines_log_of ls : Forall clean ls -> lines (log_of ls) = String.list_ascii_of_string <$> ls.
Proof.
  induction 1 as [|l ls [_ Hl] _ IH]; [done|]. unfold log_of. rewrite bind_cons, <-app_assoc. unfold lines. cbn [app].
  rewrite lines_clean by (constructor || done). cbn [reverse rev_append app]. rewrite fmap_cons. f_equal. exact IH.
Qed.

Lemma text_lines_log_of ls : Forall clean ls -> text_lines (log_of ls) = ls.
Proof.
  intros Hls. unfold text_lines. rewrite lines_log_of by done. induction Hls as [|l ls [Hv _] _ IH]; [done|].
  cbn. rewrite Hv. cbn. by rewrite String.string_of_list_ascii_of_string, IH.
Qed.

(** ** The round trip *)

Definition uuid_byte (c : ascii) : bool := is_lower_hex c || Ascii.eqb c "-".
Definition uuid_text (s : string) : bool := negb (is_empty_str s) && str_forall uuid_byte s.

Lemma uuid_visible c : uuid_byte c = true -> visible c = true.
Proof. destruct c as [[] [] [] [] [] [] [] []]; vm_compute; congruence. Qed.

Lemma request_id_found x id :
  contains_str "request.id=" x = false -> uuid_text id = true ->
  request_id_of (x +:+ " request.id=" +:+ id) = Some id.
Proof.
  intros Hx [Hne Hid]%andb_true_iff. unfold request_id_of. rewrite (str_app_cons " " "request.id="), contains_before by done.
  rewrite contains_here, orb_true_r. unfold split_str. rewrite split_before by done.
  rewrite split_here. cbn [lookup list_lookup]. assert (Hv := str_forall_impl _ _ _ uuid_visible Hid).
  assert (forall c p, uuid_byte c = false -> contains_str (String c p) id = false) as Habs.
  { intros c p Hc. apply (contains_absent c); [|by eapply str_forall_absent].
    unfold contains_char. cbn. by rewrite Ascii.eqb_refl. }
  rewrite split_none by (by apply Habs). rewrite str_app_nil. cbn.
  unfold request_id_in, split_str. rewrite split_none by (by apply Habs). rewrite str_app_nil. cbn [head default from_option].
  rewrite words_visible by (done || by destruct id). cbn [head default from_option]. rewrite trim_visible by done.
  unfold Datatypes.id. by destruct (is_empty_str id).
Qed.

(** Text that the readers take for nothing but itself. *)
Definition plain (s : string) : Prop :=
  contains_str "request.id=" s = false /\ contains_str "Device:" s = false /\ clean s.

Lemma plain_sep a c b :
  contains_char c "request.id=" = false -> contains_char c "Device:" = false -> visible c = true \/ c = " "%char ->
  plain a -> plain b -> plain (a +:+ String c b).
Proof.
  intros H1 H2 Hc (Ha1&Ha2&Ha3) (Hb1&Hb2&Hb3). unfold plain. rewrite !contains_before by done.
  rewrite Ha1, Ha2, Hb1, Hb2. split_and!; [done..|]. change (String c b) with (String c "" +:+ b).
  apply clean_app; [done|]. apply clean_app; [|done]. destruct Hc as [Hc| ->]; [|by vm_compute; repeat constructor].
  apply visible_clean. cbn. by rewrite Hc.
Qed.

(** The readers find the identifier in the line of the comment. *)
Lemma commit_line_shape lower comment a agent :
  attr_agent a = Some agent -> uuid_text (attr_request_id a) = true ->
  plain (provenance_string lower agent (attr_on_behalf_of a)) ->
  (forall c, comment = Some c -> plain (trim c)) ->
  exists said, commit_line lower comment a = Some (said +:+ " request.id=" +:+ attr_request_id a) /\ plain said.
Proof.
  intros Ha _ Hp Hc. unfold commit_line. rewrite Ha. cbn [mbind option_bind].
  set (p := provenance_string _ _ _) in *. destruct comment as [c|]; [|by exists p].
  destruct (is_blank c); [by exists p|]. exists (trim c +:+ " | " +:+ p).
  split; [by rewrite !str_app_assoc|]. specialize (Hc c eq_refl).
  change (" | " +:+ p) with (String " " ("| " +:+ p)). apply plain_sep; [done..|by right|done|].
  change ("| " +:+ p) with ("" +:+ String "|" (String " " p)).
  assert (plain "") by (by vm_compute; repeat constructor).
  apply plain_sep; [done..|by left|done|]. change (String " " p) with ("" +:+ String " " p).
  apply plain_sep; [done..|by right|done|done].
Qed.

(** What a backup writes for a commit, and what Junos reports of it. *)
Definition git_log (sha device line : string) : file_bytes :=
  log_of ["commit " +:+ sha; "Device: " +:+ device; "    " +:+ line].

Definition junos_log (date time by_ line : string) : file_bytes :=
  log_of ["0   " +:+ date +:+ " " +:+ time +:+ " UTC by " +:+ by_; "    " +:+ line].

Lemma trim_space d : str_forall visible d = true -> trim (String " " d) = d.
Proof. exact (trim_visible d). Qed.

Lemma request_id_none line : contains_str "request.id=" line = false -> request_id_of line = None.
Proof. unfold request_id_of. by intros ->. Qed.

Lemma hex_visible c : is_hexdigit c = true -> visible c = true.
Proof. destruct c as [[] [] [] [] [] [] [] []]; vm_compute; congruence. Qed.

Lemma uuid_clean id : uuid_text id = true -> clean id.
Proof. intros [_ Hid]%andb_true_iff. by apply visible_clean, (str_forall_impl _ _ _ uuid_visible). Qed.

Lemma comment_line said id :
  plain said -> uuid_text id = true ->
  let line := "    " +:+ said +:+ " request.id=" +:+ id in
  clean line /\ contains_str "Device:" line = false /\ request_id_of line = Some id.
Proof.
  intros (H1&H2&H3) Hid line. assert (Hv := uuid_clean id Hid). split_and!.
  - unfold line. apply clean_app; [by vm_compute; repeat constructor|]. apply clean_app; [done|].
    apply clean_app; [by vm_compute; repeat constructor|done].
  - unfold line. rewrite (str_app_cons " " "   "). change ("   " +:+ ?x) with (String " " (String " " (String " " x))).
    rewrite (str_app_cons " " "request.id=").
    change (String " " (String " " (String " " (String " " ?x)))) with ("   " +:+ String " " x).
    rewrite contains_before by done. rewrite contains_before by done. rewrite H2. cbn [orb].
    apply (contains_absent "D"); [done|]. rewrite contains_char_app. apply andb_true_iff in Hid as [_ Hid].
    rewrite (str_forall_absent uuid_byte "D" id) by done. reflexivity.
  - unfold line. rewrite <-(str_app_assoc "    "). apply request_id_found; [|done].
    change ("    " +:+ said) with ("   " +:+ String " " said). rewrite contains_before by done. done.
Qed.

Lemma git_log_read sha device said id device_id :
  sha <> "" -> str_forall is_hexdigit sha = true -> str_forall visible device = true -> plain device ->
  plain said -> uuid_text id = true ->
  parse_device_log_auto (git_log sha device (said +:+ " request.id=" +:+ id)) device_id =
  [{| dc_device_id := device; dc_commit_sha := sha; dc_request_id := id |}].
Proof.
  intros Hne Hsha Hdev (Hd1&Hd2&Hd3) Hsaid Hid. destruct (comment_line said id Hsaid Hid) as (Hc&Hnd&Hreq).
  assert (Hvis := str_forall_impl _ _ _ hex_visible Hsha).
  set (line := "    " +:+ said +:+ _) in *.
  set (first := "commit " +:+ sha). set (second := "Device: " +:+ device).
  assert (Forall clean [first; second; line]) as Hcl.
  { constructor; [|constructor; [|constructor; [exact Hc|constructor]]].
    all: apply clean_app; [by vm_compute; repeat constructor|]; by apply visible_clean. }
  unfold parse_device_log_auto, git_log. fold line first second. unfold detect_format. rewrite lines_log_of by done.
  assert (git_commit_line first = true) as Hg.
  { unfold git_commit_line, first. rewrite (proj2 (strip_prefix_Some _ _ sha)) by done.
    rewrite trim_visible, Hsha by done. by destruct sha. }
  cbn [fmap list_fmap take existsb]. rewrite String.string_of_list_ascii_of_string, Hg. cbn [orb].
  unfold parse_device_log_with_format, parse_device_log. rewrite text_lines_log_of by done. cbn [foldl].
  assert (git_line {| gl_sha := None; gl_device := None; gl_commits := [] |} first
          = {| gl_sha := Some sha; gl_device := None; gl_commits := [] |}) as ->.
  { unfold git_line. rewrite (proj2 (strip_prefix_Some _ _ sha)) by done. rewrite trim_visible by done.
    assert (contains_str "Device:" first = false) as ->; [|done].
    apply (contains_absent "v"); [done|]. unfold first.
    rewrite contains_char_app, (str_forall_absent is_hexdigit "v" sha) by done. done. }
  assert (git_line {| gl_sha := Some sha; gl_device := None; gl_commits := [] |} second
          = {| gl_sha := Some sha; gl_device := Some device; gl_commits := [] |}) as ->.
  { unfold git_line. change (strip_prefix "commit " second) with (@None string). cbn zeta iota beta.
    change second with ("Device:" +:+ String " " device). rewrite contains_here. unfold split_str.
    rewrite split_here, split_none.
    - rewrite request_id_none by (rewrite contains_before by done; exact Hd1).
      cbn [lookup list_lookup gl_sha gl_commits]. by rewrite str_app_nil, trim_space.
    - change (String " " device) with ("" +:+ String " " device). rewrite contains_before by done. exact Hd2. }
  unfold git_line. change (strip_prefix "commit " line) with (@None string). by rewrite Hnd, Hreq.
Qed.

Lemma contains_mid p x y : contains_str p (x +:+ p +:+ y) = true.
Proof.
  induction x as [|c x IH]; [rewrite str_app_nil; apply contains_here|]. rewrite str_app_cons. cbn [contains_str].
  by rewrite IH, orb_true_r.
Qed.

Definition printable (c : ascii) : bool := visible c || Ascii.eqb c " ".

Lemma printable_blank y c z :
  str_forall printable y = true -> visible c = true -> is_blank (y +:+ String c z) = false.
Proof.
  intros Hy Hc. unfold is_blank. induction y as [|d y IH]; [rewrite str_app_nil; cbn [blank_from]; by rewrite visible_width|].
  cbn [str_forall] in Hy. apply andb_true_iff in Hy as [Hd Hy]. rewrite str_app_cons.
  unfold printable in Hd. destruct (visible d) eqn:Hv; [cbn [blank_from]; by rewrite visible_width|].
  cbn in Hd. apply Ascii.eqb_eq in Hd as ->. cbn [blank_from]. exact (IH Hy).
Qed.

Lemma trim_end_printable y c d s :
  str_forall printable y = true -> visible c = true -> str_forall visible d = true -> is_blank s = true ->
  trim_end_blank (y +:+ String c (d +:+ s)) = y +:+ String c d.
Proof.
  intros Hy Hc Hd Hs. induction y as [|e y IH].
  - rewrite !str_app_nil, <-(str_app_cons c d s), trim_end_visible; [done| |done]. cbn. by rewrite Hc.
  - cbn [str_forall] in Hy. apply andb_true_iff in Hy as [He Hy]. rewrite !str_app_cons. cbn [trim_end_blank].
    assert (is_blank (String e (y +:+ String c (d +:+ s))) = false) as ->.
    { rewrite <-str_app_cons. apply printable_blank; [cbn; by rewrite He|done]. }
    by rewrite IH.
Qed.

Definition date_byte (c : ascii) : bool := is_ascii_digit c || Ascii.eqb c "-".
Definition time_byte (c : ascii) : bool := is_ascii_digit c || Ascii.eqb c ":".
Definition stamp_byte (c : ascii) : bool := date_byte c || time_byte c.

Lemma stamp_visible c : stamp_byte c = true -> visible c = true.
Proof. destruct c as [[] [] [] [] [] [] [] []]; vm_compute; congruence. Qed.

Lemma visible_printable c : visible c = true -> printable c = true.
Proof. unfold printable. by intros ->. Qed.

Lemma timestamp_found date time rest :
  str_forall stamp_byte date = true -> str_forall stamp_byte time = true ->
  contains_char "-" date = true -> contains_char ":" time = true ->
  extract_junos_timestamp ("0   " +:+ date +:+ " " +:+ time +:+ " UTC" +:+ rest) = Some (date +:+ "T" +:+ time +:+ "Z").
Proof.
  intros Hd Ht Hm Hc. pose proof (str_forall_impl _ _ _ stamp_visible Hd) as Hvd.
  pose proof (str_forall_impl _ _ _ stamp_visible Ht) as Hvt.
  set (before := "0   " +:+ date +:+ " " +:+ time).
  assert ("0   " +:+ date +:+ " " +:+ time +:+ " UTC" +:+ rest = before +:+ String " " ("UTC" +:+ rest)) as ->
    by (unfold before; by rewrite !str_app_assoc).
  unfold extract_junos_timestamp. rewrite contains_before by done. rewrite contains_here, orb_true_r.
  unfold split_str. rewrite split_before; [|done|done|].
  2: { apply (contains_absent "U"); [done|]. unfold before. rewrite !contains_char_app.
       rewrite (str_forall_absent stamp_byte "U" date), (str_forall_absent stamp_byte "U" time) by done. done. }
  rewrite split_here. cbn [head mbind option_bind]. rewrite str_app_nil.
  assert (trim (before +:+ String " " "") = before) as ->.
  { unfold trim, before. change (trim_start_from 0 (("0   " +:+ ?x) +:+ ?y)) with (("0   " +:+ x) +:+ y).
    destruct time as [|c time]; [discriminate Hc|]. cbn [str_forall] in Hvt. apply andb_true_iff in Hvt as [Hvc Hvt].
    rewrite <-!(str_app_assoc _ _ (String c time)), (str_app_assoc _ (String c time)), str_app_cons.
    apply trim_end_printable; [|done|done|done].
    assert (forall a b, str_forall printable a = true -> str_forall printable b = true ->
      str_forall printable (a +:+ b) = true) as Happ.
    { intros a b Ha Hb. induction a as [|e a IH]; [by rewrite str_app_nil|]. rewrite str_app_cons. cbn in Ha |- *.
      apply andb_true_iff in Ha as [-> Ha]. auto. }
    change (String "0" ("   " +:+ date +:+ " ")) with ("0   " +:+ date +:+ " ").
    apply Happ; [done|]. apply Happ; [by apply (str_forall_impl _ _ _ visible_printable)|done]. }
  assert (split_whitespace before = ["0"; date; time]) as ->.
  { unfold split_whitespace, before. change (words_from 0 "" ("0   " +:+ ?x)) with ("0" :: words_from 0 "" x).
    rewrite words_from_visible by done. change (words_from 0 ?w (" " +:+ ?x)) with
      ((if is_empty_str w then [] else [w]) ++ words_from 0 "" x).
    rewrite <-(str_app_nil_r time) at 1. rewrite words_from_visible, !str_app_nil by done. cbn.
    destruct date; [discriminate Hm|]. by destruct time. }
  cbn. by rewrite Hm, Hc.
Qed.

Lemma junos_log_read date time by_ said id device :
  str_forall stamp_byte date = true -> str_forall stamp_byte time = true ->
  contains_char "-" date = true -> contains_char ":" time = true -> clean by_ ->
  plain said -> uuid_text id = true ->
  parse_device_log_auto (junos_log date time by_ (said +:+ " request.id=" +:+ id)) (Some device) =
  [{| dc_device_id := device; dc_commit_sha := date +:+ "T" +:+ time +:+ "Z"; dc_request_id := id |}].
Proof.
  intros Hd Ht Hm Hc Hby Hsaid Hid. destruct (comment_line said id Hsaid Hid) as (Hcl&_&Hreq).
  set (line := "    " +:+ said +:+ _) in *.
  set (first := "0   " +:+ date +:+ " " +:+ time +:+ " UTC by " +:+ by_).
  assert (Forall clean [first; line]) as Hall.
  { constructor; [|constructor; [exact Hcl|constructor]].
    assert (clean date /\ clean time) as [? ?]
      by (split; by apply visible_clean, (str_forall_impl _ _ _ stamp_visible)).
    unfold first. repeat (apply clean_app; [by first [done | vm_compute; repeat constructor]|]). done. }
  assert (junos_commit_line first = true) as Hj.
  { unfold junos_commit_line. change (trim_start_from 0 first) with first.
    change (starts_with_digit first) with true. cbn [andb]. apply orb_true_iff. left.
    assert (first = ("0   " +:+ date +:+ " " +:+ time +:+ " ") +:+ "UTC by" +:+ " " +:+ by_) as ->
      by (unfold first; by rewrite !str_app_assoc).
    apply contains_mid. }
  unfold parse_device_log_auto, junos_log. fold line first. unfold detect_format. rewrite lines_log_of by done.
  cbn [fmap list_fmap take existsb]. rewrite !String.string_of_list_ascii_of_string, Hj.
  change (git_commit_line first) with false. change (git_commit_line line) with false. cbn [orb].
  unfold parse_device_log_with_format, parse_junos_native_log. rewrite text_lines_log_of by done.
  change (default "unknown" (Some device)) with device. cbn [foldl].
  assert (extract_junos_timestamp first = Some (date +:+ "T" +:+ time +:+ "Z")) as Hts.
  { unfold first. change (" UTC by " +:+ by_) with (" UTC" +:+ " by " +:+ by_). by apply timestamp_found. }
  assert (junos_line device {| jl_timestamp := None; jl_in_comment := false; jl_commits := [] |} first
          = {| jl_timestamp := Some (date +:+ "T" +:+ time +:+ "Z"); jl_in_comment := false; jl_commits := [] |}) as Hf.
  { unfold junos_line. rewrite Hts. reflexivity. }
  rewrite Hf. unfold junos_line. change (starts_with " " line) with true. cbn [negb andb].
  by rewrite Hreq.
Qed.

(** Provenance comes back: the identifier of the request that a commit
    comment carries is the one the verifier's reader finds, in a backup's git
    log with the commit and device it belongs to, and in Junos's own log with
    its time, if neither the operator's comment nor the agent's identity looks
    like a field of the log. *)
Theorem commit_comment_round_trip lower comment a agent sha device date time by_ :
  attr_agent a = Some agent -> uuid_text (attr_request_id a) = true ->
  plain (provenance_string lower agent (attr_on_behalf_of a)) ->
  (forall c, comment = Some c -> plain (trim c)) ->
  sha <> "" -> str_forall is_hexdigit sha = true -> str_forall visible device = true -> plain device ->
  str_forall stamp_byte date = true -> str_forall stamp_byte time = true ->
  contains_char "-" date = true -> contains_char ":" time = true -> clean by_ ->
  exists line, commit_line lower comment a = Some line /\
    parse_device_log_auto (git_log sha device line) None =
      [{| dc_device_id := device; dc_commit_sha := sha; dc_request_id := attr_request_id a |}] /\
    parse_device_log_auto (junos_log date time by_ line) (Some device) =
      [{| dc_device_id := device; dc_commit_sha := date +:+ "T" +:+ time +:+ "Z";
          dc_request_id := attr_request_id a |}].
Proof.
  intros Ha Hid Hp Hc ? ? ? ? ? ? ? ? ?.
  destruct (commit_line_shape lower comment a agent Ha Hid Hp Hc) as (said&Hl&Hsaid).
  exists (said +:+ " request.id=" +:+ attr_request_id a).
  split; [done|]. split; [by apply git_log_read|by apply junos_log_read].
Qed.
