(* ===== verification/Verify.v ===== *)
(** * The verifier (crates/mecmcp-audit/src/bin/mecmcp-verify.rs)

    What [mecmcp-verify] reads, in what order it checks, and what it reports.
    A run the recorder wrote passes; and what passes is what was recorded: of
    the history the manifest names, at most records at its beginning can be
    missing, unless SHA-256 collides. *)

From S2P Require Import Prelude Externals Json Text Canonical Evidence Recorder Spool Pipeline DeviceLog.
From Stdlib Require Import Ascii.

Open Scope list_scope.

Record SegmentManifest := { sm_segment_seq : N; sm_final_seq : N; sm_head_hash : string }.

Record ServerManifest := { svm_server_id : string; svm_segments : list SegmentManifest }.

Record RunManifest := { rm_run_id : string; rm_cutoff : string; rm_servers : list ServerManifest }.

Inductive Violation :=
| MissingServerChain (server_id : string)
| MissingSegment (server_id : string) (segment_seq : N)
| RecordHashMismatch (server_id : string) (segment_seq : N) (record_index : nat) (expected actual : string)
| SegmentChainBreak (server_id : string) (segment_seq : N) (expected_prev actual_prev : string)
| HeadHashMismatch (server_id : string) (segment_seq : N) (expected actual : string)
| SignatureVerificationFailed (server_id : string) (segment_seq : N) (pubkey_name error : string)
| OrphanedDeviceCommit (device_id commit_sha request_id : string)
| OrphanedAuditRecord (server_id request_id : string)
| DuplicateSegmentSeq (server_id : string) (segment_seq : N).

Record Summary := {
  servers_verified : nat;
  segments_verified : nat;
  records_verified : nat;
  device_commits_checked : nat;
}.

Record VerificationResult := { vr_passed : bool; vr_violations : list Violation; vr_summary : Summary }.

(** [serde_json::from_str] of the manifest. *)
Class ManifestText := { parse_manifest : string -> result RunManifest string }.

(** The files given to the verifier: a file is its bytes or the error of
    reading it, and a name that is not there is not in the directory. *)
Definition file : Type := result file_bytes string.

Record Input := {
  in_manifest : file;
  in_chains : gmap string file;
  in_pubkeys : list (string * KeyFile);
  in_device_log : option file;
}.

(** [std::fs::read_to_string]. *)
Definition read_to_string (f : file) : result string string :=
  let? data := f in
  ensure valid_text data else "stream did not contain valid UTF-8";
  Ok (String.string_of_list_ascii data).

(** ** File names *)

(** Before and after the last dot. *)
Fixpoint rsplit_dot (s : string) : option (string * string) :=
  match s with
  | EmptyString => None
  | String c s =>
      match rsplit_dot s with
      | Some (before, after) => Some (String c before, after)
      | None => if Ascii.eqb c "." then Some ("", s) else None
      end
  end.

(** [Path::file_stem] and [Path::extension] of a file name. *)
Definition stem_and_extension (name : string) : string * option string :=
  if String.eqb name ".." then (name, None) else
  match rsplit_dot name with
  | Some (EmptyString, _) | None => (name, None)
  | Some (before, after) => (before, Some after)
  end.

Section verify.
Context `{Externals} `{JsonStrings} `{KeyBytes} `{LineCodec ClosedSegment} `{ManifestText}.

(** ** Chain files *)

Definition seq_le (a b : ClosedSegment) : Prop := (cl_segment_seq a <= cl_segment_seq b)%N.

#[local] Instance seq_le_dec : RelDecision seq_le.
Proof. intros a b. unfold seq_le. apply _. Defined.

(** The first number that follows itself. *)
Fixpoint repeated_seq (segments : list ClosedSegment) : option N :=
  match segments with
  | a :: (b :: _) as l => if (cl_segment_seq b =? cl_segment_seq a)%N then Some (cl_segment_seq b) else repeated_seq l
  | _ => None
  end.

Definition load_chain_segments (f : file) (run_id : string) : result (list ClosedSegment) string :=
  let? data := f in
  let? all := read_items (fun e => e) (fun e => e) (lines data) in
  let segments := merge_sort seq_le (List.filter (fun s => String.eqb (cl_run_id s) run_id) all) in
  match repeated_seq segments with
  | Some seq => Err ("Duplicate segment_seq " +:+ pretty seq)
  | None => Ok segments
  end.

Definition chain_file (server_id : string) : string := server_id +:+ ".jsonl".

(** The chains of the servers in the manifest, and what is wrong with those
    that are not there.  The cause is told by the text of the error. *)
Fixpoint load_chains (run_id : string) (chains : gmap string file) (servers : list ServerManifest)
  (violations : list Violation) (loaded : gmap string (list ClosedSegment)) :
  result (list Violation * gmap string (list ClosedSegment)) string :=
  match servers with
  | [] => Ok (violations, loaded)
  | sm :: servers =>
      let server_id := svm_server_id sm in
      match chains !! chain_file server_id with
      | None => load_chains run_id chains servers (violations ++ [MissingServerChain server_id]) loaded
      | Some f =>
          match load_chain_segments f run_id with
          | Err e =>
              match dup ← strip_prefix "Duplicate segment_seq " e; parse_u64 dup with
              | Some seq =>
                  load_chains run_id chains servers (violations ++ [DuplicateSegmentSeq server_id seq]) loaded
              | None => Err e
              end
          | Ok segments =>
              match svm_segments sm, segments with
              | _ :: _, [] => load_chains run_id chains servers (violations ++ [MissingServerChain server_id]) loaded
              | _, _ => load_chains run_id chains servers violations (<[server_id := segments]> loaded)
              end
          end
      end
  end.

Fixpoint load_pubkeys (entries : list (string * KeyFile)) (keys : gmap string VerifyingKey) :
  result (gmap string VerifyingKey) string :=
  match entries with
  | [] => Ok keys
  | (name, f) :: entries =>
      match stem_and_extension name with
      | (stem, Some ext) =>
          if String.eqb ext "pub" then
            let? key := map_err signing_error_text (load_verifying_key f) in
            load_pubkeys entries (<[stem := key]> keys)
          else load_pubkeys entries keys
      | _ => load_pubkeys entries keys
      end
  end.

(** ** Records *)

(** A record without its envelope. *)
Definition cleared (r : EvidenceRecord) : EvidenceRecord :=
  let f := facts r in
  with_facts {| ev_request_id := ev_request_id f; ev_changeset_id := ev_changeset_id f;
                ev_device_id := ev_device_id f; ev_principal := ev_principal f;
                ev_diff_hash := ev_diff_hash f; ev_timestamp := ev_timestamp f;
                ev_run_id := ""; ev_server_id := ""; ev_segment_seq := 0; ev_prev_hash := "";
                ev_metadata := ev_metadata f |} r.

Fixpoint append_again (s : ClosedSegment) (index : nat) (records : list EvidenceRecord) (seg : ChainSegment) :
  result ChainSegment Violation :=
  match records with
  | [] => Ok seg
  | r :: records =>
      match chain_append seg (cleared r) with
      | (Ok _, seg) => append_again s (S index) records seg
      | (Err _, _) =>
          Err (RecordHashMismatch (cl_server_id s) (cl_segment_seq s) index "unknown" "envelope_mismatch")
      end
  end.

Definition verify_segment_records (s : ClosedSegment) : result unit Violation :=
  let? seg := append_again s 0 (cl_records s)
                (chain_segment_new (cl_run_id s) (cl_server_id s) (cl_segment_seq s) (cl_prev_hash s)) in
  let? closed := map_err (fun _ => RecordHashMismatch (cl_server_id s) (cl_segment_seq s) 0 (cl_head_hash s)
                                     "close_failed") (close seg) in
  ensure String.eqb (cl_head_hash closed) (cl_head_hash s)
    else (RecordHashMismatch (cl_server_id s) (cl_segment_seq s) 0 (cl_head_hash s) (cl_head_hash closed));
  Ok tt.

(** ** One server *)

(** The segments the manifest expects: what is wrong, how many are there, and
    with how many records. *)
Fixpoint check_manifest (server_id : string) (segments : list ClosedSegment) (expected : list SegmentManifest) :
  list Violation * nat * nat :=
  match expected with
  | [] => ([], 0, 0)
  | m :: expected =>
      let '(violations, found, records) := check_manifest server_id segments expected in
      match List.find (fun s => (cl_segment_seq s =? sm_segment_seq m)%N) segments with
      | None => (MissingSegment server_id (sm_segment_seq m) :: violations, found, records)
      | Some s =>
          ((if String.eqb (cl_head_hash s) (sm_head_hash m) then []
            else [HeadHashMismatch server_id (cl_segment_seq s) (sm_head_hash m) (cl_head_hash s)]) ++ violations,
           S found, length (cl_records s) + records)
      end
  end.

Fixpoint check_links (server_id : string) (segments : list ClosedSegment) : list Violation :=
  match segments with
  | prev :: (curr :: _) as l =>
      (if String.eqb (cl_prev_hash curr) (cl_head_hash prev) then []
       else [SegmentChainBreak server_id (cl_segment_seq curr) (cl_head_hash prev) (cl_prev_hash curr)])
      ++ check_links server_id l
  | _ => []
  end.

Definition check_records (segments : list ClosedSegment) : list Violation :=
  segments ≫= fun s => match verify_segment_records s with Ok _ => [] | Err v => [v] end.

Definition sig_file (server_id : string) (seq : N) : string :=
  server_id +:+ "_seg" +:+ pretty seq +:+ ".sig".

Definition check_signature (server_id : string) (key : VerifyingKey) (s : ClosedSegment) (encoded : string) :
  list Violation :=
  let failed e := [SignatureVerificationFailed server_id (cl_segment_seq s) server_id e] in
  match decode_signature encoded with
  | Ok signature => match verify_head s signature key with
                    | Ok _ => []
                    | Err e => failed (signing_error_text e)
                    end
  | Err e => failed ("Invalid signature encoding: " +:+ signing_error_text e)
  end.

(** The signature in the segment, or else in a file beside the chain. *)
Fixpoint check_signatures (server_id : string) (chains : gmap string file) (key : VerifyingKey)
  (segments : list ClosedSegment) : result (list Violation) string :=
  match segments with
  | [] => Ok []
  | s :: segments =>
      let? here :=
        match cl_signature s with
        | Some embedded => Ok (check_signature server_id key s embedded)
        | None =>
            match chains !! sig_file server_id (cl_segment_seq s) with
            | None => Ok [SignatureVerificationFailed server_id (cl_segment_seq s) server_id "Signature file not found"]
            | Some f => let? text := read_to_string f in Ok (check_signature server_id key s (trim text))
            end
        end in
      let? rest := check_signatures server_id chains key segments in
      Ok (here ++ rest)
  end.

Definition check_server (chains : gmap string file) (keys : gmap string VerifyingKey) (sm : ServerManifest)
  (segments : list ClosedSegment) : result (list Violation * nat * nat) string :=
  let server_id := svm_server_id sm in
  let '(completeness, found, records) := check_manifest server_id segments (svm_segments sm) in
  let? signatures := match keys !! server_id with
                     | Some key => check_signatures server_id chains key segments
                     | None => Ok []
                     end in
  Ok (completeness ++ check_links server_id segments ++ check_records segments ++ signatures, found, records).

Fixpoint check_servers (chains : gmap string file) (keys : gmap string VerifyingKey)
  (loaded : gmap string (list ClosedSegment)) (servers : list ServerManifest) :
  result (list Violation * nat * nat) string :=
  match servers with
  | [] => Ok ([], 0, 0)
  | sm :: servers =>
      let? one := match loaded !! svm_server_id sm with
                  | Some segments => check_server chains keys sm segments
                  | None => Ok ([], 0, 0)
                  end in
      let? rest := check_servers chains keys loaded servers in
      let '(v, found, records) := one in
      let '(v', found', records') := rest in
      Ok (v ++ v', found + found', records + records')
  end.

(** ** Device logs *)

Definition request_id (r : EvidenceRecord) : string := ev_request_id (facts r).

(** The chains come in the order of a hash map; only the order of the reports
    depends on it. *)
Definition verify_device_join (log : file) (device_id : option string)
  (loaded : gmap string (list ClosedSegment)) : result (list Violation * nat) string :=
  let? content := read_to_string log in
  let commits := parse_device_log_auto (String.list_ascii_of_string content) device_id in
  let recorded := map_to_list loaded ≫= fun chain =>
    (fun r => (chain.1, request_id r)) <$> (chain.2 ≫= cl_records) in
  let orphan_commits := List.filter (fun c => negb (bool_decide (dc_request_id c ∈ recorded.*2))) commits in
  let orphan_records := List.filter (fun x => negb (bool_decide (x.2 ∈ dc_request_id <$> commits))) recorded in
  Ok (((fun c => OrphanedDeviceCommit (dc_device_id c) (dc_commit_sha c) (dc_request_id c)) <$> orphan_commits)
      ++ ((fun x => OrphanedAuditRecord x.1 x.2) <$> orphan_records), length commits).

(** ** The whole run *)

Fixpoint check_server_ids (servers : list ServerManifest) : result unit string :=
  match servers with
  | [] => Ok tt
  | sm :: servers =>
      check? map_err (fun e => "Invalid server_id in manifest: " +:+ e) (validate_server_id (svm_server_id sm));
      check_server_ids servers
  end.

Definition verify_run (run_id : string) (device_id : option string) (i : Input) :
  result VerificationResult string :=
  let? manifest_json := read_to_string (in_manifest i) in
  let? manifest := parse_manifest manifest_json in
  ensure String.eqb (rm_run_id manifest) run_id
    else ("Manifest run_id '" +:+ rm_run_id manifest +:+ "' doesn't match requested run_id '" +:+ run_id +:+ "'");
  check? check_server_ids (rm_servers manifest);
  let expected := sum_list ((fun sm => length (svm_segments sm)) <$> rm_servers manifest) in
  let? chains := load_chains run_id (in_chains i) (rm_servers manifest) [] ∅ in
  let '(violations, loaded) := chains in
  let? keys := load_pubkeys (in_pubkeys i) ∅ in
  let? checked := check_servers (in_chains i) keys loaded (rm_servers manifest) in
  let '(found_wrong, segments, records) := checked in
  let violations := violations ++ found_wrong in
  let? join := match in_device_log i with
               | Some log => verify_device_join log device_id loaded
               | None => Ok ([], 0)
               end in
  let violations := violations ++ join.1 in
  ensure negb (bool_decide (violations = []) && (segments <? expected)%nat)
    else ("Verification invariant violated: loaded " +:+ pretty (N.of_nat segments)
          +:+ " segments but manifest expects " +:+ pretty (N.of_nat expected));
  Ok {| vr_passed := bool_decide (violations = []); vr_violations := violations;
        vr_summary := {| servers_verified := length (rm_servers manifest); segments_verified := segments;
                         records_verified := records; device_commits_checked := join.2 |} |}.

End verify.

(** ** Recomputing a segment *)

Section recomputing.
Context `{Externals} `{JL : JsonStringsLaws}.
Implicit Types s : ClosedSegment.
Implicit Types r : EvidenceRecord.

Lemma facts_cleared r : facts (cleared r) = {|
  ev_request_id := ev_request_id (facts r); ev_changeset_id := ev_changeset_id (facts r);
  ev_device_id := ev_device_id (facts r); ev_principal := ev_principal (facts r);
  ev_diff_hash := ev_diff_hash (facts r); ev_timestamp := ev_timestamp (facts r);
  ev_run_id := ""; ev_server_id := ""; ev_segment_seq := 0; ev_prev_hash := "";
  ev_metadata := ev_metadata (facts r) |}.
Proof. apply facts_with. Qed.

Lemma envelope_again seg prev r :
  enveloped (sg_run_id seg) (sg_server_id seg) (sg_segment_seq seg) r -> ev_prev_hash (facts r) = prev ->
  with_facts (set_envelope seg prev (facts (cleared r))) (cleared r) = r.
Proof.
  intros (E1&E2&E3) <-. unfold set_envelope. rewrite <-E1, <-E2, <-E3, facts_cleared.
  by destruct r as [[]|[] ? ?|[]|[] ? ?].
Qed.

Lemma cleared_envelope seg prev r : cleared (with_facts (set_envelope seg prev (facts (cleared r))) (cleared r)) = cleared r.
Proof. by destruct r. Qed.

(** What is recomputed has the records up to their envelopes, linked. *)
Lemma append_again_linked s i rs seg seg' :
  append_again s i rs seg = Ok seg' ->
  exists rs', cleared <$> rs' = cleared <$> rs /\ linked (seg_head seg) rs' (seg_head seg').
Proof.
  revert i seg. induction rs as [|r rs IH]; intros i seg; cbn [append_again]; [intros [= <-]; by exists []|].
  destruct (chain_append seg (cleared r)) as [[h|e] seg1] eqn:Ha; [|done]. intros Hr.
  apply chain_append_Ok in Ha as [Hh ->]. apply IH in Hr as (rs'&Hrs&Hl).
  eexists (_ :: rs'). split; [rewrite !fmap_cons, Hrs, cleared_envelope; done|].
  cbn [linked]. split; [by rewrite facts_with|]. by exists h.
Qed.

Lemma verified_segment_linked s :
  verify_segment_records s = Ok tt ->
  exists rs', cleared <$> rs' = cleared <$> cl_records s /\ linked (cl_prev_hash s) rs' (cl_head_hash s).
Proof.
  unfold verify_segment_records. intros (seg&Ha&Hr)%result_bind_Ok. cbn [close map_err result_bind cl_head_hash] in Hr.
  destruct (String.eqb_spec (seg_head seg) (cl_head_hash s)) as [<-|]; [|done].
  by apply append_again_linked in Ha.
Qed.

(** Records that carry the envelope are recomputed as they are. *)
Lemma append_again_same s i rs seg head :
  linked (seg_head seg) rs head ->
  Forall (enveloped (sg_run_id seg) (sg_server_id seg) (sg_segment_seq seg)) rs ->
  exists seg', append_again s i rs seg = Ok seg' /\ seg_head seg' = head.
Proof.
  revert i seg. induction rs as [|r rs IH]; intros i seg; cbn [append_again linked]; [intros -> _; by exists seg|].
  intros (Hp&h&Hh&Hl) [Hv Hvs]%Forall_cons.
  assert (chain_append seg (cleared r) =
    (Ok h, {| sg_run_id := sg_run_id seg; sg_server_id := sg_server_id seg; sg_segment_seq := sg_segment_seq seg;
              sg_prev_hash := sg_prev_hash seg; sg_records := sg_records seg ++ [r]; sg_last_hash := Some h |})) as ->.
  { unfold chain_append, validate_and_inject. rewrite !facts_cleared.
    cbn [ev_run_id ev_server_id ev_segment_seq ev_prev_hash is_empty_str orb N.eqb result_bind].
    rewrite <-(facts_cleared r), (envelope_again seg) by done. rewrite compute_record_hash_eq by done. by rewrite Hh. }
  apply IH; [done|]. exact Hvs.
Qed.

End recomputing.

(** ** Loading a chain *)

Section loading.
Context `{LineCodec ClosedSegment}.
Implicit Types s : ClosedSegment.

(** Numbered upwards. *)
Definition ascending (l : list ClosedSegment) : Prop :=
  forall i j s s', l !! i = Some s -> l !! j = Some s' -> i < j -> (cl_segment_seq s < cl_segment_seq s')%N.

Lemma repeated_ascending l : StronglySorted seq_le l -> repeated_seq l = None -> ascending l.
Proof.
  induction 1 as [|a l Hl IH Ha]; [intros _ ? ? ? ? Hi; by rewrite lookup_nil in Hi|].
  intros Hr. assert (repeated_seq l = None /\ forall b, head l = Some b -> cl_segment_seq b <> cl_segment_seq a) as [Hr' Hne].
  { destruct l as [|b l]; [done|]. cbn [repeated_seq] in Hr. destruct (N.eqb_spec (cl_segment_seq b) (cl_segment_seq a)); [done|].
    split; [done|]. by intros ? [= <-]. }
  specialize (IH Hr'). intros [|i] [|j] s s' Hi Hj Hlt; [lia| |lia|by eapply (IH i j); [..|lia]].
  injection Hi as <-. change (l !! j = Some s') in Hj. rewrite Forall_forall in Ha. assert (Hs' := Ha s' (list_elem_of_lookup_2 _ _ _ Hj)).
  unfold seq_le in Hs'. destruct l as [|b l]; [done|]. specialize (Hne b eq_refl).
  assert (Hb := Ha b (list_elem_of_here _ _)). unfold seq_le in Hb.
  destruct j as [|j]; [injection Hj as <-; lia|]. specialize (IH 0 (S j) b s' eq_refl Hj). lia.
Qed.

Lemma load_chain_ascending f run_id segments :
  load_chain_segments f run_id = Ok segments -> ascending segments.
Proof.
  unfold load_chain_segments. intros (data&_&Hr)%result_bind_Ok. apply result_bind_Ok in Hr as (all&_&Hr).
  destruct (repeated_seq _) eqn:E; [done|]. injection Hr as <-. apply repeated_ascending; [|done].
  apply StronglySorted_merge_sort; [intros a b c; unfold seq_le; lia|intros a b; unfold seq_le; lia].
Qed.

(** Numbers from zero stand where they say. *)
Lemma ascending_positions l n :
  ascending l -> (forall k, k < n -> exists s, s ∈ l /\ cl_segment_seq s = N.of_nat k) ->
  forall k, k < n -> exists s, l !! k = Some s /\ cl_segment_seq s = N.of_nat k.
Proof.
  intros Ha Hall. assert (forall p s, l !! p = Some s -> (N.of_nat p <= cl_segment_seq s)%N) as Hge.
  { induction p as [|p IH]; intros s Hp; [lia|].
    destruct (lookup_lt_is_Some_2 l p) as [s0 Hs0]; [apply lookup_lt_Some in Hp; lia|].
    specialize (IH _ Hs0). specialize (Ha p (S p) s0 s Hs0 Hp). lia. }
  intros k. induction (lt_wf k) as [k _ IH]. intros Hk. destruct (Hall k Hk) as (s&[p Hp]%list_elem_of_lookup&Hs).
  assert (p <= k) by (specialize (Hge _ _ Hp); lia). destruct (decide (p = k)) as [->|]; [by exists s|].
  destruct (IH p) as (s'&Hp'&Hs'); [lia|lia|]. rewrite Hp in Hp'. injection Hp' as <-. lia.
Qed.

End loading.

(** ** What no violation means *)

Section no_violation.
Context `{Externals} `{JL : JsonStringsLaws} `{KeyBytes} `{LineCodec ClosedSegment}.
Implicit Types s : ClosedSegment.

Lemma load_chains_clean run_id chains servers vs loaded loaded' :
  load_chains run_id chains servers vs loaded = Ok ([], loaded') ->
  vs = [] /\
  (forall id, id ∈ svm_server_id <$> servers ->
     exists f segments, chains !! chain_file id = Some f /\ load_chain_segments f run_id = Ok segments /\
       loaded' !! id = Some segments) /\
  (forall id, id ∉ svm_server_id <$> servers -> loaded' !! id = loaded !! id).
Proof.
  revert vs loaded. induction servers as [|sm servers IH]; intros vs loaded; cbn [load_chains].
  { intros [= -> ->]. split; [done|]. split; [by intros id Hid; apply not_elem_of_nil in Hid|done]. }
  assert (forall v l, load_chains run_id chains servers (vs ++ [v]) l = Ok ([], loaded') -> False) as Hbad.
  { intros v l Hl. apply IH in Hl as [Hv _]. by destruct vs. }
  destruct (chains !! _) as [f|] eqn:Hf; [|intros []%Hbad].
  destruct (load_chain_segments f run_id) as [segments|e] eqn:Hl.
  - intros Hr. assert (load_chains run_id chains servers vs (<[svm_server_id sm:=segments]> loaded) = Ok ([], loaded')) as Hr'.
    { destruct (svm_segments sm), segments; (done || by apply Hbad in Hr). }
    apply IH in Hr' as (->&Hin&Hout). split; [done|]. split.
    + intros id. rewrite fmap_cons, elem_of_cons. intros Hid.
      destruct (decide (id ∈ svm_server_id <$> servers)) as [|Hn]; [by apply Hin|].
      destruct Hid as [->|]; [|done]. exists f, segments. rewrite Hout by done. by rewrite lookup_insert_eq.
    + intros id. rewrite fmap_cons, not_elem_of_cons. intros [Hne Hn]. rewrite Hout by done. by rewrite lookup_insert_ne.
  - destruct (strip_prefix _ e ≫= parse_u64); [intros []%Hbad|done].
Qed.

Lemma check_servers_clean chains keys loaded servers found records sm segments :
  check_servers chains keys loaded servers = Ok ([], found, records) -> sm ∈ servers ->
  loaded !! svm_server_id sm = Some segments ->
  exists found' records', check_server chains keys sm segments = Ok ([], found', records').
Proof.
  revert found records. induction servers as [|sm' servers IH]; intros found records Hc Hin Hl; [by apply not_elem_of_nil in Hin|].
  cbn [check_servers] in Hc. apply result_bind_Ok in Hc as ([[v f] r]&Hone&Hc).
  apply result_bind_Ok in Hc as ([[v' f'] r']&Hrest&Hc). injection Hc as Hv _ _. apply app_eq_nil in Hv as [-> ->].
  apply elem_of_cons in Hin as [->|Hin]; [|by eapply IH]. rewrite Hl in Hone. by eauto.
Qed.

Lemma check_manifest_clean server_id segments expected found records m :
  check_manifest server_id segments expected = ([], found, records) -> m ∈ expected ->
  exists s, s ∈ segments /\ cl_segment_seq s = sm_segment_seq m /\ cl_head_hash s = sm_head_hash m.
Proof.
  revert found records. induction expected as [|m' expected IH]; intros found records Hc Hin; [by apply not_elem_of_nil in Hin|].
  cbn [check_manifest] in Hc. destruct (check_manifest server_id segments expected) as [[v f] r] eqn:E.
  destruct (List.find _ segments) as [s|] eqn:Hf; [|done]. injection Hc as Hv _ _. apply app_eq_nil in Hv as [Hh ->].
  apply elem_of_cons in Hin as [->|Hin]; [|by eapply IH].
  apply List.find_some in Hf as [Hs%list_elem_of_In Hq%N.eqb_eq]. exists s. split_and!; [done|done|].
  by destruct (String.eqb_spec (cl_head_hash s) (sm_head_hash m')).
Qed.

(** Checked segments are one chain. *)
Lemma checked_linked server_id segments start :
  check_links server_id segments = [] -> check_records segments = [] ->
  (forall s, head segments = Some s -> cl_prev_hash s = start) ->
  exists rs', cleared <$> rs' = cleared <$> (segments ≫= cl_records) /\
    linked start rs' (default start (cl_head_hash <$> last segments)).
Proof.
  revert start. induction segments as [|s segments IH]; intros start Hk Hr Hs; [by exists []|].
  unfold check_records in Hr. rewrite bind_cons in Hr. apply app_eq_nil in Hr as [Hv Hr].
  destruct (verify_segment_records s) as [[]|v] eqn:E; [|done].
  apply verified_segment_linked in E as (rs1&Hc1&Hl1). rewrite (Hs s eq_refl) in Hl1.
  destruct (IH (cl_head_hash s)) as (rs2&Hc2&Hl2); [|done| |].
  - destruct segments as [|s' segments]; [done|]. cbn [check_links] in Hk. by apply app_eq_nil in Hk as [_ Hk].
  - intros s' Hs'. destruct segments as [|s'' segments]; [done|]. injection Hs' as <-. cbn [check_links] in Hk.
    apply app_eq_nil in Hk as [Hk _]. by destruct (String.eqb_spec (cl_prev_hash s'') (cl_head_hash s)).
  - exists (rs1 ++ rs2). rewrite bind_cons, !fmap_app, Hc1, Hc2. split; [done|]. apply linked_app.
    exists (cl_head_hash s). split; [done|]. destruct segments as [|s' segments]; [done|]. rewrite last_cons_cons.
    destruct (last (s' :: segments)) eqn:El; [done|]. by apply last_None in El.
Qed.

Lemma check_links_app server_id a b : check_links server_id (a ++ b) = [] -> check_links server_id a = [].
Proof.
  induction a as [|s [|s' a] IH]; [done|done|]. cbn [app check_links]. intros [-> Hk]%app_eq_nil. by apply IH.
Qed.

End no_violation.

(** ** What passes was recorded *)

Definition manifest_of (s : ClosedSegment) : SegmentManifest := {|
  sm_segment_seq := cl_segment_seq s; sm_final_seq := N.of_nat (length (cl_records s)) - 1;
  sm_head_hash := cl_head_hash s |}.

Section genuine.
Context `{Externals} `{JL : JsonStringsLaws} `{KeyBytes} `{LineCodec ClosedSegment} `{ManifestText}.

(** A record without its envelope, up to the order of its metadata. *)
Definition content (r : EvidenceRecord) : EvidenceRecord := normal (cleared r).

Lemma content_normal r : cleared (normal r) = content r.
Proof. by destruct r. Qed.

Lemma record_ok_cleared r : record_ok (cleared r) = record_ok r.
Proof. unfold record_ok. by rewrite facts_cleared. Qed.

Lemma read_items_all {A E} `{LineCodec A} (io bad : string -> E) (P : A -> Prop) ls l :
  (forall line a, parse_line line = Ok a -> P a) -> read_items io bad ls = Ok l -> Forall P l.
Proof.
  intros HP. revert l. induction ls as [|line ls IH]; intros l; cbn [read_items]; [intros [= <-]; constructor|].
  destruct (valid_text line); [|done]. destruct (is_blank _); [apply IH|].
  intros (a&Ha&Hr)%result_bind_Ok. apply result_bind_Ok in Hr as (r&Hr&[= <-]).
  apply map_err_Ok in Ha. constructor; [by eapply HP|by apply IH].
Qed.

Lemma load_chain_ok f run_id segments :
  (forall line s, parse_line line = Ok s -> Forall (fun r => record_ok r = true) (cl_records s)) ->
  load_chain_segments f run_id = Ok segments -> Forall (fun r => record_ok r = true) (segments ≫= cl_records).
Proof.
  intros HP. unfold load_chain_segments. intros (data&_&Hr)%result_bind_Ok. apply result_bind_Ok in Hr as (all&Hall&Hr).
  destruct (repeated_seq _); [done|]. injection Hr as <-. 
  apply (read_items_all _ _ (fun s => Forall (fun r => record_ok r = true) (cl_records s))) in Hall; [|exact HP].
  apply Forall_forall. intros r Hr. apply list_elem_of_bind in Hr as (s&Hr&Hs).
  rewrite merge_sort_Permutation in Hs. apply list_elem_of_In, List.filter_In in Hs as [Hs%list_elem_of_In _].
  apply (proj1 (Forall_forall _ _) Hall s) in Hs. by apply (proj1 (Forall_forall _ _) Hs).
Qed.

(** The segments the manifest names stand first, and have its heads. *)
Lemma named_segments server_id segments produced run start head found records :
  ascending segments -> sealed run server_id start 0 produced head ->
  check_manifest server_id segments (manifest_of <$> produced) = ([], found, records) ->
  forall k s, produced !! k = Some s -> exists s', segments !! k = Some s' /\ cl_head_hash s' = cl_head_hash s.
Proof.
  intros Hasc Hsealed Hc.
  assert (forall k s, produced !! k = Some s -> exists s', s' ∈ segments /\
    cl_segment_seq s' = N.of_nat k /\ cl_head_hash s' = cl_head_hash s) as Hfound.
  { intros k s Hs. destruct (check_manifest_clean _ _ _ _ _ (manifest_of s) Hc) as (s'&Hin&Hq&Hh).
    - apply list_elem_of_fmap. exists s. split; [done|]. by eapply list_elem_of_lookup_2.
    - exists s'. split_and!; [done| |done]. rewrite Hq. cbn. rewrite (sealed_seq _ _ _ _ _ _ k s Hsealed Hs). lia. }
  intros k s Hs. destruct (ascending_positions segments (length produced) Hasc) with (k := k) as (s'&Hk&Hq).
  - intros j Hj. destruct (lookup_lt_is_Some_2 produced j Hj) as [t Ht]. destruct (Hfound j t Ht) as (t'&?&?&_). by exists t'.
  - by eapply lookup_lt_Some.
  - exists s'. split; [done|]. destruct (Hfound k s Hs) as (t&[p Hp]%list_elem_of_lookup&Ht&<-).
    destruct (decide (p = k)) as [->|Hne]; [congruence|]. exfalso.
    destruct (decide (p < k)); [specialize (Hasc p k t s' Hp Hk)|specialize (Hasc k p s' t Hk Hp)]; lia.
Qed.

Lemma passed_server run_id device_id i res text manifest sm :
  verify_run run_id device_id i = Ok res -> vr_passed res = true ->
  read_to_string (in_manifest i) = Ok text -> parse_manifest text = Ok manifest -> sm ∈ rm_servers manifest ->
  exists f segments found records, in_chains i !! chain_file (svm_server_id sm) = Some f /\
    load_chain_segments f run_id = Ok segments /\
    check_manifest (svm_server_id sm) segments (svm_segments sm) = ([], found, records) /\
    check_links (svm_server_id sm) segments = [] /\ check_records segments = [].
Proof.
  intros Hv Hpass Htext Hman Hsm. unfold verify_run in Hv. rewrite Htext in Hv. cbn [result_bind] in Hv. rewrite Hman in Hv.
  cbn [result_bind] in Hv. destruct (String.eqb _ _); [|done]. apply result_bind_Ok in Hv as ([]&_&Hv).
  apply result_bind_Ok in Hv as ([vs loaded]&Hload&Hv). apply result_bind_Ok in Hv as (keys&_&Hv).
  apply result_bind_Ok in Hv as ([[wrong segs] recs]&Hcheck&Hv). apply result_bind_Ok in Hv as (join&_&Hv).
  destruct (negb _); [|done]. injection Hv as <-. apply bool_decide_eq_true in Hpass. cbn [vr_violations] in Hpass.
  apply app_eq_nil in Hpass as [[-> ->]%app_eq_nil _].
  apply load_chains_clean in Hload as (_&Hin&_). destruct (Hin (svm_server_id sm)) as (f&segments&Hf&Hl&Hlk).
  { apply list_elem_of_fmap. by exists sm. }
  destruct (check_servers_clean _ _ _ _ _ _ _ _ Hcheck Hsm Hlk) as (found&records&Hs).
  unfold check_server in Hs. destruct (check_manifest _ _ _) as [[v found'] records'] eqn:Hm.
  apply result_bind_Ok in Hs as (sigs&_&Hs). injection Hs as Hs _ _.
  apply app_eq_nil in Hs as [-> [Hk [Hr _]%app_eq_nil]%app_eq_nil]. by exists f, segments, found', records'.
Qed.

(** C13 What passes verification was recorded: if the manifest names the heads
    of a run, a run directory that passes holds the history that led to them,
    with at most its first records missing, and none if its first segment says
    it starts the chain, unless a record told and a record made collide under
    SHA-256. *)
Theorem verified_run_is_genuine run_id device_id i res text manifest sm earlier produced start final :
  verify_run run_id device_id i = Ok res -> vr_passed res = true ->
  read_to_string (in_manifest i) = Ok text -> parse_manifest text = Ok manifest ->
  sm ∈ rm_servers manifest -> svm_segments sm = manifest_of <$> produced -> produced <> [] ->
  linked "" earlier start -> sealed run_id (svm_server_id sm) start 0 produced final ->
  Forall (fun r => record_ok r = true) (earlier ++ (produced ≫= cl_records)) ->
  (forall line s, parse_line line = Ok s -> Forall (fun r => record_ok r = true) (cl_records s)) ->
  let made := earlier ++ (produced ≫= cl_records) in
  exists f segments, in_chains i !! chain_file (svm_server_id sm) = Some f /\
    load_chain_segments f run_id = Ok segments /\
    let told := take (length produced) segments ≫= cl_records in
    (exists lost, content <$> made = lost ++ (content <$> told) /\
       (forall s, head segments = Some s -> cl_prev_hash s = "" -> lost = [])) \/
    exists r t r' a b, r ∈ made /\ t ∈ told /\ cleared r' = cleared t /\
      canonical_json (record_value r') = Ok a /\ canonical_json (record_value r) = Ok b /\ collide a b.
Proof.
  intros Hv Hpass Htext Hman Hsm Hsegs Hne Hearlier Hsealed Hmade Hparse made.
  destruct (passed_server _ _ _ _ _ _ _ Hv Hpass Htext Hman Hsm) as (f&segments&found&records&Hf&Hload&Hc&Hk&Hr).
  exists f, segments. do 2 (split; [done|]). intros told. rewrite Hsegs in Hc.
  assert (Hasc := load_chain_ascending _ _ _ Hload).
  assert (Hnamed := named_segments _ _ _ _ _ _ _ _ Hasc Hsealed Hc).
  rewrite <-(take_drop (length produced) segments) in Hk, Hr. apply check_links_app in Hk.
  unfold check_records in Hr. rewrite bind_app in Hr. apply app_eq_nil in Hr as [Hr _]. fold (check_records (take (length produced) segments)) in Hr.
  assert (exists s0, head segments = Some s0) as [s0 Hhead].
  { destruct produced as [|p produced]; [done|]. destruct (Hnamed 0 p eq_refl) as (s&Hs&_). exists s. by destruct segments. }
  destruct (checked_linked (svm_server_id sm) (take (length produced) segments) (cl_prev_hash s0) Hk Hr) as (rs'&Hcl&Hl).
  { intros s Hs. destruct produced as [|p produced], segments as [|s1 segments]; try done. cbn in Hs, Hhead. congruence. }
  assert (default (cl_prev_hash s0) (cl_head_hash <$> last (take (length produced) segments)) = final) as Elast.
  { destruct (last produced) as [p|] eqn:Ep; [|by apply last_None in Ep].
    rewrite <-(sealed_last _ _ _ _ _ _ _ Hsealed Ep). rewrite last_lookup in Ep.
    destruct (Hnamed _ _ Ep) as (s&Hs&<-). assert (0 < length produced) by (destruct produced; [done|cbn; lia]).
    assert (pred (length produced) < length segments) by (by eapply lookup_lt_Some).
    rewrite last_lookup, length_take, Nat.min_l, lookup_take_lt, Hs by lia. done. }
  rewrite Elast in Hl. assert (linked "" made final) as Htrue.
  { unfold made. apply linked_app. exists start. split; [done|]. by eapply sealed_linked. }
  assert (Forall (fun r => record_ok r = true) rs') as Hok'.
  { assert (Forall (fun r => record_ok r = true) told) as Hok.
    { apply (load_chain_ok _ _ _ Hparse) in Hload. rewrite <-(take_drop (length produced) segments), bind_app in Hload.
      by apply Forall_app in Hload as [? _]. }
    assert (forall l, Forall (fun r => record_ok r = true) (cleared <$> l) <-> Forall (fun r => record_ok r = true) l) as Hc'.
    { intros l. rewrite Forall_fmap. apply Forall_iff. intros r. unfold compose. by rewrite record_ok_cleared. }
    apply Hc'. rewrite Hcl. by apply Hc'. }
  destruct (linked_suffix _ _ _ _ Hl Htrue Hok' Hmade) as [(pre&E&Hpre)|(r'&r&a&b&Hr'&Hrm&Ha&Hb&Hcol)]; [left|right].
  - exists (cleared <$> pre). split.
    + assert (forall l : list EvidenceRecord, content <$> l = cleared <$> (normal <$> l)) as Hn.
      { intros l. rewrite <-list_fmap_compose. apply list_fmap_ext. intros ? r _. symmetry. apply content_normal. }
      rewrite Hn, E, fmap_app, <-Hn. f_equal. unfold content. rewrite !(list_fmap_compose cleared normal).
      by rewrite Hcl.
    + intros s Hs Hp. rewrite Hhead in Hs. injection Hs as <-. by rewrite (Hpre Hp).
  - assert (cleared r' ∈ cleared <$> told) as (t&Ht&Hin)%list_elem_of_fmap.
    { unfold told. rewrite <-Hcl. apply list_elem_of_fmap. by exists r'. }
    by exists r, t, r', a, b.
Qed.

End genuine.

(** ** What was recorded passes *)

Section recorded.
Context `{EL : ExternalsLaws} `{JL : JsonStringsLaws} `{KL : KeyBytesLaws} `{SL : !SigningLaws _}.
Context `{CL : LineCodecLaws ClosedSegment} `{ManifestText}.
Implicit Types s : ClosedSegment.

Lemma sealed_sorted run server start n ps head :
  sealed run server start n ps head -> StronglySorted seq_le ps /\ repeated_seq ps = None.
Proof.
  revert start n. induction ps as [|p ps IH]; intros start n; [split; [constructor|done]|].
  cbn [sealed]. intros (_&Hn&_&_&_&_&_&Hs). destruct (IH _ _ Hs) as [Hso Hrep]. split.
  - constructor; [done|]. apply Forall_forall. intros q [i Hi]%list_elem_of_lookup. unfold seq_le.
    rewrite (sealed_seq _ _ _ _ _ _ _ _ Hs Hi). lia.
  - destruct ps as [|q ps]; [done|]. cbn [sealed] in Hs. destruct Hs as (_&Hq&_). cbn [repeated_seq].
    rewrite (proj2 (N.eqb_neq _ _)); [done|lia].
Qed.

Lemma load_recorded run server start ps head before after :
  sealed run server start 0 ps head -> Forall (fun s => cl_run_id s <> run) (before ++ after) ->
  load_chain_segments (Ok (file_of (before ++ ps ++ after))) run = Ok ps.
Proof.
  intros Hs [Hb Ha]%Forall_app. unfold load_chain_segments. cbn [result_bind]. rewrite read_file_of. cbn [result_bind].
  assert (forall l, Forall (fun s => cl_run_id s <> run) l -> List.filter (fun s => String.eqb (cl_run_id s) run) l = []) as Hnil.
  { induction 1 as [|s l Hne _ IH]; [done|]. cbn. by rewrite (proj2 (String.eqb_neq _ _) Hne). }
  rewrite !List.filter_app, (Hnil before), (Hnil after), app_nil_r by done. cbn [app].
  assert (List.filter (fun s => String.eqb (cl_run_id s) run) ps = ps) as ->.
  { clear -Hs. revert start Hs. generalize 0%N as n. induction ps as [|p ps IH]; intros n start; [done|].
    cbn [sealed]. intros (_&_&<-&_&_&_&_&Hs). cbn. rewrite String.eqb_refl. f_equal. by eapply IH. }
  destruct (sealed_sorted _ _ _ _ _ _ Hs) as [Hso Hrep].
  assert (merge_sort seq_le ps = ps) as ->; [|by rewrite Hrep].
  apply (StronglySorted_unique_strong seq_le); [|apply StronglySorted_merge_sort|done|apply merge_sort_Permutation].
  - intros a b. rewrite merge_sort_Permutation. intros [i Hi]%list_elem_of_lookup [j Hj]%list_elem_of_lookup.
    unfold seq_le. rewrite (sealed_seq _ _ _ _ _ _ _ _ Hs Hi), (sealed_seq _ _ _ _ _ _ _ _ Hs Hj). intros ? ?.
    assert (i = j) as -> by lia. congruence.
  - intros a b c. unfold seq_le. lia.
  - intros a b. unfold seq_le. lia.
Qed.

Lemma check_manifest_recorded run server start ps head sub :
  sealed run server start 0 ps head -> sub ⊆ ps ->
  check_manifest server ps (manifest_of <$> sub) = ([], length sub, length (sub ≫= cl_records)).
Proof.
  intros Hs. induction sub as [|s sub IH]; intros Hsub; [done|]. rewrite fmap_cons. cbn [check_manifest].
  rewrite IH by set_solver. cbn [manifest_of sm_segment_seq sm_head_hash].
  assert (List.find (fun s' => (cl_segment_seq s' =? cl_segment_seq s)%N) ps = Some s) as ->.
  { destruct (List.find _ ps) as [s'|] eqn:E.
    - apply List.find_some in E as [[i Hi]%list_elem_of_In%list_elem_of_lookup Hq%N.eqb_eq].
      assert (s ∈ ps) as [j Hj]%list_elem_of_lookup by set_solver.
      rewrite (sealed_seq _ _ _ _ _ _ _ _ Hs Hi), (sealed_seq _ _ _ _ _ _ _ _ Hs Hj) in Hq.
      assert (i = j) as -> by lia. congruence.
    - apply (List.find_none _ _) with (x := s) in E; [by rewrite N.eqb_refl in E|].
      apply list_elem_of_In. set_solver. }
  rewrite String.eqb_refl, bind_cons, length_app. done.
Qed.

Lemma check_links_cons server p q ps :
  check_links server (p :: q :: ps) =
  (if String.eqb (cl_prev_hash q) (cl_head_hash p) then []
   else [SegmentChainBreak server (cl_segment_seq q) (cl_head_hash p) (cl_prev_hash q)]) ++ check_links server (q :: ps).
Proof. done. Qed.

Lemma check_links_recorded run server start n ps head :
  sealed run server start n ps head -> check_links server ps = [].
Proof.
  revert start n. induction ps as [|p [|q ps] IH]; intros start n; [done|done|].
  intros (_&_&_&_&_&_&_&Hs). rewrite check_links_cons, (IH _ _ Hs). destruct Hs as (Hp&_). by rewrite Hp, String.eqb_refl.
Qed.

Lemma check_records_recorded run server start n ps head :
  sealed run server start n ps head -> check_records ps = [].
Proof.
  revert start n. induction ps as [|p ps IH]; intros start n; [done|]. cbn [sealed].
  intros (Hp&Hq&Hr&Hv&_&Hl&He&Hs). unfold check_records. rewrite bind_cons. fold (check_records ps). rewrite (IH _ _ Hs), app_nil_r.
  unfold verify_segment_records.
  destruct (append_again_same p 0 (cl_records p)
    (chain_segment_new (cl_run_id p) (cl_server_id p) (cl_segment_seq p) (cl_prev_hash p)) (cl_head_hash p)) as (seg&->&Hh).
  - unfold seg_head. cbn. by rewrite Hp.
  - cbn. by rewrite Hr, Hv, Hq.
  - cbn. by rewrite Hh, String.eqb_refl.
Qed.

Lemma check_signatures_recorded server chains key ps :
  Forall (signed_by key) ps -> check_signatures server chains (verifying_key key) ps = Ok [].
Proof.
  induction 1 as [|p ps (encoded&signature&Hsig&Hdec&Hver) _ IH]; [done|]. cbn [check_signatures].
  rewrite Hsig. cbn [result_bind]. rewrite IH. unfold check_signature. by rewrite Hdec, Hver.
Qed.

Lemma rsplit_dot_app (s t : string) : contains_char "." t = false -> rsplit_dot (s +:+ String "." t) = Some (s, t).
Proof.
  intros Ht. assert (rsplit_dot t = None) as Hn.
  { unfold contains_char in Ht. induction t as [|c t IH]; [done|]. cbn [str_exists] in Ht. apply orb_false_iff in Ht as [Hc Ht].
    cbn [rsplit_dot]. rewrite (IH Ht). by rewrite Ascii.eqb_sym, Hc. }
  induction s as [|c s IH]; [rewrite str_app_nil; cbn; by rewrite Hn|]. rewrite str_app_cons. cbn [rsplit_dot]. by rewrite IH.
Qed.

Lemma pubkey_name server : validate_server_id server = Ok tt -> stem_and_extension (server +:+ ".pub") = (server, Some "pub").
Proof.
  unfold validate_server_id. destruct (is_blank server) eqn:Hb; [done|]. intros _. unfold stem_and_extension.
  change ".pub" with (String "." "pub"). rewrite rsplit_dot_app by done.
  destruct server as [|c server]; [done|]. rewrite str_app_cons.
  destruct (String.eqb_spec (String c (server +:+ String "." "pub")) "..") as [E|]; [|done].
  exfalso. injection E as _ E. apply (f_equal String.length) in E. rewrite str_length_app in E. cbn in E. lia.
Qed.

(** What the recorder wrote passes verification: the outbox of a run that
    was signed throughout, among the outboxes of other runs, under a manifest
    that names its segments, has no violation, if no segment was written twice;
    and the summary counts what it holds. *)
Theorem recorded_run_verifies rc key m before after i text cutoff path mode device_id :
  rtc (recorder_step rc (Some key)) (recorder_start rc) m -> squash (mo_outbox m) = mo_outbox m ->
  Forall (fun s => cl_run_id s <> rc_run_id rc) (before ++ after) ->
  validate_server_id (rc_server_id rc) = Ok tt ->
  read_to_string (in_manifest i) = Ok text ->
  parse_manifest text = Ok {| rm_run_id := rc_run_id rc; rm_cutoff := cutoff;
    rm_servers := [{| svm_server_id := rc_server_id rc; svm_segments := manifest_of <$> mo_outbox m |}] |} ->
  in_chains i !! chain_file (rc_server_id rc) = Some (Ok (file_of (before ++ mo_outbox m ++ after)) : file) ->
  in_pubkeys i = [(rc_server_id rc +:+ ".pub",
    {| kf_path := path; kf_open := Ok (mode, Ok (encode_verifying_key (verifying_key key))) |})] ->
  in_device_log i = None ->
  verify_run (rc_run_id rc) device_id i = Ok {| vr_passed := true; vr_violations := [];
    vr_summary := {| servers_verified := 1; segments_verified := length (mo_outbox m);
                     records_verified := length (mo_outbox m ≫= cl_records); device_commits_checked := 0 |} |}.
Proof.
  intros Hr Hsq Hruns Hid Htext Hman Hchain Hkeys Hlog.
  pose proof (reachable_signed rc key m Hr) as [Hsigned _]%Forall_app.
  destruct (recorder_in_order rc (Some key) m Hr) as (ps&[Hc (written&Hps&Hcov)]&_).
  assert (exists rest, ps = mo_outbox m ++ rest) as [rest E].
  { rewrite <-Hsq. destruct Hcov as [->|s rest E ->]; [by exists (unwritten m)|]. exists rest. by rewrite Hps, E, <-app_assoc. }
  pose proof (co_sealed _ _ _ Hc) as Hsealed. rewrite E in Hsealed. apply sealed_app in Hsealed as (mid&Hs&_).
  unfold verify_run. rewrite Htext. cbn [result_bind]. rewrite Hman. cbn [result_bind rm_run_id rm_servers].
  rewrite String.eqb_refl. cbn [check_server_ids svm_server_id]. rewrite Hid. cbn [map_err result_bind load_chains svm_server_id].
  rewrite Hchain, (load_recorded _ _ _ _ _ _ _ Hs Hruns). cbn [svm_segments].
  assert (forall X (a b : X), match manifest_of <$> mo_outbox m, mo_outbox m with _ :: _, [] => a | _, _ => b end = b) as Hmatch
    by (intros; by destruct (mo_outbox m)).
  rewrite Hmatch. cbn [result_bind]. rewrite Hkeys. cbn [load_pubkeys]. rewrite pubkey_name, String.eqb_refl by done.
  rewrite verifying_key_loads. cbn [map_err result_bind load_pubkeys check_servers svm_server_id].
  rewrite lookup_insert_eq. unfold check_server. cbn [svm_server_id svm_segments].
  rewrite (check_manifest_recorded _ _ _ _ _ _ Hs) by done. rewrite lookup_insert_eq.
  rewrite check_signatures_recorded by done. rewrite (check_links_recorded _ _ _ _ _ _ Hs), (check_records_recorded _ _ _ _ _ _ Hs).
  rewrite Hlog. cbn [result_bind app fst snd]. rewrite !bool_decide_true by done. rewrite !Nat.add_0_r.
  cbn [fmap list_fmap sum_list sum_list_with svm_segments length andb].
  rewrite Nat.add_0_r, (proj2 (Nat.ltb_ge _ _)); [done|]. by rewrite length_fmap.
Qed.

End recorded.
