(* ===== verification/VerifyWitnesses.v ===== *)
(** * The verifier on concrete runs

    A run written by the recorder and verified, the theorems of DeviceLog.v
    and Verify.v applied to it, and four inputs on which the verifier does not
    say what its documentation does. *)

From S2P Require Import Prelude Externals Types Json Text Canonical Evidence Recorder Spool Pipeline DeviceLog Verify EvidenceWitnesses DeliveryWitnesses.
From Stdlib Require Import Ascii.

Open Scope list_scope.

#[local] Existing Instance toy_externals.
#[local] Existing Instance toy_externals_laws.
#[local] Existing Instance toy_strings.
#[local] Existing Instance toy_strings_laws.
#[local] Existing Instance toy_signing.
#[local] Existing Instance toy_signing_laws.
#[local] Existing Instance toy_key_bytes.
#[local] Existing Instance toy_key_bytes_laws.

(** ** Provenance *)

Definition toy_agent : AgentIdentity := {|
  model_id := "m-1"; session_id := "s-1"; client_name := None; provider := "Acme";
  provider_tier := TierPublic; skills_used := [] |}.

Definition toy_attribution : Attribution := {|
  attr_principal := PToken "t"; attr_actor_type := Agent; attr_agent := Some toy_agent;
  attr_on_behalf_of := Some "dev@example.com"; attr_change_ref := None;
  attr_request_id := "550e8400-e29b-41d4-a716-446655440000" |}.

Lemma commit_comment_round_trip_witness :
  exists line, commit_line to_lowercase (Some " Fix BGP peering ") toy_attribution = Some line /\
    parse_device_log_auto (git_log "abc123" "vsrx-prod" line) None =
      [{| dc_device_id := "vsrx-prod"; dc_commit_sha := "abc123";
          dc_request_id := "550e8400-e29b-41d4-a716-446655440000" |}] /\
    parse_device_log_auto (junos_log "2026-08-12" "18:36:55" "netconf via netconf" line) (Some "vsrx-prod") =
      [{| dc_device_id := "vsrx-prod"; dc_commit_sha := "2026-08-12T18:36:55Z";
          dc_request_id := "550e8400-e29b-41d4-a716-446655440000" |}].
Proof.
  apply (commit_comment_round_trip to_lowercase (Some " Fix BGP peering ") toy_attribution toy_agent
           "abc123" "vsrx-prod" "2026-08-12" "18:36:55" "netconf via netconf");
    try (vm_compute; reflexivity); try discriminate; try (intros c [= <-]);
    vm_compute; repeat split; repeat constructor.
Defined.

(** An identifier in the operator's comment is read instead of the request's. *)
Lemma comment_can_name_another_request :
  exists line, commit_line to_lowercase (Some "see request.id=00000000 for why") toy_attribution = Some line /\
    dc_request_id <$> parse_device_log_auto (git_log "abc123" "vsrx-prod" line) None = ["00000000"].
Proof. eexists. split; [reflexivity|]. vm_compute. reflexivity. Qed.

(** ** A run that passes *)

Definition quiet : list Act :=
  [Append planned; Append agreed; Append (ApplyIntent (blank "req-3" "cs-1" "fw1" "alice" "d1" "t3" None));
   Claim; Write; Write; Finish].

Definition quiet_end : Moment :=
  default (recorder_start toy_recorder) (acts toy_recorder (Some toy_key) quiet (recorder_start toy_recorder)).

Lemma quiet_run : rtc (recorder_step toy_recorder (Some toy_key)) (recorder_start toy_recorder) quiet_end.
Proof.
  assert (is_Some (acts toy_recorder (Some toy_key) quiet (recorder_start toy_recorder))) as [m Hm].
  { apply (bool_decide_unpack (is_Some _)). vm_compute. exact I. }
  unfold quiet_end. rewrite Hm. by eapply acts_steps.
Qed.

Definition quiet_manifest : RunManifest := {|
  rm_run_id := "run-1"; rm_cutoff := "t9";
  rm_servers := [{| svm_server_id := "srv-1"; svm_segments := manifest_of <$> mo_outbox quiet_end |}] |}.

Definition toy_manifests : ManifestText := {| parse_manifest _ := Ok quiet_manifest |}.
#[local] Existing Instance toy_manifests.

Definition public_key : string * KeyFile :=
  ("srv-1.pub", {| kf_path := "srv-1.pub"; kf_open := Ok (420%N, Ok (encode_verifying_key (verifying_key toy_key))) |}).

Section with_codec.
Context `{LineCodec ClosedSegment}.

Definition directory (keys : list (string * KeyFile)) (segments : list ClosedSegment) : Input := {|
  in_manifest := Ok (String.list_ascii_of_string "manifest");
  in_chains := {[ chain_file "srv-1" := Ok (file_of segments) ]};
  in_pubkeys := keys; in_device_log := None |}.

Definition verdict (keys : list (string * KeyFile)) (segments : list ClosedSegment) : option (list Violation) :=
  match verify_run "run-1" None (directory keys segments) with Ok r => Some (vr_violations r) | Err _ => None end.

End with_codec.

Section quiet.
#[local] Existing Instance toy_segments.
#[local] Existing Instance toy_segments_laws.

Lemma recorded_run_verifies_witness :
  length (mo_outbox quiet_end) = 2 /\
  verify_run "run-1" None (directory [public_key] (mo_outbox quiet_end)) = Ok {|
    vr_passed := true; vr_violations := [];
    vr_summary := {| servers_verified := 1; segments_verified := length (mo_outbox quiet_end);
                     records_verified := length (mo_outbox quiet_end ≫= cl_records);
                     device_commits_checked := 0 |} |}.
Proof.
  split; [vm_compute; reflexivity|].
  assert (squash (mo_outbox quiet_end) = mo_outbox quiet_end) as Hsq by (vm_compute; reflexivity).
  assert (in_chains (directory [public_key] (mo_outbox quiet_end)) !! chain_file (rc_server_id toy_recorder)
          = Some (Ok (file_of ([] ++ mo_outbox quiet_end ++ [])) : file)) as Hf.
  { rewrite app_nil_r. cbn [app in_chains directory]. apply lookup_singleton_eq. }
  exact (recorded_run_verifies toy_recorder toy_key quiet_end [] [] (directory [public_key] (mo_outbox quiet_end))
           "manifest" "t9" "srv-1.pub" 420%N None quiet_run Hsq (Forall_nil_2 _) eq_refl eq_refl eq_refl Hf eq_refl eq_refl).
Defined.

End quiet.

(** ** What passes is genuine *)

(** A reader that gives no value with a repeated member, as [serde_json] does
    not. *)
Definition checked_segments : LineCodec ClosedSegment := {|
  print_line := @print_line _ toy_segments;
  parse_line l := let? s := @parse_line _ toy_segments l in
                  ensure forallb record_ok (cl_records s) else "invalid line";
                  Ok s |}.

Lemma checked_ok line s :
  @parse_line _ checked_segments line = Ok s -> Forall (fun r => record_ok r = true) (cl_records s).
Proof.
  cbn. intros (s'&_&Hr)%result_bind_Ok. destruct (forallb record_ok (cl_records s')) eqn:E; [|done].
  injection Hr as <-. apply Forall_forall. intros r Hr. rewrite forallb_forall in E. by apply E, list_elem_of_In.
Qed.

Lemma quiet_sealed : exists final, sealed "run-1" "srv-1" "" 0 (mo_outbox quiet_end) final.
Proof.
  destruct (@recorder_in_order _ _ _ toy_signing toy_recorder (Some toy_key) quiet_end quiet_run) as (ps&[Hc (written&Hps&Hcov)]&_).
  assert (squash (mo_outbox quiet_end) = mo_outbox quiet_end) as Hsq by (vm_compute; reflexivity).
  assert (exists rest, ps = mo_outbox quiet_end ++ rest) as [rest E].
  { rewrite <-Hsq. destruct Hcov as [->|s rest E ->]; [by exists (unwritten quiet_end)|].
    exists rest. by rewrite Hps, E, <-app_assoc. }
  pose proof (co_sealed _ _ _ Hc) as Hs. rewrite E in Hs. apply sealed_app in Hs as (mid&Hs&_). by exists mid.
Qed.

Section checked.
#[local] Existing Instance checked_segments.

Definition quiet_server : ServerManifest :=
  {| svm_server_id := "srv-1"; svm_segments := manifest_of <$> mo_outbox quiet_end |}.

Lemma verified_run_is_genuine_witness :
  let i := directory [public_key] (mo_outbox quiet_end) in
  let made := [] ++ (mo_outbox quiet_end ≫= cl_records) in
  length made = 3 /\
  exists f segments, in_chains i !! chain_file "srv-1" = Some f /\ load_chain_segments f "run-1" = Ok segments /\
    let told := take (length (mo_outbox quiet_end)) segments ≫= cl_records in
    (exists lost, content <$> made = lost ++ (content <$> told) /\
       (forall s, head segments = Some s -> cl_prev_hash s = "" -> lost = [])) \/
    exists r t r' a b, r ∈ made /\ t ∈ told /\ cleared r' = cleared t /\
      canonical_json (record_value r') = Ok a /\ canonical_json (record_value r) = Ok b /\ collide a b.
Proof.
  split; [vm_compute; reflexivity|]. destruct quiet_sealed as [final Hs].
  assert (exists res, verify_run "run-1" None (directory [public_key] (mo_outbox quiet_end)) = Ok res /\
            vr_passed res = true) as (res&Hv&Hp) by (eexists; split; vm_compute; reflexivity).
  assert (Forall (fun r => record_ok r = true) ([] ++ (mo_outbox quiet_end ≫= cl_records))) as Hok.
  { vm_compute. repeat constructor. }
  assert (mo_outbox quiet_end <> []) as Hne by (vm_compute; discriminate).
  assert (quiet_server ∈ rm_servers quiet_manifest) as Hin by (apply list_elem_of_here).
  assert (svm_segments quiet_server = manifest_of <$> mo_outbox quiet_end) as Hsegs by (unfold quiet_server; reflexivity).
  exact (verified_run_is_genuine "run-1" None _ res "manifest" quiet_manifest quiet_server [] (mo_outbox quiet_end) ""
           final Hv Hp eq_refl eq_refl Hin Hsegs Hne eq_refl Hs Hok checked_ok).
Defined.

(** ** What the verifier does not see *)

(** Records at the beginning can be dropped: the number of records that the
    manifest carries is not compared. *)
Definition beheaded : list ClosedSegment :=
  match mo_outbox quiet_end with
  | s :: l =>
      {| cl_run_id := cl_run_id s; cl_server_id := cl_server_id s; cl_segment_seq := cl_segment_seq s;
         cl_prev_hash := from_option (fun r => ev_prev_hash (facts r)) "" (cl_records s !! 1);
         cl_records := tail (cl_records s); cl_head_hash := cl_head_hash s; cl_signature := cl_signature s |} :: l
  | [] => []
  end.

Lemma dropped_beginning_passes :
  length (beheaded ≫= cl_records) = 2 /\ sm_final_seq <$> svm_segments quiet_server = [1; 0]%N /\
  verdict [public_key] beheaded = Some [].
Proof. vm_compute. repeat split. Qed.

(** Without a public key for a server nothing is said about its signatures. *)
Definition unsigned (s : ClosedSegment) : ClosedSegment := {|
  cl_run_id := cl_run_id s; cl_server_id := cl_server_id s; cl_segment_seq := cl_segment_seq s;
  cl_prev_hash := cl_prev_hash s; cl_records := cl_records s; cl_head_hash := cl_head_hash s; cl_signature := None |}.

Lemma missing_key_passes : verdict [] (unsigned <$> mo_outbox quiet_end) = Some [].
Proof. vm_compute. reflexivity. Qed.

(** A write that the recorder repeated, because it was refused after it reached
    the file, is reported as a violation. *)
Lemma repeated_write_fails :
  verdict [public_key] (mo_outbox quiet_end ++ take 1 (reverse (mo_outbox quiet_end)))
  = Some [DuplicateSegmentSeq "srv-1" 1].
Proof. vm_compute. reflexivity. Qed.

End checked.
