(* ===== verification/Policy.v ===== *)
(** * Command and configuration guardrails

    crates/mecmcp-policy/src/lib.rs: the allowlist of token prefixes, the
    blocklist of glob rules, and the checks of commands and configuration
    text.  The globs are those of a library: [Globs]. *)

From S2P Require Import Prelude Text Spool.
From Stdlib Require Import Ascii.

Open Scope list_scope.

(** [globset::Glob::new], [compile_matcher] and [is_match]. *)
Class Globs := {
  GlobMatcher : Type;
  GlobError : Type;
  glob_new : string -> result GlobMatcher GlobError;
  is_match : GlobMatcher -> string -> bool;
}.

(** ** Rules *)

Inductive RuleSource := Defaults | Device.

#[export] Instance RuleSource_eq_dec : EqDecision RuleSource.
Proof. solve_decision. Defined.

Definition rule_source_as_str (s : RuleSource) : string :=
  match s with Defaults => "defaults" | Device => "device" end.

Record CompiledRule `{Globs} (A : Type) := {
  cr_pattern : string;
  cr_action : A;
  cr_source : RuleSource;
  cr_matcher : GlobMatcher;
  cr_specificity : nat * nat;
}.
#[global] Arguments cr_pattern {_ A} _.
#[global] Arguments cr_action {_ A} _.
#[global] Arguments cr_source {_ A} _.
#[global] Arguments cr_matcher {_ A} _.
#[global] Arguments cr_specificity {_ A} _.

(** The bytes of a character after its first one. *)
Definition is_continuation (c : ascii) : bool := let n := N_of_ascii c in (128 <=? n)%N && (n <=? 191)%N.

Fixpoint literal_chars (in_class : bool) (s : string) : nat :=
  match s with
  | EmptyString => 0
  | String c s =>
      if is_continuation c then literal_chars in_class s
      else if in_class then literal_chars (negb (Ascii.eqb c "]")) s
      else if Ascii.eqb c "*" || Ascii.eqb c "?" then literal_chars false s
      else if Ascii.eqb c "[" then literal_chars true s
      else if Ascii.eqb c "\" then match s with EmptyString => 0 | String _ s => S (literal_chars false s) end
      else S (literal_chars false s)
  end.

Definition count_literal_chars (pattern : string) : nat := literal_chars false pattern.

Section rules.
Context `{Globs} {A E : Type}.

Fixpoint compile_rules (rules : list (A * string)) (scope : string) (source : RuleSource)
  (error_builder : string -> string -> GlobError -> E) : result (list (CompiledRule A)) E :=
  match rules with
  | [] => Ok []
  | (action, pattern) :: rules =>
      let? glob := map_err (error_builder scope pattern) (glob_new pattern) in
      let? compiled := compile_rules rules scope source error_builder in
      Ok ({| cr_pattern := pattern; cr_action := action; cr_source := source; cr_matcher := glob;
             cr_specificity := (count_literal_chars pattern, String.length pattern) |} :: compiled)
  end.

(** The order of specificity, and of the sources where it is equal. *)
Definition rule_cmp (a b : CompiledRule A) : comparison :=
  match Nat.compare (cr_specificity a).1 (cr_specificity b).1 with
  | Eq => match Nat.compare (cr_specificity a).2 (cr_specificity b).2 with
          | Eq => match cr_source a, cr_source b with
                  | Device, Defaults => Gt
                  | Defaults, Device => Lt
                  | _, _ => Eq
                  end
          | c => c
          end
  | c => c
  end.

(** [Iterator::max_by] keeps the last of equal elements. *)
Definition max_rule (best : option (CompiledRule A)) (r : CompiledRule A) : option (CompiledRule A) :=
  match best with
  | Some a => match rule_cmp a r with Gt => Some a | _ => Some r end
  | None => Some r
  end.

Definition matching (rules : list (CompiledRule A)) (candidate : string) : list (CompiledRule A) :=
  List.filter (fun r => is_match (cr_matcher r) candidate) rules.

Definition evaluate (rules : list (CompiledRule A)) (candidate : string) : option (CompiledRule A) :=
  foldl max_rule None (matching rules candidate).

End rules.

(** ** Allowlists *)

Inductive CommandMode := AllowlistMode | BlocklistMode.

Inductive AllowlistDenyReason := NotAllowlisted | PipeNotAllowlisted | ForbiddenMetachar.

Definition allowlist_deny_reason_as_str (r : AllowlistDenyReason) : string :=
  match r with
  | NotAllowlisted => "not_allowlisted"
  | PipeNotAllowlisted => "pipe_not_allowlisted"
  | ForbiddenMetachar => "forbidden_metachar"
  end.

Record AllowlistEntry := { ae_tokens : list string }.

Inductive AllowlistEntryErrorKind := GlobMetachar (c : ascii) | EmptyEntry.

Definition is_glob_metachar (c : ascii) : bool := Ascii.eqb c "*" || Ascii.eqb c "?" || Ascii.eqb c "[".

Fixpoint compile_allowlist_entries {E} (entries : list string) (scope : string)
  (error_builder : string -> string -> AllowlistEntryErrorKind -> E) : result (list AllowlistEntry) E :=
  match entries with
  | [] => Ok []
  | entry :: entries =>
      let? compiled :=
        match List.find is_glob_metachar (String.list_ascii_of_string entry) with
        | Some metachar => Err (error_builder scope entry (GlobMetachar metachar))
        | None => match split_whitespace entry with
                  | [] => Err (error_builder scope entry EmptyEntry)
                  | tokens => Ok {| ae_tokens := tokens |}
                  end
        end in
      let? rest := compile_allowlist_entries entries scope error_builder in
      Ok (compiled :: rest)
  end.

Record CommandAllowlist := { al_entries : list AllowlistEntry; al_allowed_pipes : list AllowlistEntry }.

(** [; > < `], newline and carriage return. *)
Definition contains_forbidden_metachar (raw : string) : bool :=
  str_exists (fun c => bool_decide (c ∈ [";"; ">"; "<"; "`"; "010"; "013"]%char)) raw.

Definition is_token_prefix (entry : AllowlistEntry) (input : list string) : bool :=
  (length (ae_tokens entry) <=? length input)%nat
  && forallb (fun p => String.eqb p.1 p.2) (zip (ae_tokens entry) input).

Definition matches_any_entry (entries : list AllowlistEntry) (input : list string) : bool :=
  existsb (fun entry => is_token_prefix entry input) entries.

Inductive Decision `{Globs} (A : Type) :=
| Allow
| Deny (rule : CompiledRule A) (source : RuleSource) (line_number : option nat)
| DenyAllowlist (mode : CommandMode) (reason : AllowlistDenyReason) (normalized : string).
#[global] Arguments Allow {_ A}.
#[global] Arguments Deny {_ A} rule source line_number.
#[global] Arguments DenyAllowlist {_ A} mode reason normalized.

Definition is_allowed `{Globs} {A} (d : Decision A) : bool := match d with Allow => true | _ => false end.

(** White space characters as one space each run; [skip] counts the bytes of
    the current character that are still to be passed. *)
Fixpoint collapse (skip : nat) (last_was_ws : bool) (s : string) : string :=
  match s with
  | EmptyString => ""
  | String c s' =>
      match skip with
      | S k => collapse k last_was_ws s'
      | O => match whitespace_width s with
             | Some (S k) => if last_was_ws then collapse k true s' else String " " (collapse k true s')
             | _ => String c (collapse 0 false s')
             end
      end
  end.

Definition normalize_input (s : string) : string := collapse 0 false (trim s).

Definition evaluate_allowlist `{Globs} {A} (command : string) (allowlist : CommandAllowlist) : Decision A :=
  let normalized := normalize_input command in
  if contains_forbidden_metachar command then DenyAllowlist AllowlistMode ForbiddenMetachar normalized else
  let stages := str_split "|" normalized in
  if negb (matches_any_entry (al_entries allowlist) (split_whitespace (default "" (head stages))))
  then DenyAllowlist AllowlistMode NotAllowlisted normalized
  else if forallb (fun stage => matches_any_entry (al_allowed_pipes allowlist) (split_whitespace stage)) (tail stages)
  then Allow
  else DenyAllowlist AllowlistMode PipeNotAllowlisted normalized.

(** ** Policies *)

Record DomainRules `{Globs} (A : Type) := {
  dr_defaults : list (CompiledRule A);
  dr_device_specific : gmap string (list (CompiledRule A));
}.
#[global] Arguments dr_defaults {_ A} _.
#[global] Arguments dr_device_specific {_ A} _.

Record CommandDomain `{Globs} (A : Type) := { cd_blocklist : DomainRules A; cd_allowlist : CommandAllowlist }.
#[global] Arguments cd_blocklist {_ A} _.
#[global] Arguments cd_allowlist {_ A} _.

Record Policy `{Globs} (A : Type) := {
  po_command_mode : CommandMode;
  po_commands : CommandDomain A;
  po_config : DomainRules A;
  po_pfe_commands : CommandDomain A;
}.
#[global] Arguments po_command_mode {_ A} _.
#[global] Arguments po_commands {_ A} _.
#[global] Arguments po_config {_ A} _.
#[global] Arguments po_pfe_commands {_ A} _.

Record PolicyCounts := {
  default_commands : nat;
  default_config : nat;
  default_pfe_commands : nat;
  devices_with_rules : nat;
}.

Section policy.
Context `{Globs} {A : Type} `{EqDecision A}.

Definition rules_for (rules : DomainRules A) (device : string) : list (CompiledRule A) :=
  dr_defaults rules ++ default [] (dr_device_specific rules !! device).

Definition command_rules_for (p : Policy A) : string -> list (CompiledRule A) := rules_for (cd_blocklist (po_commands p)).
Definition config_rules_for (p : Policy A) : string -> list (CompiledRule A) := rules_for (po_config p).
Definition pfe_command_rules_for (p : Policy A) : string -> list (CompiledRule A) :=
  rules_for (cd_blocklist (po_pfe_commands p)).

Definition has_config_rules_for (p : Policy A) (device : string) : bool :=
  match dr_defaults (po_config p) with
  | _ :: _ => true
  | [] => match dr_device_specific (po_config p) !! device with Some (_ :: _) => true | _ => false end
  end.

(** What both command domains do. *)
Definition check_domain (mode : CommandMode) (allowlist : CommandAllowlist) (rules : list (CompiledRule A))
  (command : string) (deny_action : A) : Decision A :=
  match mode with
  | AllowlistMode => evaluate_allowlist command allowlist
  | BlocklistMode =>
      match evaluate rules (normalize_input command) with
      | Some rule => if bool_decide (cr_action rule = deny_action) then Deny rule (cr_source rule) None else Allow
      | None => Allow
      end
  end.

Definition check_command (p : Policy A) (device command : string) (deny_action : A) : Decision A :=
  check_domain (po_command_mode p) (cd_allowlist (po_commands p)) (command_rules_for p device) command deny_action.

Definition check_pfe_command (p : Policy A) (device command : string) (deny_action : A) : Decision A :=
  check_domain (po_command_mode p) (cd_allowlist (po_pfe_commands p)) (pfe_command_rules_for p device) command deny_action.

(** Blank lines and comments are not configuration. *)
Definition is_config_line (line : string) : bool := negb (is_empty_str line || starts_with "#" line).

Fixpoint check_lines (rules : list (CompiledRule A)) (deny_action : A) (idx : nat) (lines : list string) : Decision A :=
  match lines with
  | [] => Allow
  | raw_line :: lines =>
      let line := normalize_input raw_line in
      if is_config_line line then
        match evaluate rules line with
        | Some rule => if bool_decide (cr_action rule = deny_action)
                       then Deny rule (cr_source rule) (Some (idx + 1))
                       else check_lines rules deny_action (S idx) lines
        | None => check_lines rules deny_action (S idx) lines
        end
      else check_lines rules deny_action (S idx) lines
  end.

Definition config_lines (config_text : string) : list string :=
  String.string_of_list_ascii <$> lines (String.list_ascii_of_string config_text).

Definition check_config {E} (p : Policy A) (device config_format config_text : string) (deny_action : A)
  (expected_format : string) (error_builder : string -> E) : result (Decision A) E :=
  match config_rules_for p device with
  | [] => Ok Allow
  | rules => ensure String.eqb config_format expected_format else (error_builder config_format);
             Ok (check_lines rules deny_action 0 (config_lines config_text))
  end.

Definition rule_counts (p : Policy A) : PolicyCounts := {|
  default_commands := length (dr_defaults (cd_blocklist (po_commands p)));
  default_config := length (dr_defaults (po_config p));
  default_pfe_commands := length (dr_defaults (cd_blocklist (po_pfe_commands p)));
  devices_with_rules := size (dom (dr_device_specific (cd_blocklist (po_commands p)))
                              ∪ dom (dr_device_specific (po_config p))
                              ∪ dom (dr_device_specific (cd_blocklist (po_pfe_commands p))));
|}.

End policy.

(** ** Characters and their bytes

    White space depends on the first byte of a character and on the
    continuation bytes after it, at most two. *)

Fixpoint conts (n : nat) (s : string) : list ascii :=
  match n, s with
  | S n, String c s => if is_continuation c then c :: conts n s else []
  | _, _ => []
  end.

Lemma not_continuation c n : is_continuation c = false -> (128 <= n <= 191)%N -> (N_of_ascii c =? n)%N = false.
Proof.
  unfold is_continuation. intros Hc Hn. apply N.eqb_neq. intros E. rewrite E in Hc.
  apply andb_false_iff in Hc as [?%N.leb_gt|?%N.leb_gt]; lia.
Qed.

Lemma width_conts c s :
  whitespace_width (String c s) = whitespace_width (String c (String.string_of_list_ascii (conts 2 s))).
Proof.
  destruct s as [|d s]; [done|]. cbn [conts]. destruct (is_continuation d) eqn:Hd.
  - destruct s as [|e s]; [done|]. cbn [conts]. destruct (is_continuation e) eqn:He; [reflexivity|].
    cbn. rewrite !(not_continuation e) by (done || lia).
    assert ((128 <=? N_of_ascii e)%N && (N_of_ascii e <=? 138)%N = false) as ->.
    { unfold is_continuation in He. apply andb_false_iff in He as [->|H%N.leb_gt]; [done|].
      rewrite (proj2 (N.leb_gt _ 138)) by lia. apply andb_false_r. }
    by rewrite ?andb_false_r.
  - cbn. rewrite !(not_continuation d) by (done || lia). rewrite ?andb_false_r. cbn. by repeat case_match.
Qed.

Lemma width_continuation c s : is_continuation c = true -> whitespace_width (String c s) = None.
Proof.
  unfold is_continuation. intros [H1%N.leb_le H2%N.leb_le]%andb_true_iff. cbn. set (n := N_of_ascii c) in *.
  rewrite (proj2 (N.leb_gt n 13)), (proj2 (N.eqb_neq n 32)), andb_false_r by lia. cbn [orb].
  rewrite (proj2 (N.eqb_neq n 194)), (proj2 (N.eqb_neq n 225)), (proj2 (N.eqb_neq n 226)),
    (proj2 (N.eqb_neq n 227)) by lia. by repeat case_match.
Qed.

Lemma width_same c s t : conts 2 s = conts 2 t -> whitespace_width (String c s) = whitespace_width (String c t).
Proof. intros E. by rewrite width_conts, E, <-width_conts. Qed.

(** The white space at the head of a text is made of its first bytes. *)
Lemma width_skip c s k : whitespace_width (String c s) = Some (S k) -> k <= length (conts 2 s).
Proof.
  rewrite width_conts. generalize (conts 2 s). intros l. destruct l as [|d [|e l]]; cbn;
    repeat case_match; intros [= <-]; cbn; lia.
Qed.

Lemma width_pos c s : whitespace_width (String c s) <> Some 0.
Proof. cbn. by repeat case_match. Qed.

Lemma conts_le n s : length (conts n s) <= String.length s.
Proof. revert n. induction s as [|c s IH]; intros [|n]; cbn; [lia..|]. case_match; cbn; [specialize (IH n)|]; lia. Qed.

Lemma conts_collapse n s : conts n (collapse 0 false s) = conts n s.
Proof.
  revert n. induction s as [|c s IH]; intros [|n]; [done..|]. cbn [collapse conts].
  destruct (is_continuation c) eqn:Hc.
  - rewrite width_continuation by done. cbn [conts]. by rewrite Hc, IH.
  - destruct (whitespace_width _) as [[|k]|]; cbn [conts]; by rewrite ?Hc.
Qed.

Lemma conts_trim_end n s : conts n (trim_end_blank s) = conts n s.
Proof.
  revert n. induction s as [|c s IH]; intros n; [done|]. cbn [trim_end_blank]. destruct n; [by case_match|].
  unfold is_blank. cbn [blank_from conts]. destruct (is_continuation c) eqn:Hc.
  - rewrite width_continuation by done. cbn [conts]. by rewrite Hc, IH.
  - destruct (match whitespace_width _ with Some (S k) => _ | _ => _ end); cbn [conts]; by rewrite ?Hc.
Qed.

Lemma conts_split n sep s x l : is_continuation sep = false -> str_split sep s = x :: l -> conts n x = conts n s.
Proof.
  intros Hsep. revert n x l. induction s as [|c s IH]; intros [|n] x l; cbn [str_split]; [by intros [= <- _]..|done|].
  destruct (Ascii.eqb_spec c sep) as [->|_]; [intros [= <- _]; cbn; by rewrite Hsep|].
  destruct (str_split sep s) as [|y l'] eqn:E; intros [= <- _]; cbn [conts].
  - destruct s; cbn in E; repeat case_match; done.
  - by rewrite (IH n y l' eq_refl).
Qed.

(** ** The words of a pipeline *)

Definition flush (word : string) : list string := if is_empty_str word then [] else [word].

Definition prepend (l : list string) (stages : list (list string)) : list (list string) :=
  match stages with x :: r => (l ++ x) :: r | [] => [l] end.

(** The words of each stage, read in one pass. *)
Fixpoint stage_words (skip : nat) (word s : string) : list (list string) :=
  match s with
  | EmptyString => [flush word]
  | String c s' =>
      match skip with
      | S k => stage_words k word s'
      | O => match whitespace_width s with
             | Some (S k) => prepend (flush word) (stage_words k "" s')
             | _ => if Ascii.eqb c "|" then flush word :: stage_words 0 "" s'
                    else stage_words 0 (word +:+ String c "") s'
             end
      end
  end.

Lemma stage_words_cons skip word s : exists x l, stage_words skip word s = x :: l.
Proof.
  revert skip word. induction s as [|c s IH]; intros skip word; cbn [stage_words]; [by eexists _, _|].
  destruct skip; [|by apply IH]. destruct (whitespace_width _) as [[|k]|]; [|destruct (IH k "") as (x&l&->); by eexists _, _|];
    (case_match; [by eexists _, _|by apply IH]).
Qed.

Lemma prepend_nil skip word s : prepend [] (stage_words skip word s) = stage_words skip word s.
Proof. by destruct (stage_words_cons skip word s) as (x&l&->). Qed.

Lemma conts_mono n s : length (conts n s) <= length (conts (S n) s).
Proof. revert n. induction s as [|c s IH]; intros [|n]; cbn; [lia..|]. case_match; cbn; [apply le_n_S, IH|lia]. Qed.

(** A skipped byte is a continuation byte. *)
Lemma skip_conts k c s : S k <= length (conts 2 (String c s)) -> is_continuation c = true /\ k <= length (conts 2 s).
Proof.
  change (conts 2 (String c s)) with (if is_continuation c then c :: conts 1 s else []).
  pose proof (conts_mono 1 s). destruct (is_continuation c); cbn [length]; [|lia]. intros Hk. split; [done|lia].
Qed.

Lemma stage_words_split skip word s :
  skip <= length (conts 2 s) ->
  stage_words skip word s
  = match str_split "|" s with x :: l => words_from skip word x :: (split_whitespace <$> l) | [] => [] end.
Proof.
  revert skip word. induction s as [|c s IH]; intros skip word Hskip; [done|]. cbn [str_split stage_words].
  assert (exists x l, str_split "|" s = x :: l) as (x&l&Hs).
  { destruct s as [|d s]; cbn; [by eexists _, _|]. repeat case_match; by eexists _, _. }
  rewrite Hs in *. destruct skip as [|k].
  - assert (whitespace_width (String c x) = whitespace_width (String c s)) as Hw.
    { apply width_same. by eapply (conts_split _ "|"). }
    destruct (Ascii.eqb_spec c "|") as [->|_].
    + rewrite visible_width by done. rewrite IH by apply Nat.le_0_l. done.
    + cbn [words_from]. rewrite Hw. clear Hw. destruct (whitespace_width (String c s)) as [[|k]|] eqn:E; [by destruct (width_pos c s)| |apply IH, Nat.le_0_l].
      rewrite IH by (by eapply width_skip). done.
  - apply skip_conts in Hskip as [Hc Hk]. destruct (Ascii.eqb_spec c "|") as [->|_]; [done|]. cbn [words_from]. by apply IH.
Qed.

Lemma stage_words_collapse skip last word s :
  (last = true -> word = "") -> stage_words 0 word (collapse skip last s) = stage_words skip word s.
Proof.
  revert skip last word. induction s as [|c s IH]; intros skip last word Hl; [done|]. cbn [collapse stage_words].
  destruct skip; [|by apply IH]. destruct (whitespace_width (String c s)) as [[|k]|] eqn:E; [by destruct (width_pos c s)| |].
  - destruct last.
    + rewrite Hl, prepend_nil by done. by apply IH.
    + cbn [stage_words]. change (whitespace_width (String " " _)) with (Some 1). cbn [Nat.pred]. by rewrite IH.
  - cbn [stage_words]. rewrite (width_same c _ s), E by apply conts_collapse. case_match; by rewrite IH.
Qed.

Lemma stage_words_blank skip word s : blank_from skip s = true -> stage_words skip word s = [flush word].
Proof.
  revert skip word. induction s as [|c s IH]; intros skip word; [done|]. cbn [blank_from stage_words].
  destruct skip; [|by apply IH]. destruct (whitespace_width _) as [[|k]|]; try done. intros Hb.
  rewrite IH by done. cbn. by rewrite app_nil_r.
Qed.

Lemma stage_words_trim_end skip word s :
  skip <= length (conts 2 s) -> stage_words skip word (trim_end_blank s) = stage_words skip word s.
Proof.
  revert skip word. induction s as [|c s IH]; intros skip word Hskip; [done|]. cbn [trim_end_blank].
  destruct (is_blank (String c s)) eqn:Hb.
  - destruct skip; [by rewrite (stage_words_blank 0 word (String c s))|]. apply skip_conts in Hskip as [Hc _].
    unfold is_blank in Hb. cbn [blank_from] in Hb. by rewrite width_continuation in Hb.
  - cbn [stage_words]. destruct skip; [|apply IH, (skip_conts _ c); lia].
    rewrite (width_same c _ s) by apply conts_trim_end.
    destruct (whitespace_width (String c s)) as [[|k]|] eqn:E; [by destruct (width_pos c s)|rewrite IH; [done|by eapply width_skip]|].
    case_match; by rewrite IH by lia.
Qed.

Lemma stage_words_trim_start skip s : stage_words 0 "" (trim_start_from skip s) = stage_words skip "" s.
Proof.
  revert skip. induction s as [|c s IH]; intros skip; [done|]. cbn [trim_start_from]. destruct skip; [|by apply IH].
  destruct (whitespace_width _) as [[|k]|] eqn:E; try done. cbn [stage_words]. by rewrite E, prepend_nil.
Qed.

(** Normalizing a command changes no word of any stage. *)
Lemma normalized_stages s :
  split_whitespace <$> str_split "|" (normalize_input s) = split_whitespace <$> str_split "|" s.
Proof.
  assert (forall t, split_whitespace <$> str_split "|" t = stage_words 0 "" t) as E.
  { intros t. rewrite stage_words_split by lia. by destruct (str_split "|" t). }
  rewrite !E. unfold normalize_input, trim.
  by rewrite stage_words_collapse, stage_words_trim_end, stage_words_trim_start by (done || lia).
Qed.

Lemma split_cons sep s : exists x l, str_split sep s = x :: l.
Proof. destruct s as [|d s]; cbn; [by eexists _, _|]. repeat case_match; by eexists _, _. Qed.

(** ** What an allowlist allows *)

Definition begins_with_entry (entries : list string) (stage : list string) : Prop :=
  exists e, e ∈ entries /\ split_whitespace e <> [] /\ split_whitespace e `prefix_of` stage.

Lemma is_token_prefix_spec e input : is_token_prefix e input = true <-> ae_tokens e `prefix_of` input.
Proof.
  destruct e as [tokens]. unfold is_token_prefix. cbn. revert input.
  induction tokens as [|t tokens IH]; intros [|u input]; cbn.
  - split; [intros _; apply prefix_nil|done].
  - split; [intros _; apply prefix_nil|done].
  - split; [done|]. intros H%prefix_nil_not. done.
  - specialize (IH input). rewrite andb_true_iff in IH. rewrite !andb_true_iff, String.eqb_eq. split.
    + intros (?&->&?). apply prefix_cons, IH. done.
    + intros H. pose proof (prefix_cons_inv_1 _ _ _ _ H) as ->. apply prefix_cons_inv_2, IH in H. naive_solver.
Qed.

Lemma compiled_entries_match {E} es scope (eb : string -> string -> AllowlistEntryErrorKind -> E) entries input :
  compile_allowlist_entries es scope eb = Ok entries ->
  matches_any_entry entries input = true <-> begins_with_entry es input.
Proof.
  revert entries. induction es as [|e es IH]; intros entries; cbn [compile_allowlist_entries].
  - intros [= <-]. split; [done|]. by intros (?&?%not_elem_of_nil&_).
  - intros (c&Hc&(rest&Hrest&[= <-])%result_bind_Ok)%result_bind_Ok.
    assert (ae_tokens c = split_whitespace e /\ split_whitespace e <> []) as [Ht Hne].
    { destruct (List.find _ _); [done|]. destruct (split_whitespace e) eqn:Es; [done|]. by injection Hc as <-. }
    unfold matches_any_entry, begins_with_entry. cbn [existsb]. rewrite orb_true_iff, is_token_prefix_spec, Ht.
    fold (matches_any_entry rest input). rewrite (IH rest Hrest). split.
    + intros [?|(e'&?&?)]; [exists e; split_and!; [left|done..]|exists e'; split; [by right|done]].
    + intros (e'&[->|?]%elem_of_cons&?&?); [by left|right; by exists e'].
Qed.

Lemma forallb_stages pipes l :
  forallb (fun stage => matches_any_entry pipes (split_whitespace stage)) l = true <->
  Forall (fun stage => matches_any_entry pipes stage = true) (split_whitespace <$> l).
Proof. induction l as [|s l IH]; cbn; [done|]. by rewrite andb_true_iff, Forall_cons, IH. Qed.

Lemma evaluate_allowlist_allows `{Globs} {A} command al :
  is_allowed (A := A) (evaluate_allowlist command al) = true <->
  contains_forbidden_metachar command = false /\
  exists first rest, split_whitespace <$> str_split "|" command = first :: rest /\
    matches_any_entry (al_entries al) first = true /\
    Forall (fun stage => matches_any_entry (al_allowed_pipes al) stage = true) rest.
Proof.
  unfold evaluate_allowlist. rewrite <-normalized_stages.
  destruct (split_cons "|" (normalize_input command)) as (x&l&->). cbn [head tail fmap list_fmap].
  change (default "" (Some x)) with x.
  destruct (contains_forbidden_metachar command); [split; [done|by intros [? _]]|].
  destruct (matches_any_entry (al_entries al) (split_whitespace x)) eqn:Hx; cbn [negb].
  2: { split; [done|]. intros (_&first&rest&[= <- <-]&E&_). congruence. }
  destruct (forallb _ l) eqn:Hl; split; try done.
  - intros _. split; [done|]. exists (split_whitespace x), (split_whitespace <$> l). by rewrite <-forallb_stages.
  - intros (_&first&rest&[= <- <-]&_&E%forallb_stages). congruence.
Qed.

(** ** Which rule decides *)

Section decides.
Context `{Globs} {A : Type} `{EqDecision A}.
Implicit Types r a b c : CompiledRule A.

Lemma rule_cmp_lt a b : rule_cmp a b = Lt <-> rule_cmp b a = Gt.
Proof.
  unfold rule_cmp. rewrite (Nat.compare_antisym (cr_specificity a).1), (Nat.compare_antisym (cr_specificity a).2).
  destruct (_ ?= _)%nat, (_ ?= _)%nat, (cr_source a), (cr_source b); done.
Qed.

Lemma rule_cmp_trans a b c : rule_cmp a b <> Gt -> rule_cmp b c <> Gt -> rule_cmp a c <> Gt.
Proof.
  unfold rule_cmp. generalize (cr_specificity a) (cr_specificity b) (cr_specificity c). intros [x1 x2] [y1 y2] [z1 z2]. cbn.
  repeat match goal with |- context [(?u ?= ?v)%nat] => destruct (Nat.compare_spec u v) end; try done; try lia;
    destruct (cr_source a), (cr_source b), (cr_source c); done || lia.
Qed.

Lemma rule_cmp_lt_trans a b c : rule_cmp a b <> Gt -> rule_cmp b c = Lt -> rule_cmp a c = Lt.
Proof.
  intros Hab Hbc. destruct (rule_cmp a c) eqn:Hac; [|done|].
  - exfalso. apply rule_cmp_lt in Hbc. apply (rule_cmp_trans c a b); [|done|done].
    intros E%rule_cmp_lt. congruence.
  - exfalso. apply (rule_cmp_trans a b c); [done|congruence|done].
Qed.

(** [r] is the last of the most specific rules in [l]. *)
Definition decides (r : CompiledRule A) (l : list (CompiledRule A)) : Prop :=
  exists before after, l = before ++ r :: after /\
    Forall (fun x => rule_cmp x r <> Gt) before /\ Forall (fun x => rule_cmp x r = Lt) after.

Lemma max_rule_elem l r : foldl max_rule None l = Some r -> r ∈ l.
Proof.
  revert r. induction l as [|x l IH] using rev_ind; intros r; [done|]. rewrite foldl_snoc, elem_of_app, list_elem_of_singleton.
  unfold max_rule at 1. destruct (foldl max_rule None l) as [a|]; [|intros [= ->]; by right].
  case_match; intros [= <-]; [by right|by right|left; by apply IH].
Qed.

Lemma max_rule_None (l : list (CompiledRule A)) : foldl max_rule None l = None -> l = [].
Proof.
  induction l as [|x l _] using rev_ind; [done|]. rewrite foldl_snoc. unfold max_rule at 1. by repeat case_match.
Qed.

Lemma max_rule_decides l r : foldl max_rule None l = Some r <-> decides r l.
Proof.
  split.
  - revert r. induction l as [|x l IH] using rev_ind; intros r; [done|]. rewrite foldl_snoc.
    destruct (foldl max_rule None l) as [a|] eqn:E; cbn [max_rule].
    + destruct (IH a eq_refl) as (before&after&Hl&Hb&Ha).
      assert (rule_cmp a x <> Gt -> decides x (l ++ [x])) as Hx.
      { intros Hax. exists l, []. split; [done|]. split; [|done]. rewrite Hl. apply Forall_app. split.
        - eapply Forall_impl; [exact Hb|]. intros y Hy. by apply (rule_cmp_trans y a x).
        - constructor; [done|]. eapply Forall_impl; [exact Ha|]. intros y Hy. apply (rule_cmp_trans y a x); [congruence|done]. }
      destruct (rule_cmp a x) eqn:Hax; intros [= <-]; [by apply Hx|by apply Hx|].
      exists before, (after ++ [x]). rewrite Hl, <-app_assoc. split; [done|]. split; [done|].
      apply Forall_app. split; [done|]. constructor; [by apply rule_cmp_lt|done].
    + apply max_rule_None in E as ->. intros [= <-]. by exists [], [].
  - intros (before&after&->&Hb&Ha). rewrite foldl_app. cbn [foldl].
    assert (max_rule (foldl max_rule None before) r = Some r) as ->.
    { destruct (foldl max_rule None before) as [a|] eqn:E; [|done]. apply max_rule_elem in E.
      rewrite Forall_forall in Hb. specialize (Hb a E). cbn. by destruct (rule_cmp a r). }
    induction Ha as [|x after Hx Ha IH]; [done|]. cbn [foldl max_rule]. apply rule_cmp_lt in Hx. by rewrite Hx.
Qed.

Lemma evaluate_decides rules candidate r :
  evaluate rules candidate = Some r <-> decides r (matching rules candidate).
Proof. apply max_rule_decides. Qed.

(** A deny rule decides about [candidate]. *)
Definition denied_by (rules : list (CompiledRule A)) (deny_action : A) (candidate : string) r : Prop :=
  decides r (matching rules candidate) /\ cr_action r = deny_action.

Lemma evaluate_denied (rules : list (CompiledRule A)) deny_action candidate {B} (f : CompiledRule A -> B) (d : B) :
  (exists r, denied_by rules deny_action candidate r /\
     match evaluate rules candidate with
     | Some rule => if bool_decide (cr_action rule = deny_action) then f rule else d
     | None => d
     end = f r) \/
  ((forall r, ~ denied_by rules deny_action candidate r) /\
     match evaluate rules candidate with
     | Some rule => if bool_decide (cr_action rule = deny_action) then f rule else d
     | None => d
     end = d).
Proof.
  unfold denied_by. destruct (evaluate rules candidate) as [r|] eqn:E.
  - destruct (bool_decide_reflect (cr_action r = deny_action)) as [Ha|Ha].
    + left. exists r. by rewrite <-evaluate_decides.
    + right. split; [|done]. intros r' [E'%evaluate_decides Hr']. congruence.
  - right. split; [|done]. intros r [E'%evaluate_decides _]. congruence.
Qed.

Lemma denied_unique rules deny_action candidate r r' :
  denied_by rules deny_action candidate r -> denied_by rules deny_action candidate r' -> r = r'.
Proof. intros [E%evaluate_decides _] [E'%evaluate_decides _]. congruence. Qed.

Lemma check_lines_spec rules deny_action idx lines :
  match check_lines rules deny_action idx lines with
  | Allow => forall n line r, lines !! n = Some line -> is_config_line (normalize_input line) = true ->
               ~ denied_by rules deny_action (normalize_input line) r
  | Deny r source (Some at_) => source = cr_source r /\ exists n line, at_ = idx + n + 1 /\ lines !! n = Some line /\
      is_config_line (normalize_input line) = true /\ denied_by rules deny_action (normalize_input line) r /\
      forall m line' r', m < n -> lines !! m = Some line' -> is_config_line (normalize_input line') = true ->
        ~ denied_by rules deny_action (normalize_input line') r'
  | _ => False
  end.
Proof.
  revert idx. induction lines as [|l lines IH]; intros idx; [by intros []|]. cbn [check_lines].
  assert ((is_config_line (normalize_input l) = true -> forall r, ~ denied_by rules deny_action (normalize_input l) r) ->
    match check_lines rules deny_action (S idx) lines with
    | Allow => forall n line r, (l :: lines) !! n = Some line -> is_config_line (normalize_input line) = true ->
                 ~ denied_by rules deny_action (normalize_input line) r
    | Deny r source (Some at_) => source = cr_source r /\ exists n line, at_ = idx + n + 1 /\ (l :: lines) !! n = Some line /\
        is_config_line (normalize_input line) = true /\ denied_by rules deny_action (normalize_input line) r /\
        forall m line' r', m < n -> (l :: lines) !! m = Some line' -> is_config_line (normalize_input line') = true ->
          ~ denied_by rules deny_action (normalize_input line') r'
    | _ => False
    end) as Hnext.
  { intros Hl. specialize (IH (S idx)). destruct (check_lines _ _ _ _) as [|r source [at_|]|]; try done.
    - intros [|n] line r; cbn; [intros [= <-]; auto|apply IH].
    - destruct IH as (->&n&line&->&Hn&Hc&Hd&Hb). split; [done|]. exists (S n), line. split; [lia|]. do 3 (split; [done|]).
      intros [|m] line' r' Hm; cbn; [intros [= <-]; auto|]. apply Hb. lia. }
  destruct (is_config_line (normalize_input l)) eqn:Hc; [|by apply Hnext].
  destruct (evaluate_denied rules deny_action (normalize_input l)
    (fun rule => Deny rule (cr_source rule) (Some (idx + 1))) (check_lines rules deny_action (S idx) lines)) as [(r&Hr&->)|[Hn ->]].
  - split; [done|]. exists 0, l. split; [lia|]. do 3 (split; [done|]). intros m line' r' Hm. lia.
  - apply Hnext. auto.
Qed.

End decides.

(** C14 A command allowlist is closed: under a policy whose entries compile, a
    command passes exactly if it has no separator, redirection, substitution
    or line break in it, its first stage begins with the words of an entry,
    and every stage after a pipe with those of an allowed pipe; the spacing of
    the command makes no difference. *)
Theorem allowlist_is_exact `{Globs} {A} `{EqDecision A} {E} (p : Policy A) es ps scope scope'
  (eb eb' : string -> string -> AllowlistEntryErrorKind -> E) entries pipes device command deny_action :
  compile_allowlist_entries es scope eb = Ok entries -> compile_allowlist_entries ps scope' eb' = Ok pipes ->
  po_command_mode p = AllowlistMode -> cd_allowlist (po_commands p) = {| al_entries := entries; al_allowed_pipes := pipes |} ->
  is_allowed (check_command p device command deny_action) = true <->
  contains_forbidden_metachar command = false /\
  exists first rest, split_whitespace <$> str_split "|" command = first :: rest /\
    begins_with_entry es first /\ Forall (begins_with_entry ps) rest.
Proof.
  intros Hes Hps Hm Hal. unfold check_command, check_domain. rewrite Hm, Hal, evaluate_allowlist_allows. cbn [al_entries al_allowed_pipes].
  assert (forall rest, Forall (fun stage => matches_any_entry pipes stage = true) rest <-> Forall (begins_with_entry ps) rest) as Hrest.
  { intros rest. apply Forall_iff. intros stage. by apply (compiled_entries_match ps scope' eb'). }
  setoid_rewrite (compiled_entries_match es scope eb entries _ Hes). by setoid_rewrite Hrest.
Qed.

(** The most specific rule decides about configuration: text is accepted
    exactly if no line that is configuration is denied by the most specific
    rule that matches it, a rule of the device before a default one and a
    later one before an earlier one; otherwise the first such line is
    reported with its rule, and no text is looked at in a format the rules
    cannot be matched against. *)
Theorem config_decided_by_most_specific `{Globs} {A} `{EqDecision A} {E} (p : Policy A)
  device format text deny_action expected (eb : string -> E) :
  let rules := config_rules_for p device in
  let denied line := denied_by rules deny_action (normalize_input line) in
  match check_config p device format text deny_action expected eb with
  | Err e => e = eb format /\ format <> expected /\ has_config_rules_for p device = true
  | Ok Allow => has_config_rules_for p device = false \/
      format = expected /\ forall n line r, config_lines text !! n = Some line ->
        is_config_line (normalize_input line) = true -> ~ denied line r
  | Ok (Deny r source (Some at_)) => format = expected /\ source = cr_source r /\ exists n line,
      at_ = S n /\ config_lines text !! n = Some line /\
      is_config_line (normalize_input line) = true /\ denied line r /\
      forall m line' r', m < n -> config_lines text !! m = Some line' ->
        is_config_line (normalize_input line') = true -> ~ denied line' r'
  | Ok _ => False
  end.
Proof.
  intros rules denied. unfold check_config, denied. fold rules.
  assert (has_config_rules_for p device = match rules with [] => false | _ => true end) as ->.
  { unfold has_config_rules_for, rules, config_rules_for, rules_for. destruct (dr_defaults _); [|done].
    by destruct (dr_device_specific _ !! device) as [[|]|]. }
  destruct rules as [|r0 rules'] eqn:Er; [by left|]. rewrite <-Er.
  destruct (String.eqb_spec format expected) as [->|Hf]; [|done].
  pose proof (check_lines_spec rules deny_action 0 (config_lines text)) as Hs.
  destruct (check_lines _ _ _ _) as [|r source [at_|]|]; try done; [by right|].
  destruct Hs as (->&n&line&->&Hs). split; [done|]. split; [done|]. exists n, line. split; [lia|done].
Qed.
