(* ===== verification/XmlPath.v ===== *)
(** * Element paths of XML documents

    crates/mecmcp-policy/src/xml_path.rs: the walk over the elements of a
    document, the paths a read policy blocks because of them, and the one path
    of a command document.  The parser is that of a library: [XmlReader]. *)

From S2P Require Import Prelude Text Policy.
From Stdlib Require Import Ascii.

Open Scope list_scope.

(** ** Events of the parser *)

(** The local name of an element, and its attributes: each can fail to parse
    and to normalize. *)
Record XmlTag := { tag_local_name : string; tag_attributes : list (result (result string string) string) }.

(** An entity reference: [resolve_char_ref] and [resolve_predefined_entity]. *)
Record XmlRef := { ref_char : result (option N) string; ref_predefined : bool }.

Inductive XmlEvent :=
| Start (tag : XmlTag)
| Empty (tag : XmlTag)
| End
| DocType
| GeneralRef (bytes_ref : XmlRef)
| OtherEvent.

(** [quick_xml::Reader::read_event] over a document: the events, and the error
    they end with unless they end with [Eof]; [{:?}] of a string. *)
Class XmlReader := {
  xml_events : string -> list XmlEvent * option string;
  debug_text : string -> string;
}.

(** ** Walking a document *)

Definition MAX_DEPTH : nat := 512.
Definition MAX_ELEMENTS : N := 50000.

Inductive XmlPathError := InvalidXml (why : string) | TooDeep | TooLarge | AmbiguousCommand.

Notation ElementPath := (list string) (only parsing).

Definition path_string (path : ElementPath) : string := str_join "/" path.

Definition RESERVED_NAME_CHARS : list ascii := ["/"; "*"; "?"; "["; "]"; "{"; "}"; "\"]%char.

(** What a walk goes through: the names of the open elements, the innermost
    first, how many elements there were, and what the visitor made of them. *)
Record Walk (S : Type) := { wk_stack : list string; wk_count : N; wk_seen : S }.
#[global] Arguments wk_stack {S} _.
#[global] Arguments wk_count {S} _.
#[global] Arguments wk_seen {S} _.

Section walk.
Context `{XmlReader}.

Definition local_name (tag : XmlTag) : result string XmlPathError :=
  let name := tag_local_name tag in
  ensure negb (is_empty_str name || contains_whitespace name
               || str_exists (fun c => bool_decide (c ∈ RESERVED_NAME_CHARS)) name)
    else (InvalidXml ("element name " +:+ debug_text name +:+ " is not a well-formed XML name"));
  Ok name.

Fixpoint validate_attributes (attributes : list (result (result string string) string)) : result unit XmlPathError :=
  match attributes with
  | [] => Ok tt
  | Err e :: _ => Err (InvalidXml e)
  | Ok (Err e) :: _ => Err (InvalidXml e)
  | Ok (Ok _) :: attributes => validate_attributes attributes
  end.

Definition validate_attrs (tag : XmlTag) : result unit XmlPathError := validate_attributes (tag_attributes tag).

Definition reject_non_predefined_ref (r : XmlRef) : result unit XmlPathError :=
  let? char := map_err InvalidXml (ref_char r) in
  match char with
  | Some _ => Ok tt
  | None => ensure ref_predefined r else (InvalidXml "entity reference is not accepted"); Ok tt
  end.

Section visitor.
Context {S : Type}.
Variable on_element : ElementPath -> S -> S.

(** An element opens: the stack with its name, after the visit. *)
Definition enter (w : Walk S) (tag : XmlTag) : result (Walk S) XmlPathError :=
  ensure negb (MAX_DEPTH <=? length (wk_stack w))%nat else TooDeep;
  check? validate_attrs tag;
  ensure negb (MAX_ELEMENTS <? wk_count w + 1)%N else TooLarge;
  let? name := local_name tag in
  let stack := name :: wk_stack w in
  Ok {| wk_stack := stack; wk_count := wk_count w + 1; wk_seen := on_element (reverse stack) (wk_seen w) |}.

Definition leave (w : Walk S) : result (Walk S) XmlPathError :=
  match wk_stack w with
  | _ :: stack => Ok {| wk_stack := stack; wk_count := wk_count w; wk_seen := wk_seen w |}
  | [] => Err (InvalidXml "unmatched closing tag")
  end.

Definition walk_event (w : Walk S) (event : XmlEvent) : result (Walk S) XmlPathError :=
  match event with
  | Start tag => enter w tag
  | Empty tag => let? inside := enter w tag in leave inside
  | End => leave w
  | DocType => Err (InvalidXml "DOCTYPE is not accepted")
  | GeneralRef r => check? reject_non_predefined_ref r; Ok w
  | OtherEvent => Ok w
  end.

Fixpoint walk_events (w : Walk S) (events : list XmlEvent) (ending : option string) : result S XmlPathError :=
  match events with
  | event :: events => let? w := walk_event w event in walk_events w events ending
  | [] =>
      match ending with
      | Some e => Err (InvalidXml e)
      | None =>
          ensure match wk_stack w with [] => true | _ => false end else (InvalidXml "unclosed element");
          ensure negb (wk_count w =? 0)%N else (InvalidXml "document has no root element");
          Ok (wk_seen w)
      end
  end.

Definition walk_elements (xml : string) (start : S) : result S XmlPathError :=
  walk_events {| wk_stack := []; wk_count := 0; wk_seen := start |} (xml_events xml).1 (xml_events xml).2.

End visitor.

Definition element_paths (xml : string) : result (list ElementPath) XmlPathError :=
  walk_elements (fun path paths => paths ++ [path]) xml [].

(** ** Blocked paths *)

(** The end of each segment in the joined path. *)
Fixpoint offsets_from (sep end_offset : nat) (path : ElementPath) : list nat :=
  match path with
  | [] => []
  | segment :: path =>
      let end_offset := end_offset + sep + String.length segment in
      end_offset :: offsets_from 1 end_offset path
  end.

(** The slices of the joined path, the shortest first. *)
Definition prefixes (path : ElementPath) : list string :=
  (fun offset => String.substring 0 offset (path_string path)) <$> offsets_from 0 0 path.

Record Blocking := { bl_blocked : gset string; bl_directly_denied : gset string; bl_last_path : option ElementPath }.

(** The slices enter the set, the longest first, up to one that is there. *)
Fixpoint block_up (slices : list string) (blocked : gset string) : gset string :=
  match slices with
  | [] => blocked
  | slice :: slices => if bool_decide (slice ∈ blocked) then blocked else block_up slices ({[ slice ]} ∪ blocked)
  end.

Section blocking.
Context `{Globs} {A : Type} `{EqDecision A}.

Definition block_path (rules : list (CompiledRule A)) (deny_action : A) (path : ElementPath) (b : Blocking) : Blocking :=
  if bool_decide (bl_last_path b = Some path) then b else
  let candidate := path_string path in
  let slices := prefixes path in
  let descendant_of_denied := existsb (fun slice => bool_decide (slice ∈ bl_directly_denied b)) (removelast slices) in
  let directly_matches := match evaluate rules candidate with
                          | Some rule => bool_decide (cr_action rule = deny_action)
                          | None => false
                          end in
  {| bl_blocked := if directly_matches || descendant_of_denied then block_up (reverse slices) (bl_blocked b)
                   else bl_blocked b;
     bl_directly_denied := if directly_matches then {[ candidate ]} ∪ bl_directly_denied b else bl_directly_denied b;
     bl_last_path := Some path |}.

Definition blocked_read_paths (rules : list (CompiledRule A)) (xml : string) (deny_action : A) :
  result (gset string) XmlPathError :=
  let? b := walk_elements (block_path rules deny_action) xml
              {| bl_blocked := ∅; bl_directly_denied := ∅; bl_last_path := None |} in
  Ok (bl_blocked b).

End blocking.

Definition is_read_blocked (blocked : gset string) (requested_path : ElementPath) : bool :=
  bool_decide (path_string requested_path ∈ blocked).

(** ** Commands *)

Record Frame := { fr_name : string; fr_child_count : nat }.

Record Chain := {
  ch_stack : list Frame;
  ch_root_seen : bool;
  ch_count : N;
  ch_leaf_path : option ElementPath;
}.

(** An element opens: the second child of its parent and the second root are
    refused. *)
Definition open_element (ch : Chain) : result Chain XmlPathError :=
  ensure negb (MAX_DEPTH <=? length (ch_stack ch))%nat else TooDeep;
  let? opened :=
    match ch_stack ch with
    | parent :: ancestors =>
        let parent := {| fr_name := fr_name parent; fr_child_count := fr_child_count parent + 1 |} in
        ensure negb (1 <? fr_child_count parent)%nat else AmbiguousCommand;
        Ok (parent :: ancestors, ch_root_seen ch)
    | [] => ensure negb (ch_root_seen ch) else AmbiguousCommand; Ok ([], true)
    end in
  ensure negb (MAX_ELEMENTS <? ch_count ch + 1)%N else TooLarge;
  Ok {| ch_stack := opened.1; ch_root_seen := opened.2; ch_count := ch_count ch + 1; ch_leaf_path := ch_leaf_path ch |}.

Definition record_if_leaf (leaf_path : option ElementPath) (child_count : nat) (ancestors : list Frame) (name : string) :
  result (option ElementPath) XmlPathError :=
  if negb (child_count =? 0)%nat then Ok leaf_path
  else match leaf_path with
       | Some _ => Err AmbiguousCommand
       | None => Ok (Some (reverse (fr_name <$> ancestors) ++ [name]))
       end.

Definition chain_event (ch : Chain) (event : XmlEvent) : result Chain XmlPathError :=
  match event with
  | Start tag =>
      check? validate_attrs tag;
      let? ch := open_element ch in
      let? name := local_name tag in
      Ok {| ch_stack := {| fr_name := name; fr_child_count := 0 |} :: ch_stack ch; ch_root_seen := ch_root_seen ch;
            ch_count := ch_count ch; ch_leaf_path := ch_leaf_path ch |}
  | Empty tag =>
      check? validate_attrs tag;
      let? ch := open_element ch in
      let? name := local_name tag in
      let? leaf := record_if_leaf (ch_leaf_path ch) 0 (ch_stack ch) name in
      Ok {| ch_stack := ch_stack ch; ch_root_seen := ch_root_seen ch; ch_count := ch_count ch; ch_leaf_path := leaf |}
  | End =>
      match ch_stack ch with
      | [] => Err (InvalidXml "unmatched closing tag")
      | frame :: stack =>
          let? leaf := record_if_leaf (ch_leaf_path ch) (fr_child_count frame) stack (fr_name frame) in
          Ok {| ch_stack := stack; ch_root_seen := ch_root_seen ch; ch_count := ch_count ch; ch_leaf_path := leaf |}
      end
  | DocType => Err (InvalidXml "DOCTYPE is not accepted")
  | GeneralRef r => check? reject_non_predefined_ref r; Ok ch
  | OtherEvent => Ok ch
  end.

Fixpoint chain_events (ch : Chain) (events : list XmlEvent) (ending : option string) : result string XmlPathError :=
  match events with
  | event :: events => let? ch := chain_event ch event in chain_events ch events ending
  | [] =>
      match ending with
      | Some e => Err (InvalidXml e)
      | None =>
          ensure match ch_stack ch with [] => true | _ => false end else (InvalidXml "unclosed element");
          ensure ch_root_seen ch else (InvalidXml "document has no root element");
          match ch_leaf_path ch with Some path => Ok (path_string path) | None => Err AmbiguousCommand end
      end
  end.

Definition canonical_command_path (xml_command : string) : result string XmlPathError :=
  chain_events {| ch_stack := []; ch_root_seen := false; ch_count := 0; ch_leaf_path := None |}
    (xml_events xml_command).1 (xml_events xml_command).2.

End walk.

(** ** Joined paths *)

Lemma str_join_cons sep x y l : str_join sep (x :: y :: l) = x +:+ sep +:+ str_join sep (y :: l).
Proof.
  unfold str_join. cbn [foldl]. revert x y. induction l as [|z l IH]; intros x y; [done|]. cbn [foldl].
  rewrite <-(IH x (y +:+ sep +:+ z)). f_equal. by rewrite !str_app_assoc.
Qed.

Lemma path_string_snoc p x : p <> [] -> path_string (p ++ [x]) = path_string p +:+ String "/" x.
Proof. destruct p as [|y p]; [done|]. intros _. unfold path_string, str_join. cbn. by rewrite foldl_app. Qed.

Lemma str_split_none sep x : contains_char sep x = false -> str_split sep x = [x].
Proof.
  unfold contains_char. induction x as [|c x IH]; [done|]. cbn. rewrite Ascii.eqb_sym.
  intros [-> Hx]%orb_false_iff. by rewrite IH.
Qed.

Lemma str_split_app sep x y : contains_char sep x = false -> str_split sep (x +:+ String sep y) = x :: str_split sep y.
Proof.
  unfold contains_char. induction x as [|c x IH].
  { intros _. rewrite str_app_nil. cbn [str_split]. by rewrite Ascii.eqb_refl. }
  rewrite str_app_cons. cbn [str_split str_exists]. rewrite (Ascii.eqb_sym sep c). intros [-> Hx]%orb_false_iff. by rewrite IH.
Qed.

Definition no_slash (s : string) : Prop := contains_char "/" s = false.

Lemma split_path_string p : p <> [] -> Forall no_slash p -> str_split "/" (path_string p) = p.
Proof.
  unfold path_string. intros Hne Hp. induction Hp as [|x p Hx Hp IH]; [done|].
  destruct p as [|y p]; [by apply str_split_none|]. rewrite str_join_cons. cbn [String.append].
  change (x +:+ "/" +:+ str_join "/" (y :: p)) with (x +:+ String "/" (str_join "/" (y :: p))).
  rewrite str_split_app by done. by rewrite IH.
Qed.

Lemma path_string_inj p q :
  p <> [] -> q <> [] -> Forall no_slash p -> Forall no_slash q -> path_string p = path_string q -> p = q.
Proof. intros ? ? ? ? E. by rewrite <-(split_path_string p), E, split_path_string. Qed.

(** ** Prefixes of a path *)

Fixpoint inits_from (before path : list string) : list (list string) :=
  match path with
  | [] => []
  | x :: path => (before ++ [x]) :: inits_from (before ++ [x]) path
  end.

Definition inits (path : list string) : list (list string) := inits_from [] path.

Lemma elem_of_inits_from before path q :
  q ∈ inits_from before path <-> exists r, r <> [] /\ r `prefix_of` path /\ q = before ++ r.
Proof.
  revert before. induction path as [|x path IH]; intros before; cbn [inits_from].
  - split; [by intros ?%not_elem_of_nil|]. by intros (r&?&?%prefix_nil_inv&_).
  - rewrite elem_of_cons, IH. split.
    + intros [->|(r&?&?&->)]; [exists [x]; split_and!; [done|apply prefix_cons, prefix_nil|done]|].
      exists (x :: r). split_and!; [done|by apply prefix_cons|by rewrite <-app_assoc].
    + intros (r&Hr&Hp&->). destruct r as [|y r]; [done|]. pose proof (prefix_cons_inv_1 _ _ _ _ Hp) as ->.
      apply prefix_cons_inv_2 in Hp. destruct r as [|y r]; [by left|]. right. exists (y :: r).
      split_and!; [done|done|by rewrite <-app_assoc].
Qed.

Lemma elem_of_inits path q : q ∈ inits path <-> q <> [] /\ q `prefix_of` path.
Proof.
  unfold inits. rewrite elem_of_inits_from. split; [by intros (r&?&?&->)|]. intros [? ?]. by exists q.
Qed.

Lemma inits_from_snoc before path x : inits_from before (path ++ [x]) = inits_from before path ++ [before ++ path ++ [x]].
Proof.
  revert before. induction path as [|y path IH]; intros before; cbn [inits_from app]; [done|].
  rewrite IH, <-!app_assoc. done.
Qed.

Lemma inits_snoc path x : inits (path ++ [x]) = inits path ++ [path ++ [x]].
Proof. apply inits_from_snoc. Qed.

Lemma inits_lookup_length path i q : inits path !! i = Some q -> length q = S i.
Proof.
  unfold inits. assert (forall before, inits_from before path !! i = Some q -> length q = length before + S i) as Hgen.
  { revert i. induction path as [|x path IH]; intros i before; [done|]. destruct i; cbn.
    - intros [= <-]. by rewrite length_app.
    - intros E%IH. rewrite E, length_app. cbn. lia. }
  intros E%Hgen. done.
Qed.

Lemma length_inits path : length (inits path) = length path.
Proof.
  unfold inits. generalize (@nil string). induction path as [|x path IH]; intros before; [done|]. cbn. by rewrite IH.
Qed.

Lemma inits_inj p q : inits p = inits q -> p = q.
Proof.
  intros E. destruct p as [|x p] using rev_ind; destruct q as [|y q _] using rev_ind; [done|..].
  - by rewrite inits_snoc in E; destruct (inits q).
  - by rewrite inits_snoc in E; destruct (inits p).
  - rewrite !inits_snoc in E. by apply app_inj_tail in E as [_ ?].
Qed.

Lemma removelast_snoc {A} (l : list A) x : removelast (l ++ [x]) = l.
Proof. rewrite removelast_app by done. apply app_nil_r. Qed.

(** The slices of the joined path are the joined prefixes. *)
Lemma substring_app x y : String.substring 0 (String.length x) (x +:+ y) = x.
Proof. induction x as [|c x IH]; [by destruct y|]. rewrite str_app_cons. cbn. by rewrite IH. Qed.

Lemma path_string_app p q : p <> [] -> exists rest, path_string (p ++ q) = path_string p +:+ rest.
Proof.
  intros Hp. induction q as [|x q IH] using rev_ind; [exists ""; by rewrite app_nil_r, str_app_nil_r|].
  destruct IH as [rest IH]. exists (rest +:+ String "/" x).
  rewrite app_assoc, path_string_snoc, IH, str_app_assoc; [done|]. by destruct p.
Qed.

Lemma prefixes_inits path : prefixes path = path_string <$> inits path.
Proof.
  assert (forall l before, before <> [] ->
    (fun offset => String.substring 0 offset (path_string (before ++ l)))
      <$> offsets_from 1 (String.length (path_string before)) l = path_string <$> inits_from before l) as Hgen.
  { induction l as [|x l IH]; intros before Hb; [done|]. cbn [offsets_from inits_from fmap list_fmap].
    assert (String.length (path_string before) + 1 + String.length x = String.length (path_string (before ++ [x]))) as ->.
    { rewrite path_string_snoc, str_length_app by done. cbn. lia. }
    assert (before ++ [x] <> []) by (by destruct before).
    replace (before ++ x :: l) with ((before ++ [x]) ++ l) by (by rewrite <-app_assoc). f_equal.
    - destruct (path_string_app (before ++ [x]) l) as [rest ->]; [done|]. apply substring_app.
    - by apply IH. }
  destruct path as [|x path]; [done|]. unfold prefixes, inits. cbn [offsets_from inits_from fmap list_fmap app].
  change (0 + 0 + String.length x) with (String.length (path_string [x])). f_equal.
  - destruct (path_string_app [x] path) as [rest E]; [done|]. cbn [app] in E. rewrite E. apply substring_app.
  - exact (Hgen path [x] ltac:(done)).
Qed.

(** ** What a walk visits *)

Section visited.
Context `{XmlReader}.

Definition collect (path : list string) (paths : list (list string)) : list (list string) := paths ++ [path].

Lemma enter_Ok {S} (f : list string -> S -> S) w tag w' :
  enter f w tag = Ok w' ->
  exists name, validate_attrs tag = Ok tt /\ local_name tag = Ok name /\ length (wk_stack w) < MAX_DEPTH /\
    (wk_count w + 1 <= MAX_ELEMENTS)%N /\
    w' = {| wk_stack := name :: wk_stack w; wk_count := wk_count w + 1;
            wk_seen := f (reverse (name :: wk_stack w)) (wk_seen w) |}.
Proof.
  unfold enter. destruct (MAX_DEPTH <=? _)%nat eqn:Hd; [done|]. apply Nat.leb_gt in Hd. cbn [negb].
  intros ([]&Ha&Hw)%result_bind_Ok. destruct (MAX_ELEMENTS <? _)%N eqn:Hc; [done|]. apply N.ltb_ge in Hc.
  cbn [negb] in Hw. apply result_bind_Ok in Hw as (name&Hn&[= <-]). by exists name.
Qed.

Lemma leave_Ok {S} (w w' : Walk S) :
  leave w = Ok w' -> exists name, wk_stack w = name :: wk_stack w' /\ wk_count w' = wk_count w /\ wk_seen w' = wk_seen w.
Proof. unfold leave. destruct (wk_stack w) as [|name stack]; [done|]. intros [= <-]. by exists name. Qed.

(** A walk that keeps less is the image of one that keeps more. *)
Lemma walk_map {S T} (g : S -> T) (f : list string -> S -> S) (f' : list string -> T -> T) w events ending :
  (forall p s, f' p (g s) = g (f p s)) ->
  walk_events f' {| wk_stack := wk_stack w; wk_count := wk_count w; wk_seen := g (wk_seen w) |} events ending
  = match walk_events f w events ending with Ok s => Ok (g s) | Err e => Err e end.
Proof.
  intros Hg. revert w. induction events as [|ev events IH]; intros w; cbn [walk_events].
  - destruct ending; [done|]. cbn. by repeat case_match.
  - assert (forall t, enter f' {| wk_stack := wk_stack w; wk_count := wk_count w; wk_seen := g (wk_seen w) |} t
      = match enter f w t with
        | Ok w => Ok {| wk_stack := wk_stack w; wk_count := wk_count w; wk_seen := g (wk_seen w) |} | Err e => Err e end) as He.
    { intros t. unfold enter. cbn [wk_stack wk_count wk_seen].
      destruct (MAX_DEPTH <=? _)%nat; cbn [negb]; [done|]. destruct (validate_attrs t); cbn [result_bind]; [|done].
      destruct (MAX_ELEMENTS <? _)%N; cbn [negb]; [done|]. destruct (local_name t); cbn [result_bind]; [|done]. by rewrite Hg. }
    destruct ev as [t|t| | |r|]; cbn [walk_event]; rewrite ?He.
    + destruct (enter f w t); cbn [result_bind]; [apply IH|done].
    + destruct (enter f w t) as [[[|n st] c s]|]; cbn [result_bind leave wk_stack]; [done| |done]. apply (IH {| wk_stack := st |}).
    + unfold leave. cbn [wk_stack]. destruct w as [[|n st] c s]; cbn [wk_stack result_bind]; [done|].
      apply (IH {| wk_stack := st; wk_count := c; wk_seen := s |}).
    + done.
    + destruct (reject_non_predefined_ref r); cbn [result_bind]; [apply IH|done].
    + apply IH.
Qed.

Lemma walk_elements_paths {S} (f : list string -> S -> S) xml start :
  walk_elements f xml start
  = match element_paths xml with Ok paths => Ok (foldl (fun s p => f p s) start paths) | Err e => Err e end.
Proof.
  unfold walk_elements, element_paths.
  apply (walk_map (foldl (fun s p => f p s) start) collect f {| wk_stack := []; wk_count := 0; wk_seen := [] |}).
  intros p s. unfold collect. by rewrite foldl_snoc.
Qed.

Definition good (path : list string) : Prop := path <> [] /\ Forall (fun name => no_slash name /\ name <> "") path.

(** Every element comes after the elements it is in. *)
Definition doc_order (l : list (list string)) : Prop :=
  forall before p after, l = before ++ p :: after -> forall q, q ∈ inits p -> q ∈ before ++ [p].

Lemma doc_order_snoc l p : doc_order l -> (forall q, q ∈ inits p -> q ∈ l ++ [p]) -> doc_order (l ++ [p]).
Proof.
  intros Hl Hp before p' after E q Hq. destruct after as [|a after _] using rev_ind.
  - apply app_inj_tail in E as [-> ->]. auto.
  - rewrite app_comm_cons, app_assoc in E. apply app_inj_tail in E as [-> _]. by eapply Hl.
Qed.

Lemma doc_order_prefix l p : doc_order (l ++ [p]) -> doc_order l /\ forall q, q ∈ inits p -> q ∈ l ++ [p].
Proof.
  intros Hl. split.
  - intros before p' after -> q. apply (Hl before p' (after ++ [p])). by rewrite <-app_assoc.
  - by apply (Hl l p []).
Qed.

Lemma local_name_good tag name : local_name tag = Ok name -> no_slash name /\ name <> "".
Proof.
  unfold local_name. destruct (negb _) eqn:E; [|done]. intros [= <-]. apply negb_true_iff in E.
  apply orb_false_iff in E as [[He _]%orb_false_iff Hr]. split; [|by intros Hn; rewrite Hn in He].
  unfold no_slash, contains_char. revert Hr. generalize (tag_local_name tag). intros s.
  induction s as [|c s IH]; [done|]. cbn [str_exists]. intros [Hc Hs]%orb_false_iff. apply orb_false_iff. split; [|auto].
  apply bool_decide_eq_false in Hc. destruct (Ascii.eqb_spec "/" c) as [<-|]; [|done]. exfalso. apply Hc. left.
Qed.

Record visits (w : Walk (list (list string))) : Prop := {
  vi_order : doc_order (wk_seen w);
  vi_good : Forall good (wk_seen w);
  vi_open : forall q, q ∈ inits (reverse (wk_stack w)) -> q ∈ wk_seen w;
  vi_names : Forall (fun name => no_slash name /\ name <> "") (wk_stack w);
  vi_count : wk_count w = N.of_nat (length (wk_seen w));
  vi_bound : (wk_count w <= MAX_ELEMENTS)%N;
  vi_depth : Forall (fun path => length path <= MAX_DEPTH) (wk_seen w);
}.

Lemma visits_enter w tag w' : visits w -> enter collect w tag = Ok w' -> visits w'.
Proof.
  intros [Ho Hg Hi Hn Hc Hb Hd] (name&_&Hname%local_name_good&Hlen&Hm&->)%enter_Ok. unfold collect. rewrite reverse_cons.
  assert (forall q, q ∈ inits (reverse (wk_stack w) ++ [name]) -> q ∈ wk_seen w ++ [reverse (wk_stack w) ++ [name]]) as Hq.
  { intros q. rewrite inits_snoc, !elem_of_app. intros [?|?]; auto. }
  split; cbn [wk_stack wk_seen].
  - by apply doc_order_snoc.
  - apply Forall_app. split; [done|]. constructor; [|done]. split; [by destruct (reverse _)|].
    apply Forall_app. split; [by apply Forall_reverse|by constructor].
  - by rewrite reverse_cons.
  - by constructor.
  - rewrite Hc, length_app. cbn. lia.
  - done.
  - apply Forall_app. split; [done|]. constructor; [|done]. rewrite length_app, length_reverse. cbn. lia.
Qed.

Lemma visits_leave w w' : visits w -> leave w = Ok w' -> visits w'.
Proof.
  intros [Ho Hg Hi Hn Hc Hb Hd] (name&Hs&Ec&E)%leave_Ok. rewrite Hs in Hi, Hn. rewrite reverse_cons in Hi.
  split; rewrite ?Ec, ?E; [done|done| |by apply Forall_cons in Hn as [_ ?]|done..].
  intros q Hq. apply Hi. rewrite inits_snoc. apply elem_of_app. by left.
Qed.

Lemma visits_events w events ending paths :
  visits w -> walk_events collect w events ending = Ok paths ->
  doc_order paths /\ Forall good paths /\ paths <> [] /\ (N.of_nat (length paths) <= MAX_ELEMENTS)%N /\
  Forall (fun path => length path <= MAX_DEPTH) paths.
Proof.
  revert w. induction events as [|ev events IH]; intros w Hw; cbn [walk_events].
  - destruct ending; [done|]. destruct Hw as [? ? _ _ Hc Hb ?]. destruct (wk_stack w); [|done].
    destruct (wk_count w =? 0)%N eqn:Hz; [done|]. intros [= <-]. split_and!; [done|done| |by rewrite <-Hc|done].
    intros E. by rewrite Hc, E in Hz.
  - intros (w'&Hev&Hrest)%result_bind_Ok. apply (IH w'); [|done]. destruct ev as [t|t| | |r|]; cbn [walk_event] in Hev.
    + by eapply visits_enter.
    + apply result_bind_Ok in Hev as (w1&H1&H2). eapply visits_leave; [|done]. by eapply visits_enter.
    + by eapply visits_leave.
    + done.
    + by apply result_bind_Ok in Hev as (?&_&[= <-]).
    + by injection Hev as <-.
Qed.

Lemma visits_start : visits {| wk_stack := []; wk_count := 0; wk_seen := [] |}.
Proof. split; cbn; [|done|by intros q ?%not_elem_of_nil|done..]. by intros [] ? ? [=]. Qed.

Lemma element_paths_ordered xml paths : element_paths xml = Ok paths -> doc_order paths /\ Forall good paths.
Proof. intros E. by destruct (visits_events _ _ _ _ visits_start E) as (?&?&_). Qed.

(** The paths of a document are well formed: there is at least one and at
    most as many as the walk admits, each is a non-empty list of names that a
    separator cannot occur in, no deeper than the walk goes, and each comes
    after those of the elements it is in. *)
Theorem element_paths_well_formed xml paths :
  element_paths xml = Ok paths ->
  paths <> [] /\ (N.of_nat (length paths) <= MAX_ELEMENTS)%N /\
  Forall (fun path => good path /\ length path <= MAX_DEPTH) paths /\ doc_order paths.
Proof.
  intros E. destruct (visits_events _ _ _ _ visits_start E) as (?&?&?&?&?). split_and!; [done|done| |done].
  by apply Forall_and.
Qed.

End visited.

(** ** What a read policy blocks *)

Lemma good_inits p q : good p -> q ∈ inits p -> good q.
Proof.
  intros [_ Hp] [Hne [rest ->]]%elem_of_inits. split; [done|]. by apply Forall_app in Hp as [? _].
Qed.

Lemma good_inj p q : good p -> good q -> path_string p = path_string q -> p = q.
Proof.
  intros [Hp Hp'] [Hq Hq']. apply path_string_inj; [done..| |]; (eapply Forall_impl; [eassumption|by intros x [? _]]).
Qed.

Lemma good_string p : good p -> path_string p <> "".
Proof.
  intros [Hne Hp]. destruct p as [|x p]; [done|]. apply Forall_cons in Hp as [[_ Hx] _].
  destruct (path_string_app [x] p) as [rest E]; [done|]. cbn [app] in E. rewrite E. by destruct x.
Qed.

Lemma inits_self p : p <> [] -> p ∈ inits p.
Proof. intros Hp. apply elem_of_inits. by split. Qed.

Lemma inits_trans p q r : q ∈ inits p -> r ∈ inits q -> r ∈ inits p.
Proof. rewrite !elem_of_inits. intros [_ Hq] [Hr Hrq]. split; [done|]. by etrans. Qed.

(** A slice that is there has its shorter ones there. *)
Definition closed_below (p : list string) (blocked : gset string) : Prop :=
  forall q q', q ∈ inits p -> q' ∈ inits q -> path_string q ∈ blocked -> path_string q' ∈ blocked.

Lemma elem_of_block_up p blocked x :
  Forall (fun name => no_slash name /\ name <> "") p -> closed_below p blocked ->
  x ∈ block_up (reverse (path_string <$> inits p)) blocked <-> x ∈ blocked \/ exists q, q ∈ inits p /\ x = path_string q.
Proof.
  revert blocked. induction p as [|n p IH] using rev_ind; intros blocked Hp Hcl.
  - cbn. split; [by left|]. intros [?|(q&?%not_elem_of_nil&_)]; done.
  - rewrite inits_snoc, fmap_app, reverse_app. cbn [fmap list_fmap reverse rev_append app block_up].
    assert (good (p ++ [n])) as Hgood by (split; [by destruct p|done]). destruct (bool_decide_reflect (path_string (p ++ [n]) ∈ blocked)) as [Hin|Hin].
    + split; [by left|]. intros [?|(q&Hq&->)]; [done|]. apply (Hcl (p ++ [n]) q); [by apply inits_self; destruct p| |done].
      by rewrite inits_snoc.
    + rewrite IH.
      * rewrite elem_of_union, elem_of_singleton. split.
        -- intros [[-> | ?]|(q&?&->)]; [right; exists (p ++ [n])|by left|right; exists q]; (split; [|done]); apply elem_of_app;
             [right; by apply list_elem_of_singleton|by left].
        -- intros [?|(q&[?|Eq%list_elem_of_singleton]%elem_of_app&->)]; [by left; right|right; by exists q|left; left; by rewrite Eq].
      * by apply Forall_app in Hp as [? _].
      * intros q q' Hq Hq' [E%elem_of_singleton|Hb]%elem_of_union.
        -- apply good_inj in E; [|eapply good_inits; [exact Hgood|rewrite inits_snoc; apply elem_of_app; by left]|done].
           apply elem_of_inits in Hq as [_ Hq%prefix_length]. rewrite E, length_app in Hq. cbn in Hq. lia.
        -- apply elem_of_union. right. apply (Hcl q q'); [rewrite inits_snoc; apply elem_of_app; by left|done|done].
Qed.

Lemma exists_snoc {A} (P : A -> Prop) l x : (exists r, r ∈ l ++ [x] /\ P r) <-> (exists r, r ∈ l /\ P r) \/ P x.
Proof.
  setoid_rewrite elem_of_app. setoid_rewrite list_elem_of_singleton. split.
  - intros (r&[?| ->]&?); [left; by exists r|by right].
  - intros [(r&?&?)|?]; [exists r; auto|exists x; auto].
Qed.

Section blocked.
Context `{XmlReader} `{Globs} {A : Type} `{EqDecision A}.
Context (rules : list (CompiledRule A)) (deny_action : A).

(** The most specific rule for the path denies it. *)
Definition denied_path (path : list string) : Prop := exists rule, denied_by rules deny_action (path_string path) rule.

Record blocks (seen : list (list string)) (b : Blocking) : Prop := {
  bk_blocked : forall x, x ∈ bl_blocked b <->
    exists p, p ∈ seen /\ (exists r, r ∈ inits p /\ denied_path r) /\ exists q, q ∈ inits p /\ x = path_string q;
  bk_denied : forall x, x ∈ bl_directly_denied b <-> exists r, r ∈ seen /\ denied_path r /\ x = path_string r;
  bk_last : bl_last_path b = last seen;
}.

Lemma directly_matches_spec path :
  match evaluate rules (path_string path) with
  | Some rule => bool_decide (cr_action rule = deny_action)
  | None => false
  end = true <-> denied_path path.
Proof.
  unfold denied_path, denied_by. split.
  - destruct (evaluate _ _) as [r|] eqn:E; [|done]. intros Ha%bool_decide_eq_true. exists r. by rewrite <-evaluate_decides.
  - intros (r&E%evaluate_decides&Hr). rewrite E. by apply bool_decide_eq_true.
Qed.

Lemma denied_path_string p q : path_string p = path_string q -> denied_path p -> denied_path q.
Proof. unfold denied_path. by intros ->. Qed.

Lemma blocked_closed seen b p : Forall good seen -> good p -> blocks seen b -> closed_below p (bl_blocked b).
Proof.
  intros Hs Hp [Hb _ _] q q' Hq Hq'. rewrite !Hb. intros (p0&Hp0&Hden&q0&Hq0&E).
  assert (q = q0) as ->.
  { apply good_inj; [by eapply good_inits|eapply good_inits; [|done]; by eapply (proj1 (Forall_forall _ _))|done]. }
  exists p0. split_and!; [done|done|]. exists q'. split; [by apply (inits_trans p0 q0)|done].
Qed.

Lemma descendant_spec seen b p :
  blocks seen b -> (forall q, q ∈ inits p -> q ∈ seen) ->
  existsb (fun slice => bool_decide (slice ∈ bl_directly_denied b)) (path_string <$> inits p) = true
  <-> exists r, r ∈ inits p /\ denied_path r.
Proof.
  intros [_ Hd _] Hseen. rewrite existsb_exists. split.
  - intros (x&(r&->&Hr)%list_elem_of_In%list_elem_of_fmap&(r'&_&Hden&E)%bool_decide_eq_true%Hd).
    exists r. split; [done|]. by eapply denied_path_string.
  - intros (r&Hr&Hden). exists (path_string r). split; [apply list_elem_of_In, list_elem_of_fmap; by exists r|].
    apply bool_decide_eq_true, Hd. exists r. auto.
Qed.

Lemma blocks_path seen b p :
  doc_order (seen ++ [p]) -> Forall good (seen ++ [p]) -> blocks seen b ->
  blocks (seen ++ [p]) (block_path rules deny_action p b).
Proof.
  intros [_ Hord]%doc_order_prefix [Hgs [Hgp _]%Forall_cons]%Forall_app Hb. pose proof Hb as [Hbl Hd Hl].
  unfold block_path. rewrite Hl. destruct (bool_decide_reflect (last seen = Some p)) as [Hlast|_].
  - assert (p ∈ seen) as Hp by (apply list_elem_of_lookup; eexists; by rewrite <-last_lookup).
    assert (forall r, r ∈ seen ++ [p] <-> r ∈ seen) as E.
    { intros r. rewrite elem_of_app, list_elem_of_singleton. split; [by intros [?| ->]|by left]. }
    split; [|intros x; rewrite Hd; by setoid_rewrite E|by rewrite last_snoc, Hl]. intros x. rewrite Hbl. by setoid_rewrite E.
  - cbv zeta. destruct (exists_last (proj1 Hgp)) as (p'&n&->). rewrite prefixes_inits.
    set (dm := match evaluate _ _ with Some _ => _ | None => _ end).
    assert (dm = true <-> denied_path (p' ++ [n])) as Hdm by apply directly_matches_spec. clearbody dm.
    assert (removelast (path_string <$> inits (p' ++ [n])) = path_string <$> inits p') as ->.
    { rewrite inits_snoc, fmap_app. apply removelast_snoc. }
    assert (forall q, q ∈ inits p' -> q ∈ seen) as Hseen.
    { intros q Hq. specialize (Hord q). rewrite inits_snoc, !elem_of_app, !list_elem_of_singleton in Hord.
      destruct Hord as [?| ->]; [by left|done|]. apply elem_of_inits in Hq as [_ Hq%prefix_length].
      rewrite length_app in Hq. cbn in Hq. lia. }
    pose proof (descendant_spec seen b p' Hb Hseen) as Hdesc. set (desc := existsb _ _) in *. clearbody desc.
    assert (dm || desc = true <-> exists r, r ∈ inits (p' ++ [n]) /\ denied_path r) as Hcond.
    { rewrite orb_true_iff, Hdm, Hdesc, inits_snoc, exists_snoc. tauto. }
    split; cbn [bl_blocked bl_directly_denied bl_last_path]; [| |by rewrite last_snoc].
    + intros x. rewrite exists_snoc, <-Hbl, <-Hcond. destruct (dm || desc).
      * rewrite elem_of_block_up; [tauto|by destruct Hgp|by eapply blocked_closed].
      * split; [by left|by intros [?|[? _]]].
    + intros x. rewrite exists_snoc, <-Hd, <-Hdm. destruct dm.
      * rewrite elem_of_union, elem_of_singleton. tauto.
      * split; [by left|by intros [?|[? _]]].
Qed.

Lemma blocks_all paths b :
  doc_order paths -> Forall good paths ->
  blocks [] b -> blocks paths (foldl (fun b p => block_path rules deny_action p b) b paths).
Proof.
  intros Ho Hg Hb. induction paths as [|p paths IH] using rev_ind; [done|]. rewrite foldl_snoc.
  apply blocks_path; [done|done|]. apply IH; [by eapply doc_order_prefix|by apply Forall_app in Hg as [? _]].
Qed.

(** C15 A read policy closes subtrees: of a document that parses, exactly the
    paths on the way to or below a denied element are blocked, an element
    being denied when the most specific rule for its path says so; the sets of
    slices and the skipped repetitions change nothing, and a document the walk
    refuses is refused. *)
Theorem blocked_paths_exact xml :
  match blocked_read_paths rules xml deny_action with
  | Err e => element_paths xml = Err e
  | Ok blocked => exists paths, element_paths xml = Ok paths /\
      forall requested, Forall no_slash requested ->
        is_read_blocked blocked requested = true <->
        requested <> [] /\ exists p r, p ∈ paths /\ requested `prefix_of` p /\ r <> [] /\ r `prefix_of` p /\ denied_path r
  end.
Proof.
  unfold blocked_read_paths. rewrite walk_elements_paths. destruct (element_paths xml) as [paths|e] eqn:E; [|done].
  cbn [result_bind]. exists paths. split; [done|]. intros requested Hreq. unfold is_read_blocked. rewrite bool_decide_eq_true.
  destruct (element_paths_ordered _ _ E) as [Hord Hgood].
  set (b0 := {| bl_blocked := ∅; bl_directly_denied := ∅; bl_last_path := None |}).
  assert (blocks [] b0) as Hb0.
  { split; [..|done]; intros x; cbn; rewrite elem_of_empty; split; [done|by intros (?&?%not_elem_of_nil&_)|done|].
    by intros (?&?%not_elem_of_nil&_). }
  rewrite (bk_blocked _ _ (blocks_all paths _ Hord Hgood Hb0)). split.
  - intros (p&Hp&(r&[Hr Hrp]%elem_of_inits&Hden)&q&Hq&Heq).
    assert (good q) as Hgq by (eapply good_inits; [|done]; by eapply (proj1 (Forall_forall _ _))).
    assert (requested <> []) as Hne by (intros ->; symmetry in Heq; by apply good_string in Heq).
    assert (requested = q) as ->.
    { destruct Hgq as [Hq1 Hq2]. apply path_string_inj; [done..| |done]. eapply Forall_impl; [exact Hq2|by intros ? [? _]]. }
    apply elem_of_inits in Hq as [_ Hq]. split; [done|]. by exists p, r.
  - intros (Hne&p&r&Hp&Hq&Hr&Hrp&Hden). exists p. split; [done|].
    split; [exists r; by rewrite elem_of_inits|exists requested; by rewrite elem_of_inits].
Qed.

End blocked.

(** ** What a command document names *)

Section chains.
Context `{XmlReader}.

Definition ones (stack : list string) : list Frame := (fun name => {| fr_name := name; fr_child_count := 1 |}) <$> stack.

(** The frames of open elements that have no child yet but those on the way. *)
Definition top_open (stack : list string) : list Frame :=
  match stack with
  | [] => []
  | name :: stack => {| fr_name := name; fr_child_count := 0 |} :: ones stack
  end.

(** The two walks side by side: the elements so far are the prefixes of one
    path, all of it open, or all seen and its end closed. *)
Inductive chain_rel (ch : Chain) (w : Walk (list (list string))) : Prop :=
| chain_grows path :
    wk_seen w = inits path -> ch_count ch = wk_count w -> ch_root_seen ch = match path with [] => false | _ => true end ->
    ch_leaf_path ch = None -> wk_stack w = reverse path -> ch_stack ch = top_open (reverse path) -> chain_rel ch w
| chain_closes path :
    wk_seen w = inits path -> ch_count ch = wk_count w -> ch_root_seen ch = true ->
    ch_leaf_path ch = Some path -> length (wk_stack w) < length path -> ch_stack ch = ones (wk_stack w) ->
    chain_rel ch w.

(** An element came where a longer path had been seen. *)
Definition branched (paths : list (list string)) : Prop := exists i q, paths !! i = Some q /\ length q <= i.

Lemma branched_inits path : ~ branched (inits path).
Proof. intros (i&q&Hq%inits_lookup_length&Hl). lia. Qed.

Lemma branched_app paths more : branched paths -> branched (paths ++ more).
Proof. intros (i&q&Hq&Hl). exists i, q. split; [by apply lookup_app_l_Some|done]. Qed.

Lemma fr_name_ones stack : fr_name <$> ones stack = stack.
Proof. unfold ones. rewrite <-list_fmap_compose. apply list_fmap_id. Qed.

Lemma length_frames ch w : chain_rel ch w -> length (ch_stack ch) = length (wk_stack w) /\ ch_count ch = wk_count w.
Proof.
  intros [path _ Hc _ _ -> ->|path _ Hc _ _ _ ->]; (split; [|done]); [destruct (reverse path); cbn; [done|f_equal]|]; apply length_fmap.
Qed.

(** An element that opens while the path grows. *)
Lemma open_grows ch path :
  ch_root_seen ch = match path with [] => false | _ => true end -> ch_stack ch = top_open (reverse path) ->
  length (ch_stack ch) < MAX_DEPTH -> (ch_count ch + 1 <= MAX_ELEMENTS)%N ->
  open_element ch = Ok {| ch_stack := ones (reverse path); ch_root_seen := true; ch_count := ch_count ch + 1;
                          ch_leaf_path := ch_leaf_path ch |}.
Proof.
  intros Hr Hf Hd Hm. unfold open_element. rewrite Hr, (proj2 (Nat.leb_gt _ _) Hd), (proj2 (N.ltb_ge _ _) Hm), Hf. cbn [negb].
  destruct path as [|x path _] using rev_ind; [done|]. rewrite reverse_app. cbn. by destruct (path ++ [x]) eqn:E; [destruct path|].
Qed.

Lemma open_Ok ch ch' : open_element ch = Ok ch' -> length (ch_stack ch) < MAX_DEPTH /\ (ch_count ch + 1 <= MAX_ELEMENTS)%N.
Proof.
  unfold open_element. destruct (MAX_DEPTH <=? _)%nat eqn:Hd; [done|]. apply Nat.leb_gt in Hd. cbn [negb].
  intros (?&_&Hw)%result_bind_Ok. destruct (MAX_ELEMENTS <? _)%N eqn:Hc; [done|]. by apply N.ltb_ge in Hc.
Qed.

(** No element opens once the path is complete. *)
Lemma open_closes ch stack :
  ch_root_seen ch = true -> ch_stack ch = ones stack -> exists e, open_element ch = Err e.
Proof.
  intros Hr Hs. unfold open_element. rewrite Hr, Hs. destruct (MAX_DEPTH <=? _)%nat; cbn [negb]; [by eexists|].
  destruct stack; cbn; by eexists.
Qed.

Lemma enter_intro {S} (f : list string -> S -> S) w tag name :
  validate_attrs tag = Ok tt -> local_name tag = Ok name -> length (wk_stack w) < MAX_DEPTH ->
  (wk_count w + 1 <= MAX_ELEMENTS)%N -> exists w', enter f w tag = Ok w'.
Proof.
  intros Ha Hn Hd Hm. unfold enter. rewrite (proj2 (Nat.leb_gt _ _) Hd), Ha. cbn [negb result_bind].
  rewrite (proj2 (N.ltb_ge _ _) Hm), Hn. by eexists.
Qed.

(** Both walks accept an element that opens, or its path branches off. *)
Lemma open_both ch w tag :
  chain_rel ch w ->
  match enter collect w tag with
  | Err _ => forall name ch', validate_attrs tag = Ok tt -> open_element ch = Ok ch' -> local_name tag = Ok name -> False
  | Ok w' =>
      validate_attrs tag = Ok tt /\ exists name, local_name tag = Ok name /\ wk_stack w' = name :: wk_stack w /\
      ((exists path ch', open_element ch = Ok ch' /\ wk_stack w = reverse path /\ ch_stack ch' = ones (reverse path) /\
          ch_root_seen ch' = true /\ ch_count ch' = wk_count w' /\ ch_leaf_path ch' = None /\ wk_seen w' = inits (path ++ [name]))
       \/ (exists e, open_element ch = Err e) /\ branched (wk_seen w'))
  end.
Proof.
  intros Hrel. destruct (length_frames ch w Hrel) as [Hlen Hcount]. destruct (enter collect w tag) as [w'|e] eqn:E.
  - apply enter_Ok in E as (name&Ha&Hn&Hd&Hm&->). split; [done|]. exists name. split; [done|]. split; [done|].
    cbn [wk_stack wk_seen wk_count]. unfold collect. destruct Hrel as [path Hs _ Hr Hl Hst Hf|path Hs _ Hr Hl Hst Hf].
    + left. eexists path, _. split; [apply (open_grows _ path); [done|done|by rewrite Hlen|by rewrite Hcount]|].
      cbn [ch_stack ch_root_seen ch_count ch_leaf_path]. rewrite Hs, Hst, Hcount, inits_snoc, reverse_cons, reverse_involutive. done.
    + right. split; [by eapply open_closes|]. exists (length path), (reverse (name :: wk_stack w)). rewrite Hs. split.
      * rewrite lookup_app_r; rewrite length_inits; [by rewrite Nat.sub_diag|done].
      * rewrite length_reverse. cbn. lia.
  - intros name ch' Ha [Hd Hm]%open_Ok Hn. rewrite Hlen in Hd. rewrite Hcount in Hm.
    destruct (enter_intro collect w tag name Ha Hn Hd Hm) as [w' Hw]. congruence.
Qed.

Lemma close_both ch w :
  chain_rel ch w ->
  match leave w, chain_event ch End with
  | Ok w', Ok ch' => chain_rel ch' w'
  | Err _, Err _ => True
  | _, _ => False
  end.
Proof.
  intros [path Hs Hc Hr Hl Hst Hf|path Hs Hc Hr Hl Hst Hf]; cbn [chain_event]; unfold leave; rewrite Hf.
  - rewrite Hst. destruct path as [|x path _] using rev_ind; [done|]. rewrite reverse_app. cbn [reverse rev_append app].
    cbn [top_open fr_child_count fr_name]. unfold record_if_leaf. rewrite Hl, fr_name_ones, reverse_involutive. cbn.
    apply (chain_closes _ _ (path ++ [x])); cbn; [done|done|by rewrite Hr; destruct (path ++ [x]) eqn:E; [destruct path|]|done| |done].
    rewrite length_reverse, length_app. cbn. lia.
  - destruct (wk_stack w) as [|name stack] eqn:Est; [done|]. cbn [ones fmap list_fmap fr_child_count fr_name]. unfold record_if_leaf. cbn.
    apply (chain_closes _ _ path); cbn; try done. cbn in Hst. lia.
Qed.

Lemma event_both ch w ev :
  chain_rel ch w ->
  match walk_event collect w ev, chain_event ch ev with
  | Ok w', Ok ch' => chain_rel ch' w'
  | Ok w', Err _ => branched (wk_seen w')
  | Err _, Err _ => True
  | Err _, Ok _ => False
  end.
Proof.
  intros Hrel. destruct ev as [tag|tag| | |r|]; [| | |done| |done].
  - pose proof (open_both ch w tag Hrel) as Hb. cbn [walk_event chain_event]. destruct (enter collect w tag) as [w'|e].
    + destruct Hb as (->&name&Hn&Hst'&[(path&ch'&->&Hst&Hf&Hr&Hc&Hl&Hs)|[[e ->] Hbr]]); cbn [result_bind]; [|done].
      rewrite Hn. cbn [result_bind]. apply (chain_grows _ _ (path ++ [name])); cbn; try done.
      * by rewrite Hr; destruct (path ++ [name]) eqn:E; [destruct path|].
      * by rewrite Hst', Hst, reverse_app.
      * by rewrite Hf, reverse_app.
    + destruct (validate_attrs tag) as [[]|]; cbn [result_bind]; [|done].
      destruct (open_element ch) as [ch'|] eqn:Ho; cbn [result_bind]; [|done].
      destruct (local_name tag) as [name|]; cbn [result_bind]; [by eapply Hb|done].
  - pose proof (open_both ch w tag Hrel) as Hb. cbn [walk_event chain_event]. destruct (enter collect w tag) as [w'|e].
    + destruct Hb as (->&name&Hn&Hst'&[(path&ch'&->&Hst&Hf&Hr&Hc&Hl&Hs)|[[e ->] Hbr]]); cbn [result_bind]; unfold leave; rewrite Hst'; [|done].
      rewrite Hn. cbn [result_bind]. unfold record_if_leaf. rewrite Hl, Hf, fr_name_ones, reverse_involutive. cbn.
      apply (chain_closes _ _ (path ++ [name])); cbn; try done; [|by rewrite Hst]. rewrite Hst, length_reverse, length_app. cbn. lia.
    + destruct (validate_attrs tag) as [[]|]; cbn [result_bind]; [|done].
      destruct (open_element ch) as [ch'|] eqn:Ho; cbn [result_bind]; [|done].
      destruct (local_name tag) as [name|]; cbn [result_bind]; [|done]. by destruct (Hb name ch').
  - pose proof (close_both ch w Hrel) as Hb. cbn [walk_event]. destruct (leave w), (chain_event ch End); done.
  - cbn [walk_event chain_event]. by destruct (reject_non_predefined_ref r).
Qed.

Lemma seen_grows w ev w' : walk_event collect w ev = Ok w' -> exists more, wk_seen w' = wk_seen w ++ more.
Proof.
  destruct ev as [t|t| | |r|]; cbn [walk_event].
  - intros (name&_&_&_&_&->)%enter_Ok. by eexists.
  - intros (w1&(name&_&_&_&_&->)%enter_Ok&(?&_&_&->)%leave_Ok)%result_bind_Ok. by eexists.
  - intros (?&_&_&->)%leave_Ok. exists []. by rewrite app_nil_r.
  - done.
  - intros (?&_&[= <-])%result_bind_Ok. exists []. by rewrite app_nil_r.
  - intros [= <-]. exists []. by rewrite app_nil_r.
Qed.

Lemma branched_events w events ending paths :
  branched (wk_seen w) -> walk_events collect w events ending = Ok paths -> branched paths.
Proof.
  revert w. induction events as [|ev events IH]; intros w Hw; cbn [walk_events].
  - destruct ending; [done|]. repeat case_match; try done. by intros [= <-].
  - intros (w'&Hev&Hrest)%result_bind_Ok. apply (IH w'); [|done]. apply seen_grows in Hev as [more ->]. by apply branched_app.
Qed.

Lemma count_seen w ev w' :
  walk_event collect w ev = Ok w' -> wk_count w = N.of_nat (length (wk_seen w)) -> wk_count w' = N.of_nat (length (wk_seen w')).
Proof.
  intros Hev Hc. assert (forall t w1, enter collect w t = Ok w1 -> wk_count w1 = N.of_nat (length (wk_seen w1))) as He.
  { intros t w1 (name&_&_&_&_&->)%enter_Ok. unfold collect. cbn [wk_count wk_seen]. rewrite Hc, length_app. cbn. lia. }
  destruct ev as [t|t| | |r|]; cbn [walk_event] in Hev.
  - by eapply He.
  - apply result_bind_Ok in Hev as (w1&H1&(?&_&->&->)%leave_Ok). by eapply He.
  - apply leave_Ok in Hev as (?&_&->&->). done.
  - done.
  - by apply result_bind_Ok in Hev as (?&_&[= <-]).
  - by injection Hev as <-.
Qed.

Lemma events_both ch w events ending :
  chain_rel ch w -> wk_count w = N.of_nat (length (wk_seen w)) ->
  match walk_events collect w events ending, chain_events ch events ending with
  | Ok paths, Ok s => exists path, path <> [] /\ paths = inits path /\ s = path_string path
  | Ok paths, Err _ => branched paths
  | Err _, Err _ => True
  | Err _, Ok _ => False
  end.
Proof.
  revert ch w. induction events as [|ev events IH]; intros ch w Hrel Hcount; cbn [walk_events chain_events].
  - destruct ending; [done|]. destruct Hrel as [path Hs _ Hr Hl Hst Hf|path Hs _ Hr Hl Hst Hf]; rewrite Hcount, Hs, length_inits, Hr, Hf.
    + rewrite Hst. destruct path as [|x path _] using rev_ind; [done|]. by rewrite reverse_app.
    + rewrite Hl. destruct (wk_stack w); cbn [ones fmap list_fmap]; [|done]. destruct path as [|x path]; [cbn in Hst; lia|].
      by exists (x :: path).
  - pose proof (event_both ch w ev Hrel) as Hb. destruct (walk_event collect w ev) as [w'|] eqn:Ew, (chain_event ch ev) as [ch'|];
      cbn [result_bind]; [|..|done|done].
    + apply IH; [done|by eapply count_seen].
    + destruct (walk_events collect w' events ending) eqn:E; [by eapply branched_events|done].
Qed.

(** C16 A command document names one command: it is accepted with a path
    exactly if the elements of the document, in order, are the prefixes of
    that path, each once; everything else, a second root or a second child
    under one tag name included, is refused. *)
Theorem canonical_path_exact xml s :
  canonical_command_path xml = Ok s <->
  exists path, path <> [] /\ element_paths xml = Ok (inits path) /\ s = path_string path.
Proof.
  unfold canonical_command_path, element_paths, walk_elements.
  set (w := {| wk_stack := []; wk_count := 0; wk_seen := [] |}). set (ch := {| ch_stack := [] |}).
  assert (chain_rel ch w) as Hrel by (by apply (chain_grows _ _ [])).
  pose proof (events_both ch w (xml_events xml).1 (xml_events xml).2 Hrel eq_refl) as Hb. fold collect.
  destruct (walk_events collect w _ _) as [paths|], (chain_events ch _ _) as [s'|].
  - destruct Hb as (path&Hne&->&->). split; [intros [= <-]; by exists path|]. by intros (p&_&[= ->%inits_inj]&->).
  - split; [done|]. intros (path&_&[= ->]&_). by apply branched_inits in Hb.
  - done.
  - split; [done|]. by intros (?&_&?&_).
Qed.

End chains.
