(* ===== verification/Job.v ===== *)
(** * Waiting for jobs (crates/mecmcp-job/src/lib.rs)

    The polling loop: an immediate first probe, waits that grow up to a
    ceiling, cancellation, and one deadline for all of it.  Durations and
    instants are nanoseconds.  What the clock shows, what the token says and
    how each race of [select_cancel_raw] and [timeout_at] ends is the
    environment's; the facts are that the loop always ends, in how many
    probes, and when a result is believed. *)

From S2P Require Import Prelude Text.

Open Scope list_scope.
Open Scope N_scope.

Definition u128_max : N := 2 ^ 128 - 1.
Definition NANOS_PER_SEC : N := 1000000000.

(** [Duration::MAX]. *)
Definition duration_max : N := u64_max * NANOS_PER_SEC + 999999999.

(** ** Configuration *)

Inductive Probe (T : Type) := Pending | Ready (value : T).
#[global] Arguments Pending {T}.
#[global] Arguments Ready {T} value.

Record PollConfig := { first_interval : N; max_interval : N; multiplier : N; deadline : N }.

Definition default_poll_config : PollConfig := {|
  first_interval := 1 * NANOS_PER_SEC; max_interval := 30 * NANOS_PER_SEC; multiplier := 2;
  deadline := 300 * NANOS_PER_SEC |}.

Inductive ConfigError :=
| Zero (field : string)
| MultiplierBelowOne (multiplier : N)
| DeadlineUnrepresentable (deadline : N)
| IntervalAboveMaximum (first_interval max_interval : N).

Inductive PollError (E : Type) :=
| Cancelled (attempts : N)
| DeadlineExceeded (attempts deadline : N)
| ProbeFailed (attempts : N) (source : E)
| BadConfig (e : ConfigError).
#[global] Arguments Cancelled {E} attempts.
#[global] Arguments DeadlineExceeded {E} attempts deadline.
#[global] Arguments ProbeFailed {E} attempts source.
#[global] Arguments BadConfig {E} e.

Definition MAX_REPRESENTABLE_DEADLINE : N := 50 * 365 * 24 * 60 * 60 * NANOS_PER_SEC.

Definition poll_config_validate (c : PollConfig) : result unit ConfigError :=
  ensure negb (first_interval c =? 0) else (Zero "first_interval");
  ensure negb (max_interval c =? 0) else (Zero "max_interval");
  ensure negb (deadline c =? 0) else (Zero "deadline");
  ensure negb (multiplier c <? 1) else (MultiplierBelowOne (multiplier c));
  ensure negb (MAX_REPRESENTABLE_DEADLINE <? deadline c) else (DeadlineUnrepresentable (deadline c));
  ensure negb (max_interval c <? first_interval c) else (IntervalAboveMaximum (first_interval c) (max_interval c));
  Ok tt.

Definition duration_from_nanos (nanos : N) : N :=
  if nanos / NANOS_PER_SEC <=? u64_max then nanos / NANOS_PER_SEC * NANOS_PER_SEC + nanos mod NANOS_PER_SEC
  else duration_max.

Definition next_interval (current multiplier ceiling : N) : N :=
  duration_from_nanos (N.min (N.min (current * multiplier) u128_max) ceiling).

(** ** The loop *)

(** What the environment does in one pass. *)
Record Attempt (T E : Type) := {
  at_cancelled : bool;                                      (* the token, before the probe *)
  at_start : N;                                             (* the clock, before the probe *)
  at_probe : N -> N -> result (option (result (Probe T) E)) unit;
    (* given the attempt and the deadline: cancelled, elapsed ([None]) or completed *)
  at_cancelled_after : bool;
  at_completed : N;
  at_waiting : N;
  at_sleep : N -> option N;                                 (* until an instant: when it woke, unless cancelled *)
}.
#[global] Arguments at_cancelled {T E} _.
#[global] Arguments at_start {T E} _.
#[global] Arguments at_probe {T E} _ _ _.
#[global] Arguments at_cancelled_after {T E} _.
#[global] Arguments at_completed {T E} _.
#[global] Arguments at_waiting {T E} _.
#[global] Arguments at_sleep {T E} _ _.

Section poll.
Context {T E : Type}.
(** The largest instant the platform represents. *)
Variable instant_max : N.

Definition checked_add (instant duration : N) : option N :=
  if instant + duration <=? instant_max then Some (instant + duration) else None.

(** One pass: the loop's result, or the attempts so far, the next wait and the
    instant it woke. *)
Definition poll_pass (c : PollConfig) (expires_at : N) (a : Attempt T E) (attempts interval : N) :
  result T (PollError E) + N * N * N :=
  let expired n := inl (Err (DeadlineExceeded n (deadline c))) in
  if at_cancelled a then inl (Err (Cancelled attempts))
  else if expires_at <=? at_start a then expired attempts
  else
    let attempts := saturating_add attempts 1 in
    let probed := at_probe a attempts expires_at in
    if at_cancelled_after a then inl (Err (Cancelled attempts))
    else match probed with
    | Err _ => inl (Err (Cancelled attempts))
    | Ok None => expired attempts
    | Ok (Some completed) =>
        if expires_at <=? at_completed a then expired attempts
        else match completed with
        | Err source => inl (Err (ProbeFailed attempts source))
        | Ok (Ready value) => inl (Ok value)
        | Ok Pending =>
            if expires_at <=? at_waiting a then expired attempts
            else
              let wake_at := match checked_add (at_waiting a) interval with
                             | Some wake => N.min wake expires_at
                             | None => expires_at
                             end in
              match at_sleep a wake_at with
              | None => inl (Err (Cancelled attempts))
              | Some woke => inr (attempts, next_interval interval (multiplier c) (max_interval c), woke)
              end
        end
    end.

(** The environment of the [n]th pass, which begins at an instant.  [None]: the
    passes given were not enough. *)
Fixpoint poll_loop (passes : nat) (c : PollConfig) (expires_at : N) (world : nat -> N -> Attempt T E) (n : nat)
  (now attempts interval : N) : option (result T (PollError E)) :=
  match passes with
  | O => None
  | S passes =>
      match poll_pass c expires_at (world n now) attempts interval with
      | inl r => Some r
      | inr (attempts, interval, woke) => poll_loop passes c expires_at world (S n) woke attempts interval
      end
  end.

Definition poll_until_ready (passes : nat) (c : PollConfig) (started : N) (world : nat -> N -> Attempt T E) :
  option (result T (PollError E)) :=
  match poll_config_validate c with
  | Err e => Some (Err (BadConfig e))
  | Ok _ =>
      match checked_add started (deadline c) with
      | None => Some (Err (BadConfig (DeadlineUnrepresentable (deadline c))))
      | Some expires_at => poll_loop passes c expires_at world 0 started 0 (first_interval c)
      end
  end.

(** ** Time passes

    The clock does not go back, and a sleep ends at its instant or later. *)
Record clock_ok (world : nat -> N -> Attempt T E) : Prop := {
  ck_start : forall n now, now <= at_start (world n now);
  ck_completed : forall n now, at_start (world n now) <= at_completed (world n now);
  ck_waiting : forall n now, at_completed (world n now) <= at_waiting (world n now);
  ck_sleep : forall n now wake woke, at_sleep (world n now) wake = Some woke -> wake <= woke;
}.

(** How many probes fit. *)
Definition max_attempts (c : PollConfig) : N := deadline c / first_interval c + 1.

(** What a result says about the pass it came from. *)
Definition outcome (c : PollConfig) (expires_at : N) (world : nat -> N -> Attempt T E) (r : result T (PollError E)) : Prop :=
  match r with
  | Ok value => exists n now, at_probe (world n now) (N.of_nat n + 1) expires_at = Ok (Some (Ok (Ready value))) /\
      at_completed (world n now) < expires_at /\ at_cancelled (world n now) = false /\ at_cancelled_after (world n now) = false
  | Err (ProbeFailed k source) => exists n now, k = N.of_nat n + 1 /\
      at_probe (world n now) k expires_at = Ok (Some (Err source)) /\ at_completed (world n now) < expires_at
  | Err (DeadlineExceeded k d) => d = deadline c /\ k <= max_attempts c /\
      exists n now, expires_at <= at_waiting (world n now) \/ at_probe (world n now) k expires_at = Ok None
  | Err (Cancelled k) => k <= max_attempts c
  | Err (BadConfig _) => False
  end.

Lemma duration_from_nanos_id nanos : nanos <= duration_max -> duration_from_nanos nanos = nanos.
Proof.
  intros Hn. unfold duration_from_nanos.
  assert (nanos / NANOS_PER_SEC <= u64_max) as Hs%N.leb_le.
  { transitivity (duration_max / NANOS_PER_SEC); [by apply N.Div0.div_le_mono|by vm_compute]. }
  rewrite Hs, N.mul_comm. symmetry. by apply N.div_mod.
Qed.

Lemma next_interval_eq current m ceiling :
  ceiling <= duration_max -> next_interval current m ceiling = N.min (current * m) ceiling.
Proof.
  intros Hc. unfold next_interval. assert (duration_max <= u128_max) by (by vm_compute).
  rewrite duration_from_nanos_id; lia.
Qed.

Lemma valid_config c :
  poll_config_validate c = Ok tt ->
  0 < first_interval c <= max_interval c /\ 1 <= multiplier c /\ deadline c <= MAX_REPRESENTABLE_DEADLINE.
Proof.
  unfold poll_config_validate.
  destruct (N.eqb_spec (first_interval c) 0); [done|]. destruct (N.eqb_spec (max_interval c) 0); [done|].
  destruct (N.eqb_spec (deadline c) 0); [done|]. destruct (N.ltb_spec (multiplier c) 1); [done|].
  destruct (N.ltb_spec MAX_REPRESENTABLE_DEADLINE (deadline c)); [done|].
  destruct (N.ltb_spec (max_interval c) (first_interval c)); [done|]. cbn [negb]. intros _. lia.
Qed.

(** A pass that has not seen the deadline is one of the first, and its probe
    has the number of the pass. *)
Lemma pass_number c started n now :
  poll_config_validate c = Ok tt -> now < started + deadline c ->
  started + N.min (N.of_nat n * first_interval c) (deadline c) <= now ->
  N.of_nat n + 1 <= max_attempts c /\ saturating_add (N.of_nat n) 1 = N.of_nat n + 1.
Proof.
  intros (Hf&_&Hd)%valid_config Hlt Hnow. assert (N.of_nat n * first_interval c < deadline c) as Hn by lia.
  unfold max_attempts. split.
  - assert (N.of_nat n <= deadline c / first_interval c); [|lia]. apply N.div_le_lower_bound; lia.
  - unfold saturating_add. assert (MAX_REPRESENTABLE_DEADLINE < u64_max) by (by vm_compute). nia.
Qed.

(** Where the loop stands before its [n]th pass. *)
Record before_pass (c : PollConfig) (started : N) (n : nat) (now attempts interval : N) : Prop := {
  bp_attempts : attempts = N.of_nat n;
  bp_bound : attempts <= max_attempts c;
  bp_interval : first_interval c <= interval <= max_interval c;
  bp_now : started + N.min (N.of_nat n * first_interval c) (deadline c) <= now;
}.

Lemma next_pass c started n now attempts interval woke :
  poll_config_validate c = Ok tt -> max_interval c <= duration_max -> N.of_nat n + 1 <= max_attempts c ->
  before_pass c started n now attempts interval -> started + N.min (N.of_nat (S n) * first_interval c) (deadline c) <= woke ->
  before_pass c started (S n) woke (N.of_nat n + 1) (next_interval interval (multiplier c) (max_interval c)).
Proof.
  intros (_&Hm&_)%valid_config Hmax Hk [-> _ Hi Hnow] Hwoke. split; [lia|done| |done]. rewrite next_interval_eq by done. nia.
Qed.

Lemma pass_outcome c started world n now attempts interval :
  clock_ok world -> poll_config_validate c = Ok tt -> max_interval c <= duration_max ->
  before_pass c started n now attempts interval ->
  match poll_pass c (started + deadline c) (world n now) attempts interval with
  | inl r => outcome c (started + deadline c) world r
  | inr (attempts', interval', woke) =>
      before_pass c started (S n) woke attempts' interval' /\ N.of_nat n * first_interval c < deadline c
  end.
Proof.
  intros [Hstart Hcomp Hwait Hsleep] Hv Hmax Hb. pose proof Hb as [-> Hk Hi Hnow]. specialize (Hstart n now). specialize (Hcomp n now).
  specialize (Hwait n now). unfold poll_pass. destruct (at_cancelled (world n now)) eqn:Hc; [done|].
  destruct (N.leb_spec (started + deadline c) (at_start (world n now))).
  { cbn. split_and!; [done|done|]. exists n, now. left. lia. }
  destruct (pass_number c started n now Hv) as [Hn ->]; [lia|done|].
  destruct (at_cancelled_after (world n now)) eqn:Hca; [done|].
  destruct (at_probe (world n now) _ _) as [[completed|]|] eqn:Hp; [| |done].
  2: { cbn. split_and!; [done|done|]. exists n, now. by right. }
  destruct (N.leb_spec (started + deadline c) (at_completed (world n now))).
  { cbn. split_and!; [done|done|]. exists n, now. left. lia. }
  destruct completed as [[|v]|e]; cbn [outcome]; [|by exists n, now..].
  destruct (N.leb_spec (started + deadline c) (at_waiting (world n now))).
  { cbn. split_and!; [done|done|]. exists n, now. by left. }
  destruct (at_sleep (world n now) _) as [woke|] eqn:Hs; [|done]. apply Hsleep in Hs. split; [|nia].
  apply (next_pass _ _ _ now (N.of_nat n)); [done..|]. unfold checked_add in Hs. destruct (_ <=? instant_max); nia.
Qed.

Lemma loop_outcome k c started world n now attempts interval :
  clock_ok world -> poll_config_validate c = Ok tt -> max_interval c <= duration_max ->
  before_pass c started n now attempts interval -> deadline c <= N.of_nat (n + k) * first_interval c ->
  exists r, poll_loop (S k) c (started + deadline c) world n now attempts interval = Some r /\
    outcome c (started + deadline c) world r.
Proof.
  intros Hck Hv Hmax. revert n now attempts interval. induction k as [|k IH]; intros n now attempts interval Hb Hk;
    pose proof (pass_outcome c started world n now attempts interval Hck Hv Hmax Hb) as Ho.
  - cbn [poll_loop]. destruct (poll_pass _ _ _ _ _) as [r|[[attempts' interval'] woke]]; [by exists r|].
    destruct Ho as [_ Hn]. rewrite Nat.add_0_r in Hk. lia.
  - change (poll_loop (S (S k)) c (started + deadline c) world n now attempts interval)
      with (match poll_pass c (started + deadline c) (world n now) attempts interval with
            | inl r => Some r
            | inr (attempts, interval, woke) => poll_loop (S k) c (started + deadline c) world (S n) woke attempts interval
            end).
    destruct (poll_pass _ _ _ _ _) as [r|[[attempts' interval'] woke]]; [by exists r|].
    destruct Ho as [Hb' _]. apply IH; [done|]. by rewrite Nat.add_succ_l, <-Nat.add_succ_r.
Qed.

(** C40 Waiting for a job ends: whatever probes, cancellations and clock do,
    the loop returns after at most as many probes as waits of the first
    interval fit into the deadline, and one more.  A value is believed only if
    its probe completed before the deadline and nobody had cancelled; probe
    failures carry the number of their probe; and a missed deadline is only
    reported when the clock or the timer showed it. *)
Theorem polling_ends c started world passes :
  clock_ok world -> poll_config_validate c = Ok tt -> max_interval c <= duration_max ->
  started + deadline c <= instant_max -> max_attempts c < N.of_nat passes ->
  exists r, poll_until_ready passes c started world = Some r /\ outcome c (started + deadline c) world r.
Proof.
  intros Hck Hv Hmax Hrep Hp. destruct passes as [|k]; [lia|]. unfold poll_until_ready. rewrite Hv. unfold checked_add.
  rewrite (proj2 (N.leb_le _ _) Hrep). pose proof (valid_config c Hv) as (Hf&_&_). apply loop_outcome; [done..| |].
  - split; [done|apply N.le_0_l|lia|lia].
  - unfold max_attempts in Hp. pose proof (N.mul_succ_div_gt (deadline c) (first_interval c) ltac:(lia)). nia.
Qed.

End poll.
