(* ===== verification/Oidc.v ===== *)
(** * Tokens of an identity provider (crates/mecmcp-oidc/src/cache.rs and verify.rs)

    The cache of the provider's signing keys, with its three durations, and
    the verification of a JWT against them.  The provider's answers are the
    environment's, and a caller may stop waiting for either of them; what
    [jsonwebtoken] does is a class with the laws relied on.  Instants and
    durations are nanoseconds, claims are in seconds of the epoch. *)

From S2P Require Import Prelude Externals Json.
From Stdlib Require Import Ascii.

Open Scope list_scope.

(** ** The provider's answers *)

Record DiscoveryDocument := { dd_issuer : string; dd_jwks_uri : string }.

Inductive FetchError :=
| Transport (what source : string)
| HttpStatus (what : string) (status : N)
| InvalidResponse (what detail : string)
| IssuerMismatch (configured discovered : string).

Inductive VerificationFailure :=
| Malformed (why : string)
| UnknownKeyId (kid : option string)
| UnsupportedAlgorithm
| InvalidSignature
| Expired
| NotYetValid
| WrongAudience
| WrongIssuer
| MissingClaim (claim : string)
| KeysUnavailable (issuer : string).

Definition discovery_url (issuer : string) : string :=
  trim_end_matches "/" issuer +:+ "/.well-known/openid-configuration".

(** ** jsonwebtoken *)

Inductive Algorithm := HS256 | HS384 | HS512 | ES256 | ES384 | RS256 | RS384 | RS512 | PS256 | PS384 | PS512 | EdDSA.

#[export] Instance Algorithm_eq_dec : EqDecision Algorithm.
Proof. solve_decision. Defined.

Record JwtHeader := { hd_kid : option string; hd_alg : Algorithm }.

Record Validation := {
  va_algorithm : Algorithm;
  va_leeway : N;
  va_validate_nbf : bool;
  va_audience : list string;
  va_issuer : list string;
  va_required : list string;
}.

Inductive ErrorKind :=
| KExpiredSignature | KImmatureSignature | KInvalidIssuer | KInvalidAudience | KInvalidSignature | KInvalidAlgorithm
| KMissingRequiredClaim (claim : string)
| KOther (debug : string).

Record RawClaims := { rc_sub : string; rc_exp : Z; rc_extra : list (string * json) }.

Class Jwt := {
  Jwk : Type;
  JwkSet : Type;
  DecodingKey : Type;
  jwk_find : JwkSet -> string -> option Jwk;
  jwk_is_octet : Jwk -> bool;
  (** The declared [key_algorithm], if any, and [Algorithm::try_from] of it. *)
  jwk_algorithm : Jwk -> option (option Algorithm);
  decode_header : string -> result JwtHeader string;
  decoding_key : Jwk -> option DecodingKey;
  (** At a time of the system clock. *)
  jwt_decode : Z -> string -> DecodingKey -> Validation -> result RawClaims ErrorKind;
}.

(** What a claim set says it is for, and from when. *)
Definition audience_of (extra : list (string * json)) : list string :=
  match assoc "aud" extra with
  | Some (JString a) => [a]
  | Some (JArray l) => omap json_as_str l
  | _ => []
  end.

(** [jsonwebtoken::decode] checks the signature with the one algorithm it is
    given, the expiry and the start of validity with the leeway, the issuer
    and the audience. *)
Class JwtLaws `(Jwt) := {
  signed_by : Jwk -> Algorithm -> string -> Prop;
  not_before : list (string * json) -> option Z;
  decode_checks : forall now token jwk key v c,
    decoding_key jwk = Some key -> jwt_decode now token key v = Ok c ->
    signed_by jwk (va_algorithm v) token /\
    (now - Z.of_N (va_leeway v) <= rc_exp c)%Z /\
    (va_validate_nbf v = true -> forall t, not_before (rc_extra c) = Some t -> (t <= now + Z.of_N (va_leeway v))%Z) /\
    (exists iss, assoc "iss" (rc_extra c) = Some (JString iss) /\ iss ∈ va_issuer v) /\
    (exists aud, aud ∈ audience_of (rc_extra c) /\ aud ∈ va_audience v);
}.

(** ** The key cache *)

Record CacheConfig := { refresh_interval : N; retry_backoff : N; max_key_age : N }.

Definition default_cache_config : CacheConfig := {|
  refresh_interval := 300 * 1000000000; retry_backoff := 30 * 1000000000; max_key_age := 3600 * 1000000000 |}.

Section cache.
Context `{Jwt}.

Record CacheState := {
  ca_jwks_uri : option string;
  ca_keys : option JwkSet;
  ca_fetched_at : option N;
  ca_last_attempt : option N;
}.

Definition cache_new : CacheState :=
  {| ca_jwks_uri := None; ca_keys := None; ca_fetched_at := None; ca_last_attempt := None |}.

(** What a refresh would meet: the provider's two answers, [None] where the
    caller stopped waiting, and the clock after the second. *)
Record Source := {
  so_discovery : option (result DiscoveryDocument FetchError);
  so_jwks : string -> option (result JwkSet FetchError);
  so_done : N;
}.

(** The discovery document is asked for once. *)
Definition discover (issuer : string) (src : Source) (st : CacheState) : option (result unit FetchError) * CacheState :=
  match ca_jwks_uri st with
  | Some _ => (Some (Ok tt), st)
  | None =>
      match so_discovery src with
      | None => (None, st)
      | Some (Err e) => (Some (Err e), st)
      | Some (Ok discovery) =>
          if negb (String.eqb (dd_issuer discovery) issuer) then (Some (Err (IssuerMismatch issuer (dd_issuer discovery))), st)
          else (Some (Ok tt), {| ca_jwks_uri := Some (dd_jwks_uri discovery); ca_keys := ca_keys st;
                                 ca_fetched_at := ca_fetched_at st; ca_last_attempt := ca_last_attempt st |})
      end
  end.

Definition refresh (issuer : string) (src : Source) (st : CacheState) : option (result unit FetchError) * CacheState :=
  match discover issuer src st with
  | (Some (Ok _), st) =>
      match so_jwks src (default "" (ca_jwks_uri st)) with
      | None => (None, st)
      | Some (Err e) => (Some (Err e), st)
      | Some (Ok keys) => (Some (Ok tt), {| ca_jwks_uri := ca_jwks_uri st; ca_keys := Some keys;
                                            ca_fetched_at := Some (so_done src); ca_last_attempt := ca_last_attempt st |})
      end
  | r => r
  end.

(** [now.duration_since(then) < limit], which saturates at zero. *)
Definition within (now : N) (since : option N) (limit : N) : bool :=
  match since with Some since => (now - since <? limit)%N | None => false end.

Definition serve_stale_or_fail (config : CacheConfig) (issuer : string) (st : CacheState) (now : N) :
  result JwkSet VerificationFailure :=
  match ca_keys st with
  | Some keys => if within now (ca_fetched_at st) (max_key_age config) then Ok keys else Err (KeysUnavailable issuer)
  | None => Err (KeysUnavailable issuer)
  end.

Definition is_fresh (config : CacheConfig) (now : N) (st : CacheState) : bool :=
  within now (ca_fetched_at st) (refresh_interval config).

Definition backed_off (config : CacheConfig) (now : N) (st : CacheState) : bool :=
  within now (ca_last_attempt st) (retry_backoff config).

(** A refresh is due: nothing fresh to serve, and the last attempt is over. *)
Definition attempt_due (config : CacheConfig) (now : N) (st : CacheState) : bool :=
  negb (is_fresh config now st && match ca_keys st with Some _ => true | None => false end)
  && negb (backed_off config now st).

(** [keys], the lock held throughout; [None]: no answer, because the caller
    stopped waiting. *)
Definition cache_keys (config : CacheConfig) (issuer : string) (now : N) (src : Source) (st : CacheState) :
  option (result JwkSet VerificationFailure) * CacheState :=
  match is_fresh config now st, ca_keys st with
  | true, Some keys => (Some (Ok keys), st)
  | _, _ =>
      if backed_off config now st then (Some (serve_stale_or_fail config issuer st now), st)
      else
        let st := {| ca_jwks_uri := ca_jwks_uri st; ca_keys := ca_keys st; ca_fetched_at := ca_fetched_at st;
                     ca_last_attempt := Some now |} in
        match refresh issuer src st with
        | (None, st) => (None, st)
        | (Some (Ok _), st) => (Ok <$> ca_keys st, st)
        | (Some (Err _), st) => (Some (serve_stale_or_fail config issuer st now), st)
        end
  end.

(** ** Verification *)

Record OidcConfig := {
  oi_issuer : string;
  oi_audience : string;
  oi_role_claim : string;
  oi_leeway : N;
  oi_cache : CacheConfig;
}.

Definition oidc_config_new (issuer audience role_claim : string) : OidcConfig := {|
  oi_issuer := issuer; oi_audience := audience; oi_role_claim := role_claim; oi_leeway := 60 * 1000000000;
  oi_cache := default_cache_config |}.

Record VerifiedClaims := { vc_subject : string; vc_roles : list string; vc_expires_at : Z }.

Definition extract_roles (extra : list (string * json)) (role_claim : string) : list string :=
  match assoc role_claim extra with
  | Some (JString single) => [single]
  | Some (JArray items) => omap json_as_str items
  | _ => []
  end.

Definition ALLOWED_ALGORITHMS : list Algorithm := [RS256; RS384; RS512; PS256; PS384; PS512; ES256; ES384; EdDSA].

Definition matching_algorithm (jwk : Jwk) (header_alg : Algorithm) : result Algorithm VerificationFailure :=
  ensure negb (jwk_is_octet jwk) else UnsupportedAlgorithm;
  ensure bool_decide (header_alg ∈ ALLOWED_ALGORITHMS) else UnsupportedAlgorithm;
  match jwk_algorithm jwk with
  | Some None => Err UnsupportedAlgorithm
  | Some (Some declared) => ensure bool_decide (declared = header_alg) else UnsupportedAlgorithm; Ok declared
  | None => Ok header_alg
  end.

Definition map_decode_error (kind : ErrorKind) : VerificationFailure :=
  match kind with
  | KExpiredSignature => Expired
  | KImmatureSignature => NotYetValid
  | KInvalidIssuer => WrongIssuer
  | KInvalidAudience => WrongAudience
  | KInvalidSignature => InvalidSignature
  | KInvalidAlgorithm => UnsupportedAlgorithm
  | KMissingRequiredClaim claim => MissingClaim claim
  | KOther debug => Malformed debug
  end.

Definition validation_for (c : OidcConfig) (alg : Algorithm) : Validation := {|
  va_algorithm := alg; va_leeway := oi_leeway c / 1000000000; va_validate_nbf := true;
  va_audience := [oi_audience c]; va_issuer := [oi_issuer c]; va_required := ["exp"; "iss"; "aud"; "sub"] |}.

(** With the keys at hand. *)
Definition verify_with (c : OidcConfig) (unix : Z) (token : string) (header : JwtHeader) (keys : JwkSet) :
  result VerifiedClaims VerificationFailure :=
  let? jwk := match hd_kid header ≫= jwk_find keys with Some jwk => Ok jwk | None => Err (UnknownKeyId (hd_kid header)) end in
  let? alg := matching_algorithm jwk (hd_alg header) in
  let? key := match decoding_key jwk with Some key => Ok key | None => Err UnsupportedAlgorithm end in
  let? claims := map_err map_decode_error (jwt_decode unix token key (validation_for c alg)) in
  Ok {| vc_subject := rc_sub claims; vc_roles := extract_roles (rc_extra claims) (oi_role_claim c);
        vc_expires_at := rc_exp claims |}.

Definition verify (c : OidcConfig) (now : N) (unix : Z) (src : Source) (token : string) (st : CacheState) :
  option (result VerifiedClaims VerificationFailure) * CacheState :=
  match decode_header token with
  | Err e => (Some (Err (Malformed e)), st)
  | Ok header =>
      match cache_keys (oi_cache c) (oi_issuer c) now src st with
      | (None, st) => (None, st)
      | (Some (Err e), st) => (Some (Err e), st)
      | (Some (Ok keys), st) => (Some (verify_with c unix token header keys), st)
      end
  end.

(** ** A cache over time *)

(** One use of the cache: the instant it looked at the clock, and the provider. *)
Definition use : Type := N * Source.

(** The clock did not go back since the uses before. *)
Definition follows (uses : list use) (now : N) : Prop := Forall (fun u => u.1 <= now /\ so_done u.2 <= now)%N uses.

(** The uses so far, the instants of those that asked the provider, and the
    state they left. *)
Inductive cache_run (config : CacheConfig) (issuer : string) : list use -> list N -> CacheState -> Prop :=
| run_new : cache_run config issuer [] [] cache_new
| run_use uses attempts st now src :
    cache_run config issuer uses attempts st -> follows uses now -> (now <= so_done src)%N ->
    cache_run config issuer (uses ++ [(now, src)])
      (if attempt_due config now st then attempts ++ [now] else attempts)
      (cache_keys config issuer now src st).2.

(** The keys came from the address that the provider's own document names. *)
Definition vouched (issuer : string) (uses : list use) (uri : string) : Prop :=
  exists u d, u ∈ uses /\ so_discovery u.2 = Some (Ok d) /\ dd_issuer d = issuer /\ dd_jwks_uri d = uri.

Definition fetched (issuer : string) (uses : list use) (keys : JwkSet) (at_ : N) : Prop :=
  exists u uri, u ∈ uses /\ so_jwks u.2 uri = Some (Ok keys) /\ so_done u.2 = at_ /\ vouched issuer uses uri.

Definition spaced (config : CacheConfig) (attempts : list N) : Prop :=
  StronglySorted (fun a b => a + retry_backoff config <= b)%N attempts.

Record cache_ok (config : CacheConfig) (issuer : string) (uses : list use) (attempts : list N) (st : CacheState) : Prop := {
  co_uri : forall uri, ca_jwks_uri st = Some uri -> vouched issuer uses uri;
  co_keys : forall keys, ca_keys st = Some keys -> exists at_, ca_fetched_at st = Some at_ /\ fetched issuer uses keys at_;
  co_last : ca_last_attempt st = last attempts;
  co_spaced : spaced config attempts;
  co_times : Forall (fun a => exists u, u ∈ uses /\ u.1 = a) attempts;
}.

Lemma vouched_app issuer uses more uri : vouched issuer uses uri -> vouched issuer (uses ++ more) uri.
Proof. intros (u&d&?&?). exists u, d. rewrite elem_of_app. tauto. Qed.

Lemma fetched_app issuer uses more keys at_ : fetched issuer uses keys at_ -> fetched issuer (uses ++ more) keys at_.
Proof. intros (u&uri&?&?&?&?). exists u, uri. rewrite elem_of_app. split_and!; [by left|done|done|by apply vouched_app]. Qed.

Lemma spaced_snoc config attempts now :
  spaced config attempts -> (forall a, last attempts = Some a -> a + retry_backoff config <= now)%N -> spaced config (attempts ++ [now]).
Proof.
  unfold spaced. intros Hs Hl. induction Hs as [|a attempts Hs IH Ha]; [by repeat constructor|]. cbn. constructor.
  - apply IH. intros b Hb. apply Hl. destruct attempts; [done|]. exact Hb.
  - apply Forall_app. split; [done|]. constructor; [|done]. destruct (last attempts) as [b|] eqn:E.
    + assert (b ∈ attempts) as Hb by (apply list_elem_of_lookup; eexists; by rewrite <-last_lookup).
      rewrite Forall_forall in Ha. specialize (Ha b Hb). specialize (Hl b). destruct attempts; [done|]. specialize (Hl E). lia.
    + apply last_None in E as ->. by apply Hl.
Qed.

Definition with_attempt (now : N) (st : CacheState) : CacheState :=
  {| ca_jwks_uri := ca_jwks_uri st; ca_keys := ca_keys st; ca_fetched_at := ca_fetched_at st; ca_last_attempt := Some now |}.

(** A use that asks the provider, and one that does not. *)
Lemma cache_keys_cases config issuer now src st :
  cache_keys config issuer now src st
  = if attempt_due config now st then
      match refresh issuer src (with_attempt now st) with
      | (None, st) => (None, st)
      | (Some (Ok _), st) => (Ok <$> ca_keys st, st)
      | (Some (Err _), st) => (Some (serve_stale_or_fail config issuer st now), st)
      end
    else (Some (if is_fresh config now st then match ca_keys st with Some keys => Ok keys | None => serve_stale_or_fail config issuer st now end
                else serve_stale_or_fail config issuer st now), st).
Proof.
  unfold cache_keys, attempt_due. destruct (is_fresh config now st), (ca_keys st) as [keys|] eqn:Ek; cbn [andb negb];
    destruct (backed_off config now st); cbn [andb negb]; unfold with_attempt; rewrite ?Ek; done.
Qed.

Lemma refresh_ok config issuer uses attempts st now src :
  cache_ok config issuer uses attempts st ->
  let st' := (refresh issuer src (with_attempt now st)).2 in
  (forall uri, ca_jwks_uri st' = Some uri -> vouched issuer (uses ++ [(now, src)]) uri) /\
  (forall keys, ca_keys st' = Some keys ->
     exists at_, ca_fetched_at st' = Some at_ /\ fetched issuer (uses ++ [(now, src)]) keys at_) /\
  ca_last_attempt st' = Some now /\
  ((refresh issuer src (with_attempt now st)).1 = Some (Ok tt) -> ca_fetched_at st' = Some (so_done src)).
Proof.
  intros [Hu Hk _ _ _]. unfold refresh.
  assert (let r := discover issuer src (with_attempt now st) in
          (forall uri, ca_jwks_uri r.2 = Some uri -> vouched issuer (uses ++ [(now, src)]) uri) /\
          ca_keys r.2 = ca_keys st /\ ca_fetched_at r.2 = ca_fetched_at st /\ ca_last_attempt r.2 = Some now /\
          (r.1 = Some (Ok tt) -> exists uri, ca_jwks_uri r.2 = Some uri)) as Hd.
  { unfold discover. cbn [with_attempt ca_jwks_uri]. destruct (ca_jwks_uri st) as [uri|] eqn:Eu.
    - cbn. split_and!; [|done..|by exists uri]. rewrite Eu. intros uri' [= <-]. by apply vouched_app, Hu.
    - destruct (so_discovery src) as [[d|e]|] eqn:Ed; [destruct (String.eqb_spec (dd_issuer d) issuer) as [E|]|..]; cbn;
        rewrite ?Eu; (split_and!; [done || idtac|done..|done || idtac]).
      + intros uri [= <-]. exists (now, src), d. rewrite elem_of_app, list_elem_of_singleton. auto.
      + by eexists. }
  cbv zeta in Hd. destruct (discover issuer src (with_attempt now st)) as [[[[]|e]|] st1]; cbn [fst snd] in Hd |- *;
    destruct Hd as (Hu1&Hk1&Hf1&Hl1&Hr1);
    assert (forall keys, ca_keys st1 = Some keys ->
      exists at_, ca_fetched_at st1 = Some at_ /\ fetched issuer (uses ++ [(now, src)]) keys at_) as Hold
      by (intros keys; rewrite Hk1, Hf1; intros (at_&?&?)%Hk; eauto using fetched_app);
    [|by split_and!..].
  destruct (Hr1 eq_refl) as [uri Euri]. rewrite Euri. change (default "" (Some uri)) with uri.
  destruct (so_jwks src uri) as [[keys|e]|] eqn:Ej; cbn; [|by split_and!..].
  split_and!; [by rewrite <-Euri| |done|done]. intros keys' [= <-]. exists (so_done src). split; [done|].
  exists (now, src), uri. split_and!; [rewrite elem_of_app, list_elem_of_singleton; auto|done|done|by apply Hu1].
Qed.

Lemma cache_run_ok config issuer uses attempts st : cache_run config issuer uses attempts st -> cache_ok config issuer uses attempts st.
Proof.
  induction 1 as [|uses attempts st now src _ Hok Hf Hd]; [split; [done|done|done|constructor|constructor]|]. pose proof Hok as [Hu Hk Hl Hs Ht].
  assert (Forall (fun a => exists u, u ∈ uses ++ [(now, src)] /\ u.1 = a) attempts) as Ht'.
  { eapply Forall_impl; [exact Ht|]. intros a (u&?&?). exists u. rewrite elem_of_app. auto. }
  rewrite cache_keys_cases. destruct (attempt_due config now st) eqn:Hdue.
  - destruct (refresh_ok config issuer uses attempts st now src Hok) as (Hu'&Hk'&Hl'&_). cbv zeta in *.
    assert (forall A (f g h : CacheState -> option A),
      (match refresh issuer src (with_attempt now st) with
       | (None, st) => (f st, st) | (Some (Ok _), st) => (g st, st) | (Some (Err _), st) => (h st, st) end).2
      = (refresh issuer src (with_attempt now st)).2) as Esnd.
    { intros A f g h. by destruct (refresh _ _ _) as [[[]|] ?]. }
    rewrite (Esnd _ (fun _ => None) (fun st => Ok <$> ca_keys st) (fun st => Some (serve_stale_or_fail config issuer st now))).
    split; [done|done|by rewrite last_snoc|..].
    + apply spaced_snoc; [done|]. intros a Ha. unfold attempt_due, backed_off in Hdue. rewrite Hl, Ha in Hdue.
      apply andb_true_iff in Hdue as [_ Hb%negb_true_iff%N.ltb_ge].
      assert (a <= now)%N; [|lia]. assert (a ∈ attempts) as Hin by (apply list_elem_of_lookup; eexists; by rewrite <-last_lookup).
      rewrite Forall_forall in Ht. destruct (Ht a Hin) as (u&Hu1&<-). unfold follows in Hf. rewrite Forall_forall in Hf.
      by apply Hf.
    + apply Forall_app. split; [done|]. constructor; [|done]. exists (now, src). rewrite elem_of_app, list_elem_of_singleton. auto.
  - cbn. split; [eauto using vouched_app| |done|done|done]. intros keys (at_&?&?)%Hk. eauto using fetched_app.
Qed.

(** Keys that are served are recent. *)
Lemma served_keys config issuer uses attempts st now src keys st' :
  cache_run config issuer uses attempts st ->
  cache_keys config issuer now src st = (Some (Ok keys), st') ->
  exists at_, fetched issuer (uses ++ [(now, src)]) keys at_ /\
    (at_ = so_done src \/ now - at_ < N.max (refresh_interval config) (max_key_age config))%N.
Proof.
  intros Hok%cache_run_ok. pose proof Hok as [_ Hk _ _ _]. rewrite cache_keys_cases.
  assert (forall st1, (forall keys, ca_keys st1 = Some keys -> exists at_, ca_fetched_at st1 = Some at_ /\ fetched issuer (uses ++ [(now, src)]) keys at_) ->
    serve_stale_or_fail config issuer st1 now = Ok keys -> exists at_, fetched issuer (uses ++ [(now, src)]) keys at_ /\
      (at_ = so_done src \/ now - at_ < N.max (refresh_interval config) (max_key_age config))%N) as Hstale.
  { intros st1 Hk1. unfold serve_stale_or_fail. destruct (ca_keys st1) as [keys1|] eqn:E; [|done].
    destruct (Hk1 keys1 eq_refl) as (at_&Ha&Hf). rewrite Ha. cbn [within]. destruct (N.ltb_spec (now - at_) (max_key_age config)); [|done].
    intros [= <-]. exists at_. split; [done|]. right. lia. }
  assert (forall keys, ca_keys st = Some keys -> exists at_, ca_fetched_at st = Some at_ /\ fetched issuer (uses ++ [(now, src)]) keys at_) as Hk0.
  { intros keys0 (at_&?&?)%Hk. eauto using fetched_app. }
  destruct (attempt_due config now st).
  - destruct (refresh_ok config issuer uses attempts st now src Hok) as (_&Hk'&_&Hdone). cbv zeta in *.
    destruct (refresh issuer src (with_attempt now st)) as [[[[]|e]|] st1]; cbn [fst snd] in *; [..|done].
    + destruct (ca_keys st1) as [keys1|]; cbn; [|done]. intros [= <- _]. destruct (Hk' keys1 eq_refl) as (at_&Ha&Hf).
      exists at_. split; [done|]. left. rewrite Hdone in Ha by done. congruence.
    + intros [= Hs _]. by apply (Hstale st1).
  - intros [= Hs _]. destruct (is_fresh config now st) eqn:Hfr; [|by apply (Hstale st)].
    destruct (ca_keys st) as [keys0|] eqn:E; [|by apply (Hstale st); rewrite ?E]. injection Hs as <-.
    destruct (Hk0 keys0 eq_refl) as (at_&Ha&Hf). exists at_. split; [done|]. right.
    unfold is_fresh in Hfr. rewrite Ha in Hfr. apply N.ltb_lt in Hfr. lia.
Qed.


End cache.
