(* ===== verification/ServiceWitnesses.v ===== *)
(** * Policies, waiting and tokens on concrete runs

    A concrete glob matcher and event source, with an allowlist, a blocklist
    and documents that run through the policy; a job that is ready at its third
    probe; a token library over short texts that satisfies the laws of Oidc.v
    and a provider that answers and then goes away; and the theorems of
    Policy.v, XmlPath.v, Job.v and Oidc.v applied to them. *)

From S2P Require Import Prelude Externals Json Text Policy XmlPath.
From Stdlib Require Import Ascii.

Open Scope list_scope.

(** ** Policies *)

(** Literal patterns, and those that end in a star. *)
Definition toy_matches (pattern s : string) : bool :=
  match strip_suffix "*" pattern with
  | Some p => starts_with p s
  | None => String.eqb pattern s
  end.

#[local] Instance toy_globs : Globs := {
  GlobMatcher := string;
  GlobError := string;
  glob_new pattern := if contains_char "[" pattern then Err "unclosed character class" else Ok pattern;
  is_match := toy_matches;
}.

(** Events as words: [<name], [name/], [>] and [!]. *)
Definition toy_tag (name : string) : XmlTag := {| tag_local_name := name; tag_attributes := [] |}.

Definition toy_event (word : string) : XmlEvent :=
  match strip_prefix "<" word, strip_suffix "/" word with
  | Some name, _ => Start (toy_tag name)
  | None, Some name => Empty (toy_tag name)
  | None, None => if String.eqb word ">" then End else if String.eqb word "!" then DocType else OtherEvent
  end.

#[local] Instance toy_reader : XmlReader := {
  xml_events xml := (toy_event <$> split_whitespace xml, None);
  debug_text := str_debug;
}.

Inductive Action := Permit | Refuse.

#[local] Instance Action_eq_dec : EqDecision Action.
Proof. solve_decision. Defined.

(** ** Commands *)

Definition commands_allowed : list string := ["show interfaces"; "show  version"].
Definition pipes_allowed : list string := ["match"; "count"].

Definition entries_of (l : list string) : list AllowlistEntry :=
  match compile_allowlist_entries l "commands" (fun _ entry _ => entry) with Ok entries => entries | Err _ => [] end.

Definition no_rules : DomainRules Action := {| dr_defaults := []; dr_device_specific := ∅ |}.

Definition closed_policy : Policy Action := {|
  po_command_mode := AllowlistMode;
  po_commands := {| cd_blocklist := no_rules;
                    cd_allowlist := {| al_entries := entries_of commands_allowed; al_allowed_pipes := entries_of pipes_allowed |} |};
  po_config := no_rules;
  po_pfe_commands := {| cd_blocklist := no_rules; cd_allowlist := {| al_entries := []; al_allowed_pipes := [] |} |};
|}.

Lemma allowlist_is_exact_witness :
  is_allowed (check_command closed_policy "vsrx" "  show   interfaces ge-0/0/0|match up" Refuse) = true /\
  is_allowed (check_command closed_policy "vsrx" "show interfaces-foo" Refuse) = false.
Proof.
  assert (compile_allowlist_entries commands_allowed "commands" (fun _ entry _ => entry) = Ok (entries_of commands_allowed)) as H1
    by (vm_compute; reflexivity).
  assert (compile_allowlist_entries pipes_allowed "commands" (fun _ entry _ => entry) = Ok (entries_of pipes_allowed)) as H2
    by (vm_compute; reflexivity).
  split.
  - apply (allowlist_is_exact closed_policy commands_allowed pipes_allowed "commands" "commands"
      (fun _ entry _ => entry) (fun _ entry _ => entry) _ _ "vsrx" _ Refuse H1 H2 eq_refl eq_refl).
    split; [vm_compute; reflexivity|]. exists ["show"; "interfaces"; "ge-0/0/0"], [["match"; "up"]].
    split; [vm_compute; reflexivity|]. split.
    + exists "show interfaces". split; [left|]. split; [done|]. exists ["ge-0/0/0"]. reflexivity.
    + constructor; [|constructor]. exists "match". split; [left|]. split; [done|]. exists ["up"]. reflexivity.
  - vm_compute. reflexivity.
Defined.

(** An allowlist without entries refuses the empty command too. *)
Example empty_allowlist_refuses :
  is_allowed (check_pfe_command closed_policy "vsrx" "" Refuse) = false.
Proof. vm_compute. reflexivity. Qed.

(** ** Documents *)

Definition rules_of (l : list (Action * string)) : list (CompiledRule Action) :=
  match compile_rules l "read" Defaults (fun _ pattern _ => pattern) with Ok rules => rules | Err _ => [] end.

Definition document : string := "<configuration <system <login user/ user/ > services/ > interfaces/ >".

Lemma element_paths_well_formed_witness :
  exists paths, element_paths document = Ok paths /\ length paths = 7 /\ doc_order paths.
Proof.
  eexists. split; [vm_compute; reflexivity|]. split; [vm_compute; reflexivity|].
  apply (element_paths_well_formed document). vm_compute. reflexivity.
Defined.

(** A denied subtree closes the way to it and what is below, and nothing
    beside it. *)
Example login_is_closed :
  match blocked_read_paths (rules_of [(Refuse, "configuration/system/login"); (Permit, "configuration*")]) document Refuse with
  | Ok blocked => is_read_blocked blocked <$> [["configuration"]; ["configuration"; "system"];
      ["configuration"; "system"; "login"; "user"]; ["configuration"; "system"; "services"]; ["configuration"; "interfaces"]]
  | Err _ => []
  end = [true; true; true; false; false].
Proof. vm_compute. reflexivity. Qed.

Example one_command : canonical_command_path "<show <system info/ > >" = Ok "show/system/info".
Proof. vm_compute. reflexivity. Qed.

Example two_commands : canonical_command_path "<show system/ system/ >" = Err AmbiguousCommand.
Proof. vm_compute. reflexivity. Qed.

From S2P Require Import Job Oidc.

(** ** A job *)

Definition job_world (n : nat) (now : N) : Attempt string string := {|
  at_cancelled := false; at_start := now;
  at_probe attempt _ := Ok (Some (Ok (if (attempt <? 3)%N then Pending else Ready "done")));
  at_cancelled_after := false; at_completed := now + 1000; at_waiting := now + 2000;
  at_sleep wake := Some wake |}.

Lemma job_clock : clock_ok job_world.
Proof. split; cbn; intros; try lia. by simplify_eq. Qed.

Lemma polling_ends_witness :
  exists r, poll_until_ready (2 ^ 64) 302 default_poll_config 5 job_world = Some r /\
    outcome default_poll_config (5 + deadline default_poll_config) job_world r.
Proof.
  apply (polling_ends (2 ^ 64) default_poll_config 5 job_world 302 job_clock); vm_compute; done.
Defined.

Example job_is_done : poll_until_ready (2 ^ 64) 302 default_poll_config 5 job_world = Some (Ok "done").
Proof. vm_compute. reflexivity. Qed.

(** ** A provider *)

Definition provider : string := "https://idp".

(** A token is the identifier of its key, a colon and its subject; every token
    expires at the same second. *)
Definition toy_claims (token : string) : RawClaims := {|
  rc_sub := default "" (snd <$> Toy.split_at ":" token); rc_exp := 1000;
  rc_extra := [("iss", JString provider); ("aud", JArray [JString "mcp"]); ("groups", JArray [JString "approver"; JNull])] |}.

Definition toy_decode (now : Z) (token key : string) (v : Validation) : result RawClaims ErrorKind :=
  if negb (bool_decide (va_algorithm v = RS256) && bool_decide (fst <$> Toy.split_at ":" token = Some key)) then Err KInvalidSignature
  else if negb (now - Z.of_N (va_leeway v) <=? 1000)%Z then Err KExpiredSignature
  else if negb (bool_decide (provider ∈ va_issuer v)) then Err KInvalidIssuer
  else if negb (bool_decide ("mcp" ∈ va_audience v)) then Err KInvalidAudience
  else Ok (toy_claims token).

#[local] Instance toy_jwt : Jwt := {
  Jwk := string; JwkSet := list string; DecodingKey := string;
  jwk_find keys kid := if bool_decide (kid ∈ keys) then Some kid else None;
  jwk_is_octet _ := false;
  jwk_algorithm _ := Some (Some RS256);
  decode_header token := match Toy.split_at ":" token with
                         | Some (kid, _) => Ok {| hd_kid := Some kid; hd_alg := RS256 |}
                         | None => Err "InvalidToken"
                         end;
  decoding_key jwk := Some jwk;
  jwt_decode := toy_decode;
}.

#[local] Program Instance toy_jwt_laws : JwtLaws toy_jwt := {
  signed_by jwk alg token := alg = RS256 /\ fst <$> Toy.split_at ":" token = Some jwk;
  not_before _ := None;
}.
Next Obligation.
  cbn. intros now token jwk key v c [= <-]. unfold toy_decode.
  destruct (bool_decide_reflect (va_algorithm v = RS256)); [|done]. destruct (bool_decide_reflect (fst <$> Toy.split_at ":" token = Some jwk)); cbn [andb negb]; [|done].
  destruct (Z.leb_spec (now - Z.of_N (va_leeway v)) 1000); [|done]. cbn [negb].
  destruct (bool_decide_reflect (provider ∈ va_issuer v)); [|done]. destruct (bool_decide_reflect ("mcp" ∈ va_audience v)); [|done].
  cbn [negb]. intros [= <-]. cbn [toy_claims rc_exp rc_extra]. split_and!; [done|done|done|done|by exists provider|].
  exists "mcp". split; [|done]. cbn. left.
Qed.

Definition seconds (n : N) : N := n * 1000000000.

Definition answering (done_ : N) : Source := {|
  so_discovery := Some (Ok {| dd_issuer := provider; dd_jwks_uri := "https://idp/jwks" |});
  so_jwks uri := if String.eqb uri "https://idp/jwks" then Some (Ok ["k1"]) else None;
  so_done := done_ |}.

Definition gone (done_ : N) : Source := {|
  so_discovery := Some (Err (HttpStatus "OIDC discovery document" 503));
  so_jwks _ := Some (Err (HttpStatus "JWKS" 503)); so_done := done_ |}.

Definition oidc : OidcConfig := oidc_config_new provider "mcp" "groups".

Definition first_use : use := (seconds 1, answering (seconds 2)).
Definition warm : CacheState := (cache_keys (oi_cache oidc) provider first_use.1 first_use.2 cache_new).2.

Lemma warm_run : cache_run (oi_cache oidc) provider [first_use] [seconds 1] warm.
Proof.
  assert (attempt_due (oi_cache oidc) (seconds 1) cache_new = true) as E by reflexivity.
  pose proof (run_use (oi_cache oidc) provider [] [] cache_new (seconds 1) (answering (seconds 2)) (run_new _ _)) as H.
  rewrite E in H. apply H; [constructor|by vm_compute].
Qed.


(** Two hours later they are not. *)
Example outage_fails_closed :
  (verify oidc (seconds 7200) 900 (gone (seconds 7201)) "k1:alice" warm).1 = Some (Err (KeysUnavailable provider)).
Proof. vm_compute. reflexivity. Qed.

(** ** What the durations do together *)

(** The back-off also follows a success: with a shorter refresh interval the
    provider is not asked although the keys are no longer fresh. *)
Definition short_refresh : CacheConfig := {| refresh_interval := seconds 10; retry_backoff := seconds 30; max_key_age := seconds 3600 |}.

Lemma backoff_follows_success :
  let st := (cache_keys short_refresh provider (seconds 1) (answering (seconds 2)) cache_new).2 in
  is_fresh short_refresh (seconds 20) st = false /\ attempt_due short_refresh (seconds 20) st = false.
Proof. vm_compute. done. Qed.

(** The ceiling on the age does not hold for keys that are fresh. *)
Definition long_refresh : CacheConfig := {| refresh_interval := seconds 7200; retry_backoff := seconds 30; max_key_age := seconds 60 |}.

Lemma fresh_keys_outlive_ceiling :
  let st := (cache_keys long_refresh provider (seconds 1) (answering (seconds 2)) cache_new).2 in
  (cache_keys long_refresh provider (seconds 7000) (gone (seconds 7001)) st).1 = Some (Ok ["k1"]).
Proof. vm_compute. reflexivity. Qed.
