(* ===== verification/Slice.v ===== *)
(** * Text by byte offset

    Rust's [str] indexed by byte offsets: slices, searches that return an
    offset, and the offsets at which a character starts. *)

From S2P Require Import Prelude Text Trust.
From Stdlib Require Import Ascii.

Open Scope list_scope.
Open Scope nat_scope.

Notation slen := String.length.

(** [&s[..n]], [&s[n..]] and [&s[a..b]]. *)
Fixpoint str_take (n : nat) (s : string) : string :=
  match n, s with
  | S n, String c s => String c (str_take n s)
  | _, _ => ""
  end.

Fixpoint str_drop (n : nat) (s : string) : string :=
  match n, s with
  | O, s => s
  | S n, String _ s => str_drop n s
  | S _, EmptyString => ""
  end.

Definition slice (s : string) (a b : nat) : string := str_take (b - a) (str_drop a s).

(** [str::find] and [str::rfind] of a character predicate and of a pattern. *)
Fixpoint str_find (p : ascii -> bool) (s : string) : option nat :=
  match s with
  | EmptyString => None
  | String c s => if p c then Some 0 else S <$> str_find p s
  end.

Fixpoint str_rfind (p : ascii -> bool) (s : string) : option nat :=
  match s with
  | EmptyString => None
  | String c s =>
      match str_rfind p s with
      | Some i => Some (S i)
      | None => if p c then Some 0 else None
      end
  end.

Fixpoint find_str (pat s : string) : option nat :=
  if starts_with pat s then Some 0
  else match s with EmptyString => None | String _ s => S <$> find_str pat s end.

(** [char::len_utf8] of the first character; 1 where there is none. *)
Fixpoint continuations (s : string) : nat :=
  match s with
  | String c s => if is_continuation c then S (continuations s) else 0
  | EmptyString => 0
  end.

Definition first_char_len (s : string) : nat :=
  match s with EmptyString => 1 | String _ s => S (continuations s) end.

(** ** Taking and dropping *)

Lemma take_drop n s : str_take n s +:+ str_drop n s = s.
Proof.
  revert s. induction n as [|n IH]; intros [|c s]; cbn [str_take str_drop]; try by rewrite ?str_app_nil.
  by rewrite str_app_cons, IH.
Qed.

Lemma take_len n s : slen (str_take n s) = min n (slen s).
Proof. revert s. induction n as [|n IH]; intros [|c s]; cbn; try done. by rewrite IH. Qed.

Lemma drop_len n s : slen (str_drop n s) = slen s - n.
Proof. revert s. induction n as [|n IH]; intros [|c s]; cbn; try done. Qed.

Lemma drop_app a s : str_drop (slen a) (a +:+ s) = s.
Proof. induction a as [|c a IH]; [by rewrite str_app_nil|]. by rewrite str_app_cons. Qed.

Lemma take_app a s : str_take (slen a) (a +:+ s) = a.
Proof. induction a as [|c a IH]; [done|]. rewrite str_app_cons. cbn. by rewrite IH. Qed.

Lemma drop_drop m n s : str_drop m (str_drop n s) = str_drop (n + m) s.
Proof. revert s. induction n as [|n IH]; intros [|c s]; cbn; try done. by destruct m. Qed.

Lemma drop_all n s : slen s <= n -> str_drop n s = "".
Proof. revert s. induction n as [|n IH]; intros [|c s]; cbn; try done; [lia|]. intros ?. apply IH. lia. Qed.

Lemma take_all n s : slen s <= n -> str_take n s = s.
Proof. revert s. induction n as [|n IH]; intros [|c s]; cbn; try done; [lia|]. intros ?. rewrite IH; [done|lia]. Qed.

Lemma split3 a b s : a <= b -> s = str_take a s +:+ slice s a b +:+ str_drop b s.
Proof.
  intros ?. unfold slice. replace b with (a + (b - a)) at 2 by lia.
  by rewrite <-drop_drop, take_drop, take_drop.
Qed.

Lemma slice_len s a b : a <= b -> b <= slen s -> slen (slice s a b) = b - a.
Proof. intros ??. unfold slice. rewrite take_len, drop_len. lia. Qed.

Lemma slice_app x y z : slice (x +:+ y +:+ z) (slen x) (slen x + slen y) = y.
Proof. unfold slice. rewrite drop_app. replace (_ + _ - _) with (slen y) by lia. apply take_app. Qed.

Lemma slice_to_end s a : slice s a (slen s) = str_drop a s.
Proof. unfold slice. apply take_all. rewrite drop_len. lia. Qed.

Lemma slice_nil s a : slice s a a = "".
Proof. unfold slice. rewrite Nat.sub_diag. by destruct (str_drop a s). Qed.

Lemma take_take m n s : str_take m (str_take n s) = str_take (min m n) s.
Proof. revert n s. induction m as [|m IH]; intros [|n] [|c s]; cbn; try done. by rewrite IH. Qed.

Lemma take_plus m n s : str_take (m + n) s = str_take m s +:+ str_take n (str_drop m s).
Proof.
  revert s. induction m as [|m IH]; intros s; cbn [Nat.add str_drop].
  - change (str_take 0 s) with "". by destruct s.
  - destruct s as [|c s]; cbn [str_take str_drop]; [by destruct n|]. by rewrite str_app_cons, IH.
Qed.

Lemma slice_join s a b c : a <= b -> b <= c -> slice s a b +:+ slice s b c = slice s a c.
Proof.
  intros ??. unfold slice. replace (c - a) with ((b - a) + (c - b)) by lia.
  rewrite take_plus, drop_drop. by replace (a + (b - a)) with b by lia.
Qed.

(** ** Searching *)

Lemma str_find_Some p s i :
  str_find p s = Some i -> i < slen s /\ exists c, String.get i s = Some c /\ p c = true.
Proof.
  revert i. induction s as [|c s IH]; intros i; cbn; [done|]. destruct (p c) eqn:E.
  - intros [= <-]. split; [lia|]. by exists c.
  - destruct (str_find p s) as [j|]; cbn; [|done]. intros [= <-]. destruct (IH j eq_refl) as [? ?]. split; [lia|done].
Qed.

Lemma str_find_split p s i :
  str_find p s = Some i -> exists a c b, s = a +:+ String c b /\ slen a = i /\ p c = true /\ str_exists p a = false.
Proof.
  revert i. induction s as [|c s IH]; intros i; cbn; [done|]. destruct (p c) eqn:E.
  - intros [= <-]. by exists "", c, s.
  - destruct (str_find p s) as [j|]; cbn; [|done]. intros [= <-]. destruct (IH j eq_refl) as (a&d&b&->&<-&?&?).
    exists (String c a), d, b. rewrite str_app_cons. cbn. by rewrite E.
Qed.

Lemma str_find_None p s : str_find p s = None -> str_exists p s = false.
Proof.
  induction s as [|c s IH]; cbn; [done|]. destruct (p c); [done|]. destruct (str_find p s); [done|auto].
Qed.

Lemma str_find_first p a c b : str_exists p a = false -> p c = true -> str_find p (a +:+ String c b) = Some (slen a).
Proof.
  induction a as [|d a IH]; intros Ha Hc; rewrite ?str_app_nil, ?str_app_cons; cbn; [by rewrite Hc|].
  cbn in Ha. apply orb_false_iff in Ha as [-> Ha]. by rewrite IH.
Qed.

Lemma find_str_Some pat s i :
  find_str pat s = Some i -> exists a b, s = a +:+ pat +:+ b /\ slen a = i.
Proof.
  revert i. induction s as [|c s IH]; intros i; cbn [find_str].
  - destruct (starts_with pat "") eqn:E; [|done]. intros [= <-].
    apply starts_with_spec in E as [t Ht]. by exists "", t.
  - destruct (starts_with pat (String c s)) eqn:E.
    + intros [= <-]. apply starts_with_spec in E as [t Ht]. by exists "", t.
    + destruct (find_str pat s) as [j|]; cbn; [|done]. intros [= <-]. destruct (IH j eq_refl) as (a&b&->&<-).
      exists (String c a), b. by rewrite str_app_cons.
Qed.

Lemma find_str_None pat s : find_str pat s = None <-> contains_str pat s = false.
Proof.
  induction s as [|c s IH]; cbn [find_str contains_str]; destruct (starts_with pat _); try done.
  rewrite orb_false_l, <-IH. by destruct (find_str pat s).
Qed.

(** ** Character boundaries *)

(** The continuation bytes that the first byte of a character calls for. *)
Definition utf8_extra (c : ascii) : option nat :=
  let n := N_of_ascii c in
  if (n <? 128)%N then Some 0
  else if (194 <=? n)%N && (n <=? 223)%N then Some 1
  else if (224 <=? n)%N && (n <=? 239)%N then Some 2
  else if (240 <=? n)%N && (n <=? 244)%N then Some 3
  else None.

(** Every Rust [str] is UTF-8; [pending] bytes of a character are to come. *)
Fixpoint utf8_from (pending : nat) (s : string) : bool :=
  match s with
  | EmptyString => pending =? 0
  | String c s =>
      match pending with
      | S k => is_continuation c && utf8_from k s
      | O => match utf8_extra c with Some k => utf8_from k s | None => false end
      end
  end.

Definition utf8 (s : string) : bool := utf8_from 0 s.

(** [str::is_char_boundary]. *)
Definition is_char_boundary (s : string) (i : nat) : bool :=
  (i =? 0) || match String.get i s with Some c => negb (is_continuation c) | None => i =? slen s end.

(** [&s[a..b]] does not panic. *)
Definition valid_slice (s : string) (sp : nat * nat) : Prop :=
  sp.1 <= sp.2 /\ sp.2 <= slen s /\ is_char_boundary s sp.1 = true /\ is_char_boundary s sp.2 = true.

Definition is_ascii (c : ascii) : bool := (N_of_ascii c <? 128)%N.

Lemma ascii_extra c : is_ascii c = true -> utf8_extra c = Some 0.
Proof. unfold is_ascii, utf8_extra. by intros ->. Qed.

Lemma extra_start c k : utf8_extra c = Some k -> is_continuation c = false.
Proof.
  unfold utf8_extra, is_continuation. set (n := N_of_ascii c).
  destruct (N.ltb_spec n 128); [intros _; apply andb_false_iff; left; by apply N.leb_gt|].
  intros E. apply andb_false_iff. right. apply N.leb_gt.
  destruct (N.leb_spec 194 n), (N.leb_spec 224 n), (N.leb_spec 240 n); cbn in E; try done; try lia;
    repeat (case_match; try done); lia.
Qed.

Lemma ascii_start c : is_ascii c = true -> is_continuation c = false.
Proof. intros H%ascii_extra. by eapply extra_start. Qed.

Lemma get_app a c b : String.get (slen a) (a +:+ String c b) = Some c.
Proof. induction a as [|d a IH]; [done|]. by rewrite str_app_cons. Qed.

Lemma get_None_len s : String.get (slen s) s = None.
Proof. induction s as [|c s IH]; done. Qed.

Lemma get_Some_split i s c : String.get i s = Some c -> exists a b, s = a +:+ String c b /\ slen a = i.
Proof.
  revert i. induction s as [|d s IH]; intros [|i]; cbn; try done.
  - intros [= ->]. by exists "", s.
  - intros (a&b&->&<-)%IH. exists (String d a), b. by rewrite str_app_cons.
Qed.

Lemma boundary_start a c b : is_continuation c = false -> is_char_boundary (a +:+ String c b) (slen a) = true.
Proof. intros H. unfold is_char_boundary. rewrite get_app, H. by rewrite orb_true_r. Qed.

Lemma boundary_end s : is_char_boundary s (slen s) = true.
Proof. unfold is_char_boundary. rewrite get_None_len, Nat.eqb_refl. by rewrite orb_true_r. Qed.

Lemma utf8_split k a c b :
  utf8_from k (a +:+ String c b) = true -> is_continuation c = false -> utf8_from k a = true /\ utf8 (String c b) = true.
Proof.
  revert k. induction a as [|d a IH]; intros k; rewrite ?str_app_nil, ?str_app_cons.
  - destruct k as [|k]; [done|]. cbn. intros [H _]%andb_true_iff. congruence.
  - cbn. destruct k as [|k]; [destruct (utf8_extra d) as [k|]; [|done]; by apply IH|].
    intros [-> H]%andb_true_iff. by apply IH.
Qed.

Lemma utf8_boundary a b : utf8_from 0 b = true -> is_char_boundary (a +:+ b) (slen a) = true.
Proof.
  destruct b as [|c b].
  - intros _. rewrite str_app_nil_r. apply boundary_end.
  - cbn. destruct (utf8_extra c) as [k|] eqn:E; [|done]. intros _. eapply boundary_start, extra_start, E.
Qed.

(** A single-byte character starts and ends at a boundary. *)
Lemma ascii_boundaries s i c :
  utf8 s = true -> String.get i s = Some c -> is_ascii c = true ->
  S i <= slen s /\ is_char_boundary s i = true /\ is_char_boundary s (S i) = true.
Proof.
  intros Hu (a&b&->&<-)%get_Some_split Hc. split_and!.
  - rewrite str_length_app. cbn. lia.
  - apply boundary_start, ascii_start, Hc.
  - apply utf8_split in Hu as [_ Hu]; [|by apply ascii_start]. unfold utf8 in Hu. cbn in Hu.
    rewrite ascii_extra in Hu by done.
    pose proof (utf8_boundary (a +:+ String c "") b Hu) as H.
    rewrite str_app_assoc, str_app_cons, str_app_nil, str_length_app in H. cbn in H.
    by replace (S (slen a)) with (slen a + 1) by lia.
Qed.

Lemma get_slice s a b i c : String.get i (slice s a b) = Some c -> String.get (a + i) s = Some c /\ i < b - a.
Proof.
  unfold slice. intros (x&y&E&<-)%get_Some_split. split.
  - pose proof (take_drop a s) as Hs. pose proof (take_drop (b - a) (str_drop a s)) as Hd.
    rewrite E in Hd. rewrite <-Hd, str_app_assoc, str_app_cons, <-str_app_assoc in Hs.
    assert (slen (str_take a s) = a) as Ha.
    { rewrite take_len. apply (f_equal slen) in E. rewrite take_len, drop_len, str_length_app in E. cbn in E. lia. }
    rewrite <-Hs, <-Ha at 1. rewrite <-str_length_app. apply get_app.
  - apply (f_equal slen) in E. rewrite take_len, str_length_app in E. cbn in E. lia.
Qed.

Lemma str_find_get p s i : str_find p s = Some i -> exists c, String.get i s = Some c /\ p c = true.
Proof. by intros [_ ?]%str_find_Some. Qed.

Lemma str_rfind_get p s i : str_rfind p s = Some i -> exists c, String.get i s = Some c /\ p c = true.
Proof.
  revert i. induction s as [|c s IH]; intros i; cbn; [done|]. destruct (str_rfind p s) as [j|].
  - intros [= <-]. cbn. by apply IH.
  - destruct (p c) eqn:E; [|done]. intros [= <-]. by exists c.
Qed.

Lemma width_utf8 c s k :
  utf8 (String c s) = true -> whitespace_width (String c s) = Some (S k) -> utf8_from k s = true.
Proof.
  unfold utf8, whitespace_width. cbn [utf8_from String.list_ascii_of_string fmap list_fmap].
  unfold utf8_extra. generalize (N_of_ascii c). intros n Hu Hw.
  destruct ((9 <=? n)%N && (n <=? 13)%N || (n =? 32)%N) eqn:E1.
  - injection Hw as <-. apply orb_true_iff in E1. rewrite (proj2 (N.ltb_lt n 128)) in Hu; [done|].
    destruct E1 as [[_ H%N.leb_le]%andb_true_iff|H%N.eqb_eq]; lia.
  - destruct s as [|d s]; cbn in Hw; [done|]. destruct ((n =? 194)%N && _) eqn:E2.
    + injection Hw as <-. apply andb_true_iff in E2 as [E2%N.eqb_eq _]. by subst n.
    + destruct s as [|e s]; cbn in Hw; [done|]. case_match eqn:E3; [|done]. injection Hw as <-.
      assert (n = 225 \/ n = 226 \/ n = 227)%N as Hn.
      { rewrite !orb_true_iff, !andb_true_iff, !N.eqb_eq in E3. tauto. }
      destruct Hn as [Hn|[Hn|Hn]]; by subst n.
Qed.

Lemma width_head c s w : whitespace_width (String c s) = Some w -> is_continuation c = false.
Proof.
  unfold whitespace_width, is_continuation. cbn [String.list_ascii_of_string fmap list_fmap]. set (n := N_of_ascii c).
  intros Hw. apply andb_false_iff. destruct (N.leb_spec 128 n); [|by left]. right. apply N.leb_gt.
  repeat (case_match; try done);
    repeat match goal with H : (_ || _) = true |- _ => apply orb_true_iff in H as [?|?] end;
    repeat match goal with H : (_ && _) = true |- _ => apply andb_true_iff in H as [? ?] end;
    repeat match goal with H : (_ =? _)%N = true |- _ => apply N.eqb_eq in H
                         | H : (_ <=? _)%N = true |- _ => apply N.leb_le in H end; lia.
Qed.

Lemma width_nonzero c s : whitespace_width (String c s) <> Some 0.
Proof. unfold whitespace_width. cbn [String.list_ascii_of_string fmap list_fmap]. repeat case_match; done. Qed.

(** ** Strict UTF-8

    [String::from_utf8]: the second byte of a character is restricted so that
    overlong forms, surrogates and numbers above the last scalar are refused.
    [lo] and [hi] bound the next continuation byte. *)
Fixpoint utf8_valid_from (pending : nat) (lo hi : N) (s : string) : bool :=
  match s with
  | EmptyString => pending =? 0
  | String c s =>
      let n := N_of_ascii c in
      match pending with
      | S k => (lo <=? n)%N && (n <=? hi)%N && utf8_valid_from k 128 191 s
      | O =>
          match utf8_extra c with
          | Some k =>
              utf8_valid_from k
                (if (n =? 224)%N then 160 else if (n =? 240)%N then 144 else 128)
                (if (n =? 237)%N then 159 else if (n =? 244)%N then 143 else 191) s
          | None => false
          end
      end
  end.

Definition utf8_valid (s : string) : bool := utf8_valid_from 0 128 191 s.

Lemma utf8_valid_utf8 k lo hi s :
  (128 <= lo)%N -> (hi <= 191)%N -> utf8_valid_from k lo hi s = true -> utf8_from k s = true.
Proof.
  revert k lo hi. induction s as [|c s IH]; intros k lo hi Hlo Hhi; [done|]. cbn [utf8_valid_from utf8_from]. destruct k as [|k].
  - destruct (utf8_extra c) as [k|]; [|done]. apply IH; repeat case_match; lia.
  - rewrite !andb_true_iff. intros [[H1%N.leb_le H2%N.leb_le] H3]. split; [|by eapply IH, H3].
    unfold is_continuation. apply andb_true_iff. split; apply N.leb_le; lia.
Qed.

(** ** Truncation *)

(** The largest character boundary that is not above [end_]. *)
Fixpoint boundary_below (input : string) (end_ : nat) : nat :=
  match end_ with
  | O => 0
  | S n => if is_char_boundary input end_ then end_ else boundary_below input n
  end.

Lemma boundary_below_spec input end_ :
  is_char_boundary input (boundary_below input end_) = true /\ (boundary_below input end_ <= end_)%nat
  /\ forall i, (boundary_below input end_ < i <= end_)%nat -> is_char_boundary input i = false.
Proof.
  induction end_ as [|n IH]; cbn [boundary_below]; [split_and!; [done|lia|lia]|].
  destruct (is_char_boundary input (S n)) eqn:E; [split_and!; [done|lia|lia]|].
  destruct IH as (?&?&Hi). split_and!; [done|lia|]. intros i Hlt. destruct (decide (i = S n)) as [->|]; [done|]. apply Hi. lia.
Qed.
