(* ===== verification/Denylist.v ===== *)
(** * Secret names and secret shapes

    crates/mecmcp-redact/src/denylist.rs and shape.rs: which field names are
    secret under any spelling, and which values look like a secret whatever
    their field is called. *)

From S2P Require Import Prelude Text Trust.
From Stdlib Require Import Ascii.

Open Scope list_scope.

(** [char::is_ascii_alphabetic]. *)
Definition is_ascii_alphabetic (c : ascii) : bool := is_ascii_alphanumeric c && negb (is_ascii_digit c).

(** [str::eq_ignore_ascii_case]. *)
Definition eq_ignore_ascii_case (a b : string) : bool := String.eqb (to_lowercase a) (to_lowercase b).

(** ** Field names (denylist.rs) *)

Definition DENYLISTED_KEYS : list string :=
  ["secret"; "privatekey"; "presharedkey"; "psk"; "passphrase"; "xpassphrase"; "xsecret"; "phash";
   "community"; "communities"; "communitystring"; "apikey"; "token"; "authenticationkey"; "password";
   "sharedkey"; "sharedsecret"; "credential"; "bindpw"; "encryptionkey"; "privkey"; "authorization";
   "bearer"; "cookie"; "passwd"; "pwd"; "session"; "sessionid"; "sessiontoken"; "sessionkey";
   "sessioncookie"; "sessionsecret"; "keystring"; "messagedigestkey"; "authkey"; "keywrap";
   "partnerkey"; "accountkey"; "clientkey"; "hmackey"].

Definition DENYLISTED_EXACT_KEYS : list string := ["key"].

Definition CONTEXTUALLY_DENYLISTED_EXACT_KEYS : list string := ["keys"].

Fixpoint str_filter (p : ascii -> bool) (s : string) : string :=
  match s with
  | EmptyString => ""
  | String c s => if p c then String c (str_filter p s) else str_filter p s
  end.

Definition normalize (s : string) : string := to_lowercase (str_filter is_ascii_alphanumeric s).

Definition is_wep_keys_field (key : string) (parent_key sibling_type : option string) : bool :=
  if negb (String.eqb (normalize key) "keys") then false
  else if match sibling_type with Some t => String.eqb (normalize t) "wep" | None => false end then true
  else match parent_key with Some p => String.eqb (normalize p) "auth" | None => false end.

Definition is_bgp_scope_key (key : string) : bool := String.eqb (normalize key) "bgp".

Definition is_bgp_community_field (key : string) (under_bgp_scope : bool) : bool :=
  under_bgp_scope && String.eqb (normalize key) "community".

Definition WELL_KNOWN : list string :=
  ["no-export"; "no-advertise"; "no-peer"; "no-export-subconfed"; "local-as"; "internet"].

Definition is_bgp_community_tag (s : string) : bool :=
  if existsb (eq_ignore_ascii_case s) WELL_KNOWN then true
  else
    let parts := str_split ":" s in
    ((length parts =? 2) || (length parts =? 3))%nat
    && forallb (fun p => negb (is_empty_str p) && str_forall is_ascii_digit p) parts.

Definition is_denylisted_key (key : string) : bool :=
  let normalized := normalize key in
  if is_empty_str normalized then false
  else if existsb (String.eqb normalized) DENYLISTED_EXACT_KEYS then true
  else existsb (fun term => contains_str term normalized) DENYLISTED_KEYS.

(** ** Value shapes (shape.rs) *)

Definition contains_pem_marker (value : string) : bool := contains_str "-----BEGIN " value.

(** [str::split_once] of a character. *)
Fixpoint split_once (sep : ascii) (s : string) : option (string * string) :=
  match s with
  | EmptyString => None
  | String c s =>
      if Ascii.eqb c sep then Some ("", s)
      else match split_once sep s with Some (a, b) => Some (String c a, b) | None => None end
  end.

Definition is_crypt_hash (value : string) : bool :=
  match value with
  | String c rest =>
      if negb (Ascii.eqb c "$") then false
      else match split_once "$" rest with
           | None => false
           | Some (id, content) =>
               if is_empty_str id || (8 <? String.length id)%nat || negb (str_forall is_ascii_alphanumeric id)
               then false else negb (is_empty_str content)
           end
  | EmptyString => false
  end.

Definition contains_pan_aq_suffix (value : string) : bool := contains_str "-AQ==" value.

(** [str::trim_start]. *)
Definition trim_start_ws (s : string) : string := trim_start_from 0 s.

Definition is_enc_marker (value : string) : bool :=
  match strip_prefix "ENC" (trim_start_ws value) with
  | None => false
  | Some EmptyString => false
  | Some (String c _) => negb (is_ascii_alphanumeric c)
  end.

Definition looks_like_secret_value (value : string) : bool :=
  is_crypt_hash value || contains_pan_aq_suffix value || is_enc_marker value || contains_pem_marker value.

Definition looks_like_embedded_blob (value : string) : bool :=
  contains_char (ascii_of_nat 10) value || contains_char "$" value || contains_str "-----BEGIN" value
  || contains_str "SECRET-DATA" value.

Definition SECRET_DATA : string := "## SECRET-DATA".

Definition line_has_secret_data_marker (line : string) : bool := contains_str SECRET_DATA line.

Definition is_pem_begin (trimmed : string) : bool := starts_with "-----BEGIN " trimmed && ends_with "-----" trimmed.

Definition is_pem_end (trimmed : string) : bool := starts_with "-----END " trimmed && ends_with "-----" trimmed.

(** ** The spelling of a name does not matter *)

Lemma str_filter_app p s t : str_filter p (s +:+ t) = str_filter p s +:+ str_filter p t.
Proof.
  induction s as [|c s IH]; [by rewrite !str_app_nil|]. rewrite str_app_cons. cbn [str_filter].
  destruct (p c); [by rewrite str_app_cons, IH|done].
Qed.

Lemma to_lowercase_app s t : to_lowercase (s +:+ t) = to_lowercase s +:+ to_lowercase t.
Proof. induction s as [|c s IH]; [by rewrite !str_app_nil|]. rewrite str_app_cons. cbn [to_lowercase]. by rewrite str_app_cons, IH. Qed.

Lemma normalize_app s t : normalize (s +:+ t) = normalize s +:+ normalize t.
Proof. unfold normalize. by rewrite str_filter_app, to_lowercase_app. Qed.

Lemma contains_str_spec p s : contains_str p s = true <-> exists a b, s = a +:+ p +:+ b.
Proof.
  induction s as [|c s IH].
  - cbn [contains_str]. rewrite orb_false_r, starts_with_spec. split.
    + intros [t Ht]. by exists "", t.
    + intros (a&b&E). destruct a; [by exists b|by rewrite str_app_cons in E].
  - cbn [contains_str]. rewrite orb_true_iff, IH, starts_with_spec. split.
    + intros [[t Ht]|(a&b&->)]; [by exists "", t|]. exists (String c a), b. by rewrite str_app_cons.
    + intros (a&b&E). destruct a as [|d a]; [left; by exists b|].
      rewrite str_app_cons in E. injection E as -> ->. right. by exists a, b.
Qed.

Lemma contains_str_mid p a s b : contains_str p s = true -> contains_str p (a +:+ s +:+ b) = true.
Proof.
  rewrite !contains_str_spec. intros (x&y&->). exists (a +:+ x), (y +:+ b). by rewrite !str_app_assoc.
Qed.

Lemma is_denylisted_key_spec k :
  is_denylisted_key k = true <->
  normalize k = "key" \/ exists term, term ∈ DENYLISTED_KEYS /\ contains_str term (normalize k) = true.
Proof.
  unfold is_denylisted_key. split.
  - destruct (is_empty_str _); [done|]. destruct (existsb (String.eqb _) _) eqn:E.
    + intros _. left. apply existsb_exists in E as (t&[<-|[]]&Ht). by apply String.eqb_eq.
    + intros (t&Hin%list_elem_of_In&Ht)%existsb_exists. right. by exists t.
  - intros [->|(t&Hin&Ht)]; [done|]. destruct (is_empty_str _) eqn:E.
    { apply is_empty_str_spec in E. rewrite E in Ht. exfalso. revert Ht.
      repeat (apply elem_of_cons in Hin as [->|Hin]; [done|]). by apply elem_of_nil in Hin. }
    destruct (existsb (String.eqb _) _); [done|]. apply existsb_exists. exists t.
    split; [by apply list_elem_of_In|done].
Qed.

(** A secret name stays secret inside a longer one, however it is spelled. *)
Lemma is_denylisted_key_compound pre k post term :
  term ∈ DENYLISTED_KEYS -> normalize k = term -> is_denylisted_key (pre +:+ k +:+ post) = true.
Proof.
  intros Hin Hk. apply is_denylisted_key_spec. right. exists term. split; [done|].
  rewrite !normalize_app, Hk. apply contains_str_spec. by exists (normalize pre), (normalize post).
Qed.
