(* ===== verification/RedactText.v ===== *)
(** * Redaction of unstructured text

    crates/mecmcp-redact/src/text.rs: the passes that find the value spans of a
    line, the splice that replaces them, and the scan over the lines with its
    open PEM block and its open YAML value. *)

From S2P Require Import Prelude Text Trust Slice Denylist.
From Stdlib Require Import Ascii.

Open Scope list_scope.
Open Scope nat_scope.

Definition PLACEHOLDER : string := "[REDACTED]".

Notation span := (nat * nat)%type (only parsing).

Definition TAB : ascii := ascii_of_nat 9.
Definition LF : ascii := ascii_of_nat 10.
Definition CR : ascii := ascii_of_nat 13.
Definition DQUOTE : ascii := ascii_of_nat 34.

(** ** Tokens of a line *)

(** The maximal runs of characters that are not white space; [start] is where
    the run that is being read began. *)
Fixpoint token_spans_from (i skip : nat) (start : option nat) (s : string) : list span :=
  match s with
  | EmptyString => match start with Some st => [(st, i)] | None => [] end
  | String _ s' =>
      match skip with
      | S k => token_spans_from (S i) k start s'
      | O =>
          match whitespace_width s with
          | Some (S k) =>
              match start with
              | Some st => (st, i) :: token_spans_from (S i) k None s'
              | None => token_spans_from (S i) k None s'
              end
          | _ => token_spans_from (S i) 0 (Some (default i start)) s'
          end
      end
  end.

Definition whitespace_token_spans (line : string) : list span := token_spans_from 0 0 None line.

Definition VALUE_TYPE_KEYWORDS : list string :=
  ["ascii-text"; "hexadecimal"; "encrypted-password"; "plain-text-password"; "simple-password";
   "authentication-key"; "md5"; "sha1"; "sha256"].

Definition is_value_type_keyword (token : string) : bool :=
  existsb (fun kw => eq_ignore_ascii_case kw token) VALUE_TYPE_KEYWORDS.

Definition SUBTOKEN_SPLIT_CHARS : list ascii := ["&"; ";"; ","; "?"; "{"; "}"]%char.

Definition is_subtoken_split (c : ascii) : bool := bool_decide (c ∈ SUBTOKEN_SPLIT_CHARS).

(** The non-empty pieces of [s], which starts at offset [i], between split
    characters; the current piece began at [piece_start]. *)
Fixpoint subtoken_spans_from (i piece_start : nat) (s : string) : list span :=
  let flush := if piece_start <? i then [(piece_start, i)] else [] in
  match s with
  | EmptyString => flush
  | String c s =>
      if is_subtoken_split c then flush ++ subtoken_spans_from (S i) (S i) s
      else subtoken_spans_from (S i) piece_start s
  end.

Definition subtoken_spans (line : string) (start end_ : nat) : list span :=
  subtoken_spans_from start start (slice line start end_).

Fixpoint first_value_in (line : string) (tokens : list span) : option nat :=
  match tokens with
  | [] => None
  | (s, e) :: tokens =>
      if str_exists is_ascii_alphanumeric (slice line s e) then
        if is_value_type_keyword (slice line s e) then first_value_in line tokens else Some s
      else first_value_in line tokens
  end.

Definition first_value_start (line : string) (tokens : list span) (from : nat) : option nat :=
  first_value_in line (drop from tokens).

(** ** Splicing *)

(** The order of [(start, Reverse(end))]. *)
Definition span_le (a b : span) : Prop := a.1 < b.1 \/ (a.1 = b.1 /\ b.2 <= a.2).

#[global] Instance span_le_dec : RelDecision span_le.
Proof. unfold span_le. intros a b. apply _. Defined.

Definition is_trailing_punct (c : ascii) : bool := bool_decide (c ∈ [";"; ","; "{"; "}"]%char).

(** One pass over the sorted spans; [cursor] is the end of what was written. *)
Fixpoint splice_from (line : string) (cursor : nat) (spans : list span) : string :=
  match spans with
  | [] => str_drop cursor line
  | (start, end_) :: spans =>
      if start <? cursor then splice_from line cursor spans
      else
        let value := slice line start end_ in
        let core_len := slen (trim_end is_trailing_punct value) in
        let punct_start := start + core_len in
        slice line cursor start +:+ PLACEHOLDER +:+ slice line punct_start end_ +:+ splice_from line end_ spans
  end.

Definition splice_spans (line : string) (spans : list span) : string :=
  splice_from line 0 (merge_sort span_le spans).

(** ** Values of denylisted keys *)

(** The first of [=] and [:] behind a denylisted key. *)
Definition key_separator (text : string) : option nat :=
  let behind sep :=
    match str_find (Ascii.eqb sep) text with
    | Some rel => if is_denylisted_key (str_take rel text) then Some rel else None
    | None => None
    end in
  match behind "="%char with Some rel => Some rel | None => behind ":"%char end.

(** The first sub-token with a denylisted key: where its value would start. *)
Fixpoint matched_subtoken (line : string) (subtokens : list span) : option nat :=
  match subtokens with
  | [] => None
  | (ss, se) :: subtokens =>
      match key_separator (slice line ss se) with
      | Some rel => Some (ss + rel + 1)
      | None => matched_subtoken line subtokens
      end
  end.

Definition is_ident (c : ascii) : bool := is_ascii_alphanumeric c || Ascii.eqb c "-" || Ascii.eqb c "_".

(** The runs of identifier characters that a walk over a token visits. *)
Fixpoint ident_runs_from (i : nat) (start : option nat) (s : string) : list span :=
  match s with
  | EmptyString => match start with Some st => [(st, i)] | None => [] end
  | String c s =>
      if is_ident c then ident_runs_from (S i) (Some (default i start)) s
      else match start with
           | Some st => (st, i) :: ident_runs_from (S i) None s
           | None => ident_runs_from (S i) None s
           end
  end.

Fixpoint attached_in (token : string) (runs : list span) : option nat :=
  match runs with
  | [] => None
  | (start, end_) :: runs =>
      if is_denylisted_key (slice token start end_) && str_exists is_ascii_alphanumeric (str_drop end_ token)
      then Some end_ else attached_in token runs
  end.

Definition attached_value_key_end (token : string) : option nat :=
  attached_in token (ident_runs_from 0 None token).

Definition to_end (line : string) (start : option nat) : list span :=
  match start with Some vstart => [(vstart, slen line)] | None => [] end.

(** What one token of the line contributes; [rest] are the tokens after it. *)
Definition token_key_spans (line : string) (rest : list span) (token : span) : list span :=
  let '(s, e) := token in
  match matched_subtoken line (subtoken_spans line s e) with
  | Some value_start =>
      if str_exists (fun c => negb (is_subtoken_split c)) (slice line value_start e)
      then [(value_start, slen line)]
      else to_end line (first_value_start line rest 0)
  | None =>
      match attached_value_key_end (slice line s e) with
      | Some run_end => [(s + run_end, slen line)]
      | None =>
          let bare_key := trim_end (fun c => Ascii.eqb c ":" || Ascii.eqb c ";") (slice line s e) in
          if negb (is_empty_str bare_key) && is_denylisted_key bare_key
          then to_end line (first_value_start line rest 0) else []
      end
  end.

Fixpoint key_spans_in (line : string) (tokens : list span) : list span :=
  match tokens with
  | [] => []
  | token :: rest => token_key_spans line rest token ++ key_spans_in line rest
  end.

Definition denylisted_key_spans (line : string) : list span := key_spans_in line (whitespace_token_spans line).

(** ** Values known by their shape *)

(** [open] is the quote that is open and where its content began. *)
Fixpoint quoted_from (i : nat) (open : option (ascii * nat)) (s : string) : list span :=
  match s with
  | EmptyString => []
  | String c s =>
      match open with
      | None => quoted_from (S i) (if Ascii.eqb c DQUOTE || Ascii.eqb c "'" then Some (c, S i) else None) s
      | Some (quote, start) =>
          if Ascii.eqb c quote then (start, i) :: quoted_from (S i) None s else quoted_from (S i) open s
      end
  end.

Definition quoted_content_spans (line : string) : list span := quoted_from 0 None line.

(** Up to the first slash or white space. *)
Fixpoint authority_length (s : string) : nat :=
  match s with
  | EmptyString => 0
  | String c s' =>
      if Ascii.eqb c "/" || bool_decide (is_Some (whitespace_width s)) then 0 else S (authority_length s')
  end.

(** The password between the first colon and the last at sign. *)
Definition authority_password (authority_start : nat) (authority : string) : list span :=
  match str_rfind (Ascii.eqb "@") authority with
  | None => []
  | Some at_rel =>
      match str_find (Ascii.eqb ":") (str_take at_rel authority) with
      | None => []
      | Some colon_rel =>
          let pass_start := authority_start + colon_rel + 1 in
          let pass_end := authority_start + at_rel in
          if pass_start <? pass_end then [(pass_start, pass_end)] else []
      end
  end.

Fixpoint userinfo_from (i skip : nat) (s : string) : list span :=
  match s with
  | EmptyString => []
  | String _ s' =>
      match skip with
      | S k => userinfo_from (S i) k s'
      | O =>
          if starts_with "://" s then
            let rest := str_drop 3 s in
            let authority_len := authority_length rest in
            let step := if authority_len =? 0 then first_char_len rest else authority_len in
            authority_password (i + 3) (str_take authority_len rest) ++ userinfo_from (S i) (2 + step) s'
          else userinfo_from (S i) 0 s'
      end
  end.

Definition userinfo_password_spans (line : string) : list span := userinfo_from 0 0 line.

Fixpoint has_snmp_user (line : string) (tokens : list span) : bool :=
  match tokens with
  | (s0, e0) :: (((s1, e1) :: _) as rest) =>
      (eq_ignore_ascii_case (slice line s0 e0) "snmp-server" && eq_ignore_ascii_case (slice line s1 e1) "user")
      || has_snmp_user line rest
  | _ => false
  end.

Fixpoint auth_priv_in (line : string) (tokens : list span) : list span :=
  match tokens with
  | [] => []
  | (s, e) :: rest =>
      let text := slice line s e in
      (if eq_ignore_ascii_case text "auth" || eq_ignore_ascii_case text "priv"
       then to_end line (first_value_start line rest 0) else [])
      ++ auth_priv_in line rest
  end.

Definition snmpv3_auth_priv_spans (line : string) : list span :=
  let tokens := whitespace_token_spans line in
  if negb (has_snmp_user line tokens) then [] else auth_priv_in line tokens.

Definition secret_spans (line : string) (spans : list span) : list span :=
  filter (fun sp => looks_like_secret_value (slice line sp.1 sp.2) = true) spans.

Definition shape_matching_spans (line : string) : list span :=
  secret_spans line (quoted_content_spans line) ++ secret_spans line (whitespace_token_spans line)
  ++ userinfo_password_spans line ++ snmpv3_auth_priv_spans line.

(** ** One line *)

(** The last white space character: its offset and its length. *)
Fixpoint last_whitespace (i : nat) (s : string) : option (nat * nat) :=
  match s with
  | EmptyString => None
  | String _ s' =>
      match last_whitespace (S i) s' with
      | Some r => Some r
      | None => match whitespace_width s with Some w => Some (i, w) | None => None end
      end
  end.

(** The value behind [=], behind [:], or the last word. *)
Definition redact_tail (line : string) (force : bool) : string :=
  let bare :=
    match last_whitespace 0 line with
    | Some (last_space, width) =>
        let head := str_take (last_space + width) line in
        let tail := str_drop (last_space + width) line in
        let tail_trimmed := trim_end (Ascii.eqb ";") tail in
        let trailing := str_drop (slen tail_trimmed) tail in
        if negb (is_empty_str tail_trimmed) && (force || looks_like_secret_value tail_trimmed)
        then head +:+ PLACEHOLDER +:+ trailing else line
    | None => if force || looks_like_secret_value line then PLACEHOLDER else line
    end in
  let behind_colon :=
    match str_find (Ascii.eqb ":") line with
    | Some colon =>
        if force || looks_like_secret_value (trim (str_drop (colon + 1) line))
        then str_take (colon + 1) line +:+ PLACEHOLDER else bare
    | None => bare
    end in
  match str_rfind (Ascii.eqb "=") line with
  | Some eq =>
      if force || looks_like_secret_value (trim (str_drop (eq + 1) line))
      then str_take (eq + 1) line +:+ PLACEHOLDER else behind_colon
  | None => behind_colon
  end.

Definition value_spans (line : string) (force : bool) : list span :=
  if force then
    let key_spans := denylisted_key_spans line in
    key_spans ++ shape_matching_spans line
    ++ match key_spans with [] => quoted_content_spans line | _ => [] end
  else shape_matching_spans line.

Definition redact_value_span (line : string) (force : bool) : string :=
  match value_spans line force with
  | [] => redact_tail line force
  | spans => splice_spans line spans
  end.

(** [line.split(p).any(f)] for a character predicate; [word] is what was read
    since the last separator. *)
Fixpoint any_piece (sep : ascii -> bool) (f : string -> bool) (word s : string) : bool :=
  match s with
  | EmptyString => f word
  | String c s => if sep c then f word || any_piece sep f "" s else any_piece sep f (word +:+ String c "") s
  end.

Definition has_denylisted_key (line : string) : bool :=
  any_piece (fun c => negb (is_ident c)) is_denylisted_key "" line.

Definition redact_line (line : string) : string :=
  match find_str SECRET_DATA line with
  | Some idx => redact_value_span (str_take idx line) true +:+ str_drop idx line
  | None => redact_value_span line (has_denylisted_key line)
  end.

(** ** The lines of a text *)

Definition is_indent (c : ascii) : bool := Ascii.eqb c " " || Ascii.eqb c TAB.

Definition indent_len (line : string) : nat := slen line - slen (trim_start is_indent line).

Definition strip_yaml_comment (tail : string) : string :=
  match find_str " #" tail with Some idx => str_take idx tail | None => tail end.

Definition is_yaml_block_scalar_marker (tail : string) : bool :=
  match trim tail with
  | String c rest =>
      (Ascii.eqb c "|" || Ascii.eqb c ">")
      && str_forall (fun c => Ascii.eqb c "+" || Ascii.eqb c "-" || is_ascii_digit c) rest
  | EmptyString => false
  end.

Record Scan := { in_pem : bool; block_scalar_indent : option nat; carry_allows_seq : bool }.

Definition scan_start : Scan := {| in_pem := false; block_scalar_indent := None; carry_allows_seq := false |}.

Definition trimmed_line (line : string) : string := trim_end (Ascii.eqb CR) (trim line).

Definition is_seq_item (trimmed : string) : bool :=
  match strip_prefix "-" trimmed with
  | Some EmptyString => true
  | Some (String c _) => is_indent c
  | None => false
  end.

Definition CLOSING_TAG : string := "</untrusted-device-content id=" +:+ dquote.

(** [key:] of a denylisted key whose value follows on other lines: the text
    behind the colon. *)
Definition opens_value (line : string) : option string :=
  let trimmed := trimmed_line line in
  match str_find (Ascii.eqb ":") trimmed with
  | None => None
  | Some colon =>
      let key_part := trim (str_take colon trimmed) in
      let tail := trim (strip_yaml_comment (str_drop (colon + 1) trimmed)) in
      if is_denylisted_key key_part && (is_empty_str tail || is_yaml_block_scalar_marker tail)
      then Some tail else None
  end.

(** A line outside of an open YAML value. *)
Definition scan_plain (st : Scan) (line : string) : Scan * list string :=
  let trimmed := trimmed_line line in
  if in_pem st then
    if is_pem_end trimmed || starts_with CLOSING_TAG trimmed
    then ({| in_pem := false; block_scalar_indent := block_scalar_indent st; carry_allows_seq := carry_allows_seq st |}, [line])
    else (st, [])
  else if is_pem_begin trimmed then
    ({| in_pem := true; block_scalar_indent := block_scalar_indent st; carry_allows_seq := carry_allows_seq st |},
     [line; PLACEHOLDER])
  else
    match opens_value line with
    | Some tail =>
        ({| in_pem := in_pem st; block_scalar_indent := Some (indent_len line);
            carry_allows_seq := is_empty_str tail |}, [redact_line line])
    | None => (st, [redact_line line])
    end.

Definition scan_line (st : Scan) (line : string) : Scan * list string :=
  match block_scalar_indent st with
  | None => scan_plain st line
  | Some indent =>
      let trimmed := trimmed_line line in
      let is_blank := is_empty_str trimmed in
      let ind := indent_len line in
      let indentless_seq_item := carry_allows_seq st && (ind =? indent) && is_seq_item trimmed in
      let is_comment := carry_allows_seq st && (ind <=? indent) && starts_with "#" trimmed in
      if negb is_blank && negb is_comment && (ind <=? indent) && negb indentless_seq_item then
        scan_plain {| in_pem := in_pem st; block_scalar_indent := None; carry_allows_seq := carry_allows_seq st |} line
      else if is_comment then (st, [redact_line line])
      else if is_blank then (st, [line])
      else (st, [str_take ind line +:+ PLACEHOLDER])
  end.

Fixpoint scan_lines (st : Scan) (lines : list string) : list string :=
  match lines with
  | [] => []
  | line :: lines => let '(st, out) := scan_line st line in out ++ scan_lines st lines
  end.

Definition redact (input : string) : string := str_join newline (scan_lines scan_start (str_split LF input)).

(** ** What a splice leaves of a line *)

(** The trailing punctuation of a value, which is kept. *)
Definition punct_of (value : string) : string := str_drop (slen (trim_end is_trailing_punct value)) value.

(** [line] up to [stop] with [ranges] replaced, from [cursor] on. *)
Fixpoint render_to (line : string) (cursor : nat) (ranges : list span) (stop : nat) : string :=
  match ranges with
  | [] => slice line cursor stop
  | (a, b) :: ranges =>
      slice line cursor a +:+ PLACEHOLDER +:+ punct_of (slice line a b) +:+ render_to line b ranges stop
  end.

(** Ranges one behind the other from [cursor] to [stop]. *)
Fixpoint increasing (cursor : nat) (ranges : list span) (stop : nat) : Prop :=
  match ranges with
  | [] => cursor <= stop
  | (a, b) :: ranges => cursor <= a /\ a <= b /\ increasing b ranges stop
  end.

Definition in_range (line : string) (sp : span) : Prop := sp.1 <= sp.2 /\ sp.2 <= slen line.

(** No span of the list reaches over the start of a span that it does not
    contain. *)
Definition laminar (spans : list span) : Prop :=
  forall a b, a ∈ spans -> b ∈ spans -> a.1 < b.1 -> b.1 < a.2 -> b.2 <= a.2.

#[global] Instance span_le_total : Total span_le.
Proof. intros [a b] [c d]. unfold span_le. cbn. lia. Qed.

#[global] Instance span_le_trans : Transitive span_le.
Proof. intros [a b] [c d] [e f]. unfold span_le. cbn. lia. Qed.

(** The spans that the pass replaces. *)
Fixpoint emitted (cursor : nat) (spans : list span) : list span :=
  match spans with
  | [] => []
  | (a, b) :: spans => if a <? cursor then emitted cursor spans else (a, b) :: emitted b spans
  end.

Lemma punct_of_slice line a b :
  a <= b -> b <= slen line ->
  slice line (a + slen (trim_end is_trailing_punct (slice line a b))) b = punct_of (slice line a b).
Proof.
  intros Hab Hb. unfold punct_of. set (n := slen (trim_end _ _)).
  assert (n <= b - a) as Hn.
  { subst n. destruct (trim_end_spec is_trailing_punct (slice line a b)) as (post&E&_).
    apply (f_equal slen) in E. rewrite str_length_app, slice_len in E by done. lia. }
  pose proof (drop_app (slice line a (a + n)) (slice line (a + n) b)) as D.
  rewrite slice_join in D by lia. rewrite slice_len in D by lia.
  replace (a + n - a) with n in D by lia. by rewrite D.
Qed.

Lemma splice_emitted line cursor spans :
  Forall (in_range line) spans -> cursor <= slen line ->
  splice_from line cursor spans = render_to line cursor (emitted cursor spans) (slen line).
Proof.
  intros Hr. revert cursor. induction Hr as [|[a b] spans [Hab Hb] _ IH]; intros cursor Hc; cbn in *.
  - by rewrite slice_to_end.
  - case_match; [by apply IH|]. cbn [render_to]. by rewrite punct_of_slice, IH.
Qed.

Lemma emitted_increasing line cursor spans :
  Forall (in_range line) spans -> cursor <= slen line -> increasing cursor (emitted cursor spans) (slen line).
Proof.
  intros Hr. revert cursor. induction Hr as [|[a b] spans [Hab Hb] _ IH]; intros cursor Hc;
    cbn [emitted increasing fst snd] in *; [done|].
  destruct (Nat.ltb_spec a cursor); [by apply IH|]. cbn [increasing]. split; [lia|]. split; [done|by apply IH].
Qed.

Lemma emitted_elem cursor spans sp : sp ∈ emitted cursor spans -> sp ∈ spans.
Proof.
  revert cursor. induction spans as [|[a b] spans IH]; intros cursor; cbn; [done|].
  case_match; rewrite ?elem_of_cons; naive_solver.
Qed.

(** Every span lies in one that is replaced, unless a wider one was. *)
Lemma emitted_covers spans : forall before,
  StronglySorted span_le spans ->
  (forall sp, sp ∈ spans -> forall w, w ∈ before -> span_le w sp) ->
  laminar (before ++ spans) ->
  forall cursor, (before = [] /\ cursor = 0 \/ exists w, w ∈ before /\ w.2 = cursor) ->
  forall sp, sp ∈ spans ->
    (exists r, r ∈ emitted cursor spans /\ r.1 <= sp.1 /\ sp.2 <= r.2) \/ (exists w, w ∈ before /\ w.1 <= sp.1 /\ sp.2 <= w.2).
Proof.
  induction spans as [|[a b] spans IH]; intros before Hs Hb Hl cursor Hc sp Hsp; [by apply elem_of_nil in Hsp|].
  apply StronglySorted_inv in Hs as [Hs Hhd]. cbn [emitted].
  assert (laminar ((before ++ [(a, b)]) ++ spans)) as Hl' by (by rewrite <-app_assoc).
  assert (forall sp, sp ∈ spans -> forall w, w ∈ before ++ [(a, b)] -> span_le w sp) as Hb'.
  { intros x Hx w [Hw|Hw%list_elem_of_singleton]%elem_of_app.
    - apply Hb; [by right|done].
    - subst w. by apply (proj1 (Forall_forall _ _) Hhd). }
  destruct (Nat.ltb_spec a cursor) as [Hlt|Hge].
  - destruct Hc as [[_ ->]|(w&Hw&<-)]; [lia|].
    assert (exists w', w' ∈ before /\ w'.1 <= a /\ b <= w'.2) as (w'&Hw'&Ha'&Hb2).
    { exists w. split; [done|]. pose proof (Hb (a, b) ltac:(by left) w Hw) as Hle. unfold span_le in Hle. cbn in Hle.
      split; [lia|]. destruct Hle as [Hlt'|]; [|lia].
      apply (Hl w (a, b)); [apply elem_of_app; by left|apply elem_of_app; right; by left|done|done]. }
    apply elem_of_cons in Hsp as [->|Hsp]; [right; by exists w'|].
    destruct (IH (before ++ [(a, b)]) Hs Hb' Hl' (w.2)) with (sp := sp) as [?|(x&Hx&?&?)].
    + right. exists w. split; [apply elem_of_app; by left|done].
    + done.
    + by left.
    + right. apply elem_of_app in Hx as [Hx|Hx%list_elem_of_singleton]; [by exists x|]. subst x. cbn in *.
      exists w'. split; [done|lia].
  - apply elem_of_cons in Hsp as [->|Hsp]; [left; exists (a, b); split; [by left|done]|].
    destruct (IH (before ++ [(a, b)]) Hs Hb' Hl' b) with (sp := sp) as [(r&Hr&?&?)|(x&Hx&?&?)].
    + right. exists (a, b). split; [apply elem_of_app; right; by left|done].
    + done.
    + left. exists r. split; [by right|done].
    + apply elem_of_app in Hx as [Hx|Hx%list_elem_of_singleton]; [right; by exists x|].
      subst x. left. exists (a, b). split; [by left|done].
Qed.

Lemma sorted_spans spans : StronglySorted span_le (merge_sort span_le spans).
Proof. apply StronglySorted_merge_sort; apply _. Qed.

Lemma sorted_elem spans sp : sp ∈ merge_sort span_le spans <-> sp ∈ spans.
Proof. by rewrite merge_sort_Permutation. Qed.

(** Spans that nest or are apart: each is replaced as a whole. *)
Lemma splice_replaces line spans :
  Forall (in_range line) spans -> laminar spans ->
  exists ranges,
    splice_spans line spans = render_to line 0 ranges (slen line)
    /\ increasing 0 ranges (slen line) /\ (forall r, r ∈ ranges -> r ∈ spans)
    /\ (forall sp, sp ∈ spans -> exists r, r ∈ ranges /\ r.1 <= sp.1 /\ sp.2 <= r.2).
Proof.
  intros Hr Hl. exists (emitted 0 (merge_sort span_le spans)).
  assert (Forall (in_range line) (merge_sort span_le spans)) as Hr'.
  { apply Forall_forall. intros x Hx. apply (proj1 (Forall_forall _ _) Hr x), sorted_elem, Hx. }
  split_and!.
  - apply splice_emitted; [done|lia].
  - apply emitted_increasing; [done|lia].
  - intros r Hin%emitted_elem. by apply sorted_elem.
  - intros sp Hsp. apply (proj2 (sorted_elem spans sp)) in Hsp.
    destruct (emitted_covers (merge_sort span_le spans) []) with (cursor := 0) (sp := sp) as [?|(w&Hw&_)].
    + apply sorted_spans.
    + intros ? _ w Hw. by apply elem_of_nil in Hw.
    + intros x y Hx Hy. apply Hl; by apply sorted_elem.
    + by left.
    + done.
    + done.
    + by apply elem_of_nil in Hw.
Qed.

(** ** Every span is a slice of the line *)

Lemma utf8_tail p c s : utf8_from p (String c s) = true -> exists q, utf8_from q s = true.
Proof.
  cbn. destruct p as [|p]; [destruct (utf8_extra c) as [k|]; [|done]; by exists k|].
  intros [_ ?]%andb_true_iff. by exists p.
Qed.

Lemma app_snoc pre c s : pre +:+ String c s = (pre +:+ String c "") +:+ s.
Proof. by rewrite str_app_assoc, str_app_cons, str_app_nil. Qed.

Lemma snoc_len pre c : slen (pre +:+ String c "") = S (slen pre).
Proof. rewrite str_length_app. cbn. lia. Qed.

(** [start] and [skip] as the scan has them with [p] bytes of a character to
    come. *)
Definition scan_inv (line : string) (i p skip : nat) (start : option nat) : Prop :=
  match start with
  | Some st => skip = 0 /\ st < i /\ is_char_boundary line st = true
  | None => p = skip
  end.

Lemma token_spans_valid pre s p skip start :
  utf8_from p s = true -> scan_inv (pre +:+ s) (slen pre) p skip start ->
  Forall (fun sp => sp.1 < sp.2 /\ valid_slice (pre +:+ s) sp) (token_spans_from (slen pre) skip start s).
Proof.
  revert pre p skip start. induction s as [|c s IH]; intros pre p skip start Hu Hi; cbn [token_spans_from].
  { rewrite str_app_nil_r in *. destruct start as [st|]; [|constructor]. destruct Hi as (_&Hlt&Hb).
    repeat constructor; cbn; try lia; [done|apply boundary_end]. }
  rewrite app_snoc in Hi |- *. rewrite <-snoc_len with (c := c).
  destruct skip as [|k].
  2:{ destruct start as [st|]; [by destruct Hi|]. cbn in Hi. subst p. cbn in Hu. apply andb_true_iff in Hu as [_ Hu].
      by apply (IH _ k). }
  destruct (whitespace_width (String c s)) as [[|k]|] eqn:Ew; [by apply width_nonzero in Ew|..].
  - assert (p = 0) as ->.
    { destruct p as [|p]; [done|]. cbn in Hu. apply andb_true_iff in Hu as [Hc _]. apply width_head in Ew. congruence. }
    pose proof (width_utf8 c s k Hu Ew) as Hk.
    destruct start as [st|]; [|by apply (IH _ k)]. constructor; [|by apply (IH _ k)].
    destruct Hi as (_&Hlt&Hb). split; [done|]. unfold valid_slice. cbn. rewrite <-app_snoc in Hb |- *. split_and!.
    + lia.
    + rewrite str_length_app. lia.
    + done.
    + by eapply boundary_start, width_head.
  - destruct (utf8_tail _ _ _ Hu) as [q Hq]. apply (IH _ q); [done|]. rewrite snoc_len.
    destruct start as [st|]; cbn in *; [destruct Hi as (?&?&?); split_and!; [done|lia|done]|].
    subst p. split_and!; [done|lia|]. rewrite <-app_snoc. by apply utf8_boundary.
Qed.

Definition valid_start (line : string) (v : nat) : Prop := v <= slen line /\ is_char_boundary line v = true.

Lemma valid_to_end line v : valid_start line v -> valid_slice line (v, slen line).
Proof. intros [??]. unfold valid_slice. cbn. split_and!; [done|lia|done|apply boundary_end]. Qed.

(** Offsets around a single-byte character of a slice. *)
Lemma slice_ascii line a b i c :
  utf8 line = true -> String.get i (slice line a b) = Some c -> is_ascii c = true ->
  valid_start line (a + i) /\ valid_start line (a + i + 1) /\ a + i < b.
Proof.
  intros Hu [Hg Hi]%get_slice Hc. destruct (ascii_boundaries _ _ _ Hu Hg Hc) as (?&?&?).
  unfold valid_start. rewrite Nat.add_1_r. split_and!; try done; lia.
Qed.

Lemma tokens_valid line : utf8 line = true -> Forall (fun sp => sp.1 < sp.2 /\ valid_slice line sp) (whitespace_token_spans line).
Proof. intros Hu. by apply (token_spans_valid "" line 0 0 None). Qed.

Lemma valid_slice_start line sp : valid_slice line sp -> valid_start line sp.1.
Proof. intros (?&?&?&?). split; [lia|done]. Qed.

Lemma split_char_ascii c : is_subtoken_split c = true -> is_ascii c = true.
Proof.
  unfold is_subtoken_split. intros H%bool_decide_eq_true.
  repeat (apply elem_of_cons in H as [->|H]; [done|]). by apply elem_of_nil in H.
Qed.

Lemma subtokens_valid_from line a b i ps :
  utf8 line = true -> b <= slen line -> valid_start line ps -> is_char_boundary line b = true ->
  a <= ps -> ps <= i -> i <= b ->
  Forall (fun sp => a <= sp.1 /\ sp.1 < sp.2 /\ sp.2 <= b /\ valid_slice line sp)
    (subtoken_spans_from i ps (slice line i b)).
Proof.
  intros Hu Hb Hps Hbb Ha Hi Hib. remember (slice line i b) as s eqn:Es. revert i ps Es Hps Ha Hi Hib.
  induction s as [|c s IH]; intros i ps Es Hps Ha Hi Hib; cbn [subtoken_spans_from].
  - assert (i = b) as ->. { apply (f_equal slen) in Es. rewrite slice_len in Es by done. cbn in Es. lia. }
    destruct (Nat.ltb_spec ps b); [|constructor]. repeat constructor; cbn; try lia; [|done]. by destruct Hps.
  - assert (i < b) as Hlt. { apply (f_equal slen) in Es. rewrite slice_len in Es by done. cbn in Es. lia. }
    assert (String.get 0 (slice line i b) = Some c) as Hg by (by rewrite <-Es).
    assert (s = slice line (S i) b) as Es'.
    { rewrite <-(slice_join line i (S i) b) in Es by lia.
      assert (slen (slice line i (S i)) = 1) as Hl by (rewrite slice_len; lia).
      destruct (slice line i (S i)) as [|d [|]]; try done. rewrite str_app_cons, str_app_nil in Es. by injection Es. }
    destruct (is_subtoken_split c) eqn:Ec; [|apply IH; [done|done|lia|lia|lia]].
    destruct (slice_ascii line i b 0 c Hu Hg (split_char_ascii c Ec)) as (H0&H1&_).
    rewrite Nat.add_0_r, Nat.add_1_r in *. apply Forall_app. split.
    + destruct (Nat.ltb_spec ps i); [|constructor]. destruct Hps, H0. repeat constructor; cbn; try lia; done.
    + apply IH; [done|done|lia|lia|lia].
Qed.

Lemma subtokens_valid line a b :
  utf8 line = true -> valid_slice line (a, b) ->
  Forall (fun sp => a <= sp.1 /\ sp.1 < sp.2 /\ sp.2 <= b /\ valid_slice line sp) (subtoken_spans line a b).
Proof. intros Hu (?&?&?&?). cbn in *. apply subtokens_valid_from; try done; try lia. by split; [lia|]. Qed.

Lemma key_separator_Some text rel :
  key_separator text = Some rel ->
  is_denylisted_key (str_take rel text) = true
  /\ exists c, String.get rel text = Some c /\ (c = "="%char \/ c = ":"%char).
Proof.
  unfold key_separator. intros H.
  assert (forall sep r, match str_find (Ascii.eqb sep) text with
                        | Some rel => if is_denylisted_key (str_take rel text) then Some rel else None
                        | None => None end = Some r ->
          is_denylisted_key (str_take r text) = true /\ String.get r text = Some sep) as Hsep.
  { intros sep r Hr. destruct (str_find (Ascii.eqb sep) text) as [j|] eqn:E; [|done].
    destruct (is_denylisted_key (str_take j text)) eqn:Ek; [|done]. injection Hr as ->.
    split; [done|]. apply str_find_get in E as (c&Hc&->%Ascii.eqb_eq). done. }
  destruct (match str_find (Ascii.eqb "=") text with Some _ => _ | None => _ end) as [r|] eqn:E.
  - injection H as ->. destruct (Hsep _ _ E). eauto.
  - destruct (Hsep _ _ H). eauto.
Qed.

Lemma matched_subtoken_Some line subs v :
  matched_subtoken line subs = Some v ->
  exists ss se rel c, (ss, se) ∈ subs /\ v = ss + rel + 1 /\ is_denylisted_key (str_take rel (slice line ss se)) = true
    /\ String.get rel (slice line ss se) = Some c /\ is_ascii c = true.
Proof.
  induction subs as [|[ss se] subs IH]; cbn; [done|]. destruct (key_separator _) as [rel|] eqn:E.
  - intros [= <-]. apply key_separator_Some in E as (Hk&c&Hc&Hsep). exists ss, se, rel, c. split_and!; try done; [by left|].
    by destruct Hsep as [->| ->].
  - intros (s&e&r&c&?&?&?&?&?)%IH. exists s, e, r, c. split_and!; try done. by right.
Qed.

Lemma matched_subtoken_valid line a b v :
  utf8 line = true -> valid_slice line (a, b) -> matched_subtoken line (subtoken_spans line a b) = Some v ->
  valid_start line v /\ a <= v /\ v <= b.
Proof.
  intros Hu Hv (ss&se&rel&c&Hin&->&_&Hg&Hc)%matched_subtoken_Some.
  pose proof (proj1 (Forall_forall _ _) (subtokens_valid line a b Hu Hv) _ Hin) as (?&?&?&_). cbn in *.
  destruct (slice_ascii _ _ _ _ _ Hu Hg Hc) as (?&?&?). split_and!; [done|lia|lia].
Qed.

Lemma first_value_in_elem line tokens v :
  first_value_in line tokens = Some v ->
  exists e, (v, e) ∈ tokens /\ str_exists is_ascii_alphanumeric (slice line v e) = true
    /\ is_value_type_keyword (slice line v e) = false.
Proof.
  induction tokens as [|[s e] tokens IH]; cbn [first_value_in]; [done|].
  destruct (str_exists is_ascii_alphanumeric (slice line s e)) eqn:E, (is_value_type_keyword (slice line s e)) eqn:Ek;
    try (intros (x&?&?&?)%IH; exists x; split_and!; [by right|done..]).
  intros [= <-]. exists e. split_and!; [by left|done..].
Qed.

Lemma alphanumeric_ascii c : is_ascii_alphanumeric c = true -> is_ascii c = true.
Proof.
  unfold is_ascii_alphanumeric, is_ascii_digit, is_ascii. generalize (N_of_ascii c). intros n H. apply N.ltb_lt.
  rewrite !orb_true_iff, !andb_true_iff, !N.leb_le in H. lia.
Qed.

Lemma ident_ascii c : is_ident c = true -> is_ascii c = true.
Proof.
  unfold is_ident. rewrite !orb_true_iff. intros [[?| ->%Ascii.eqb_eq]| ->%Ascii.eqb_eq]; try done.
  by apply alphanumeric_ascii.
Qed.

Lemma ident_runs_bounds pre s start :
  match start with
  | Some st => st < slen pre /\ exists x c, pre = x +:+ String c "" /\ is_ident c = true
  | None => True
  end ->
  Forall (fun sp => sp.1 < sp.2 /\ exists c, String.get (sp.2 - 1) (pre +:+ s) = Some c /\ is_ident c = true)
    (ident_runs_from (slen pre) start s).
Proof.
  revert pre start. induction s as [|c s IH]; intros pre start Hs; cbn [ident_runs_from].
  - destruct start as [st|]; [|constructor]. destruct Hs as (Hlt&x&d&->&Hd). repeat constructor; [done|].
    exists d. split; [|done]. rewrite str_app_nil_r, snoc_len. cbn. rewrite Nat.sub_0_r. apply get_app.
  - rewrite app_snoc, <-snoc_len with (c := c). destruct (is_ident c) eqn:Ec.
    + apply IH. split; [|by exists pre, c]. rewrite snoc_len. destruct start as [st|]; cbn; [|lia]. destruct Hs. lia.
    + destruct start as [st|]; [|by apply IH]. constructor; [|by apply IH].
      destruct Hs as (Hlt&x&d&->&Hd). split; [done|]. exists d. split; [|done].
      rewrite <-app_snoc, snoc_len. cbn. rewrite Nat.sub_0_r, str_app_assoc, str_app_cons, str_app_nil. apply get_app.
Qed.

Lemma attached_Some token v :
  attached_value_key_end token = Some v ->
  exists st c, (st, v) ∈ ident_runs_from 0 None token /\ is_denylisted_key (slice token st v) = true
    /\ 0 < v /\ String.get (v - 1) token = Some c /\ is_ascii c = true.
Proof.
  unfold attached_value_key_end. pose proof (ident_runs_bounds "" token None I) as Hr. cbn [String.length] in Hr.
  rewrite str_app_nil in Hr. induction (ident_runs_from 0 None token) as [|[st e] runs IH]; cbn; [done|].
  apply Forall_cons in Hr as [(Hlt&c&Hg&Hc) Hr]. cbn in *. destruct (is_denylisted_key _) eqn:Ek; [destruct (str_exists _ _)|].
  - intros [= ->]. exists st, c. split_and!; try done; [by left|lia|by apply ident_ascii].
  - intros (st'&c'&?&?&?&?&?)%IH; [|done]. exists st', c'. split_and!; try done. by right.
  - intros (st'&c'&?&?&?&?&?)%IH; [|done]. exists st', c'. split_and!; try done. by right.
Qed.

Lemma first_value_valid line tokens v :
  Forall (fun sp => sp.1 < sp.2 /\ valid_slice line sp) tokens -> first_value_in line tokens = Some v -> valid_start line v.
Proof.
  intros Ht (e&Hin&_)%first_value_in_elem. pose proof (proj1 (Forall_forall _ _) Ht _ Hin) as [_ Hv].
  by apply (valid_slice_start line (v, e)).
Qed.

Lemma to_end_valid line v :
  match v with Some v => valid_start line v | None => True end -> Forall (valid_slice line) (to_end line v).
Proof. destruct v; cbn [to_end]; [|constructor]. intros H. apply Forall_singleton. by apply valid_to_end. Qed.

Lemma first_value_spans_valid line tokens :
  Forall (fun sp => sp.1 < sp.2 /\ valid_slice line sp) tokens ->
  Forall (valid_slice line) (to_end line (first_value_start line tokens 0)).
Proof.
  intros Ht. apply to_end_valid. unfold first_value_start. rewrite drop_0.
  destruct (first_value_in line tokens) eqn:E; [|done]. by eapply first_value_valid.
Qed.

Lemma token_key_spans_valid line rest a b :
  utf8 line = true -> valid_slice line (a, b) -> Forall (fun sp => sp.1 < sp.2 /\ valid_slice line sp) rest ->
  Forall (valid_slice line) (token_key_spans line rest (a, b)).
Proof.
  intros Hu Hv Hrest. cbn [token_key_spans]. destruct (matched_subtoken _ _) as [v|] eqn:Em.
  - apply matched_subtoken_valid in Em as (Hs&_); [|done..].
    case_match; [by apply (to_end_valid line (Some v))|by apply first_value_spans_valid].
  - destruct (attached_value_key_end _) as [r|] eqn:Ea.
    + apply attached_Some in Ea as (_&c&_&_&Hr&Hg&Hc). destruct (slice_ascii _ _ _ _ _ Hu Hg Hc) as (_&H1&_).
      replace (a + (r - 1) + 1) with (a + r) in H1 by lia. by apply (to_end_valid line (Some (a + r))).
    + case_match; [by apply first_value_spans_valid|constructor].
Qed.

Lemma key_spans_valid line : utf8 line = true -> Forall (valid_slice line) (denylisted_key_spans line).
Proof.
  intros Hu. unfold denylisted_key_spans. pose proof (tokens_valid line Hu) as Ht.
  induction (whitespace_token_spans line) as [|[a b] tokens IH]; cbn [key_spans_in]; [constructor|].
  apply Forall_cons in Ht as [[_ Hv] Ht]. apply Forall_app. split; [by apply token_key_spans_valid|by apply IH].
Qed.

Lemma quoted_valid_from pre s open :
  utf8 (pre +:+ s) = true ->
  match open with
  | Some (quote, start) => is_ascii quote = true /\ start <= slen pre /\ valid_start (pre +:+ s) start
  | None => True
  end ->
  Forall (valid_slice (pre +:+ s)) (quoted_from (slen pre) open s).
Proof.
  revert pre open. induction s as [|c s IH]; intros pre open Hu Ho; cbn [quoted_from]; [constructor|].
  assert (String.get (slen pre) (pre +:+ String c s) = Some c) as Hg by apply get_app.
  rewrite app_snoc in Hu, Ho, Hg |- *. rewrite <-snoc_len with (c := c).
  destruct open as [[quote start]|].
  - destruct Ho as (Hq&Hle&Hs). destruct (Ascii.eqb_spec c quote) as [<-|Hne].
    + constructor; [|by apply IH]. destruct (ascii_boundaries _ _ _ Hu Hg Hq) as (?&?&?), Hs.
      repeat split; cbn; try done. lia.
    + apply IH; [done|]. split_and!; [done|rewrite snoc_len; lia|done].
  - apply IH; [done|]. destruct (_ || _) eqn:Ec; [|done].
    assert (is_ascii c = true) as Ha.
    { apply orb_true_iff in Ec as [->%Ascii.eqb_eq| ->%Ascii.eqb_eq]; done. }
    destruct (ascii_boundaries _ _ _ Hu Hg Ha) as (?&?&?). rewrite snoc_len. done.
Qed.

Lemma quoted_valid line : utf8 line = true -> Forall (valid_slice line) (quoted_content_spans line).
Proof. intros Hu. by apply (quoted_valid_from "" line None). Qed.

Lemma get_take i n s c : String.get i (str_take n s) = Some c -> String.get i s = Some c /\ i < n.
Proof.
  revert i s. induction n as [|n IH]; intros i [|d s]; cbn; try done.
  destruct i as [|i]; [intros; split; [done|lia]|]. intros [??]%IH. split; [done|lia].
Qed.

Lemma authority_password_valid line a n :
  utf8 line = true -> Forall (valid_slice line) (authority_password a (str_take n (str_drop a line))).
Proof.
  intros Hu. unfold authority_password.
  destruct (str_rfind _ _) as [at_rel|] eqn:Ea; [|constructor].
  destruct (str_find _ _) as [colon_rel|] eqn:Ec; [|constructor].
  destruct (Nat.ltb_spec (a + colon_rel + 1) (a + at_rel)) as [Hlt|]; [|constructor].
  apply Forall_singleton. apply str_rfind_get in Ea as (x&Hx&<-%Ascii.eqb_eq). apply str_find_get in Ec as (y&Hy&<-%Ascii.eqb_eq).
  apply get_take in Hy as [Hy _].
  replace (str_take n (str_drop a line)) with (slice line a (a + n)) in Hx, Hy
    by (unfold slice; by replace (a + n - a) with n by lia).
  destruct (slice_ascii _ _ _ _ _ Hu Hx eq_refl) as ([??]&_&_), (slice_ascii _ _ _ _ _ Hu Hy eq_refl) as (_&[??]&_).
  repeat split; cbn; try done. lia.
Qed.

Lemma userinfo_valid_from pre s skip :
  utf8 (pre +:+ s) = true -> Forall (valid_slice (pre +:+ s)) (userinfo_from (slen pre) skip s).
Proof.
  revert pre skip. induction s as [|c s IH]; intros pre skip Hu; cbn [userinfo_from]; [constructor|].
  pose proof (fun k => IH (pre +:+ String c "") k) as Hrec. rewrite snoc_len, <-app_snoc in Hrec.
  destruct skip as [|k]; [|by apply Hrec]. destruct (starts_with _ _); [|by apply Hrec].
  apply Forall_app. split; [|by apply Hrec].
  replace (str_drop 3 (String c s)) with (str_drop (slen pre + 3) (pre +:+ String c s)) by (by rewrite <-drop_drop, drop_app).
  by apply authority_password_valid.
Qed.

Lemma auth_priv_valid line tokens :
  Forall (fun sp => sp.1 < sp.2 /\ valid_slice line sp) tokens -> Forall (valid_slice line) (auth_priv_in line tokens).
Proof.
  induction 1 as [|[s e] tokens _ Ht IH]; cbn [auth_priv_in]; [constructor|]. apply Forall_app. split; [|done].
  case_match; [by apply first_value_spans_valid|constructor].
Qed.

Lemma snmp_valid line : utf8 line = true -> Forall (valid_slice line) (snmpv3_auth_priv_spans line).
Proof.
  intros Hu. unfold snmpv3_auth_priv_spans. case_match; [constructor|]. by apply auth_priv_valid, tokens_valid.
Qed.

Lemma secret_spans_Forall (P : span -> Prop) line spans : Forall P spans -> Forall P (secret_spans line spans).
Proof.
  intros H. apply Forall_forall. intros x [_ Hx]%list_elem_of_filter. by apply (proj1 (Forall_forall _ _) H).
Qed.

Lemma shape_spans_valid line : utf8 line = true -> Forall (valid_slice line) (shape_matching_spans line).
Proof.
  intros Hu. unfold shape_matching_spans. rewrite !Forall_app. split_and!.
  - by apply secret_spans_Forall, quoted_valid.
  - apply secret_spans_Forall. apply (Forall_impl _ _ _ (tokens_valid line Hu)). by intros ? [_ ?].
  - by apply (userinfo_valid_from "" line 0).
  - by apply snmp_valid.
Qed.

Lemma value_spans_valid line force : utf8 line = true -> Forall (valid_slice line) (value_spans line force).
Proof.
  intros Hu. unfold value_spans. destruct force; [|by apply shape_spans_valid]. rewrite !Forall_app. split_and!.
  - by apply key_spans_valid.
  - by apply shape_spans_valid.
  - case_match; [by apply quoted_valid|constructor].
Qed.

(** ** The value of a keyed word *)

Lemma punct_of_punct value : str_forall is_trailing_punct (punct_of value) = true.
Proof.
  unfold punct_of. destruct (trim_end_spec is_trailing_punct value) as (post&E&Hp).
  rewrite E at 2. by rewrite drop_app.
Qed.

Lemma slice_take line v a b : b <= v -> slice (str_take v line) a b = slice line a b.
Proof.
  intros Hb. unfold slice. destruct (Nat.le_gt_cases b a) as [Hba|Hab].
  { replace (b - a) with 0 by lia. done. }
  revert a b v Hb Hab. induction line as [|c line IH]; intros a b v Hb Hab.
  { by destruct v, a. }
  destruct v as [|v]; [lia|]. destruct a as [|a].
  - cbn [str_drop]. rewrite take_take. f_equal. lia.
  - destruct b as [|b]; [lia|]. cbn [str_take str_drop]. replace (S b - S a) with (b - a) by lia. apply IH; lia.
Qed.

Lemma increasing_le cursor ranges stop : increasing cursor ranges stop -> cursor <= stop.
Proof.
  revert cursor. induction ranges as [|[a b] ranges IH]; intros cursor; cbn; [done|].
  intros (?&?&?%IH). lia.
Qed.

(** Only what stands before [stop] is read. *)
Lemma render_to_take line v cursor ranges stop :
  stop <= v -> increasing cursor ranges stop -> render_to (str_take v line) cursor ranges stop = render_to line cursor ranges stop.
Proof.
  intros Hv. revert cursor. induction ranges as [|[a b] ranges IH]; intros cursor; cbn [render_to increasing].
  - intros _. by apply slice_take.
  - intros (?&?&Hi). pose proof (increasing_le _ _ _ Hi). rewrite !slice_take by lia. by rewrite IH.
Qed.

Lemma render_to_snoc line cursor ranges a b :
  render_to line cursor (ranges ++ [(a, b)]) b = render_to line cursor ranges a +:+ PLACEHOLDER +:+ punct_of (slice line a b).
Proof.
  revert cursor. induction ranges as [|[x y] ranges IH]; intros cursor; cbn [app render_to].
  - by rewrite slice_nil, str_app_nil_r.
  - by rewrite IH, !str_app_assoc.
Qed.

Lemma emitted_nil cursor spans : Forall (fun sp => sp.1 < cursor) spans -> emitted cursor spans = [].
Proof. induction 1 as [|[a b] spans Ha _ IH]; [done|]. cbn [emitted]. by rewrite (proj2 (Nat.ltb_lt a _) Ha). Qed.

(** No span that starts before [v] ends behind it, except at the end. *)
Definition no_straddle (n v : nat) (spans : list span) : Prop :=
  Forall (fun sp => sp.1 < v -> sp.2 <= v \/ sp.2 = n) spans.

Lemma emitted_to_end n v spans cursor :
  StronglySorted span_le spans -> Forall (fun sp => sp.1 < n /\ sp.1 <= sp.2 /\ sp.2 <= n) spans ->
  no_straddle n v spans -> (v, n) ∈ spans -> cursor <= v ->
  exists ranges a, emitted cursor spans = ranges ++ [(a, n)] /\ a <= v /\ increasing cursor ranges a.
Proof.
  intros Hs Hr Hn. revert cursor. induction Hs as [|[x y] spans Hs IH Hhd]; intros cursor Hin Hc.
  { by apply elem_of_nil in Hin. }
  apply Forall_cons in Hr as [(Hx&Hxy&Hyn) Hr], Hn as [Hxn Hn]. cbn [fst snd] in *. cbn [emitted].
  assert (Forall (fun sp => sp.1 < n) spans) as Hrn by (apply (Forall_impl _ _ _ Hr); by intros ? [??]).
  destruct (Nat.ltb_spec x cursor) as [Hlt|Hge].
  { apply IH; try done. apply elem_of_cons in Hin as [[= <- <-]|?]; [lia|done]. }
  destruct (decide (y = n)) as [->|Hne].
  { exists [], x. rewrite emitted_nil by done. split_and!; [done| |done].
    apply elem_of_cons in Hin as [[= <-]|Hin]; [done|].
    pose proof (proj1 (Forall_forall _ _) Hhd _ Hin) as Hle. unfold span_le in Hle. cbn in Hle. lia. }
  apply elem_of_cons in Hin as [[= <- <-]|Hin]; [done|].
  pose proof (proj1 (Forall_forall _ _) Hhd _ Hin) as Hle. unfold span_le in Hle. cbn in Hle.
  assert (x < v) as Hxv by lia. destruct (Hxn Hxv) as [Hyv|]; [|done].
  destruct (IH Hr Hn y Hin Hyv) as (ranges&a&->&?&?). exists ((x, y) :: ranges), a. by split_and!.
Qed.

Lemma splice_to_end line v spans :
  Forall (in_range line) spans -> Forall (fun sp => sp.1 < slen line) spans ->
  no_straddle (slen line) v spans -> (v, slen line) ∈ spans ->
  exists ranges v0 t,
    v0 <= v /\ splice_spans line spans = render_to (str_take v line) 0 ranges v0 +:+ PLACEHOLDER +:+ t
    /\ str_forall is_trailing_punct t = true.
Proof.
  intros Hr Hs Hn Hin. unfold splice_spans.
  assert (forall P : span -> Prop, Forall P spans -> Forall P (merge_sort span_le spans)) as Hsort.
  { intros P H. apply Forall_forall. intros x Hx. apply (proj1 (Forall_forall _ _) H x), sorted_elem, Hx. }
  destruct (emitted_to_end (slen line) v (merge_sort span_le spans) 0) as (ranges&a&He&Ha&Hi).
  - apply sorted_spans.
  - apply Hsort. apply Forall_and. split; [done|]. apply (Forall_impl _ _ _ Hr). by intros ? [??].
  - by apply Hsort.
  - by apply sorted_elem.
  - lia.
  - rewrite splice_emitted, He, render_to_snoc by (by apply Hsort || lia).
    exists ranges, a, (punct_of (slice line a (slen line))). split_and!; [done| |apply punct_of_punct].
    by rewrite render_to_take.
Qed.

(** Where spans start. *)
Lemma str_exists_drop p n s : str_exists p (str_drop n s) = true -> n < slen s.
Proof.
  intros H. destruct (Nat.le_gt_cases (slen s) n) as [Hle|]; [|done].
  by rewrite drop_all in H.
Qed.

Lemma str_exists_slice p line a b : str_exists p (slice line a b) = true -> a < slen line.
Proof.
  intros H. destruct (Nat.le_gt_cases (slen line) a) as [Hle|]; [|done].
  unfold slice in H. rewrite drop_all in H by done. by destruct (b - a).
Qed.

Lemma first_value_spans_start line tokens :
  Forall (fun sp => sp.1 < slen line) (to_end line (first_value_start line tokens 0)).
Proof.
  unfold first_value_start. rewrite drop_0. destruct (first_value_in line tokens) as [v|] eqn:E; [|constructor].
  apply first_value_in_elem in E as (e&_&He&_). apply Forall_singleton. by eapply str_exists_slice.
Qed.

Lemma attached_start token v : attached_value_key_end token = Some v -> v < slen token.
Proof.
  unfold attached_value_key_end. induction (ident_runs_from 0 None token) as [|[st e] runs IH]; cbn [attached_in]; [done|].
  case_match eqn:E; [|done]. intros [= ->]. apply andb_true_iff in E as [_ E]. by eapply str_exists_drop.
Qed.

Lemma key_spans_start line : Forall (fun sp => sp.1 < slen line) (denylisted_key_spans line).
Proof.
  unfold denylisted_key_spans. induction (whitespace_token_spans line) as [|[s e] tokens IH]; cbn [key_spans_in]; [constructor|].
  apply Forall_app. split; [|done]. cbn [token_key_spans]. destruct (matched_subtoken _ _) as [v|].
  { case_match eqn:E; [|apply first_value_spans_start]. apply Forall_singleton. by eapply str_exists_slice. }
  destruct (attached_value_key_end _) as [r|] eqn:Ea.
  { apply attached_start in Ea. apply Forall_singleton. cbn. unfold slice in Ea. rewrite take_len, drop_len in Ea. lia. }
  case_match; [apply first_value_spans_start|constructor].
Qed.

Lemma quoted_start i open s :
  match open with Some (_, start) => start <= i | None => True end ->
  Forall (fun sp => sp.1 < i + slen s) (quoted_from i open s).
Proof.
  revert i open. induction s as [|c s IH]; intros i open Ho; cbn [quoted_from String.length]; [constructor|].
  replace (i + S (slen s)) with (S i + slen s) by lia. destruct open as [[q st]|].
  - destruct (Ascii.eqb c q); [|apply IH; lia]. constructor; [cbn; lia|by apply IH].
  - apply IH. destruct (_ || _); cbn; [lia|done].
Qed.

Lemma userinfo_nonempty i skip s : Forall (fun sp => sp.1 < sp.2) (userinfo_from i skip s).
Proof.
  revert i skip. induction s as [|c s IH]; intros i skip; cbn [userinfo_from]; [constructor|].
  destruct skip as [|k]; [|done]. case_match; [|done]. apply Forall_app. split; [|done].
  unfold authority_password. repeat (case_match; try constructor); try constructor. cbn. by apply Nat.ltb_lt.
Qed.

Lemma shape_spans_start line : utf8 line = true -> Forall (fun sp => sp.1 < slen line) (shape_matching_spans line).
Proof.
  intros Hu. unfold shape_matching_spans. rewrite !Forall_app. split_and!.
  - apply secret_spans_Forall, (quoted_start 0 None line I).
  - apply secret_spans_Forall, (Forall_impl _ _ _ (tokens_valid line Hu)). intros sp (?&_&?&_). lia.
  - apply (Forall_impl (fun sp => sp.1 < sp.2 /\ valid_slice line sp)); [|intros sp (?&_&?&_); lia].
    apply Forall_and. split; [apply userinfo_nonempty|by apply (userinfo_valid_from "" line 0)].
  - unfold snmpv3_auth_priv_spans. case_match; [constructor|].
    generalize (whitespace_token_spans line). intros tokens. induction tokens as [|[s e] tokens IH]; cbn [auth_priv_in]; [constructor|].
    apply Forall_app. split; [|done]. case_match; [apply first_value_spans_start|constructor].
Qed.

(** A word starts the line or follows white space. *)
Definition after_break (line : string) (a : nat) : Prop :=
  a = 0 \/ exists x c, str_take a line = x +:+ String c "" /\ is_ident c = false.

Lemma continuation_not_ident c : is_continuation c = true -> is_ident c = false.
Proof.
  intros Hc. destruct (is_ident c) eqn:E; [|done]. apply ident_ascii, ascii_start in E. congruence.
Qed.

Lemma width_not_ident c s w : whitespace_width (String c s) = Some w -> is_ident c = false.
Proof.
  intros Hw. destruct (is_ident c) eqn:E; [|done]. exfalso. revert Hw.
  assert (visible c = true) as Hv; [|by rewrite visible_width].
  revert E. unfold is_ident, is_ascii_alphanumeric, is_ascii_digit, visible. rewrite !orb_true_iff.
  intros [[H|H%Ascii.eqb_eq]|H%Ascii.eqb_eq]; [|by subst..].
  revert H. generalize (N_of_ascii c). intros n.
  rewrite !andb_true_iff, !N.leb_le. lia.
Qed.

Lemma after_break_snoc pre c s : is_ident c = false -> after_break (pre +:+ String c s) (S (slen pre)).
Proof.
  intros Hc. right. exists pre, c. split; [|done]. rewrite app_snoc, <-snoc_len with (c := c). apply take_app.
Qed.

Lemma token_spans_break pre s p skip start :
  utf8_from p s = true ->
  match start with
  | Some st => skip = 0 /\ after_break (pre +:+ s) st
  | None => p = skip /\ after_break (pre +:+ s) (slen pre)
  end ->
  Forall (fun sp => after_break (pre +:+ s) sp.1) (token_spans_from (slen pre) skip start s).
Proof.
  revert pre p skip start. induction s as [|c s IH]; intros pre p skip start Hu Hi; cbn [token_spans_from].
  { destruct start as [st|]; [|constructor]. apply Forall_singleton. by destruct Hi. }
  pose proof (IH (pre +:+ String c "")) as Hrec. rewrite snoc_len, <-app_snoc in Hrec.
  destruct skip as [|k].
  2:{ destruct start as [st|]; [by destruct Hi|]. destruct Hi as [-> _]. cbn in Hu. apply andb_true_iff in Hu as [Hc Hu].
      apply (Hrec k); [done|]. split; [done|]. by apply after_break_snoc, continuation_not_ident. }
  destruct (whitespace_width (String c s)) as [[|k]|] eqn:Ew; [by apply width_nonzero in Ew|..].
  - assert (p = 0) as ->.
    { destruct p as [|p]; [done|]. cbn in Hu. apply andb_true_iff in Hu as [Hc _]. apply width_head in Ew. congruence. }
    assert (Forall (fun sp => after_break (pre +:+ String c s) sp.1) (token_spans_from (S (slen pre)) k None s)) as Hnext.
    { apply (Hrec k); [by eapply width_utf8|]. split; [done|]. by eapply after_break_snoc, width_not_ident. }
    destruct start as [st|]; [|done]. constructor; [by destruct Hi|done].
  - destruct (utf8_tail _ _ _ Hu) as [q Hq]. apply (Hrec q); [done|]. split; [done|]. destruct start as [st|]; by destruct Hi.
Qed.

Lemma tokens_break line : utf8 line = true -> Forall (fun sp => after_break line sp.1) (whitespace_token_spans line).
Proof. intros Hu. apply (token_spans_break "" line 0 0 None); [done|]. split; [done|by left]. Qed.

(** The pieces between separators. *)
Lemma any_piece_word sep f word x s :
  str_exists sep x = false -> any_piece sep f word (x +:+ s) = any_piece sep f (word +:+ x) s.
Proof.
  revert word. induction x as [|c x IH]; intros word; [by rewrite str_app_nil, str_app_nil_r|].
  cbn [str_exists]. intros [Hc Hx]%orb_false_iff. rewrite str_app_cons. cbn [any_piece]. rewrite Hc, IH by done.
  by rewrite <-app_snoc.
Qed.

Lemma any_piece_mid sep f word x c s :
  sep c = true -> any_piece sep f "" s = true -> any_piece sep f word (x +:+ String c s) = true.
Proof.
  intros Hc Hs. revert word. induction x as [|d x IH]; intros word; rewrite ?str_app_nil, ?str_app_cons; cbn [any_piece].
  - by rewrite Hc, Hs, orb_true_r.
  - destruct (sep d); [by rewrite IH, orb_true_r|apply IH].
Qed.

Lemma has_key_at line a key sep rest :
  after_break line a -> str_drop a line = key +:+ String sep rest ->
  str_forall is_ident key = true -> is_ident sep = false -> is_denylisted_key key = true ->
  has_denylisted_key line = true.
Proof.
  intros Hb Hd Hi Hs Hk. unfold has_denylisted_key.
  assert (any_piece (fun c => negb (is_ident c)) is_denylisted_key "" (key +:+ String sep rest) = true) as Hp.
  { rewrite any_piece_word, str_app_nil; [cbn [any_piece]; by rewrite Hs, Hk|].
    clear -Hi. induction key as [|c key IH]; [done|]. cbn in *. apply andb_true_iff in Hi as [-> Hi]. by rewrite IH. }
  rewrite <-(take_drop a line), Hd. destruct Hb as [->|(x&c&->&Hc)].
  - by destruct line.
  - rewrite <-app_snoc. apply any_piece_mid; [by rewrite Hc|done].
Qed.

(** The first piece of a token. *)
Lemma subtoken_first i ps x s :
  str_exists is_subtoken_split x = false ->
  subtoken_spans_from i ps (x +:+ s) = subtoken_spans_from (i + slen x) ps s.
Proof.
  revert i. induction x as [|c x IH]; intros i; [by rewrite str_app_nil, Nat.add_0_r|].
  cbn [str_exists String.length]. intros [Hc Hx]%orb_false_iff. rewrite str_app_cons. cbn [subtoken_spans_from].
  rewrite Hc, IH by done. f_equal. lia.
Qed.

Lemma subtoken_head i ps s : ps < i -> exists n rest, n <= slen s /\ subtoken_spans_from i ps s = (ps, i + n) :: rest.
Proof.
  revert i. induction s as [|c s IH]; intros i Hi; cbn [subtoken_spans_from String.length].
  - rewrite (proj2 (Nat.ltb_lt ps i)) by done. exists 0, []. by rewrite Nat.add_0_r.
  - destruct (is_subtoken_split c).
    + rewrite (proj2 (Nat.ltb_lt ps i)) by done. eexists 0, _. rewrite Nat.add_0_r. split; [lia|done].
    + destruct (IH (S i)) as (n&rest&?&->); [lia|]. exists (S n), rest. split; [lia|]. do 2 f_equal. lia.
Qed.

Lemma ident_not p s : (forall c, is_ident c = true -> p c = false) -> str_forall is_ident s = true -> str_exists p s = false.
Proof.
  intros Hp. induction s as [|c s IH]; [done|]. cbn. intros [Hc Hs]%andb_true_iff. by rewrite Hp, IH.
Qed.

Lemma ident_not_split c : is_ident c = true -> is_subtoken_split c = false.
Proof.
  intros Hc. apply bool_decide_eq_false. intros H.
  repeat (apply elem_of_cons in H as [->|H]; [done|]). by apply elem_of_nil in H.
Qed.

Lemma ident_not_char d c : is_ident d = false -> is_ident c = true -> Ascii.eqb d c = false.
Proof. intros Hd Hc. destruct (Ascii.eqb_spec d c); [congruence|done]. Qed.

Lemma str_exists_take p n s : str_exists p s = false -> str_exists p (str_take n s) = false.
Proof.
  revert s. induction n as [|n IH]; intros [|c s]; cbn; try done. intros [-> H]%orb_false_iff. by rewrite IH.
Qed.

(** A separator behind a key: [=], or [:] with no [=] behind it. *)
Definition separates (sep : ascii) (value : string) : Prop :=
  sep = "="%char \/ sep = ":"%char /\ contains_char "=" value = false.

Lemma str_find_absent p s : str_exists p s = false -> str_find p s = None.
Proof. induction s as [|c s IH]; [done|]. cbn. intros [-> H]%orb_false_iff. by rewrite IH. Qed.

Lemma key_separator_at key sep value :
  str_forall is_ident key = true -> is_denylisted_key key = true -> separates sep value ->
  key_separator (key +:+ String sep value) = Some (slen key).
Proof.
  intros Hi Hk Hs. unfold key_separator.
  assert (forall d, is_ident d = false -> str_exists (Ascii.eqb d) key = false) as Hkey.
  { intros d Hd. apply ident_not; [|done]. intros c. by apply ident_not_char. }
  destruct Hs as [->|[-> Hv]].
  - rewrite str_find_first by (done || by apply Hkey). by rewrite take_app, Hk.
  - rewrite (str_find_absent (Ascii.eqb "=")).
    + rewrite str_find_first by (done || by apply Hkey). by rewrite take_app, Hk.
    + rewrite str_exists_app. rewrite Hkey by done. cbn. done.
Qed.

Lemma take_app_ge a s n : slen a <= n -> str_take n (a +:+ s) = a +:+ str_take (n - slen a) s.
Proof.
  intros ?. replace n with (slen a + (n - slen a)) at 1 by lia. by rewrite take_plus, take_app, drop_app.
Qed.

Lemma slice_slice_take line a b n : n <= b - a -> slice line a (a + n) = str_take n (slice line a b).
Proof. intros ?. unfold slice. rewrite take_take. f_equal. lia. Qed.

Lemma matched_at line a e key sep c w :
  a <= e -> e <= slen line -> slice line a e = key +:+ String sep (String c w) ->
  str_forall is_ident key = true -> is_denylisted_key key = true -> separates sep (String c w) ->
  is_subtoken_split c = false ->
  matched_subtoken line (subtoken_spans line a e) = Some (a + slen key + 1).
Proof.
  intros Hae He Ht Hi Hk Hs Hc. unfold subtoken_spans. rewrite Ht.
  replace (key +:+ String sep (String c w)) with ((key +:+ String sep (String c "")) +:+ w)
    by (by rewrite str_app_assoc, !str_app_cons, str_app_nil).
  assert (is_subtoken_split sep = false) as Hsep by (by destruct Hs as [->|[-> _]]).
  rewrite subtoken_first.
  2:{ rewrite str_exists_app. cbn. rewrite Hsep, Hc. rewrite (ident_not _ key ident_not_split Hi). done. }
  assert (e - a = slen key + 2 + slen w) as Hlen.
  { apply (f_equal slen) in Ht. rewrite slice_len, str_length_app in Ht by done. cbn in Ht. lia. }
  rewrite str_length_app. cbn [String.length].
  destruct (subtoken_head (a + (slen key + 2)) a w) as (n&rest&Hn&->); [lia|]. cbn [matched_subtoken].
  replace (a + (slen key + 2) + n) with (a + (slen key + 2 + n)) by lia.
  rewrite (slice_slice_take line a e), Ht, take_app_ge by lia.
  replace (slen key + 2 + n - slen key) with (S (S n)) by lia. cbn [str_take].
  rewrite key_separator_at; [done|done|done|].
  destruct Hs as [->|[-> Hv]]; [by left|]. right. split; [done|]. unfold contains_char in *. cbn in *.
  apply orb_false_iff in Hv as [-> Hv]. by apply str_exists_take.
Qed.

Lemma key_span_at line a e key sep c w :
  utf8 line = true -> (a, e) ∈ whitespace_token_spans line -> slice line a e = key +:+ String sep (String c w) ->
  str_forall is_ident key = true -> is_denylisted_key key = true -> separates sep (String c w) ->
  is_subtoken_split c = false ->
  (a + slen key + 1, slen line) ∈ denylisted_key_spans line.
Proof.
  intros Hu Hin Ht Hi Hk Hs Hc. pose proof (proj1 (Forall_forall _ _) (tokens_valid line Hu) _ Hin) as [_ (Hae&He&_)].
  cbn in Hae, He. unfold denylisted_key_spans.
  induction (whitespace_token_spans line) as [|[x y] tokens IH]; [by apply elem_of_nil in Hin|]. cbn [key_spans_in].
  apply elem_of_app. apply elem_of_cons in Hin as [[= <- <-]|Hin]; [left|right; by apply IH].
  cbn [token_key_spans]. rewrite (matched_at line a e key sep c w) by done.
  replace (slice line (a + slen key + 1) e) with (String c w).
  - cbn. rewrite Hc. by left.
  - replace (a + slen key + 1) with (a + (slen key + 1)) by lia.
    assert (slen key + 1 <= e - a) as Hlen.
    { apply (f_equal slen) in Ht. rewrite slice_len, str_length_app in Ht by done. cbn in Ht. lia. }
    pose proof (slice_join line a (a + (slen key + 1)) e ltac:(lia) ltac:(lia)) as E.
    rewrite Ht, (slice_slice_take line a e), Ht, take_app_ge in E by lia.
    replace (slen key + 1 - slen key) with 1 in E by lia. cbn [str_take] in E.
    rewrite str_app_assoc, str_app_cons, str_app_nil in E. apply str_app_inj_l in E. by injection E.
Qed.

Lemma key_spans_to_end line : Forall (fun sp => sp.2 = slen line) (denylisted_key_spans line).
Proof.
  assert (forall v, Forall (fun sp => sp.2 = slen line) (to_end line v)) as Ht.
  { intros [v|]; [by apply Forall_singleton|constructor]. }
  unfold denylisted_key_spans. induction (whitespace_token_spans line) as [|[s e] tokens IH]; [constructor|].
  cbn [key_spans_in]. apply Forall_app. split; [|done]. cbn [token_key_spans].
  repeat (case_match; try apply Ht; try by apply Forall_singleton). constructor.
Qed.

(** ** Blocks of lines *)

Definition scan_state (st : Scan) (lines : list string) : Scan := foldl (fun st line => (scan_line st line).1) st lines.

Lemma scan_lines_app st l1 l2 : scan_lines st (l1 ++ l2) = scan_lines st l1 ++ scan_lines (scan_state st l1) l2.
Proof.
  revert st. induction l1 as [|line l1 IH]; intros st; [done|]. cbn [app scan_lines scan_state foldl].
  destruct (scan_line st line) as [st' out]. cbn [fst]. by rewrite IH, app_assoc.
Qed.

Definition ends_pem (line : string) : bool :=
  is_pem_end (trimmed_line line) || starts_with CLOSING_TAG (trimmed_line line).

Definition outside (st : Scan) : Prop := in_pem st = false /\ block_scalar_indent st = None.

Definition withheld_line (line : string) : string := str_take (indent_len line) line +:+ PLACEHOLDER.

(** [withheld st lines st' out]: [lines], read outside of any block, are a
    block of which only [out] is shown: the frame of a PEM block, or the key
    and the indentation of a YAML value. *)
Inductive withheld (st : Scan) : list string -> Scan -> list string -> Prop :=
| withheld_pem first body last :
    is_pem_begin (trimmed_line first) = true -> Forall (fun line => ends_pem line = false) body ->
    ends_pem last = true ->
    withheld st (first :: body ++ [last]) st [first; PLACEHOLDER; last]
| withheld_value key tail body :
    is_pem_begin (trimmed_line key) = false -> opens_value key = Some tail ->
    Forall (fun line => trimmed_line line <> "" /\ indent_len key < indent_len line) body ->
    withheld st (key :: body)
      {| in_pem := false; block_scalar_indent := Some (indent_len key); carry_allows_seq := is_empty_str tail |}
      (redact_line key :: (withheld_line <$> body)).

Lemma scan_pem_body st body rest :
  in_pem st = true -> block_scalar_indent st = None -> Forall (fun line => ends_pem line = false) body ->
  scan_lines st (body ++ rest) = scan_lines st rest.
Proof.
  intros Hp Hb. induction 1 as [|line body Hl _ IH]; [done|]. cbn [app scan_lines]. unfold scan_line. rewrite Hb.
  unfold scan_plain. rewrite Hp. unfold ends_pem in Hl. rewrite Hl. done.
Qed.

Lemma scan_value_body st indent body rest :
  block_scalar_indent st = Some indent ->
  Forall (fun line => trimmed_line line <> "" /\ indent < indent_len line) body ->
  scan_lines st (body ++ rest) = (withheld_line <$> body) ++ scan_lines st rest.
Proof.
  intros Hb. induction 1 as [|line body [Hne Hi] _ IH]; [done|]. cbn [app scan_lines]. unfold scan_line. rewrite Hb.
  assert (is_empty_str (trimmed_line line) = false) as He by (by destruct (trimmed_line line)).
  rewrite He, (proj2 (Nat.leb_gt _ _) Hi), !andb_false_r. cbn [negb andb]. by rewrite IH.
Qed.

Lemma withheld_scan st lines st' out rest :
  outside st -> withheld st lines st' out -> scan_lines st (lines ++ rest) = out ++ scan_lines st' rest.
Proof.
  intros [Hp Hb] Hw. destruct Hw as [first body last Hf Hbody Hl|key tail body Hk Ho Hbody].
  - rewrite <-app_comm_cons, <-app_assoc. cbn [scan_lines]. unfold scan_line at 1. rewrite Hb. unfold scan_plain at 1.
    rewrite Hp, Hf. cbn [app]. rewrite scan_pem_body by done. do 2 f_equal. cbn [app scan_lines].
    unfold scan_line at 1. cbn [block_scalar_indent]. rewrite Hb. unfold scan_plain at 1. cbn [in_pem].
    unfold ends_pem in Hl. rewrite Hl. cbn [app block_scalar_indent carry_allows_seq]. do 2 f_equal.
    destruct st. cbn in *. by subst.
  - rewrite <-app_comm_cons. cbn [scan_lines]. unfold scan_line at 1. rewrite Hb. unfold scan_plain at 1.
    rewrite Hp, Hk, Ho. cbn [app]. f_equal. by eapply scan_value_body.
Qed.

(** ** Forced lines *)

Lemma splice_has_placeholder line spans : spans <> [] -> contains_str PLACEHOLDER (splice_spans line spans) = true.
Proof.
  intros Hne. unfold splice_spans. destruct (merge_sort span_le spans) as [|[a b] l] eqn:E.
  - pose proof (merge_sort_Permutation span_le spans) as P. rewrite E in P. by apply Permutation_nil_l in P.
  - cbn [splice_from]. case_match eqn:Ea; [done|]. apply contains_str_spec. by eexists _, _.
Qed.

(** The last word, without the semicolons that end it. *)
Definition last_word (line : string) : string :=
  match last_whitespace 0 line with
  | Some (i, width) => trim_end (Ascii.eqb ";") (str_drop (i + width) line)
  | None => PLACEHOLDER
  end.

Lemma forced_span_redacted line :
  last_word line <> "" -> contains_str PLACEHOLDER (redact_value_span line true) = true.
Proof.
  intros Hw. unfold redact_value_span. destruct (value_spans line true) as [|sp spans]; [|by apply splice_has_placeholder].
  unfold redact_tail. cbn [orb].
  assert (forall x, contains_str PLACEHOLDER (x +:+ PLACEHOLDER) = true) as Hend.
  { intros x. apply contains_str_spec. exists x, "". by rewrite str_app_nil_r. }
  destruct (str_rfind _ _); [done|]. destruct (str_find _ _); [done|]. unfold last_word in Hw.
  destruct (last_whitespace 0 line) as [[i w]|]; [|done].
  destruct (is_empty_str _) eqn:E; [by apply is_empty_str_spec in E|]. cbn [negb andb].
  apply contains_str_spec. by eexists _, _.
Qed.

(** ** The properties *)


(** Blocks are withheld: of a PEM block only its first and its last line
    are shown, and of a value that a denylisted YAML key opens on the lines
    below it only the indentation, whatever the other lines say and wherever
    the block stands in the text. *)
Theorem text_blocks_withheld input before lines st out after :
  str_split LF input = before ++ lines ++ after ->
  outside (scan_state scan_start before) -> withheld (scan_state scan_start before) lines st out ->
  redact input = str_join newline (scan_lines scan_start before ++ out ++ scan_lines st after).
Proof.
  intros Hi Ho Hw. unfold redact. rewrite Hi, scan_lines_app. by rewrite (withheld_scan _ _ _ _ _ Ho Hw).
Qed.

(** A line with a denylisted key does not pass unredacted, unless it ends in
    white space. *)
Theorem keyed_line_redacted line :
  contains_str SECRET_DATA line = false -> has_denylisted_key line = true -> last_word line <> "" ->
  contains_str PLACEHOLDER (redact_line line) = true.
Proof.
  intros Hm Hk Hw. unfold redact_line. rewrite (proj2 (find_str_None _ _) Hm), Hk. by apply forced_span_redacted.
Qed.
