(* ===== verification/RedactJson.v ===== *)
(** * Redaction of JSON values

    crates/mecmcp-redact/src/json.rs, profile.rs and projection.rs: the walk
    over a parsed value, the vendor profiles that extend it, and the projection
    onto declared fields. *)

From S2P Require Import Prelude Externals Json Text Trust Slice Denylist.
From S2P Require Import RedactText.
From Stdlib Require Import Ascii.

Open Scope list_scope.

(** ** The walk (json.rs) *)

Definition is_tag_or_tags (value : json) : bool :=
  match value with
  | JString s => is_bgp_community_tag s
  | JArray items =>
      negb (match items with [] => true | _ => false end)
      && forallb (fun item => match item with JString s => is_bgp_community_tag s | _ => false end) items
  | _ => false
  end.

Definition looks_like_bgp_community_value (value : json) : bool :=
  match value with
  | JString _ | JArray _ => is_tag_or_tags value
  | JObject map =>
      negb (match map with [] => true | _ => false end)
      && forallb (fun kv => (String.eqb (normalize kv.1) "member" || String.eqb (normalize kv.1) "members")
                            && is_tag_or_tags kv.2) map
  | JNumber _ | JBool _ | JNull => false
  end.

Fixpoint redact_leaf (v : json) : json :=
  match v with
  | JObject map => JObject ((fun kv => (kv.1, redact_leaf kv.2)) <$> map)
  | JArray items => JArray (redact_leaf <$> items)
  | JNull => JNull
  | _ => JString PLACEHOLDER
  end.

Definition sibling_type (map : list (string * json)) : option string :=
  match assoc "type" map with Some v => json_as_str v | None => None end.

Definition is_exempt (exempt : list string) (key : string) : bool := existsb (String.eqb (normalize key)) exempt.

(** The value under [key] is withheld. *)
Definition is_secret_field (bgp_route_communities : bool) (parent_key sibling : option string) (under_bgp : bool)
    (key : string) (v : json) : bool :=
  let is_bgp_field :=
    bgp_route_communities && is_bgp_community_field key under_bgp && looks_like_bgp_community_value v in
  (is_denylisted_key key || is_wep_keys_field key parent_key sibling) && negb is_bgp_field.

Fixpoint redact_inner (exempt : list string) (bgp_route_communities : bool) (parent_key : option string)
    (under_bgp : bool) (value : json) : json :=
  match value with
  | JObject map =>
      let sibling := sibling_type map in
      JObject ((fun kv =>
        let key := kv.1 in
        let child_under_bgp := under_bgp || is_bgp_scope_key key in
        (key,
         if is_exempt exempt key
         then redact_inner exempt bgp_route_communities (Some key) child_under_bgp kv.2
         else if is_secret_field bgp_route_communities parent_key sibling under_bgp key kv.2
         then redact_leaf kv.2
         else redact_inner exempt bgp_route_communities (Some key) child_under_bgp kv.2)) <$> map)
  | JArray items => JArray (redact_inner exempt bgp_route_communities parent_key under_bgp <$> items)
  | JString s => JString (if looks_like_secret_value s then PLACEHOLDER else RedactText.redact s)
  | value => value
  end.

Definition redact_with_exemptions (value : json) (exempt : list string) (bgp_route_communities : bool) : json :=
  redact_inner exempt bgp_route_communities None false value.

Definition redact (value : json) : json := redact_inner [] false None false value.

(** ** Vendor profiles (profile.rs) *)

Record Profile := {
  wholesale_redact_keys : list string;
  key_exemptions : list string;
  bgp_route_communities : bool;
}.

Definition is_ascii_lowercase (c : ascii) : bool := let n := N_of_ascii c in (97 <=? n)%N && (n <=? 122)%N.

Definition check_normalized (entry : string) : bool :=
  negb (is_empty_str entry) && str_forall (fun b => is_ascii_lowercase b || is_ascii_digit b) entry.

Definition check_all_normalized (entries : list string) : bool := forallb check_normalized entries.

(** [None]: the constant does not build. *)
Definition profile_new (wholesale exemptions : list string) : option Profile :=
  if check_all_normalized wholesale && check_all_normalized exemptions
  then Some {| wholesale_redact_keys := wholesale; key_exemptions := exemptions; bgp_route_communities := false |}
  else None.

Definition with_bgp_route_communities (p : Profile) : Profile :=
  {| wholesale_redact_keys := wholesale_redact_keys p; key_exemptions := key_exemptions p; bgp_route_communities := true |}.

Definition check_exemptions (p : Profile) : result unit string :=
  try_each (fun exemption =>
    if existsb (String.eqb exemption) DENYLISTED_KEYS || existsb (String.eqb exemption) DENYLISTED_EXACT_KEYS
       || existsb (String.eqb exemption) CONTEXTUALLY_DENYLISTED_EXACT_KEYS
    then Err exemption else Ok tt) (key_exemptions p).

Fixpoint redact_wholesale_fields (wholesale : list string) (value : json) : json :=
  match value with
  | JObject map =>
      JObject ((fun kv =>
        (kv.1, if existsb (String.eqb (normalize kv.1)) wholesale
               then (if is_null kv.2 then kv.2 else JString PLACEHOLDER)
               else redact_wholesale_fields wholesale kv.2)) <$> map)
  | JArray items => JArray (redact_wholesale_fields wholesale <$> items)
  | value => value
  end.

Definition redact_json_value_with_profile (value : json) (p : Profile) : json :=
  redact_with_exemptions (redact_wholesale_fields (wholesale_redact_keys p) value)
    (key_exemptions p) (bgp_route_communities p).

(** ** Projection (projection.rs) *)

Definition FieldAllowlist : Type := list string.

Definition project (fields : FieldAllowlist) (value : json) : json :=
  match value with
  | JObject map =>
      redact (JObject (foldl (fun kept field =>
        match assoc field map with Some v => map_insert field v kept | None => kept end) [] fields))
  | _ => JNull
  end.

Definition project_many (fields : FieldAllowlist) (value : json) : json :=
  match value with
  | JArray items => JArray (project fields <$> items)
  | other => project fields other
  end.

(** ** Values that differ in what is withheld *)

(** The same but for scalars that are not null. *)
Inductive same_shape : json -> json -> Prop :=
| same_null : same_shape JNull JNull
| same_scalar a b : redact_leaf a = JString PLACEHOLDER -> redact_leaf b = JString PLACEHOLDER -> same_shape a b
| same_array l l' : same_shapes l l' -> same_shape (JArray l) (JArray l')
| same_object m m' : same_fields m m' -> same_shape (JObject m) (JObject m')
with same_shapes : list json -> list json -> Prop :=
| same_shapes_nil : same_shapes [] []
| same_shapes_cons a b l l' : same_shape a b -> same_shapes l l' -> same_shapes (a :: l) (b :: l')
with same_fields : list (string * json) -> list (string * json) -> Prop :=
| same_fields_nil : same_fields [] []
| same_fields_cons k a b m m' : same_shape a b -> same_fields m m' -> same_fields ((k, a) :: m) ((k, b) :: m').

Scheme same_shape_min := Minimality for same_shape Sort Prop
  with same_shapes_min := Minimality for same_shapes Sort Prop
  with same_fields_min := Minimality for same_fields Sort Prop.
Combined Scheme same_shape_mutual from same_shape_min, same_shapes_min, same_fields_min.

Section alike.
Context (exempt : list string) (bgp : bool).

(** [key] is a secret field of an object with the given surroundings: it has a
    denylisted name or holds a table of WEP keys, it is not exempted, and it is
    not a route community below [bgp] where those are allowed. *)
Definition withholds (parent sibling : option string) (under : bool) (key : string) (v : json) : bool :=
  negb (is_exempt exempt key) && (is_denylisted_key key || is_wep_keys_field key parent sibling)
  && negb (bgp && is_bgp_community_field key under && looks_like_bgp_community_value v).

Lemma withholds_code parent sibling under key v :
  withholds parent sibling under key v = negb (is_exempt exempt key) && is_secret_field bgp parent sibling under key v.
Proof. unfold withholds, is_secret_field. by rewrite andb_assoc. Qed.

(** The same but for the scalars under secret fields. *)
Inductive alike : option string -> bool -> json -> json -> Prop :=
| alike_refl parent under j : alike parent under j j
| alike_array parent under l l' : alikes parent under l l' -> alike parent under (JArray l) (JArray l')
| alike_object parent under m m' :
    alike_fields parent (sibling_type m) (sibling_type m') under m m' -> alike parent under (JObject m) (JObject m')
with alikes : option string -> bool -> list json -> list json -> Prop :=
| alikes_nil parent under : alikes parent under [] []
| alikes_cons parent under a b l l' :
    alike parent under a b -> alikes parent under l l' -> alikes parent under (a :: l) (b :: l')
with alike_fields : option string -> option string -> option string -> bool ->
                    list (string * json) -> list (string * json) -> Prop :=
| alike_nil parent t t' under : alike_fields parent t t' under [] []
| alike_secret parent t t' under k a b m m' :
    withholds parent t under k a = true -> withholds parent t' under k b = true -> same_shape a b ->
    alike_fields parent t t' under m m' -> alike_fields parent t t' under ((k, a) :: m) ((k, b) :: m')
| alike_visible parent t t' under k a b m m' :
    withholds parent t under k a = false -> withholds parent t' under k b = false ->
    alike (Some k) (under || is_bgp_scope_key k) a b ->
    alike_fields parent t t' under m m' -> alike_fields parent t t' under ((k, a) :: m) ((k, b) :: m').

Scheme alike_min := Minimality for alike Sort Prop
  with alikes_min := Minimality for alikes Sort Prop
  with alike_fields_min := Minimality for alike_fields Sort Prop.
Combined Scheme alike_mutual from alike_min, alikes_min, alike_fields_min.

Lemma redact_leaf_same :
  (forall a b, same_shape a b -> redact_leaf a = redact_leaf b)
  /\ (forall l l', same_shapes l l' -> redact_leaf <$> l = redact_leaf <$> l')
  /\ (forall m m', same_fields m m' ->
       (fun kv : string * json => (kv.1, redact_leaf kv.2)) <$> m = (fun kv => (kv.1, redact_leaf kv.2)) <$> m').
Proof.
  apply same_shape_mutual; try done.
  - intros a b -> ->. done.
  - intros l l' _ IH. change (JArray (redact_leaf <$> l) = JArray (redact_leaf <$> l')). by rewrite IH.
  - intros m m' _ IH. change (JObject ((fun kv => (kv.1, redact_leaf kv.2)) <$> m) = JObject ((fun kv => (kv.1, redact_leaf kv.2)) <$> m')).
    by rewrite IH.
  - intros a b l l' _ IHa _ IHl. by rewrite !fmap_cons, IHa, IHl.
  - intros k a b m m' _ IHa _ IHm. rewrite !fmap_cons, IHm. cbn. by rewrite IHa.
Qed.

(** What a field becomes. *)
Definition redact_field (parent sibling : option string) (under : bool) (kv : string * json) : string * json :=
  (kv.1, if withholds parent sibling under kv.1 kv.2 then redact_leaf kv.2
         else redact_inner exempt bgp (Some kv.1) (under || is_bgp_scope_key kv.1) kv.2).

Lemma redact_object parent under m :
  redact_inner exempt bgp parent under (JObject m) = JObject (redact_field parent (sibling_type m) under <$> m).
Proof.
  cbn [redact_inner]. f_equal. apply list_fmap_ext. intros i [k v] _. unfold redact_field, withholds. cbn [fst snd].
  by destruct (is_exempt exempt k).
Qed.

Lemma alike_redact :
  (forall parent under a b, alike parent under a b ->
     redact_inner exempt bgp parent under a = redact_inner exempt bgp parent under b)
  /\ (forall parent under l l', alikes parent under l l' ->
       redact_inner exempt bgp parent under <$> l = redact_inner exempt bgp parent under <$> l')
  /\ (forall parent t t' under m m', alike_fields parent t t' under m m' ->
       redact_field parent t under <$> m = redact_field parent t' under <$> m').
Proof.
  apply alike_mutual; try done.
  - intros parent under l l' _ IH.
    change (JArray (redact_inner exempt bgp parent under <$> l) = JArray (redact_inner exempt bgp parent under <$> l')).
    by rewrite IH.
  - intros parent under m m' _ IH. by rewrite !redact_object, IH.
  - intros parent under a b l l' _ IHa _ IHl. by rewrite !fmap_cons, IHa, IHl.
  - intros parent t t' under k a b m m' Ha Hb Hs _ IH. rewrite !fmap_cons, IH. f_equal. unfold redact_field. cbn [fst snd].
    by rewrite Ha, Hb, (proj1 redact_leaf_same a b Hs).
  - intros parent t t' under k a b m m' Ha Hb _ IHv _ IH. rewrite !fmap_cons, IH. f_equal. unfold redact_field. cbn [fst snd].
    by rewrite Ha, Hb, IHv.
Qed.

End alike.

(** ** The structure of a value *)

Fixpoint skeleton (j : json) : json :=
  match j with
  | JObject m => JObject ((fun kv => (kv.1, skeleton kv.2)) <$> m)
  | JArray l => JArray (skeleton <$> l)
  | _ => JNull
  end.

Lemma fmap_ext_Forall {A B} (f g : A -> B) l : Forall (fun x => f x = g x) l -> f <$> l = g <$> l.
Proof. induction 1 as [|x l Hx _ IH]; [done|]. by rewrite !fmap_cons, Hx, IH. Qed.

Lemma skeleton_leaf j : skeleton (redact_leaf j) = skeleton j.
Proof.
  induction j as [| | | |l IH|m IH] using json_ind_full; try done.
  - change (JArray (skeleton <$> (redact_leaf <$> l)) = JArray (skeleton <$> l)). f_equal.
    rewrite <-list_fmap_compose. by apply fmap_ext_Forall.
  - change (JObject ((fun kv => (kv.1, skeleton kv.2)) <$> ((fun kv => (kv.1, redact_leaf kv.2)) <$> m)) =
            JObject ((fun kv => (kv.1, skeleton kv.2)) <$> m)). f_equal.
    rewrite <-list_fmap_compose. apply fmap_ext_Forall. apply (Forall_impl _ _ _ IH).
    intros [k v] Hv. cbn in *. by rewrite Hv.
Qed.

Lemma skeleton_redact exempt bgp parent under j : skeleton (redact_inner exempt bgp parent under j) = skeleton j.
Proof.
  revert parent under. induction j as [| | | |l IH|m IH] using json_ind_full; intros parent under; try done.
  - change (JArray (skeleton <$> (redact_inner exempt bgp parent under <$> l)) = JArray (skeleton <$> l)). f_equal.
    rewrite <-list_fmap_compose. apply fmap_ext_Forall. apply (Forall_impl _ _ _ IH). intros x Hx. apply Hx.
  - rewrite redact_object. cbn [skeleton]. f_equal. rewrite <-list_fmap_compose. apply fmap_ext_Forall.
    apply (Forall_impl _ _ _ IH). intros [k v] Hv. unfold redact_field. cbn in *.
    destruct (withholds _ _ _ _ _ _ _); [by rewrite skeleton_leaf|by rewrite Hv].
Qed.

(** ** Profiles *)

Lemma redact_wholesale_nil j : redact_wholesale_fields [] j = j.
Proof.
  induction j as [| | | |l IH|m IH] using json_ind_full; try done.
  - change (JArray (redact_wholesale_fields [] <$> l) = JArray l). f_equal. by apply fmap_id_Forall.
  - change (JObject ((fun kv => (kv.1, redact_wholesale_fields [] kv.2)) <$> m) = JObject m). f_equal.
    apply fmap_id_Forall. apply (Forall_impl _ _ _ IH). intros [k v] Hv. cbn in *. by rewrite Hv.
Qed.

(** The plain scan is that of the profile that declares nothing. *)
Lemma redact_empty_profile j :
  redact_json_value_with_profile j {| wholesale_redact_keys := []; key_exemptions := []; bgp_route_communities := false |}
  = redact j.
Proof. unfold redact_json_value_with_profile. cbn [wholesale_redact_keys]. by rewrite redact_wholesale_nil. Qed.

Lemma assoc_redacted f k m :
  (forall kv, (f kv).1 = kv.1) ->
  assoc k (f <$> m) = match assoc k m with Some v => Some (f (k, v)).2 | None => None end.
Proof.
  intros Hf. induction m as [|[k' v] m IH]; [done|]. rewrite fmap_cons. cbn [assoc].
  destruct (f (k', v)) as [k2 v2] eqn:E. pose proof (Hf (k', v)) as Hk. rewrite E in Hk. cbn in Hk. subst k2. cbn.
  destruct (String.eqb_spec k k') as [->|]; [by rewrite E|done].
Qed.

(** A declared body is withheld as a whole. *)
Lemma wholesale_withheld p m k v :
  existsb (String.eqb (normalize k)) (wholesale_redact_keys p) = true -> assoc k m = Some v -> is_null v = false ->
  json_get k (redact_json_value_with_profile (JObject m) p) = Some (JString PLACEHOLDER).
Proof.
  intros Hk Hv Hn. unfold redact_json_value_with_profile, redact_with_exemptions.
  change (redact_wholesale_fields (wholesale_redact_keys p) (JObject m)) with
    (JObject ((fun kv => (kv.1, if existsb (String.eqb (normalize kv.1)) (wholesale_redact_keys p)
                                then (if is_null kv.2 then kv.2 else JString PLACEHOLDER)
                                else redact_wholesale_fields (wholesale_redact_keys p) kv.2)) <$> m)).
  rewrite redact_object. cbn [json_get]. rewrite !assoc_redacted by done. rewrite Hv. cbn [fst snd]. rewrite Hk, Hn.
  unfold redact_field. cbn [fst snd]. by destruct (withholds _ _ _ _ _ _ _).
Qed.

(** An accepted profile does not exempt a term of the denylist. *)
Lemma checked_profile_keeps_terms p k :
  check_exemptions p = Ok tt -> normalize k ∈ DENYLISTED_KEYS \/ normalize k = "key" ->
  is_exempt (key_exemptions p) k = false /\ is_denylisted_key k = true.
Proof.
  intros Hc Hk. split.
  - unfold is_exempt. destruct (existsb _ _) eqn:E; [|done]. apply existsb_exists in E as (x&Hx&<-%String.eqb_eq).
    apply list_elem_of_In, (proj1 (try_each_Ok _ _) Hc) in Hx.
    destruct Hk as [Hk|Hk]; [|by rewrite Hk in Hx].
    assert (existsb (String.eqb (normalize k)) DENYLISTED_KEYS = true) as He; [|by rewrite He in Hx].
    apply existsb_exists. exists (normalize k). split; [by apply list_elem_of_In|apply String.eqb_refl].
  - apply is_denylisted_key_spec. destruct Hk as [Hk|Hk]; [right|by left]. exists (normalize k). split; [done|].
    apply contains_str_spec. exists "", "". by rewrite str_app_nil, str_app_nil_r.
Qed.

(** ** Projection *)

(** The fields of [map] that a projection keeps. *)
Definition kept_fields (fields : FieldAllowlist) (m : list (string * json)) : list (string * json) :=
  foldl (fun kept field => match assoc field m with Some v => map_insert field v kept | None => kept end) [] fields.

Lemma kept_fields_keys fields m k : k ∈ (kept_fields fields m).*1 <-> k ∈ fields /\ is_Some (assoc k m).
Proof.
  unfold kept_fields.
  assert (forall acc, k ∈ (foldl (fun kept field => match assoc field m with Some v => map_insert field v kept | None => kept end)
                        acc fields).*1 <-> k ∈ acc.*1 \/ (k ∈ fields /\ is_Some (assoc k m))) as H.
  { induction fields as [|f fields IH]; intros acc; cbn [foldl]; [rewrite elem_of_nil; tauto|].
    rewrite IH, elem_of_cons. destruct (assoc f m) as [v|] eqn:E.
    - rewrite map_insert_keys. assert (k = f -> is_Some (assoc k m)) by (intros ->; by rewrite E). tauto.
    - assert (k = f -> ~ is_Some (assoc k m)) by (intros ->; rewrite E; by intros []). tauto. }
  rewrite H. cbn. rewrite elem_of_nil. tauto.
Qed.

Lemma kept_fields_ext fields m m' :
  (forall f, f ∈ fields -> assoc f m = assoc f m') -> kept_fields fields m = kept_fields fields m'.
Proof.
  unfold kept_fields. generalize (@nil (string * json)). induction fields as [|f fields IH]; intros acc H; [done|].
  cbn [foldl]. rewrite (H f) by (by left). apply IH. intros g Hg. apply H. by right.
Qed.

Lemma redact_keys m : exists m', redact (JObject m) = JObject m' /\ m'.*1 = m.*1.
Proof.
  unfold redact. rewrite redact_object. eexists. split; [done|]. rewrite <-list_fmap_compose. done.
Qed.

(** ** The properties *)


(** The generic scan keeps every object, key and array where it is. *)
Theorem json_structure_kept exempt bgp j : skeleton (redact_with_exemptions j exempt bgp) = skeleton j.
Proof. apply skeleton_redact. Qed.

(** A projection shows the declared fields that the object has and no other
    field, and depends on nothing else of it. *)
Theorem projection_exact fields m :
  (exists kept, project fields (JObject m) = JObject kept
     /\ forall k, k ∈ kept.*1 <-> k ∈ fields /\ is_Some (assoc k m))
  /\ forall m', (forall f, f ∈ fields -> assoc f m = assoc f m') ->
       project fields (JObject m) = project fields (JObject m').
Proof.
  split.
  - destruct (redact_keys (kept_fields fields m)) as (kept&E&Hk). exists kept. split; [done|].
    intros k. rewrite Hk. apply kept_fields_keys.
  - intros m' H. cbn [project]. fold (kept_fields fields m) (kept_fields fields m'). by rewrite (kept_fields_ext fields m m' H).
Qed.
