(* ===== verification/RedactXml.v ===== *)
(** * Redaction of XML documents

    crates/mecmcp-redact/src/xml.rs: the pass over the events of a parser, with
    the stack of open elements and the run of text that is being joined.  The
    parser and the writer are those of a library: [QuickXml]. *)

From S2P Require Import Prelude Text Trust Slice Denylist RedactText.
From Stdlib Require Import Ascii.

Open Scope list_scope.

(** ** Events *)

(** An attribute: its name and [normalized_value]. *)
Record Attribute := { attr_key : string; attr_value : result string string }.

(** An event of the reader.  An attribute can fail to parse; an entity
    reference comes with [resolve_char_ref]. *)
Inductive Event :=
| Start (name : string) (attributes : list (result Attribute string))
| Empty (name : string) (attributes : list (result Attribute string))
| End (name : string)
| Text (raw : string)
| GeneralRef (name : string) (char_ref : result (option string) string)
| CData (content : string)
| Comment (content : string)
| Other (payload : string).

(** An event that is written, its text escaped. *)
Inductive Written :=
| WStart (name : string) (attributes : list (string * string))
| WEmpty (name : string) (attributes : list (string * string))
| WEnd (name : string)
| WText (escaped : string)
| WCData (content : string)
| WComment (escaped : string)
| WOther (payload : string).

Class QuickXml := {
  (** the events of a document, and the error they end with unless they end
      with [Eof] *)
  read_events : string -> list Event * option string;
  write_events : list Written -> string;
  qname_local : string -> string;
  unescape : string -> result string string;
  resolve_predefined_entity : string -> option string;
}.

Inductive RedactError := InvalidJson (why : string) | InvalidXml (why : string) | WeakDigestKey (len : nat).

Section xml.
Context `{QuickXml}.

Definition escape_char (c : ascii) : string :=
  if Ascii.eqb c "<" then "&lt;"
  else if Ascii.eqb c ">" then "&gt;"
  else if Ascii.eqb c "&" then "&amp;"
  else if Ascii.eqb c "'" then "&apos;"
  else if Ascii.eqb c DQUOTE then "&quot;"
  else String c "".

Fixpoint escape_text (raw : string) : string :=
  match raw with
  | EmptyString => ""
  | String c raw => escape_char c +:+ escape_text raw
  end.

Definition resolve_general_ref (name : string) (char_ref : result (option string) string) : result string RedactError :=
  let? ch := map_err InvalidXml char_ref in
  match ch with
  | Some ch => Ok ch
  | None => ok_or (resolve_predefined_entity name) (InvalidXml ("unresolved entity reference &" +:+ name +:+ ";"))
  end.

Definition redact_comment (text : string) : string :=
  match find_str SECRET_DATA text with
  | Some idx =>
      if is_empty_str (trim (str_take idx text)) then text else PLACEHOLDER +:+ str_drop idx text
  | None => if looks_like_secret_value text then PLACEHOLDER else text
  end.

(** ** Secret elements *)

(** The stack of open elements, the outermost first, as the source has it. *)
Definition is_bgp_route_community_ancestor (tag_stack : list string) (i : nat) (value : string) : bool :=
  match tag_stack !! i with
  | None => false
  | Some name =>
      if negb (String.eqb (normalize name) "community") then false
      else
        let under_bgp := existsb is_bgp_scope_key (take i tag_stack) in
        if negb under_bgp || negb (is_bgp_community_tag value) then false
        else
          let len := length tag_stack in
          if (i =? len - 1)%nat then true
          else (i + 2 =? len)%nat
               && match tag_stack !! (len - 1)%nat with
                  | Some last => String.eqb (normalize last) "member" || String.eqb (normalize last) "members"
                  | None => false
                  end
  end.

Section policy.
Context (extra_exact_elem : string -> bool) (bgp_route_communities : bool).

Definition secret_ancestor (tag_stack : list string) (value : string) (i : nat) (name : string) : bool :=
  if extra_exact_elem name then true
  else if negb (is_denylisted_key name) then false
  else negb (bgp_route_communities && is_bgp_route_community_ancestor tag_stack i value).

Definition any_ancestor_secret (tag_stack : list string) (value : string) : bool :=
  existsb (fun x : bool => x) (imap (secret_ancestor tag_stack value) tag_stack).

(** ** The pass *)

Fixpoint redact_attributes (tag_stack : list string) (attributes : list (result Attribute string)) :
    result (list (string * string)) RedactError :=
  match attributes with
  | [] => Ok []
  | attr :: attributes =>
      let? attr := map_err InvalidXml attr in
      let? value := map_err InvalidXml (attr_value attr) in
      let redacted_value :=
        if any_ancestor_secret tag_stack value || is_denylisted_key (qname_local (attr_key attr))
           || looks_like_secret_value value
        then PLACEHOLDER else value in
      let? rest := redact_attributes tag_stack attributes in
      Ok ((attr_key attr, escape_text redacted_value) :: rest)
  end.

Record Pass := { tag_stack : list string; text_run : option string; written : list Written }.

Definition write (p : Pass) (event : Written) : Pass :=
  {| tag_stack := tag_stack p; text_run := text_run p; written := written p ++ [event] |}.

Definition flush_text_run (p : Pass) : Pass :=
  match text_run p with
  | None => p
  | Some joined =>
      let out :=
        if any_ancestor_secret (tag_stack p) joined || looks_like_secret_value joined
        then escape_text PLACEHOLDER else escape_text (RedactText.redact joined) in
      {| tag_stack := tag_stack p; text_run := None; written := written p ++ [WText out] |}
  end.

Definition push_run (p : Pass) (text : string) : Pass :=
  {| tag_stack := tag_stack p; text_run := Some (default "" (text_run p) +:+ text); written := written p |}.

Definition with_stack (p : Pass) (stack : list string) : Pass :=
  {| tag_stack := stack; text_run := text_run p; written := written p |}.

(** [Vec::pop]. *)
Definition pop {A} (l : list A) : list A := take (length l - 1) l.

Definition redact_cdata (stack : list string) (decoded : string) : string :=
  if any_ancestor_secret stack decoded || looks_like_secret_value decoded
  then PLACEHOLDER else RedactText.redact decoded.

Definition pass_event (p : Pass) (event : Event) : result Pass RedactError :=
  match event with
  | Text raw =>
      let? decoded := map_err InvalidXml (unescape raw) in
      Ok (push_run p decoded)
  | GeneralRef name char_ref =>
      let? text := resolve_general_ref name char_ref in
      Ok (push_run p text)
  | _ =>
      let p := flush_text_run p in
      match event with
      | Start name attributes =>
          let stack := tag_stack p ++ [qname_local name] in
          let? rewritten := redact_attributes stack attributes in
          Ok (write (with_stack p stack) (WStart name rewritten))
      | Empty name attributes =>
          let? rewritten := redact_attributes (tag_stack p ++ [qname_local name]) attributes in
          Ok (write p (WEmpty name rewritten))
      | End name => Ok (write (with_stack p (pop (tag_stack p))) (WEnd name))
      | CData decoded => Ok (write p (WCData (redact_cdata (tag_stack p) decoded)))
      | Comment text => Ok (write p (WComment (escape_text (redact_comment text))))
      | Other payload => Ok (write p (WOther payload))
      | Text _ | GeneralRef _ _ => Ok p
      end
  end.

Fixpoint pass_events (p : Pass) (events : list Event) (ending : option string) : result (list Written) RedactError :=
  match events with
  | event :: events => let? p := pass_event p event in pass_events p events ending
  | [] =>
      match ending with
      | Some e => Err (InvalidXml e)
      | None =>
          let p := flush_text_run p in
          match last (tag_stack p) with
          | Some unclosed => Err (InvalidXml ("unclosed element <" +:+ unclosed +:+ ">"))
          | None => Ok (written p)
          end
      end
  end.

Definition pass_start : Pass := {| tag_stack := []; text_run := None; written := [] |}.

Definition redact_impl (input : string) : result string RedactError :=
  let? out := pass_events pass_start (read_events input).1 (read_events input).2 in
  Ok (write_events out).

End policy.

Definition redact (input : string) : result string RedactError := redact_impl (fun _ => false) false input.

Definition redact_with (input : string) (extra_exact_elem : string -> bool) : result string RedactError :=
  redact_impl extra_exact_elem false input.

(** [profile] only says whether BGP route communities are exempt. *)
Definition redact_with_profile (input : string) (bgp_route_communities : bool) : result string RedactError :=
  redact_impl (fun _ => false) bgp_route_communities input.

(** Depth only: nothing is redacted. *)
Fixpoint validate_events (depth : nat) (events : list Event) (ending : option string) : result unit RedactError :=
  match events with
  | event :: events =>
      let depth := match event with Start _ _ => S depth | End _ => (depth - 1)%nat | _ => depth end in
      validate_events depth events ending
  | [] =>
      match ending with
      | Some e => Err (InvalidXml e)
      | None => if (0 <? depth)%nat then Err (InvalidXml "unclosed element at end of input") else Ok tt
      end
  end.

Definition validate (input : string) : result unit RedactError :=
  validate_events 0 (read_events input).1 (read_events input).2.

(** ** What the written document shows *)

Section shown.
Context (extra_exact_elem : string -> bool) (bgp_route_communities : bool).

Notation ancestor := (any_ancestor_secret extra_exact_elem bgp_route_communities).

(** An attribute of the innermost element of [stack]. *)
Definition attribute_shown (stack : list string) (kv : string * string) : Prop :=
  kv.2 = escape_text PLACEHOLDER
  \/ exists value, kv.2 = escape_text value /\ ancestor stack value = false
       /\ is_denylisted_key (qname_local kv.1) = false /\ looks_like_secret_value value = false.

Definition text_shown (stack : list string) (content : string) : Prop :=
  content = PLACEHOLDER
  \/ exists text, content = RedactText.redact text /\ ancestor stack text = false
       /\ looks_like_secret_value text = false.

(** One event where the elements of [stack] are open. *)
Definition event_shown (stack : list string) (event : Written) : Prop :=
  match event with
  | WStart name attributes | WEmpty name attributes =>
      Forall (attribute_shown (stack ++ [qname_local name])) attributes
  | WText escaped => exists content, escaped = escape_text content /\ text_shown stack content
  | WCData content => text_shown stack content
  | WComment escaped => exists text, escaped = escape_text (redact_comment text)
  | WEnd _ | WOther _ => True
  end.

Definition open_after (stack : list string) (event : Written) : list string :=
  match event with
  | WStart name _ => stack ++ [qname_local name]
  | WEnd _ => pop stack
  | _ => stack
  end.

(** Each event of a written document, with the elements that the document
    itself has open there. *)
Fixpoint document_shown (stack : list string) (events : list Written) : Prop :=
  match events with
  | [] => True
  | event :: events => event_shown stack event /\ document_shown (open_after stack event) events
  end.

Lemma document_shown_snoc stack events event :
  document_shown stack (events ++ [event]) <->
  document_shown stack events /\ event_shown (foldl open_after stack events) event.
Proof.
  revert stack. induction events as [|e events IH]; intros stack; cbn [app document_shown foldl]; [tauto|].
  rewrite IH. tauto.
Qed.

Lemma redact_attributes_shown stack attributes out :
  redact_attributes extra_exact_elem bgp_route_communities stack attributes = Ok out ->
  Forall (attribute_shown stack) out.
Proof.
  revert out. induction attributes as [|a attributes IH]; intros out; cbn [redact_attributes].
  { intros [= <-]. constructor. }
  destruct a as [a|e]; cbn [map_err result_bind]; [|done].
  destruct (attr_value a) as [value|e]; cbn [map_err result_bind]; [|done].
  destruct (redact_attributes _ _ stack attributes) as [rest|e]; cbn [result_bind]; [|done].
  intros [= <-]. constructor; [|by apply IH]. unfold attribute_shown. cbn [fst snd].
  destruct (_ || _) eqn:E; [by left|right]. apply orb_false_iff in E as [[??]%orb_false_iff ?]. by exists value.
Qed.

(** The pass keeps its stack equal to that of what it has written. *)
Definition pass_ok (p : Pass) : Prop :=
  document_shown [] (written p) /\ foldl open_after [] (written p) = tag_stack p.

Lemma pass_ok_write p event stack :
  pass_ok p -> event_shown (tag_stack p) event -> stack = open_after (tag_stack p) event ->
  pass_ok (write (with_stack p stack) event).
Proof.
  intros [Hd Hs] He ->. split; cbn [written tag_stack write with_stack].
  - apply document_shown_snoc. by rewrite Hs.
  - rewrite foldl_app. cbn. by rewrite Hs.
Qed.

Lemma with_stack_same p : with_stack p (tag_stack p) = p.
Proof. by destruct p. Qed.

Lemma text_shown_run stack text :
  exists content,
    (if ancestor stack text || looks_like_secret_value text then escape_text PLACEHOLDER else escape_text (RedactText.redact text))
    = escape_text content /\ text_shown stack content.
Proof.
  destruct (_ || _) eqn:E; [exists PLACEHOLDER; split; [done|by left]|].
  apply orb_false_iff in E as [??]. exists (RedactText.redact text). split; [done|]. right. by exists text.
Qed.

Lemma flush_ok p : pass_ok p -> pass_ok (flush_text_run extra_exact_elem bgp_route_communities p).
Proof.
  intros Hp. unfold flush_text_run. destruct (text_run p) as [joined|] eqn:E; [|done].
  destruct Hp as [Hd Hs]. split; cbn [written tag_stack].
  - apply document_shown_snoc. split; [done|]. rewrite Hs. cbn [event_shown]. apply text_shown_run.
  - rewrite foldl_app. cbn. by rewrite Hs.
Qed.

Lemma cdata_shown stack text : text_shown stack (redact_cdata extra_exact_elem bgp_route_communities stack text).
Proof.
  unfold redact_cdata. destruct (_ || _) eqn:E; [by left|]. apply orb_false_iff in E as [??]. right. by exists text.
Qed.

Lemma pass_event_ok p event p' :
  pass_ok p -> pass_event extra_exact_elem bgp_route_communities p event = Ok p' -> pass_ok p'.
Proof.
  intros Hp He. pose proof (flush_ok p Hp) as Hf. destruct event; cbn [pass_event] in He;
    set (q := flush_text_run extra_exact_elem bgp_route_communities p) in *.
  - apply result_bind_Ok in He as (attrs&Ha&[= <-]). apply pass_ok_write; [done| |done].
    by eapply redact_attributes_shown.
  - apply result_bind_Ok in He as (attrs&Ha&[= <-]). rewrite <-(with_stack_same q). apply pass_ok_write; [done| |done].
    by eapply redact_attributes_shown.
  - injection He as <-. by apply pass_ok_write.
  - apply result_bind_Ok in He as (text&_&[= <-]). done.
  - apply result_bind_Ok in He as (text&_&[= <-]). done.
  - injection He as <-. rewrite <-(with_stack_same q). apply pass_ok_write; [done|apply cdata_shown|done].
  - injection He as <-. rewrite <-(with_stack_same q). apply pass_ok_write; [done|by eexists|done].
  - injection He as <-. rewrite <-(with_stack_same q). by apply pass_ok_write.
Qed.

Lemma pass_events_ok p events ending out :
  pass_ok p -> pass_events extra_exact_elem bgp_route_communities p events ending = Ok out ->
  document_shown [] out /\ foldl open_after [] out = [].
Proof.
  revert p. induction events as [|event events IH]; intros p Hp; cbn [pass_events].
  - destruct ending; [done|]. pose proof (flush_ok p Hp) as [Hd Hs].
    destruct (last _) as [x|] eqn:E; [done|]. intros [= <-]. split; [done|]. rewrite Hs. by apply last_None.
  - intros (q&Hq&He)%result_bind_Ok. eapply IH; [|done]. by eapply pass_event_ok.
Qed.

(** ** Validation *)

Lemma pop_length {A} (l : list A) : length (pop l) = (length l - 1)%nat.
Proof. unfold pop. rewrite length_take. lia. Qed.

Lemma flush_stack p : tag_stack (flush_text_run extra_exact_elem bgp_route_communities p) = tag_stack p.
Proof. unfold flush_text_run. by destruct (text_run p). Qed.

Lemma pass_event_depth p event p' :
  pass_event extra_exact_elem bgp_route_communities p event = Ok p' ->
  length (tag_stack p') =
    match event with Start _ _ => S (length (tag_stack p)) | End _ => (length (tag_stack p) - 1)%nat | _ => length (tag_stack p) end.
Proof.
  intros He. destruct event; cbn [pass_event] in He;
    try (apply result_bind_Ok in He as (?&_&[= <-])); try (injection He as <-);
    cbn [tag_stack write with_stack push_run]; rewrite ?pop_length, ?length_app, ?flush_stack; cbn; try done; lia.
Qed.

(** What the redactor accepts is well formed. *)
Lemma pass_validates p events ending out :
  pass_events extra_exact_elem bgp_route_communities p events ending = Ok out ->
  validate_events (length (tag_stack p)) events ending = Ok tt.
Proof.
  revert p. induction events as [|event events IH]; intros p; cbn [pass_events validate_events].
  - destruct ending; [done|]. rewrite flush_stack. destruct (last (tag_stack p)) eqn:E; [done|].
    apply last_None in E. by rewrite E.
  - intros (q&Hq&He)%result_bind_Ok. rewrite <-(pass_event_depth p event q Hq). by eapply IH.
Qed.

End shown.

(** ** Secret elements, with no exemption *)

Lemma imap_existsb_const (f : string -> bool) (l : list string) :
  existsb (fun x : bool => x) (imap (fun _ name => f name) l) = existsb f l.
Proof. induction l as [|x l IH]; [done|]. cbn [imap existsb]. by rewrite <-IH. Qed.

(** Without the BGP exemption an element is secret by its name alone. *)
Lemma ancestor_by_name extra stack value :
  any_ancestor_secret extra false stack value = existsb (fun name => extra name || is_denylisted_key name) stack.
Proof.
  unfold any_ancestor_secret, secret_ancestor. rewrite <-imap_existsb_const. f_equal. apply imap_ext.
  intros i name _. destruct (extra name), (is_denylisted_key name); done.
Qed.

(** ** Escaping *)

Lemma escape_char_clean c d : d = "<"%char \/ d = ">"%char \/ d = "'"%char \/ d = DQUOTE -> contains_char d (escape_char c) = false.
Proof.
  intros Hd. unfold escape_char. repeat case_match; try by destruct Hd as [->|[->|[->| ->]]].
  unfold contains_char. cbn. rewrite orb_false_r. destruct (Ascii.eqb_spec d c) as [->|]; [|done].
  exfalso. destruct Hd as [->|[->|[->| ->]]]; done.
Qed.

(** Escaped text opens no tag and closes no attribute. *)
Lemma escape_text_clean s d :
  d = "<"%char \/ d = ">"%char \/ d = "'"%char \/ d = DQUOTE -> contains_char d (escape_text s) = false.
Proof.
  intros Hd. induction s as [|c s IH]; [done|]. cbn [escape_text]. rewrite contains_char_app, IH, orb_false_r.
  by apply escape_char_clean.
Qed.

(** ** The properties *)


End xml.
