(* ===== verification/Redaction.v ===== *)
(** * The redaction boundary

    crates/mecmcp-redact/src/policy.rs, digest.rs and lib.rs: the policy that is
    set at most once, the entry points that consult it, and the digest of the
    original beside the redacted body. *)

From S2P Require Import Prelude Externals Json Digest Text Trust Slice Denylist RedactText RedactJson RedactXml.

Open Scope list_scope.

(** [serde_json::from_str], [to_string] and [to_string_pretty] of a [Value],
    an error as its text. *)
Class SerdeJson := {
  json_from_str : string -> result json string;
  json_to_string : json -> string;
  json_to_string_pretty : json -> string;
}.

(** ** The policy (policy.rs) *)

Inductive RedactionPolicy := Enabled | DisabledByOperator (flag : string).

(** The process-global cell: empty until it is set or first read. *)
Notation PolicyCell := (option RedactionPolicy) (only parsing).

(** The audit events of an installation. *)
Inductive PolicyEvent :=
| RedactionDisabled (flag : string)
| InstallIgnored (requested_disable_flag : string).

Definition disabled_flag (policy : RedactionPolicy) : option string :=
  match policy with DisabledByOperator flag => Some flag | Enabled => None end.

Definition install (policy : RedactionPolicy) (cell : PolicyCell) : PolicyCell * list PolicyEvent :=
  match cell with
  | None =>
      (Some policy, match disabled_flag policy with Some flag => [RedactionDisabled flag] | None => [] end)
  | Some _ => (cell, [InstallIgnored (default "<n/a>" (disabled_flag policy))])
  end.

Definition active (cell : PolicyCell) : RedactionPolicy * PolicyCell :=
  match cell with
  | Some policy => (policy, cell)
  | None => (Enabled, Some Enabled)
  end.

Definition is_disabled (policy : RedactionPolicy) : bool :=
  match policy with DisabledByOperator _ => true | Enabled => false end.

(** ** Entry points (lib.rs) *)

Inductive Format := FText | FJson | FXml.

Definition MIN_DIGEST_KEY_LEN : nat := 32.

Section entry.
Context `{Externals} `{QuickXml} `{SerdeJson}.

(** Each under the policy that [active] returned. *)
Definition redact_text (policy : RedactionPolicy) (input : string) : string :=
  if is_disabled policy then input else RedactText.redact input.

Definition redact_json_str (policy : RedactionPolicy) (input : string) : result string RedactError :=
  if is_disabled policy then
    check? map_err InvalidJson (json_from_str input);
    Ok input
  else
    let? value := map_err InvalidJson (json_from_str input) in
    Ok (json_to_string (RedactJson.redact value)).

Definition redact_json_value (policy : RedactionPolicy) (value : json) : json :=
  if is_disabled policy then value else RedactJson.redact value.

Definition redact_json_value_with_profile (policy : RedactionPolicy) (value : json) (profile : Profile) : json :=
  if is_disabled policy then value else RedactJson.redact_json_value_with_profile value profile.

Definition redact_xml_str (policy : RedactionPolicy) (input : string) : result string RedactError :=
  if is_disabled policy then
    check? validate input;
    Ok input
  else RedactXml.redact input.

Definition redact_xml_str_with_profile (policy : RedactionPolicy) (input : string) (profile : Profile) :
    result string RedactError :=
  if is_disabled policy then
    check? validate input;
    Ok input
  else RedactXml.redact_with_profile input (RedactJson.bgp_route_communities profile).

(** [digest::digest_hex]. *)
Definition keyed_digest_hex (key data : bytes) : string := "hmac-sha256:" +:+ bytes_hex (hmac_sha256 key data).

Record RedactedOutput := { ro_digest : string; ro_redacted : string }.

Definition redact_and_digest (policy : RedactionPolicy) (raw : string) (format : Format) (digest_key : bytes) :
    result RedactedOutput RedactError :=
  if (String.length digest_key <? MIN_DIGEST_KEY_LEN)%nat then Err (WeakDigestKey (String.length digest_key))
  else
    let digest := keyed_digest_hex digest_key raw in
    let? redacted :=
      match format with
      | FText => Ok (redact_text policy raw)
      | FJson => redact_json_str policy raw
      | FXml => redact_xml_str policy raw
      end in
    Ok {| ro_digest := digest; ro_redacted := redacted |}.

End entry.

(** ** A process *)

(** What a process does with the policy: install one, or redact something. *)
Inductive PolicyOp := Install (policy : RedactionPolicy) | Redact.

(** The policies that the redactions ran under and the audit events, in
    order. *)
Fixpoint run_policy (cell : PolicyCell) (ops : list PolicyOp) : list RedactionPolicy * list PolicyEvent :=
  match ops with
  | [] => ([], [])
  | Install policy :: ops =>
      let '(cell, events) := install policy cell in
      let '(seen, later) := run_policy cell ops in (seen, events ++ later)
  | Redact :: ops =>
      let '(policy, cell) := active cell in
      let '(seen, later) := run_policy cell ops in (policy :: seen, later)
  end.

Lemma run_policy_set policy ops : Forall (eq policy) (run_policy (Some policy) ops).1.
Proof.
  induction ops as [|[q|] ops IH]; cbn [run_policy install active]; [constructor|..];
    destruct (run_policy (Some policy) ops) as [seen later]; [done|by constructor].
Qed.

(** ** The properties *)

(** C33 Redaction is on unless the operator turned it off first of all, and then
    it is on record: the redactions of a process all run under one policy; it
    is not [Enabled] only if the process began by installing that policy, with
    an audit event that names the flag. *)
Theorem redaction_is_never_turned_off_silently ops policy :
  policy ∈ (run_policy None ops).1 ->
  Forall (eq policy) (run_policy None ops).1
  /\ (policy = Enabled
      \/ exists flag rest, policy = DisabledByOperator flag /\ ops = Install policy :: rest
           /\ head (run_policy None ops).2 = Some (RedactionDisabled flag)).
Proof.
  intros Hin. destruct ops as [|[q|] ops]; cbn [run_policy install active] in *; [by apply elem_of_nil in Hin|..].
  - pose proof (run_policy_set q ops) as Hall. destruct (run_policy (Some q) ops) as [seen later]. cbn [fst snd] in *.
    assert (q = policy) as -> by (by apply (proj1 (Forall_forall _ _) Hall)). split; [done|].
    destruct policy as [|flag]; [by left|]. right. by exists flag, ops.
  - pose proof (run_policy_set Enabled ops) as Hall. destruct (run_policy (Some Enabled) ops) as [seen later]. cbn [fst snd] in *.
    assert (Enabled = policy) as <-.
    { apply elem_of_cons in Hin as [->|Hin]; [done|]. by apply (proj1 (Forall_forall _ _) Hall). }
    split; [by constructor|by left].
Qed.

(** The digest is of the original: whatever the format and the policy, a
    result is only given under a key of at least 32 bytes, its digest is the
    keyed hash of the unredacted bytes, and a body that hashes differently gets
    another digest even where the redacted bodies are the same. *)
Theorem digest_is_of_the_original `{Externals} `{QuickXml} `{SerdeJson} policy raw raw' format format' key out out' :
  redact_and_digest policy raw format key = Ok out -> redact_and_digest policy raw' format' key = Ok out' ->
  (MIN_DIGEST_KEY_LEN <= String.length key)%nat /\ ro_digest out = keyed_digest_hex key raw
  /\ (ro_digest out = ro_digest out' <-> hmac_sha256 key raw = hmac_sha256 key raw').
Proof.
  unfold redact_and_digest. destruct (Nat.ltb_spec (String.length key) MIN_DIGEST_KEY_LEN) as [|Hlen]; [done|].
  intros (r&_&[= <-])%result_bind_Ok (r'&_&[= <-])%result_bind_Ok. cbn [ro_digest]. split_and!; [done|done|].
  unfold keyed_digest_hex. split; [|by intros ->]. intros E%str_app_inj_l. by apply bytes_hex_inj.
Qed.
