(* ===== verification/JunosRedact.v ===== *)
(** * Redaction of Junos support-bundle artefacts

    crates/mecmcp-redact/src/junos.rs: the XML pass with the Junos element
    names, the line scan for logs with its word, value and hash rules, and the
    choice between them. *)

From S2P Require Import Prelude Externals Json Text Trust Slice Denylist RedactText RedactXml Redaction.
From Stdlib Require Import Ascii.

Open Scope list_scope.
Open Scope nat_scope.

Definition REDACT_LOG_KEYS : list string :=
  ["pre-shared-key"; "secret"; "simple-password"; "encrypted-password"; "community"; "hmac-key";
   "authentication-key"; "authentication-password"; "privacy-password"; "privacy-key"; "password";
   "chap-secret"; "default-chap-secret"; "local-password"; "hello-authentication-key";
   "plain-text-password-value"; "key"; "value"].

Definition is_extra_secret_element (local_name : string) : bool :=
  existsb (String.eqb local_name) REDACT_LOG_KEYS && negb (is_denylisted_key local_name).

(** ** Words and tokens *)

Definition is_word_char (byte : ascii) : bool := is_ident byte.

Fixpoint run_length (p : ascii -> bool) (s : string) : nat :=
  match s with
  | EmptyString => 0
  | String c s => if p c then S (run_length p s) else 0
  end.

Definition word_end (line : string) (start : nat) : nat := start + run_length is_word_char (str_drop start line).

(** The last element of [word.rsplit('-')] is its first piece from the right. *)
Definition last_segment (word : string) : string := List.last (str_split "-" word) word.

Definition matches_sensitive_key_suffix (word : string) : bool :=
  ends_with "-password-value" word || existsb (String.eqb (last_segment word)) ["password"; "secret"; "key"].

Definition SET_CONTEXT_STOPWORDS : list string :=
  ["the"; "a"; "an"; "this"; "that"; "these"; "those"; "my"; "your"; "our"; "his"; "her"; "its"; "their"].

Definition is_config_identifier (token : string) : bool :=
  negb (is_empty_str token)
  && str_forall (fun b => is_ident b || Ascii.eqb b "/" || Ascii.eqb b "." || Ascii.eqb b ":") token.

(** [prev] says whether the byte before [s] is a word character. *)
Fixpoint set_word_ends (i : nat) (prev : bool) (s : string) : option nat :=
  match s with
  | EmptyString => None
  | String c s' =>
      match set_word_ends (S i) (is_word_char c) s' with
      | Some e => Some e
      | None =>
          match strip_prefix "set" s with
          | Some rest =>
              if negb prev && match rest with String d _ => negb (is_word_char d) | EmptyString => true end
              then Some (i + 3) else None
          | None => None
          end
      end
  end.

Definition rightmost_set_word_end (prefix : string) : option nat := set_word_ends 0 false prefix.

Definition is_quote (c : ascii) : bool := Ascii.eqb c "'" || Ascii.eqb c DQUOTE.

Definition set_statement_precedes (line : string) (key_start : nat) : bool :=
  let prefix := str_take key_start line in
  match rightmost_set_word_end prefix with
  | None => false
  | Some set_end =>
      forallb (fun token =>
        let trimmed := trim_matches is_quote token in
        is_config_identifier trimmed && negb (existsb (String.eqb trimmed) SET_CONTEXT_STOPWORDS))
        (split_whitespace (str_drop set_end prefix))
  end.

Definition VALUE_QUALIFIERS : list string := ["ascii-text"; "hexadecimal"; "plain-text"; "encrypted"].

Definition QUOT_ENTITY : string := "&quot;".

Definition bytes_start_with (line : string) (pos : nat) (needle : string) : bool := starts_with needle (str_drop pos line).

(** A bare token runs until white space or a semicolon. *)
Definition is_bare (c : ascii) : bool :=
  negb (Ascii.eqb c " " || Ascii.eqb c TAB || Ascii.eqb c LF || Ascii.eqb c CR || Ascii.eqb c ";").

Definition token_bounds (line : string) (pos : nat) : nat * nat := (pos, pos + run_length is_bare (str_drop pos line)).

(** The length of a quoted token behind its opening quote, the closing quote
    included. *)
Fixpoint quoted_length (quote : ascii) (s : string) : nat :=
  match s with
  | EmptyString => 0
  | String c s =>
      if Ascii.eqb c quote then 1
      else if Ascii.eqb c LF then 0
      else match s with
           | String d s' => if Ascii.eqb c "\" && Ascii.eqb d quote then 2 + quoted_length quote s'
                            else 1 + quoted_length quote s
           | EmptyString => 1
           end
  end.

Definition quot_entity_length (s : string) : nat :=
  match find_str QUOT_ENTITY s with
  | Some i => i + slen QUOT_ENTITY
  | None => slen s
  end.

Definition value_token (line : string) (pos : nat) : option (nat * nat) :=
  match str_drop pos line with
  | EmptyString => None
  | String first rest =>
      if is_quote first then Some (pos, pos + 1 + quoted_length first rest)
      else if bytes_start_with line pos QUOT_ENTITY then
        Some (pos, pos + slen QUOT_ENTITY + quot_entity_length (str_drop (pos + slen QUOT_ENTITY) line))
      else
        let '(start, end_) := token_bounds line pos in
        if start =? end_ then None else Some (start, end_)
  end.

Definition skip_blanks (line : string) (pos : nat) : nat := pos + run_length is_indent (str_drop pos line).

Definition byte_at (line : string) (pos : nat) (c : ascii) : bool :=
  match String.get pos line with Some d => Ascii.eqb d c | None => false end.

Definition redactable_value (line : string) (after_key : nat) (set_context : bool) : option (nat * nat) :=
  let scan := skip_blanks line after_key in
  if byte_at line scan "=" then value_token line (skip_blanks line (scan + 1))
  else if negb (byte_at line after_key " " || byte_at line after_key TAB) then None
  else
    let pos := skip_blanks line after_key in
    if slen line <=? pos then None
    else
      let '(tok_start, tok_end) := token_bounds line pos in
      let qualifier_present := existsb (String.eqb (slice line tok_start tok_end)) VALUE_QUALIFIERS in
      let pos := if qualifier_present then skip_blanks line tok_end else pos in
      if qualifier_present && (slen line <=? pos) then None
      else
        match value_token line pos with
        | None => None
        | Some (value_start, value_end) =>
            let quoted := byte_at line value_start DQUOTE || byte_at line value_start "'"
                          || bytes_start_with line value_start QUOT_ENTITY in
            let terminated := byte_at line value_end ";" in
            let opens_block := byte_at line (skip_blanks line value_end) "{" in
            let hash := looks_like_secret_value (slice line value_start value_end) in
            if quoted || qualifier_present || terminated || opens_block || hash || set_context
            then Some (value_start, value_end) else None
        end.

Definition is_token_delimiter (byte : ascii) : bool :=
  bool_decide (byte ∈ [" "; TAB; LF; CR; ";"; "<"; ">"; DQUOTE; "'"; ","; ")"; "]"; "}"]%char).

Definition floor_value_token (line : string) (pos : nat) : option (nat * nat) :=
  match str_drop pos line with
  | EmptyString => None
  | String first _ =>
      if is_quote first || bytes_start_with line pos QUOT_ENTITY then value_token line pos
      else
        let end_ := pos + run_length (fun c => negb (is_token_delimiter c)) (str_drop pos line) in
        if end_ =? pos then None else Some (pos, end_)
  end.

Definition token_inner_for_shape_check (line : string) (start end_ : nat) : string :=
  match String.get start line with
  | Some close =>
      if (start <? end_) && is_quote close then
        if (2 <=? end_ - start) && byte_at line (end_ - 1) close then slice line (start + 1) (end_ - 1)
        else slice line (start + 1) end_
      else if bytes_start_with line start QUOT_ENTITY then
        let qlen := slen QUOT_ENTITY in
        if (start + 2 * qlen <=? end_) && bytes_start_with line (end_ - qlen) QUOT_ENTITY
        then slice line (start + qlen) (end_ - qlen)
        else slice line (start + qlen) end_
      else slice line start end_
  | None => slice line start end_
  end.

(** ** One line *)

Definition preceded_by (line : string) (idx : nat) (p : ascii -> bool) : bool :=
  match idx with
  | O => false
  | S i => match String.get i line with Some c => p c | None => false end
  end.

(** The first key that stands at [idx] as a whole word: where it ends. *)
Fixpoint key_at (line : string) (idx : nat) (keys : list string) : option nat :=
  match keys with
  | [] => None
  | key :: keys =>
      match strip_prefix key (str_drop idx line) with
      | Some rest =>
          if match rest with String c _ => negb (is_word_char c) | EmptyString => true end
          then Some (idx + slen key) else key_at line idx keys
      | None => key_at line idx keys
      end
  end.

(** What is replaced at [idx]: where the kept text ends and where the scan
    goes on. *)
Definition keyed_match (line : string) (audit_context : bool) (idx : nat) : option (nat * nat) :=
  if preceded_by line idx is_word_char then None
  else
    let set_context := audit_context || set_statement_precedes line idx in
    let by_key :=
      match key_at line idx REDACT_LOG_KEYS with
      | Some end_ => redactable_value line end_ set_context
      | None => None
      end in
    match by_key with
    | Some r => Some r
    | None =>
        let end_ := word_end line idx in
        if (idx <? end_) && set_context && matches_sensitive_key_suffix (slice line idx end_)
        then redactable_value line end_ set_context else None
    end.

Definition floor_match (line : string) (idx : nat) : option (nat * nat) :=
  if preceded_by line idx is_ascii_alphanumeric then None
  else
    match floor_value_token line idx with
    | None => None
    | Some (value_start, value_end) =>
        let inner := token_inner_for_shape_check line value_start value_end in
        if negb (is_empty_str inner) && looks_like_secret_value inner then Some (idx, value_end) else None
    end.

(** The scan from [idx] on; [None] if [fuel] is not enough. *)
Fixpoint redact_from (fuel : nat) (line : string) (audit_context : bool) (idx : nat) : option string :=
  if slen line <=? idx then Some ""
  else
    match fuel with
    | O => None
    | S fuel =>
        match match keyed_match line audit_context idx with Some r => Some r | None => floor_match line idx end with
        | Some (value_start, value_end) =>
            match redact_from fuel line audit_context value_end with
            | Some out => Some (slice line idx value_start +:+ PLACEHOLDER +:+ out)
            | None => None
            end
        | None =>
            let next := idx + first_char_len (str_drop idx line) in
            match redact_from fuel line audit_context next with
            | Some out => Some (slice line idx next +:+ out)
            | None => None
            end
        end
    end.

Definition redact_log_line (line : string) : option string :=
  redact_from (slen line) line (contains_str "set:" line) 0.

(** ** Whole artefacts *)

(** [str::split_inclusive('\n')]. *)
Fixpoint split_inclusive (sep : ascii) (s : string) : list string :=
  match s with
  | EmptyString => []
  | String c s =>
      if Ascii.eqb c sep then String c "" :: split_inclusive sep s
      else match split_inclusive sep s with
           | [] => [String c ""]
           | x :: l => String c x :: l
           end
  end.

Fixpoint redact_log_lines (lines : list string) : option string :=
  match lines with
  | [] => Some ""
  | line :: lines =>
      match redact_log_line line, redact_log_lines lines with
      | Some a, Some b => Some (a +:+ b)
      | _, _ => None
      end
  end.

Definition redact_log_text (policy : RedactionPolicy) (input : string) : option string :=
  if is_disabled policy then Some input else redact_log_lines (split_inclusive LF input).

Definition looks_like_xml_shaped (input : string) : bool :=
  match trim_start_ws input with
  | String a (String c _) =>
      Ascii.eqb a "<"
      && (is_ascii_alphabetic c || Ascii.eqb c "_" || Ascii.eqb c ":" || Ascii.eqb c "?" || Ascii.eqb c "!")
  | _ => false
  end.

Section xml.
Context `{QuickXml}.

Definition redact_xml (policy : RedactionPolicy) (input : string) : result string RedactError :=
  if is_disabled policy then
    check? validate input;
    Ok input
  else redact_with input is_extra_secret_element.

Definition redact_log_artefact (policy : RedactionPolicy) (input : string) : result (option string) RedactError :=
  if looks_like_xml_shaped input then
    let? redacted := redact_xml policy input in
    Ok (redact_log_text policy redacted)
  else Ok (redact_log_text policy (RedactText.redact input)).

End xml.

(** ** Tokens lie in the line *)

Lemma run_length_le p s : run_length p s <= slen s.
Proof. induction s as [|c s IH]; cbn; [lia|]. destruct (p c); lia. Qed.

Lemma run_length_take p s : str_forall p (str_take (run_length p s) s) = true.
Proof. induction s as [|c s IH]; [done|]. cbn. destruct (p c) eqn:E; [|done]. cbn. by rewrite E. Qed.

Lemma quoted_length_le q s : quoted_length q s <= slen s.
Proof.
  remember (slen s) as n eqn:E. revert s E. induction (lt_wf n) as [n _ IH]. intros [|c s] ->; cbn; [lia|].
  destruct (Ascii.eqb c q); [lia|]. destruct (Ascii.eqb c LF); [lia|]. destruct s as [|d s]; [cbn; lia|].
  destruct (_ && _).
  - pose proof (IH (slen s) ltac:(cbn; lia) s eq_refl). cbn. lia.
  - pose proof (IH (slen (String d s)) ltac:(cbn; lia) (String d s) eq_refl) as Hi. cbn in Hi |- *. lia.
Qed.

Lemma quot_entity_length_le s : quot_entity_length s <= slen s.
Proof.
  unfold quot_entity_length. destruct (find_str QUOT_ENTITY s) as [i|] eqn:E; [|done].
  apply find_str_Some in E as (a&b&->&<-). rewrite !str_length_app. cbn. lia.
Qed.

Lemma starts_with_len p s : starts_with p s = true -> slen p <= slen s.
Proof. intros (t&->)%starts_with_spec. rewrite str_length_app. lia. Qed.

Lemma value_token_bounds line pos s e : value_token line pos = Some (s, e) -> s = pos /\ pos < e /\ e <= slen line.
Proof.
  unfold value_token. pose proof (drop_len pos line) as Hd. destruct (str_drop pos line) as [|c rest] eqn:E; [done|].
  cbn in Hd. destruct (is_quote c).
  { intros [= <- <-]. pose proof (quoted_length_le c rest). split_and!; [done|lia|lia]. }
  destruct (bytes_start_with line pos QUOT_ENTITY) eqn:Eb.
  { apply starts_with_len in Eb. rewrite drop_len in Eb. intros [= <- <-].
    pose proof (quot_entity_length_le (str_drop (pos + slen QUOT_ENTITY) line)) as Hq. rewrite drop_len in Hq. cbn in *.
    split_and!; [done|lia|lia]. }
  unfold token_bounds. destruct (Nat.eqb_spec pos (pos + run_length is_bare (str_drop pos line))) as [|Hne]; [done|].
  intros [= <- <-]. pose proof (run_length_le is_bare (str_drop pos line)) as Hr. rewrite drop_len in Hr. split_and!; [done|lia|lia].
Qed.

Lemma skip_blanks_ge line pos : pos <= skip_blanks line pos.
Proof. unfold skip_blanks. lia. Qed.

Lemma redactable_value_token line after ctx s e :
  redactable_value line after ctx = Some (s, e) -> after <= s /\ value_token line s = Some (s, e).
Proof.
  unfold redactable_value.
  assert (forall pos r, value_token line pos = Some r -> after <= pos -> r = (s, e) -> after <= s /\ value_token line s = Some (s, e)) as Hok.
  { intros pos r Hv Hp ->. destruct (value_token_bounds _ _ _ _ Hv) as [-> _]. done. }
  pose proof (skip_blanks_ge line after) as Hs. set (scan := skip_blanks line after) in *.
  destruct (byte_at line scan "=").
  { intros Hv. apply (Hok _ _ Hv); [|done]. pose proof (skip_blanks_ge line (scan + 1)). lia. }
  destruct (negb _); [done|]. destruct (slen line <=? scan); [done|]. unfold token_bounds.
  pose proof (skip_blanks_ge line (scan + run_length is_bare (str_drop scan line))) as Hq.
  destruct (existsb _ _); cbn [andb].
  - destruct (_ <=? _); [done|].
    destruct (value_token line (skip_blanks line (scan + run_length is_bare (str_drop scan line)))) as [[vs ve]|] eqn:Ev; [|done].
    destruct (_ || _); [|done]. intros [= <- <-]. apply (Hok _ _ Ev); [lia|done].
  - destruct (value_token line scan) as [[vs ve]|] eqn:Ev; [|done].
    destruct (_ || _); [|done]. intros [= <- <-]. apply (Hok _ _ Ev); [lia|done].
Qed.

Lemma key_at_gt line idx keys e : Forall (fun k => k <> "") keys -> key_at line idx keys = Some e -> idx < e.
Proof.
  induction 1 as [|k keys Hk _ IH]; cbn; [done|]. destruct (strip_prefix _ _); [|done].
  destruct (match s with String _ _ => _ | EmptyString => _ end); [|done]. intros [= <-]. destruct k; [done|]. cbn. lia.
Qed.

Lemma log_keys_nonempty : Forall (fun k => k <> "") REDACT_LOG_KEYS.
Proof. repeat constructor; done. Qed.

(** A match at [idx] replaces one token behind it. *)
Lemma keyed_match_token line ctx idx s e :
  keyed_match line ctx idx = Some (s, e) -> idx < s /\ value_token line s = Some (s, e).
Proof.
  unfold keyed_match. destruct (preceded_by _ _ _); [done|]. set (c := ctx || _). intros Hm.
  assert (forall after, idx < after -> redactable_value line after c = Some (s, e) -> idx < s /\ value_token line s = Some (s, e)) as Hr.
  { intros after Ha [? ?]%redactable_value_token. split; [lia|done]. }
  destruct (match key_at _ _ _ with Some _ => _ | None => _ end) as [[vs ve]|] eqn:Ek.
  - injection Hm as -> ->. destruct (key_at line idx REDACT_LOG_KEYS) as [k|] eqn:Ea; [|done].
    apply (Hr k); [|done]. by eapply key_at_gt, Ea; apply log_keys_nonempty.
  - destruct (Nat.ltb_spec idx (word_end line idx)) as [Hw|]; [|done]. cbn [andb] in Hm.
    destruct (_ && _); [|done]. by apply (Hr (word_end line idx)).
Qed.

Lemma floor_token_bounds line pos s e : floor_value_token line pos = Some (s, e) -> s = pos /\ pos < e /\ e <= slen line.
Proof.
  unfold floor_value_token. pose proof (drop_len pos line) as Hd. destruct (str_drop pos line) as [|c rest] eqn:E; [done|].
  destruct (_ || _); [by apply value_token_bounds|]. set (n := run_length _ _).
  pose proof (run_length_le (fun c => negb (is_token_delimiter c)) (String c rest)) as Hn. fold n in Hn. clearbody n.
  destruct (Nat.eqb_spec (pos + n) pos) as [|Hne]; [done|]. intros [= <- <-]. cbn in Hn, Hd. split_and!; [done|lia|lia].
Qed.

Lemma first_char_bounds s : s <> "" -> 1 <= first_char_len s <= slen s.
Proof.
  destruct s as [|c s]; [done|]. intros _. cbn. assert (continuations s <= slen s); [|lia].
  induction s as [|d s IH]; cbn; [lia|]. destruct (is_continuation d); lia.
Qed.

(** ** The scan only replaces *)

(** [replaced P s t]: [t] is [s] with some pieces, each as [P] says, replaced by
    the placeholder. *)
Inductive replaced (P : string -> Prop) : string -> string -> Prop :=
| replaced_nil : replaced P "" ""
| replaced_keep a s t : replaced P s t -> replaced P (a +:+ s) (a +:+ t)
| replaced_span a s t : P a -> replaced P s t -> replaced P (a +:+ s) (PLACEHOLDER +:+ t).

Definition no_newline (a : string) : Prop := contains_char LF a = false.

(** A token: not empty, and without a line feed where no quote is written as
    an entity. *)
Definition is_token (whole a : string) : Prop :=
  a <> "" /\ (contains_str QUOT_ENTITY whole = false -> no_newline a).

Lemma no_newline_all p s : (forall c, p c = true -> Ascii.eqb LF c = false) -> str_forall p s = true -> no_newline s.
Proof.
  intros Hp. unfold no_newline, contains_char. induction s as [|c s IH]; [done|]. cbn.
  intros [Hc Hs]%andb_true_iff. by rewrite (Hp c Hc), IH.
Qed.

Lemma quoted_length_newline q s : Ascii.eqb LF q = false -> no_newline (str_take (quoted_length q s) s).
Proof.
  intros Hq. remember (slen s) as n eqn:E. revert s E. induction (lt_wf n) as [n _ IH]. intros [|c s] ->; [done|].
  cbn [quoted_length]. destruct (Ascii.eqb_spec c q) as [->|Hcq].
  { unfold no_newline, contains_char. cbn [str_take str_exists]. by rewrite Hq. }
  destruct (Ascii.eqb c LF) eqn:Hl; [done|]. rewrite Ascii.eqb_sym in Hl. destruct s as [|d s].
  { unfold no_newline, contains_char. cbn [str_take str_exists]. by rewrite Hl. }
  destruct (Ascii.eqb c "\" && Ascii.eqb d q) eqn:Ee.
  - apply andb_true_iff in Ee as [_ ->%Ascii.eqb_eq]. pose proof (IH (slen s) ltac:(cbn; lia) s eq_refl) as Hi.
    unfold no_newline, contains_char in *. cbn [Nat.add str_take str_exists]. by rewrite Hl, Hq, Hi.
  - pose proof (IH (slen (String d s)) ltac:(cbn; lia) (String d s) eq_refl) as Hi.
    unfold no_newline, contains_char in *. cbn [Nat.add]. cbn [str_take str_exists]. by rewrite Hl, Hi.
Qed.

Lemma entity_absent line pos : contains_str QUOT_ENTITY line = false -> bytes_start_with line pos QUOT_ENTITY = false.
Proof.
  intros H. unfold bytes_start_with. destruct (starts_with _ _) eqn:E; [|done].
  apply starts_with_spec in E as [t Ht]. rewrite <-(take_drop pos line), Ht in H.
  assert (contains_str QUOT_ENTITY (str_take pos line +:+ QUOT_ENTITY +:+ t) = true) as Hc.
  { apply contains_str_spec. by exists (str_take pos line), t. }
  congruence.
Qed.

Lemma slice_from line pos n : slice line pos (pos + n) = str_take n (str_drop pos line).
Proof. unfold slice. by replace (pos + n - pos) with n by lia. Qed.

Lemma slice_nonempty line a b : a < b -> b <= slen line -> slice line a b <> "".
Proof. intros ?? E. apply (f_equal slen) in E. rewrite slice_len in E by lia. cbn in E. lia. Qed.

Lemma bare_not_newline c : is_bare c = true -> Ascii.eqb LF c = false.
Proof.
  unfold is_bare. rewrite negb_true_iff, !orb_false_iff. intros [[[[_ _] H] _] _]. by rewrite Ascii.eqb_sym.
Qed.

Lemma quote_not_newline c : is_quote c = true -> Ascii.eqb LF c = false.
Proof. unfold is_quote. intros [->%Ascii.eqb_eq| ->%Ascii.eqb_eq]%orb_true_iff; done. Qed.

Lemma value_token_newline line pos s e :
  contains_str QUOT_ENTITY line = false -> value_token line pos = Some (s, e) -> no_newline (slice line s e).
Proof.
  intros Hn Hv. pose proof (value_token_bounds _ _ _ _ Hv) as (->&_&_). revert Hv. unfold value_token.
  destruct (str_drop pos line) as [|c rest] eqn:E; [done|]. rewrite entity_absent by done. destruct (is_quote c) eqn:Eq.
  - intros [= <-]. rewrite <-Nat.add_assoc, slice_from, E. cbn [Nat.add str_take]. unfold no_newline, contains_char. cbn [str_exists].
    pose proof (quoted_length_newline c rest (quote_not_newline c Eq)) as Hq. unfold no_newline, contains_char in Hq.
    by rewrite (quote_not_newline c Eq), Hq.
  - unfold token_bounds. destruct (_ =? _); [done|]. intros [= <-]. rewrite slice_from.
    apply (no_newline_all is_bare); [apply bare_not_newline|apply run_length_take].
Qed.

Lemma floor_token_newline line pos s e :
  contains_str QUOT_ENTITY line = false -> floor_value_token line pos = Some (s, e) -> no_newline (slice line s e).
Proof.
  intros Hn Hv. pose proof (floor_token_bounds _ _ _ _ Hv) as (->&_&_). revert Hv. unfold floor_value_token.
  destruct (str_drop pos line) as [|c rest] eqn:E; [done|]. destruct (_ || _); [by apply value_token_newline|].
  destruct (_ =? _); [done|]. intros [= <-]. rewrite slice_from, E.
  apply (no_newline_all (fun c => negb (is_token_delimiter c)));
    [|exact (run_length_take (fun c => negb (is_token_delimiter c)) (String c rest))].
  intros d Hd. destruct (Ascii.eqb_spec LF d) as [<-|]; [discriminate Hd|done].
Qed.

(** What the scan replaces at [idx] is a token of the line. *)
Lemma match_token line ctx idx s e :
  match keyed_match line ctx idx with Some r => Some r | None => floor_match line idx end = Some (s, e) ->
  idx <= s /\ s < e /\ e <= slen line /\ is_token line (slice line s e).
Proof.
  intros Hm. destruct (keyed_match line ctx idx) as [r|] eqn:Ek.
  - injection Hm as ->. apply keyed_match_token in Ek as [Hi Hv]. destruct (value_token_bounds _ _ _ _ Hv) as (_&?&?).
    split_and!; [lia|done|done|]. split; [by apply slice_nonempty|]. intros Hn. by apply (value_token_newline line s).
  - unfold floor_match in Hm. destruct (preceded_by _ _ _); [done|].
    destruct (floor_value_token line idx) as [[vs ve]|] eqn:Ef; [|done]. destruct (_ && _); [|done]. injection Hm as <- <-.
    destruct (floor_token_bounds _ _ _ _ Ef) as (->&?&?). split_and!; [done|done|done|].
    split; [by apply slice_nonempty|]. intros Hn. by apply (floor_token_newline line idx).
Qed.

Lemma drop_slice line a b : a <= b -> str_drop a line = slice line a b +:+ str_drop b line.
Proof.
  intros Hab. unfold slice. replace b with (a + (b - a)) at 2 by lia. by rewrite <-drop_drop, take_drop.
Qed.

(** The scan ends, whatever the line, and only replaces tokens. *)
Lemma redact_from_total fuel line ctx idx :
  slen line <= idx + fuel -> exists out, redact_from fuel line ctx idx = Some out /\ replaced (is_token line) (str_drop idx line) out.
Proof.
  revert idx. induction fuel as [|fuel IH]; intros idx Hf; cbn [redact_from];
    destruct (Nat.leb_spec (slen line) idx) as [Hle|Hlt]; try lia.
  1,2: exists ""; rewrite drop_all by done; split; [done|constructor].
  destruct (match keyed_match line ctx idx with Some r => Some r | None => floor_match line idx end) as [[vs ve]|] eqn:Em.
  - apply match_token in Em as (?&?&?&Ht). destruct (IH ve) as (out&->&Hr); [lia|]. eexists. split; [done|].
    rewrite (drop_slice line idx vs), (drop_slice line vs ve) by lia. apply replaced_keep. by apply replaced_span.
  - assert (str_drop idx line <> "") as Hne.
    { intros E. apply (f_equal slen) in E. rewrite drop_len in E. cbn in E. lia. }
    pose proof (first_char_bounds _ Hne) as [??]. set (n := first_char_len (str_drop idx line)) in *.
    destruct (IH (idx + n)) as (out&->&Hr); [lia|]. eexists. split; [done|].
    rewrite (drop_slice line idx (idx + n)) by lia. by apply replaced_keep.
Qed.

(** ** Lines of an artefact *)

Lemma split_inclusive_concat sep s : foldr String.append "" (split_inclusive sep s) = s.
Proof.
  induction s as [|c s IH]; [done|]. cbn [split_inclusive]. destruct (Ascii.eqb c sep).
  - cbn [foldr]. by rewrite IH.
  - destruct (split_inclusive sep s) as [|x l]; cbn [foldr] in *; [by subst|]. change (String c (x +:+ foldr String.append "" l) = String c s).
    by rewrite IH.
Qed.

Lemma replaced_mono (P Q : string -> Prop) s t : (forall a, P a -> Q a) -> replaced P s t -> replaced Q s t.
Proof. intros H. induction 1; econstructor; eauto. Qed.

Lemma replaced_app P s t s' t' : replaced P s t -> replaced P s' t' -> replaced P (s +:+ s') (t +:+ t').
Proof.
  intros H H'. induction H as [|a s t H IH|a s t Ha H IH]; [done|..]; rewrite !str_app_assoc; by constructor.
Qed.

Lemma redact_log_lines_total whole lines :
  (forall line, line ∈ lines -> contains_str QUOT_ENTITY whole = false -> contains_str QUOT_ENTITY line = false) ->
  exists out, redact_log_lines lines = Some out /\ replaced (is_token whole) (foldr String.append "" lines) out.
Proof.
  induction lines as [|line lines IH]; intros Hw; [exists ""; split; [done|constructor]|]. cbn [redact_log_lines foldr].
  destruct (redact_from_total (slen line) line (contains_str "set:" line) 0) as (a&Ha&Hra); [lia|].
  unfold redact_log_line. rewrite Ha. destruct IH as (b&->&Hrb).
  { intros l Hl. apply Hw. by right. }
  eexists. split; [done|]. apply replaced_app; [|done]. apply (replaced_mono (is_token line)); [|done].
  intros x [Hne Hx]. split; [done|]. intros Hn. apply Hx, Hw; [by left|done].
Qed.

Lemma count_char_none c s : contains_char c s = false -> count_char c s = 0.
Proof. unfold contains_char. induction s as [|d s IH]; [done|]. cbn. by intros [-> ?%IH]%orb_false_iff. Qed.

Lemma replaced_newlines (P : string -> Prop) s t :
  (forall a, P a -> no_newline a) -> replaced P s t -> count_char LF t = count_char LF s.
Proof.
  intros HP. induction 1 as [|a s t H IH|a s t Ha H IH]; [done|..]; rewrite !count_char_app, IH; [done|].
  by rewrite (count_char_none LF a) by (by apply HP).
Qed.

(** ** The property *)

(** The log scan is total and only replaces: it ends on every text, its
    result is the text with some of its tokens replaced by the placeholder, and
    as long as no quote is written as an entity it keeps every line break. *)
Theorem log_scan_only_replaces policy input :
  exists out,
    redact_log_text policy input = Some out /\ replaced (is_token input) input out
    /\ (contains_str QUOT_ENTITY input = false -> count_char LF out = count_char LF input).
Proof.
  unfold redact_log_text. destruct (is_disabled policy).
  { exists input. split_and!; [done| |done]. rewrite <-(str_app_nil_r input) at 2 3. repeat constructor. }
  destruct (redact_log_lines_total input (split_inclusive LF input)) as (out&Ho&Hr).
  { intros line Hl Hn. destruct (contains_str QUOT_ENTITY line) eqn:E; [|done]. rewrite <-Hn.
    rewrite <-(split_inclusive_concat LF input). symmetry. clear -Hl E.
    induction (split_inclusive LF input) as [|x l IH]; [by apply elem_of_nil in Hl|]. cbn [foldr].
    apply elem_of_cons in Hl as [<-|Hl].
    - rewrite <-(str_app_nil (line +:+ _)). by apply contains_str_mid.
    - rewrite <-(str_app_nil_r (foldr _ _ _)). apply contains_str_mid, IH, Hl. }
  rewrite split_inclusive_concat in Hr. exists out. split_and!; [done|done|].
  intros Hn. apply (replaced_newlines (is_token input)); [|done]. by intros a [_ ?]; auto.
Qed.
