(* ===== verification/ToolResult.v ===== *)
(** * Results of tool handlers

    crates/mecmcp-server/src/lib.rs: bounded text and lists, tool errors with
    and without the device's own words, and the conversion of a domain result
    into a redacted, bounded tool result. *)

From S2P Require Import Prelude Externals Json Digest Text Trust Slice Denylist RedactText RedactJson RedactXml Redaction.
From Stdlib Require Import Ascii.

Open Scope list_scope.

Inductive ResultFormat := PrettyJson | StringOrPrettyJson.

Inductive OutputRedaction :=
| Apply
| SkipForInternalRead (tool reason : string)
| AlreadyRedacted (tool redacted_by : string).

Record ResultLimits := { max_text_bytes : N; max_json_bytes : N }.

(** ** Bounded values *)

Record BoundedText := { bt_text : string; bt_truncated : bool; bt_original_bytes : nat; bt_omitted_bytes : nat }.

Definition bounded_text (input : string) (max_bytes : nat) : BoundedText :=
  let original_bytes := String.length input in
  if (original_bytes <=? max_bytes)%nat
  then {| bt_text := input; bt_truncated := false; bt_original_bytes := original_bytes; bt_omitted_bytes := 0 |}
  else
    let end_ := boundary_below input (Nat.min max_bytes original_bytes) in
    {| bt_text := str_take end_ input; bt_truncated := true; bt_original_bytes := original_bytes;
       bt_omitted_bytes := original_bytes - end_ |}.

Record TruncatedItems (T : Type) := { ti_items : list T; ti_truncated : bool; ti_shown : nat; ti_total : nat }.
#[global] Arguments ti_items {T} _.
#[global] Arguments ti_truncated {T} _.
#[global] Arguments ti_shown {T} _.
#[global] Arguments ti_total {T} _.

Definition marker {T} (t : TruncatedItems T) : option string :=
  if ti_truncated t
  then Some ("truncated: " +:+ pretty (ti_shown t) +:+ " of " +:+ pretty (ti_total t) +:+ " shown") else None.

Definition truncate_items {T} (items : list T) (max_items : nat) : TruncatedItems T :=
  let total := length items in
  if (total <=? max_items)%nat
  then {| ti_items := items; ti_truncated := false; ti_shown := total; ti_total := total |}
  else
    let items := take max_items items in
    {| ti_items := items; ti_truncated := true; ti_shown := length items; ti_total := total |}.

(** ** Errors *)

(** [rmcp::model::CallToolResult] with text blocks. *)
Record CallToolResult := { ctr_is_error : bool; ctr_content : list string }.

Definition error_block (text : string) : CallToolResult := {| ctr_is_error := true; ctr_content := [text] |}.

Definition tool_error (policy : RedactionPolicy) (error : string) : CallToolResult :=
  error_block (redact_text policy error).

(** [hash] is what the rendering draws for its tags. *)
Definition tool_error_with_untrusted_detail (policy : RedactionPolicy) (hash : N) (context detail source : string) :
    CallToolResult :=
  error_block (redact_text policy context +:+ newline +:+ render_tagged hash source (redact_text policy detail)).

(** ** Results *)

Record SerializedValue := { sv_text : string; sv_json_bytes : N }.

Inductive ToolAudit :=
| OutputRedactionSkipped (tool reason : string)
| OutputRedactedByCaller (tool redacted_by : string).

Section result.
Context `{SerdeJson}.

Definition is_apply (redaction : OutputRedaction) : bool := match redaction with Apply => true | _ => false end.

Definition pretty_value (policy : RedactionPolicy) (apply : bool) (value : json) : SerializedValue :=
  let value := if apply then redact_json_value policy value else value in
  let text := json_to_string_pretty value in
  {| sv_text := text; sv_json_bytes := str_len text |}.

(** [value] is what [serde_json::to_value] makes of the handler's value. *)
Definition serialize_value (policy : RedactionPolicy) (value : result json string) (format : ResultFormat)
    (redaction : OutputRedaction) : result SerializedValue string :=
  let apply := is_apply redaction in
  match format with
  | PrettyJson => let? value := value in Ok (pretty_value policy apply value)
  | StringOrPrettyJson =>
      let? value := value in
      match value with
      | JString text =>
          let text := if apply then redact_text policy text else text in
          Ok {| sv_text := text; sv_json_bytes := str_len (json_to_string (JString text)) |}
      | value => Ok (pretty_value policy apply value)
      end
  end.

(** The result and the audit events. *)
Definition tool_result (policy : RedactionPolicy) (outcome : result (result json string) string)
    (format : ResultFormat) (limits : ResultLimits) (redaction : OutputRedaction) :
    CallToolResult * list ToolAudit :=
  match outcome with
  | Err error => (tool_error policy error, [])
  | Ok value =>
      let events :=
        match redaction with
        | Apply => []
        | SkipForInternalRead tool reason => [OutputRedactionSkipped tool reason]
        | AlreadyRedacted tool redacted_by => [OutputRedactedByCaller tool redacted_by]
        end in
      (match serialize_value policy value format redaction with
       | Err error => tool_error policy ("failed to serialize tool result: " +:+ error)
       | Ok serialized =>
           if (max_json_bytes limits <? sv_json_bytes serialized)%N
           then tool_error policy ("serialized JSON exceeds the " +:+ pretty (max_json_bytes limits) +:+ "-byte limit")
           else if (max_text_bytes limits <? str_len (sv_text serialized))%N
           then tool_error policy ("tool result text exceeds the " +:+ pretty (max_text_bytes limits) +:+ "-byte limit")
           else {| ctr_is_error := false; ctr_content := [sv_text serialized] |}
       end, events)
  end.

(** ** The properties of a result *)

(** What a successful result shows of [value]. *)
Definition shown_text (policy : RedactionPolicy) (format : ResultFormat) (apply : bool) (value : json) : string :=
  match format, value with
  | StringOrPrettyJson, JString text => if apply then redact_text policy text else text
  | _, _ => json_to_string_pretty (if apply then redact_json_value policy value else value)
  end.


End result.

(** ** Bounded text *)

(** A character starts, or the text ends, at [i]. *)
Definition starts_at (s : string) (i : nat) : bool :=
  match String.get i s with Some c => negb (is_continuation c) | None => (i =? String.length s)%nat end.

(** No four bytes in a row continue a character. *)
Lemma utf8_starts p s i :
  utf8_from p s = true -> (p <= 3)%nat -> (i <= String.length s)%nat ->
  (i < p)%nat \/ exists j, (j <= i <= j + 3)%nat /\ starts_at s j = true.
Proof.
  revert p i. induction s as [|c s IH]; intros p i Hu Hp Hi; cbn [utf8_from String.length] in *.
  { right. exists 0. apply Nat.eqb_eq in Hu. split; [lia|done]. }
  assert (forall k, (k <= 3)%nat -> utf8_from k s = true -> forall i', (i' <= String.length s)%nat ->
    (i' < k)%nat \/ exists j, (j <= S i' <= j + 3)%nat /\ starts_at (String c s) j = true) as Hnext.
  { intros k Hk Hs i' Hi'. destruct (IH k i' Hs Hk Hi') as [|(j&Hj&Hst)]; [by left|]. right. exists (S j). split; [lia|done]. }
  destruct p as [|k].
  - destruct (utf8_extra c) as [k|] eqn:Ek; [|done].
    assert (starts_at (String c s) 0 = true) as H0 by (unfold starts_at; cbn; by rewrite (extra_start _ _ Ek)).
    assert (k <= 3)%nat as Hk by (unfold utf8_extra in Ek; repeat case_match; naive_solver lia).
    right. destruct i as [|i]; [exists 0; split; [lia|done]|]. destruct (Hnext k Hk Hu i) as [Hlt|?]; [lia| |done].
    exists 0. split; [lia|done].
  - apply andb_true_iff in Hu as [_ Hu]. destruct i as [|i]; [left; lia|].
    destruct (Hnext k ltac:(lia) Hu i) as [|?]; [lia|left; lia|by right].
Qed.

Lemma starts_at_boundary s i : starts_at s i = true -> is_char_boundary s i = true.
Proof. unfold starts_at, is_char_boundary. intros ->. by rewrite orb_true_r. Qed.

Lemma utf8_take s i : utf8 s = true -> is_char_boundary s i = true -> (i <= String.length s)%nat -> utf8 (str_take i s) = true.
Proof.
  intros Hu Hb Hi. unfold is_char_boundary in Hb. destruct (String.get i s) as [c|] eqn:E.
  - apply get_Some_split in E as (a&b&->&<-). rewrite take_app. apply orb_true_iff in Hb as [H0%Nat.eqb_eq|Hc%negb_true_iff].
    + by destruct a.
    + by apply utf8_split in Hu as [? _].
  - destruct (Nat.eqb_spec i 0) as [->|]; [done|]. cbn in Hb. apply Nat.eqb_eq in Hb as ->. by rewrite take_all.
Qed.

(** Bounding text is exact: the result is a prefix of the text on a
    character boundary, at most the limit and at most three bytes below it, and
    it says what it omitted; text within the limit is left alone. *)
Theorem bounded_text_exact input max_bytes :
  utf8 input = true ->
  let b := bounded_text input max_bytes in
  (exists omitted, input = bt_text b +:+ omitted /\ String.length omitted = bt_omitted_bytes b)
  /\ utf8 (bt_text b) = true /\ (String.length (bt_text b) <= max_bytes)%nat
  /\ bt_original_bytes b = String.length input
  /\ bt_truncated b = (max_bytes <? String.length input)%nat
  /\ (if bt_truncated b then (max_bytes <= String.length (bt_text b) + 3)%nat else bt_omitted_bytes b = 0%nat).
Proof.
  intros Hu. unfold bounded_text. destruct (Nat.leb_spec (String.length input) max_bytes) as [Hle|Hgt].
  { cbn [bt_text bt_truncated bt_original_bytes bt_omitted_bytes]. split_and!; try done.
    - exists "". by rewrite str_app_nil_r.
    - symmetry. by apply Nat.ltb_ge. }
  rewrite Nat.min_l by lia. cbn [bt_text bt_truncated bt_original_bytes bt_omitted_bytes].
  destruct (boundary_below_spec input max_bytes) as (Hb&Hle&Hmax). set (e := boundary_below input max_bytes) in *.
  rewrite take_len, Nat.min_l by lia. split_and!; try done.
  - exists (str_drop e input). by rewrite take_drop, drop_len.
  - by apply utf8_take; [| |lia].
  - symmetry. by apply Nat.ltb_lt.
  - destruct (utf8_starts 0 input max_bytes Hu) as [|(j&Hj&Hst)]; [lia|lia|lia|].
    destruct (Nat.le_gt_cases j e) as [|Hlt]; [lia|].
    apply starts_at_boundary in Hst. rewrite Hmax in Hst by lia. done.
Qed.

(** ** Redacting a tagged block *)

(** A character that some secret shape, URL or SNMP clause needs. *)
Definition is_suspicious (c : ascii) : bool := bool_decide (c ∈ ["$"; "Q"; "N"; "B"; ":"; "p"; "P"; "#"]%char).

Lemma not_suspicious c s :
  is_suspicious c = true -> str_exists is_suspicious s = false -> contains_char c s = false.
Proof.
  intros Hc. unfold contains_char. induction s as [|d s IH]; [done|]. cbn. intros [Hd Hs]%orb_false_iff.
  rewrite IH by done. destruct (Ascii.eqb_spec c d) as [->|]; [congruence|done].
Qed.

Lemma str_exists_sub p a s b : str_exists p (a +:+ s +:+ b) = false -> str_exists p s = false.
Proof. rewrite !str_exists_app. by intros [_ [? _]%orb_false_iff]%orb_false_iff. Qed.

Lemma slice_sub p s a b : str_exists p s = false -> str_exists p (slice s a b) = false.
Proof.
  intros H. unfold slice. apply str_exists_take. rewrite <-(take_drop a s) in H. by rewrite str_exists_app in H; apply orb_false_iff in H as [_ ?].
Qed.

Lemma drop_sub p s a : str_exists p s = false -> str_exists p (str_drop a s) = false.
Proof. intros H. rewrite <-(take_drop a s), str_exists_app in H. by apply orb_false_iff in H as [_ ?]. Qed.

Lemma trim_start_sub p skip s : str_exists p s = false -> str_exists p (trim_start_from skip s) = false.
Proof.
  revert skip. induction s as [|c s IH]; intros skip Hs; [done|]. pose proof Hs as H'. cbn [str_exists] in H'.
  apply orb_false_iff in H' as [_ H']. cbn [trim_start_from]. destruct skip as [|k]; [|by apply IH].
  destruct (whitespace_width _) as [[|k]|]; [done|by apply IH|done].
Qed.

Lemma trim_end_blank_sub p s : str_exists p s = false -> str_exists p (trim_end_blank s) = false.
Proof.
  induction s as [|c s IH]; [done|]. intros Hs. pose proof Hs as H'. cbn [str_exists] in H'. apply orb_false_iff in H' as [Hc H'].
  cbn [trim_end_blank]. case_match; [done|]. cbn [str_exists]. by rewrite Hc, IH.
Qed.

Lemma trim_end_sub p q s : str_exists p s = false -> str_exists p (trim_end q s) = false.
Proof.
  intros H. destruct (trim_end_spec q s) as (post&E&_). rewrite E, str_exists_app in H. by apply orb_false_iff in H as [? _].
Qed.

Lemma trim_sub p s : str_exists p s = false -> str_exists p (trim s) = false.
Proof. intros H. by apply trim_end_blank_sub, trim_start_sub. Qed.

Lemma plain_value s : str_exists is_suspicious s = false -> looks_like_secret_value s = false.
Proof.
  intros H. unfold looks_like_secret_value. rewrite !orb_false_iff. split_and!.
  - unfold is_crypt_hash. destruct s as [|c s]; [done|]. destruct (Ascii.eqb_spec c "$") as [->|]; [|done].
    cbn in H. done.
  - apply (contains_absent "Q"); [done|]. by apply not_suspicious.
  - unfold is_enc_marker. destruct (strip_prefix "ENC" (trim_start_ws s)) as [t|] eqn:E; [|done].
    apply strip_prefix_Some in E. apply (trim_start_sub is_suspicious 0) in H. unfold trim_start_ws in E.
    rewrite E in H. done.
  - apply (contains_absent "B"); [done|]. by apply not_suspicious.
Qed.

Lemma plain_spans line spans : str_exists is_suspicious line = false -> secret_spans line spans = [].
Proof.
  intros H. unfold secret_spans. induction spans as [|sp spans IH]; [done|].
  rewrite filter_cons_False; [done|]. rewrite plain_value by (by apply slice_sub). done.
Qed.

Lemma plain_userinfo i skip s : str_exists is_suspicious s = false -> userinfo_from i skip s = [].
Proof.
  revert i skip. induction s as [|c s IH]; intros i skip H; [done|]. cbn [userinfo_from].
  assert (str_exists is_suspicious s = false) as Hs by (cbn in H; by apply orb_false_iff in H as [_ ?]).
  destruct skip as [|k]; [|by apply IH]. destruct (starts_with "://" (String c s)) eqn:E; [|by apply IH].
  apply starts_with_spec in E as [t E]. rewrite E in H. done.
Qed.

Lemma lowercase_p s : str_exists is_suspicious s = false -> contains_char "p" (to_lowercase s) = false.
Proof.
  unfold contains_char. induction s as [|c s IH]; [done|]. cbn [str_exists to_lowercase]. intros [Hc Hs]%orb_false_iff.
  rewrite IH by done. rewrite orb_false_r. destruct (Ascii.eqb_spec "p" (to_ascii_lower c)) as [E|]; [|done].
  exfalso. revert Hc E. clear. destruct c as [[] [] [] [] [] [] [] []]; vm_compute; done.
Qed.

Lemma plain_snmp line : str_exists is_suspicious line = false -> snmpv3_auth_priv_spans line = [].
Proof.
  intros H. unfold snmpv3_auth_priv_spans. assert (has_snmp_user line (whitespace_token_spans line) = false) as ->; [|done].
  induction (whitespace_token_spans line) as [|[s e] tokens IH]; [done|]. destruct tokens as [|[s' e'] tokens]; [done|].
  cbn [has_snmp_user]. rewrite orb_false_iff. split; [|done]. apply andb_false_iff. left.
  unfold eq_ignore_ascii_case. apply String.eqb_neq. intros E.
  pose proof (lowercase_p (slice line s e) (slice_sub _ _ _ _ H)) as Hp. rewrite E in Hp. done.
Qed.

(** A line without a secret name and without those characters is not touched. *)
Lemma plain_line line :
  str_exists is_suspicious line = false -> has_denylisted_key line = false -> redact_line line = line.
Proof.
  intros H Hk. unfold redact_line.
  assert (find_str SECRET_DATA line = None) as ->.
  { apply find_str_None, (contains_absent "#"); [done|]. by apply not_suspicious. }
  rewrite Hk. unfold redact_value_span, value_spans, shape_matching_spans.
  rewrite !plain_spans, plain_snmp by done. unfold userinfo_password_spans. rewrite plain_userinfo by done. cbn [app].
  unfold redact_tail. cbn [orb].
  assert (forall n, looks_like_secret_value (trim (str_drop n line)) = false) as Ht.
  { intros n. apply plain_value, trim_sub. by apply drop_sub. }
  rewrite (str_find_absent (Ascii.eqb ":") line) by (by apply not_suspicious).
  assert (match last_whitespace 0 line with
          | Some (i, w) => if negb (is_empty_str (trim_end (Ascii.eqb ";") (str_drop (i + w) line)))
                              && looks_like_secret_value (trim_end (Ascii.eqb ";") (str_drop (i + w) line))
                           then str_take (i + w) line +:+ PLACEHOLDER
                                +:+ str_drop (String.length (trim_end (Ascii.eqb ";") (str_drop (i + w) line))) (str_drop (i + w) line)
                           else line
          | None => if looks_like_secret_value line then PLACEHOLDER else line
          end = line) as Hb.
  { destruct (last_whitespace 0 line) as [[i w]|]; [|by rewrite plain_value].
    rewrite (plain_value (trim_end _ _)) by (by apply trim_end_sub, drop_sub). by rewrite andb_false_r. }
  destruct (str_rfind _ _); [rewrite Ht|]; exact Hb.
Qed.

(** The line that closes a tagged block. *)
Definition closing_line (hash : N) : string := CLOSING_TAG +:+ render_nonce hash +:+ dquote +:+ ">".

Lemma nonce_hex hash : str_forall is_lower_hex (render_nonce hash) = true.
Proof. apply bytes_hex_lower. Qed.

Lemma hex_absent p s : (forall c, is_lower_hex c = true -> p c = false) -> str_forall is_lower_hex s = true -> str_exists p s = false.
Proof. intros Hp. induction s as [|c s IH]; [done|]. cbn. intros [Hc Hs]%andb_true_iff. by rewrite Hp, IH. Qed.

Lemma closing_plain hash : str_exists is_suspicious (closing_line hash) = false.
Proof.
  unfold closing_line. rewrite !str_exists_app.
  rewrite (hex_absent is_suspicious (render_nonce hash)); [done| |apply nonce_hex].
  intros c Hc. apply bool_decide_eq_false. intros H.
  repeat (apply elem_of_cons in H as [->|H]; [done|]). by apply elem_of_nil in H.
Qed.

Lemma hex_ident c : is_lower_hex c = true -> is_ident c = true.
Proof.
  destruct c as [[] [] [] [] [] [] [] []]; vm_compute; done.
Qed.

Lemma hex_lower c : is_lower_hex c = true -> is_ascii_alphanumeric c = true /\ to_ascii_lower c = c.
Proof. destruct c as [[] [] [] [] [] [] [] []]; vm_compute; done. Qed.

Lemma normalize_hex s : str_forall is_lower_hex s = true -> normalize s = s.
Proof.
  unfold normalize. induction s as [|c s IH]; [done|]. cbn [str_forall]. intros [Hc Hs]%andb_true_iff.
  destruct (hex_lower c Hc) as [Ha Hl]. cbn [str_filter]. rewrite Ha. cbn [to_lowercase]. by rewrite Hl, IH.
Qed.

(** No word of hexadecimal digits is a secret name. *)
Lemma hex_not_denylisted s : str_forall is_lower_hex s = true -> is_denylisted_key s = false.
Proof.
  intros Hs. destruct (is_denylisted_key s) eqn:E; [|done]. exfalso.
  apply is_denylisted_key_spec in E. rewrite normalize_hex in E by done.
  destruct E as [->|(t&Hin&(a&b&->)%contains_str_spec)]; [done|].
  rewrite !str_forall_app, !andb_true_iff in Hs. destruct Hs as (_&Ht&_).
  assert (forallb (fun t => negb (str_forall is_lower_hex t)) DENYLISTED_KEYS = true) as Hall by done.
  rewrite forallb_forall in Hall. apply list_elem_of_In, Hall in Hin. by rewrite Ht in Hin.
Qed.

Lemma any_piece_app sep f word a c s :
  sep c = true -> any_piece sep f word (a +:+ String c s) = any_piece sep f word a || any_piece sep f "" s.
Proof.
  intros Hc. revert word. induction a as [|d a IH]; intros word; rewrite ?str_app_nil, ?str_app_cons; cbn [any_piece].
  - by rewrite Hc.
  - destruct (sep d); [by rewrite IH, orb_assoc|apply IH].
Qed.

Lemma closing_no_key hash : has_denylisted_key (closing_line hash) = false.
Proof.
  unfold has_denylisted_key, closing_line, CLOSING_TAG. rewrite str_app_assoc.
  change (dquote +:+ render_nonce hash +:+ dquote +:+ ">") with (String DQUOTE (render_nonce hash +:+ String DQUOTE ">")).
  rewrite any_piece_app by done. apply orb_false_iff. split; [by vm_compute|].
  rewrite any_piece_app by done. apply orb_false_iff. split; [|by vm_compute].
  rewrite <-(str_app_nil_r (render_nonce hash)), any_piece_word, str_app_nil.
  - cbn [any_piece]. apply hex_not_denylisted, nonce_hex.
  - apply hex_absent; [|apply nonce_hex]. intros c Hc%hex_ident. by rewrite Hc.
Qed.

Lemma hex_run_visible c : is_lower_hex c = true -> visible c = true.
Proof. destruct c as [[] [] [] [] [] [] [] []]; vm_compute; done. Qed.

(** Trimming leaves visible text with one space inside it alone. *)
Lemma trim_end_inner a b :
  str_forall visible a = true -> str_forall visible b = true -> b <> "" -> trim_end_blank (a +:+ String " " b) = a +:+ String " " b.
Proof.
  intros Ha Hb Hne. induction a as [|c a IH].
  - rewrite str_app_nil. cbn [trim_end_blank]. destruct b as [|d b]; [done|]. pose proof Hb as Hd. cbn [str_forall] in Hd.
    apply andb_true_iff in Hd as [Hd _]. assert (is_blank (String " " (String d b)) = false) as ->.
    { unfold is_blank. cbn [blank_from]. change (whitespace_width (String " " (String d b))) with (Some 1%nat). cbn [blank_from].
      by rewrite visible_width. }
    f_equal. rewrite <-(str_app_nil_r (String d b)) at 1. by apply trim_end_visible.
  - rewrite str_app_cons. cbn [trim_end_blank]. cbn [str_forall] in Ha. apply andb_true_iff in Ha as [Hc Ha].
    assert (is_blank (String c (a +:+ String " " b)) = false) as ->; [|by rewrite IH].
    unfold is_blank. cbn [blank_from]. by rewrite visible_width.
Qed.

Lemma closing_split hash :
  exists a b, closing_line hash = a +:+ String " " b /\ str_forall visible a = true /\ str_forall visible b = true /\ b <> "".
Proof.
  exists "</untrusted-device-content", ("id=" +:+ dquote +:+ render_nonce hash +:+ dquote +:+ ">"). split_and!; [done|done| |done].
  rewrite !str_forall_app. rewrite (str_forall_weaken is_lower_hex visible (render_nonce hash)); [done|apply hex_run_visible|apply nonce_hex].
Qed.

Lemma closing_trim hash : trim (closing_line hash) = closing_line hash.
Proof.
  unfold trim. change (trim_start_from 0 (closing_line hash)) with (closing_line hash).
  destruct (closing_split hash) as (a&b&->&Ha&Hb&Hne). by apply trim_end_inner.
Qed.

Lemma closing_trimmed hash : trimmed_line (closing_line hash) = closing_line hash.
Proof.
  unfold trimmed_line. rewrite closing_trim.
  assert (trim_end (Ascii.eqb CR) (closing_line hash +:+ "") = closing_line hash) as E; [|by rewrite str_app_nil_r in E].
  apply trim_end_app; [|done]. unfold closing_line. rewrite !str_exists_app.
  rewrite (hex_absent (Ascii.eqb CR) (render_nonce hash)); [done| |apply nonce_hex].
  intros c Hc. destruct (Ascii.eqb_spec CR c) as [<-|]; [discriminate Hc|done].
Qed.

(** Whatever stands before it, the closing line is passed on. *)
Lemma closing_passes st hash : (scan_line st (closing_line hash)).2 = [closing_line hash].
Proof.
  assert (forall st, (scan_plain st (closing_line hash)).2 = [closing_line hash]) as Hplain.
  { intros s. unfold scan_plain, opens_value. rewrite closing_trimmed.
    change (starts_with CLOSING_TAG (closing_line hash)) with true. rewrite orb_true_r.
    change (is_pem_begin (closing_line hash)) with false.
    rewrite (str_find_absent (Ascii.eqb ":") _ (not_suspicious ":" _ eq_refl (closing_plain hash))).
    rewrite (plain_line _ (closing_plain hash) (closing_no_key hash)). by destruct (in_pem s). }
  unfold scan_line. destruct (block_scalar_indent st) as [indent|]; [|apply Hplain]. rewrite closing_trimmed.
  assert (indent_len (closing_line hash) = 0%nat) as ->.
  { unfold indent_len. change (trim_start is_indent (closing_line hash)) with (closing_line hash). apply Nat.sub_diag. }
  change (is_empty_str (closing_line hash)) with false. change (starts_with "#" (closing_line hash)) with false.
  change (is_seq_item (closing_line hash)) with false. rewrite !andb_false_r. cbn [negb andb]. apply Hplain.
Qed.

Lemma str_split_nonempty sep s : str_split sep s <> [].
Proof. destruct s as [|c s]; [done|]. cbn [str_split]. by repeat case_match. Qed.

Lemma split_snoc sep x y :
  contains_char sep y = false -> str_split sep (x +:+ String sep y) = str_split sep x ++ [y].
Proof.
  intros Hy. assert (str_split sep y = [y]) as Ey.
  { clear x. unfold contains_char in Hy. induction y as [|c y IH]; [done|]. cbn in Hy. apply orb_false_iff in Hy as [Hc Hy].
    cbn [str_split]. rewrite Ascii.eqb_sym, Hc. by rewrite IH. }
  induction x as [|c x IH]; rewrite ?str_app_nil, ?str_app_cons; cbn [str_split].
  - by rewrite Ascii.eqb_refl, Ey.
  - rewrite IH. destruct (Ascii.eqb c sep); [done|].
    pose proof (str_split_nonempty sep x). by destruct (str_split sep x).
Qed.

Lemma str_join_snoc sep l x : l <> [] -> str_join sep (l ++ [x]) = str_join sep l +:+ sep +:+ x.
Proof. destruct l as [|y l]; [done|]. intros _. cbn [app str_join]. by rewrite foldl_app. Qed.

Lemma first_line_shown lines : lines <> [] -> scan_lines scan_start lines <> [].
Proof.
  destruct lines as [|line lines]; [done|]. intros _. cbn [scan_lines]. unfold scan_line. cbn [block_scalar_indent scan_start].
  unfold scan_plain. cbn [in_pem scan_start]. destruct (is_pem_begin _); [done|]. by destruct (opens_value line).
Qed.

(** C35 Redacting a tagged block keeps it closed: whatever the device wrote
    inside it, an open PEM block or YAML value included, the redacted text ends
    with the closing tag on a line of its own. *)
Theorem tagged_block_stays_closed hash source body :
  exists shown, RedactText.redact (render_tagged hash source body) = shown +:+ newline +:+ closing_line hash.
Proof.
  assert (exists x, render_tagged hash source body = x +:+ String LF (closing_line hash)) as [x Hx].
  { unfold render_tagged.
    match goal with
    | |- exists x, ?a +:+ ?b +:+ ?c +:+ ?d +:+ ?e +:+ ?f +:+ ?g +:+ ?h +:+ ?i +:+ ?nl +:+ ?m +:+ _ +:+ ?t +:+ _ = _ =>
        exists (a +:+ b +:+ c +:+ d +:+ e +:+ f +:+ g +:+ h +:+ i +:+ nl +:+ m +:+ nl +:+ t)
    end.
    unfold closing_line, CLOSING_TAG. by rewrite !str_app_assoc. }
  exists (str_join newline (scan_lines scan_start (str_split LF x))).
  unfold RedactText.redact. rewrite Hx, split_snoc.
  - rewrite scan_lines_app. cbn [scan_lines]. pose proof (closing_passes (scan_state scan_start (str_split LF x)) hash) as Hc.
    destruct (scan_line (scan_state scan_start (str_split LF x)) (closing_line hash)) as [st out]. cbn [snd] in Hc. subst out.
    cbn [app]. apply str_join_snoc, first_line_shown, str_split_nonempty.
  - unfold closing_line, CLOSING_TAG. rewrite !contains_char_app. unfold contains_char at 3.
    rewrite (hex_absent (Ascii.eqb LF) (render_nonce hash)); [done| |apply nonce_hex].
    intros c Hc. destruct (Ascii.eqb_spec LF c) as [<-|]; [discriminate Hc|done].
Qed.
