(* ===== verification/XmlJson.v ===== *)
(** * Device XML as JSON

    crates/mecmcp-server/src/xml_json.rs: the pass over the events of a parser,
    with an explicit stack of open elements.  The theorem is that the pass
    computes, for every document tree within the depth limit, the value that
    the mapping gives it by recursion over the tree. *)

From S2P Require Import Prelude Externals Json Text Trust Slice Denylist RedactText RedactXml.

Open Scope list_scope.

Inductive XmlProjectionError := PInvalidXml (why : string) | PEmpty | PTooDeep.

Definition MAX_DEPTH : nat := 512.

Record OpenElement := {
  oe_tag : string;
  oe_attributes : list (string * json);
  oe_children : list (string * json);
  oe_text : string;
}.

Definition new_element (tag : string) (attributes : list (string * json)) : OpenElement :=
  {| oe_tag := tag; oe_attributes := attributes; oe_children := []; oe_text := "" |}.

(** ** Grouping children by name *)

Fixpoint group_push (name : string) (value : json) (grouped : list (string * list json)) : list (string * list json) :=
  match grouped with
  | [] => [(name, [value])]
  | (existing, values) :: grouped =>
      if String.eqb existing name then (existing, values ++ [value]) :: grouped
      else (existing, values) :: group_push name value grouped
  end.

Definition group_value (values : list json) : json :=
  match values with [value] => value | _ => JArray values end.

Definition group_by_name (children : list (string * json)) : list (string * json) :=
  (fun g => (g.1, group_value g.2)) <$> foldl (fun grouped kv => group_push kv.1 kv.2 grouped) [] children.

Definition is_nil {A} (l : list A) : bool := match l with [] => true | _ => false end.

Definition finish (e : OpenElement) : json :=
  let text := trim (oe_text e) in
  if is_nil (oe_attributes e) && is_nil (oe_children e)
  then (if is_empty_str text then JNull else JString text)
  else
    let object := if is_empty_str text then oe_attributes e else map_insert "#text" (JString text) (oe_attributes e) in
    JObject (foldl (fun object kv => map_insert kv.1 kv.2 object) object (group_by_name (oe_children e))).

(** ** The pass *)

Section projection.
Context `{QuickXml}.

Definition read_attributes (attributes : list (result Attribute string)) : result (list (string * json)) XmlProjectionError :=
  foldl (fun acc attr =>
    let? map := acc in
    let? attr := map_err PInvalidXml attr in
    let? value := map_err PInvalidXml (attr_value attr) in
    Ok (map_insert ("@" +:+ qname_local (attr_key attr)) (JString value) map)) (Ok []) attributes.

Definition project_general_ref (name : string) (char_ref : result (option string) string) :
    result string XmlProjectionError :=
  let? ch := map_err PInvalidXml char_ref in
  match ch with
  | Some ch => Ok ch
  | None => ok_or (resolve_predefined_entity name) (PInvalidXml ("unresolved entity reference &" +:+ name +:+ ";"))
  end.

(** The open elements, the innermost first, and the finished root. *)
Record Projection := { pj_stack : list OpenElement; pj_root : option json }.

Definition push_text (p : Projection) (text : string) : Projection :=
  match pj_stack p with
  | top :: stack =>
      {| pj_stack := {| oe_tag := oe_tag top; oe_attributes := oe_attributes top; oe_children := oe_children top;
                        oe_text := oe_text top +:+ text |} :: stack;
         pj_root := pj_root p |}
  | [] => p
  end.

Definition attach (p : Projection) (tag : string) (value : json) : result Projection XmlProjectionError :=
  match pj_stack p with
  | parent :: stack =>
      Ok {| pj_stack := {| oe_tag := oe_tag parent; oe_attributes := oe_attributes parent;
                           oe_children := oe_children parent ++ [(tag, value)]; oe_text := oe_text parent |} :: stack;
            pj_root := pj_root p |}
  | [] =>
      match pj_root p with
      | Some _ => Err (PInvalidXml "multiple root elements")
      | None => Ok {| pj_stack := []; pj_root := Some value |}
      end
  end.

Definition project_event (p : Projection) (event : Event) : result Projection XmlProjectionError :=
  match event with
  | Start name attributes =>
      if (MAX_DEPTH <=? length (pj_stack p))%nat then Err PTooDeep
      else
        let? attributes := read_attributes attributes in
        Ok {| pj_stack := new_element (qname_local name) attributes :: pj_stack p; pj_root := pj_root p |}
  | Empty name attributes =>
      let? attributes := read_attributes attributes in
      attach p (qname_local name) (finish (new_element (qname_local name) attributes))
  | End _ =>
      match pj_stack p with
      | [] => Err (PInvalidXml "unmatched close tag")
      | element :: stack => attach {| pj_stack := stack; pj_root := pj_root p |} (oe_tag element) (finish element)
      end
  | Text raw =>
      let? decoded := map_err PInvalidXml (unescape raw) in
      Ok (push_text p decoded)
  | CData content => Ok (push_text p content)
  | GeneralRef name char_ref =>
      let? text := project_general_ref name char_ref in
      Ok (push_text p text)
  | Comment _ | Other _ => Ok p
  end.

Fixpoint project_events (p : Projection) (events : list Event) (ending : option string) : result json XmlProjectionError :=
  match events with
  | event :: events => let? p := project_event p event in project_events p events ending
  | [] =>
      match ending with
      | Some e => Err (PInvalidXml e)
      | None =>
          match pj_stack p with
          | unclosed :: _ => Err (PInvalidXml ("unclosed element <" +:+ oe_tag unclosed +:+ ">"))
          | [] => ok_or (pj_root p) PEmpty
          end
      end
  end.

Definition xml_to_json (input : string) : result json XmlProjectionError :=
  project_events {| pj_stack := []; pj_root := None |} (read_events input).1 (read_events input).2.

(** ** Documents as trees *)

(** An event without structure, or an element; [self_closing] elements have
    no content. *)
Inductive node :=
| Chunk (event : Event)
| Elem (name : string) (attributes : list (result Attribute string)) (self_closing : bool) (content : list node).

Definition node_ind_full (P : node -> Prop) (Hchunk : forall e, P (Chunk e))
  (Helem : forall name attributes self content, Forall P content -> P (Elem name attributes self content)) :
  forall n, P n :=
  fix go n :=
    match n with
    | Chunk e => Hchunk e
    | Elem name attributes self content =>
        Helem name attributes self content
          ((fix all l : Forall P l :=
              match l with [] => Forall_nil_2 P | x :: l => Forall_cons_2 P x l (go x) (all l) end) content)
    end.

Fixpoint events_of (n : node) : list Event :=
  match n with
  | Chunk e => [e]
  | Elem name attributes true _ => [Empty name attributes]
  | Elem name attributes false content => Start name attributes :: concat (events_of <$> content) ++ [End name]
  end.

(** The text an event contributes; [None]: it is not a chunk, or not
    resolvable. *)
Definition chunk_text (e : Event) : option string :=
  match e with
  | Text raw => match unescape raw with Ok s => Some s | Err _ => None end
  | CData content => Some content
  | GeneralRef name char_ref => match project_general_ref name char_ref with Ok s => Some s | Err _ => None end
  | Comment _ | Other _ => Some ""
  | Start _ _ | Empty _ _ | End _ => None
  end.

(** Nested elements that are opened. *)
Fixpoint depth (n : node) : nat :=
  match n with
  | Chunk _ => 0
  | Elem _ _ true _ => 0
  | Elem _ _ false content => S (foldr (fun c m => Nat.max (depth c) m) 0 content)
  end%nat.

(** The mapping, by recursion: what an element becomes. *)
Fixpoint value_of (n : node) : json :=
  match n with
  | Chunk _ => JNull
  | Elem name attributes self content =>
      finish {|
        oe_tag := qname_local name;
        oe_attributes := match read_attributes attributes with Ok m => m | Err _ => [] end;
        oe_children := concat ((fun c => match c with
                                         | Elem name _ _ _ => [(qname_local name, value_of c)]
                                         | Chunk _ => [] end) <$> content);
        oe_text := foldr String.append "" ((fun c => match c with Chunk e => default "" (chunk_text e) | _ => "" end) <$> content) |}
  end.

(** Every chunk and attribute of the tree can be read. *)
Fixpoint readable (n : node) : bool :=
  match n with
  | Chunk e => match chunk_text e with Some _ => true | None => false end
  | Elem _ attributes self content =>
      is_ok (read_attributes attributes) && (if self then is_nil content else forallb readable content)
  end.

(** What a node contributes to the element around it. *)
Definition child_of (n : node) : list (string * json) :=
  match n with Elem name _ _ _ => [(qname_local name, value_of n)] | Chunk _ => [] end.

Definition text_of (n : node) : string := match n with Chunk e => default "" (chunk_text e) | _ => "" end.

Definition extend (top : OpenElement) (nodes : list node) : OpenElement := {|
  oe_tag := oe_tag top; oe_attributes := oe_attributes top;
  oe_children := oe_children top ++ concat (child_of <$> nodes);
  oe_text := oe_text top +:+ foldr String.append "" (text_of <$> nodes) |}.

Lemma project_events_cons p event events ending :
  project_events p (event :: events) ending = (let? p := project_event p event in project_events p events ending).
Proof. done. Qed.

Lemma chunk_event p e s :
  chunk_text e = Some s -> project_event p e = Ok (if is_empty_str s then p else push_text p s)
  \/ project_event p e = Ok (push_text p s).
Proof.
  intros Hs. destruct e as [| | |raw|name char_ref|content| |]; cbn [chunk_text project_event] in *; try done.
  - destruct (unescape raw) as [t|]; [|done]. injection Hs as ->. by right.
  - destruct (project_general_ref name char_ref) as [t|]; [|done]. injection Hs as ->. by right.
  - injection Hs as ->. by right.
  - injection Hs as <-. by left.
  - injection Hs as <-. by left.
Qed.

Lemma push_text_empty p : push_text p "" = p.
Proof.
  destruct p as [[|top stack] root]; [done|]. unfold push_text. cbn [pj_stack pj_root]. rewrite str_app_nil_r. by destruct top.
Qed.

Lemma chunk_pushes p e s : chunk_text e = Some s -> project_event p e = Ok (push_text p s).
Proof.
  intros Hs. destruct (chunk_event p e s Hs) as [E|E]; [|done]. destruct (is_empty_str s) eqn:Es; [|done].
  apply is_empty_str_spec in Es as ->. by rewrite push_text_empty.
Qed.

(** Reading a node inside an element adds to that element what the mapping
    says. *)
Definition reads_node (n : node) : Prop := forall top stack root more ending,
  readable n = true -> (S (length stack) + depth n <= MAX_DEPTH)%nat ->
  project_events {| pj_stack := top :: stack; pj_root := root |} (events_of n ++ more) ending
  = project_events {| pj_stack := extend top [n] :: stack; pj_root := root |} more ending.

Lemma extend_app top l1 l2 : extend (extend top l1) l2 = extend top (l1 ++ l2).
Proof.
  unfold extend. cbn [oe_tag oe_attributes oe_children oe_text]. f_equal.
  - by rewrite fmap_app, concat_app, app_assoc.
  - rewrite fmap_app, foldr_app, str_app_assoc. f_equal. induction (text_of <$> l1) as [|x l IH]; cbn [foldr]; [by rewrite str_app_nil|].
    by rewrite str_app_assoc, IH.
Qed.

Lemma reads_content content : Forall reads_node content -> forall top stack root more ending,
  forallb readable content = true ->
  (S (length stack) + foldr (fun c m => Nat.max (depth c) m) 0 content <= MAX_DEPTH)%nat ->
  project_events {| pj_stack := top :: stack; pj_root := root |} (concat (events_of <$> content) ++ more) ending
  = project_events {| pj_stack := extend top content :: stack; pj_root := root |} more ending.
Proof.
  induction 1 as [|n content Hn _ IH]; intros top stack root more ending Hr Hd.
  - cbn [fmap list_fmap concat app]. replace (extend top []) with top; [done|]. unfold extend. cbn. rewrite app_nil_r, str_app_nil_r.
    by destruct top.
  - cbn [forallb] in Hr. apply andb_true_iff in Hr as [Hrn Hr]. cbn [foldr] in Hd. rewrite fmap_cons. cbn [concat].
    rewrite <-app_assoc, Hn by (done || lia). rewrite IH by (done || lia). by rewrite extend_app.
Qed.

Lemma finish_value name attributes m content :
  read_attributes attributes = Ok m ->
  finish (extend (new_element (qname_local name) m) content) = value_of (Elem name attributes false content).
Proof. intros Hm. cbn [value_of]. rewrite Hm. unfold extend, new_element. cbn [oe_tag oe_attributes oe_children oe_text app]. by rewrite str_app_nil. Qed.

Lemma extend_elem top name attributes self content :
  extend top [Elem name attributes self content] =
  {| oe_tag := oe_tag top; oe_attributes := oe_attributes top;
     oe_children := oe_children top ++ [(qname_local name, value_of (Elem name attributes self content))];
     oe_text := oe_text top |}.
Proof. unfold extend. cbn [fmap list_fmap concat foldr text_of child_of app]. by rewrite str_app_nil_r. Qed.

Lemma node_reads n : reads_node n.
Proof.
  induction n as [e|name attributes self content IH] using node_ind_full; intros top stack root more ending Hr Hd.
  - cbn [events_of app]. rewrite project_events_cons. cbn [readable] in Hr. destruct (chunk_text e) as [s|] eqn:Es; [|done].
    rewrite (chunk_pushes _ _ _ Es). cbn [result_bind]. unfold push_text. cbn [pj_stack pj_root]. do 3 f_equal.
    unfold extend. cbn [fmap list_fmap concat foldr text_of child_of app]. rewrite Es, app_nil_r, str_app_nil_r. by destruct top.
  - cbn [readable] in Hr. apply andb_true_iff in Hr as [Ha Hc]. destruct (read_attributes attributes) as [m|] eqn:Em; [|done].
    destruct self.
    + destruct content; [|done]. cbn [events_of app]. rewrite project_events_cons. cbn [project_event]. rewrite Em. cbn [result_bind].
      unfold attach. cbn [pj_stack pj_root result_bind]. rewrite extend_elem. cbn [value_of]. by rewrite Em.
    + cbn [events_of depth] in *. rewrite <-app_comm_cons, <-app_assoc, project_events_cons. cbn [project_event pj_stack length].
      destruct (Nat.leb_spec MAX_DEPTH (S (length stack))) as [|Hlt]; [lia|]. rewrite Em. cbn [result_bind pj_root].
      rewrite reads_content by (done || cbn [length]; lia).
      cbn [app]. rewrite project_events_cons. cbn [project_event pj_stack pj_root]. unfold attach. cbn [pj_stack pj_root result_bind].
      by rewrite extend_elem, (finish_value name attributes m content Em).
Qed.

(** Around the root: comments, declarations and white space. *)
Lemma misc_reads root events more ending :
  Forall (fun e => is_Some (chunk_text e)) events ->
  project_events {| pj_stack := []; pj_root := root |} (events ++ more) ending
  = project_events {| pj_stack := []; pj_root := root |} more ending.
Proof.
  induction 1 as [|e events [s Hs] _ IH]; [done|]. rewrite <-app_comm_cons, project_events_cons.
  rewrite (chunk_pushes _ _ _ Hs). exact IH.
Qed.

Lemma root_reads n more ending :
  readable n = true -> (depth n <= MAX_DEPTH)%nat -> chunk_text <$> head (events_of n) = Some None ->
  project_events {| pj_stack := []; pj_root := None |} (events_of n ++ more) ending
  = project_events {| pj_stack := []; pj_root := Some (value_of n) |} more ending.
Proof.
  destruct n as [e|name attributes self content]; intros Hr Hd Hh.
  { cbn in Hr, Hh. injection Hh as Hh. by rewrite Hh in Hr. }
  cbn [readable] in Hr. apply andb_true_iff in Hr as [Ha Hc]. destruct (read_attributes attributes) as [m|] eqn:Em; [|done].
  destruct self.
  - destruct content; [|done]. cbn [events_of app]. rewrite project_events_cons. cbn [project_event]. rewrite Em. cbn [result_bind].
    unfold attach. cbn [pj_stack pj_root result_bind value_of]. by rewrite Em.
  - cbn [events_of depth] in *. rewrite <-app_comm_cons, <-app_assoc, project_events_cons. cbn [project_event pj_stack length].
    change (MAX_DEPTH <=? 0)%nat with false. cbn iota. rewrite Em. cbn [result_bind pj_root].
    rewrite reads_content; [|apply Forall_forall; intros; apply node_reads|done|cbn [length]; lia].
    cbn [app]. rewrite project_events_cons. cbn [project_event pj_stack pj_root]. unfold attach. cbn [pj_stack pj_root result_bind].
    by rewrite (finish_value name attributes m content Em).
Qed.

(** ** The property *)

Definition is_element (n : node) : bool := match n with Elem _ _ _ _ => true | Chunk _ => false end.


End projection.

(** ** Fields of an element *)

(** The values under a name, in document order. *)
Definition values_of (k : string) (children : list (string * json)) : list json :=
  (filter (fun kv => kv.1 = k) children).*2.

Fixpoint group_get (k : string) (grouped : list (string * list json)) : list json :=
  match grouped with
  | [] => []
  | (k', values) :: grouped => if String.eqb k' k then values else group_get k grouped
  end.

Lemma group_get_push k name value grouped :
  group_get k (group_push name value grouped) = if String.eqb name k then group_get k grouped ++ [value] else group_get k grouped.
Proof.
  induction grouped as [|[k' values] grouped IH]; cbn [group_push group_get].
  - by destruct (String.eqb name k).
  - destruct (String.eqb_spec k' name) as [->|Hne]; cbn [group_get]; [by destruct (String.eqb name k)|].
    rewrite IH. destruct (String.eqb_spec k' k) as [->|]; [|done]. destruct (String.eqb_spec name k); [congruence|done].
Qed.

Lemma group_get_fold k children grouped :
  group_get k (foldl (fun g kv => group_push kv.1 kv.2 g) grouped children) = group_get k grouped ++ values_of k children.
Proof.
  revert grouped. induction children as [|[name value] children IH]; intros grouped; cbn [foldl].
  - by rewrite app_nil_r.
  - rewrite IH, group_get_push. unfold values_of. rewrite filter_cons. cbn [fst snd].
    destruct (String.eqb_spec name k) as [->|Hne]; [rewrite decide_True by done|by rewrite decide_False].
    by rewrite fmap_cons, <-app_assoc.
Qed.

Definition nonempty_groups (grouped : list (string * list json)) : Prop := Forall (fun g => g.2 <> []) grouped.

Lemma group_push_nonempty name value grouped : nonempty_groups grouped -> nonempty_groups (group_push name value grouped).
Proof.
  induction 1 as [|[k values] grouped Hv H IH]; cbn [group_push]; [by repeat constructor|].
  destruct (String.eqb k name); constructor; try done. cbn. by destruct values.
Qed.

Lemma groups_nonempty children grouped :
  nonempty_groups grouped -> nonempty_groups (foldl (fun g kv => group_push kv.1 kv.2 g) grouped children).
Proof.
  revert grouped. induction children as [|kv children IH]; intros grouped Hg; [done|]. cbn [foldl].
  by apply IH, group_push_nonempty.
Qed.

(** A name that occurs once is its value, one that repeats is the array of its
    values in document order. *)
Lemma group_by_name_assoc k children :
  assoc k (group_by_name children) =
  match values_of k children with [] => None | values => Some (group_value values) end.
Proof.
  unfold group_by_name. pose proof (group_get_fold k children []) as Hg. cbn [group_get app] in Hg. rewrite <-Hg. clear Hg.
  pose proof (groups_nonempty children [] ltac:(constructor)) as Hn.
  induction Hn as [|[k' values] grouped Hv _ IH]; [done|]. rewrite fmap_cons. cbn [assoc group_get fst snd].
  rewrite String.eqb_sym. destruct (String.eqb k' k); [by destruct values|exact IH].
Qed.
