(* ===== verification/Scp.v ===== *)
(** * File transfer over SSH channels

    crates/mecmcp-scp/src/scp.rs: the reader over channel messages, the control
    lines and acknowledgements of the SCP1 protocol, and the upload and download
    sequences with what they do to the local file.  What the peer sends is a
    list of messages; which operation is cancelled, and which fails, is a
    parameter. *)

From S2P Require Import Prelude Text Trust Slice.
From Stdlib Require Import Ascii.

Open Scope list_scope.
Open Scope nat_scope.

Inductive IoKind := Interrupted | InvalidInput | UnexpectedEof | PermissionDenied | StorageFull | NotFound | OtherIo.

Inductive ScpError :=
| EConnect (why : string)
| EChannel (why : string)
| EChannelClosed (why : string)
| EIo (kind : IoKind) (why : string)
| EAuth (why : string)
| EHostKeyVerification (why : string)
| EHostKeyRevoked (why : string)
| EScpClientPoisoned.

Definition NL : ascii := ascii_of_nat 10.
Definition NUL : string := String (ascii_of_nat 0) "".

(** ** Text of the protocol *)

Definition CHUNK_SIZE : nat := 64 * 1024.
Definition MAX_CONTROL_LINE_LENGTH : nat := 16 * 1024.
Arguments CHUNK_SIZE : simpl never.
Arguments MAX_CONTROL_LINE_LENGTH : simpl never.

(** [str::splitn(3, ' ')]: three pieces or fewer. *)
Fixpoint split_space (s : string) : option (string * string) :=
  match s with
  | EmptyString => None
  | String c s =>
      if Ascii.eqb c " " then Some ("", s)
      else match split_space s with Some (a, b) => Some (String c a, b) | None => None end
  end.

(** [u32::from_str_radix(s, 8)]. *)
Fixpoint octal_value (acc : N) (s : string) : option N :=
  match s with
  | EmptyString => Some acc
  | String c s =>
      let d := N_of_ascii c in
      if (48 <=? d)%N && (d <=? 55)%N then
        let v := (acc * 8 + (d - 48))%N in
        if (4294967295 <? v)%N then None else octal_value v s
      else None
  end.

Definition parse_octal (s : string) : option N :=
  match s with
  | EmptyString => None
  | String c s' =>
      if Ascii.eqb c "+" then (if is_empty_str s' then None else octal_value 0 s') else octal_value 0 s
  end.

Definition parse_c_header (line : string) : result (N * N * string) ScpError :=
  let line := match strip_suffix (String NL "") line with Some l => l | None => line end in
  let invalid := EChannel ("invalid SCP C header: " +:+ line) in
  match split_space line with
  | None => Err invalid
  | Some (first, rest) =>
      match split_space rest with
      | None => Err invalid
      | Some (size_text, name) =>
          match first with
          | String c mode_str =>
              ensure Ascii.eqb c "C" else (invalid);
              let? mode := ok_or (parse_octal mode_str) (EChannel ("invalid mode in C header: " +:+ first)) in
              let? size := ok_or (parse_u64 size_text) (EChannel ("invalid file size in C header: " +:+ size_text)) in
              Ok (mode, size, name)
          | EmptyString => Err invalid
          end
      end
  end.

(** [s.replace] of each single quote, between single quotes. *)
Fixpoint escape_quotes (s : string) : string :=
  match s with
  | EmptyString => ""
  | String c s => (if Ascii.eqb c "'" then "'\''" else String c "") +:+ escape_quotes s
  end.

Definition shell_escape (s : string) : string := "'" +:+ escape_quotes s +:+ "'".

(** [str::to_lowercase] as far as a search for ASCII text can tell: besides
    the ASCII letters, the Kelvin sign and the dotted capital I have an ASCII
    letter in their lower case.  [skip] bytes belong to a character already
    replaced. *)
Definition KELVIN : string := String (ascii_of_nat 226) (String (ascii_of_nat 132) (String (ascii_of_nat 170) "")).
Definition DOTTED_I : string := String (ascii_of_nat 196) (String (ascii_of_nat 176) "").
Definition LOWER_DOTTED_I : string := String "i" (String (ascii_of_nat 204) (String (ascii_of_nat 135) "")).

Fixpoint lower_from (skip : nat) (s : string) : string :=
  match s with
  | EmptyString => ""
  | String c s' =>
      match skip with
      | S skip => lower_from skip s'
      | O =>
          if starts_with KELVIN s then String "k" (lower_from 2 s')
          else if starts_with DOTTED_I s then LOWER_DOTTED_I +:+ lower_from 1 s'
          else String (to_ascii_lower c) (lower_from 0 s')
      end
  end.

Definition lower_for_search (s : string) : string := lower_from 0 s.

Definition scp_error (msg : string) : ScpError :=
  let lower := lower_for_search msg in
  if contains_str "permission denied" lower then EIo PermissionDenied msg
  else if contains_str "no space left" lower || contains_str "disk full" lower then EIo StorageFull msg
  else if contains_str "no such file" lower || contains_str "not found" lower then EIo NotFound msg
  else EChannel ("SCP error: " +:+ msg).

Inductive FileKind := Regular | Fifo | Directory | OtherKind.

Definition validate_regular_file (path : string) (kind : FileKind) : result unit ScpError :=
  match kind with
  | Fifo => Err (EIo InvalidInput ("path is a FIFO: " +:+ path))
  | Directory => Err (EIo InvalidInput ("path is a directory: " +:+ path))
  | OtherKind => Err (EIo InvalidInput ("path is not a regular file: " +:+ path))
  | Regular => Ok tt
  end.

(** ** Channels *)

Inductive ChannelMsg :=
| Data (data : string)
| Eof
| Close
| Success
| Failure
| ExitStatus (exit_status : N)
| ExitSignal (signal_name : string) (core_dumped : bool)
| OtherMsg.

(** What the client puts on the channel. *)
Inductive Out := OExec (cmd : string) | OData (data : string) | OEof.

(** The local file of a transfer. *)
Record Inode := { i_kind : FileKind; i_mode : N; i_data : string }.

(** A transfer in progress: the unread part of the last message, the messages
    to come, what was sent, the number of operations so far, the opened
    destination and every state it was in, the last one first. *)
Record Transfer := {
  buf : string;
  inbox : list ChannelMsg;
  outbox : list Out;
  clock : nat;
  states : list Inode;
  poisoned : bool;
}.

Definition M (A : Type) : Type := Transfer -> result A ScpError * Transfer.

Definition ret {A} (a : A) : M A := fun t => (Ok a, t).
Definition fail {A} (e : ScpError) : M A := fun t => (Err e, t).
Definition bind {A B} (m : M A) (k : A -> M B) : M B :=
  fun t => match m t with (Ok a, t) => k a t | (Err e, t) => (Err e, t) end.
Definition lift {A} (r : result A ScpError) : M A := fun t => (r, t).

Notation "'let!' x ':=' m 'in' k" := (bind m (fun x => k)) (at level 10, x name, m at level 200, k at level 200).
Notation "'do!' m ';' k" := (bind m (fun _ => k)) (at level 10, m at level 99, k at level 200).

Definition with_reader (t : Transfer) (b : string) (msgs : list ChannelMsg) (k : nat) : Transfer :=
  {| buf := b; inbox := msgs; outbox := outbox t; clock := k; states := states t; poisoned := poisoned t |}.

Definition tick (t : Transfer) : Transfer := with_reader t (buf t) (inbox t) (S (clock t)).

Definition put (t : Transfer) (o : Out) : Transfer :=
  {| buf := buf t; inbox := inbox t; outbox := outbox t ++ [o]; clock := clock t; states := states t; poisoned := poisoned t |}.

Definition with_states (t : Transfer) (l : list Inode) : Transfer :=
  {| buf := buf t; inbox := inbox t; outbox := outbox t; clock := clock t; states := l; poisoned := poisoned t |}.

Definition with_poison (t : Transfer) (b : bool) : Transfer :=
  {| buf := buf t; inbox := inbox t; outbox := outbox t; clock := clock t; states := states t; poisoned := b |}.

Section transfers.
(** [cancelled k]: the cancellation wins against the [k]-th operation; [fault
    k]: the [k]-th operation fails; [late k]: a cancelled file operation still
    takes effect; [short k]: how much a file read returns, less one, and how
    much a failed write wrote.  What a failed send put on the wire is not
    recorded. *)
Context (cancelled : nat -> bool) (fault : nat -> option string) (late : nat -> bool) (short : nat -> nat).

(** [tokio::select!] against the cancellation. *)
Definition race {A} (what : string) (m : M A) : M A := fun t =>
  if cancelled (clock t) then (Err (EIo Interrupted what), tick t) else m t.

(** An operation that leaves the file as it is and can fail. *)
Definition syscall : M unit := fun t =>
  match fault (clock t) with Some e => (Err (EIo OtherIo e), tick t) | None => (Ok tt, tick t) end.

Definition check_cancellation : M unit := race "cancelled" (fun t => (Ok tt, tick t)).

Definition send (o : Out) (failed : string -> ScpError) : M unit :=
  race "cancelled" (fun t =>
    match fault (clock t) with
    | Some e => (Err (failed e), tick t)
    | None => (Ok tt, put (tick t) o)
    end).

Definition exec (cmd : string) : M unit := send (OExec cmd) (fun e => EChannel ("exec failed: " +:+ e)).
Definition data (d : string) : M unit := send (OData d) (EIo OtherIo).
Definition eof : M unit := send OEof (EIo OtherIo).

(** A loop around [channel.wait()]: [on_msg] returns, or goes on with [None]. *)
Fixpoint await {A} (on_msg : ChannelMsg -> option (result A ScpError)) (on_end : result A ScpError)
    (k : nat) (msgs : list ChannelMsg) : result A ScpError * nat * list ChannelMsg :=
  if cancelled k then (Err (EIo Interrupted "cancelled"), S k, msgs)
  else
    match msgs with
    | [] => (on_end, S k, [])
    | m :: msgs =>
        match on_msg m with
        | Some r => (r, S k, msgs)
        | None => await on_msg on_end (S k) msgs
        end
    end.

Definition awaiting {A} (on_msg : ChannelMsg -> option (result A ScpError)) (on_end : result A ScpError) : M A := fun t =>
  let '(r, k, msgs) := await on_msg on_end (clock t) (inbox t) in (r, with_reader t (buf t) msgs k).

(** ** The reader *)

Definition fill_msg (m : ChannelMsg) : option (result string ScpError) :=
  match m with
  | Data d => if is_empty_str d then None else Some (Ok d)
  | Eof | Close => Some (Err (EChannelClosed "channel closed while reading"))
  | _ => None
  end.

Definition fill : M unit :=
  let! d := awaiting fill_msg (Err (EChannelClosed "channel closed while reading")) in
  fun t => (Ok tt, with_reader t d (inbox t) (clock t)).

Definition fill_if_empty : M unit := fun t => if is_empty_str (buf t) then fill t else (Ok tt, t).

Definition read_byte : M ascii :=
  do! fill_if_empty;
  fun t =>
    match buf t with
    | String c b => (Ok c, with_reader t b (inbox t) (clock t))
    | EmptyString => (Err (EChannel "empty buffer"), t)
    end.

(** At most [fuel] rounds; each round that does not fail reads a byte. *)
Fixpoint read_exact_from (fuel n : nat) : M string :=
  match fuel, n with
  | _, O => ret ""
  | O, S _ => fail (EChannel "out of fuel")
  | S fuel, S _ =>
      do! fill_if_empty;
      let! part := (fun t =>
        let available := Nat.min n (slen (buf t)) in
        (Ok (str_take available (buf t)), with_reader t (str_drop available (buf t)) (inbox t) (clock t))) in
      let! rest := read_exact_from fuel (n - slen part) in
      ret (part +:+ rest)
  end.

Definition read_exact (n : nat) : M string := read_exact_from n n.

(** [room] more bytes may be pushed. *)
Fixpoint read_line_from (room : nat) (line : string) : M string :=
  let! byte := read_byte in
  if Ascii.eqb byte NL then ret line
  else
    match room with
    | O => fail (EChannel ("SCP control line exceeded maximum length of " +:+ pretty MAX_CONTROL_LINE_LENGTH +:+ " bytes"))
    | S room => read_line_from room (line +:+ String byte "")
    end.

Definition read_line : M string :=
  let! line := read_line_from MAX_CONTROL_LINE_LENGTH "" in
  if utf8_valid line then ret line else fail (EChannel "SCP server sent non-UTF-8 message").

Inductive Ack := AckSuccess | AckWarning (msg : string) | AckError (msg : string).

Definition read_ack : M Ack :=
  let! byte := read_byte in
  match N_of_ascii byte with
  | 0%N => ret AckSuccess
  | 1%N => let! msg := read_line in ret (AckWarning msg)
  | 2%N => let! msg := read_line in ret (AckError msg)
  | n => fail (EChannel ("invalid SCP ack byte: " +:+ pretty n))
  end.

(** An acknowledgement that must be a success. *)
Definition expect_ack : M unit :=
  do! check_cancellation;
  let! ack := read_ack in
  match ack with
  | AckSuccess => ret tt
  | AckWarning msg | AckError msg => fail (scp_error msg)
  end.

(** ** Opening the channel *)

(** The guard poisons the client when the open was queued and its outcome was
    not seen. *)
Definition open_channel : M unit := fun t =>
  if cancelled (clock t)
  then (Err (EIo Interrupted "cancelled while opening channel"), with_poison (tick t) true)
  else match fault (clock t) with
       | Some e => (Err (EChannel ("failed to open session: " +:+ e)), tick t)
       | None => (Ok tt, tick t)
       end.

Definition exec_msg (m : ChannelMsg) : option (result string ScpError) :=
  match m with
  | Success => Some (Ok "")
  | Failure => Some (Err (EChannel "server rejected exec request"))
  | Data d => Some (Ok d)
  | Close | Eof => Some (Err (EChannelClosed "channel closed before exec response"))
  | _ => None
  end.

(** The command is sent and answered; data that came first is kept. *)
Definition start_command (cmd : string) : M unit :=
  do! exec cmd;
  do! check_cancellation;
  let! d := awaiting exec_msg (Err (EChannelClosed "channel closed before exec response")) in
  fun t => (Ok tt, with_reader t d (inbox t) (clock t)).

Definition exit_msg (m : ChannelMsg) : option (result N ScpError) :=
  match m with
  | ExitStatus n => Some (Ok n)
  | ExitSignal name core =>
      Some (Err (EChannel ("remote process killed by signal " +:+ name +:+ " (core dumped: "
                           +:+ (if core then "true" else "false") +:+ ")")))
  | Close => Some (Ok 0%N)
  | _ => None
  end.

Definition wait_exit_status : M N := awaiting exit_msg (Ok 0%N).

Definition finish_command : M unit :=
  do! eof;
  let! exit_status := wait_exit_status in
  if (exit_status =? 0)%N then ret tt
  else fail (EChannel ("scp command exited with status " +:+ pretty exit_status)).

Record ScpOutcome := { bytes_transferred : N; server_messages : list string }.

(** The client can be used and the token is not cancelled. *)
Definition usable : M unit := fun t =>
  if poisoned t then (Err EScpClientPoisoned, t) else (Ok tt, t).

Definition check_before_open : M unit := race "cancelled before opening channel" (fun t => (Ok tt, tick t)).

(** ** Upload *)

Record LocalFile := {
  lf_path : string;
  lf_name : option string;
  lf_kind : FileKind;
  lf_len : N;
  lf_mode : N;
  lf_mtime : Z;
  lf_atime : Z;
  lf_content : string;
}.

(** [{:o}] with leading zeros to a width of four. *)
Fixpoint octal_digits (fuel : nat) (n : N) (acc : string) : string :=
  match fuel with
  | O => acc
  | S fuel =>
      let acc := String (ascii_of_N (48 + n mod 8)) acc in
      if (n / 8 =? 0)%N then acc else octal_digits fuel (n / 8) acc
  end.

Fixpoint pad_zeros (n : nat) (s : string) : string := match n with O => s | S n => String "0" (pad_zeros n s) end.

Definition format_mode (mode : N) : string :=
  let digits := octal_digits (S (N.to_nat (N.log2 mode))) mode "" in pad_zeros (4 - slen digits) digits.

(** Seconds that are not negative, in decimal. *)
Definition clamped (t : Z) : string := pretty (Z.to_N (Z.max t 0)).

Definition t_header (f : LocalFile) : string :=
  "T" +:+ clamped (lf_mtime f) +:+ " 0 " +:+ clamped (lf_atime f) +:+ " 0" +:+ String NL "".

Definition c_header (mode size : N) (name : string) : string :=
  "C" +:+ format_mode mode +:+ " " +:+ pretty size +:+ " " +:+ name +:+ String NL "".

(** How much [file.read] returns, up to [to_read]; none at the end. *)
Definition read_chunk (to_read : nat) (content : string) : M nat :=
  race "cancelled during file read" (fun t =>
    match fault (clock t) with
    | Some e => (Err (EIo OtherIo e), tick t)
    | None => (Ok (Nat.min to_read (Nat.min (S (short (clock t))) (slen content))), tick t)
    end).

(** The rest of the file is sent in chunks: [todo] bytes are still to be sent,
    [content] is what the file has left. *)
Fixpoint stream_file (fuel todo : nat) (content : string) : M unit :=
  match fuel, todo with
  | _, O => ret tt
  | O, S _ => fail (EChannel "out of fuel")
  | S fuel, S _ =>
      do! check_cancellation;
      let! n := read_chunk (Nat.min todo CHUNK_SIZE) content in
      match n with
      | O => fail (EIo UnexpectedEof "local file ended early")
      | S _ =>
          do! data (str_take n content);
          stream_file fuel (todo - n) (str_drop n content)
      end
  end.

(** [opened]: what [openat] returns. *)
Definition upload (opened : result LocalFile string) (remote_dir : string) : M ScpOutcome :=
  do! usable;
  let! file := race "upload cancelled during file open" (fun t => (map_err (EIo OtherIo) opened, tick t)) in
  do! race "cancelled during metadata read" syscall;
  do! lift (validate_regular_file (lf_path file) (lf_kind file));
  let mode := N.land (lf_mode file) 511 in
  let! basename := lift (ok_or (lf_name file) (EIo InvalidInput ("local_path has no filename: " +:+ lf_path file))) in
  do! (if contains_char NL basename
       then fail (EIo InvalidInput ("filename contains newline: " +:+ lf_path file)) else ret tt);
  do! check_before_open;
  do! open_channel;
  do! start_command ("scp -p -d -t -- " +:+ shell_escape remote_dir);
  do! expect_ack;
  do! data (t_header file);
  do! expect_ack;
  do! data (c_header mode (lf_len file) basename);
  do! expect_ack;
  do! stream_file (N.to_nat (lf_len file)) (N.to_nat (lf_len file)) (lf_content file);
  do! check_cancellation;
  do! data NUL;
  do! expect_ack;
  do! data ("E" +:+ String NL "");
  do! check_cancellation;
  let! ack := read_ack in
  let! warnings := match ack with
                   | AckSuccess => ret []
                   | AckWarning msg => ret [msg]
                   | AckError msg => fail (scp_error msg)
                   end in
  do! finish_command;
  ret {| bytes_transferred := lf_len file; server_messages := warnings |}.

(** ** Download *)

(** A file operation: the new state of the file.  A cancelled operation may
    still complete; [failed] is what one that fails leaves behind. *)
Definition file_op (what : string) (change failed : Inode -> Inode) : M unit := fun t =>
  let apply f t := match states t with i :: l => with_states t (f i :: i :: l) | [] => t end in
  if cancelled (clock t)
  then (Err (EIo Interrupted what), apply (if late (clock t) then change else failed) (tick t))
  else match fault (clock t) with
       | Some e => (Err (EIo OtherIo e), apply failed (tick t))
       | None => (Ok tt, apply change (tick t))
       end.

Definition chmod (mode : N) (i : Inode) : Inode := {| i_kind := i_kind i; i_mode := mode; i_data := i_data i |}.
Definition truncate (i : Inode) : Inode := {| i_kind := i_kind i; i_mode := i_mode i; i_data := "" |}.
Definition append (d : string) (i : Inode) : Inode := {| i_kind := i_kind i; i_mode := i_mode i; i_data := i_data i +:+ d |}.

(** A write that fails has written a part. *)
Definition write_all (d : string) : M unit := fun t =>
  file_op "cancelled during file write" (append d) (append (str_take (short (clock t)) d)) t.

Definition set_permissions (mode : N) : M unit := file_op "cancelled during chmod" (chmod mode) (fun i => i).
Definition set_len_0 : M unit := file_op "cancelled during truncate" truncate (fun i => i).


Fixpoint receive_file (fuel todo : nat) : M unit :=
  match fuel, todo with
  | _, O => ret tt
  | O, S _ => fail (EChannel "out of fuel")
  | S fuel, S _ =>
      do! check_cancellation;
      let! d := read_exact (Nat.min todo CHUNK_SIZE) in
      do! write_all d;
      receive_file fuel (todo - slen d)
  end.

(** The opened file takes the mode of the header before any data: narrowed
    first, then truncated, then as requested. *)
Definition prepare_destination (local_path : string) (mode : N) : M unit :=
  do! race "cancelled during metadata read" syscall;
  let! i := (fun t => (match states t with i :: _ => Ok i | [] => Err (EChannel "no file") end, t)) in
  do! lift (validate_regular_file local_path (i_kind i));
  let current_mode := N.land (i_mode i) 511 in
  let interim_mode := N.land current_mode mode in
  do! set_permissions interim_mode;
  do! set_len_0;
  do! set_permissions mode;
  do! syscall;
  syscall.

(** The file that [openat] with [O_CREAT] opens for the mode, new or not. *)
Definition open_destination (open_dest : N -> result Inode string) (mode : N) : M unit := fun t =>
  if cancelled (clock t) then
    (Err (EIo Interrupted "download cancelled during file open"),
     match open_dest mode with
     | Ok i => if late (clock t) then with_states (tick t) [i] else tick t
     | Err _ => tick t
     end)
  else match open_dest mode with
       | Ok i => (Ok tt, with_states (tick t) [i])
       | Err e => (Err (EIo OtherIo e), tick t)
       end.

(** Up to the header line: the command, the readiness byte and the answer. *)
Definition request_file (remote_path : string) : M (N * N * string) :=
  do! usable;
  do! check_before_open;
  do! open_channel;
  do! start_command ("scp -f -- " +:+ shell_escape remote_path);
  do! data NUL;
  do! check_cancellation;
  let! header := read_line in
  do! (match header with
       | String c rest =>
           if (N_of_ascii c =? 1)%N || (N_of_ascii c =? 2)%N then fail (scp_error rest) else ret tt
       | EmptyString => ret tt
       end);
  let! parsed := lift (parse_c_header header) in
  do! (if contains_char "/" parsed.2
       then fail (EIo InvalidInput ("server sent unsafe filename: " +:+ parsed.2)) else ret tt);
  ret parsed.

(** From the open of the destination to the exit status. *)
Definition store_file (local_path : string) (open_dest : N -> result Inode string) (mode file_size : N) : M unit :=
  do! open_destination open_dest mode;
  do! prepare_destination local_path mode;
  do! data NUL;
  do! receive_file (N.to_nat file_size) (N.to_nat file_size);
  do! race "cancelled during file flush" syscall;
  do! expect_ack;
  do! data NUL;
  finish_command.

Definition download (remote_path local_path : string) (open_dest : N -> result Inode string) : M ScpOutcome :=
  let! header := request_file remote_path in
  let '(raw_mode, file_size, _) := header in
  do! store_file local_path open_dest (N.land raw_mode 511) file_size;
  ret {| bytes_transferred := file_size; server_messages := [] |}.

End transfers.

(** ** The command line

    A POSIX shell splits the command into exactly the intended words.  The
    reference reader knows plain characters, blanks, single quotes and the
    backslash; every other special character is refused. *)

Definition is_plain (c : ascii) : bool :=
  is_ascii_alphanumeric c || Ascii.eqb c "-" || Ascii.eqb c "/" || Ascii.eqb c "." || Ascii.eqb c "_".

Inductive Quoting := Between | InWord | Quoted | Escaped.

Definition cons_char (c : ascii) (ws : list string) : list string :=
  match ws with w :: ws => String c w :: ws | [] => [String c ""] end.

(** The words of the rest of the line; in the middle of a word the first one
    continues it. *)
Fixpoint shell_words (q : Quoting) (s : string) : option (list string) :=
  match s with
  | EmptyString => match q with Between => Some [] | InWord => Some [""] | _ => None end
  | String c s =>
      match q with
      | Quoted => if Ascii.eqb c "'" then shell_words InWord s else cons_char c <$> shell_words Quoted s
      | Escaped => cons_char c <$> shell_words InWord s
      | Between | InWord =>
          if Ascii.eqb c " " then
            (match q with InWord => cons "" | _ => id end) <$> shell_words Between s
          else if Ascii.eqb c "'" then shell_words Quoted s
          else if Ascii.eqb c "\" then shell_words Escaped s
          else if is_plain c then cons_char c <$> shell_words InWord s
          else None
      end
  end.

Lemma shell_words_quoted p : shell_words Quoted (escape_quotes p +:+ "'") = Some [p].
Proof.
  induction p as [|c p IH]; [done|]. cbn [escape_quotes].
  destruct (Ascii.eqb c "'") eqn:E.
  - apply Ascii.eqb_eq in E as ->. rewrite str_app_assoc. revert IH. generalize (escape_quotes p +:+ "'").
    intros e IH. cbv [String.append]. cbn. by rewrite IH.
  - rewrite str_app_assoc. revert IH. generalize (escape_quotes p +:+ "'"). intros e IH. cbv [String.append]. cbn. by rewrite E, IH.
Qed.

(** No argument escapes the command.  Whatever the path is, quotes, blanks,
    dashes and shell characters included, a shell reads the download command as
    the four words [scp], [-f], [--] and the path itself, and the upload command
    as its five fixed words and the directory. *)
Theorem command_line_is_exact (p : string) :
  shell_words Between ("scp -f -- " +:+ shell_escape p) = Some ["scp"; "-f"; "--"; p] /\
  shell_words Between ("scp -p -d -t -- " +:+ shell_escape p) = Some ["scp"; "-p"; "-d"; "-t"; "--"; p].
Proof.
  pose proof (shell_words_quoted p) as H. unfold shell_escape. revert H. generalize (escape_quotes p +:+ "'").
  intros e H. split; cbv [String.append]; cbn; by rewrite H.
Qed.

(** ** The C header is read back *)

Lemma split_space_app a b : contains_char " " a = false -> split_space (a +:+ (" " +:+ b)) = Some (a, b).
Proof.
  induction a as [|c a IH]; [done|]. unfold contains_char in *. cbn [str_exists]. rewrite orb_false_iff. intros [Hc Ha].
  change (String c a +:+ (" " +:+ b)) with (String c (a +:+ (" " +:+ b))). cbn [split_space].
  rewrite Ascii.eqb_sym, Hc, IH by done. done.
Qed.

Lemma strip_suffix_newline a : contains_char NL a = false -> strip_suffix (String NL "") (a +:+ String NL "") = Some a.
Proof.
  induction a as [|c a IH]; [done|]. unfold contains_char in *. cbn [str_exists]. rewrite orb_false_iff. intros [Hc Ha].
  change (String c a +:+ String NL "") with (String c (a +:+ String NL "")). cbn [strip_suffix].
  rewrite bool_decide_false; [by rewrite IH|]. intros [= -> E]. done.
Qed.

(** The modes a transfer sends: nine permission bits. *)
Lemma mode_round_trip mode :
  (mode < 512)%N -> parse_octal (format_mode mode) = Some mode /\ str_forall is_ascii_digit (format_mode mode) = true.
Proof.
  intros H. assert (forallb (fun m => let m := N.of_nat m in
    bool_decide (parse_octal (format_mode m) = Some m) && str_forall is_ascii_digit (format_mode m)) (seq 0 512) = true) as A
    by (vm_compute; reflexivity).
  rewrite forallb_forall in A. specialize (A (N.to_nat mode)). cbv zeta in A. rewrite N2Nat.id in A.
  assert (In (N.to_nat mode) (seq 0 512)) as Hin by (apply in_seq; lia).
  apply A, andb_true_iff in Hin as [B%bool_decide_eq_true C]. done.
Qed.

Lemma digits_avoid c s : is_ascii_digit c = false -> str_forall is_ascii_digit s = true -> contains_char c s = false.
Proof.
  intros Hc. unfold contains_char. induction s as [|d s IH]; [done|]. cbn [str_forall str_exists]. rewrite andb_true_iff.
  intros [Hd Hs]. rewrite IH by done. rewrite orb_false_r. destruct (Ascii.eqb_spec c d) as [->|]; congruence.
Qed.

(** The header that an upload sends for a file is read back by the header
    parser as that mode, size and name; blanks in the name stay. *)
Theorem c_header_round_trip (mode size : N) (name : string) :
  (mode < 512)%N -> (size <= u64_max)%N -> contains_char NL name = false ->
  parse_c_header (c_header mode size name) = Ok (mode, size, name).
Proof.
  intros Hm Hs Hn. destruct (mode_round_trip mode Hm) as [Ho Hd]. destruct (pretty_N_digits size) as [Hp _].
  unfold parse_c_header, c_header.
  replace ("C" +:+ format_mode mode +:+ " " +:+ pretty size +:+ " " +:+ name +:+ String NL "")
    with ((("C" +:+ format_mode mode) +:+ (" " +:+ (pretty size +:+ (" " +:+ name)))) +:+ String NL "")
    by (by rewrite !str_app_assoc).
  rewrite strip_suffix_newline.
  2:{ rewrite !contains_char_app. rewrite (digits_avoid NL (format_mode mode)), (digits_avoid NL (pretty size)), Hn by done. done. }
  rewrite split_space_app by (rewrite contains_char_app, (digits_avoid " " (format_mode mode)) by done; done).
  rewrite split_space_app by (by apply digits_avoid). change ("C" +:+ format_mode mode) with (String "C" (format_mode mode)).
  cbv beta iota. change (Ascii.eqb "C" "C") with true. by rewrite Ho, parse_u64_pretty.
Qed.
