(* ===== verification/ScpFacts.v ===== *)
(** * What a file transfer does

    Facts about Scp.v, for every way the peer cuts its bytes into messages and
    every operation that is cancelled or fails: what a transfer that succeeds
    has sent, received and stored, what an unfinished one leaves in the file,
    and that a transfer with a well-behaved peer succeeds. *)

From S2P Require Import Prelude Text Trust Slice Scp.
From Stdlib Require Import Ascii.

Open Scope list_scope.
Open Scope nat_scope.

(** ** The bytes of the peer *)

(** What the messages carry up to the end of the channel. *)
Fixpoint feed (msgs : list ChannelMsg) : string :=
  match msgs with
  | [] => ""
  | Data d :: msgs => d +:+ feed msgs
  | (Eof | Close) :: _ => ""
  | _ :: msgs => feed msgs
  end.

Definition unread (t : Transfer) : string := buf t +:+ feed (inbox t).

(** From [t] to [t'] the client read [got] and sent [sent], and left the file
    and the client alone. *)
Record moves (t t' : Transfer) (got : string) (sent : list Out) : Prop := {
  moves_got : unread t = got +:+ unread t';
  moves_sent : outbox t' = outbox t ++ sent;
  moves_states : states t' = states t;
}.

Lemma moves_refl t : moves t t "" [].
Proof. split; [done|by rewrite app_nil_r|done]. Qed.

Lemma moves_trans t1 t2 t3 g1 g2 s1 s2 :
  moves t1 t2 g1 s1 -> moves t2 t3 g2 s2 -> moves t1 t3 (g1 +:+ g2) (s1 ++ s2).
Proof.
  intros [A1 B1 C1] [A2 B2 C2]. split.
  - by rewrite A1, A2, str_app_assoc.
  - by rewrite B2, B1, app_assoc.
  - congruence.
Qed.

Lemma moves_quiet t1 t2 t3 g s : moves t1 t2 "" [] -> moves t2 t3 g s -> moves t1 t3 g s.
Proof. apply moves_trans. Qed.

Lemma bind_ok {A B} (m : M A) (k : A -> M B) t b t' :
  bind m k t = (Ok b, t') -> exists a t1, m t = (Ok a, t1) /\ k a t1 = (Ok b, t').
Proof. unfold bind. destruct (m t) as [[a|e] t1]; [eauto|done]. Qed.

Lemma bind_run {A B} (m : M A) (k : A -> M B) t a t1 : m t = (Ok a, t1) -> bind m k t = k a t1.
Proof. unfold bind. by intros ->. Qed.

(** Take a run that succeeded apart, one operation at a time. *)
Ltac run_ok H :=
  let a := fresh "a" in let t := fresh "t" in let H1 := fresh "Op" in
  apply bind_ok in H as (a & t & H1 & H).

Tactic Notation "run" ident(H) "as" ident(Op) :=
  let a := fresh "a" in let t := fresh "t" in apply bind_ok in H as (a & t & Op & H).

(** An operation that leaves the file alone, whether it succeeds or not. *)
Definition frames {A} (m : M A) : Prop := forall t, states (m t).2 = states t.

Lemma frames_bind {A B} (m : M A) (k : A -> M B) : frames m -> (forall a, frames (k a)) -> frames (bind m k).
Proof.
  intros Hm Hk t. unfold bind. specialize (Hm t). destruct (m t) as [[a|e] t1]; [|done]. cbn in Hm. by rewrite Hk.
Qed.

Lemma frames_ret {A} (a : A) : frames (ret a).
Proof. done. Qed.

Lemma frames_fail {A} e : frames (A := A) (fail e).
Proof. done. Qed.

Lemma frames_lift {A} (r : result A ScpError) : frames (lift r).
Proof. done. Qed.

Create HintDb scp.
#[export] Hint Resolve frames_bind frames_ret frames_fail frames_lift : scp.

Section facts.
Context (cancelled : nat -> bool) (fault : nat -> option string) (late : nat -> bool) (short : nat -> nat).

Local Abbreviation fill := (Scp.fill cancelled).
Local Abbreviation fill_if_empty := (Scp.fill_if_empty cancelled).
Local Abbreviation read_byte := (Scp.read_byte cancelled).
Local Abbreviation read_exact_from := (Scp.read_exact_from cancelled).
Local Abbreviation read_exact := (Scp.read_exact cancelled).
Local Abbreviation read_line_from := (Scp.read_line_from cancelled).
Local Abbreviation read_line := (Scp.read_line cancelled).
Local Abbreviation expect_ack := (Scp.expect_ack cancelled).

(** ** Operations that succeed *)

Lemma tick_moves t : moves t (tick t) "" [].
Proof. split; cbn; [done|by rewrite app_nil_r|done]. Qed.

Lemma check_ok what t u t' : race cancelled what (fun t => (Ok tt, tick t)) t = (Ok u, t') -> t' = tick t.
Proof. unfold race. destruct (cancelled _); [done|]. by intros [= _ <-]. Qed.

Lemma send_ok o f t u t' : send cancelled fault o f t = (Ok u, t') -> t' = put (tick t) o.
Proof. unfold send, race. destruct (cancelled _); [done|]. destruct (fault _); [done|]. by intros [= _ <-]. Qed.

Lemma send_moves o f t u t' : send cancelled fault o f t = (Ok u, t') -> moves t t' "" [o].
Proof. by intros ->%send_ok. Qed.

Lemma syscall_ok t u t' : syscall fault t = (Ok u, t') -> t' = tick t.
Proof. unfold syscall. destruct (fault _); [done|]. by intros [= _ <-]. Qed.

Lemma open_ok t u t' : open_channel cancelled fault t = (Ok u, t') -> t' = tick t.
Proof. unfold open_channel. destruct (cancelled (clock t)), (fault (clock t)); try done; by intros [= _ <-]. Qed.

Lemma usable_ok t u t' : usable t = (Ok u, t') -> t' = t /\ poisoned t = false.
Proof. unfold usable. destruct (poisoned t); [done|]. by intros [= _ <-]. Qed.

Lemma guard_ok (b : bool) e t u t' : (if b then fail e else ret tt) t = (Ok u, t') -> b = false /\ t' = t.
Proof. by destruct b; [|intros [= _ <-]]. Qed.

Lemma race_ok {A} what (m : M A) t u t' : race cancelled what m t = (Ok u, t') -> m t = (Ok u, t').
Proof. unfold race. by destruct (cancelled _). Qed.

Lemma lift_ok {A} (r : result A ScpError) t a t' : lift r t = (Ok a, t') -> r = Ok a /\ t' = t.
Proof. by intros [= -> ->]. Qed.

Lemma fill_await k msgs d k' msgs' :
  await cancelled fill_msg (Err (EChannelClosed "channel closed while reading")) k msgs = (Ok d, k', msgs') ->
  d <> "" /\ feed msgs = d +:+ feed msgs'.
Proof.
  revert k. induction msgs as [|m msgs IH]; intros k; cbn [await]; destruct (cancelled k); try done.
  destruct m as [d'| | | | | | |]; cbn [fill_msg feed]; try done; try apply IH.
  destruct d' as [|c d']; cbn [is_empty_str]; [apply IH|]. by intros [= <- _ <-].
Qed.

Lemma fill_ok t u t' : buf t = "" -> fill t = (Ok u, t') -> buf t' <> "" /\ moves t t' "" [].
Proof.
  intros Hb H. run_ok H. unfold awaiting in Op. destruct (await _ _ _ _ _) as [[r k] msgs] eqn:E.
  injection Op as -> <-. injection H as _ <-. apply fill_await in E as [Hd Hf]. split; [done|].
  split; [|by rewrite app_nil_r|done]. unfold unread. cbn. by rewrite Hb, Hf.
Qed.

Lemma fill_if_empty_ok t u t' : fill_if_empty t = (Ok u, t') -> buf t' <> "" /\ moves t t' "" [].
Proof.
  unfold Scp.fill_if_empty. destruct (is_empty_str (buf t)) eqn:E.
  - apply is_empty_str_spec in E. by apply fill_ok.
  - intros [= _ <-]. split; [|apply moves_refl]. intros E'. by rewrite E' in E.
Qed.

Lemma read_byte_ok t c t' : read_byte t = (Ok c, t') -> moves t t' (String c "") [].
Proof.
  intros H. run_ok H. apply fill_if_empty_ok in Op as [_ Hm]. destruct (buf t0) as [|c' b] eqn:Eb; [done|].
  injection H as -> <-. eapply moves_quiet; [exact Hm|]. split; [|by rewrite app_nil_r|done]. unfold unread. by rewrite Eb.
Qed.

(** The next part of what is to be read. *)
Definition take_part (n : nat) : M string := fun t =>
  let available := Nat.min n (slen (buf t)) in
  (Ok (str_take available (buf t)), with_reader t (str_drop available (buf t)) (inbox t) (clock t)).

Lemma read_exact_step fuel n :
  read_exact_from (S fuel) (S n) =
    do! fill_if_empty; let! part := take_part (S n) in
    let! rest := read_exact_from fuel (S n - slen part) in ret (part +:+ rest).
Proof. done. Qed.

Lemma take_part_ok n t s t' :
  buf t <> "" -> take_part (S n) t = (Ok s, t') -> 0 < slen s <= S n /\ moves t t' s [].
Proof.
  intros Hb [= <- <-]. change (match slen (buf t) with 0 => 0 | S m' => S (n `min` m') end) with (S n `min` slen (buf t)).
  rewrite take_len. assert (slen (buf t) > 0) by (destruct (buf t); [done|cbn; lia]). split; [lia|].
  split; [|by rewrite app_nil_r|done]. unfold unread. cbn [buf inbox with_reader]. by rewrite <- str_app_assoc, take_drop.
Qed.

Lemma read_exact_ok fuel n t s t' : read_exact_from fuel n t = (Ok s, t') -> slen s = n /\ moves t t' s [].
Proof.
  revert n t s t'. induction fuel as [|fuel IH]; intros [|n] t s t' H; try done.
  1,2: injection H as <- <-; split; [done|apply moves_refl].
  rewrite read_exact_step in H. run_ok H. apply fill_if_empty_ok in Op as [Hb Hm]. run_ok H. apply take_part_ok in Op as [Hl Hp]; [|done].
  run_ok H. apply IH in Op as [Hr Hq]. injection H as <- <-. split; [rewrite str_length_app; lia|].
  eapply moves_quiet; [exact Hm|]. exact (moves_trans _ _ _ _ _ [] [] Hp Hq).
Qed.

Lemma read_line_from_ok room line t s t' :
  read_line_from room line t = (Ok s, t') ->
  exists more, s = line +:+ more /\ contains_char NL more = false /\ slen more <= room /\ moves t t' (more +:+ String NL "") [].
Proof.
  revert line t t'. induction room as [|room IH]; intros line t t' H; cbn [Scp.read_line_from] in H; run_ok H;
    apply read_byte_ok in Op; destruct (Ascii.eqb_spec a NL) as [->|Hne]; try done.
  1,2: injection H as <- <-; exists ""; rewrite str_app_nil_r; split_and!; [done|done|cbn; lia|done].
  apply IH in H as (more & -> & Hn & Hl & Hm). exists (String a more). split_and!.
  - by rewrite str_app_assoc.
  - unfold contains_char in *. cbn [str_exists]. rewrite Hn, orb_false_r. by apply Ascii.eqb_neq, not_eq_sym.
  - cbn. lia.
  - exact (moves_trans _ _ _ (String a "") _ [] [] Op Hm).
Qed.

Lemma read_line_ok t s t' :
  read_line t = (Ok s, t') ->
  contains_char NL s = false /\ slen s <= MAX_CONTROL_LINE_LENGTH /\ utf8_valid s = true /\ moves t t' (s +:+ String NL "") [].
Proof.
  intros H. run_ok H. apply read_line_from_ok in Op as (more & -> & Hn & Hl & Hm).
  change ("" +:+ more) with more in *. destruct (utf8_valid more) eqn:E; [|done]. by injection H as <- <-.
Qed.

Lemma ack_ok t t' : read_ack cancelled t = (Ok AckSuccess, t') -> moves t t' NUL [].
Proof.
  intros H. run_ok H. apply read_byte_ok in Op. destruct (N_of_ascii a) as [|p] eqn:E.
  - injection H as <-. rewrite <- (ascii_N_embedding a), E in Op. done.
  - destruct p as [p|[p|p|]|]; try done; by run_ok H.
Qed.

Lemma ack_moves t a t' : read_ack cancelled t = (Ok a, t') -> exists got, moves t t' got [].
Proof.
  intros H. run_ok H. apply read_byte_ok in Op. destruct (N_of_ascii a0) as [|p]; [injection H as _ <-; eauto|].
  destruct p as [p|[p|p|]|]; try done; run H as L; apply read_line_ok in L as (_ & _ & _ & L);
    injection H as _ <-; eexists; exact (moves_trans _ _ _ _ _ [] [] Op L).
Qed.

Lemma expect_ack_ok t u t' : expect_ack t = (Ok u, t') -> moves t t' NUL [].
Proof.
  intros H. run_ok H. run_ok H. apply check_ok in Op as ->. destruct a0; try done. injection H as _ <-. apply ack_ok in Op0.
  eapply moves_quiet, Op0. apply tick_moves.
Qed.

Lemma exec_await k msgs d k' msgs' :
  await cancelled exec_msg (Err (EChannelClosed "channel closed before exec response")) k msgs = (Ok d, k', msgs') ->
  feed msgs = d +:+ feed msgs'.
Proof.
  revert k. induction msgs as [|m msgs IH]; intros k; cbn [await]; destruct (cancelled k); try done.
  destruct m; cbn [exec_msg feed]; try done; try apply IH; by intros [= <- _ <-].
Qed.

Lemma start_ok cmd t u t' :
  start_command cancelled fault cmd t = (Ok u, t') ->
  feed (inbox t) = unread t' /\ outbox t' = outbox t ++ [OExec cmd] /\ states t' = states t.
Proof.
  intros H. run_ok H. run_ok H. run_ok H. apply send_ok in Op as ->. apply check_ok in Op0 as ->.
  unfold awaiting in Op1. destruct (await _ _ _ _ _) as [[r k] msgs] eqn:E. injection Op1 as -> <-. injection H as _ <-.
  by apply exec_await in E.
Qed.

Lemma awaiting_frame {A} on_msg on_end t (r : result A ScpError) t' :
  awaiting cancelled on_msg on_end t = (r, t') -> outbox t' = outbox t /\ states t' = states t.
Proof. unfold awaiting. destruct (await _ _ _ _ _) as [[? ?] ?]. by intros [= _ <-]. Qed.

Lemma finish_ok t u t' :
  finish_command cancelled fault t = (Ok u, t') -> outbox t' = outbox t ++ [OEof] /\ states t' = states t.
Proof.
  intros H. run_ok H. run_ok H. apply send_ok in Op as ->. apply awaiting_frame in Op0 as [Ho Hs].
  destruct (_ =? 0)%N; [|done]. injection H as _ <-. by rewrite Ho, Hs.
Qed.

(** Operations before the channel is open only take time. *)
Ltac idle_op H :=
  run_ok H;
  match goal with
  | Op : _ ?t = (Ok _, _) |- _ =>
      first [ apply usable_ok in Op as [-> _] | apply check_ok in Op as -> | apply race_ok, syscall_ok in Op as ->
            | apply open_ok in Op as -> ]
  end.

Lemma check_moves t u t' : check_cancellation cancelled t = (Ok u, t') -> moves t t' "" [].
Proof. intros ->%check_ok. apply tick_moves. Qed.

Lemma syscall_moves what t u t' : race cancelled what (syscall fault) t = (Ok u, t') -> moves t t' "" [].
Proof. intros ->%race_ok%syscall_ok. apply tick_moves. Qed.

(** The operations of the protocol. *)
Ltac moves_op H :=
  run_ok H;
  match goal with
  | Op : _ ?t = (Ok _, _) |- _ =>
      first [ apply expect_ack_ok in Op | apply send_moves in Op | apply check_moves in Op | apply syscall_moves in Op ]
  end.

Ltac chain_moves :=
  repeat match goal with
  | A : moves ?a ?b _ _, B : moves ?b ?c _ _ |- _ => pose proof (moves_trans _ _ _ _ _ _ _ A B); clear A B
  end.

(** ** Upload *)

Definition str_concat (l : list string) : string := foldr String.append "" l.

Lemma read_chunk_ok to_read content t n t' :
  read_chunk cancelled fault short to_read content t = (Ok n, t') -> n <= to_read /\ n <= slen content /\ t' = tick t.
Proof.
  intros H%race_ok. destruct (fault _); [done|]. set (x := Nat.min to_read _) in H.
  assert (x <= to_read /\ x <= slen content) as [??] by (subst x; lia). clearbody x. by injection H as <- <-.
Qed.

Lemma stream_step fuel todo content :
  stream_file cancelled fault short (S fuel) (S todo) content =
    do! check_cancellation cancelled; let! n := read_chunk cancelled fault short (Nat.min (S todo) CHUNK_SIZE) content in
    match n with
    | O => fail (EIo UnexpectedEof "local file ended early")
    | S _ => do! data cancelled fault (str_take n content);
             stream_file cancelled fault short fuel (S todo - n) (str_drop n content)
    end.
Proof. done. Qed.

Lemma stream_ok fuel todo content t u t' :
  stream_file cancelled fault short fuel todo content t = (Ok u, t') ->
  todo <= slen content /\
  exists chunks, str_concat chunks = str_take todo content /\ moves t t' "" (OData <$> chunks).
Proof.
  revert todo content t. induction fuel as [|fuel IH]; intros [|todo] content t H; try done.
  1,2: injection H as _ <-; split; [lia|]; exists []; split; [by destruct content|apply moves_refl].
  rewrite stream_step in H. run_ok H. apply check_ok in Op as ->. run_ok H. apply read_chunk_ok in Op as (H1 & H2 & ->).
  destruct a0 as [|n]; [done|]. run_ok H. apply send_moves in Op. apply IH in H as (Hl & chunks & Hc & Hm).
  rewrite drop_len in Hl. assert (S n <= S todo) by lia.
  split; [lia|]. exists (str_take (S n) content :: chunks). split.
  - cbn [str_concat foldr]. change (foldr String.append "" chunks) with (str_concat chunks).
    rewrite Hc, <- take_plus. f_equal. lia.
  - eapply moves_quiet; [apply tick_moves|]. eapply moves_quiet; [apply tick_moves|].
    exact (moves_trans _ _ _ "" "" _ _ Op Hm).
Qed.

Lemma regular_ok path kind u : validate_regular_file path kind = Ok u -> kind = Regular.
Proof. by destruct kind. Qed.

Lemma warnings_ok ack t w t' :
  match ack with AckSuccess => ret [] | AckWarning msg => ret [msg] | AckError msg => fail (scp_error msg) end t = (Ok w, t') ->
  t' = t.
Proof. by destruct ack; try done; intros [= _ <-]. Qed.

(** An upload that succeeds has sent the whole file, in order: the quoted
    command, the times, the header with the mode, the size and the name, the
    first [size] bytes of the file cut into chunks, the closing zero byte, the
    end line and the end of data.  The file was a regular one with at least as
    many bytes as its header announced, its name has no line break, and the
    peer had acknowledged the start, both headers and the data. *)
Theorem upload_sends_the_file opened dir t o t' :
  upload cancelled fault short opened dir t = (Ok o, t') ->
  exists file name chunks rest,
    opened = Ok file /\ lf_kind file = Regular /\ lf_name file = Some name /\ contains_char NL name = false /\
    bytes_transferred o = lf_len file /\ N.to_nat (lf_len file) <= slen (lf_content file) /\
    str_concat chunks = str_take (N.to_nat (lf_len file)) (lf_content file) /\
    outbox t' = outbox t ++
      [OExec ("scp -p -d -t -- " +:+ shell_escape dir); OData (t_header file);
       OData (c_header (N.land (lf_mode file) 511) (lf_len file) name)] ++
      (OData <$> chunks) ++ [OData NUL; OData ("E" +:+ String NL ""); OEof] /\
    feed (inbox t) = (NUL +:+ NUL +:+ NUL +:+ NUL) +:+ rest.
Proof.
  intros H. idle_op H. run H as Ho. apply race_ok in Ho. injection Ho as Hopen <-.
  destruct opened as [file|e]; [|done]. injection Hopen as ->.
  idle_op H. run H as Hk. apply lift_ok in Hk as [Hk%regular_ok ->]. run H as Hname. apply lift_ok in Hname as [Hname ->].
  destruct (lf_name a0) as [name|] eqn:En; [|done]. injection Hname as ->.
  run H as Hnl. apply guard_ok in Hnl as [Hnl ->]. do 2 idle_op H. run H as Hs. apply start_ok in Hs as (Hf & Ho & _).
  do 5 moves_op H. run H as Hst. apply stream_ok in Hst as (Hlen & chunks & Hc & Hm). do 5 moves_op H.
  run H as Hack. apply ack_moves in Hack as [got Hack]. run H as Hw. run H as Hfin. injection H as <- <-.
  apply finish_ok in Hfin as [Hfin _]. apply warnings_ok in Hw as ->. chain_moves.
  match goal with R : moves _ _ _ _ |- _ => destruct R as [R1 R2 _] end.
  eexists _, _, chunks, _. split_and!; [done..|exact Hc| |].
  - rewrite Hfin, R2, Ho, <- !app_assoc. done.
  - cbn in Hf. rewrite Hf, R1, !str_app_assoc. done.
Qed.

(** ** Download *)

Lemma file_op_ok what change failed t u t' i l :
  states t = i :: l -> file_op cancelled fault late what change failed t = (Ok u, t') ->
  t' = with_states (tick t) (change i :: i :: l).
Proof.
  intros Hs. unfold file_op. destruct (cancelled _); [done|]. destruct (fault _); [done|].
  intros [= _ <-]. cbn [states tick with_reader]. by rewrite Hs.
Qed.

Lemma write_ok d t u t' i l :
  states t = i :: l -> write_all cancelled fault late short d t = (Ok u, t') ->
  t' = with_states (tick t) (append d i :: i :: l).
Proof. apply file_op_ok. Qed.

Lemma append_append a b i : append b (append a i) = append (a +:+ b) i.
Proof. unfold append. cbn. by rewrite str_app_assoc. Qed.

Lemma receive_step fuel todo :
  receive_file cancelled fault late short (S fuel) (S todo) =
    do! check_cancellation cancelled; let! d := read_exact (Nat.min (S todo) CHUNK_SIZE) in
    do! write_all cancelled fault late short d; receive_file cancelled fault late short fuel (S todo - slen d).
Proof. done. Qed.

Lemma receive_ok fuel todo t u t' i l :
  states t = i :: l -> receive_file cancelled fault late short fuel todo t = (Ok u, t') ->
  exists payload l', slen payload = todo /\ unread t = payload +:+ unread t' /\ outbox t' = outbox t /\
    states t' = append payload i :: l'.
Proof.
  revert todo t i l. induction fuel as [|fuel IH]; intros [|todo] t i l Hs H; try done.
  1,2: injection H as _ <-; exists "", l; split_and!; [done..|]; rewrite Hs; destruct i; unfold append; cbn; by rewrite str_app_nil_r.
  rewrite receive_step in H.
  moves_op H. run H as R. apply read_exact_ok in R as [Hl R]. chain_moves.
  match goal with R : moves _ _ _ _ |- _ => destruct R as [R1 R2 R3] end.
  run H as W. apply (write_ok _ _ _ _ i l) in W as ->; [|by rewrite R3]. eapply IH in H as (payload & l' & Hp & Hu & Ho & Hst); [|done].
  exists (a0 +:+ payload), l'. rewrite str_length_app, append_append in *. cbn in Hu, Ho. split_and!.
  - lia.
  - rewrite R1, str_app_nil, str_app_assoc. f_equal. exact Hu.
  - by rewrite Ho, R2, app_nil_r.
  - done.
Qed.

Lemma prepare_ok path mode t u t' i l :
  states t = i :: l -> prepare_destination cancelled fault late path mode t = (Ok u, t') ->
  i_kind i = Regular /\ unread t' = unread t /\ outbox t' = outbox t /\
  let a := chmod (N.land (N.land (i_mode i) 511) mode) i in
  states t' = chmod mode (truncate a) :: truncate a :: a :: i :: l.
Proof.
  intros Hs H. idle_op H. run H as Hi. cbn [states tick with_reader] in Hi. rewrite Hs in Hi. injection Hi as <- <-.
  run H as Hk. apply lift_ok in Hk as [Hk%regular_ok ->].
  run H as O1. apply (file_op_ok _ _ _ _ _ _ i l) in O1 as ->; [|done]. run H as O2. eapply file_op_ok in O2; [|done]. subst.
  run H as O3. eapply file_op_ok in O3; [|done]. subst. run H as O4. apply syscall_ok in O4 as ->. apply syscall_ok in H as ->.
  done.
Qed.

Lemma no_error_line header t u t' :
  match header with
  | String c rest => if (N_of_ascii c =? 1)%N || (N_of_ascii c =? 2)%N then fail (scp_error rest) else ret tt
  | EmptyString => ret tt
  end t = (Ok u, t') -> t' = t.
Proof. destruct header as [|c s]; [by intros [= _ <-]|]. by intros [_ ->]%guard_ok. Qed.

Lemma destination_ok open_dest mode t u t' :
  open_destination cancelled late open_dest mode t = (Ok u, t') ->
  exists i, open_dest mode = Ok i /\ t' = with_states (tick t) [i].
Proof. unfold open_destination. destruct (cancelled _); [done|]. destruct (open_dest mode); [|done]. intros [= _ <-]. eauto. Qed.

Lemma request_ok remote t a t' :
  request_file cancelled fault remote t = (Ok a, t') ->
  exists header, parse_c_header header = Ok a /\ contains_char "/" a.2 = false /\
    feed (inbox t) = (header +:+ String NL "") +:+ unread t' /\ states t' = states t /\
    outbox t' = outbox t ++ [OExec ("scp -f -- " +:+ shell_escape remote); OData NUL].
Proof.
  intros H. do 3 idle_op H. run H as Hs. apply start_ok in Hs as (Hf & Ho & Hst). do 2 moves_op H.
  run H as L. apply read_line_ok in L as (_ & _ & _ & L). run H as He. apply no_error_line in He as ->.
  run H as Hp. apply lift_ok in Hp as [Hp ->]. run H as Hn. apply guard_ok in Hn as [Hn ->]. injection H as <- <-.
  chain_moves. match goal with R : moves _ _ _ _ |- _ => destruct R as [R1 R2 R3] end.
  eexists. split_and!; [exact Hp|done| | |].
  - change (feed (inbox t) = unread t0) in Hf. by rewrite Hf, R1.
  - by rewrite R3, Hst.
  - rewrite R2, Ho, <- !app_assoc. done.
Qed.

Lemma store_ok local open_dest mode size t u t' :
  store_file cancelled fault late short local open_dest mode size t = (Ok u, t') ->
  exists payload rest older,
    unread t = payload +:+ NUL +:+ rest /\ slen payload = N.to_nat size /\
    states t' = {| i_kind := Regular; i_mode := mode; i_data := payload |} :: older /\
    outbox t' = outbox t ++ [OData NUL; OData NUL; OEof].
Proof.
  intros H. run H as Hd. apply destination_ok in Hd as (i & _ & ->).
  run H as Hpr. eapply prepare_ok in Hpr as (Hk & Hu & Hop & Hl); [|done]. cbv zeta in Hl.
  moves_op H. rename Op into S1. destruct S1 as [S1 S2 S3].
  run H as Hr. eapply receive_ok in Hr as (payload & l' & Hlen & Hu' & Ho' & Hst); [|by rewrite S3].
  do 3 moves_op H. apply finish_ok in H as [Hfin Hfs]. chain_moves.
  match goal with R : moves _ _ _ _ |- _ => destruct R as [T1 T2 T3] end.
  eexists payload, _, l'. split_and!; [|done| |].
  - etrans; [exact (eq_sym Hu)|]. rewrite S1, str_app_nil, Hu', T1, !str_app_nil. by rewrite !str_app_assoc.
  - rewrite Hfs, T3, Hst. unfold append, chmod, truncate. cbn. by rewrite Hk, str_app_nil.
  - rewrite Hfin, T2, Ho', S2, Hop, <- !app_assoc. done.
Qed.

(** C22 A download that succeeds has stored exactly what was sent.  The bytes of
    the peer, however they were cut into messages, are a header line, as many
    bytes as the header announces, a zero byte and the rest; the local file is
    a regular one that holds exactly those bytes, with the permission bits of
    the header and none of its other mode bits. *)
Theorem download_stores_what_was_sent remote local open_dest t o t' :
  download cancelled fault late short remote local open_dest t = (Ok o, t') ->
  exists header raw size name payload rest older,
    feed (inbox t) = (header +:+ String NL "") +:+ payload +:+ NUL +:+ rest /\
    parse_c_header header = Ok (raw, size, name) /\ contains_char "/" name = false /\
    slen payload = N.to_nat size /\ bytes_transferred o = size /\
    states t' = {| i_kind := Regular; i_mode := N.land raw 511; i_data := payload |} :: older /\
    outbox t' = outbox t ++
      [OExec ("scp -f -- " +:+ shell_escape remote); OData NUL; OData NUL; OData NUL; OEof].
Proof.
  intros H. run H as Hr. apply request_ok in Hr as (header & Hp & Hn & Hf & _ & Ho).
  destruct a as [[raw size] name]. run H as Hs. apply store_ok in Hs as (payload & rest & older & Hu & Hl & Hst & Ho').
  injection H as <- <-. exists header, raw, size, name, payload, rest, older. split_and!; [|done..|].
  - by rewrite Hf, Hu.
  - by rewrite Ho', Ho, <- app_assoc.
Qed.

(** ** Transfers that do not finish *)

Lemma frames_race {A} what (m : M A) : frames m -> frames (race cancelled what m).
Proof. intros Hm t. unfold race. destruct (cancelled _); [done|apply Hm]. Qed.

Lemma frames_check : frames (check_cancellation cancelled).
Proof. by apply frames_race. Qed.

Lemma frames_syscall : frames (syscall fault).
Proof. intros t. unfold syscall. by destruct (fault _). Qed.

Lemma frames_send o f : frames (send cancelled fault o f).
Proof. apply frames_race. intros t. by destruct (fault _). Qed.

Lemma frames_awaiting {A} on_msg (on_end : result A ScpError) : frames (awaiting cancelled on_msg on_end).
Proof. intros t. destruct (awaiting cancelled on_msg on_end t) as [r t'] eqn:E. by apply awaiting_frame in E as [_ ?]. Qed.

Lemma frames_read_byte : frames read_byte.
Proof.
  apply frames_bind.
  - intros t. unfold Scp.fill_if_empty. destruct (is_empty_str _); [|done].
    apply frames_bind; [apply frames_awaiting|done].
  - intros _ t. by destruct (buf t).
Qed.

Lemma frames_read_line : frames read_line.
Proof.
  assert (forall room line, frames (read_line_from room line)) as H.
  { induction room as [|room IH]; intros line; cbn [Scp.read_line_from];
      (apply frames_bind; [apply frames_read_byte|]); intros c; destruct (Ascii.eqb c NL); auto with scp. }
  apply frames_bind; [apply H|]. intros line. destruct (utf8_valid line); auto with scp.
Qed.

Lemma frames_expect_ack : frames expect_ack.
Proof.
  apply frames_bind; [apply frames_check|]. intros _. apply frames_bind; [|by intros []].
  apply frames_bind; [apply frames_read_byte|]. intros c. destruct (N_of_ascii c) as [|p]; [done|].
  destruct p as [p|[p|p|]|]; try done; (apply frames_bind; [apply frames_read_line|done]).
Qed.

Lemma frames_read_exact fuel n : frames (read_exact_from fuel n).
Proof.
  revert n. induction fuel as [|fuel IH]; intros [|n]; try done. rewrite read_exact_step. apply frames_bind.
  - intros t. unfold Scp.fill_if_empty. destruct (is_empty_str _); [|done]. apply frames_bind; [apply frames_awaiting|done].
  - intros _. apply frames_bind; [done|]. intros part. apply frames_bind; [apply IH|done].
Qed.

Lemma frames_finish : frames (finish_command cancelled fault).
Proof.
  apply frames_bind; [apply frames_send|]. intros _. apply frames_bind; [apply frames_awaiting|].
  intros n. destruct (n =? 0)%N; auto with scp.
Qed.

Lemma frames_start cmd : frames (start_command cancelled fault cmd).
Proof.
  apply frames_bind; [apply frames_send|]. intros _. apply frames_bind; [apply frames_check|]. intros _.
  apply frames_bind; [apply frames_awaiting|done].
Qed.

Lemma bind_states {A B} (P : list Inode -> Prop) (m : M A) (k : A -> M B) t :
  P (states (m t).2) -> (forall a t1, m t = (Ok a, t1) -> P (states (k a t1).2)) -> P (states (bind m k t).2).
Proof. unfold bind. destruct (m t) as [[a|e] t1]; auto. Qed.

Lemma bind_states_frame {A B} (P : list Inode -> Prop) (m : M A) (k : A -> M B) t :
  frames m -> P (states t) -> (forall a t1, m t = (Ok a, t1) -> states t1 = states t -> P (states (k a t1).2)) ->
  P (states (bind m k t).2).
Proof.
  intros Hm HP Hk. apply bind_states; [by rewrite Hm|]. intros a t1 E. apply (Hk a t1 E). specialize (Hm t). by rewrite E in Hm.
Qed.

Lemma file_op_states what change failed t i l :
  states t = i :: l ->
  let t' := (file_op cancelled fault late what change failed t).2 in
  states t' = change i :: i :: l \/ states t' = failed i :: i :: l.
Proof.
  intros Hs. unfold file_op.
  destruct (cancelled (clock t)), (late (clock t)), (fault (clock t)); cbn; rewrite Hs; auto.
Qed.

Definition str_prefix (p s : string) : Prop := exists r, s = p +:+ r.

(** Whatever happens while the data is received, the file only takes states
    that append a part of the unread bytes. *)
Lemma receive_grows (good : Inode -> Prop) fuel todo t i l :
  states t = i :: l -> (forall p, str_prefix p (unread t) -> good (append p i)) ->
  exists new, states (receive_file cancelled fault late short fuel todo t).2 = new ++ i :: l /\ Forall good new.
Proof.
  revert todo t i l. induction fuel as [|fuel IH]; intros [|todo] t i l Hs Hg; [by exists []..|].
  rewrite receive_step.
  set (P := fun x => exists new, x = new ++ i :: l /\ Forall good new). match goal with |- exists new, ?x = _ /\ _ => change (P x) end.
  assert (P (i :: l)) as HP0 by (by exists []).
  apply bind_states_frame; [apply frames_check|by rewrite Hs|]. intros _ t1 C%check_moves H1.
  apply bind_states_frame; [apply frames_read_exact|by rewrite H1, Hs|]. intros d t2 [_ R]%read_exact_ok H2.
  pose proof (moves_trans _ _ _ _ _ _ _ C R) as [Hu _ _]. rewrite str_app_nil in Hu.
  rewrite H1, Hs in H2. apply bind_states.
  - destruct (file_op_states "cancelled during file write" (append d) (append (str_take (short (clock t2)) d)) _ _ _ H2) as [E|E];
      unfold write_all; rewrite E.
    + exists [append d i]. split; [done|]. constructor; [|done]. apply Hg. by exists (unread t2).
    + exists [append (str_take (short (clock t2)) d) i]. split; [done|]. constructor; [|done].
      apply Hg. exists (str_drop (short (clock t2)) d +:+ unread t2). by rewrite <- str_app_assoc, take_drop.
  - intros u t3 W. apply (write_ok _ _ _ _ _ _ H2) in W as ->.
    edestruct (IH (S todo - slen d) (with_states (tick t2) (append d i :: i :: l)) (append d i) (i :: l)) as (new & E & Hn); [done| |].
    + intros p [r Hr]. rewrite append_append. apply Hg. exists r. rewrite Hu, str_app_assoc. f_equal. exact Hr.
    + exists (new ++ [append d i]). rewrite E, <- app_assoc. split; [done|]. apply Forall_app. split; [done|].
      constructor; [|done]. apply Hg. by exists (unread t2).
Qed.

(** The states of the destination while it is prepared. *)
Lemma prepare_states path mode t i :
  states t = [i] ->
  let a := chmod (N.land (N.land (i_mode i) 511) mode) i in
  exists new, states (prepare_destination cancelled fault late path mode t).2 = new ++ [i] /\
    (Forall (fun s => s = i \/ s = a) new \/
     a ∈ new /\ Forall (fun s => s = a \/ s = truncate a \/ s = chmod mode (truncate a)) new).
Proof.
  intros Hs a. set (P := fun x => exists new, x = new ++ [i] /\
    (Forall (fun s => s = i \/ s = a) new \/ a ∈ new /\ Forall (fun s => s = a \/ s = truncate a \/ s = chmod mode (truncate a)) new)).
  change (P (states (prepare_destination cancelled fault late path mode t).2)).
  assert (P [i]) as P0 by (exists []; split; [done|by left]).
  assert (P [i; i]) as P1 by (exists [i]; split; [done|left; auto]).
  assert (P [a; i]) as P2 by (exists [a]; split; [done|left; auto]).
  assert (P [a; a; i]) as P3 by (exists [a; a]; split; [done|left; auto]).
  assert (forall l, Forall (fun s => s = a \/ s = truncate a \/ s = chmod mode (truncate a)) l -> P (l ++ [a; i])) as P4.
  { intros l Hl. exists (l ++ [a]). rewrite <- app_assoc. split; [done|]. right. split; [set_solver|].
    apply Forall_app. split; [done|]. auto. }
  unfold prepare_destination. apply bind_states_frame; [apply frames_race, frames_syscall|by rewrite Hs|].
  intros _ t1 _ H1. apply bind_states; [by rewrite <- Hs, <- H1 in P0|]. intros i' t2 E. rewrite H1, Hs in E. injection E as <- <-.
  apply bind_states_frame; [done|by rewrite H1, Hs|]. intros _ t2 _ H2. rewrite H1, Hs in H2.
  apply bind_states.
  { destruct (file_op_states "cancelled during chmod" (chmod (N.land (N.land (i_mode i) 511) mode)) (fun i => i) _ _ _ H2) as [E|E];
      unfold set_permissions; by rewrite E. }
  intros u3 t3 O. eapply file_op_ok in O; [|done]. assert (states t3 = [a; i]) as H3 by (by rewrite O). clear H2 O.
  apply bind_states.
  { destruct (file_op_states "cancelled during truncate" truncate (fun i => i) _ _ _ H3) as [E|E];
      unfold set_len_0; rewrite E; [apply (P4 [truncate a])|done]. auto. }
  intros u4 t4 O. eapply file_op_ok in O; [|done]. assert (states t4 = [truncate a; a; i]) as H4 by (by rewrite O). clear H3 O.
  apply bind_states.
  { destruct (file_op_states "cancelled during chmod" (chmod mode) (fun i => i) _ _ _ H4) as [E|E];
      unfold set_permissions; rewrite E; [apply (P4 [chmod mode (truncate a); truncate a])|apply (P4 [truncate a; truncate a])]; auto. }
  intros u5 t5 O. eapply file_op_ok in O; [|done].
  assert (states t5 = [chmod mode (truncate a); truncate a; a; i]) as H5 by (by rewrite O).
  rewrite frames_bind by (auto using frames_syscall). rewrite H5. apply (P4 [chmod mode (truncate a); truncate a]). auto.
Qed.

(** The old data under bits of the old mode, or new data under bits of the
    new one. *)
Definition guarded (i0 : Inode) (mode : N) (sent : string) (s : Inode) : Prop :=
  (i_data s = i_data i0 /\ N.land (i_mode s) (i_mode i0) = i_mode s) \/
  (str_prefix (i_data s) sent /\ N.land (i_mode s) mode = i_mode s).

Definition interim (i0 : Inode) (mode : N) : Inode := chmod (N.land (N.land (i_mode i0) 511) mode) i0.

Lemma land_sub a b : N.land (N.land a b) a = N.land a b.
Proof. by rewrite (N.land_comm a b), <- N.land_assoc, N.land_diag. Qed.

Lemma interim_narrow i0 mode : N.land (i_mode (interim i0 mode)) (i_mode i0) = i_mode (interim i0 mode).
Proof. cbn. rewrite <- (N.land_assoc (i_mode i0) 511 mode). apply land_sub. Qed.

Lemma interim_mode i0 mode : N.land (i_mode (interim i0 mode)) mode = i_mode (interim i0 mode).
Proof. cbn. by rewrite <- !N.land_assoc, N.land_diag. Qed.

Lemma prepared_guarded i0 mode sent s :
  s = i0 \/ s = interim i0 mode \/ s = truncate (interim i0 mode) \/ s = chmod mode (truncate (interim i0 mode)) ->
  guarded i0 mode sent s.
Proof.
  intros [->|[->|[->| ->]]].
  - left. by rewrite N.land_diag.
  - left. split; [done|apply interim_narrow].
  - right. split; [by exists sent|apply interim_mode].
  - right. split; [by exists sent|apply N.land_diag].
Qed.

(** What an attempt leaves behind: every state is guarded, and the old data is
    gone only after the narrowing took effect. *)
Definition contained (i0 : Inode) (mode : N) (sent : string) (l : list Inode) : Prop :=
  last l = Some i0 /\ Forall (guarded i0 mode sent) l /\
  (Exists (fun s => i_data s <> i_data i0) l -> interim i0 mode ∈ l).

Lemma prepare_contained path mode sent t i :
  states t = [i] -> contained i mode sent (states (prepare_destination cancelled fault late path mode t).2).
Proof.
  intros Hs. pose proof (prepare_states path mode t i Hs) as H. cbv zeta in H. fold (interim i mode) in H.
  destruct H as (new & -> & H).
  split; [by rewrite last_snoc|]. split.
  - apply Forall_app. split; [|constructor; [apply prepared_guarded; auto|done]].
    destruct H as [H|[_ H]]; (eapply Forall_impl; [exact H|]); intros s Hs'; cbv beta in Hs'; apply prepared_guarded; tauto.
  - intros E. destruct H as [H|[H _]]; [|set_solver]. exfalso. apply Exists_exists in E as (s & Hin & Hne).
    apply elem_of_app in Hin as [Hin|Hin%list_elem_of_singleton]; [|by subst].
    apply (proj1 (Forall_forall _ _) H) in Hin as [->| ->]; done.
Qed.

Lemma single_contained i mode sent : contained i mode sent [i].
Proof.
  split; [done|]. split; [constructor; [apply prepared_guarded; auto|done]|].
  intros [H|H]%Exists_cons; [done|by apply Exists_nil in H].
Qed.

Lemma received_contained i mode sent new :
  Forall (fun s => str_prefix (i_data s) sent /\ i_mode s = mode) new ->
  contained i mode sent (new ++ [chmod mode (truncate (interim i mode)); truncate (interim i mode); interim i mode; i]).
Proof.
  intros H. split; [|split].
  - rewrite last_app. done.
  - apply Forall_app. split.
    + eapply Forall_impl; [exact H|]. intros s [Hp <-]. right. split; [done|apply N.land_diag].
    + do 4 (constructor; [apply prepared_guarded; tauto|]). done.
  - set_solver.
Qed.

Lemma frames_request remote : frames (request_file cancelled fault remote).
Proof.
  apply frames_bind; [intros x; unfold usable; by destruct (poisoned x)|intros _].
  apply frames_bind; [by apply frames_race|intros _].
  apply frames_bind; [intros x; unfold open_channel; by destruct (cancelled (clock x)), (fault (clock x))|intros _].
  apply frames_bind; [apply frames_start|intros _]. apply frames_bind; [apply frames_send|intros _].
  apply frames_bind; [apply frames_check|intros _]. apply frames_bind; [apply frames_read_line|intros header].
  apply frames_bind; [destruct header as [|c s]; [done|]; by destruct (_ || _)|intros _].
  apply frames_bind; [done|intros parsed]. apply frames_bind; [by destruct (contains_char _ _)|done].
Qed.

Lemma frames_after {A B} (m : M A) (b : B) t : states (bind m (fun _ => ret b) t).2 = states (m t).2.
Proof. unfold bind. by destruct (m t) as [[]]. Qed.

Lemma store_contained local open_dest mode size t :
  states t = [] ->
  let l := states (store_file cancelled fault late short local open_dest mode size t).2 in
  l = [] \/ exists i0, open_dest mode = Ok i0 /\ contained i0 mode (unread t) l.
Proof.
  intros Hs. cbv zeta. unfold store_file.
  set (P := fun l => l = [] \/ exists i0, open_dest mode = Ok i0 /\ contained i0 mode (unread t) l).
  match goal with |- ?x = [] \/ _ => change (P x) end. apply bind_states.
  { unfold open_destination. destruct (cancelled (clock t)), (open_dest mode) as [i|] eqn:E, (late (clock t)); cbn; try by left.
    all: right; exists i; split; [done|]; apply single_contained. }
  intros u1 t1 (i & Ho & ->)%destination_ok. apply bind_states.
  { right. exists i. split; [done|]. by apply (prepare_contained _ _ _ (with_states (tick t) [i])). }
  intros u2 t2 E. eapply prepare_ok in E as (_ & Hu & _ & Hst); [|done]. fold (interim i mode) in Hst. cbv zeta in Hst.
  assert (forall new, Forall (fun s => str_prefix (i_data s) (unread t) /\ i_mode s = mode) new -> P (new ++ states t2)) as Hnew.
  { intros new Hn. right. exists i. split; [done|]. rewrite Hst. by apply received_contained. }
  apply bind_states_frame; [apply frames_send|by apply (Hnew [])|]. intros u3 t3 [M1 _ _]%send_moves H3.
  assert (exists new, states (receive_file cancelled fault late short (N.to_nat size) (N.to_nat size) t3).2 = new ++ states t2 /\
    Forall (fun s => str_prefix (i_data s) (unread t) /\ i_mode s = mode) new) as (new & E & Hn).
  { rewrite Hst. apply receive_grows; [by rewrite H3|]. intros p [r Hr]. split; [|done]. exists r.
    etrans; [exact (eq_sym Hu)|]. by rewrite M1, str_app_nil. }
  apply bind_states; [rewrite E; by apply Hnew|]. intros u4 t4 E4. rewrite E4 in E. cbn in E.
  match goal with |- P (states (?m t4).2) => assert (frames m) as -> end; [|rewrite E; by apply Hnew].
  apply frames_bind; [apply frames_race, frames_syscall|intros _]. apply frames_bind; [apply frames_expect_ack|intros _].
  apply frames_bind; [apply frames_send|intros _]. apply frames_finish.
Qed.

(** C21 Whatever happens to a download, error, cancellation or success, the
    destination never shows data to more readers than before.  Either no file was
    opened, or every state the file went through has the old data under a
    subset of the old permission bits, or a part of the bytes the peer sent
    after the header under a subset of the requested permission bits, which
    never include more than the nine plain ones; and the old data is gone only
    after the narrowed mode was applied. *)
Theorem download_never_exposes remote local open_dest t :
  states t = [] ->
  let l := states (download cancelled fault late short remote local open_dest t).2 in
  l = [] \/
  exists header raw size name sent i0,
    feed (inbox t) = (header +:+ String NL "") +:+ sent /\ parse_c_header header = Ok (raw, size, name) /\
    open_dest (N.land raw 511) = Ok i0 /\ contained i0 (N.land raw 511) sent l.
Proof.
  intros Hs. cbv zeta. unfold download. match goal with |- context [states ?x] => match x with (bind _ _ _).2 => pattern (states x) end end.
  apply bind_states_frame; [apply frames_request|by left|].
  intros [[raw size] name] t1 (header & Hp & _ & Hf & Hst & _)%request_ok _. rewrite Hs in Hst.
  rewrite frames_after by done. destruct (store_contained local open_dest (N.land raw 511) size t1 Hst) as [E|(i0 & Ho & Hc)]; [by left|].
  right. exists header, raw, size, name, (unread t1), i0. done.
Qed.

End facts.

(** ** With a well-behaved peer

    Nothing is cancelled, nothing fails, and the peer reports no failure: the
    transfer succeeds however the bytes are cut into messages. *)

Definition benign (m : ChannelMsg) : Prop :=
  match m with ExitStatus n => n = 0%N | ExitSignal _ _ => False | _ => True end.

Section completes.
Context (late : nat -> bool) (short : nat -> nat).

Local Abbreviation never := (fun _ : nat => false).
Local Abbreviation healthy := (fun _ : nat => @None string).

(** [t'] is [t] after some operations, with [s] still to be read. *)
Record leaves (t t' : Transfer) (s : string) : Prop := {
  leaves_unread : unread t' = s;
  leaves_calm : Forall benign (inbox t) -> Forall benign (inbox t');
}.

Lemma leaves_trans t1 t2 t3 s s' : leaves t1 t2 s -> leaves t2 t3 s' -> leaves t1 t3 s'.
Proof. intros [_ B1] [A2 B2]. split; auto. Qed.

(** A run that succeeds with [a]. *)
Definition runs {A} (m : M A) (t : Transfer) (a : A) (s : string) : Prop :=
  exists t', m t = (Ok a, t') /\ leaves t t' s.

Lemma runs_bind {A B} (m : M A) (k : A -> M B) t a b s s' :
  runs m t a s -> (forall t', unread t' = s -> runs (k a) t' b s') -> runs (bind m k) t b s'.
Proof.
  intros (t1 & E & L) Hk. destruct (Hk t1) as (t2 & E' & L'); [apply L..|]. exists t2. split; [|by eapply leaves_trans].
  by rewrite (bind_run _ _ _ _ _ E).
Qed.

Lemma runs_ret {A} (a : A) t : runs (ret a) t a (unread t).
Proof. by exists t. Qed.

Lemma check_runs what t : runs (race never what (fun t => (Ok tt, tick t))) t tt (unread t).
Proof. by exists (tick t). Qed.

Lemma send_runs o f t : runs (send never healthy o f) t tt (unread t).
Proof. by exists (put (tick t) o). Qed.

Lemma syscall_runs what t : runs (race never what (syscall healthy)) t tt (unread t).
Proof. by exists (tick t). Qed.

Lemma fill_runs t c s : buf t = "" -> unread t = String c s ->
  exists t', Scp.fill never t = (Ok tt, t') /\ buf t' <> "" /\ leaves t t' (unread t).
Proof.
  intros Hb. unfold unread. rewrite Hb. change ("" +:+ feed (inbox t)) with (feed (inbox t)). intros Hf.
  assert (exists d k msgs, await never fill_msg (Err (EChannelClosed "channel closed while reading")) (clock t) (inbox t)
    = (Ok d, k, msgs) /\ (Forall benign (inbox t) -> Forall benign msgs)) as (d & k & msgs & E & Hc).
  { revert Hf. generalize (clock t). induction (inbox t) as [|m msgs IH]; intros k Hf; [done|]. cbn [await].
    destruct m as [d| | | | | | |]; cbn [fill_msg]; try done.
    2-6: (destruct (IH (S k)) as (d' & k' & msgs' & E & Hc); [exact Hf|]; exists d', k', msgs'; split; [done|]; intros [_ ?]%Forall_cons; auto).
    destruct d as [|x d]; cbn [is_empty_str].
    - destruct (IH (S k)) as (d' & k' & msgs' & E & Hc); [exact Hf|]. exists d', k', msgs'. split; [done|]. intros [_ ?]%Forall_cons; auto.
    - eexists _, _, _. split; [done|]. intros [_ ?]%Forall_cons; auto. }
  pose proof E as [Hd Hfd]%fill_await. exists (with_reader t d msgs k). split; [|split; [done|]].
  - unfold Scp.fill, bind, awaiting. by rewrite E.
  - by split.
Qed.

Lemma fill_if_empty_runs t c s : unread t = String c s ->
  exists t', Scp.fill_if_empty never t = (Ok tt, t') /\ buf t' <> "" /\ leaves t t' (unread t).
Proof.
  intros Hu. unfold Scp.fill_if_empty. destruct (is_empty_str (buf t)) eqn:E.
  - apply is_empty_str_spec in E. by eapply fill_runs.
  - exists t. split; [done|]. split; [|by split]. intros E'. by rewrite E' in E.
Qed.

Lemma read_byte_runs t c s : unread t = String c s -> runs (Scp.read_byte never) t c s.
Proof.
  intros Hu. destruct (fill_if_empty_runs t c s Hu) as (t1 & E & Hb & L). destruct (buf t1) as [|c' b] eqn:Eb; [done|].
  assert (c' = c /\ b +:+ feed (inbox t1) = s) as [-> Hs].
  { pose proof (leaves_unread _ _ _ L) as Hu1. rewrite Hu in Hu1. unfold unread in Hu1. rewrite Eb in Hu1. by injection Hu1. }
  exists (with_reader t1 b (inbox t1) (clock t1)). split.
  - unfold Scp.read_byte. rewrite (bind_run _ _ _ _ _ E). by rewrite Eb.
  - eapply leaves_trans; [exact L|]. by split.
Qed.

Lemma str_app_split a b c d :
  a +:+ b = c +:+ d -> slen c <= slen a -> exists r, a = c +:+ r /\ d = r +:+ b.
Proof.
  revert a. induction c as [|x c IH]; intros a E Hl; [by exists a|]. destruct a as [|y a]; [cbn in Hl; lia|].
  injection E as -> E. destruct (IH a E) as (r & -> & ->); [cbn in Hl; lia|]. by exists r.
Qed.

Lemma read_exact_runs fuel p t s :
  slen p <= fuel -> unread t = p +:+ s -> runs (Scp.read_exact_from never fuel (slen p)) t p s.
Proof.
  revert p t. induction fuel as [|fuel IH]; intros [|c p] t Hl Hu; cbn [String.length] in *; try lia.
  1,2: change ("" +:+ s) with s in Hu; rewrite <- Hu; exists t; by split.
  destruct (fill_if_empty_runs t c (p +:+ s) Hu) as (t1 & E & Hb & L).
  rewrite read_exact_step. unfold runs. rewrite (bind_run _ _ _ _ _ E).
  destruct (take_part (S (slen p)) t1) as [r t2] eqn:Et. pose proof Et as Et'. unfold take_part in Et'. injection Et' as <- Et2.
  destruct (take_part_ok _ _ _ _ Hb Et) as [[Hpos Hle] [M1 _ M3]]. rewrite (bind_run _ _ _ _ _ Et).
  set (part := str_take _ (buf t1)) in *. clearbody part.
  rewrite (leaves_unread _ _ _ L), Hu in M1. 
  destruct (str_app_split _ _ _ _ M1 Hle) as (rest & Hsplit & Hu2).
  assert (slen rest = S (slen p) - slen part) as Hrest.
  { apply (f_equal String.length) in Hsplit. rewrite str_length_app in Hsplit. cbn in Hsplit. lia. }
  destruct (IH rest t2) as (t3 & E3 & L3).
  - lia.
  - done.
  - rewrite Hrest in E3. rewrite (bind_run _ _ _ _ _ E3). exists t3. split; [unfold ret; by rewrite <- Hsplit|].
    eapply leaves_trans; [exact L|]. eapply leaves_trans; [|exact L3]. subst t2. by split.
Qed.

Lemma read_line_from_runs room line more t s :
  contains_char NL more = false -> slen more <= room -> unread t = (more +:+ String NL "") +:+ s ->
  runs (Scp.read_line_from never room line) t (line +:+ more) s.
Proof.
  revert room line t. induction more as [|c more IH]; intros room line t Hn Hl Hu.
  - destruct room; cbn [Scp.read_line_from]; (eapply runs_bind; [exact (read_byte_runs _ _ _ Hu)|]);
      intros t' Hu'; rewrite str_app_nil_r, <- Hu'; apply runs_ret.
  - unfold contains_char in Hn. cbn [str_exists] in Hn. apply orb_false_iff in Hn as [Hc Hn]. rewrite Ascii.eqb_sym in Hc.
    destruct room as [|room]; cbn [String.length] in Hl; [lia|]. cbn [Scp.read_line_from].
    eapply runs_bind; [exact (read_byte_runs _ _ _ Hu)|]. intros t' Hu'. rewrite Hc.
    replace (line +:+ String c more) with ((line +:+ String c "") +:+ more) by (by rewrite str_app_assoc).
    apply IH; [done|lia|done].
Qed.

Lemma read_line_runs line t s :
  contains_char NL line = false -> slen line <= MAX_CONTROL_LINE_LENGTH -> utf8_valid line = true ->
  unread t = (line +:+ String NL "") +:+ s -> runs (Scp.read_line never) t line s.
Proof.
  intros Hn Hl Hv Hu. eapply runs_bind; [exact (read_line_from_runs _ "" line t s Hn Hl Hu)|].
  intros t' <-. change ("" +:+ line) with line. rewrite Hv. apply runs_ret.
Qed.

Lemma ack_runs t s : unread t = NUL +:+ s -> runs (Scp.read_ack never) t AckSuccess s.
Proof. intros Hu. eapply runs_bind; [exact (read_byte_runs _ _ _ Hu)|]. intros t' <-. apply runs_ret. Qed.

Lemma expect_ack_runs t s : unread t = NUL +:+ s -> runs (Scp.expect_ack never) t tt s.
Proof.
  intros Hu. eapply runs_bind; [apply check_runs|]. intros t' Hu'.
  eapply runs_bind; [apply ack_runs; by rewrite Hu'|]. intros t2 <-. apply runs_ret.
Qed.

(** The command is accepted by the first message. *)
Lemma start_runs cmd t msgs :
  inbox t = Success :: msgs ->
  exists t', start_command never healthy cmd t = (Ok tt, t') /\ unread t' = feed msgs /\
    (Forall benign (inbox t) -> Forall benign (inbox t')).
Proof.
  intros Hi. eexists. split.
  - unfold start_command, bind, exec, send, race, check_cancellation, race, awaiting. cbn. rewrite Hi. cbn. reflexivity.
  - split; [done|]. cbn. rewrite Hi. by intros [_ ?]%Forall_cons.
Qed.

Lemma finish_runs t : Forall benign (inbox t) -> exists t', finish_command never healthy t = (Ok tt, t').
Proof.
  intros Hb. unfold finish_command, bind, eof, send, race. cbn. unfold wait_exit_status, awaiting. cbn.
  assert (forall k, exists k' msgs, await never exit_msg (Ok 0%N) k (inbox t) = (Ok 0%N, k', msgs)) as H.
  { induction Hb as [|m msgs Hm Hb IH]; intros k; [by eexists _, _|]. cbn [await].
    destruct m; cbn [exit_msg]; try apply IH; try done; [by eexists _, _|]. rewrite Hm. by eexists _, _. }
  destruct (H (S (clock t))) as (k & msgs & ->). by eexists.
Qed.

Lemma write_runs d t : runs (write_all never healthy late short d) t tt (unread t).
Proof.
  unfold runs, write_all, file_op. eexists. split; [reflexivity|]. cbn [states tick with_reader]. by destruct (states t).
Qed.

Lemma receive_runs fuel p t s :
  slen p <= fuel -> unread t = p +:+ s -> runs (receive_file never healthy late short fuel (slen p)) t tt s.
Proof.
  revert p t. induction fuel as [|fuel IH]; intros p t Hl Hu.
  all: destruct (slen p) as [|n] eqn:En.
  1,3: destruct p; [|done]; rewrite <- (str_app_nil s), <- Hu; exact (runs_ret tt t).
  { lia. }
  rewrite receive_step. eapply runs_bind; [apply check_runs|]. intros t1 Hu1.
  set (w := Nat.min (S n) CHUNK_SIZE). assert (0 < w <= S n) as Hw by (subst w; unfold CHUNK_SIZE; lia). clearbody w.
  assert (slen (str_take w p) = w) as Hlt by (rewrite take_len; lia).
  assert (runs (Scp.read_exact never w) t1 (str_take w p) (str_drop w p +:+ s)) as R.
  { rewrite <- Hlt at 1. apply read_exact_runs; [done|]. by rewrite Hu1, Hu, <- str_app_assoc, take_drop. }
  eapply runs_bind; [exact R|].
  intros t2 Hu2. eapply runs_bind; [apply write_runs|]. intros t3 Hu3. rewrite Hlt.
  replace (S n - w) with (slen (str_drop w p)) by (rewrite drop_len; lia).
  apply IH; [rewrite drop_len; lia|]. by rewrite Hu3, Hu2.
Qed.

Lemma stream_runs fuel todo content t :
  todo <= fuel -> todo <= slen content -> runs (stream_file never healthy short fuel todo content) t tt (unread t).
Proof.
  revert todo content t. induction fuel as [|fuel IH]; intros [|todo] content t Hf Hc; [exact (runs_ret tt t)|lia|exact (runs_ret tt t)|].
  rewrite stream_step. eapply runs_bind; [apply check_runs|]. intros t1 <-.
  set (w := Nat.min (S todo) CHUNK_SIZE). assert (0 < w <= S todo) as Hw by (subst w; unfold CHUNK_SIZE; lia). clearbody w.
  set (n := Nat.min w (Nat.min (S (short (clock t1))) (slen content))).
  assert (0 < n <= w) as Hn by (subst n; lia).
  eapply (runs_bind _ _ _ n _ (unread t1)); [by exists (tick t1)|]. intros t2 <-. clearbody n. destruct n as [|n]; [lia|].
  eapply runs_bind; [apply send_runs|]. intros t3 <-. apply IH; [lia|rewrite drop_len; lia].
Qed.

(** A whole transfer succeeds, from a state with no bad news. *)
Definition ends {A} (m : M A) (t : Transfer) (a : A) : Prop := Forall benign (inbox t) -> exists t', m t = (Ok a, t').

Lemma ends_bind {A B} (m : M A) (k : A -> M B) t a b s :
  runs m t a s -> (forall t', unread t' = s -> ends (k a) t' b) -> ends (bind m k) t b.
Proof.
  intros (t' & E & [Hu Hc]) Hk Hb. destruct (Hk t' Hu (Hc Hb)) as [t2 E2]. exists t2. by rewrite (bind_run _ _ _ _ _ E).
Qed.

(** Steps that only take time. *)
Lemma ends_step {A B} (m : M A) (k : A -> M B) t a b t' :
  m t = (Ok a, t') -> inbox t' = inbox t -> ends (k a) t' b -> ends (bind m k) t b.
Proof. intros E Hi Hk Hb. rewrite (bind_run _ _ _ _ _ E). apply Hk. by rewrite Hi. Qed.

Lemma ends_start {B} cmd (k : unit -> M B) t b msgs :
  inbox t = Success :: msgs -> (forall t', unread t' = feed msgs -> ends (k tt) t' b) ->
  ends (bind (start_command never healthy cmd) k) t b.
Proof.
  intros Hi Hk Hb. destruct (start_runs cmd t msgs Hi) as (t' & E & Hu & Hc). rewrite (bind_run _ _ _ _ _ E). apply Hk; auto.
Qed.

Lemma ends_finish {A} (a : A) t : ends (do! finish_command never healthy; ret a) t a.
Proof. intros Hb. destruct (finish_runs t Hb) as [t' E]. exists t'. by rewrite (bind_run _ _ _ _ _ E). Qed.

Lemma usable_step t : poisoned t = false -> usable t = (Ok tt, t).
Proof. unfold usable. by intros ->. Qed.

(** An upload to a peer that accepts everything succeeds.  A regular file
    with a name without a line break and as many bytes as its length, sent to a
    peer that accepts the command and acknowledges five times, with the
    acknowledgements cut into messages in any way, is transferred, whatever
    the sizes of the partial reads of the file. *)
Theorem upload_completes file name dir t msgs rest :
  poisoned t = false -> inbox t = Success :: msgs -> Forall benign msgs ->
  feed msgs = NUL +:+ NUL +:+ NUL +:+ NUL +:+ NUL +:+ rest ->
  lf_kind file = Regular -> lf_name file = Some name -> contains_char NL name = false ->
  N.to_nat (lf_len file) <= slen (lf_content file) ->
  exists t', upload never healthy short (Ok file) dir t =
    (Ok {| bytes_transferred := lf_len file; server_messages := [] |}, t').
Proof.
  intros Hp Hi Hb Hf Hk Hn Hnl Hlen. cut (ends (upload never healthy short (Ok file) dir) t
    {| bytes_transferred := lf_len file; server_messages := [] |}); [intros H; apply H; rewrite Hi; by constructor|].
  unfold upload. eapply ends_step; [by apply usable_step|done|]. do 2 (eapply ends_step; [reflexivity|done|]).
  rewrite Hk, Hn. do 2 (eapply ends_step; [reflexivity|done|]). rewrite Hnl. do 3 (eapply ends_step; [reflexivity|done|]). eapply ends_start; [exact Hi|]. rewrite Hf. intros t1 Hu1.
  eapply ends_bind; [exact (expect_ack_runs _ _ Hu1)|]. intros t2 Hu2. eapply ends_bind; [apply send_runs|]. rewrite Hu2. intros t3 Hu3.
  eapply ends_bind; [exact (expect_ack_runs _ _ Hu3)|]. intros t4 Hu4. eapply ends_bind; [apply send_runs|]. rewrite Hu4. intros t5 Hu5.
  eapply ends_bind; [exact (expect_ack_runs _ _ Hu5)|]. intros t6 Hu6. eapply ends_bind; [by apply stream_runs|]. rewrite Hu6. intros t7 Hu7.
  eapply ends_bind; [apply check_runs|]. rewrite Hu7. intros t8 Hu8. eapply ends_bind; [apply send_runs|]. rewrite Hu8. intros t9 Hu9.
  eapply ends_bind; [exact (expect_ack_runs _ _ Hu9)|]. intros t10 Hu10. eapply ends_bind; [apply send_runs|]. rewrite Hu10. intros t11 Hu11.
  eapply ends_bind; [apply check_runs|]. rewrite Hu11. intros t12 Hu12. eapply ends_bind; [exact (ack_runs _ _ Hu12)|]. intros t13 _.
  eapply ends_bind; [apply runs_ret|]. intros t14 _. apply ends_finish.
Qed.

Lemma split_space_head c s a b : split_space (String c s) = Some (a, b) -> a = "" \/ exists a', a = String c a'.
Proof.
  cbn [split_space]. destruct (Ascii.eqb c " "); [intros [= <- _]; by left|].
  destruct (split_space s) as [[a' b']|]; [|done]. intros [= <- _]. eauto.
Qed.

Lemma c_line_start header a : parse_c_header header = Ok a -> exists s, header = String "C" s.
Proof.
  unfold parse_c_header. set (line := match strip_suffix _ header with Some l => l | None => header end).
  destruct (split_space line) as [[first rest]|] eqn:E; [|done]. destruct (split_space rest) as [[size name]|]; [|done].
  destruct first as [|c mode]; [done|]. destruct (Ascii.eqb_spec c "C") as [->|]; [|done]. intros _.
  destruct header as [|h s]; [done|]. assert (exists l, line = String h l) as [l ->].
  { subst line. cbn [strip_suffix] in *. destruct (bool_decide _); [done|]. destruct (strip_suffix _ s); cbn; eauto. }
  apply split_space_head in E as [|[a' [= <- _]]]; [done|]. eauto.
Qed.

Lemma request_runs remote t header a msgs sent :
  poisoned t = false -> inbox t = Success :: msgs -> Forall benign msgs ->
  feed msgs = (header +:+ String NL "") +:+ sent ->
  contains_char NL header = false -> slen header <= MAX_CONTROL_LINE_LENGTH -> utf8_valid header = true ->
  parse_c_header header = Ok a -> contains_char "/" a.2 = false ->
  exists t', request_file never healthy remote t = (Ok a, t') /\ unread t' = sent /\ Forall benign (inbox t').
Proof.
  intros Hp Hi Hb Hf Hnl Hl Hv Hpar Hn. destruct (c_line_start _ _ Hpar) as [s Hs]. unfold request_file.
  rewrite (bind_run _ _ _ _ _ (usable_step t Hp)). rewrite (bind_run _ _ t tt (tick t)) by done.
  rewrite (bind_run _ _ (tick t) tt (tick (tick t))) by done.
  destruct (start_runs ("scp -f -- " +:+ shell_escape remote) (tick (tick t)) msgs Hi) as (t1 & E & Hu & Hc).
  rewrite (bind_run _ _ _ _ _ E). assert (Forall benign (inbox t1)) as Hb1 by (apply Hc; cbn; rewrite Hi; by constructor).
  rewrite (bind_run _ _ t1 tt (put (tick t1) (OData NUL))) by done.
  rewrite (bind_run _ _ _ tt (tick (put (tick t1) (OData NUL)))) by done.
  destruct (read_line_runs header (tick (put (tick t1) (OData NUL))) sent Hnl Hl Hv) as (t2 & E2 & [Hu2 Hc2]); [by rewrite <- Hf, <- Hu|].
  rewrite (bind_run _ _ _ _ _ E2). exists t2. split; [|auto].
  rewrite (bind_run _ _ t2 tt t2) by (by rewrite Hs). rewrite (bind_run _ _ t2 a t2) by (unfold lift; by rewrite Hpar).
  rewrite Hn. by rewrite (bind_run _ _ t2 tt t2).
Qed.

Lemma store_runs local open_dest mode i payload rest size t :
  unread t = payload +:+ NUL +:+ rest -> Forall benign (inbox t) -> slen payload = N.to_nat size ->
  open_dest mode = Ok i -> i_kind i = Regular ->
  exists t', store_file never healthy late short local open_dest mode size t = (Ok tt, t').
Proof.
  intros Hu Hb Hl Ho Hk. cut (ends (store_file never healthy late short local open_dest mode size) t tt); [by intros H; apply H|].
  eapply ends_step; [unfold open_destination; by rewrite Ho|done|].
  assert (runs (prepare_destination never healthy late local mode) (with_states (tick t) [i]) tt (unread t)) as R.
  { unfold runs, prepare_destination. rewrite (bind_run _ _ _ tt (tick (with_states (tick t) [i]))) by done.
    rewrite (bind_run _ _ _ i (tick (with_states (tick t) [i]))) by done. rewrite Hk. eexists. split; [reflexivity|by split]. }
  eapply ends_bind; [exact R|]. rewrite Hu. intros t1 Hu1. eapply ends_bind; [apply send_runs|]. rewrite Hu1. intros t2 Hu2.
  eapply ends_bind; [rewrite <- Hl; by apply receive_runs|]. intros t3 Hu3. eapply ends_bind; [apply syscall_runs|].
  rewrite Hu3. intros t4 Hu4. eapply ends_bind; [exact (expect_ack_runs _ _ Hu4)|]. intros t5 _.
  eapply ends_bind; [apply send_runs|]. intros t6 _ Hb6. by apply finish_runs.
Qed.

(** C36 A download from a peer that behaves succeeds.  If the peer accepts the
    command and sends a valid header line, as many bytes as it announces and the
    closing zero byte, cut into messages in any way, and the destination opens
    as a regular file, the transfer succeeds and the file holds exactly those
    bytes under the permission bits of the header. *)
Theorem download_completes header raw size name payload rest remote local open_dest i t msgs :
  poisoned t = false -> inbox t = Success :: msgs -> Forall benign msgs ->
  feed msgs = (header +:+ String NL "") +:+ payload +:+ NUL +:+ rest ->
  contains_char NL header = false -> slen header <= MAX_CONTROL_LINE_LENGTH -> utf8_valid header = true ->
  parse_c_header header = Ok (raw, size, name) -> contains_char "/" name = false ->
  slen payload = N.to_nat size -> open_dest (N.land raw 511) = Ok i -> i_kind i = Regular ->
  exists t' older,
    download never healthy late short remote local open_dest t =
      (Ok {| bytes_transferred := size; server_messages := [] |}, t') /\
    states t' = {| i_kind := Regular; i_mode := N.land raw 511; i_data := payload |} :: older.
Proof.
  intros Hp Hi Hb Hf Hnl Hl Hv Hpar Hn Hsz Ho Hk.
  assert (exists t1, request_file never healthy remote t = (Ok (raw, size, name), t1) /\ unread t1 = payload +:+ NUL +:+ rest /\
    Forall benign (inbox t1)) as (t1 & E1 & Hu1 & Hb1).
  { apply request_runs with (header := header) (msgs := msgs); done. }
  destruct (store_runs local open_dest (N.land raw 511) i payload rest size t1) as [t2 E2]; [done..|].
  pose proof E2 as (payload' & rest' & older & Hu' & Hl' & Hst & _)%store_ok.
  rewrite Hu1 in Hu'. apply str_app_inj_len in Hu' as [<- _]; [|congruence].
  exists t2, older. split; [|done]. unfold download. rewrite (bind_run _ _ _ _ _ E1). by rewrite (bind_run _ _ _ _ _ E2).
Qed.

End completes.
