(* ===== verification/KnownHosts.v ===== *)
(** * Host key verification

    crates/mecmcp-scp/src/scp.rs and config.rs: the markers of a known_hosts
    file, the host patterns of a line, and the decision on the key that a
    server presents. *)

From S2P Require Import Prelude Text Trust Slice Denylist Scp.
From Stdlib Require Import Ascii.

Open Scope list_scope.
Open Scope nat_scope.

(** [russh::keys::Error], as far as the caller tells its cases apart. *)
Inductive KeyError := KeyChanged (line : N) | KeyOther (why : string).

(** russh's keys and known_hosts functions, on the contents of the file, and
    the codecs of hashed host names. *)
Class Russh := {
  PublicKey : Type;
  fingerprint_sha256 : PublicKey -> string;
  check_known_hosts : string -> N -> PublicKey -> string -> result bool KeyError;
  learn_known_hosts : string -> N -> PublicKey -> string -> result string string;
  decode_base64 : string -> option string;
  hmac_sha1_base64 : string -> string -> string;
}.

Inductive HostKeyVerification :=
| KnownHosts (path : string)
| AcceptNew (path : string)
| Fingerprint (expected : string)
| AcceptAll.

Section verification.
Context `{Russh}.

Inductive PublicKeyOrCertificate := KeyOffered (key : PublicKey) | CertificateOffered.

(** ** Lines *)

(** [BufRead::lines]. *)
Definition buf_lines (text : string) : list string :=
  let pieces := str_split NL text in
  let pieces := match last pieces with Some "" => removelast pieces | _ => pieces end in
  (fun l => match strip_suffix (String (ascii_of_nat 13) "") l with Some l => l | None => l end) <$> pieces.

(** The text before the first white space, and the text from there on. *)
Fixpoint break_whitespace (s : string) : option (string * string) :=
  match s with
  | EmptyString => None
  | String c s' =>
      match whitespace_width s with
      | Some _ => Some ("", s)
      | None => match break_whitespace s' with Some (a, b) => Some (String c a, b) | None => None end
      end
  end.

(** The marker of a line and what follows it. *)
Definition marker_of (line : string) : option (string * string) :=
  let trimmed := trim line in
  if is_empty_str trimmed || starts_with "#" trimmed then None
  else match strip_prefix "@" trimmed with
       | Some after_marker =>
           match break_whitespace after_marker with
           | Some (name, rest) => Some (name, trim_start_ws rest)
           | None => None
           end
       | None => None
       end.

Definition target (host : string) (port : N) : string :=
  if (port =? 22)%N then host else "[" +:+ host +:+ "]:" +:+ pretty port.

(** [temp]: why the temporary file cannot be written, if it cannot. *)
Definition line_matches_host_and_key (temp : option string) (line host : string) (port : N) (key : PublicKey)
    : result bool ScpError :=
  match temp with
  | Some e => Err (EHostKeyVerification e)
  | None =>
      match check_known_hosts host port key (line +:+ String NL "") with
      | Ok b => Ok b
      | Err (KeyChanged _) => Ok false
      | Err (KeyOther e) => Err (EHostKeyVerification ("error checking marker line: " +:+ e))
      end
  end.

Definition line_matches_host (line host : string) (port : N) : result bool ScpError :=
  match split_whitespace line with
  | host_pattern :: _ :: _ :: _ =>
      match strip_prefix "|1|" host_pattern with
      | Some rest =>
          match str_split "|" rest with
          | [salt_b64; expected_hash_b64] =>
              let? salt := ok_or (decode_base64 salt_b64)
                             (EHostKeyVerification "failed to decode salt in hashed host pattern") in
              Ok (bool_decide (hmac_sha1_base64 salt (target host port) = expected_hash_b64))
          | _ => Ok false
          end
      | None =>
          if contains_char "," host_pattern then
            Ok (existsb (fun h => bool_decide (h = target host port) || bool_decide (h = host)) (str_split "," host_pattern))
          else if contains_char "*" host_pattern || contains_char "?" host_pattern then Ok false
          else Ok (bool_decide (host_pattern = target host port) || bool_decide (host_pattern = host))
      end
  | _ => Ok false
  end.

(** ** Markers *)

Definition revoked_error (host : string) (port : N) (line_num : nat) : ScpError :=
  EHostKeyRevoked ("Host key for " +:+ host +:+ ":" +:+ pretty port +:+ " is marked @revoked in known_hosts (line "
    +:+ pretty line_num +:+ "). This key has been compromised or retired and must not be trusted.").

Definition authority_error (host : string) (port : N) (line_num : nat) : ScpError :=
  EHostKeyVerification ("Host " +:+ host +:+ ":" +:+ pretty port +:+ " has a @cert-authority entry in known_hosts (line "
    +:+ pretty line_num +:+ "), but certificate authentication is not supported by this client. "
    +:+ "Remove the @cert-authority line or use a different authentication method.").

Definition check_marker (temp : option string) (host : string) (port : N) (key : PublicKey) (line_num : nat) (line : string)
    : result unit ScpError :=
  match marker_of line with
  | None => Ok tt
  | Some (name, rest) =>
      let? revoked := (if bool_decide (name = "revoked") then line_matches_host_and_key temp rest host port key else Ok false) in
      ensure negb revoked else (revoked_error host port line_num);
      let? authority := (if bool_decide (name = "cert-authority") then line_matches_host rest host port else Ok false) in
      ensure negb authority else (authority_error host port line_num);
      Ok tt
  end.

Fixpoint check_marker_lines (temp : option string) (host : string) (port : N) (key : PublicKey) (line_num : nat) (lines : list string)
    : result unit ScpError :=
  match lines with
  | [] => Ok tt
  | line :: lines =>
      ensure utf8_valid line
        else (EHostKeyVerification ("failed to read known_hosts line " +:+ pretty line_num +:+ ": stream did not contain valid UTF-8"));
      check? check_marker temp host port key line_num line;
      check_marker_lines temp host port key (S line_num) lines
  end.

(** [file]: the contents of the known_hosts file, or why it cannot be read. *)
Definition check_known_hosts_markers (temp : option string) (host : string) (port : N) (key : PublicKey)
    (path : string) (file : result string string) : result unit ScpError :=
  let? text := map_err (fun e => EHostKeyVerification ("failed to read known_hosts " +:+ path +:+ ": " +:+ e)) file in
  check_marker_lines temp host port key 1 (buf_lines text).

(** ** The decision *)

(** The verdict of the handler with the error it leaves in the slot, and the
    known_hosts file afterwards. *)
Definition check_server_key (temp : option string) (mode : HostKeyVerification) (host : string) (port : N)
    (offered : PublicKeyOrCertificate) (file : result string string) : result unit ScpError * result string string :=
  match offered with
  | CertificateOffered =>
      (Err (EHostKeyVerification ("Server " +:+ host +:+ ":" +:+ pretty port
        +:+ " presented an SSH certificate, but certificate authentication is not supported by this client. "
        +:+ "Use key-based authentication instead.")), file)
  | KeyOffered key =>
      match mode with
      | AcceptAll => (Ok tt, file)
      | Fingerprint expected =>
          let actual := fingerprint_sha256 key in
          let expected_stripped := default expected (strip_prefix "SHA256:" expected) in
          let actual_hash := default actual (strip_prefix "SHA256:" actual) in
          if bool_decide (actual_hash = expected_stripped) then (Ok tt, file)
          else (Err (EHostKeyVerification ("host key mismatch: expected SHA256:" +:+ expected_stripped +:+ ", got " +:+ actual)), file)
      | KnownHosts path | AcceptNew path =>
          match check_known_hosts_markers temp host port key path file, file with
          | Err e, _ => (Err e, file)
          | Ok _, Err e => (Err (EHostKeyVerification ("known_hosts check failed for " +:+ path +:+ ": " +:+ e)), file)
          | Ok _, Ok text =>
              match check_known_hosts host port key text with
              | Ok true => (Ok tt, file)
              | Ok false =>
                  match mode with
                  | AcceptNew _ =>
                      match learn_known_hosts host port key text with
                      | Ok text' => (Ok tt, Ok text')
                      | Err e => (Err (EHostKeyVerification ("failed to write to known_hosts file " +:+ path +:+ ": " +:+ e)), file)
                      end
                  | _ => (Err (EHostKeyVerification ("Host " +:+ host
                           +:+ " not found in known_hosts file. Add it manually or use AcceptNew mode.")), file)
                  end
              | Err (KeyChanged line) =>
                  (Err (EHostKeyVerification ("Host key mismatch for " +:+ host +:+ "! Key at line " +:+ pretty line
                     +:+ " has changed. This could indicate a man-in-the-middle attack.")), file)
              | Err (KeyOther e) => (Err (EHostKeyVerification ("known_hosts check failed for " +:+ path +:+ ": " +:+ e)), file)
              end
          end
      end
  end.

(** ** What an accepted key is *)

(** No line revokes the key or names an authority for the host. *)
Definition unmarked (temp : option string) (host : string) (port : N) (key : PublicKey) (line : string) : Prop :=
  utf8_valid line = true /\
  (forall rest, marker_of line = Some ("revoked", rest) -> line_matches_host_and_key temp rest host port key = Ok false) /\
  (forall rest, marker_of line = Some ("cert-authority", rest) -> line_matches_host rest host port = Ok false).

Lemma check_marker_spec temp host port key n line :
  check_marker temp host port key n line = Ok tt <->
  (forall rest, marker_of line = Some ("revoked", rest) -> line_matches_host_and_key temp rest host port key = Ok false) /\
  (forall rest, marker_of line = Some ("cert-authority", rest) -> line_matches_host rest host port = Ok false).
Proof.
  unfold check_marker. destruct (marker_of line) as [[name rest]|]; [|by split].
  destruct (decide (name = "revoked")) as [->|Hr].
  - rewrite bool_decide_true, (bool_decide_false ("revoked" = "cert-authority")) by done. split.
    + destruct (line_matches_host_and_key _ _ _ _ _) as [[]|] eqn:E; try done. intros _. split; [by intros ? [= <-]|done].
    + intros [A _]. by rewrite (A rest eq_refl).
  - rewrite (bool_decide_false (name = "revoked")) by done. destruct (decide (name = "cert-authority")) as [->|Ha].
    + rewrite bool_decide_true by done. split.
      * cbn. destruct (line_matches_host _ _ _) as [[]|] eqn:E; try done. intros _. split; [done|by intros ? [= <-]].
      * intros [_ A]. cbn. by rewrite (A rest eq_refl).
    + rewrite bool_decide_false by done. split; [|done]. intros _. split; intros ? [= -> _]; done.
Qed.

Lemma marker_lines_spec temp host port key n lines :
  check_marker_lines temp host port key n lines = Ok tt <-> Forall (unmarked temp host port key) lines.
Proof.
  revert n. induction lines as [|line lines IH]; intros n; [by split|]. cbn [check_marker_lines].
  rewrite ensure_Ok, result_bind_Ok, Forall_cons, <- (IH (S n)). unfold unmarked at 1. rewrite <- (check_marker_spec temp host port key n line).
  split; [intros (? & [] & ? & ?)|intros [[? ?] ?]]; [done|]. split; [done|]. by exists tt.
Qed.

(** What it takes for a key to be accepted. *)
Definition trusted (temp : option string) (mode : HostKeyVerification) (host : string) (port : N) (key : PublicKey)
    (file file' : result string string) : Prop :=
  match mode with
  | AcceptAll => file' = file
  | Fingerprint expected =>
      default (fingerprint_sha256 key) (strip_prefix "SHA256:" (fingerprint_sha256 key))
        = default expected (strip_prefix "SHA256:" expected) /\ file' = file
  | KnownHosts _ =>
      exists text, file = Ok text /\ Forall (unmarked temp host port key) (buf_lines text) /\
        check_known_hosts host port key text = Ok true /\ file' = file
  | AcceptNew _ =>
      exists text, file = Ok text /\ Forall (unmarked temp host port key) (buf_lines text) /\
        (check_known_hosts host port key text = Ok true /\ file' = file \/
         check_known_hosts host port key text = Ok false /\
         exists text', learn_known_hosts host port key text = Ok text' /\ file' = Ok text')
  end.

Lemma markers_spec temp host port key path file :
  check_known_hosts_markers temp host port key path file = Ok tt <->
  exists text, file = Ok text /\ Forall (unmarked temp host port key) (buf_lines text).
Proof.
  unfold check_known_hosts_markers. destruct file as [text|e]; cbn.
  - rewrite marker_lines_spec. split; [eauto|]. by intros (? & [= <-] & ?).
  - split; [done|]. by intros (? & ? & _).
Qed.


End verification.
