(* ===== verification/OpenApi.v ===== *)
(** * Paths and pages of outbound requests

    crates/mecmcp-openapi/src/lib.rs: the expansion of a path template, the
    checks that a value stays inside its segment however often it is decoded
    on its way, and the validation of a page. *)

From S2P Require Import Prelude Text Scope Trust Slice.
From Stdlib Require Import Ascii.

Open Scope list_scope.
Open Scope nat_scope.

Definition is_unreserved (c : ascii) : bool :=
  is_ascii_alphanumeric c || Ascii.eqb c "-" || Ascii.eqb c "." || Ascii.eqb c "_" || Ascii.eqb c "~".

Inductive PathError :=
| SegmentBreak (name : string)
| QueryOrFragment (name : string)
| RelativeComponent (name : string)
| EmptyValue (name : string)
| ControlCharacter (name : string)
| MissingParameter (name : string)
| UnknownParameter (name : string)
| MalformedTemplate.

(** ** Decoding *)

Definition hex_value (c : ascii) : option N :=
  let n := N_of_ascii c in
  if is_ascii_digit c then Some (n - 48)%N
  else if (65 <=? n)%N && (n <=? 70)%N then Some (n - 55)%N
  else if (97 <=? n)%N && (n <=? 102)%N then Some (n - 87)%N
  else None.

(** [u8::from_str_radix] of two bytes: it takes a plus sign. *)
Definition hex_pair (a b : ascii) : option ascii :=
  if Ascii.eqb a "+" then ascii_of_N <$> hex_value b
  else match hex_value a, hex_value b with Some x, Some y => Some (ascii_of_N (x * 16 + y)) | _, _ => None end.

Fixpoint percent_decode (s : string) : string :=
  match s with
  | EmptyString => ""
  | String c s' =>
      if Ascii.eqb c "%" then
        match s' with
        | String a (String b r) =>
            match hex_pair a b with
            | Some x => String x (percent_decode r)
            | None => String c (percent_decode s')
            end
        | _ => String c (percent_decode s')
        end
      else String c (percent_decode s')
  end.

(** The replacement character. *)
Definition REPLACEMENT : string := String (ascii_of_nat 239) (String (ascii_of_nat 191) (String (ascii_of_nat 189) "")).

(** [String::from_utf8_lossy]: [pend] are the bytes of a character that still
    needs [k] more, the next one between [lo] and [hi]. *)
Fixpoint lossy_from (pend : string) (k : nat) (lo hi : N) (s : string) : string :=
  match s with
  | EmptyString => if is_empty_str pend then "" else REPLACEMENT
  | String c s' =>
      let n := N_of_ascii c in
      let start :=
        match utf8_extra c with
        | None => REPLACEMENT +:+ lossy_from "" 0 128 191 s'
        | Some 0 => String c (lossy_from "" 0 128 191 s')
        | Some k =>
            lossy_from (String c "") k
              (if (n =? 224)%N then 160 else if (n =? 240)%N then 144 else 128)
              (if (n =? 237)%N then 159 else if (n =? 244)%N then 143 else 191) s'
        end in
      match k with
      | O => start
      | S k =>
          if (lo <=? n)%N && (n <=? hi)%N then
            match k with
            | O => (pend +:+ String c "") +:+ lossy_from "" 0 128 191 s'
            | S _ => lossy_from (pend +:+ String c "") k 128 191 s'
            end
          else REPLACEMENT +:+ start
      end
  end.

Definition from_utf8_lossy (s : string) : string := lossy_from "" 0 128 191 s.

Definition percent_decode_lossy (s : string) : string := from_utf8_lossy (percent_decode s).

(** ** Values *)

Definition is_structural (c : ascii) : bool :=
  Ascii.eqb c "/" || Ascii.eqb c "\" || Ascii.eqb c "?" || Ascii.eqb c "#" || is_ascii_control c.

Definition structural_error (name : string) (c : ascii) : PathError :=
  if Ascii.eqb c "?" || Ascii.eqb c "#" then QueryOrFragment name
  else if is_ascii_control c then ControlCharacter name
  else SegmentBreak name.

Definition is_dots (s : string) : bool := bool_decide (s = ".") || bool_decide (s = "..").

Definition first_structural (s : string) : option ascii := str_find is_structural s ≫= fun i => String.get i s.

Definition MAX_DECODE_ROUNDS : nat := 4.

Fixpoint decode_rounds (rounds : nat) (name current : string) : option PathError :=
  match rounds with
  | O => Some (SegmentBreak name)
  | S rounds =>
      let decoded := percent_decode_lossy current in
      if bool_decide (decoded = current) then None
      else match first_structural decoded with
           | Some c => Some (structural_error name c)
           | None => if is_dots decoded then Some (RelativeComponent name) else decode_rounds rounds name decoded
           end
  end.

Definition structural_after_decoding (name value : string) : option PathError := decode_rounds MAX_DECODE_ROUNDS name value.

Definition upper_hex (n : N) : ascii := ascii_of_N (if (n <? 10)%N then 48 + n else 55 + n).

Definition encode_byte (c : ascii) : string :=
  if is_unreserved c then String c ""
  else String "%" (String (upper_hex (N_of_ascii c / 16)) (String (upper_hex (N_of_ascii c mod 16)) "")).

Fixpoint percent_encode (s : string) : string :=
  match s with EmptyString => "" | String c s => encode_byte c +:+ percent_encode s end.

(** The first byte that is refused as it stands. *)
Fixpoint check_bytes (name value : string) : result unit PathError :=
  match value with
  | EmptyString => Ok tt
  | String c value =>
      if Ascii.eqb c "/" || Ascii.eqb c "\" then Err (SegmentBreak name)
      else if Ascii.eqb c "?" || Ascii.eqb c "#" then Err (QueryOrFragment name)
      else if is_ascii_control c then Err (ControlCharacter name)
      else check_bytes name value
  end.

Definition encode_segment (name value : string) : result string PathError :=
  ensure negb (is_empty_str value) else (EmptyValue name);
  ensure negb (is_dots value) else (RelativeComponent name);
  check? check_bytes name value;
  match structural_after_decoding name value with
  | Some error => Err error
  | None => Ok (percent_encode value)
  end.

(** ** Templates *)

Record Expansion := { ex_name : string; ex_start : nat; ex_end : nat }.

Fixpoint position (name : string) (params : list (string * string)) : option nat :=
  match params with
  | [] => None
  | (candidate, _) :: params => if bool_decide (candidate = name) then Some 0 else S <$> position name params
  end.

(** The loop over the placeholders, with the text rendered so far, the
    parameters used and where the values landed.  Each round consumes a brace,
    so the length of the template is enough [fuel]. *)
Fixpoint expand_from (fuel : nat) (params : list (string * string)) (rest out : string) (used : list bool)
    (expansions : list Expansion) : result (string * list bool * list Expansion) PathError :=
  match str_find (Ascii.eqb "{") rest, fuel with
  | None, _ =>
      ensure negb (contains_char "}" rest) else MalformedTemplate;
      Ok (out +:+ rest, used, expansions)
  | Some _, O => Err MalformedTemplate
  | Some open, S fuel =>
      ensure negb (contains_char "}" (str_take open rest)) else MalformedTemplate;
      let out := out +:+ str_take open rest in
      let after := str_drop (S open) rest in
      match str_find (Ascii.eqb "}") after with
      | None => Err MalformedTemplate
      | Some close =>
          let name := str_take close after in
          ensure negb (contains_char "{" name) else MalformedTemplate;
          let? index := ok_or (position name params) (MissingParameter name) in
          let? encoded := encode_segment name (default "" (snd <$> params !! index)) in
          expand_from fuel params (str_drop (S close) after) (out +:+ encoded) (<[index := true]> used)
            (expansions ++ [{| ex_name := name; ex_start := slen out; ex_end := slen out + slen encoded |}])
      end
  end.

(** The segments of a path with their offsets. *)
Fixpoint segments_from (offset : nat) (segments : list string) : list (nat * string) :=
  match segments with
  | [] => []
  | segment :: segments => (offset, segment) :: segments_from (offset + slen segment + 1) segments
  end.

Definition segments (path : string) : list (nat * string) := segments_from 0 (str_split "/" path).

Definition overlaps (start stop : nat) (e : Expansion) : bool := (ex_start e <? stop) && (start <? ex_end e).

Fixpoint check_segments (expansions : list Expansion) (l : list (nat * string)) : option PathError :=
  match l with
  | [] => None
  | (start, segment) :: l =>
      match find (overlaps start (start + slen segment)) expansions with
      | None => check_segments expansions l
      | Some e =>
          match structural_after_decoding (ex_name e) segment with
          | Some error => Some error
          | None => check_segments expansions l
          end
      end
  end.

Definition structural_after_joining (path : string) (expansions : list Expansion) : option PathError :=
  match expansions with [] => None | _ => check_segments expansions (segments path) end.

Fixpoint first_unused (params : list (string * string)) (used : list bool) : option string :=
  match params, used with
  | (name, _) :: params, seen :: used => if seen then first_unused params used else Some name
  | _, _ => None
  end.

Definition expand_path (template : string) (params : list (string * string)) : result string PathError :=
  let? state := expand_from (slen template) params template "" (replicate (length params) false) [] in
  let '(out, used, expansions) := state in
  match first_unused params used with
  | Some name => Err (UnknownParameter name)
  | None =>
      match structural_after_joining out expansions with
      | Some error => Err error
      | None => Ok out
      end
  end.

(** ** Pages *)

Definition u32_max : N := 4294967295.

Record PageLimits := { max_size : N; max_from : N }.

Definition default_page_limits : PageLimits := {| max_size := 1000; max_from := 100000 |}.

Record Page := { page_from : N; page_size : N }.

Inductive PageError :=
| ZeroSize
| SizeTooLarge (requested maximum : N)
| FromTooLarge (requested maximum : N)
| WindowOverflow (from size : N).

(** The arguments are of 64 bits, the limits of 32. *)
Definition page (from size : N) (limits : PageLimits) : result Page PageError :=
  ensure negb (size =? 0)%N else ZeroSize;
  ensure (size <=? max_size limits)%N else (SizeTooLarge size (max_size limits));
  ensure (from <=? max_from limits)%N else (FromTooLarge from (max_from limits));
  ensure (from + size <=? u64_max)%N && (from + size <=? u32_max)%N else (WindowOverflow from size);
  ensure (from <=? u32_max)%N else (FromTooLarge from (max_from limits));
  ensure (size <=? u32_max)%N else (SizeTooLarge size (max_size limits));
  Ok {| page_from := from; page_size := size |}.

(** ** Values stay inside their segment *)

(** No byte that changes the structure of a URL, and no relative component. *)
Definition harmless (s : string) : Prop := str_exists is_structural s = false /\ is_dots s = false.

(** [n] decoders in a row. *)
Fixpoint decoded_times (n : nat) (s : string) : string :=
  match n with O => s | S n => decoded_times n (percent_decode_lossy s) end.

Lemma first_structural_none s : first_structural s = None -> str_exists is_structural s = false.
Proof.
  unfold first_structural. destruct (str_find is_structural s) as [i|] eqn:E; [|by intros _; apply str_find_None].
  apply str_find_get in E as (c & Hc & _). cbn. by rewrite Hc.
Qed.

Lemma decode_rounds_safe rounds name s :
  decode_rounds rounds name s = None -> forall n, decoded_times n s = s \/ harmless (decoded_times n s).
Proof.
  revert s. induction rounds as [|rounds IH]; intros s H n; [done|]. cbn [decode_rounds] in H.
  destruct (decide (percent_decode_lossy s = s)) as [E|E].
  - left. clear H. induction n as [|n IHn]; [done|]. cbn [decoded_times]. by rewrite E.
  - rewrite bool_decide_false in H by done. destruct (first_structural _) eqn:Ef; [done|].
    destruct (is_dots _) eqn:Ed; [done|]. apply first_structural_none in Ef.
    destruct n as [|n]; [by left|]. right. cbn [decoded_times]. destruct (IH _ H n) as [->|Hh]; done.
Qed.

Lemma check_bytes_ok name s : check_bytes name s = Ok tt -> str_exists is_structural s = false.
Proof.
  induction s as [|c s IH]; [done|]. cbn [check_bytes str_exists]. unfold is_structural at 1.
  destruct (Ascii.eqb c "/"), (Ascii.eqb c "\"), (Ascii.eqb c "?"), (Ascii.eqb c "#"), (is_ascii_control c); try done.
Qed.

Lemma encode_byte_spec :
  forallb (fun n => let c := ascii_of_nat n in
    match encode_byte c with
    | String x "" => Ascii.eqb x c && negb (Ascii.eqb x "%")
    | String x (String a (String b "")) => Ascii.eqb x "%" && bool_decide (hex_pair a b = Some c)
    | _ => false
    end && str_forall (fun x => is_unreserved x || Ascii.eqb x "%") (encode_byte c)) (seq 0 256) = true.
Proof. vm_compute. reflexivity. Qed.

Lemma encode_byte_cases c :
  (encode_byte c = String c "" /\ Ascii.eqb c "%" = false \/
   exists a b, encode_byte c = String "%" (String a (String b "")) /\ hex_pair a b = Some c) /\
  str_forall (fun x => is_unreserved x || Ascii.eqb x "%") (encode_byte c) = true.
Proof.
  pose proof encode_byte_spec as H. rewrite forallb_forall in H. specialize (H (nat_of_ascii c)).
  cbv zeta in H. rewrite ascii_nat_embedding in H.
  assert (In (nat_of_ascii c) (seq 0 256)) as Hin by (apply in_seq; pose proof (nat_ascii_bounded c); lia).
  apply H, andb_true_iff in Hin as [A B]. split; [|done]. clear -A.
  destruct (encode_byte c) as [|x [|a [|b [|]]]]; try done.
  - apply andb_true_iff in A as [->%Ascii.eqb_eq A%negb_true_iff]. by left.
  - apply andb_true_iff in A as [->%Ascii.eqb_eq A%bool_decide_eq_true]. right. by exists a, b.
Qed.

Lemma percent_round_trip s : percent_decode (percent_encode s) = s.
Proof.
  induction s as [|c s IH]; [done|]. cbn [percent_encode].
  destruct (encode_byte_cases c) as [[[-> Hc]|(a & b & -> & Hp)] _]; rewrite !str_app_cons, str_app_nil; cbn [percent_decode].
  - by rewrite Hc, IH.
  - cbn. by rewrite Hp, IH.
Qed.

Lemma lossy_valid pend k lo hi s :
  (k = 0 <-> pend = "") -> utf8_valid_from k lo hi s = true -> lossy_from pend k lo hi s = pend +:+ s.
Proof.
  revert pend k lo hi. induction s as [|c s IH]; intros pend k lo hi Hk; cbn [utf8_valid_from lossy_from].
  - intros ->%Nat.eqb_eq. by rewrite (proj1 Hk).
  - destruct k as [|k].
    + rewrite (proj1 Hk), str_app_nil by done. destruct (utf8_extra c) as [[|k]|]; [| |done].
      * intros H. rewrite IH; [done|done|]. by destruct s.
      * intros H. rewrite IH; [done|by split|done].
    + rewrite !andb_true_iff. intros [[-> ->] H]. cbn [andb]. destruct k as [|k].
      * rewrite IH by done. by rewrite str_app_assoc.
      * rewrite IH; [by rewrite str_app_assoc| |done]. split; [done|]. by destruct pend.
Qed.

(** A value that is accepted stays one segment wherever it is decoded.  It
    is not empty; neither it nor anything that any number of decoders make of
    it has a slash, a backslash, a query or fragment mark, a control character
    or is a relative component; its encoding consists of unreserved characters
    and escapes, and decodes to exactly the value. *)
Theorem accepted_value_is_contained name value encoded :
  encode_segment name value = Ok encoded ->
  value <> "" /\ (forall n, harmless (decoded_times n value)) /\
  str_forall (fun c => is_unreserved c || Ascii.eqb c "%") encoded = true /\
  percent_decode encoded = value /\ (utf8_valid value = true -> percent_decode_lossy encoded = value).
Proof.
  unfold encode_segment. rewrite !ensure_Ok, result_bind_Ok. intros (He & Hd & [] & Hb & H).
  destruct (structural_after_decoding name value) eqn:E; [done|]. injection H as <-.
  assert (harmless value) as Hh by (split; [by eapply check_bytes_ok|by apply negb_true_iff]).
  split_and!.
  - intros ->. done.
  - intros n. by destruct (decode_rounds_safe _ _ _ E n) as [->|].
  - clear. induction value as [|c s IH]; [done|]. cbn [percent_encode]. rewrite str_forall_app, IH.
    by rewrite (proj2 (encode_byte_cases c)).
  - apply percent_round_trip.
  - intros Hv. unfold percent_decode_lossy, from_utf8_lossy. rewrite percent_round_trip. by apply (lossy_valid "").
Qed.

(** A page that is accepted is the one that was asked for, not empty, within
    the limits, and its end fits into 32 bits; every other request is refused. *)
Theorem page_is_exact from size limits p :
  page from size limits = Ok p <->
  p = {| page_from := from; page_size := size |} /\ (0 < size <= max_size limits)%N /\ (from <= max_from limits)%N /\
  (from + size <= u32_max)%N.
Proof.
  unfold page. rewrite !ensure_Ok, andb_true_iff, negb_true_iff, N.eqb_neq, !N.leb_le. unfold u64_max, u32_max.
  split; [intros (? & ? & ? & [? ?] & ? & ? & [= <-])|intros (-> & [? ?] & ? & ?)]; repeat split; lia.
Qed.

(** ** Templates *)

(** A template is literal text and placeholders. *)
Inductive piece := Lit (text : string) | Hole (name : string).

Definition print_piece (p : piece) : string :=
  match p with Lit text => text | Hole name => "{" +:+ name +:+ "}" end.

Definition str_concat_map {A} (f : A -> string) (l : list A) : string := foldr (fun a s => f a +:+ s) "" l.

Section templates.
Context (params : list (string * string)).

Definition value_of (name : string) : string := default "" (position name params ≫= fun i => snd <$> params !! i).

Definition render_piece (p : piece) : string :=
  match p with Lit text => text | Hole name => percent_encode (value_of name) end.

(** No stray braces; a placeholder has a parameter with an acceptable value. *)
Definition piece_ok (p : piece) : Prop :=
  match p with
  | Lit text => contains_char "{" text = false /\ contains_char "}" text = false
  | Hole name => contains_char "{" name = false /\ contains_char "}" name = false /\
      is_Some (position name params) /\ is_ok (encode_segment name (value_of name)) = true
  end.

(** Where the values land in the rendered text. *)
Fixpoint locate (offset : nat) (pieces : list piece) : list Expansion :=
  match pieces with
  | [] => []
  | p :: pieces =>
      let stop := offset + slen (render_piece p) in
      match p with
      | Lit _ => locate stop pieces
      | Hole name => {| ex_name := name; ex_start := offset; ex_end := stop |} :: locate stop pieces
      end
  end.

(** The parameters that the placeholders use. *)
Definition marks (used : list bool) (pieces : list piece) : list bool :=
  foldl (fun used p => match p with
                       | Hole name => match position name params with Some i => <[i := true]> used | None => used end
                       | Lit _ => used
                       end) used pieces.

Lemma encode_ok name value encoded : encode_segment name value = Ok encoded -> encoded = percent_encode value.
Proof.
  unfold encode_segment. rewrite !ensure_Ok, result_bind_Ok. intros (_ & _ & ? & _ & H).
  by destruct (structural_after_decoding name value); [|injection H as <-].
Qed.

Lemma find_split c s i : str_find (Ascii.eqb c) s = Some i ->
  s = str_take i s +:+ String c (str_drop (S i) s) /\ contains_char c (str_take i s) = false.
Proof.
  intros (a & d & b & -> & <- & Hd & Ha)%str_find_split. apply Ascii.eqb_eq in Hd as <-. rewrite take_app. split; [|done].
  f_equal. f_equal. replace (S (slen a)) with (slen a + 1) by lia. by rewrite <- drop_drop, drop_app.
Qed.

(** What a successful loop has read and rendered. *)
Lemma expand_from_ok fuel rest out used exps out' used' exps' :
  expand_from fuel params rest out used exps = Ok (out', used', exps') ->
  exists pieces, rest = str_concat_map print_piece pieces /\ Forall piece_ok pieces /\
    out' = out +:+ str_concat_map render_piece pieces /\ used' = marks used pieces /\
    exps' = exps ++ locate (slen out) pieces.
Proof.
  revert rest out used exps. induction fuel as [|fuel IH]; intros rest out used exps H; cbn [expand_from] in H;
    destruct (str_find (Ascii.eqb "{") rest) as [open|] eqn:Eo; try done.
  1,3: apply ensure_Ok in H as [Hb [= <- <- <-]]; exists [Lit rest]; cbn; rewrite !str_app_nil_r, app_nil_r; split_and!; try done;
       constructor; [split; [by apply str_find_None in Eo|by apply negb_true_iff]|done].
  apply ensure_Ok in H as [Hb H]. apply find_split in Eo as [Hr Hopen]. set (lit := str_take open rest) in *.
  set (after := str_drop (S open) rest) in *. destruct (str_find (Ascii.eqb "}") after) as [close|] eqn:Ec; [|done].
  apply find_split in Ec as [Ha Hclose]. set (name := str_take close after) in *. apply ensure_Ok in H as [Hn H].
  apply result_bind_Ok in H as (i & Hi & H). destruct (position name params) as [i'|] eqn:Ep; [|done]. injection Hi as ->.
  apply result_bind_Ok in H as (encoded & He & H).
  assert (default "" (snd <$> params !! i) = value_of name) as Hv by (unfold value_of; by rewrite Ep).
  rewrite Hv in He. pose proof (encode_ok _ _ _ He) as ->.
  apply IH in H as (pieces & Hrest & Hok & -> & -> & ->). exists (Lit lit :: Hole name :: pieces).
  cbn [str_concat_map foldr render_piece print_piece locate marks foldl]. rewrite Ep, !str_length_app, <- !app_assoc. split_and!.
  - rewrite Hr, Ha, Hrest at 1. rewrite !str_app_assoc. done.
  - constructor; [by split; [|apply negb_true_iff]|]. constructor; [|done]. split_and!; [by apply negb_true_iff|done|by rewrite Ep|].
    by rewrite He.
  - by rewrite !str_app_assoc.
  - done.
  - done.
Qed.

(** The template is long enough as fuel. *)
Lemma expand_from_fuel fuel rest out used exps :
  slen rest <= fuel -> expand_from fuel params rest out used exps = expand_from (slen rest) params rest out used exps.
Proof.
  revert fuel out used exps. remember (slen rest) as n eqn:En. revert rest En.
  induction (Nat.lt_wf_0 n) as [n _ IH]. intros rest -> fuel out used exps Hf.
  destruct (str_find (Ascii.eqb "{") rest) as [open|] eqn:Eo.
  2:{ destruct fuel, (slen rest); cbn [expand_from]; by rewrite Eo. }
  assert (open < slen rest) as Hlen.
  { apply find_split in Eo as [Hr _]. apply (f_equal String.length) in Hr. rewrite str_length_app, take_len in Hr. cbn in Hr. lia. }
  destruct fuel as [|fuel]; [lia|]. destruct (slen rest) as [|m] eqn:Em; [lia|]. cbn [expand_from]. rewrite Eo.
  destruct (negb (contains_char "}" (str_take open rest))); [|done].
  destruct (str_find (Ascii.eqb "}") (str_drop (S open) rest)) as [close|]; [|done].
  destruct (negb (contains_char "{" _)); [|done]. destruct (position _ params) as [i|]; [|done]. cbn [ok_or result_bind].
  destruct (encode_segment _ _) as [encoded|]; [|done]. cbn [result_bind].
  assert (slen (str_drop (S close) (str_drop (S open) rest)) <= m) as Hd by (rewrite !drop_len; lia).
  rewrite (IH (slen (str_drop (S close) (str_drop (S open) rest)))) by (done || lia).
  symmetry. apply IH; [lia|done|done].
Qed.

Lemma marked used pieces i :
  i < length used -> marks used pieces !! i = Some true ->
  used !! i = Some true \/ exists name, Hole name ∈ pieces /\ position name params = Some i.
Proof.
  revert used. induction pieces as [|[text|name] pieces IH]; intros used Hi H; [by left|..]; cbn [marks foldl] in H.
  - apply IH in H as [?|(name & ? & ?)]; [by left| |done]. right. exists name. split; [by right|done].
  - destruct (position name params) as [j|] eqn:Ej.
    + apply IH in H as [H|(name' & ? & ?)]; [| |by rewrite length_insert].
      * destruct (decide (j = i)) as [->|Hne]; [right; exists name; split; [by left|done]|].
        left. by rewrite list_lookup_insert_ne in H.
      * right. exists name'. split; [by right|done].
    + apply IH in H as [?|(name' & ? & ?)]; [by left| |done]. right. exists name'. split; [by right|done].
Qed.

Lemma first_unused_none used i p :
  length used = length params -> first_unused params used = None -> params !! i = Some p -> used !! i = Some true.
Proof.
  clear. revert used i. induction params as [|[name v] l IH]; intros [|u used] i Hl H Hp; try done.
  cbn [first_unused] in H. destruct u; [|done]. destruct i as [|i]; [done|]. cbn in *. apply IH; [lia|done|done].
Qed.

Lemma marks_length used pieces : length (marks used pieces) = length used.
Proof.
  revert used. induction pieces as [|[text|name] pieces IH]; intros used; [done|apply IH|].
  cbn [marks foldl]. destruct (position name params); [|apply IH]. rewrite <- (length_insert used n true). apply IH.
Qed.

Lemma check_segments_ok exps l start segment e :
  check_segments exps l = None -> (start, segment) ∈ l -> e ∈ exps -> overlaps start (start + slen segment) e = true ->
  forall n, decoded_times n segment = segment \/ harmless (decoded_times n segment).
Proof.
  intros H Hin He Ho. induction l as [|[start' segment'] l IH]; [by apply elem_of_nil in Hin|]. cbn [check_segments] in H.
  apply elem_of_cons in Hin as [[= <- <-]|Hin].
  - destruct (find _ exps) as [e'|] eqn:Ef.
    + destruct (structural_after_decoding (ex_name e') segment) eqn:Ed; [done|]. by eapply decode_rounds_safe.
    + exfalso. apply list_elem_of_In in He. pose proof (find_none _ _ Ef e He) as Hn. congruence.
  - apply IH; [|done]. destruct (find _ exps); [|done]. by destruct (structural_after_decoding _ _).
Qed.

Lemma encode_no_slash s : count_char "/" (percent_encode s) = 0.
Proof.
  assert (str_forall (fun x => is_unreserved x || Ascii.eqb x "%") (percent_encode s) = true) as H.
  { induction s as [|c s IH]; [done|]. cbn [percent_encode]. rewrite str_forall_app, IH. by rewrite (proj2 (encode_byte_cases c)). }
  induction (percent_encode s) as [|c t IH]; [done|]. cbn [str_forall] in H. apply andb_true_iff in H as [Hc Ht].
  cbn [count_char]. rewrite IH by done. destruct (Ascii.eqb_spec "/" c) as [<-|]; done.
Qed.

Definition literal_slashes (pieces : list piece) : nat :=
  foldr (fun p n => match p with Lit text => count_char "/" text + n | Hole _ => n end) 0 pieces.

Lemma render_slashes pieces : count_char "/" (str_concat_map render_piece pieces) = literal_slashes pieces.
Proof.
  induction pieces as [|[text|name] pieces IH]; [done|..]; cbn [str_concat_map foldr render_piece literal_slashes];
    rewrite count_char_app; change (foldr (fun a s => render_piece a +:+ s) "" pieces) with (str_concat_map render_piece pieces);
    rewrite IH; [done|]. by rewrite encode_no_slash.
Qed.


End templates.
