(* ===== verification/HttpClient.v ===== *)
(** * The outbound HTTP client

    crates/mecmcp-http/src/lib.rs: the checks on the URL, the headers and the
    configuration, the texts of URLs and error causes in diagnostics, the
    bounded read of a response, the two limits on requests in flight, and the
    retry of reads. *)

From S2P Require Import Prelude Text Scope Trust Slice.
From Stdlib Require Import Ascii.

Open Scope list_scope.
Open Scope nat_scope.

Inductive Method := Get | Post | Put | Patch | Delete.

(** ** URLs *)

(** The components of a [reqwest::Url] that the crate reads. *)
Record Url := {
  scheme : string;
  username : string;
  password : option string;
  host_str : option string;
  port : option N;
  path : string;
  query : option string;
  fragment : option string;
}.

(** The URL library and the field grammar of the http crate.  Setting a path
    may escape it, and leaves the rest of the URL alone. *)
Class UrlLib := {
  parse_url : string -> result Url string;
  print_url : Url -> string;
  escape_path : string -> string;
  header_name : string -> option string;
  header_value : string -> bool;
}.

Inductive HttpError :=
| InvalidUrl (url detail : string)
| InsecureScheme (url scheme : string)
| MissingHost (url : string)
| UrlHasEmbeddedCredentials (host : string)
| InvalidHeaderName (name : string)
| FramingHeaderNotAllowed (name : string)
| InvalidHeaderValue (name : string)
| ConfigValidation (field detail : string)
| NoCryptoProvider
| InvalidRootCertificate (index : nat) (detail : string)
| ClientConstruction (detail : string)
| TimedOut (url : string) (timeout : N)
| QueueFull
| LimiterClosed
| ConnectFailed (url detail : string)
| ResponseTooLarge (limit : nat) (url : string)
| BodyRead (url detail : string)
| RequestFailed (url detail : string)
| RetryRequiresGet.

Section client.
Context `{UrlLib}.

(** The URL without what can carry a credential. *)
Definition stripped (u : Url) : Url :=
  {| scheme := scheme u; username := ""; password := None; host_str := host_str u; port := port u; path := path u;
     query := None; fragment := None |}.

Definition from_parsed (u : Url) : string :=
  print_url (stripped u)
  +:+ (match query u with Some _ => "?[redacted]" | None => "" end)
  +:+ (match fragment u with Some _ => "#[redacted]" | None => "" end).

Definition is_credential_delimiter (c : ascii) : bool := Ascii.eqb c "?" || Ascii.eqb c "#".

Definition from_unparsed (raw : string) : string :=
  let '(head, tail_present) :=
    match str_find is_credential_delimiter raw with Some cut => (str_take cut raw, true) | None => (raw, false) end in
  let rendered := match str_rfind (Ascii.eqb "@") head with Some i => "[redacted]" +:+ str_drop i head | None => head end in
  if tail_present then rendered +:+ "[redacted]" else rendered.

Definition validate_request_url (parsed : Url) : result Url HttpError :=
  ensure is_empty_str (username parsed) && (match password parsed with None => true | Some _ => false end)
    else (UrlHasEmbeddedCredentials (default "" (host_str parsed)));
  ensure bool_decide (scheme parsed = "https") else (InsecureScheme (from_parsed parsed) (scheme parsed));
  ensure (match host_str parsed with Some h => negb (is_empty_str h) | None => false end) else (MissingHost (from_parsed parsed));
  Ok parsed.

(** ** Requests *)

Record HeaderValue := { hv_bytes : string; hv_sensitive : bool }.

Record HttpRequest := {
  rq_method : Method;
  rq_url : Url;
  rq_headers : list (string * HeaderValue);
  rq_body : option string;
}.

Definition from_absolute_url (method : Method) (url : string) : result HttpRequest HttpError :=
  let? parsed := map_err (fun detail => InvalidUrl (from_unparsed url) detail) (parse_url url) in
  let? parsed := validate_request_url parsed in
  Ok {| rq_method := method; rq_url := parsed; rq_headers := []; rq_body := None |}.

Definition set_path (u : Url) (p : string) : Url :=
  {| scheme := scheme u; username := username u; password := password u; host_str := host_str u; port := port u;
     path := escape_path p; query := query u; fragment := fragment u |}.

Definition is_some {A} (o : option A) : bool := match o with Some _ => true | None => false end.

(** [expanded]: the text of an [ExpandedPath]. *)
Definition with_base_and_path (method : Method) (base expanded : string) : result HttpRequest HttpError :=
  let? parsed := map_err (fun detail => InvalidUrl (from_unparsed base) detail) (parse_url base) in
  let? parsed := validate_request_url parsed in
  ensure bool_decide (path parsed = "/") && negb (is_some (query parsed)) && negb (is_some (fragment parsed))
    else (InvalidUrl (from_parsed parsed)
           "base URL must not carry a path, query, or fragment; put the prefix in the path template instead");
  Ok {| rq_method := method; rq_url := set_path parsed expanded; rq_headers := []; rq_body := None |}.

Definition FRAMING_HEADERS : list string := ["content-length"; "transfer-encoding"].

Definition parse_header_name (name : string) : result string HttpError :=
  let? parsed := ok_or (header_name name) (InvalidHeaderName name) in
  ensure negb (bool_decide (parsed ∈ FRAMING_HEADERS)) else (FramingHeaderNotAllowed parsed);
  Ok parsed.

Definition push_header (r : HttpRequest) (name : string) (value : HeaderValue) : HttpRequest :=
  {| rq_method := rq_method r; rq_url := rq_url r; rq_headers := rq_headers r ++ [(name, value)]; rq_body := rq_body r |}.

(** [header] and [header_bytes], and [secret_header] with the mark. *)
Definition add_header (sensitive : bool) (r : HttpRequest) (name value : string) : result HttpRequest HttpError :=
  let? parsed := parse_header_name name in
  ensure header_value value else (InvalidHeaderValue name);
  Ok (push_header r parsed {| hv_bytes := value; hv_sensitive := sensitive |}).

Definition header : HttpRequest -> string -> string -> result HttpRequest HttpError := add_header false.
Definition secret_header : HttpRequest -> string -> string -> result HttpRequest HttpError := add_header true.

Definition bearer_auth (r : HttpRequest) (token : string) : result HttpRequest HttpError :=
  ensure header_value ("Bearer " +:+ token) else (InvalidHeaderValue "authorization");
  Ok (push_header r "authorization" {| hv_bytes := "Bearer " +:+ token; hv_sensitive := true |}).

Definition body (r : HttpRequest) (b : string) : HttpRequest :=
  {| rq_method := rq_method r; rq_url := rq_url r; rq_headers := rq_headers r; rq_body := Some b |}.

Definition method_text (m : Method) : string :=
  match m with Get => "GET" | Post => "POST" | Put => "PUT" | Patch => "PATCH" | Delete => "DELETE" end.

(** The fields that [Debug] shows of a request. *)
Definition debug_request (r : HttpRequest) : string * string * list string * nat :=
  (method_text (rq_method r), from_parsed (rq_url r), (rq_headers r).*1, match rq_body r with Some b => slen b | None => 0 end).

(** ** Response bodies *)

(** What [response.chunk()] returns in turn, until the body ends. *)
Fixpoint read_chunks (limit : nat) (url : string) (so_far : string) (chunks : list (result string string))
    : result string HttpError :=
  match chunks with
  | [] => Ok so_far
  | Err detail :: _ => Err (BodyRead url detail)
  | Ok chunk :: chunks =>
      let would_be := slen so_far + slen chunk in
      ensure (N.of_nat would_be <=? u64_max)%N && (would_be <=? limit) else (ResponseTooLarge limit url);
      read_chunks limit url (so_far +:+ chunk) chunks
  end.

Definition read_body_within_limit (limit : nat) (url : string) (content_length : option N) (chunks : list (result string string))
    : result string HttpError :=
  ensure negb (match content_length with Some declared => (N.of_nat limit <? declared)%N | None => false end)
    else (ResponseTooLarge limit url);
  read_chunks limit url "" chunks.

(** ** Error causes *)

Definition MAX_CAUSE_BYTES : nat := 256.
Definition MAX_DESCRIPTION_BYTES : nat := 1024.
Definition MAX_CAUSES : nat := 8.

Definition truncate_on_char_boundary (text : string) (limit : nat) : string :=
  if slen text <=? limit then text else str_take (boundary_below text limit) text +:+ "...".

(** The second byte of a C1 control character. *)
Definition is_c1_tail (c : ascii) : bool := let n := N_of_ascii c in (128 <=? n)%N && (n <=? 159)%N.
Definition is_c1_lead (c : ascii) : bool := (N_of_ascii c =? 194)%N.

(** [char::is_control] on UTF-8: the ASCII controls and U+0080 to U+009F. *)
Fixpoint replace_controls (s : string) : string :=
  match s with
  | EmptyString => ""
  | String c s' =>
      if is_ascii_control c then String "." (replace_controls s')
      else if is_c1_lead c then
        match s' with
        | String d s'' => if is_c1_tail d then String "." (replace_controls s'') else String c (replace_controls s')
        | EmptyString => String c (replace_controls s')
        end
      else String c (replace_controls s')
  end.

Definition sanitize_cause (raw : string) : string := truncate_on_char_boundary (replace_controls raw) MAX_CAUSE_BYTES.

(** At most [left] more causes are walked. *)
Fixpoint walk_causes (left_ : nat) (description : string) (causes : list string) : string :=
  match left_, causes with
  | O, _ | _, [] => description
  | S left_, cause :: causes =>
      if MAX_DESCRIPTION_BYTES <=? slen description then description +:+ " [...]"
      else
        let text := sanitize_cause cause in
        walk_causes left_
          (if negb (is_empty_str text) && negb (contains_str text description) then description +:+ ": " +:+ text else description)
          causes
  end.

(** The error and its source chain. *)
Definition describe_with_causes (error : string) (sources : list string) : string :=
  truncate_on_char_boundary (walk_causes MAX_CAUSES (sanitize_cause error) sources) MAX_DESCRIPTION_BYTES.

(** ** Configuration *)

(** Durations in nanoseconds. *)
Definition DURATION_MAX : N := 2 ^ 64 * 1000000000 - 1.

Record HttpClientConfig := {
  connect_timeout : N;
  request_timeout : N;
  max_concurrent_requests : N;
  max_queued_requests : N;
  pool_idle_timeout : N;
  pool_max_idle_per_host : N;
  max_response_bytes : N;
}.

Definition default_config : HttpClientConfig := {|
  connect_timeout := 10 * 1000000000; request_timeout := 30 * 1000000000; max_concurrent_requests := 8;
  max_queued_requests := 16; pool_idle_timeout := 90 * 1000000000; pool_max_idle_per_host := 4;
  max_response_bytes := 8 * 1024 * 1024 |}.

(** [Semaphore::MAX_PERMITS] on a 64-bit machine. *)
Definition MAX_PERMITS : N := 2 ^ 61 - 1.

Definition positive (field : string) (n : N) : result unit HttpError :=
  ensure negb (n =? 0)%N else (ConfigValidation field "must be greater than zero"); Ok tt.

Definition validate_config (c : HttpClientConfig) : result unit HttpError :=
  check? positive "connect_timeout" (connect_timeout c);
  check? positive "request_timeout" (request_timeout c);
  check? positive "max_concurrent_requests" (max_concurrent_requests c);
  check? positive "max_queued_requests" (max_queued_requests c);
  check? positive "max_response_bytes" (max_response_bytes c);
  ensure (max_concurrent_requests c <=? MAX_PERMITS)%N
    else (ConfigValidation "max_concurrent_requests" ("must not exceed " +:+ pretty MAX_PERMITS));
  ensure (max_concurrent_requests c + max_queued_requests c <=? u64_max)%N
    else (ConfigValidation "max_queued_requests" "max_concurrent_requests + max_queued_requests overflows usize");
  ensure (max_concurrent_requests c + max_queued_requests c <=? MAX_PERMITS)%N
    else (ConfigValidation "max_queued_requests"
           ("max_concurrent_requests + max_queued_requests must not exceed " +:+ pretty MAX_PERMITS));
  check? positive "pool_max_idle_per_host" (pool_max_idle_per_host c);
  check? positive "pool_idle_timeout" (pool_idle_timeout c);
  Ok tt.

(** The certificates of the configured PEM texts: [certificates] are the blocks
    of one text, each parsed or not. *)
Fixpoint load_roots (index : nat) (entries : list (list (result string string))) : result (list string) HttpError :=
  match entries with
  | [] => Ok []
  | certificates :: entries =>
      let? found := map_err (InvalidRootCertificate index) (collect certificates) in
      ensure negb (bool_decide (found = [])) else (InvalidRootCertificate index "no CERTIFICATE block found");
      let? rest := load_roots (S index) entries in
      Ok (found ++ rest)
  end.

(** The built client: the limits, the bound on bodies, and the roots that
    replace the built-in store, if there are any. *)
Record HttpClient := {
  concurrency : N;
  queue_capacity : N;
  timeout : N;
  body_limit : N;
  pinned_roots : option (list string);
}.

Definition new (c : HttpClientConfig) (provider_installed : bool) (extra_root_certificates : list (list (result string string)))
    (build_error : option string) : result HttpClient HttpError :=
  check? validate_config c;
  ensure provider_installed else NoCryptoProvider;
  let? extra_certs := load_roots 0 extra_root_certificates in
  match build_error with
  | Some detail => Err (ClientConstruction detail)
  | None =>
      Ok {| concurrency := max_concurrent_requests c;
            queue_capacity := max_concurrent_requests c + max_queued_requests c;
            timeout := request_timeout c; body_limit := max_response_bytes c;
            pinned_roots := if bool_decide (extra_certs = []) then None else Some extra_certs |}
  end.

(** ** Requests in flight *)

(** The calls that hold a place in the queue and those of them that also hold
    a permit. *)
Record Flight := { queued : list nat; running : list nat }.

Inductive FlightStep (c : HttpClient) : Flight -> Flight -> Prop :=
| Enter f id :
    id ∉ queued f -> (N.of_nat (length (queued f)) < queue_capacity c)%N ->
    FlightStep c f {| queued := id :: queued f; running := running f |}
| Acquire f id :
    id ∈ queued f -> id ∉ running f -> (N.of_nat (length (running f)) < concurrency c)%N ->
    FlightStep c f {| queued := queued f; running := id :: running f |}
| Leave f id :
    id ∈ queued f ->
    FlightStep c f {| queued := filter (fun i => i <> id) (queued f); running := filter (fun i => i <> id) (running f) |}.

(** [try_acquire] of the queue. *)
Definition try_enter (c : HttpClient) (f : Flight) (id : nat) : result Flight HttpError :=
  if (N.of_nat (length (queued f)) <? queue_capacity c)%N then Ok {| queued := id :: queued f; running := running f |} else Err QueueFull.

Record HttpResponse := { status : N; rs_headers : list (string * string); rs_body : string }.

(** What the wire did with the one attempt, and what [send] makes of it. *)
Inductive Exchange :=
| Expired
| Refused (is_connect : bool) (error : string) (sources : list string)
| Answered (status : N) (headers : list (string * string)) (content_length : option N) (chunks : list (result string string)).

Definition send (c : HttpClient) (f : Flight) (id : nat) (r : HttpRequest) (x : Exchange) : result HttpResponse HttpError :=
  let url := from_parsed (rq_url r) in
  let? _ := try_enter c f id in
  match x with
  | Expired => Err (TimedOut url (timeout c))
  | Refused is_connect error sources =>
      let detail := describe_with_causes error sources in
      Err (if is_connect then ConnectFailed url detail else RequestFailed url detail)
  | Answered s headers content_length chunks =>
      let? b := read_body_within_limit (N.to_nat (body_limit c)) url content_length chunks in
      Ok {| status := s; rs_headers := headers; rs_body := b |}
  end.

(** The first value of a header, and the same as text. *)
Definition response_header (r : HttpResponse) (name : string) : option string :=
  header_name name ≫= fun n => snd <$> find (fun kv => bool_decide (kv.1 = n)) (rs_headers r).

Definition header_str (r : HttpResponse) (name : string) : option string :=
  response_header r name ≫= fun v => if utf8_valid v then Some v else None.

(** ** Retry of reads *)

Record RetryPolicy := { max_attempts : N; initial_backoff : N; max_backoff : N; max_total_wait : N }.

Definition default_retry_policy : RetryPolicy :=
  {| max_attempts := 4; initial_backoff := 200000000; max_backoff := 5000000000; max_total_wait := 15000000000 |}.

Definition is_transient_status (s : N) : bool := (s =? 429)%N || (500 <=? s)%N && (s <=? 599)%N.

Definition is_retryable (outcome : result HttpResponse HttpError) : bool :=
  match outcome with
  | Ok r => is_transient_status (status r)
  | Err (TimedOut _ _) => true
  | Err _ => false
  end.

(** One attempt: its outcome and the time since the start when it ended; then
    the time at which the sleep that follows it ends. *)
Record Try := { t_outcome : result HttpResponse HttpError; t_elapsed : N; t_woken : N -> N }.

Definition checked_add (a b : N) : option N := if (a + b <=? DURATION_MAX)%N then Some (a + b)%N else None.

Definition next_backoff (p : RetryPolicy) (backoff : N) : N :=
  let doubled := if (backoff * 2 <=? DURATION_MAX)%N then (backoff * 2)%N else max_backoff p in N.min doubled (max_backoff p).

(** The loop: [left_] more attempts are allowed.  Returned are the outcome and
    the attempts that were followed by a sleep, with its length. *)
Fixpoint retry_loop (p : RetryPolicy) (left_ : nat) (attempt : nat) (backoff now : N) (world : nat -> N -> Try)
    : result HttpResponse HttpError * list (Try * N) :=
  let t := world attempt now in
  match left_ with
  | O => (t_outcome t, [])
  | S left_ =>
      if negb (is_retryable (t_outcome t)) then (t_outcome t, [])
      else match checked_add (t_elapsed t) backoff with
           | None => (t_outcome t, [])
           | Some elapsed_after =>
               if (max_total_wait p <? elapsed_after)%N then (t_outcome t, [])
               else
                 let '(r, slept) := retry_loop p left_ (S attempt) (next_backoff p backoff) (t_woken t backoff) world in
                 (r, (t, backoff) :: slept)
           end
  end.

Definition is_get (m : Method) : bool := match m with Get => true | _ => false end.

Definition send_get_with_backoff (p : RetryPolicy) (r : HttpRequest) (world : nat -> N -> Try)
    : result HttpResponse HttpError * list (Try * N) :=
  if is_get (rq_method r)
  then retry_loop p (N.to_nat (N.max (max_attempts p) 1) - 1) 0 (N.min (initial_backoff p) (max_backoff p)) 0 world
  else (Err RetryRequiresGet, []).

(** ** Diagnostics *)

(** Two URLs that differ only in what can carry a credential. *)
Definition same_but_credentials (u u' : Url) : Prop :=
  scheme u = scheme u' /\ host_str u = host_str u' /\ port u = port u' /\ path u = path u' /\
  is_some (query u) = is_some (query u') /\ is_some (fragment u) = is_some (fragment u') /\
  (username u = "" /\ password u = None <-> username u' = "" /\ password u' = None).

Lemma from_parsed_hides u u' : same_but_credentials u u' -> from_parsed u = from_parsed u'.
Proof.
  intros (H1 & H2 & H3 & H4 & H5 & H6 & _). unfold from_parsed, stripped. rewrite H1, H2, H3, H4.
  destruct (query u), (query u'), (fragment u), (fragment u'); done.
Qed.

Lemma no_userinfo_spec u :
  is_empty_str (username u) && (match password u with None => true | Some _ => false end) = true <-> username u = "" /\ password u = None.
Proof. rewrite andb_true_iff, is_empty_str_spec. destruct (password u); split; by intros []. Qed.

Lemma validate_hides u u' e : same_but_credentials u u' -> validate_request_url u = Err e -> validate_request_url u' = Err e.
Proof.
  intros Hs. pose proof (from_parsed_hides u u' Hs) as Hf. destruct Hs as (H1 & H2 & _ & _ & _ & _ & Hu).
  rewrite <- !no_userinfo_spec in Hu. unfold validate_request_url. rewrite <- Hf, <- H1, <- H2.
  revert Hu. generalize (is_empty_str (username u) && (match password u with None => true | Some _ => false end)).
  generalize (is_empty_str (username u') && (match password u' with None => true | Some _ => false end)).
  intros [] [] [A B]; [|discriminate (B eq_refl)|discriminate (A eq_refl)|done].
  destruct (bool_decide _); [|done]. by destruct (match host_str u with Some h => _ | None => _ end).
Qed.

Lemma unparsed_cut userinfo visible tail :
  str_exists is_credential_delimiter userinfo = false -> str_exists is_credential_delimiter visible = false ->
  contains_char "@" visible = false -> is_credential_delimiter (match tail with String c _ => c | "" => "?" end) = true ->
  from_unparsed (userinfo +:+ String "@" (visible +:+ tail)) =
    "[redacted]@" +:+ visible +:+ (if is_empty_str tail then "" else "[redacted]").
Proof.
  intros Hi Hv Ha Ht. unfold from_unparsed.
  assert (str_rfind (Ascii.eqb "@") (userinfo +:+ String "@" visible) = Some (slen userinfo)) as Hr.
  { clear -Ha. induction userinfo as [|c s IH]; cbn [String.append str_rfind]; [|by rewrite str_app_cons; cbn [str_rfind]; rewrite IH].
    rewrite str_app_nil. cbn [str_rfind]. assert (str_rfind (Ascii.eqb "@") visible = None) as ->; [|done].
    clear -Ha. unfold contains_char in Ha. induction visible as [|d s IH]; [done|]. cbn [str_exists] in Ha.
    apply orb_false_iff in Ha as [Hd Hs]. cbn [str_rfind]. by rewrite IH, Hd. }
  assert (str_exists is_credential_delimiter (userinfo +:+ String "@" visible) = false) as Hn
    by (rewrite str_exists_app, Hi; exact Hv).
  destruct tail as [|c tail].
  - rewrite !str_app_nil_r. destruct (str_find is_credential_delimiter _) as [i|] eqn:E.
    { apply str_find_split in E as (a & d & b & E & _ & Hd & _). rewrite E, str_exists_app in Hn. cbn in Hn.
      by rewrite Hd, orb_true_r in Hn. }
    by rewrite Hr, drop_app.
  - replace (userinfo +:+ String "@" (visible +:+ String c tail)) with ((userinfo +:+ String "@" visible) +:+ String c tail)
      by (by rewrite str_app_assoc).
    rewrite (str_find_first _ _ _ _ Hn Ht), take_app, Hr, drop_app. by rewrite !str_app_assoc.
Qed.

(** A diagnostic shows no credential of a URL.  Errors about a URL that was
    parsed, and the debug output of a request, are the same for every user
    name, password, query and fragment; the text shown for a URL that could
    not be parsed does not depend on what stands before its last at sign nor on
    what stands behind the first question mark or hash. *)
Theorem diagnostics_hide_credentials :
  (forall u u' e, same_but_credentials u u' -> validate_request_url u = Err e -> validate_request_url u' = Err e) /\
  (forall r u, same_but_credentials (rq_url r) u ->
     debug_request r = debug_request {| rq_method := rq_method r; rq_url := u; rq_headers := rq_headers r; rq_body := rq_body r |}) /\
  (forall userinfo visible tail,
     str_exists is_credential_delimiter userinfo = false -> str_exists is_credential_delimiter visible = false ->
     contains_char "@" visible = false -> is_credential_delimiter (match tail with String c _ => c | "" => "?" end) = true ->
     from_unparsed (userinfo +:+ String "@" (visible +:+ tail)) =
       "[redacted]@" +:+ visible +:+ (if is_empty_str tail then "" else "[redacted]")).
Proof.
  split_and!; [apply validate_hides| |apply unparsed_cut]. intros r u Hs. unfold debug_request. cbn. by rewrite (from_parsed_hides _ _ Hs).
Qed.

(** ** Requests *)

(** The requests that the builder can make. *)
Inductive Built : HttpRequest -> Prop :=
| built_absolute m url r : from_absolute_url m url = Ok r -> Built r
| built_base m base expanded r : with_base_and_path m base expanded = Ok r -> Built r
| built_header sensitive r name value r' : Built r -> add_header sensitive r name value = Ok r' -> Built r'
| built_bearer r token r' : Built r -> bearer_auth r token = Ok r' -> Built r'
| built_body r b : Built r -> Built (body r b).

Definition safe_request (r : HttpRequest) : Prop :=
  scheme (rq_url r) = "https" /\ username (rq_url r) = "" /\ password (rq_url r) = None /\
  (exists host, host_str (rq_url r) = Some host /\ host <> "") /\
  Forall (fun kv => kv.1 ∉ FRAMING_HEADERS) (rq_headers r) /\
  Forall (fun kv => header_value (hv_bytes kv.2) = true) (rq_headers r).

Lemma validate_ok u u' : validate_request_url u = Ok u' ->
  u' = u /\ scheme u = "https" /\ username u = "" /\ password u = None /\ exists host, host_str u = Some host /\ host <> "".
Proof.
  unfold validate_request_url. rewrite !ensure_Ok, no_userinfo_spec, bool_decide_eq_true. intros ([? ?] & ? & Hh & [= <-]).
  split_and!; try done. destruct (host_str u) as [h|]; [|done]. exists h. split; [done|]. by intros ->.
Qed.

(** Whatever the caller does, a request goes to an encrypted endpoint, with
    a host and without credentials in its URL, and carries no header that
    frames its body. *)
Theorem built_request_is_safe r : Built r -> safe_request r.
Proof.
  induction 1 as [m url r E|m base expanded r E|sensitive r name value r' _ IH E|r token r' _ IH E|r b _ IH].
  - apply result_bind_Ok in E as (u & _ & E). apply result_bind_Ok in E as (u' & (-> & ? & ? & ? & ?)%validate_ok & [= <-]). done.
  - apply result_bind_Ok in E as (u & _ & E). apply result_bind_Ok in E as (u' & (-> & ? & ? & ? & ?)%validate_ok & E).
    apply ensure_Ok in E as [_ [= <-]]. done.
  - destruct IH as (? & ? & ? & ? & Hf & Hv). apply result_bind_Ok in E as (parsed & Hp & (Hval & [= <-])%ensure_Ok).
    apply result_bind_Ok in Hp as (p & _ & (Hn%negb_true_iff & [= <-])%ensure_Ok). apply bool_decide_eq_false in Hn.
    split_and!; try done; apply Forall_app; split; try done; by constructor.
  - destruct IH as (? & ? & ? & ? & Hf & Hv). apply ensure_Ok in E as [Hval [= <-]].
    split_and!; try done; apply Forall_app; split; try done; constructor; try done. cbn. set_solver.
  - exact IH.
Qed.

(** ** Bodies *)

Definition body_of (chunks : list (result string string)) (b : string) : Prop :=
  exists texts, chunks = Ok <$> texts /\ b = foldr String.append "" texts.

Lemma read_chunks_spec limit url so_far chunks b :
  slen so_far <= limit -> (N.of_nat (slen so_far) <= u64_max)%N ->
  read_chunks limit url so_far chunks = Ok b <->
  exists rest, body_of chunks rest /\ b = so_far +:+ rest /\ slen b <= limit /\ (N.of_nat (slen b) <= u64_max)%N.
Proof.
  revert so_far. induction chunks as [|[chunk|detail] chunks IH]; intros so_far Hl Hm; cbn [read_chunks].
  - split.
    + intros [= <-]. exists "". rewrite str_app_nil_r. split_and!; try done. by exists [].
    + intros (rest & ([|] & ? & ->) & -> & _); [|done]. cbn. by rewrite str_app_nil_r.
  - rewrite ensure_Ok, andb_true_iff, N.leb_le, Nat.leb_le, <- str_length_app. split.
    + intros [[? ?] Hrest]. apply IH in Hrest as (rest & (texts & -> & ->) & -> & ? & ?); [|done..].
      exists (chunk +:+ foldr String.append "" texts). rewrite <- str_app_assoc. split_and!; try done. by exists (chunk :: texts).
    + intros (rest & ([|t texts] & [= -> ->] & ->) & -> & H1 & H2). cbn [foldr] in *. rewrite <- str_app_assoc in *.
      rewrite str_length_app in H1, H2. split; [split; lia|]. apply IH; [lia|lia|].
      eexists. split_and!; [by exists texts|done|rewrite str_length_app; lia|rewrite str_length_app; lia].
  - split; [done|]. by intros (? & ([|] & [=] & _) & _).
Qed.

(** A response is accepted exactly when all of its body was read and fits:
    the body returned is the concatenation of the chunks, of at most the
    configured number of bytes, whatever length the peer declared; a larger
    declared length is refused before anything is read. *)
Theorem body_is_whole_and_bounded limit url content_length chunks b :
  read_body_within_limit limit url content_length chunks = Ok b <->
  body_of chunks b /\ slen b <= limit /\ (N.of_nat (slen b) <= u64_max)%N /\
  (forall declared, content_length = Some declared -> (declared <= N.of_nat limit)%N).
Proof.
  unfold read_body_within_limit. rewrite ensure_Ok, read_chunks_spec by (cbn; lia). split.
  - intros (Hd & rest & ? & -> & ? & ?). split_and!; try done. intros declared ->. apply negb_true_iff, N.ltb_ge in Hd. done.
  - intros (? & ? & ? & Hd). split; [|by exists b]. destruct content_length as [d|]; [|done].
    apply negb_true_iff, N.ltb_ge. by apply Hd.
Qed.

(** ** Causes *)

(** No control character, in ASCII or as two bytes. *)
Fixpoint control_free (s : string) : bool :=
  match s with
  | EmptyString => true
  | String c s' =>
      negb (is_ascii_control c) &&
      negb (is_c1_lead c && match s' with String d _ => is_c1_tail d | EmptyString => false end) && control_free s'
  end.

Lemma lead_not_control c : is_c1_lead c = true -> is_ascii_control c = false.
Proof. unfold is_c1_lead, is_ascii_control. intros ->%N.eqb_eq. done. Qed.

(** A text and what follows it, if that does not begin inside a character. *)
Lemma control_free_app a b :
  control_free a = true -> control_free b = true -> match b with String d _ => is_c1_tail d | "" => false end = false ->
  control_free (a +:+ b) = true.
Proof.
  intros Ha Hb Hd. induction a as [|c a IH]; [done|]. rewrite str_app_cons. cbn [control_free] in *.
  apply andb_true_iff in Ha as [[Hc Hn]%andb_true_iff Ha]. rewrite Hc, IH, andb_true_r by done. cbn [andb].
  destruct a as [|x a]; [rewrite str_app_nil, Hd, andb_false_r; done|]. by rewrite str_app_cons.
Qed.

Lemma replace_controls_free s : control_free (replace_controls s) = true.
Proof.
  assert (forall n s, slen s <= n -> control_free (replace_controls s) = true /\
    (match s with String d _ => is_c1_tail d | "" => false end = false ->
     match replace_controls s with String d _ => is_c1_tail d | "" => false end = false)) as H'; [|by apply (H' (slen s))].
  clear s. induction n as [|n IH]; intros [|c s] Hl; cbn [String.length] in Hl; try done; [lia|]. cbn [replace_controls].
  destruct (is_ascii_control c) eqn:Ec.
  { destruct (IH s) as [F _]; [lia|]. split; [|done]. cbn [control_free]. by rewrite F. }
  destruct (is_c1_lead c) eqn:El; cbn [control_free andb].
  - destruct s as [|d s]; [cbn; by rewrite Ec, El|]. cbn [String.length] in Hl. destruct (is_c1_tail d) eqn:Ed.
    + destruct (IH s) as [F _]; [lia|]. split; [|done]. cbn [control_free]. by rewrite F.
    + destruct (IH (String d s)) as [F G]; [cbn; lia|]. cbn [control_free]. rewrite Ec, El, F. cbn [andb negb].
      rewrite (G Ed). done.
  - destruct (IH s) as [F _]; [lia|]. cbn [control_free]. by rewrite Ec, El, F.
Qed.

Lemma take_control_free n s : control_free s = true -> control_free (str_take n s) = true.
Proof.
  revert n. induction s as [|c s IH]; intros [|n] Hs; try done. cbn [str_take control_free] in *.
  apply andb_true_iff in Hs as [[Hc Hn]%andb_true_iff Hs]. rewrite Hc, (IH n Hs), andb_true_r. cbn [andb].
  destruct n as [|n], s as [|d s]; try done; by rewrite andb_false_r.
Qed.

Lemma truncate_free s n : control_free s = true -> control_free (truncate_on_char_boundary s n) = true.
Proof.
  intros Hs. unfold truncate_on_char_boundary. destruct (slen s <=? n); [done|].
  by apply control_free_app; [apply take_control_free|..].
Qed.

Lemma truncate_len s n : slen (truncate_on_char_boundary s n) <= n + 3.
Proof.
  unfold truncate_on_char_boundary. destruct (Nat.leb_spec (slen s) n); [lia|]. rewrite str_length_app, take_len.
  destruct (boundary_below_spec s n) as (_ & ? & _). cbn. lia.
Qed.

Lemma walk_free n s causes : control_free s = true -> control_free (walk_causes n s causes) = true.
Proof.
  revert s causes. induction n as [|n IH]; intros s [|cause causes] Hs; try done. cbn [walk_causes].
  destruct (_ <=? _); [by apply control_free_app|]. apply IH. destruct (_ && _); [|done].
  apply control_free_app; [done| |done]. change (control_free (String ":" (String " " (sanitize_cause cause))) = true).
  cbn [control_free]. unfold sanitize_cause. rewrite truncate_free by apply replace_controls_free. done.
Qed.

(** The description of a failure is bounded and inert: however long the
    chain of causes and whatever the peer put into it, at most 1027 bytes are
    shown, and no control character is among them. *)
Theorem description_is_bounded_and_inert error sources :
  slen (describe_with_causes error sources) <= MAX_DESCRIPTION_BYTES + 3 /\
  control_free (describe_with_causes error sources) = true.
Proof.
  split; [apply truncate_len|]. apply truncate_free, walk_free, truncate_free, replace_controls_free.
Qed.

(** ** Limits *)

Definition within (c : HttpClient) (f : Flight) : Prop :=
  NoDup (queued f) /\ NoDup (running f) /\ running f ⊆ queued f /\
  (N.of_nat (length (queued f)) <= queue_capacity c)%N /\ (N.of_nat (length (running f)) <= concurrency c)%N.

Lemma flight_step_within c f f' : FlightStep c f f' -> within c f -> within c f'.
Proof.
  intros [f0 id Hn Hl|f0 id Hq Hr Hl|f0 id Hq] (H1 & H2 & H3 & H4 & H5); split_and!; cbn [queued running] in *; try done.
  - by constructor.
  - set_solver.
  - cbn [length]. lia.
  - by constructor.
  - set_solver.
  - cbn [length]. lia.
  - by apply NoDup_filter.
  - by apply NoDup_filter.
  - intros x. rewrite !list_elem_of_filter. set_solver.
  - pose proof (length_filter (fun i => i <> id) (queued f0)). lia.
  - pose proof (length_filter (fun i => i <> id) (running f0)). lia.
Qed.

(** C37 A client built from an accepted configuration bounds its load.  Its
    semaphores can be made, in every reachable state at most the configured
    number of calls is on the wire and at most the configured number waits
    behind them, a call on the wire also holds its place in the queue, and a
    new call is turned away only when every place is taken. *)
Theorem load_is_bounded config provider roots client f id :
  new config provider roots None = Ok client -> rtc (FlightStep client) {| queued := []; running := [] |} f ->
  (0 < concurrency client <= MAX_PERMITS)%N /\ (queue_capacity client <= MAX_PERMITS)%N /\
  (N.of_nat (length (running f)) <= max_concurrent_requests config)%N /\
  (N.of_nat (length (queued f)) <= max_concurrent_requests config + max_queued_requests config)%N /\
  running f ⊆ queued f /\
  (try_enter client f id = Err QueueFull <->
   N.of_nat (length (queued f)) = (max_concurrent_requests config + max_queued_requests config)%N).
Proof.
  intros Hn Hr. assert (within client f) as (_ & _ & Hsub & Hq & Hrun).
  { revert Hr. apply (rtc_ind_r (fun f => within client f)).
    - split_and!; cbn; try lia; try constructor. done.
    - intros x y _ Hs Hx. by eapply flight_step_within. }
  apply result_bind_Ok in Hn as (u & Hv & (_ & Hn)%ensure_Ok). apply result_bind_Ok in Hn as (certs & _ & [= <-]).
  cbn in Hq, Hrun. unfold validate_config, positive in Hv.
  repeat match type of Hv with
  | result_bind _ _ = Ok _ => apply result_bind_Ok in Hv as (? & ?Hp & Hv)
  | (if _ then _ else _) = Ok _ => apply ensure_Ok in Hv as [?Hp Hv]
  end.
  repeat match goal with
  | Hp : (if _ then _ else _) = Ok _ |- _ => apply ensure_Ok in Hp as [Hp _]; apply negb_true_iff, N.eqb_neq in Hp
  | Hp : (_ <=? _)%N = true |- _ => apply N.leb_le in Hp
  end.
  cbn. split_and!; try lia; try done. unfold try_enter. cbn.
  destruct (N.ltb_spec (N.of_nat (length (queued f))) (max_concurrent_requests config + max_queued_requests config));
    split; (done || lia).
Qed.

(** ** Retry *)

Lemma next_backoff_le p b : (next_backoff p b <= max_backoff p)%N.
Proof. unfold next_backoff. lia. Qed.

Lemma retry_loop_spec p left_ attempt backoff now world o slept :
  (backoff <= max_backoff p)%N -> retry_loop p left_ attempt backoff now world = (o, slept) ->
  length slept <= left_ /\
  Forall (fun td => is_retryable (t_outcome td.1) = true /\ (t_elapsed td.1 + td.2 <= max_total_wait p)%N /\ (td.2 <= max_backoff p)%N) slept /\
  (exists now', o = t_outcome (world (attempt + length slept) now')) /\
  (is_retryable o = true -> length slept < left_ -> exists t b, t_outcome t = o /\ (b <= max_backoff p)%N /\
     (max_total_wait p < t_elapsed t + b \/ DURATION_MAX < t_elapsed t + b)%N).
Proof.
  revert attempt backoff now o slept. induction left_ as [|n IH]; intros attempt backoff now o slept Hb; cbn [retry_loop].
  { intros [= <- <-]. cbn. split_and!; [lia|done|exists now; by rewrite Nat.add_0_r|lia]. }
  set (t := world attempt now). assert (exists now', t_outcome t = t_outcome (world (attempt + 0) now')) as Hlast
    by (exists now; by rewrite Nat.add_0_r).
  destruct (is_retryable (t_outcome t)) eqn:Er; cbn [negb].
  2:{ intros [= <- <-]. cbn. split_and!; [lia|done|done|congruence]. }
  unfold checked_add. destruct (N.leb_spec (t_elapsed t + backoff) DURATION_MAX) as [Hd|Hd].
  2:{ intros [= <- <-]. cbn. split_and!; [lia|done|done|]. intros _ _. exists t, backoff. auto. }
  destruct (N.ltb_spec (max_total_wait p) (t_elapsed t + backoff)) as [Hw|Hw].
  { intros [= <- <-]. cbn. split_and!; [lia|done|done|]. intros _ _. exists t, backoff. auto. }
  destruct (retry_loop p n (S attempt) (next_backoff p backoff) (t_woken t backoff) world) as [o' slept'] eqn:E.
  intros [= <- <-]. apply IH in E as (Hl & Hf & [now' Ho] & Hx); [|apply next_backoff_le]. cbn [length]. split_and!.
  - lia.
  - constructor; [done|done].
  - exists now'. by rewrite Nat.add_succ_r.
  - intros Ho' Hlen. apply Hx; [done|lia].
Qed.


End client.
