(* ===== verification/TransferWitnesses.v ===== *)
(** * File transfers on concrete channels

    A peer that answers an upload, one that sends a file in oddly cut messages,
    a transfer cancelled between the narrowing and the truncation, a
    known_hosts file in a small format, and the theorems of Scp.v, ScpFacts.v
    and KnownHosts.v applied to them. *)

From S2P Require Import Prelude Text Trust Slice Scp ScpFacts KnownHosts.
From Stdlib Require Import Ascii.

Open Scope list_scope.
Open Scope nat_scope.

Definition never (_ : nat) : bool := false.
Definition healthy (_ : nat) : option string := None.
Definition two_bytes (_ : nat) : nat := 1.

Definition connected (msgs : list ChannelMsg) : Transfer :=
  {| buf := ""; inbox := msgs; outbox := []; clock := 0; states := []; poisoned := false |}.

(** ** Headers *)

Lemma c_header_round_trip_witness : parse_c_header (c_header 420 12 "a b.txt") = Ok (420%N, 12%N, "a b.txt").
Proof. apply (c_header_round_trip 420 12 "a b.txt"); done. Defined.

(** ** Upload *)

Definition report : LocalFile := {|
  lf_path := "/tmp/report"; lf_name := Some "report"; lf_kind := Regular; lf_len := 5; lf_mode := 33188;
  lf_mtime := 1700000000; lf_atime := -4; lf_content := "hello" |}.

Definition sink : list ChannelMsg := [Success; Data NUL; OtherMsg; Data (NUL +:+ NUL); Data (NUL +:+ NUL); ExitStatus 0].

Definition upload_run : result ScpOutcome ScpError * Transfer :=
  upload never healthy two_bytes (Ok report) "/var/tmp" (connected sink).

Lemma upload_sends_the_file_witness :
  upload_run.1 = Ok {| bytes_transferred := 5; server_messages := [] |} /\
  exists file name chunks rest,
    Ok (E := string) report = Ok file /\ lf_kind file = Regular /\ lf_name file = Some name /\ contains_char NL name = false /\
    5%N = lf_len file /\ N.to_nat (lf_len file) <= slen (lf_content file) /\
    str_concat chunks = str_take (N.to_nat (lf_len file)) (lf_content file) /\
    outbox upload_run.2 = [] ++
      [OExec ("scp -p -d -t -- " +:+ shell_escape "/var/tmp"); OData (t_header file);
       OData (c_header (N.land (lf_mode file) 511) (lf_len file) name)] ++
      (OData <$> chunks) ++ [OData NUL; OData ("E" +:+ String NL ""); OEof] /\
    feed sink = (NUL +:+ NUL +:+ NUL +:+ NUL) +:+ rest.
Proof.
  split; [vm_compute; reflexivity|].
  apply (upload_sends_the_file never healthy two_bytes (Ok report) "/var/tmp" (connected sink)
           {| bytes_transferred := 5; server_messages := [] |} upload_run.2).
  vm_compute. reflexivity.
Defined.

Example upload_traffic :
  outbox upload_run.2 =
    [OExec "scp -p -d -t -- '/var/tmp'"; OData ("T1700000000 0 0 0" +:+ String NL ""); OData ("C0644 5 report" +:+ String NL "");
     OData "he"; OData "ll"; OData "o"; OData NUL; OData ("E" +:+ String NL ""); OEof].
Proof. vm_compute. reflexivity. Qed.

Lemma upload_completes_witness :
  exists t', upload never healthy two_bytes (Ok report) "/var/tmp" (connected sink) =
    (Ok {| bytes_transferred := 5; server_messages := [] |}, t').
Proof.
  apply (upload_completes two_bytes report "report" "/var/tmp" (connected sink) (tail sink) "");
    [done|done|by repeat constructor|done|done|done|done|vm_compute; lia].
Defined.

(** ** Download *)

Definition source : list ChannelMsg :=
  [Success; Data "C4644 6 "; Data ("conf" +:+ String NL "se"); OtherMsg; Data ""; Data ("cret" +:+ NUL); ExitStatus 0; Close].

(** The destination exists, readable by its owner only. *)
Definition existing (mode : N) : result Inode string := Ok {| i_kind := Regular; i_mode := 384; i_data := "old" |}.

Definition download_run : result ScpOutcome ScpError * Transfer :=
  download never healthy never two_bytes "/etc/conf" "conf" existing (connected source).

Lemma download_stores_what_was_sent_witness :
  download_run.1 = Ok {| bytes_transferred := 6; server_messages := [] |} /\
  exists header raw size name payload rest older,
    feed source = (header +:+ String NL "") +:+ payload +:+ NUL +:+ rest /\
    parse_c_header header = Ok (raw, size, name) /\ contains_char "/" name = false /\
    slen payload = N.to_nat size /\ 6%N = size /\
    states download_run.2 = {| i_kind := Regular; i_mode := N.land raw 511; i_data := payload |} :: older /\
    outbox download_run.2 = [] ++
      [OExec ("scp -f -- " +:+ shell_escape "/etc/conf"); OData NUL; OData NUL; OData NUL; OEof].
Proof.
  split; [vm_compute; reflexivity|].
  apply (download_stores_what_was_sent never healthy never two_bytes "/etc/conf" "conf" existing (connected source)
           {| bytes_transferred := 6; server_messages := [] |} download_run.2).
  vm_compute. reflexivity.
Defined.

Example download_states :
  (fun i => (i_mode i, i_data i)) <$> rev (states download_run.2) =
    [(384%N, "old"); (384%N, "old"); (384%N, ""); (420%N, ""); (420%N, "secret")].
Proof. vm_compute. reflexivity. Qed.

Lemma download_completes_witness :
  exists t' older,
    download never healthy never two_bytes "/etc/conf" "conf" existing (connected source) =
      (Ok {| bytes_transferred := 6; server_messages := [] |}, t') /\
    states t' = {| i_kind := Regular; i_mode := N.land 2468 511; i_data := "secret" |} :: older.
Proof.
  apply (download_completes never two_bytes "C4644 6 conf" 2468 6 "conf" "secret" "" "/etc/conf" "conf" existing
           {| i_kind := Regular; i_mode := 384; i_data := "old" |} (connected source) (tail source));
    [done|done|by repeat constructor|done|done|apply Nat.leb_le; vm_compute; reflexivity|done|done|done|done|done|done].
Defined.

(** The truncation is cancelled: the old data stays, under the narrowed mode. *)
Definition truncate_cancelled (k : nat) : bool := Nat.eqb k 12.

Definition cancelled_run : result ScpOutcome ScpError * Transfer :=
  download truncate_cancelled healthy never two_bytes "/etc/conf" "conf" existing (connected source).

Lemma download_never_exposes_witness :
  states cancelled_run.2 = [] \/
  exists header raw size name sent i0,
    feed source = (header +:+ String NL "") +:+ sent /\ parse_c_header header = Ok (raw, size, name) /\
    existing (N.land raw 511) = Ok i0 /\ contained i0 (N.land raw 511) sent (states cancelled_run.2).
Proof.
  apply (download_never_exposes truncate_cancelled healthy never two_bytes "/etc/conf" "conf" existing (connected source)).
  reflexivity.
Defined.

Example cancelled_states :
  (cancelled_run.1, (fun i => (i_mode i, i_data i)) <$> rev (states cancelled_run.2)) =
    (Err (EIo Interrupted "cancelled during truncate"), [(384%N, "old"); (384%N, "old"); (384%N, "old")]).
Proof. vm_compute. reflexivity. Qed.

(** ** Host keys *)

(** Keys are their fingerprints; a file lists a host and its key in a line. *)
Definition toy_check (host : string) (port : N) (key text : string) : result bool KeyError :=
  let entry := fun line => match split_whitespace line with [h; _; k] => bool_decide (h = host) && bool_decide (k = key) | _ => false end in
  Ok (existsb entry (str_split NL text)).

#[local] Instance toy_russh : Russh := {|
  PublicKey := string; fingerprint_sha256 k := "SHA256:" +:+ k; check_known_hosts := toy_check;
  learn_known_hosts host _ key text := Ok (text +:+ host +:+ " ssh " +:+ key +:+ String NL "");
  decode_base64 s := Some s; hmac_sha1_base64 salt s := salt +:+ s |}.

Definition hosts_file : string :=
  "edge ssh k1" +:+ String NL "" +:+ "@revoked core ssh k2" +:+ String NL "" +:+ "@cert-authority *.lab ssh ca" +:+ String NL "".

Example known_key_accepted :
  check_server_key None (KnownHosts "kh") "edge" 22 (KeyOffered "k1") (Ok hosts_file) = (Ok tt, Ok hosts_file).
Proof. vm_compute. reflexivity. Qed.

Example revoked_key_refused :
  (check_server_key None (AcceptNew "kh") "core" 22 (KeyOffered "k2") (Ok hosts_file)).1 = Err (revoked_error "core" 22 2).
Proof. vm_compute. reflexivity. Qed.

(** A wildcard authority is passed over, and the host is learned. *)
Example wildcard_authority_ignored :
  (check_server_key None (AcceptNew "kh") "pe1.lab" 22 (KeyOffered "k3") (Ok hosts_file)).1 = Ok tt.
Proof. vm_compute. reflexivity. Qed.

(** New hosts are accepted only into a file that exists. *)
Example missing_file_refused :
  (check_server_key None (AcceptNew "kh") "pe1" 22 (KeyOffered "k3") (Err "No such file")).1
    = Err (EHostKeyVerification "failed to read known_hosts kh: No such file").
Proof. vm_compute. reflexivity. Qed.
