(* ===== verification/HttpWitnesses.v ===== *)
(** * Outbound requests on concrete inputs

    A URL library over short texts, a path with a parameter, a client with two
    calls in flight, an endpoint that answers at the third attempt, and the
    theorems of OpenApi.v and HttpClient.v applied to them. *)

From S2P Require Import Prelude Text Scope Trust Slice OpenApi HttpClient.
From Stdlib Require Import Ascii.

Open Scope list_scope.
Open Scope nat_scope.

(** ** Paths *)

Definition device_params : list (string * string) := [("id", "fw 01")].


Lemma accepted_value_is_contained_witness :
  "fw 01" <> "" /\ (forall n, harmless (decoded_times n "fw 01")) /\
  str_forall (fun c => is_unreserved c || Ascii.eqb c "%") "fw%2001" = true /\
  percent_decode "fw%2001" = "fw 01" /\ (utf8_valid "fw 01" = true -> percent_decode_lossy "fw%2001" = "fw 01").
Proof. apply (accepted_value_is_contained "id" "fw 01" "fw%2001"). vm_compute. reflexivity. Defined.

(** A slash put together from a value and the text beside it is found. *)
Example joined_escape : expand_path "/v1/a/{id}2f" [("id", "%")] = Err (SegmentBreak "id").
Proof. vm_compute. reflexivity. Qed.

(** A percent sign before a plus sign and a digit is read as an escape. *)
Example plus_sign_escape : expand_path "/v1/{id}" [("id", "a%+5")] = Err (ControlCharacter "id").
Proof. vm_compute. reflexivity. Qed.

(** ** The client *)

#[local] Instance toy_urls : UrlLib := {|
  parse_url s := Ok {| scheme := "https"; username := ""; password := None; host_str := Some s; port := None; path := "/";
                       query := None; fragment := None |};
  print_url u := scheme u +:+ "://" +:+ default "" (host_str u) +:+ path u;
  escape_path p := p; header_name n := Some (to_lowercase n); header_value _ := true |}.

Definition small_config : HttpClientConfig := {|
  connect_timeout := 1; request_timeout := 1; max_concurrent_requests := 1; max_queued_requests := 1;
  pool_idle_timeout := 1; pool_max_idle_per_host := 1; max_response_bytes := 100 |}.

Definition small_client : HttpClient :=
  {| concurrency := 1; queue_capacity := 2; timeout := 1; body_limit := 100; pinned_roots := None |}.

(** One call on the wire, one behind it. *)
Definition busy : Flight := {| queued := [1; 0]; running := [0] |}.

Lemma busy_reached : rtc (FlightStep small_client) {| queued := []; running := [] |} busy.
Proof.
  eapply rtc_l; [apply (Enter small_client {| queued := []; running := [] |} 0); [set_solver|done]|].
  eapply rtc_l; [apply (Acquire small_client {| queued := [0]; running := [] |} 0); [set_solver|set_solver|done]|].
  eapply rtc_l; [apply (Enter small_client {| queued := [0]; running := [0] |} 1); [set_solver|done]|]. apply rtc_refl.
Qed.

Lemma load_is_bounded_witness :
  (0 < concurrency small_client <= MAX_PERMITS)%N /\ (queue_capacity small_client <= MAX_PERMITS)%N /\
  (N.of_nat (length (running busy)) <= max_concurrent_requests small_config)%N /\
  (N.of_nat (length (queued busy)) <= max_concurrent_requests small_config + max_queued_requests small_config)%N /\
  running busy ⊆ queued busy /\
  (try_enter small_client busy 2 = Err QueueFull <->
   N.of_nat (length (queued busy)) = (max_concurrent_requests small_config + max_queued_requests small_config)%N).
Proof. apply (load_is_bounded small_config true [] small_client busy 2); [vm_compute; reflexivity|exact busy_reached]. Defined.

Definition status_request : HttpRequest :=
  {| rq_method := Get;
     rq_url := {| scheme := "https"; username := ""; password := None; host_str := Some "api"; port := None; path := "/status";
                  query := None; fragment := None |};
     rq_headers := []; rq_body := None |}.

(** Busy twice, then an answer; each attempt takes a millisecond. *)
Definition recovering (attempt : nat) (now : N) : Try := {|
  t_outcome := Ok {| status := if attempt <? 2 then 503%N else 200%N; rs_headers := []; rs_body := "" |};
  t_elapsed := (now + 1000000)%N; t_woken backoff := (now + 1000000 + backoff)%N |}.

Definition recovered : result HttpResponse HttpError * list (Try * N) :=
  send_get_with_backoff default_retry_policy status_request recovering.


Example recovered_after_two_pauses : (recovered.1, recovered.2.*2) =
  (Ok {| status := 200; rs_headers := []; rs_body := "" |}, [200000000%N; 400000000%N]).
Proof. vm_compute. reflexivity. Qed.

Definition posted : result HttpRequest HttpError :=
  let? r := with_base_and_path Post "api" "/login" in
  let? r := secret_header r "X-Key" "k" in
  Ok (body r "{}").

Lemma built_request_is_safe_witness : exists r, posted = Ok r /\ safe_request r.
Proof.
  eexists. split; [reflexivity|]. apply built_request_is_safe. apply built_body.
  eapply (built_header true _ "X-Key" "k"); [apply (built_base Post "api" "/login"); reflexivity|reflexivity].
Defined.
