(* ===== verification/Inventory.v ===== *)
(** * The device inventory (crates/mecmcp-inventory/src/lib.rs, file.rs)

    Device names, the three on-disk shapes and how each is read, lookup, hot
    reload, and the migration of a legacy file to the canonical envelope as the
    sequence of system calls it makes, other processes acting before each of
    them and any of them failing.  The device and policy types are the vendor
    server's: their reading from JSON is a parameter. *)

From S2P Require Import Prelude Externals Json Secret Scope TokenFile Boundary.
From Stdlib Require Import Ascii ZArith.

Open Scope list_scope.

(** ** Names and errors *)

(** [std::io::Error]: one the system reported, or one built by kind. *)
Inductive IoErrorKind := NotFound | PermissionDenied | InvalidInput | IsADirectory | AlreadyExists.
Inductive io_error := OsError (detail : string) | NewIoError (kind : IoErrorKind) (detail : string).

Inductive InventoryError :=
| InvalidName (detail : string)
| DuplicateName (name : string)
| UnknownDevice (name : string)
| ParseError (detail : string)
| IoError (source : io_error)
| UnsupportedVersion (version : N)
| EmptyInventory.

Definition device_name_byte (c : ascii) : bool :=
  is_ascii_alphanumeric c || Ascii.eqb c "_" || Ascii.eqb c "." || Ascii.eqb c "-".

Definition validate_device_name (name : string) : result unit InventoryError :=
  ensure negb (is_empty_str name || (64 <? str_len name)%N)
    else (InvalidName "device name must be 1-64 bytes");
  ensure negb (starts_with "-" name)
    else (InvalidName "device name cannot start with '-'");
  ensure str_forall device_name_byte name
    else (InvalidName "device name may only contain ASCII alphanumeric, '_', '.', or '-'");
  Ok tt.

(** ** Shapes *)

Inductive InventoryShape := Canonical | LegacyPanos | LegacyJunos.

#[export] Instance InventoryShape_eq_dec : EqDecision InventoryShape.
Proof. solve_decision. Defined.

Definition contains_key (k : string) (obj : list (string * json)) : bool :=
  match assoc k obj with Some _ => true | None => false end.

Definition detect_shape (value : json) : result InventoryShape InventoryError :=
  let? obj := ok_or (json_as_object value)
                (ParseError "inventory must be a JSON object, found array or primitive") in
  match contains_key "version" obj, contains_key "devices" obj with
  | true, true =>
      match assoc "devices" obj with
      | Some (JObject _) => Ok Canonical
      | Some (JArray _) => Ok LegacyPanos
      | _ => Err (ParseError ("found " +:+ str_debug "version" +:+ " and " +:+ str_debug "devices"
                    +:+ " but " +:+ str_debug "devices" +:+ " is not an object or array"))
      end
  | true, false =>
      Err (ParseError ("found " +:+ str_debug "version" +:+ " but no " +:+ str_debug "devices"
             +:+ " key (found keys: " +:+ str_join ", " obj.*1 +:+ ") — expected canonical envelope {"
             +:+ str_debug "version" +:+ ":1," +:+ str_debug "devices" +:+ ":{...}} or legacy PAN-OS {"
             +:+ str_debug "version" +:+ ":1," +:+ str_debug "devices" +:+ ":[...]}"))
  | false, true =>
      Err (ParseError ("found " +:+ str_debug "devices" +:+ " but no " +:+ str_debug "version"
             +:+ " key — ambiguous shape (canonical envelope requires " +:+ str_debug "version" +:+ ")"))
  | false, false => Ok LegacyJunos
  end.

(** [Value::as_u64]: a number written without sign, fraction or exponent. *)
Definition json_as_u64 (j : json) : option N :=
  match j with
  | JNumber (String "-" _) => None
  | JNumber repr =>
      z ← integer_value repr;
      if (Z.to_N z <=? u64_max)%N then Some (Z.to_N z) else None
  | _ => None
  end.

Definition u32_max : N := 4294967295.

Definition u32_try_from (n : N) : option N := if (n <=? u32_max)%N then Some n else None.

Definition unsupported_version (value : json) : option N :=
  version ← (v ← json_get "version" value; n ← json_as_u64 v; u32_try_from n);
  if (version =? 1)%N then None else Some version.

Definition u32_deserialize (j : json) : result N string :=
  ok_or (json_as_u64 j ≫= u32_try_from) "invalid type, expected u32".

(** [deny_unknown_fields]. *)
Definition deny_unknown (names : list string) (l : list (string * json)) : result unit string :=
  try_each (fun kv => ensure existsb (String.eqb kv.1) names
              else ("unknown field `" +:+ kv.1 +:+ "`"); Ok tt) l.

Definition BLOCKLIST_DEFAULTS : string := "_blocklist_defaults".

(** ** Reading the three shapes *)

Section reading.
Context `{JsonText} {D P : Type}.
Context (device_from_value : json -> result D string) (policy_from_value : json -> result P string).

(** [HashMap<String, D>]. *)
Definition devices_deserialize (j : json) : result (gmap string D) string :=
  let? l := ok_or (json_as_object j) "invalid type, expected a map" in
  let? l := collect ((fun kv => let? d := device_from_value kv.2 in Ok (kv.1, d)) <$> l) in
  Ok (foldl (fun m kv => <[kv.1 := kv.2]> m) ∅ l).

Record CanonicalEnvelope := {
  ce_version : N;
  ce_policy : option P;
  ce_devices : gmap string D;
}.

Definition canonical_deserialize (j : json) : result CanonicalEnvelope string :=
  let? l := ok_or (json_as_object j) "invalid type, expected struct CanonicalEnvelope" in
  check? deny_unknown ["version"; "policy"; "devices"] l;
  let? version := required ["version"] l u32_deserialize in
  let? policy := defaulted None ["policy"] l (optional policy_from_value) in
  let? devices := required ["devices"] l devices_deserialize in
  Ok {| ce_version := version; ce_policy := policy; ce_devices := devices |}.

Record PanosEnvelope := {
  pe_version : N;
  pe_devices : list json;
}.

Definition panos_deserialize (j : json) : result PanosEnvelope string :=
  let? l := ok_or (json_as_object j) "invalid type, expected struct PanosEnvelope" in
  check? deny_unknown ["version"; "devices"] l;
  let? version := required ["version"] l u32_deserialize in
  let? devices := required ["devices"] l
                    (fun v => ok_or (json_as_array v) "invalid type, expected a sequence") in
  Ok {| pe_version := version; pe_devices := devices |}.

Record JunosFlat := {
  jf_policy : option P;
  jf_devices : gmap string D;
}.

(** [flatten]: the keys the named field did not take. *)
Definition without_key (k : string) (l : list (string * json)) : list (string * json) :=
  base.filter (fun kv => kv.1 <> k) l.

Definition junos_deserialize (j : json) : result JunosFlat string :=
  let? l := ok_or (json_as_object j) "invalid type, expected struct JunosFlat" in
  let? policy := defaulted None [BLOCKLIST_DEFAULTS] l (optional policy_from_value) in
  let? devices := devices_deserialize (JObject (without_key BLOCKLIST_DEFAULTS l)) in
  Ok {| jf_policy := policy; jf_devices := devices |}.

(** [validate_device_name] over the keys of a [HashMap]; the order only
    decides which of several bad names is reported. *)
Definition validate_names (devices : gmap string D) : result unit InventoryError :=
  try_each (fun kv => validate_device_name kv.1) (map_to_list devices).

Definition json_name (device : json) : option string := json_get "name" device ≫= json_as_str.

Fixpoint panos_devices (idx : nat) (devices : list json) (map : gmap string D) :
  result (gmap string D) InventoryError :=
  match devices with
  | [] => Ok map
  | device_val :: devices =>
      let? name := ok_or (json_name device_val)
          (ParseError ("legacy PAN-OS envelope: device at index " +:+ pretty (N.of_nat idx)
                         +:+ " missing " +:+ str_debug "name" +:+ " field")) in
      check? validate_device_name name;
      let? device := map_err (fun e => ParseError ("legacy PAN-OS envelope: device "
                                +:+ str_debug name +:+ ": " +:+ e))
                       (device_from_value device_val) in
      if bool_decide (is_Some (map !! name)) then Err (DuplicateName name)
      else panos_devices (S idx) devices (<[name := device]> map)
  end.

(** The second phase of [parse_inventory]. *)
Definition parse_value (value : json) : result (gmap string D * option P) InventoryError :=
  let? shape := detect_shape value in
  match shape with
  | Canonical =>
      match unsupported_version value with
      | Some version => Err (UnsupportedVersion version)
      | None =>
          let? envelope := map_err (fun e => ParseError ("canonical envelope: " +:+ e))
                             (canonical_deserialize value) in
          ensure (ce_version envelope =? 1)%N else (UnsupportedVersion (ce_version envelope));
          check? validate_names (ce_devices envelope);
          Ok (ce_devices envelope, ce_policy envelope)
      end
  | LegacyPanos =>
      match unsupported_version value with
      | Some version => Err (UnsupportedVersion version)
      | None =>
          let? envelope := map_err (fun e => ParseError ("legacy PAN-OS envelope: " +:+ e))
                             (panos_deserialize value) in
          ensure (pe_version envelope =? 1)%N else (UnsupportedVersion (pe_version envelope));
          let? map := panos_devices 0 (pe_devices envelope) ∅ in
          Ok (map, None)
      end
  | LegacyJunos =>
      let? flat := map_err (fun e => ParseError ("legacy Junos flat map: " +:+ e))
                     (junos_deserialize value) in
      check? validate_names (jf_devices flat);
      Ok (jf_devices flat, jf_policy flat)
  end.

(** [serde_json::from_slice::<Value>]. *)
Definition from_slice_value (bytes : text) : result json InventoryError :=
  let? j := map_err ParseError (text_parse bytes) in Ok (json_value j).

Definition parse_inventory (bytes : text) : result (gmap string D * option P) InventoryError :=
  let? value := from_slice_value bytes in
  parse_value value.

(** ** The inventory in memory *)

Record FileInventory := {
  source : string;
  devices : gmap string D;
  policy : option P;
}.

Definition default_limit : N := 1024 * 1024.

Definition map_read_error (e : SecretError) : InventoryError :=
  match e with
  | FileIo detail => IoError (OsError detail)
  | other => IoError (NewIoError PermissionDenied (secret_error_to_string other))
  end.

(** [opened] is what opening the path gives the process with user [euid]. *)
Definition read_inventory_file (euid : N) (opened : result (File text) string) :
  result text InventoryError :=
  map_err map_read_error (read_hardened_file euid default_limit opened).

Definition load (euid : N) (path : string) (opened : result (File text) string) :
  result FileInventory InventoryError :=
  let? bytes := read_inventory_file euid opened in
  let? (devices, policy) := parse_inventory bytes in
  Ok {| source := path; devices := devices; policy := policy |}.

Definition reload (euid : N) (opened : result (File text) string) (inner : FileInventory) :
  result nat InventoryError * FileInventory :=
  match (let? bytes := read_inventory_file euid opened in parse_inventory bytes) with
  | Err e => (Err e, inner)
  | Ok (devices, policy) =>
      (Ok (size devices), {| source := source inner; devices := devices; policy := policy |})
  end.

Definition names (inner : FileInventory) : list string := (btree_list (devices inner)).*1.

Definition get_device (inner : FileInventory) (name : string) : result D InventoryError :=
  ok_or (devices inner !! name) (UnknownDevice name).

(** ** The canonical form of a legacy value *)

(** [BTreeMap] of the bindings, back as an object. *)
Definition sorted_object (map : list (string * json)) : json :=
  JObject (btree_list (foldl (fun m kv => <[kv.1 := kv.2]> m) (∅ : gmap string json) map)).

Fixpoint panos_by_name (devices : list json) (by_name : list (string * json)) :
  result (list (string * json)) InventoryError :=
  match devices with
  | [] => Ok by_name
  | device :: devices =>
      let? name := ok_or (json_name device) (ParseError "legacy PAN-OS device has no name") in
      panos_by_name devices (map_insert name device by_name)
  end.

Definition canonical_from_value (shape : InventoryShape) (value : json) :
  result json InventoryError :=
  let envelope := map_insert "version" (json_u64 1) [] in
  match shape with
  | Canonical => Ok value
  | LegacyJunos =>
      match value with
      | JObject map =>
          let envelope :=
            match assoc BLOCKLIST_DEFAULTS map with
            | Some policy => map_insert "policy" policy envelope
            | None => envelope
            end in
          (* [Map::remove] may reorder the rest, which is sorted next. *)
          Ok (JObject (map_insert "devices" (sorted_object (without_key BLOCKLIST_DEFAULTS map)) envelope))
      | _ => Err (ParseError "legacy Junos inventory is not an object")
      end
  | LegacyPanos =>
      let? devices := ok_or (json_get "devices" value ≫= json_as_array)
                        (ParseError "legacy PAN-OS inventory has no devices array") in
      let? by_name := panos_by_name devices [] in
      Ok (JObject (map_insert "devices" (sorted_object by_name) envelope))
  end.

End reading.

(** ** Objects *)

Lemma without_key_NoDup k l : NoDup l.*1 -> NoDup (without_key k l).*1.
Proof.
  unfold without_key. induction l as [|[k' v] l IH]; [done|].
  rewrite fmap_cons, NoDup_cons. intros [Hni Hnd].
  rewrite filter_cons. case_decide; [|by apply IH].
  rewrite fmap_cons. apply NoDup_cons. split; [|by apply IH].
  intros ([k2 v2]&Heq&[_ Hin]%list_elem_of_filter)%list_elem_of_fmap.
  apply Hni, list_elem_of_fmap. by exists (k2, v2).
Qed.

Lemma assoc_without_key k k' l :
  assoc k (without_key k' l) = if String.eqb k k' then None else assoc k l.
Proof.
  unfold without_key. induction l as [|[k2 v2] l IH]; simpl; [by destruct (String.eqb k k')|].
  rewrite filter_cons. case_decide as Hd; simpl in Hd; simpl; rewrite IH;
    destruct (String.eqb_spec k k'), (String.eqb_spec k k2); try done; congruence.
Qed.

(** [sorted_object] keeps every binding of an object without repeated keys. *)
Lemma assoc_sorted k l :
  NoDup l.*1 ->
  assoc k (btree_list (foldl (fun m kv => <[kv.1 := kv.2]> m) (∅ : gmap string json) l)) = assoc k l.
Proof.
  intros Hnd. rewrite assoc_btree_list, foldl_insert_list_to_map by done.
  by rewrite (right_id_L ∅ (∪)), assoc_list_to_map.
Qed.

Lemma field_single k l : NoDup l.*1 -> field [k] l = Ok (assoc k l).
Proof.
  intros Hnd. unfold field.
  assert (forall l, k ∉ l.*1 -> base.filter (fun kv : string * json => existsb (String.eqb kv.1) [k] = true) l = []
                   /\ assoc k l = None) as Hnone.
  { clear. induction l as [|[k' v] l IH]; [done|]. rewrite fmap_cons, not_elem_of_cons.
    intros [Hne Hni]. rewrite filter_cons. cbn [fst existsb assoc] in *.
    destruct (String.eqb_spec k' k), (String.eqb_spec k k'); try congruence. by apply IH. }
  induction l as [|[k' v] l IH]; [done|]. rewrite fmap_cons, NoDup_cons in Hnd. destruct Hnd as [Hni Hnd].
  rewrite filter_cons. cbn [fst existsb assoc] in *. rewrite orb_false_r.
  destruct (String.eqb_spec k' k) as [->|Hne]; case_decide; try done.
  - rewrite (proj1 (Hnone l Hni)). by rewrite String.eqb_refl.
  - destruct (String.eqb_spec k k'); [congruence|]. by apply IH.
Qed.

Lemma required_single {A} k l (f : json -> result A string) a :
  NoDup l.*1 -> required [k] l f = Ok a <-> exists v, assoc k l = Some v /\ f v = Ok a.
Proof.
  intros Hnd. unfold required. rewrite field_single by done. simpl.
  destruct (assoc k l); split; [eauto|intros (?&[= ->]&?)|done|intros (?&?&?)]; done.
Qed.

Lemma defaulted_single {A} k l (f : json -> result (option A) string) a :
  NoDup l.*1 -> defaulted None [k] l f = Ok a <->
  match assoc k l with Some v => f v = Ok a | None => a = None end.
Proof.
  intros Hnd. unfold defaulted. rewrite field_single by done. simpl.
  destruct (assoc k l); [done|]. split; congruence.
Qed.

Lemma deny_unknown_Ok ns l : deny_unknown ns l = Ok tt <-> forall k, k ∈ l.*1 -> k ∈ ns.
Proof.
  unfold deny_unknown. rewrite try_each_Ok. split.
  - intros Hk k ([k' v]&->&Hin)%list_elem_of_fmap. apply Hk in Hin. cbn [fst] in *.
    destruct (existsb (String.eqb k') ns) eqn:E; [|done].
    apply existsb_exists in E as (x&Hx&->%String.eqb_eq). by apply list_elem_of_In.
  - intros Hk [k v] Hin. cbn [fst].
    assert (existsb (String.eqb k) ns = true) as ->; [|done].
    apply existsb_exists. exists k. split; [|apply String.eqb_refl].
    apply list_elem_of_In, Hk, list_elem_of_fmap. by exists (k, v).
Qed.

(** ** What each shape means *)

Section meaning.
Context `{JsonText} {D P : Type}.
Context (device_from_value : json -> result D string) (policy_from_value : json -> result P string).

(** [m] holds, under each key of the object [l] and under no other, the device
    its value reads as. *)
Definition reads_as (l : list (string * json)) (m : gmap string D) : Prop :=
  forall k, option_Forall2 (fun v d => device_from_value v = Ok d) (assoc k l) (m !! k).

Lemma reads_as_unique l m m' : reads_as l m -> reads_as l m' -> m = m'.
Proof.
  intros Hm Hm'. apply map_eq. intros k. specialize (Hm k). specialize (Hm' k).
  destruct Hm as [v d Hd|]; inversion Hm'; [congruence|done].
Qed.

Lemma reads_as_ext l l' m : (forall k, assoc k l = assoc k l') -> reads_as l m -> reads_as l' m.
Proof. intros Ha Hm k. rewrite <-Ha. apply Hm. Qed.

Lemma devices_deserialize_Ok l m :
  NoDup l.*1 -> devices_deserialize device_from_value (JObject l) = Ok m <-> reads_as l m.
Proof.
  intros Hnd.
  assert (forall m, devices_deserialize device_from_value (JObject l) = Ok m -> reads_as l m) as Hfst.
  { clear m. intros m. unfold devices_deserialize. cbn [json_as_object ok_or result_bind].
    intros (r&Hr%collect_Ok&[= <-])%result_bind_Ok.
    assert (l.*1 = r.*1) as Hk.
    { clear Hnd. revert r Hr. induction l as [|[k v] l IH]; intros [|[k' d] r]; try done.
      rewrite !fmap_cons. intros [= (?&?&[= -> ->])%result_bind_Ok Hr]. cbn [fst]. f_equal. by apply IH. }
    rewrite foldl_insert_list_to_map, (right_id_L ∅ (∪)) by congruence.
    clear Hnd Hk. revert r Hr. induction l as [|[k v] l IH]; intros [|[k' d] r]; try done.
    + intros _ k. cbn. rewrite lookup_empty. constructor.
    + rewrite !fmap_cons. intros [= (?&Hd&[= -> ->])%result_bind_Ok Hr] i. cbn [assoc list_to_map foldr fst snd].
      destruct (String.eqb_spec i k') as [->|]; [rewrite lookup_insert_eq; by constructor|].
      rewrite lookup_insert_ne by done. by apply IH. }
  split; [apply Hfst|]. intros Hm.
  assert (exists m', devices_deserialize device_from_value (JObject l) = Ok m') as [m' Hm'].
  { unfold devices_deserialize. cbn [json_as_object ok_or result_bind]. clear Hfst.
    assert (forall k v, (k, v) ∈ l -> exists d, device_from_value v = Ok d) as Hall.
    { intros k v Hin. specialize (Hm k). rewrite (assoc_unique k v) in Hm by done. inversion Hm; eauto. }
    clear Hm Hnd.
    enough (exists r, collect ((fun kv => let? d := device_from_value kv.2 in Ok (kv.1, d)) <$> l) = Ok r) as [r ->]
      by (simpl; eauto).
    induction l as [|[k v] l IH]; [by exists []|].
    destruct (Hall k v) as [d Hd]; [left|]. destruct IH as [r Hr]; [intros; eapply Hall; by right|].
    exists ((k, d) :: r). rewrite fmap_cons. cbn [collect fst snd]. rewrite Hd. cbn [result_bind]. by rewrite Hr. }
  rewrite Hm'. f_equal. eapply reads_as_unique; eauto.
Qed.

Lemma device_names_Ok (m : gmap string D) :
  validate_names m = Ok tt <-> forall k, is_Some (m !! k) -> validate_device_name k = Ok tt.
Proof.
  unfold validate_names. rewrite try_each_Ok. split.
  - intros Hv k [d Hd]. apply (Hv (k, d)). by apply elem_of_map_to_list.
  - intros Hv [k d] Hin%elem_of_map_to_list. apply Hv. eauto.
Qed.

(** The PAN-OS loop and the loop that renames its array build the same map. *)
Lemma panos_devices_by_name idx l m0 b0 m :
  NoDup b0.*1 -> reads_as b0 m0 -> (forall k, is_Some (m0 !! k) -> validate_device_name k = Ok tt) ->
  panos_devices device_from_value idx l m0 = Ok m ->
  exists b, panos_by_name l b0 = Ok b /\ NoDup b.*1 /\ reads_as b m
    /\ (forall k, is_Some (m !! k) -> validate_device_name k = Ok tt)
    /\ (forall k v, (k, v) ∈ b -> (k, v) ∈ b0 \/ v ∈ l).
Proof.
  revert idx m0 b0; induction l as [|v l IH]; intros idx m0 b0 Hnd Hr Hv Hp.
  { injection Hp as <-. exists b0. repeat split; auto. }
  cbn [panos_devices] in Hp. apply result_bind_Ok in Hp as (name&Hn%ok_or_Ok&Hp).
  apply check_Ok in Hp as [Hvn Hp]. apply result_bind_Ok in Hp as (d&Hd%map_err_Ok&Hp).
  case_bool_decide as Hs; [done|].
  cbn [panos_by_name]. rewrite Hn. cbn [ok_or result_bind].
  destruct (IH (S idx) (<[name:=d]> m0) (map_insert name v b0)) as (b&Hb&Hbn&Hbr&Hbv&Hbe); try done.
  - by apply map_insert_NoDup.
  - intros k. rewrite assoc_map_insert. destruct (String.eqb_spec k name) as [->|].
    + rewrite lookup_insert_eq. by constructor.
    + by rewrite lookup_insert_ne.
  - intros k. destruct (decide (k = name)) as [->|]; [done|]. rewrite lookup_insert_ne by done. apply Hv.
  - exists b. split_and!; auto. intros k w Hin. rewrite elem_of_cons.
    apply Hbe in Hin as [[[= -> ->]|?]%map_insert_elem|?]; auto.
Qed.

(** ** The files an inventory accepts *)

Definition valid_names (m : gmap string D) : Prop :=
  forall k, is_Some (m !! k) -> validate_device_name k = Ok tt.

Definition only_keys (ks : list string) (l : list (string * json)) : Prop :=
  forall k, k ∈ l.*1 -> k ∈ ks.

Definition version_one (l : list (string * json)) : Prop :=
  exists v, assoc "version" l = Some v /\ json_as_u64 v = Some 1%N.

Definition policy_reads (o : option json) (p : option P) : Prop :=
  match o with
  | None | Some JNull => p = None
  | Some v => exists q, policy_from_value v = Ok q /\ p = Some q
  end.

(** A value of one of the three shapes, and the inventory it stands for. *)
Inductive describes : json -> gmap string D -> option P -> Prop :=
| describes_canonical l ds m p :
    only_keys ["version"; "policy"; "devices"] l -> version_one l ->
    assoc "devices" l = Some (JObject ds) -> reads_as ds m -> valid_names m ->
    policy_reads (assoc "policy" l) p -> describes (JObject l) m p
| describes_panos l ds entries :
    only_keys ["version"; "devices"] l -> version_one l ->
    assoc "devices" l = Some (JArray ds) ->
    Forall2 (fun v e => json_name v = Some e.1 /\ device_from_value v = Ok e.2) ds entries ->
    NoDup entries.*1 -> valid_names (list_to_map entries) ->
    describes (JObject l) (list_to_map entries) None
| describes_junos l m p :
    assoc "version" l = None -> assoc "devices" l = None ->
    reads_as (without_key BLOCKLIST_DEFAULTS l) m -> valid_names m ->
    policy_reads (assoc BLOCKLIST_DEFAULTS l) p -> describes (JObject l) m p.

Lemma policy_reads_spec k l p :
  NoDup l.*1 -> defaulted None [k] l (optional policy_from_value) = Ok p <-> policy_reads (assoc k l) p.
Proof.
  intros Hnd. rewrite defaulted_single by done. unfold policy_reads, optional.
  destruct (assoc k l) as [v|]; [|done].
  destruct v; cbn [is_null]; first [split; congruence|rewrite result_bind_Ok]; split; intros (q&?&?); exists q; split; congruence.
Qed.

Lemma version_read_spec l :
  NoDup l.*1 -> required ["version"] l u32_deserialize = Ok 1%N <-> version_one l.
Proof.
  intros Hnd. unfold version_one. rewrite required_single by done. apply exist_proper. intros v.
  apply and_iff_compat_l. unfold u32_deserialize. rewrite ok_or_Ok. split.
  - intros (n&Hn&Hu)%bind_Some. unfold u32_try_from in Hu. destruct (n <=? u32_max)%N; congruence.
  - intros ->. done.
Qed.

Lemma version_one_supported l : version_one l -> unsupported_version (JObject l) = None.
Proof. intros (v&Hv&Hn). unfold unsupported_version. cbn [json_get]. rewrite Hv. cbn. by rewrite Hn. Qed.

Lemma panos_devices_Ok idx l m0 m :
  panos_devices device_from_value idx l m0 = Ok m <->
  exists entries,
    Forall2 (fun v e => json_name v = Some e.1 /\ device_from_value v = Ok e.2) l entries /\
    NoDup entries.*1 /\ (forall e, e ∈ entries -> m0 !! e.1 = None /\ validate_device_name e.1 = Ok tt) /\
    m = list_to_map entries ∪ m0.
Proof.
  revert idx m0; induction l as [|v l IH]; intros idx m0; cbn [panos_devices].
  { split.
    - intros [= <-]. exists []. split; [apply Forall2_nil_2|]. split; [apply NoDup_nil_2|].
      split; [by intros e ?%elem_of_nil|cbn; by rewrite (left_id_L ∅ (∪))].
    - intros (es&->%Forall2_nil_inv_l&_&_&->). cbn. by rewrite (left_id_L ∅ (∪)). }
  split.
  - intros (name&Hn%ok_or_Ok&Hp)%result_bind_Ok. apply check_Ok in Hp as [Hv Hp].
    apply result_bind_Ok in Hp as (d&Hd%map_err_Ok&Hp). case_bool_decide as Hs; [done|].
    apply IH in Hp as (es&Hes&Hnd&Hok&->). exists ((name, d) :: es).
    assert (name ∉ es.*1) as Hni.
    { intros ([k e]&->&Hin)%list_elem_of_fmap. apply Hok in Hin as [Hno _]. by rewrite lookup_insert_eq in Hno. }
    split_and!; [by apply Forall2_cons_2| | |].
    + rewrite fmap_cons. by apply NoDup_cons.
    + intros e [->|Hin]%elem_of_cons; [split; [by apply eq_None_not_Some|done]|].
      apply Hok in Hin as [Hno ?]. split; [|done]. by apply lookup_insert_None in Hno as [? _].
    + cbn. rewrite <-insert_union_r, insert_union_l; [done|]. by apply not_elem_of_list_to_map_1.
  - intros (es&Hes&Hnd&Hok&->). apply Forall2_cons_inv_l in Hes as ([name d]&es'&[Hn Hd]&Hes&->).
    cbn [fst snd] in *. rewrite Hn. cbn [ok_or result_bind].
    destruct (Hok (name, d)) as [Hno Hv]; [left|]. cbn [fst] in *. rewrite Hv. cbn [result_bind].
    rewrite Hd. cbn [map_err result_bind]. rewrite bool_decide_eq_false_2 by (by rewrite Hno; intros []).
    rewrite fmap_cons, NoDup_cons in Hnd. destruct Hnd as [Hni Hnd].
    apply IH. exists es'. split_and!; [done|done| |].
    + intros e Hin. destruct (Hok e) as [Hno' ?]; [by right|]. split; [|done].
      rewrite lookup_insert_ne; [done|]. intros Heq. apply Hni, list_elem_of_fmap. by exists e.
    + cbn. rewrite <-insert_union_r, insert_union_l; [done|]. by apply not_elem_of_list_to_map_1.
Qed.

Lemma detect_shape_Ok l shape :
  detect_shape (JObject l) = Ok shape <->
  match shape with
  | Canonical => is_Some (assoc "version" l) /\ exists ds, assoc "devices" l = Some (JObject ds)
  | LegacyPanos => is_Some (assoc "version" l) /\ exists ds, assoc "devices" l = Some (JArray ds)
  | LegacyJunos => assoc "version" l = None /\ assoc "devices" l = None
  end.
Proof.
  unfold detect_shape, contains_key. cbn [json_as_object ok_or result_bind].
  destruct (assoc "version" l), (assoc "devices" l) as [[]|], shape; naive_solver.
Qed.

(** The three branches of [parse_value]. *)
Lemma parse_canonical l ds m p :
  NoDup l.*1 -> NoDup ds.*1 -> assoc "devices" l = Some (JObject ds) ->
  parse_value device_from_value policy_from_value (JObject l) = Ok (m, p) <->
  only_keys ["version"; "policy"; "devices"] l /\ version_one l /\ reads_as ds m /\ valid_names m /\
  policy_reads (assoc "policy" l) p.
Proof.
  intros Hnd Hds Hdev. unfold parse_value. split.
  - intros (shape&Hs&Hp)%result_bind_Ok. pose proof (proj1 (detect_shape_Ok _ _) Hs) as Hsh.
    destruct shape; [|naive_solver..]. destruct (unsupported_version _); [done|]. inv_ok.
    apply N.eqb_eq in Hc. unfold canonical_deserialize in Hok.
    cbn [json_as_object ok_or result_bind] in Hok. apply check_Ok in Hok as [Hk Hok]. inv_ok.
    subst. cbn [ce_version ce_devices ce_policy] in *. subst.
    apply required_single in Hok3 as (v&Hv&Hm); [|done]. rewrite Hdev in Hv. injection Hv as <-.
    split_and!; [exact (proj1 (deny_unknown_Ok _ _) Hk)|by apply version_read_spec|by apply devices_deserialize_Ok
      |destruct a0; exact (proj1 (device_names_Ok _) Hok0)|by apply policy_reads_spec].
  - intros (Hk&Hv&Hr&Hn&Hp).
    assert (is_Some (assoc "version" l)) by (destruct Hv as (?&->&_); eauto).
    rewrite (proj2 (detect_shape_Ok l Canonical)) by eauto. cbn [result_bind].
    rewrite (version_one_supported l Hv). unfold canonical_deserialize.
    cbn [json_as_object ok_or result_bind].
    rewrite (proj2 (deny_unknown_Ok _ _) Hk). cbn [result_bind].
    rewrite (proj2 (version_read_spec l Hnd) Hv), (proj2 (policy_reads_spec "policy" l p Hnd) Hp).
    cbn [result_bind].
    rewrite (proj2 (required_single "devices" l _ m Hnd))
      by (exists (JObject ds); split; [done|by apply devices_deserialize_Ok]).
    cbn. by rewrite (proj2 (device_names_Ok m) Hn).
Qed.

Lemma parse_panos l ds m p :
  NoDup l.*1 -> assoc "devices" l = Some (JArray ds) ->
  parse_value device_from_value policy_from_value (JObject l) = Ok (m, p) <->
  only_keys ["version"; "devices"] l /\ version_one l /\
  panos_devices device_from_value 0 ds ∅ = Ok m /\ p = None.
Proof.
  intros Hnd Hdev. unfold parse_value. split.
  - intros (shape&Hs&Hp)%result_bind_Ok. pose proof (proj1 (detect_shape_Ok _ _) Hs) as Hsh.
    destruct shape; [naive_solver| |naive_solver]. destruct (unsupported_version _); [done|]. inv_ok.
    apply N.eqb_eq in Hc. unfold panos_deserialize in Hok.
    cbn [json_as_object ok_or result_bind] in Hok. apply check_Ok in Hok as [Hk Hok]. inv_ok.
    subst. cbn [pe_version pe_devices] in *. subst.
    apply required_single in Hok2 as (v&Hv&Hm%ok_or_Ok); [|done]. rewrite Hdev in Hv. injection Hv as <-.
    injection Hm as ->.
    split_and!; [exact (proj1 (deny_unknown_Ok _ _) Hk)|by apply version_read_spec|done|done].
  - intros (Hk&Hv&Hm&->).
    assert (is_Some (assoc "version" l)) by (destruct Hv as (?&->&_); eauto).
    rewrite (proj2 (detect_shape_Ok l LegacyPanos)) by eauto. cbn [result_bind].
    rewrite (version_one_supported l Hv). unfold panos_deserialize.
    cbn [json_as_object ok_or result_bind].
    rewrite (proj2 (deny_unknown_Ok _ _) Hk). cbn [result_bind].
    rewrite (proj2 (version_read_spec l Hnd) Hv). cbn [result_bind].
    rewrite (proj2 (required_single "devices" l _ ds Hnd)) by (by exists (JArray ds)).
    cbn. by rewrite Hm.
Qed.

Lemma parse_junos l m p :
  NoDup l.*1 -> assoc "version" l = None -> assoc "devices" l = None ->
  parse_value device_from_value policy_from_value (JObject l) = Ok (m, p) <->
  reads_as (without_key BLOCKLIST_DEFAULTS l) m /\ valid_names m /\
  policy_reads (assoc BLOCKLIST_DEFAULTS l) p.
Proof.
  intros Hnd Hv Hd. unfold parse_value. rewrite (proj2 (detect_shape_Ok l LegacyJunos)) by done.
  cbn [result_bind]. unfold junos_deserialize. cbn [json_as_object ok_or result_bind].
  rewrite <-(policy_reads_spec BLOCKLIST_DEFAULTS l p Hnd), <-(devices_deserialize_Ok _ m)
    by (by apply without_key_NoDup).
  unfold valid_names. rewrite <-(device_names_Ok m). split.
  - intros Hp. inv_ok. subst. cbn [jf_devices jf_policy] in *. by destruct a0.
  - intros (->&Hn&->). cbn. by rewrite Hn.
Qed.

Lemma parse_value_exact value m p :
  unique_keys value = true ->
  parse_value device_from_value policy_from_value value = Ok (m, p) <-> describes value m p.
Proof.
  intros Hu. split.
  - intros Hp. pose proof Hp as Hshape. unfold parse_value in Hshape.
    apply result_bind_Ok in Hshape as (shape&Hs&_).
    destruct value as [| | | | |l]; try done. apply unique_keys_object in Hu as [Hnd Hu].
    apply detect_shape_Ok in Hs. destruct shape.
    + destruct Hs as [_ [ds Hds]]. assert (NoDup ds.*1) as Hndd by (by eapply unique_keys_object, Hu, assoc_Some).
      rewrite (parse_canonical l ds) in Hp by done. destruct Hp as (Hk&Hv&Hr&Hn&Hp). by eapply describes_canonical.
    + destruct Hs as [_ [ds Hds]]. rewrite (parse_panos l ds) in Hp by done. destruct Hp as (Hk&Hv&Hm&->).
      apply panos_devices_Ok in Hm as (es&Hes&Hnde&Hok&->). rewrite (right_id_L ∅ (∪)).
      eapply describes_panos; [done..|]. intros k [d Hkd%elem_of_list_to_map]; [|done].
      by apply (Hok (k, d)).
    + destruct Hs as [Hv Hd]. rewrite parse_junos in Hp by done. destruct Hp as (Hr&Hn&Hp).
      by apply describes_junos.
  - destruct 1 as [l ds m p Hk Hv Hd Hr Hn Hp|l ds es Hk Hv Hd Hes Hnde Hn|l m p Hv Hd Hr Hn Hp];
      apply unique_keys_object in Hu as [Hnd Hu].
    + apply (parse_canonical _ ds); [done|by eapply unique_keys_object, Hu, assoc_Some|done|done].
    + apply (parse_panos _ ds); [done|done|]. split_and!; [done..| |done].
      apply panos_devices_Ok. exists es. split_and!; [done..| |by rewrite (right_id_L ∅ (∪))].
      intros [k d] Hin. split; [apply lookup_empty|]. apply Hn. exists d. by apply elem_of_list_to_map.
    + by apply parse_junos.
Qed.

(** The envelopes [canonical_from_value] builds. *)
Definition built_envelope (policy : option json) (ds : list (string * json)) : list (string * json) :=
  ("version", json_u64 1) :: opt_field "policy" policy ++ [("devices", sorted_object ds)].

Lemma built_envelope_describes policy ds m p :
  NoDup ds.*1 -> reads_as ds m -> valid_names m -> policy_reads policy p ->
  describes (JObject (built_envelope policy ds)) m p.
Proof.
  intros Hnd Hr Hn Hp.
  apply describes_canonical
    with (ds := btree_list (foldl (fun m kv => <[kv.1 := kv.2]> m) (∅ : gmap string json) ds)); try done.
  - intros k. destruct policy; cbn; rewrite !elem_of_cons; tauto.
  - by exists (json_u64 1).
  - by destruct policy.
  - eapply reads_as_ext; [|done]. intros k. by rewrite assoc_sorted.
  - by destruct policy.
Qed.

Lemma built_envelope_unique policy ds :
  NoDup ds.*1 -> (forall k v, (k, v) ∈ ds -> unique_keys v = true) ->
  (forall v, policy = Some v -> unique_keys v = true) ->
  unique_keys (JObject (built_envelope policy ds)) = true.
Proof.
  intros Hnd Hds Hp. apply unique_keys_object. split.
  - destruct policy; apply (bool_decide_unpack _); by vm_compute.
  - assert (unique_keys (sorted_object ds) = true) as Hs.
    { apply unique_keys_object. split; [apply btree_list_NoDup|]. intros k v Hin%elem_of_btree_list.
      rewrite foldl_insert_list_to_map, (right_id_L ∅ (∪)) in Hin by done.
      apply elem_of_list_to_map in Hin; eauto. }
    intros k v. unfold built_envelope. destruct policy as [w|]; cbn; rewrite !elem_of_cons;
      intros Hin; repeat destruct Hin as [[= -> ->]|Hin]; auto; by apply elem_of_nil in Hin.
Qed.

Lemma built_envelope_reads policy ds m p :
  NoDup ds.*1 -> (forall k v, (k, v) ∈ ds -> unique_keys v = true) ->
  (forall v, policy = Some v -> unique_keys v = true) ->
  reads_as ds m -> valid_names m -> policy_reads policy p ->
  let c := JObject (built_envelope policy ds) in
  unique_keys c = true /\ detect_shape c = Ok Canonical /\
  parse_value device_from_value policy_from_value c = Ok (m, p).
Proof.
  intros Hnd Hds Hpu Hr Hn Hp c. pose proof (built_envelope_unique policy ds Hnd Hds Hpu) as Hu.
  split_and!; [done|by destruct policy|]. by apply parse_value_exact, built_envelope_describes.
Qed.

(** A legacy value that is read has a canonical form, which is read as the
    same devices and policy. *)
Lemma canonical_form_reads value shape r :
  unique_keys value = true ->
  parse_value device_from_value policy_from_value value = Ok r ->
  detect_shape value = Ok shape -> shape <> Canonical ->
  exists c, canonical_from_value shape value = Ok c /\ unique_keys c = true /\
    detect_shape c = Ok Canonical /\
    parse_value device_from_value policy_from_value c = Ok r.
Proof.
  intros Hu Hp Hs Hne. destruct r as [m p]. destruct value as [| | | | |l]; try done.
  apply unique_keys_object in Hu as [Hnd Hu]. apply detect_shape_Ok in Hs as Hsh.
  destruct shape; [done| |]; destruct Hsh as [Hver Hdev].
  - destruct Hdev as [ds Hds]. rewrite (parse_panos l ds) in Hp by done. destruct Hp as (_&_&Hm&->).
    destruct (panos_devices_by_name 0 ds ∅ [] m) as (b&Hb&Hbn&Hbr&Hbv&Hbe); try done.
    { constructor. } { intros k. rewrite lookup_empty. constructor. }
    { intros k. rewrite lookup_empty. by intros []. }
    exists (JObject (built_envelope None b)). split.
    { unfold canonical_from_value. cbn [json_get]. rewrite Hds. cbn. by rewrite Hb. }
    apply built_envelope_reads; try done. intros k w Hin.
    apply Hbe in Hin as [?%elem_of_nil|Hin]; [done|].
    apply assoc_Some, Hu in Hds. cbn [unique_keys] in Hds. rewrite forallb_forall in Hds.
    by apply Hds, list_elem_of_In.
  - rewrite parse_junos in Hp by done. destruct Hp as (Hr&Hn&Hp).
    exists (JObject (built_envelope (assoc BLOCKLIST_DEFAULTS l) (without_key BLOCKLIST_DEFAULTS l))).
    split; [unfold canonical_from_value; by destruct (assoc BLOCKLIST_DEFAULTS l)|].
    apply built_envelope_reads; try done; [by apply without_key_NoDup| |].
    + intros k w [_ Hin]%list_elem_of_filter. eauto.
    + intros w Hw%assoc_Some. eauto.
Qed.


(** [names] lists every device once, in order. *)
Lemma names_spec (inner : FileInventory (D := D) (P := P)) k : k ∈ names inner <-> is_Some (devices inner !! k).
Proof.
  unfold names. rewrite list_elem_of_fmap. split.
  - intros ([k' d]&->&Hin%elem_of_btree_list). eauto.
  - intros [d Hd]. exists (k, d). split; [done|]. by apply elem_of_btree_list.
Qed.

(** ** Reloading under readers

    [reload] reads and parses the file without the lock and then swaps both
    fields under it, so the file may change and other reloads may finish in
    between. *)

Variable user : N.

Definition read_phase (opened : result (File text) string) : result (gmap string D * option P) InventoryError :=
  let? bytes := read_inventory_file user opened in
  parse_inventory device_from_value policy_from_value bytes.

Definition swap_phase (r : gmap string D * option P) (inner : FileInventory (D := D) (P := P)) : FileInventory (D := D) (P := P) :=
  {| source := source inner; devices := r.1; policy := r.2 |}.

Lemma reload_phases opened inner :
  reload device_from_value policy_from_value user opened inner
  = match read_phase opened with
    | Err e => (Err e, inner)
    | Ok r => (Ok (size r.1), swap_phase r inner)
    end.
Proof. unfold reload, read_phase. by destruct (result_bind _ _) as [[]|]. Qed.

Record Live := {
  on_disk : result (File text) string;              (** what opening the file gives now *)
  inner : FileInventory (D := D) (P := P);                     (** what readers see *)
  parsed_by : gmap nat (gmap string D * option P);  (** reloads between their two phases *)
}.

Inductive live_step : Live -> Live -> Prop :=
| file_changes opened s :
    live_step s {| on_disk := opened; inner := inner s; parsed_by := parsed_by s |}
| reload_reads t r s :
    parsed_by s !! t = None -> read_phase (on_disk s) = Ok r ->
    live_step s {| on_disk := on_disk s; inner := inner s; parsed_by := <[t := r]> (parsed_by s) |}
| reload_swaps t r s :
    parsed_by s !! t = Some r ->
    live_step s {| on_disk := on_disk s; inner := swap_phase r (inner s); parsed_by := delete t (parsed_by s) |}.

(** The states on a run from [s], with the files there were on it. *)
Inductive live_run (s0 : Live) : list (result (File text) string) -> Live -> Prop :=
| run_start : live_run s0 [on_disk s0] s0
| run_step seen s s' : live_run s0 seen s -> live_step s s' -> live_run s0 (on_disk s' :: seen) s'.

(** Readers never see a mixture: whatever reloads overlap and however the
    file changes meanwhile, the devices and the policy in memory are those of
    one file that was on disk and that loading accepts. *)
Theorem live_inventory_was_on_disk s0 seen s :
  parsed_by s0 = ∅ -> load device_from_value policy_from_value user (source (inner s0)) (on_disk s0) = Ok (inner s0) ->
  live_run s0 seen s ->
  exists opened, opened ∈ seen /\
    load device_from_value policy_from_value user (source (inner s)) opened = Ok (inner s).
Proof.
  intros Hempty Hload Hrun.
  assert (forall opened r src, read_phase opened = Ok r ->
    load device_from_value policy_from_value user src opened
    = Ok {| source := src; devices := r.1; policy := r.2 |}) as Hread.
  { intros opened r src Hr. unfold read_phase in Hr. unfold load. inv_ok. rewrite Hok. cbn [result_bind].
    rewrite Hr. by destruct r. }
  enough ((exists opened, opened ∈ seen /\
      load device_from_value policy_from_value user (source (inner s)) opened = Ok (inner s)) /\
    (forall t r, parsed_by s !! t = Some r -> exists opened, opened ∈ seen /\ read_phase opened = Ok r)) by naive_solver.
  induction Hrun as [|seen s s' Hrun [(o&Ho&Hlo) IHp] Hstep].
  { split; [exists (on_disk s0); split; [left|done]|]. rewrite Hempty. intros t r. by rewrite lookup_empty. }
  destruct Hstep as [opened s|t r s Hn Hr|t r s Ht]; cbn [on_disk inner parsed_by].
  - split; [exists o; split; [by right|done]|]. intros t r (o'&Ho'&Hr')%IHp. exists o'. split; [by right|done].
  - split; [exists o; split; [by right|done]|]. intros t' r' Ht'.
    apply lookup_insert_Some in Ht' as [[-> ->]|[_ (o'&Ho'&Hr')%IHp]];
      [exists (on_disk s); split; [left|done]|exists o'; split; [by right|done]].
  - destruct (IHp _ _ Ht) as (o'&Ho'&Hr'). split.
    + exists o'. split; [by right|]. by apply Hread.
    + intros t' r' [_ (o2&Ho2&Hr2)%IHp]%lookup_delete_Some. exists o2. split; [by right|done].
Qed.

End meaning.
