(* ===== verification/Migration.v ===== *)
(** * Rewriting the inventory file (crates/mecmcp-inventory/src/file.rs)

    [write_atomic] and [migrate_to_canonical] as the system calls they make on
    the directory the inventory lies in.  Before each call other processes may
    have changed the directory, and each call may fail; [quiet] is the
    environment where nobody else acts. *)

From S2P Require Import Prelude Externals Json Secret Scope TokenFile Boundary Inventory.
From Stdlib Require Import Ascii.

Open Scope list_scope.

(** ** The directory *)

(** [Path::with_extension] of a file name: what follows the last dot is
    replaced, unless that dot begins the name. *)
Fixpoint before_last_dot (s : string) : option string :=
  match s with
  | EmptyString => None
  | String c s =>
      match before_last_dot s with
      | Some stem => Some (String c stem)
      | None => if Ascii.eqb c "." then Some EmptyString else None
      end
  end.

Definition file_stem (name : string) : string :=
  match before_last_dot name with
  | Some EmptyString | None => name
  | Some stem => stem
  end.

Definition with_extension (name extension : string) : string :=
  file_stem name +:+ "." +:+ extension.

(** The system calls, in the order they are made. *)
Inductive Step :=
| FirstRead | SecondRead | CreateBackup | WriteBackup | SyncBackup | CheckRead | RemoveBackup
| OwnerBefore | ParentExists | NewTemp | WriteTemp | SyncTemp | ModeBefore | SetMode | Persist
| OwnerAfter | Chown.

Section migration.
Context `{JsonText} `{!EqDecision text} {D P : Type}.
Context (device_from_value : json -> result D string) (policy_from_value : json -> result P string).

(** The entries of the directory, by name.  A symbolic link has the mode,
    owner and content of the file it leads to. *)
Notation Dir := (gmap string (File text)).

Record Env := {
  euid : N;                           (** the user the process runs as *)
  new_owner : N * N;                  (** owner and group the system gives a new file *)
  others : Step -> Dir -> Dir;        (** what other processes do just before a call *)
  fails : Step -> option string;      (** a call that fails, with its message *)
  written : text;                     (** what the backup holds until its write is complete *)
}.

Definition quiet (e : Env) : Prop := forall s d, others e s d = d.

Definition M (A : Type) : Type := Dir -> result A InventoryError * Dir.

Definition ret {A} (a : A) : M A := fun d => (Ok a, d).
Definition fail {A} (e : InventoryError) : M A := fun d => (Err e, d).
Definition bind {A B} (m : M A) (k : A -> M B) : M B := fun d =>
  match m d with (Ok a, d) => k a d | (Err e, d) => (Err e, d) end.
Definition lift {A} (r : result A InventoryError) : M A := fun d => (r, d).

Notation "'let!' x ':=' m 'in' k" := (bind m (fun x => k))
  (at level 10, x pattern, m at level 200, k at level 200).
Notation "'do!' m ';' k" := (bind m (fun _ => k))
  (at level 10, m at level 99, k at level 200).

Variable e : Env.

(** One call: others act, then it fails or takes effect. *)
Definition call {A} (s : Step) (wrap : io_error -> InventoryError)
  (op : Dir -> result A io_error * Dir) : M A := fun d =>
  let d := others e s d in
  match fails e s with
  | Some detail => (Err (wrap (OsError detail)), d)
  | None => let '(r, d) := op d in (map_err wrap r, d)
  end.

(** A call on a file this process has just created, which nobody else is
    taken to touch before the next [call]. *)
Definition own_call (s : Step) (wrap : io_error -> InventoryError) (op : Dir -> Dir) : M unit := fun d =>
  match fails e s with
  | Some detail => (Err (wrap (OsError detail)), d)
  | None => (Ok tt, op d)
  end.

(** [.ok()], and [let _ =]: the outcome as an option. *)
Definition attempt {A} (m : M A) : M (option A) := fun d =>
  match m d with (Ok a, d) => (Ok (Some a), d) | (Err _, d) => (Ok None, d) end.

Definition new_file (mode : N) (data : text) : File text :=
  {| f_type := RegularFile; f_mode := mode; f_uid := (new_owner e).1; f_gid := (new_owner e).2;
     f_size := text_len data; f_read_len := text_len data; f_data := data |}.

Definition chmod (mode : N) (f : File text) : File text :=
  {| f_type := f_type f; f_mode := N.lor (N.ldiff (f_mode f) 4095) (N.land mode 4095);
     f_uid := f_uid f; f_gid := f_gid f; f_size := f_size f; f_read_len := f_read_len f;
     f_data := f_data f |}.

Definition chown (uid gid : N) (f : File text) : File text :=
  {| f_type := f_type f; f_mode := f_mode f; f_uid := uid; f_gid := gid; f_size := f_size f;
     f_read_len := f_read_len f; f_data := f_data f |}.

Definition no_entry {A} : result A io_error := Err (NewIoError NotFound "No such file or directory").

(** [std::fs::metadata], which follows links. *)
Definition fs_metadata (name : string) (d : Dir) : result (File text) io_error * Dir :=
  (match d !! name with Some f => Ok f | None => no_entry end, d).

(** [std::fs::read], which follows links. *)
Definition fs_read (name : string) (d : Dir) : result text io_error * Dir :=
  (match d !! name with
   | Some f => if bool_decide (f_type f = OtherFile)
               then Err (NewIoError IsADirectory "Is a directory") else Ok (f_data f)
   | None => no_entry
   end, d).

(** The open of [read_hardened_file]. *)
Definition open_entry (name : string) (d : Dir) : result (File text) string :=
  match d !! name with Some f => Ok f | None => Err "No such file or directory" end.

Definition read_inventory (name : string) : M text := fun d =>
  let d := others e FirstRead d in
  (read_inventory_file (euid e)
     (match fails e FirstRead with Some detail => Err detail | None => open_entry name d end), d).

(** ** Replacing a file *)

(** [write_atomic], the parent directory's presence being a call that may
    fail.  The temporary file has a name of its own that nobody else uses, and
    goes away when a step fails, so it is kept outside the entries. *)
Definition write_atomic (wrap : io_error -> InventoryError) (name : string) (value : json) : M unit :=
  do! call ParentExists wrap (fun d => (Ok tt, d));
  do! own_call NewTemp wrap id;
  do! own_call WriteTemp wrap id;
  do! own_call SyncTemp wrap id;
  let tmp := new_file 33152 (text_print value) in
  let! meta := attempt (call ModeBefore wrap (fs_metadata name)) in
  let! tmp := (match meta with (* keeps the mode of the file it replaces *)
               | Some meta => do! own_call SetMode wrap id; ret (chmod (f_mode meta) tmp)
               | None => ret tmp
               end) in
  call Persist wrap (fun d => (Ok tt, <[name := tmp]> d)).

(** ** Migration *)

Record MigrationReport := {
  converted : bool;
  backup : option string;
  report_devices : nat;
}.

Definition needs_ownership_change (replacement destination : N * N) : bool :=
  negb (replacement.1 =? destination.1)%N || negb (replacement.2 =? destination.2)%N.

Definition owner_of (f : File text) : N * N := (f_uid f, f_gid f).

Definition file_owner (name : string) : M (option (N * N)) :=
  let! meta := attempt (call OwnerBefore IoError (fs_metadata name)) in
  ret (owner_of <$> meta).

Definition io_text (err : io_error) : string :=
  match err with OsError detail | NewIoError _ detail => detail end.

(** The new backup file is created, filled and synced.  [create_new] refuses
    an entry of any kind. *)
Definition write_backup (backup : string) (original : text) : M unit :=
  do! call CreateBackup (fun err => ParseError ("could not create backup " +:+ backup +:+ ": " +:+ io_text err))
        (fun d => match d !! backup with
                  | Some _ => (Err (NewIoError AlreadyExists "File exists"), d)
                  | None => (Ok tt, <[backup := new_file 33152 (written e)]> d)
                  end);
  do! own_call WriteBackup IoError (<[backup := new_file 33152 original]>);
  own_call SyncBackup IoError id.

Definition remove_file (name : string) : M unit :=
  call RemoveBackup IoError (fun d => match d !! name with
                                      | Some _ => (Ok tt, delete name d)
                                      | None => (no_entry, d)
                                      end).

Definition restore_owner (path : string) (owner : option (N * N)) : M unit :=
  match owner with
  | None => ret tt
  | Some desired =>
      let! current := call OwnerAfter
          (fun err => ParseError ("migrated " +:+ path +:+ " but could not stat it to restore owner: " +:+ io_text err))
          (fs_metadata path) in
      if needs_ownership_change (owner_of current) desired
      then call Chown (fun err => ParseError ("migrated " +:+ path +:+ " but could not restore its owner: " +:+ io_text err))
             (fun d => (Ok tt, alter (chown desired.1 desired.2) path d))
      else ret tt
  end.

Definition migrate_to_canonical (path : string) : M MigrationReport :=
  let! bytes := read_inventory path in
  let! value := lift (from_slice_value bytes) in
  let! parsed := lift (parse_inventory device_from_value policy_from_value bytes) in
  let! shape := lift (detect_shape value) in
  if bool_decide (shape = Canonical)
  then ret {| converted := false; backup := None; report_devices := size parsed.1 |}
  else
    let! canonical := lift (canonical_from_value shape value) in
    let backup := with_extension path "pre-canonical" in
    let! original := call SecondRead IoError (fs_read path) in
    do! write_backup backup original;
    let! now := call CheckRead IoError (fs_read path) in
    if negb (bool_decide (now = original))
    then
      do! attempt (remove_file backup);
      fail (ParseError (path +:+ " changed while migrating; nothing was written"))
    else
      let! owner := file_owner path in
      do! write_atomic (fun err => ParseError ("could not write " +:+ path +:+ ": " +:+ io_text err)) path canonical;
      do! restore_owner path owner;
      ret {| converted := true; backup := Some backup; report_devices := size parsed.1 |}.

(** ** Calls that succeed *)

Lemma bind_Ok {A B} (m : M A) (k : A -> M B) d b d' :
  bind m k d = (Ok b, d') <-> exists a d1, m d = (Ok a, d1) /\ k a d1 = (Ok b, d').
Proof.
  unfold bind. destruct (m d) as [[a|err] d1]; split; [eauto|intros (?&?&[= -> ->]&?)| |intros (?&?&?&?)]; done.
Qed.

Lemma call_Ok {A} s wrap (op : Dir -> result A io_error * Dir) d a d' :
  call s wrap op d = (Ok a, d') -> fails e s = None /\ op (others e s d) = (Ok a, d').
Proof.
  unfold call. destruct (fails e s); [done|]. destruct (op _) as [[]]; cbn; [|done]. by intros [= -> ->].
Qed.

Lemma own_call_Ok s wrap op d a d' :
  own_call s wrap op d = (Ok a, d') -> fails e s = None /\ d' = op d.
Proof. unfold own_call. destruct (fails e s); [done|]. by intros [= <- <-]. Qed.

Lemma attempt_Ok {A} (m : M A) d o d' :
  attempt m d = (Ok o, d') -> snd (m d) = d' /\ o = match fst (m d) with Ok a => Some a | Err _ => None end.
Proof. unfold attempt. by destruct (m d) as [[a|] d1]; intros [= <- <-]. Qed.

Lemma fs_read_Ok name d a d' :
  fs_read name d = (Ok a, d') -> d' = d /\ exists f, d !! name = Some f /\ a = f_data f.
Proof.
  unfold fs_read. destruct (d !! name) as [f|]; [|done].
  case_bool_decide; intros [= <- <-]; eauto.
Qed.

Lemma fs_metadata_Ok name d a d' : fs_metadata name d = (Ok a, d') -> d' = d /\ d !! name = Some a.
Proof. unfold fs_metadata. destruct (d !! name) as [f|]; [|done]. by intros [= <- <-]. Qed.

Lemma write_backup_Ok b original d d' u :
  write_backup b original d = (Ok u, d') ->
  others e CreateBackup d !! b = None /\ d' = <[b := new_file 33152 original]> (others e CreateBackup d).
Proof.
  unfold write_backup. intros (?&d1&[_ Hc]%call_Ok&(?&d2&[_ ->]%own_call_Ok&[_ ->]%own_call_Ok)%bind_Ok)%bind_Ok.
  destruct (_ !! b) eqn:E; [done|]. injection Hc as _ <-. split; [done|]. apply insert_insert_eq.
Qed.

Lemma chmod_mode mode f : N.land (f_mode (chmod mode f)) 511 = N.land mode 511.
Proof.
  apply N.bits_inj. intros i. cbn [chmod f_mode]. rewrite !N.land_spec, N.lor_spec, N.ldiff_spec, N.land_spec.
  change 511%N with (N.ones 9). change 4095%N with (N.ones 12). destruct (N.lt_ge_cases i 9).
  - rewrite !N.ones_spec_low by lia. cbn. by rewrite andb_false_r, !andb_true_r.
  - rewrite (N.ones_spec_high 9) by lia. by rewrite !andb_false_r.
Qed.

(** A file no other user can use. *)
Definition private (f : File text) : Prop := N.land (N.land (f_mode f) 511) 63 = 0%N.

(** ** Nobody else acts *)

Section alone.
Hypothesis Hquiet : quiet e.

Lemma replaced_file wrap name v d d' u f :
  d !! name = Some f -> write_atomic wrap name v d = (Ok u, d') ->
  exists f', d' = <[name := f']> d /\ f_type f' = RegularFile /\ f_data f' = text_print v /\
    f_size f' = text_len (text_print v) /\ f_read_len f' = text_len (text_print v) /\
    (fails e ModeBefore = None -> N.land (f_mode f') 511 = N.land (f_mode f) 511) /\
    (private f -> private f').
Proof.
  intros Hf. unfold write_atomic.
  intros (?&d1&[_ H1]%call_Ok&(?&d2&[_ ->]%own_call_Ok&(?&d3&[_ ->]%own_call_Ok&(?&d4&[_ ->]%own_call_Ok
    &(meta&d5&[Hd Hm]%attempt_Ok&(tmp&d6&Ht&[_ Hp]%call_Ok)%bind_Ok)%bind_Ok)%bind_Ok)%bind_Ok)%bind_Ok)%bind_Ok.
  rewrite Hquiet in H1, Hp. injection H1 as _ <-. injection Hp as _ <-. unfold id in *.
  unfold call in Hd, Hm. rewrite Hquiet in Hd, Hm. unfold fs_metadata in Hd, Hm. rewrite Hf in Hd, Hm.
  destruct (fails e ModeBefore) eqn:Ef; cbn in Hd, Hm; subst meta d5.
  - injection Ht as <- <-. exists (new_file 33152 (text_print v)). split_and!; done.
  - apply bind_Ok in Ht as (?&d7&[_ ->]%own_call_Ok&[= <- <-]).
    exists (chmod (f_mode f) (new_file 33152 (text_print v))). unfold private.
    rewrite chmod_mode. split_and!; done.
Qed.

Lemma chown_same f : chown (f_uid f) (f_gid f) f = f.
Proof. by destruct f. Qed.

Lemma restore_owner_Ok name o d d' u f :
  d !! name = Some f -> restore_owner name (Some o) d = (Ok u, d') -> d' = <[name := chown o.1 o.2 f]> d.
Proof.
  intros Hf. unfold restore_owner. intros (cur&d1&[_ Hm]%call_Ok&Hr)%bind_Ok.
  rewrite Hquiet in Hm. apply fs_metadata_Ok in Hm as [-> Hcur]. simplify_eq.
  destruct (needs_ownership_change _ _) eqn:En.
  - apply call_Ok in Hr as [_ Hr]. rewrite Hquiet in Hr. injection Hr as _ <-.
    apply map_eq. intros i. destruct (decide (i = name)) as [->|];
      [by rewrite lookup_alter_eq, lookup_insert_eq, Hf|by rewrite lookup_alter_ne, lookup_insert_ne].
  - injection Hr as _ <-. unfold needs_ownership_change, owner_of in En. cbn in En.
    apply orb_false_iff in En as [<-%negb_false_iff%N.eqb_eq <-%negb_false_iff%N.eqb_eq].
    by rewrite chown_same, insert_id.
Qed.

(** A conversion, taken apart. *)
Lemma migrate_converted path d report d' :
  migrate_to_canonical path d = (Ok report, d') -> converted report = true ->
  exists f value parsed shape c f',
    let b := with_extension path "pre-canonical" in
    d !! path = Some f /\ file_acceptable (euid e) default_limit f /\
    from_slice_value (f_data f) = Ok value /\
    parse_inventory device_from_value policy_from_value (f_data f) = Ok parsed /\
    detect_shape value = Ok shape /\ shape <> Canonical /\ canonical_from_value shape value = Ok c /\
    report = {| converted := true; backup := Some b; report_devices := size parsed.1 |} /\
    d !! b = None /\ path <> b /\
    d' = <[path := f']> (<[b := new_file 33152 (f_data f)]> d) /\
    f_type f' = RegularFile /\ f_data f' = text_print c /\
    f_size f' = text_len (text_print c) /\ f_read_len f' = text_len (text_print c) /\
    (fails e ModeBefore = None -> N.land (f_mode f') 511 = N.land (f_mode f) 511) /\
    (private f -> private f') /\
    (fails e OwnerBefore = None -> owner_of f' = owner_of f).
Proof.
  intros Hm Hc. unfold migrate_to_canonical in Hm.
  apply bind_Ok in Hm as (bytes&d1&Hread&Hm). unfold read_inventory in Hread. rewrite Hquiet in Hread.
  injection Hread as Hread <-. apply map_err_Ok, read_hardened_file_Ok in Hread as (f&Hopen&->&Hacc).
  assert (d !! path = Some f) as Hf.
  { destruct (fails e FirstRead); [done|]. unfold open_entry in Hopen. destruct (d !! path); by simplify_eq. }
  apply bind_Ok in Hm as (value&?&[= Hvalue <-]&Hm). apply bind_Ok in Hm as (parsed&?&[= Hparsed <-]&Hm).
  apply bind_Ok in Hm as (shape&?&[= Hshape <-]&Hm).
  case_bool_decide as Hcan; [by injection Hm as <- _|].
  apply bind_Ok in Hm as (c&?&[= Hcanon <-]&Hm). cbv zeta in Hm.
  apply bind_Ok in Hm as (original&d1&[_ Ho]%call_Ok&Hm). rewrite Hquiet in Ho.
  apply fs_read_Ok in Ho as (->&f2&Hf2&->).
  assert (f2 = f) as -> by congruence.
  apply bind_Ok in Hm as (?&d2&[Hb ->]%write_backup_Ok&Hm). rewrite Hquiet in Hb, Hm.
  apply bind_Ok in Hm as (now&d3&[_ Hnow]%call_Ok&Hm). rewrite Hquiet in Hnow.
  apply fs_read_Ok in Hnow as (->&_).
  destruct (negb _); [by apply bind_Ok in Hm as (?&?&_&?)|].
  assert (path <> with_extension path "pre-canonical") as Hne by congruence.
  assert (<[with_extension path "pre-canonical" := new_file 33152 (f_data f)]> d !! path = Some f) as Hfb
    by (by rewrite lookup_insert_ne).
  apply bind_Ok in Hm as (owner&d4&Hown&Hm). unfold file_owner in Hown.
  apply bind_Ok in Hown as (meta&d4'&[Hd4 Hmeta]%attempt_Ok&[= <- <-]). unfold call in Hd4, Hmeta.
  rewrite Hquiet in Hd4, Hmeta. unfold fs_metadata in Hd4, Hmeta. rewrite Hfb in Hd4, Hmeta.
  assert (d4' = <[with_extension path "pre-canonical" := new_file 33152 (f_data f)]> d) as ->
    by (by destruct (fails e OwnerBefore)).
  apply bind_Ok in Hm as (?&d5&Hw&Hm). apply (replaced_file _ _ _ _ _ _ f) in Hw as (f'&->&?&?&?&?&?&?); [|done].
  apply bind_Ok in Hm as (?&d6&Hr&[= <- <-]).
  destruct (fails e OwnerBefore) eqn:Eo; cbn in Hmeta; subst meta; cbn [fmap option_fmap option_map] in Hr.
  - injection Hr as _ <-. exists f, value, parsed, shape, c, f'. cbv zeta. split_and!; done.
  - apply (restore_owner_Ok _ _ _ _ _ f') in Hr as ->; [|by rewrite lookup_insert_eq].
    rewrite insert_insert_eq. exists f, value, parsed, shape, c, (chown (f_uid f) (f_gid f) f').
    cbv zeta. split_and!; done.
Qed.

(** ** What a failure leaves *)

(** [m] does not touch the entry [n]; [m] does not touch it when it fails. *)
Definition leaves {A} (n : string) (m : M A) : Prop := forall d, (m d).2 !! n = d !! n.
Definition leaves_on_error {A} (n : string) (m : M A) : Prop :=
  forall d err d', m d = (Err err, d') -> d' !! n = d !! n.

Lemma leaves_weaken {A} n (m : M A) : leaves n m -> leaves_on_error n m.
Proof. intros Hm d err d' Hd. rewrite <-(Hm d), Hd. done. Qed.

Lemma leaves_ret {A} n (a : A) : leaves n (ret a).
Proof. done. Qed.

Lemma leaves_lift {A} n (r : result A InventoryError) : leaves n (lift r).
Proof. done. Qed.

Lemma leaves_bind {A B} n (m : M A) (k : A -> M B) :
  leaves n m -> (forall a, leaves n (k a)) -> leaves n (bind m k).
Proof.
  intros Hm Hk d. unfold bind. specialize (Hm d). destruct (m d) as [[a|] d1]; [|done].
  cbn in *. by rewrite Hk.
Qed.

Lemma leaves_call {A} n s wrap (op : Dir -> result A io_error * Dir) :
  (forall d, (op d).2 !! n = d !! n) -> leaves n (call s wrap op).
Proof.
  intros Hop d. unfold call. rewrite Hquiet. destruct (fails e s); [done|].
  specialize (Hop d). by destruct (op d).
Qed.

Lemma leaves_own_call n s wrap op : (forall d, op d !! n = d !! n) -> leaves n (own_call s wrap op).
Proof. intros Hop d. unfold own_call. destruct (fails e s); [done|]. apply Hop. Qed.

Lemma leaves_attempt {A} n (m : M A) : leaves n m -> leaves n (attempt m).
Proof. intros Hm d. unfold attempt. specialize (Hm d). by destruct (m d) as [[]]. Qed.

Lemma leaves_read {A} n s wrap (op : Dir -> result A io_error * Dir) :
  (forall d, (op d).2 = d) -> leaves n (call s wrap op).
Proof. intros Hop. apply leaves_call. intros d. by rewrite Hop. Qed.

Lemma leaves_write_backup n b original : n <> b -> leaves n (write_backup b original).
Proof.
  intros Hne. apply leaves_bind; [apply leaves_call|intros _; apply leaves_bind; [|intros _]];
    try (apply leaves_own_call; intros d; unfold id; by rewrite ?lookup_insert_ne).
  intros d. destruct (d !! b); [done|]. cbn. by rewrite lookup_insert_ne.
Qed.

Lemma leaves_remove_file n b : n <> b -> leaves n (remove_file b).
Proof.
  intros Hne. apply leaves_call. intros d. destruct (d !! b); [|done]. cbn. by rewrite lookup_delete_ne.
Qed.

Lemma error_bind {A B} n (m : M A) (k : A -> M B) :
  leaves n m -> (forall a, leaves_on_error n (k a)) -> leaves_on_error n (bind m k).
Proof.
  intros Hm Hk d err d'. unfold bind. specialize (Hm d). destruct (m d) as [[a|] d1].
  - intros Hd. rewrite (Hk _ _ _ _ Hd). apply Hm.
  - by intros [= _ <-].
Qed.

Lemma error_write_atomic n wrap name v : leaves_on_error n (write_atomic wrap name v).
Proof.
  unfold write_atomic. repeat (apply error_bind; [by first [apply leaves_read|apply leaves_own_call]|intros _]).
  apply error_bind; [by apply leaves_attempt, leaves_read|]. intros meta.
  apply error_bind; [|intros tmp d err d'].
  - destruct meta; [|apply leaves_ret]. apply leaves_bind; [by apply leaves_own_call|intros; apply leaves_ret].
  - unfold call. rewrite Hquiet. by destruct (fails e Persist); intros [= _ <-].
Qed.

Lemma write_atomic_entry wrap name v d u d' :
  write_atomic wrap name v d = (Ok u, d') -> is_Some (d' !! name).
Proof.
  unfold write_atomic.
  intros (?&?&_&(?&?&_&(?&?&_&(?&?&_&(?&?&_&(tmp&d6&_&[_ [= _ <-]]%call_Ok)%bind_Ok)%bind_Ok)%bind_Ok)%bind_Ok)%bind_Ok)%bind_Ok.
  rewrite lookup_insert_eq. eauto.
Qed.

Lemma restore_owner_completes name o d :
  fails e OwnerAfter = None -> fails e Chown = None -> is_Some (d !! name) ->
  exists d', restore_owner name o d = (Ok tt, d').
Proof.
  intros H1 H2 [f Hf]. destruct o as [o|]; [|by exists d]. unfold restore_owner, bind, call.
  rewrite H1, Hquiet. unfold fs_metadata. rewrite Hf. cbn. destruct (needs_ownership_change _ _); [|by exists d].
  rewrite H2, Hquiet. cbn. eauto.
Qed.

(** A migration that fails leaves the inventory file and every other file
    of the directory but its own backup as they were, unless what failed was
    giving the new file its owner back, after the replacement. *)
Theorem failed_migration_keeps_the_file path n d err d' :
  fails e OwnerAfter = None -> fails e Chown = None -> n <> with_extension path "pre-canonical" ->
  migrate_to_canonical path d = (Err err, d') -> d' !! n = d !! n.
Proof.
  intros H1 H2 Hne. enough (leaves_on_error n (migrate_to_canonical path)) as Hl by apply Hl.
  unfold migrate_to_canonical. apply error_bind.
  { intros d0. unfold read_inventory. cbn. by rewrite Hquiet. }
  intros bytes. repeat (apply error_bind; [apply leaves_lift|intros ?]).
  case_bool_decide; [apply leaves_weaken, leaves_ret|].
  apply error_bind; [apply leaves_lift|intros c]. cbv zeta.
  apply error_bind; [by apply leaves_read|intros original].
  apply error_bind; [by apply leaves_write_backup|intros _].
  apply error_bind; [by apply leaves_read|intros now].
  destruct (negb _).
  { apply error_bind; [by apply leaves_attempt, leaves_remove_file|]. intros _ d0 err0 d0'. by intros [= _ <-]. }
  apply error_bind; [apply leaves_bind; [by apply leaves_attempt, leaves_read|intros; apply leaves_ret]|intros owner].
  intros d0 err0 d0'. unfold bind at 1. destruct (write_atomic _ _ _ _) as [[[]|] d1] eqn:Ew.
  - destruct (restore_owner_completes path owner d1) as [d2 Hr]; [done|done|by eapply write_atomic_entry|].
    unfold bind. by rewrite Hr.
  - intros [= _ <-]. by eapply error_write_atomic.
Qed.

End alone.

(** ** Migrations that complete *)

Lemma from_slice_unique bytes value : from_slice_value bytes = Ok value -> unique_keys value = true.
Proof. unfold from_slice_value. intros Hv. inv_ok. subst. apply json_value_keys. Qed.

Lemma parse_inventory_value bytes value :
  from_slice_value bytes = Ok value ->
  parse_inventory device_from_value policy_from_value bytes = parse_value device_from_value policy_from_value value.
Proof. intros Hv. unfold parse_inventory. by rewrite Hv. Qed.

Section completion.
Hypothesis Hquiet : quiet e.
Hypothesis Hhealthy : forall s, fails e s = None.

Lemma bind_runs {A B} (m : M A) (k : A -> M B) d a d1 r :
  m d = (Ok a, d1) -> k a d1 = r -> bind m k d = r.
Proof. unfold bind. by intros -> ->. Qed.

Lemma call_runs {A} s wrap (op : Dir -> result A io_error * Dir) d a d' :
  op d = (Ok a, d') -> call s wrap op d = (Ok a, d').
Proof. unfold call. rewrite Hquiet, Hhealthy. by intros ->. Qed.

Lemma own_call_runs s wrap op d : own_call s wrap op d = (Ok tt, op d).
Proof. unfold own_call. by rewrite Hhealthy. Qed.

Lemma fs_read_runs name d f :
  d !! name = Some f -> f_type f = RegularFile -> fs_read name d = (Ok (f_data f), d).
Proof. unfold fs_read. intros -> ->. done. Qed.

Lemma write_backup_runs b original d :
  d !! b = None -> exists d', write_backup b original d = (Ok tt, d') /\ forall n, n <> b -> d' !! n = d !! n.
Proof.
  intros Hb. eexists. split.
  - eapply bind_runs; [apply call_runs; by rewrite Hb|]. eapply bind_runs; apply own_call_runs.
  - intros n Hn. unfold id. by rewrite !lookup_insert_ne.
Qed.

Lemma attempt_runs {A} (m : M A) d a d' : m d = (Ok a, d') -> attempt m d = (Ok (Some a), d').
Proof. unfold attempt. by intros ->. Qed.

Lemma fs_metadata_runs name d f : d !! name = Some f -> fs_metadata name d = (Ok f, d).
Proof. unfold fs_metadata. by intros ->. Qed.

Lemma write_atomic_runs wrap name v d f :
  d !! name = Some f -> exists d', write_atomic wrap name v d = (Ok tt, d').
Proof.
  intros Hf. eexists. eapply bind_runs; [by apply call_runs|].
  do 3 (eapply bind_runs; [apply own_call_runs|]).
  eapply bind_runs; [by apply attempt_runs, call_runs, fs_metadata_runs|].
  eapply bind_runs; [eapply bind_runs; [apply own_call_runs|reflexivity]|]. by apply call_runs.
Qed.

(** Migration succeeds where it should: a private legacy file that loads, with
    no backup beside it, is converted when no call fails and nobody else
    acts. *)
Theorem migration_completes path d f value shape r :
  let b := with_extension path "pre-canonical" in
  d !! path = Some f -> file_acceptable (euid e) default_limit f -> d !! b = None ->
  from_slice_value (f_data f) = Ok value -> detect_shape value = Ok shape -> shape <> Canonical ->
  parse_value device_from_value policy_from_value value = Ok r ->
  exists d', migrate_to_canonical path d
    = (Ok {| converted := true; backup := Some b; report_devices := size r.1 |}, d').
Proof.
  intros b Hf Hacc Hb Hv Hs Hne Hp.
  destruct (canonical_form_reads device_from_value policy_from_value value shape r) as (c&Hc&_);
    [by eapply from_slice_unique|done..|].
  destruct (write_backup_runs b (f_data f) d Hb) as (d1&Hd1&Hkeep).
  assert (d1 !! path = Some f) as Hf1 by (rewrite Hkeep; congruence).
  destruct (write_atomic_runs (fun err => ParseError ("could not write " +:+ path +:+ ": " +:+ io_text err)) path c d1 f Hf1)
    as [d2 Hd2].
  destruct (restore_owner_completes Hquiet path (Some (owner_of f)) d2) as [d3 Hd3];
    [apply Hhealthy|apply Hhealthy|by eapply write_atomic_entry|].
  exists d3. destruct Hacc as (Ht&Hrest). eapply bind_runs.
  { unfold read_inventory. rewrite Hquiet, Hhealthy. unfold open_entry, read_inventory_file. rewrite Hf.
    by rewrite (proj2 (read_hardened_file_Ok (euid e) default_limit (Ok f) (f_data f))) by (by exists f). }
  eapply bind_runs; [unfold lift; by rewrite Hv|].
  eapply bind_runs; [unfold lift; by rewrite (parse_inventory_value _ _ Hv), Hp|].
  eapply bind_runs; [unfold lift; by rewrite Hs|]. rewrite bool_decide_eq_false_2 by done.
  eapply bind_runs; [unfold lift; by rewrite Hc|].
  eapply bind_runs; [by apply call_runs, fs_read_runs|]. eapply bind_runs; [exact Hd1|].
  eapply bind_runs; [by apply call_runs, fs_read_runs|]. rewrite bool_decide_eq_true_2 by done. cbn [negb].
  eapply bind_runs; [eapply bind_runs; [by apply attempt_runs, call_runs, fs_metadata_runs|reflexivity]|].
  eapply bind_runs; [exact Hd2|]. by eapply bind_runs; [exact Hd3|].
Qed.

End completion.

(** ** What a migration leaves *)

Lemma reads_canonical f c r :
  JsonTextLaws _ -> f_data f = text_print c -> unique_keys c = true ->
  parse_value device_from_value policy_from_value c = Ok r ->
  parse_inventory device_from_value policy_from_value (f_data f) = Ok r.
Proof.
  intros Hl -> Hu Hp. unfold parse_inventory, from_slice_value. rewrite text_parse_print. cbn.
  by rewrite json_value_unique.
Qed.


Lemma canonical_file_is_left_alone path d f c r :
  quiet e -> fails e FirstRead = None -> d !! path = Some f -> file_acceptable (euid e) default_limit f ->
  from_slice_value (f_data f) = Ok c -> detect_shape c = Ok Canonical ->
  parse_value device_from_value policy_from_value c = Ok r ->
  migrate_to_canonical path d = (Ok {| converted := false; backup := None; report_devices := size r.1 |}, d).
Proof.
  intros Hq Hfl Hf Ha Hv Hs Hp. unfold migrate_to_canonical, bind at 1, read_inventory.
  rewrite Hq, Hfl. unfold open_entry. rewrite Hf. unfold read_inventory_file.
  rewrite (proj2 (read_hardened_file_Ok (euid e) default_limit (Ok f) (f_data f))) by eauto.
  cbn [map_err]. unfold bind, lift. rewrite Hv, (parse_inventory_value _ _ Hv), Hp, Hs.
  by rewrite bool_decide_eq_true_2.
Qed.

Lemma read_succeeded path d report d' :
  migrate_to_canonical path d = (Ok report, d') -> fails e FirstRead = None.
Proof.
  unfold migrate_to_canonical. intros (bytes&d1&Hr&_)%bind_Ok. unfold read_inventory in Hr.
  by destruct (fails e FirstRead).
Qed.

(** Migrating twice is safe: a second run over a migrated file, as long as
    that is within the reader's size limit, reports no conversion and the same
    number of devices, and changes nothing. *)
Theorem migration_is_idempotent path d report d' :
  JsonTextLaws _ -> quiet e -> fails e OwnerBefore = None ->
  migrate_to_canonical path d = (Ok report, d') -> converted report = true ->
  (forall f', d' !! path = Some f' -> (f_size f' <= default_limit)%N) ->
  migrate_to_canonical path d'
  = (Ok {| converted := false; backup := None; report_devices := report_devices report |}, d').
Proof.
  intros Hlaws Hq Ho Hm Hc Hlim. pose proof (read_succeeded _ _ _ _ Hm) as Hfirst.
  destruct (migrate_converted Hq path d report d' Hm Hc)
    as (f&value&parsed&shape&c&f'&Hf&Hacc&Hv&Hp&Hs&Hne&Hcan&->&Hb&Hpb&->&Ht&Hdata&Hsz&Hrl&_&Hpriv&Hown).
  rewrite (parse_inventory_value _ _ Hv) in Hp.
  destruct (canonical_form_reads device_from_value policy_from_value value shape parsed)
    as (c'&Hc'&Hu&Hsc&Hpc); [by eapply from_slice_unique|done..|].
  assert (c' = c) as -> by congruence.
  specialize (Hlim f' (lookup_insert_eq _ _ _)). destruct Hacc as (_&Hmo&Huid&_).
  apply (canonical_file_is_left_alone _ _ f' c); try done; [by rewrite lookup_insert_eq| |].
  - split_and!; [done|by apply Hpriv|by injection (Hown Ho) as -> _|done|rewrite Hrl, <-Hsz; lia].
  - unfold from_slice_value. rewrite Hdata, text_parse_print. cbn. by rewrite json_value_unique.
Qed.

End migration.
