(* ===== verification/DeviceLock.v ===== *)
(** * Cross-process device locks (crates/mecmcp-device/src/flock.rs)

    Tasks of any number of processes acquiring, holding and dropping device
    locks, as an executable step on the state of the lock directory: the
    kernel's [flock] table, the content of the lock files and where each task
    stands.  Every point where the code can be overtaken, fail, be cancelled,
    be abandoned or die is an event.  A lock file is never removed by the code,
    and nobody else may write in the directory, so a path stands for its file. *)

From S2P Require Import Prelude Externals Digest.

Open Scope list_scope.

(** ** Configuration and errors *)

Inductive DeviceLockError :=
| Busy (device : string) (waited_secs : N)
| LockCancelled
| LockOther (device detail : string).

(** Durations and instants in nanoseconds. *)
Definition MILLISECOND : N := 1000000.
Definition SECOND : N := 1000000000.
Definition DEFAULT_WAIT_TIMEOUT : N := 30 * SECOND.
Definition DEFAULT_POLL_INTERVAL : N := 100 * MILLISECOND.

Record FlockDeviceLock := {
  directory : string;
  wait_timeout : N;
  poll_interval : N;
}.

(** What [symlink_metadata] says of a path. *)
Inductive PathKind := RealDirectory | LinkPath | OtherPath.

#[export] Instance PathKind_eq_dec : EqDecision PathKind.
Proof. solve_decision. Defined.

(** The lock directory's path: what is there and with which permissions. *)
Definition DirState : Type := option (PathKind * N).

Definition startup_error {A} (detail : string) : result A DeviceLockError :=
  Err (LockOther "startup" detail).

Definition secure_directory_permissions (directory : string) (refused : option string) (s : DirState) :
  result unit DeviceLockError * DirState :=
  match refused with
  | Some e => (startup_error ("setting lock directory permissions on " +:+ directory +:+ ": " +:+ e), s)
  | None => (Ok tt, (fun km => (km.1, 448%N)) <$> s)
  end.

(** [stat] and [restat] are what the two looks at the path find, [created] the
    outcome of [create_dir_all], which makes directories open to all the umask
    leaves, [refused] that of the [chmod]. *)
Definition prepare_directory (directory : string) (stat : option PathKind) (restat : result PathKind string)
  (created : result unit string) (refused : option string) (s : DirState) :
  result unit DeviceLockError * DirState :=
  let not_real := startup_error ("lock directory " +:+ directory +:+ " must be a real directory") in
  match stat with
  | Some kind =>
      if bool_decide (kind = RealDirectory) then secure_directory_permissions directory refused s
      else (not_real, s)
  | None =>
      match created with
      | Err e => (startup_error ("creating lock directory " +:+ directory +:+ ": " +:+ e), s)
      | Ok _ =>
          match restat with
          | Err e => (startup_error ("checking lock directory " +:+ directory +:+ ": " +:+ e), Some (RealDirectory, 511%N))
          | Ok kind =>
              let s := Some (kind, 511%N) in
              if bool_decide (kind = RealDirectory) then secure_directory_permissions directory refused s
              else (not_real, s)
          end
      end
  end.

Definition with_timing (directory : string) (wait_timeout poll_interval : N)
  (prepared : result unit DeviceLockError) : result FlockDeviceLock DeviceLockError :=
  check? prepared;
  Ok {| directory := directory; wait_timeout := wait_timeout;
        poll_interval := N.max poll_interval MILLISECOND |}.

Definition for_directory (directory : string) (prepared : result unit DeviceLockError) :
  result FlockDeviceLock DeviceLockError :=
  with_timing directory DEFAULT_WAIT_TIMEOUT DEFAULT_POLL_INTERVAL prepared.

(** A lock directory that is accepted is a real directory of its owner alone. *)
Lemma prepared_directory_is_private directory stat restat created refused s s' :
  (forall k, stat = Some k -> exists m, s = Some (k, m)) ->
  prepare_directory directory stat restat created refused s = (Ok tt, s') ->
  s' = Some (RealDirectory, 448%N).
Proof.
  unfold prepare_directory, secure_directory_permissions, startup_error. intros Hstat.
  destruct stat as [k|]; [destruct (Hstat k eq_refl) as [m ->]|destruct created; [destruct restat as [k|]|]];
    repeat case_match; bools; intros; by simplify_eq.
Qed.

(** ** Tasks and the lock directory *)

Inductive Pc :=
| Ready                                    (** called, nothing done yet *)
| Trying (started polls : N)               (** at the head of the loop *)
| Sleeping (started polls until : N)       (** between two attempts *)
| Owning                                   (** [flock] was granted *)
| Holding (written_at : N)                 (** the caller has the guard *)
| Releasing                                (** the guard is being dropped *)
| Returned (outcome : result unit DeviceLockError)  (** an error, or the guard is gone *)
| Gone.                                    (** abandoned, or its process died *)

Record Task := {
  tk_device : string;
  tk_operation : string;
  tk_correlation_id : string;
  tk_pid : N;
  tk_pc : Pc;
}.

Record LockDir := {
  clock : N;
  flocks : gmap string nat;   (** the open file that has a path's exclusive lock *)
  files : gmap string bytes;
  tasks : gmap nat Task;
}.

Inductive Event :=
| Tick (elapsed : N)
| Call (t : nat) (device operation correlation_id : string) (pid : N)
| Opened (t : nat) (file : result (result bool string) string)
| Polled (t : nat) (cancelled : bool) (refused : option string)
| Woken (t : nat) (cancelled : bool)
| Wrote (t : nat) (wall : N) (failed : option (string * bytes))
| GuardDropped (t : nat) (wall : N) (failed : option (string * bytes))
| Unlocked (t : nat) (failed : bool)
| Abandoned (t : nat)
| Died (pid : N).

Section locking.
Context `{Externals}.
Variable self : FlockDeviceLock.
Variable instant_max : N.   (** the latest instant the platform can express *)

Definition lock_path (device : string) : string :=
  directory self +:+ "/" +:+ bytes_hex (sha256 device) +:+ ".lock".

Definition task_path (tk : Task) : string := lock_path (tk_device tk).

Definition metadata (tk : Task) (state : string) (wall : N) : bytes :=
  to_vec (JObject [("state", JString state); ("device", JString (tk_device tk));
                   ("operation", JString (tk_operation tk));
                   ("correlation_id", JString (tk_correlation_id tk));
                   ("pid", json_u64 (tk_pid tk)); ("timestamp_unix_ms", json_u64 wall)])
  +:+ String (Ascii.ascii_of_nat 10) "".

Definition set_pc (pc : Pc) (tk : Task) : Task :=
  {| tk_device := tk_device tk; tk_operation := tk_operation tk;
     tk_correlation_id := tk_correlation_id tk; tk_pid := tk_pid tk; tk_pc := pc |}.

Definition move (t : nat) (tk : Task) (pc : Pc) (s : LockDir) : LockDir :=
  {| clock := clock s; flocks := flocks s; files := files s; tasks := <[t := set_pc pc tk]> (tasks s) |}.

(** The last descriptor of an open file is closed: the kernel drops its lock. *)
Definition close (t : nat) (s : LockDir) : LockDir :=
  {| clock := clock s; flocks := base.filter (fun kv => kv.2 <> t) (flocks s); files := files s; tasks := tasks s |}.

Definition finish (t : nat) (tk : Task) (pc : Pc) (s : LockDir) : LockDir := move t tk pc (close t s).

Definition fail_with (t : nat) (tk : Task) (e : DeviceLockError) (s : LockDir) : LockDir :=
  finish t tk (Returned (Err e)) s.

(** [write_metadata]; a failure leaves what it had written. *)
Definition write_metadata (tk : Task) (state : string) (wall : N) (failed : option (string * bytes)) (s : LockDir) : LockDir :=
  {| clock := clock s; flocks := flocks s;
     files := <[task_path tk := match failed with Some (_, rest) => rest | None => metadata tk state wall end]> (files s);
     tasks := tasks s |}.

Definition take_lock (t : nat) (path : string) (s : LockDir) : LockDir :=
  {| clock := clock s; flocks := <[path := t]> (flocks s); files := files s; tasks := tasks s |}.

(** [file] is the outcome of the open, then that of the [fstat]: whether it is
    a regular file. *)
Definition open_lock_file (path device : string) (file : result (result bool string) string) :
  result unit DeviceLockError :=
  let? metadata := map_err (fun e => LockOther device ("opening lock file " +:+ path +:+ ": " +:+ e)) file in
  let? is_file := map_err (fun e => LockOther device ("checking lock file " +:+ path +:+ ": " +:+ e)) metadata in
  ensure is_file else (LockOther device ("lock path " +:+ path +:+ " is not a regular file"));
  Ok tt.

(** The part of [acquire_cancellable] before its loop. *)
Definition opened (t : nat) (tk : Task) (file : result (result bool string) string) (s : LockDir) : LockDir :=
  match open_lock_file (task_path tk) (tk_device tk) file with
  | Err e => fail_with t tk e s
  | Ok _ =>
      if (instant_max <? clock s + wait_timeout self)%N
      then fail_with t tk (LockOther (tk_device tk) "lock wait deadline overflow") s
      else move t tk (Trying (clock s) 0) s
  end.

(** One turn of the loop up to its sleep; [try_lock] asks the kernel.  The
    attempt and the look at the clock after it are one step. *)
Definition polled (t : nat) (tk : Task) (started polls : N) (cancelled : bool) (refused : option string) (s : LockDir) : LockDir :=
  if cancelled then fail_with t tk LockCancelled s
  else match refused with
       | Some msg => fail_with t tk (LockOther (tk_device tk) ("locking " +:+ task_path tk +:+ ": " +:+ msg)) s
       | None =>
           match flocks s !! task_path tk with
           | None => move t tk Owning (take_lock t (task_path tk) s)
           | Some _ =>
               if (started + wait_timeout self <=? clock s)%N
               then fail_with t tk (Busy (tk_device tk) (wait_timeout self / SECOND)) s
               else move t tk (Sleeping started polls (clock s + poll_interval self)) s
           end
       end.

(** Events that no task is ready for do not happen. *)
Definition step (ev : Event) (s : LockDir) : option LockDir :=
  match ev with
  | Tick elapsed =>
      Some {| clock := clock s + elapsed; flocks := flocks s; files := files s; tasks := tasks s |}
  | Call t device operation correlation_id pid =>
      match tasks s !! t with
      | Some _ => None
      | None => Some (move t {| tk_device := device; tk_operation := operation; tk_correlation_id := correlation_id;
                                tk_pid := pid; tk_pc := Ready |} Ready s)
      end
  | Opened t file =>
      tk ← tasks s !! t;
      match tk_pc tk with Ready => Some (opened t tk file s) | _ => None end
  | Polled t cancelled refused =>
      tk ← tasks s !! t;
      match tk_pc tk with
      | Trying started polls => Some (polled t tk started polls cancelled refused s)
      | _ => None
      end
  | Woken t cancelled =>
      tk ← tasks s !! t;
      match tk_pc tk with
      | Sleeping started polls until =>
          if cancelled then Some (fail_with t tk LockCancelled s)
          else if (until <=? clock s)%N then Some (move t tk (Trying started (polls + 1)) s)
          else None
      | _ => None
      end
  | Wrote t wall failed =>
      tk ← tasks s !! t;
      match tk_pc tk with
      | Owning =>
          let s := write_metadata tk "held" wall failed s in
          Some match failed with
               | Some (e, _) => fail_with t tk (LockOther (tk_device tk) ("writing lock metadata: " +:+ e)) s
               | None => move t tk (Holding wall) s
               end
      | _ => None
      end
  | GuardDropped t wall failed =>
      tk ← tasks s !! t;
      match tk_pc tk with
      | Holding _ => Some (move t tk Releasing (write_metadata tk "released" wall failed s))
      | _ => None
      end
  | Unlocked t _ =>
      (* a refused unlock is followed by the close of the file all the same *)
      tk ← tasks s !! t;
      match tk_pc tk with Releasing => Some (finish t tk (Returned (Ok tt)) s) | _ => None end
  | Abandoned t =>
      tk ← tasks s !! t;
      match tk_pc tk with
      | Trying _ _ | Sleeping _ _ _ => Some (finish t tk Gone s)
      | _ => None
      end
  | Died pid =>
      let dead (t : nat) := match tasks s !! t with Some tk => bool_decide (tk_pid tk = pid) | None => false end in
      Some {| clock := clock s;
              flocks := base.filter (fun kv => dead kv.2 = false) (flocks s);
              files := files s;
              tasks := (fun tk => if bool_decide (tk_pid tk = pid) then set_pc Gone tk else tk) <$> tasks s |}
  end.

Fixpoint run (evs : list Event) (s : LockDir) : option LockDir :=
  match evs with
  | [] => Some s
  | ev :: evs => s ← step ev s; run evs s
  end.

Definition fresh : LockDir := {| clock := 0; flocks := ∅; files := ∅; tasks := ∅ |}.

(** ** Invariant *)

Definition owns (pc : Pc) : bool :=
  match pc with Owning | Holding _ | Releasing => true | _ => false end.

(** Where a waiting task stands in time. *)
Definition pc_timely (now : N) (pc : Pc) : Prop :=
  match pc with
  | Trying started polls =>
      (started + polls * poll_interval self <= now /\ polls * poll_interval self < wait_timeout self + poll_interval self)%N
  | Sleeping started polls until =>
      (started + (polls + 1) * poll_interval self <= until /\ polls * poll_interval self < wait_timeout self /\
       until < started + wait_timeout self + poll_interval self)%N
  | _ => True
  end.

Record Inv (s : LockDir) : Prop := {
  inv_flock : forall path t, flocks s !! path = Some t ->
    exists tk, tasks s !! t = Some tk /\ owns (tk_pc tk) = true /\ task_path tk = path;
  inv_owner : forall t tk, tasks s !! t = Some tk -> owns (tk_pc tk) = true -> flocks s !! task_path tk = Some t;
  inv_metadata : forall t tk wall, tasks s !! t = Some tk -> tk_pc tk = Holding wall ->
    files s !! task_path tk = Some (metadata tk "held" wall);
  inv_timely : forall t tk, tasks s !! t = Some tk -> pc_timely (clock s) (tk_pc tk);
}.

Lemma fresh_Inv : Inv fresh.
Proof. split; intros *; cbn; by rewrite lookup_empty. Qed.

Lemma task_path_set pc tk : task_path (set_pc pc tk) = task_path tk.
Proof. done. Qed.

Lemma metadata_set pc tk state wall : metadata (set_pc pc tk) state wall = metadata tk state wall.
Proof. done. Qed.

(** One task moves; the others keep what they rely on. *)
Lemma update_Inv t tk pc s s' :
  Inv s -> clock s' = clock s -> tasks s' = <[t := set_pc pc tk]> (tasks s) ->
  (forall path t', t' <> t -> flocks s' !! path = Some t' <-> flocks s !! path = Some t') ->
  (forall path, flocks s' !! path = Some t <-> owns pc = true /\ path = task_path tk) ->
  (forall t' tk', t' <> t -> tasks s !! t' = Some tk' -> owns (tk_pc tk') = true ->
     files s' !! task_path tk' = files s !! task_path tk') ->
  (forall wall, pc = Holding wall -> files s' !! task_path tk = Some (metadata tk "held" wall)) ->
  pc_timely (clock s) pc -> Inv s'.
Proof.
  intros [Hf Ho Hm Ht] Hc Hts Hothers Hown Hfiles Hheld Hpc. split; rewrite ?Hc, ?Hts.
  - intros path t' Hp. destruct (decide (t' = t)) as [->|Hne].
    + apply Hown in Hp as [Hpc' ->]. exists (set_pc pc tk). by rewrite lookup_insert_eq.
    + apply Hothers in Hp; [|done]. rewrite lookup_insert_ne by done. by apply Hf.
  - intros t' tk' Hl Ho'. destruct (decide (t' = t)) as [->|Hne].
    + rewrite lookup_insert_eq in Hl. injection Hl as <-. by apply Hown.
    + rewrite lookup_insert_ne in Hl by done. apply Hothers; [done|]. by apply Ho.
  - intros t' tk' wall Hl Hw. destruct (decide (t' = t)) as [->|Hne].
    + rewrite lookup_insert_eq in Hl. injection Hl as <-. by apply Hheld.
    + rewrite lookup_insert_ne in Hl by done. erewrite Hfiles; [by eapply Hm|done|done|by rewrite Hw].
  - intros t' tk'. destruct (decide (t' = t)) as [->|Hne].
    + rewrite lookup_insert_eq. by intros [= <-].
    + rewrite lookup_insert_ne by done. apply Ht.
Qed.

(** The lock table read as ownership. *)
Lemma flock_of_task s t tk path :
  Inv s -> tasks s !! t = Some tk -> flocks s !! path = Some t <-> owns (tk_pc tk) = true /\ path = task_path tk.
Proof.
  intros HI Htk. split.
  - intros (tk'&Htk'&?&<-)%(inv_flock _ HI). by simplify_eq.
  - intros [Ho ->]. by apply (inv_owner _ HI).
Qed.

Lemma flock_of_none s t path : Inv s -> tasks s !! t = None -> flocks s !! path <> Some t.
Proof. intros HI Hn (tk'&Htk'&_)%(inv_flock _ HI). congruence. Qed.

Lemma other_path s t tk t' tk' :
  Inv s -> tasks s !! t = Some tk -> owns (tk_pc tk) = true -> t' <> t ->
  tasks s !! t' = Some tk' -> owns (tk_pc tk') = true -> task_path tk' <> task_path tk.
Proof.
  intros HI Ht Ho Hne Ht' Ho' Heq. pose proof (inv_owner _ HI _ _ Ht Ho). pose proof (inv_owner _ HI _ _ Ht' Ho'). congruence.
Qed.

(** A task without the lock moves on without it. *)
Lemma move_Inv t tk pc s :
  Inv s -> tasks s !! t = None \/ (tasks s !! t = Some tk /\ owns (tk_pc tk) = false) ->
  owns pc = false -> pc_timely (clock s) pc -> Inv (move t tk pc s).
Proof.
  intros HI Ht Ho Hpc. apply (update_Inv t tk pc s); try done.
  - intros path. rewrite Ho. split; [|by intros [? _]]. intros Hp. destruct Ht as [Hn|[Htk Hno]].
    + by apply (flock_of_none s t path HI) in Hn.
    + apply (flock_of_task s t tk path HI Htk) in Hp as [? _]. congruence.
  - intros wall ->. done.
Qed.

(** A task ends; its file is closed.  It may have rewritten its lock file if
    it had the lock. *)
Lemma finish_Inv t tk pc s s' :
  Inv s -> tasks s !! t = Some tk -> owns pc = false -> pc_timely (clock s) pc ->
  clock s' = clock s -> flocks s' = flocks s -> tasks s' = tasks s ->
  files s' = files s \/ (owns (tk_pc tk) = true /\ exists b, files s' = <[task_path tk := b]> (files s)) ->
  Inv (finish t tk pc s').
Proof.
  intros HI Ht Ho Hpc Hc Hfl Hts Hfi. apply (update_Inv t tk pc s); cbn; rewrite ?Hfl, ?Hts; try done.
  - intros path t' Hne. rewrite map_lookup_filter_Some. cbn. naive_solver.
  - intros path. rewrite map_lookup_filter_Some. cbn. rewrite Ho. naive_solver.
  - intros t' tk' Hne Ht' Ho'. destruct Hfi as [->|[Hown (b&->)]]; [done|].
    rewrite lookup_insert_ne; [done|]. symmetry. by apply (other_path s t tk t' tk').
  - intros wall ->. done.
Qed.

(** An owner that keeps the lock rewrites its file. *)
Lemma rewrite_Inv t tk pc b s :
  Inv s -> tasks s !! t = Some tk -> owns (tk_pc tk) = true -> owns pc = true -> pc_timely (clock s) pc ->
  (forall wall, pc = Holding wall -> b = metadata tk "held" wall) ->
  Inv (move t tk pc {| clock := clock s; flocks := flocks s; files := <[task_path tk := b]> (files s); tasks := tasks s |}).
Proof.
  intros HI Ht Hown Ho Hpc Hb. apply (update_Inv t tk pc s); cbn; try done.
  - intros path. rewrite (flock_of_task s t tk path HI Ht), Hown, Ho. done.
  - intros t' tk' Hne Ht' Ho'. rewrite lookup_insert_ne; [done|]. symmetry. by apply (other_path s t tk t' tk').
  - intros wall ->. rewrite lookup_insert_eq. f_equal. by apply Hb.
Qed.

Lemma take_Inv t tk s :
  Inv s -> tasks s !! t = Some tk -> owns (tk_pc tk) = false -> flocks s !! task_path tk = None ->
  Inv (move t tk Owning (take_lock t (task_path tk) s)).
Proof.
  intros HI Ht Hno Hfree. apply (update_Inv t tk Owning s); cbn; try done.
  - intros path t' Hne. rewrite lookup_insert_Some. split; [naive_solver|].
    intros Hp. right. split; [congruence|done].
  - intros path. rewrite lookup_insert_Some. split; [|naive_solver].
    intros [[-> _]|[_ Hp]]; [done|]. apply (flock_of_task s t tk path HI Ht) in Hp as [? _]. congruence.
Qed.

Lemma tick_Inv elapsed s :
  Inv s -> Inv {| clock := clock s + elapsed; flocks := flocks s; files := files s; tasks := tasks s |}.
Proof.
  intros [Hf Ho Hm Ht]. split; cbn; try done. intros t tk Htk%Ht. destruct (tk_pc tk); cbn in *; lia.
Qed.

Lemma died_Inv pid s s' : Inv s -> step (Died pid) s = Some s' -> Inv s'.
Proof.
  intros [Hf Ho Hm Ht] [= <-]. split; cbn.
  - intros path t [Hp Hd]%map_lookup_filter_Some. cbn in Hd. apply Hf in Hp as (tk&Htk&Hown&Hpath).
    rewrite Htk in Hd. exists tk. split; [|done]. by rewrite lookup_fmap, Htk; cbn; rewrite Hd.
  - intros t tk. rewrite lookup_fmap. destruct (tasks s !! t) as [tk0|] eqn:E; [|done]. cbn.
    case_bool_decide as Hp; intros [= <-] Hown; [done|]. apply map_lookup_filter_Some. split; [by apply Ho|].
    cbn. rewrite E. by apply bool_decide_eq_false.
  - intros t tk wall. rewrite lookup_fmap. destruct (tasks s !! t) as [tk0|] eqn:E; [|done]. cbn.
    case_bool_decide as Hp; intros [= <-] Hw; [done|]. by eapply Hm.
  - intros t tk. rewrite lookup_fmap. destruct (tasks s !! t) as [tk0|] eqn:E; [|done]. cbn.
    case_bool_decide as Hp; intros [= <-]; [done|]. by eapply Ht.
Qed.

Hypothesis poll_positive : (0 < poll_interval self)%N.

Lemma opened_Inv t tk file s :
  Inv s -> tasks s !! t = Some tk -> tk_pc tk = Ready -> Inv (opened t tk file s).
Proof.
  intros HI Ht Hpc. unfold opened. destruct (open_lock_file _ _ _); [|by eapply finish_Inv; eauto].
  destruct (_ <? _)%N; [by eapply finish_Inv; eauto|].
  apply move_Inv; [done|right; by rewrite Hpc|done|]. cbn. lia.
Qed.

Lemma polled_Inv t tk started polls cancelled refused s :
  Inv s -> tasks s !! t = Some tk -> tk_pc tk = Trying started polls ->
  Inv (polled t tk started polls cancelled refused s).
Proof.
  intros HI Ht Hpc. unfold polled. destruct cancelled; [by eapply finish_Inv; eauto|].
  destruct refused; [by eapply finish_Inv; eauto|].
  destruct (flocks s !! task_path tk) eqn:E; [|by apply take_Inv; rewrite ?Hpc].
  destruct (N.leb_spec (started + wait_timeout self) (clock s)); [by eapply finish_Inv; eauto|].
  apply move_Inv; [done|right; by rewrite Hpc|done|].
  apply (inv_timely _ HI) in Ht. rewrite Hpc in Ht. cbn in *. lia.
Qed.

Lemma woken_Inv t tk started polls until s :
  Inv s -> tasks s !! t = Some tk -> tk_pc tk = Sleeping started polls until -> (until <= clock s)%N ->
  Inv (move t tk (Trying started (polls + 1)) s).
Proof.
  intros HI Ht Hpc Hu. apply move_Inv; [done|right; by rewrite Hpc|done|].
  apply (inv_timely _ HI) in Ht. rewrite Hpc in Ht. cbn in *. lia.
Qed.

Lemma step_Inv ev s s' : Inv s -> step ev s = Some s' -> Inv s'.
Proof.
  intros HI Hs. destruct ev as [el|t dev op cid pid|t fd|t c r|t c|t w fd|t w fd|t fd|t|pid];
    [injection Hs as <-; by apply tick_Inv| |..|by eapply died_Inv]; cbn in Hs.
  { destruct (tasks s !! t) eqn:E; [done|]. injection Hs as <-. apply move_Inv; [done|by left|done|done]. }
  all: apply bind_Some in Hs as (tk&Ht&Hs); destruct (tk_pc tk) eqn:Hpc; try done.
  - injection Hs as <-. by apply opened_Inv.
  - injection Hs as <-. by apply polled_Inv.
  - destruct c; [injection Hs as <-; by eapply finish_Inv; eauto|].
    destruct (N.leb_spec until (clock s)); [|done]. injection Hs as <-. by eapply woken_Inv.
  - injection Hs as <-. destruct fd as [[err rest]|].
    + apply (finish_Inv t tk _ s); try done. right. rewrite Hpc. split; [done|]. by exists rest.
    + apply rewrite_Inv; rewrite ?Hpc; try done. by intros wall [= ->].
  - injection Hs as <-. apply rewrite_Inv; by rewrite ?Hpc.
  - injection Hs as <-. by eapply finish_Inv; eauto.
  - injection Hs as <-. by eapply finish_Inv; eauto.
  - injection Hs as <-. by eapply finish_Inv; eauto.
Qed.

Lemma run_Inv evs s s' : Inv s -> run evs s = Some s' -> Inv s'.
Proof.
  revert s; induction evs as [|ev evs IH]; intros s HI; cbn; [by intros [= <-]|].
  intros (s1&H1&H2)%bind_Some. eapply IH; [|done]. by eapply step_Inv.
Qed.

(** ** What the lock promises *)

(** C26 Mutual exclusion across processes: whatever calls, failures,
    cancellations, abandoned waits and process deaths have happened, while a
    caller has a device's guard no other task of any process has its lock, and
    the lock file names the one that has it. *)
Theorem guard_excludes_others evs s t tk wall :
  run evs fresh = Some s -> tasks s !! t = Some tk -> tk_pc tk = Holding wall ->
  files s !! lock_path (tk_device tk) = Some (metadata tk "held" wall) /\
  forall t' tk', tasks s !! t' = Some tk' -> owns (tk_pc tk') = true -> tk_device tk' = tk_device tk -> t' = t.
Proof.
  intros Hrun Ht Hpc. pose proof (run_Inv _ _ _ fresh_Inv Hrun) as HI. split; [by apply (inv_metadata _ HI t)|].
  intros t' tk' Ht' Ho' Hd. apply (inv_owner _ HI _ _ Ht') in Ho'.
  assert (flocks s !! task_path tk = Some t) as Ho by (apply (inv_owner _ HI); [done|by rewrite Hpc]).
  unfold task_path in *. rewrite Hd in Ho'. congruence.
Qed.

(** Waiting is bounded: a task never tries more often than the timeout has
    poll intervals and two more, each sleep ends before the timeout and one
    interval have passed, and an attempt after the timeout is the last one. *)
Theorem waiting_is_bounded evs s t tk started polls :
  run evs fresh = Some s -> tasks s !! t = Some tk ->
  (tk_pc tk = Trying started polls -> (polls <= wait_timeout self / poll_interval self + 1)%N /\
     (started + wait_timeout self <= clock s ->
      forall c r s', step (Polled t c r) s = Some s' ->
      exists tk', tasks s' !! t = Some tk' /\ (tk_pc tk' = Owning \/ exists e, tk_pc tk' = Returned (Err e)))%N) /\
  (forall until, tk_pc tk = Sleeping started polls until ->
     (until < started + wait_timeout self + poll_interval self)%N).
Proof.
  intros Hrun Ht. pose proof (run_Inv _ _ _ fresh_Inv Hrun) as HI.
  pose proof (inv_timely _ HI _ _ Ht) as Htime. split.
  - intros Hpc. rewrite Hpc in Htime. destruct Htime as [_ Hlt]. split.
    + pose proof (N.div_mod (wait_timeout self) (poll_interval self)).
      pose proof (N.mod_lt (wait_timeout self) (poll_interval self)). nia.
    + intros Hlate c r s'. cbn. rewrite Ht. cbn. rewrite Hpc. intros [= <-]. unfold polled.
      destruct c; [eexists; split; [apply lookup_insert_eq|right; eauto]|].
      destruct r; [eexists; split; [apply lookup_insert_eq|right; eauto]|].
      destruct (flocks s !! task_path tk); [|eexists; split; [apply lookup_insert_eq|by left]].
      destruct (N.leb_spec (started + wait_timeout self) (clock s)); [|lia].
      eexists; split; [apply lookup_insert_eq|right; eauto].
  - intros u Hpc. rewrite Hpc in Htime. apply Htime.
Qed.

Lemma lock_path_inj d d' : lock_path d = lock_path d' -> sha256 d = sha256 d'.
Proof.
  unfold lock_path. intros E%str_app_inj_l%str_app_inj_l%str_app_inj_r. by apply bytes_hex_inj.
Qed.

(** A lock is refused only while another task has it for the same device:
    an attempt that is neither cancelled nor refused by the system takes the
    lock unless such a task exists.  As long as no two devices in use have the
    same digest, devices do not block one another. *)
Theorem refused_only_for_a_holder evs s t tk started polls s' :
  (forall t' tk', tasks s !! t' = Some tk' -> sha256 (tk_device tk') = sha256 (tk_device tk) -> tk_device tk' = tk_device tk) ->
  run evs fresh = Some s -> tasks s !! t = Some tk -> tk_pc tk = Trying started polls ->
  step (Polled t false None) s = Some s' ->
  (exists tk', tasks s' !! t = Some tk' /\ tk_pc tk' = Owning /\ flocks s' !! lock_path (tk_device tk) = Some t) \/
  (exists t' tk', t' <> t /\ tasks s !! t' = Some tk' /\ owns (tk_pc tk') = true /\ tk_device tk' = tk_device tk).
Proof.
  intros Hinj Hrun Ht Hpc. pose proof (run_Inv _ _ _ fresh_Inv Hrun) as HI. cbn. rewrite Ht. cbn. rewrite Hpc.
  intros [= <-]. unfold polled. destruct (flocks s !! task_path tk) as [t'|] eqn:E.
  - right. apply (inv_flock _ HI) in E as (tk'&Ht'&Ho&Hp). exists t', tk'. split_and!; try done.
    + intros ->. assert (tk' = tk) as -> by congruence. by rewrite Hpc in Ho.
    + by apply (Hinj t'), lock_path_inj.
  - left. exists (set_pc Owning tk). cbn. by rewrite !lookup_insert_eq.
Qed.

(** The close of a task's file frees its lock and no other. *)
Lemma closed_is_free t tk pc s path : flocks s !! path = Some t -> flocks (finish t tk pc s) !! path = None.
Proof. intros Hp. apply map_lookup_filter_None. right. intros t' Ht'. cbn. naive_solver. Qed.

Lemma kept_by_others t t0 s s' path :
  t0 <> t -> flocks s !! path = Some t ->
  flocks s' = flocks s \/ (exists p, flocks s !! p = None /\ flocks s' = <[p := t0]> (flocks s)) \/
  flocks s' = base.filter (fun kv => kv.2 <> t0) (flocks s) ->
  flocks s' !! path = Some t.
Proof.
  intros Hne Hp [->|[(p&Hfree&->)| ->]]; [done| |].
  - rewrite lookup_insert_ne; [done|congruence].
  - apply map_lookup_filter_Some. split; [done|]. cbn. congruence.
Qed.

(** A lock changes hands only by being free in between, and becomes free
    only when its holder drops its guard, fails to write its lock file or
    dies. *)
Theorem lock_is_released_by_its_holder evs s ev s' path t :
  run evs fresh = Some s -> step ev s = Some s' -> flocks s !! path = Some t ->
  flocks s' !! path = Some t \/
  (flocks s' !! path = None /\
   ((exists failed, ev = Unlocked t failed) \/ (exists wall failed, ev = Wrote t wall (Some failed)) \/
    exists tk, tasks s !! t = Some tk /\ ev = Died (tk_pid tk))).
Proof.
  intros Hrun Hs Hp. pose proof (run_Inv _ _ _ fresh_Inv Hrun) as HI.
  destruct (inv_flock _ HI _ _ Hp) as (tk&Ht&Ho&_).
  destruct ev as [el|t0 dev op cid pid|t0 fd|t0 c r|t0 c|t0 w fd|t0 w fd|t0 fd|t0|pid]; [injection Hs as <-; by left| |..|].
  { cbn in Hs. destruct (tasks s !! t0); [done|]. injection Hs as <-. by left. }
  all: try (cbn in Hs; apply bind_Some in Hs as (tk0&Ht0&Hs); destruct (tk_pc tk0) eqn:Hpc; try done;
            (destruct (decide (t0 = t)) as [->|Hne]; [assert (tk0 = tk) as -> by congruence; rewrite Hpc in Ho; try done|])).
  all: try (left; unfold opened, polled in Hs; repeat case_match; simplify_eq;
            (eapply kept_by_others; [exact Hne|exact Hp|cbn; eauto 6])).
  - injection Hs as <-. destruct fd as [fd|]; [right|by left]. destruct fd as [err rest].
    split; [apply closed_is_free|right; left; eauto]. done.
  - injection Hs as <-. by left.
  - injection Hs as <-. right. split; [by apply closed_is_free|left; eauto].
  - injection Hs as <-. cbn. destruct (decide (tk_pid tk = pid)) as [<-|Hne].
    + right. split; [|right; right; eauto]. apply map_lookup_filter_None. right. intros t' Ht'.
      assert (t' = t) as -> by congruence. cbn. rewrite Ht. by rewrite bool_decide_eq_true_2.
    + left. apply map_lookup_filter_Some. split; [done|]. cbn. rewrite Ht. by rewrite bool_decide_eq_false_2.
Qed.

End locking.
