(* ===== verification/InventoryWitnesses.v ===== *)
(** * Inventories and locks on concrete inputs

    A flat Junos inventory that is loaded, migrated and migrated again, a
    migration overtaken by another writer and one that may not give the file
    back, two processes after the same device, and the theorems of Inventory.v,
    Migration.v and DeviceLock.v applied to them. *)

From S2P Require Import Prelude Externals Json Secret Scope TokenFile Boundary Inventory Migration Digest DeviceLock BoundaryWitnesses.

Open Scope list_scope.

#[local] Existing Instance toy_externals.
#[local] Existing Instance toy_text.
#[local] Existing Instance toy_text_laws.

#[local] Instance toy_text_dec : EqDecision text.
Proof.
  intros x y. destruct (decide (to_vec x = to_vec y)) as [E|E]; [left|right; congruence].
  destruct toy_externals_laws as [Hinj _ _]. by apply Hinj.
Defined.

(** A device is its host, a policy its blocklist text. *)
Definition host_of (j : json) : result string string :=
  ok_or (json_get "host" j ≫= json_as_str) "missing field `host`".

Definition device (host : string) : json := JObject [("host", JString host); ("notes", JString "rack 4")].

Definition flat : json := JObject
  [("edge-fw", device "10.0.0.1"); (BLOCKLIST_DEFAULTS, JString "reboot"); ("core-fw", device "10.0.0.2")].

Definition service_file (j : json) : File text :=
  {| f_type := RegularFile; f_mode := 33152; f_uid := 1000; f_gid := 1000;
     f_size := text_len j; f_read_len := text_len j; f_data := j |}.

Definition etc : gmap string (File text) := {[ "devices.json" := service_file flat ]}.

(** Root migrates, undisturbed. *)
Definition root_env (others : Step -> gmap string (File text) -> gmap string (File text))
  (fails : Step -> option string) : Env :=
  {| euid := 0; new_owner := (0, 0)%N; others := others; fails := fails; written := JNull |}.

Definition nobody (_ : Step) (d : gmap string (File text)) := d.
Definition healthy (_ : Step) : option string := None.

Definition migrate (e : Env) : result MigrationReport InventoryError * gmap string (File text) :=
  migrate_to_canonical host_of string_deserialize e "devices.json" etc.

Definition done_report : MigrationReport :=
  {| converted := true; backup := Some "devices.pre-canonical"; report_devices := 2 |}.

Definition migrated : gmap string (File text) := (migrate (root_env nobody healthy)).2.

Lemma migrated_ok : migrate (root_env nobody healthy) = (Ok done_report, migrated).
Proof. vm_compute. reflexivity. Qed.

Lemma migrated_size :
  match migrated !! "devices.json" with Some f => (f_size f <=? default_limit)%N | None => false end = true.
Proof. vm_compute. reflexivity. Qed.

Definition inventory_of (d : gmap string (File text)) : result (FileInventory (D := string) (P := string)) InventoryError :=
  load host_of string_deserialize 1000 "devices.json" (open_entry "devices.json" d).


Example migrated_loads :
  inventory_of migrated = inventory_of etc /\
  (names <$> match inventory_of migrated with Ok inv => Some inv | Err _ => None end) = Some ["core-fw"; "edge-fw"] /\
  (f_data <$> migrated !! "devices.json") = Some (JObject
    [("version", JNumber "1"); ("policy", JString "reboot");
     ("devices", JObject [("core-fw", device "10.0.0.2"); ("edge-fw", device "10.0.0.1")])]).
Proof. vm_compute. repeat split; reflexivity. Qed.

Lemma migration_is_idempotent_witness :
  migrate_to_canonical host_of string_deserialize (root_env nobody healthy) "devices.json" migrated
  = (Ok {| converted := false; backup := None; report_devices := 2 |}, migrated).
Proof.
  apply (migration_is_idempotent host_of string_deserialize (root_env nobody healthy)
           "devices.json" etc done_report migrated toy_text_laws).
  - intros s d. reflexivity.
  - reflexivity.
  - exact migrated_ok.
  - reflexivity.
  - intros f' Hf'. apply N.leb_le. pose proof migrated_size as Hs. rewrite Hf' in Hs. exact Hs.
Defined.

(** A full disk when the new file is written. *)
Definition disk_full (s : Step) : option string := match s with WriteTemp => Some "No space left on device" | _ => None end.

Lemma failed_migration_keeps_the_file_witness :
  (migrate (root_env nobody disk_full)).2 !! "devices.json" = etc !! "devices.json".
Proof.
  apply (failed_migration_keeps_the_file host_of string_deserialize (root_env nobody disk_full))
    with (path := "devices.json") (err := ParseError "could not write devices.json: No space left on device").
  - intros s d. reflexivity.
  - reflexivity.
  - reflexivity.
  - discriminate.
  - vm_compute. reflexivity.
Defined.

(** *** Two things the comments of file.rs exclude *)

(** An [add_device] that lands between the two reads, the second of which the
    later comparison is against. *)
Definition with_new_device : json := JObject
  [("edge-fw", device "10.0.0.1"); (BLOCKLIST_DEFAULTS, JString "reboot"); ("core-fw", device "10.0.0.2");
   ("lab-fw", device "10.0.0.3")].

Definition adds_device (s : Step) (d : gmap string (File text)) : gmap string (File text) :=
  match s with SecondRead => <["devices.json" := service_file with_new_device]> d | _ => d end.

(** The migration reports success, and the device is gone. *)
Lemma migration_can_lose_an_update :
  (migrate (root_env adds_device healthy)).1 = Ok done_report /\
  (f_data <$> (migrate (root_env adds_device healthy)).2 !! "devices.json") = (f_data <$> migrated !! "devices.json").
Proof. vm_compute. split; reflexivity. Qed.

(** The owner cannot be restored: the migration fails with the file replaced
    and the service shut out of it. *)
Definition no_chown (s : Step) : option string := match s with Chown => Some "Operation not permitted" | _ => None end.

Lemma failed_migration_can_shut_out_the_service :
  is_ok (migrate (root_env nobody no_chown)).1 = false /\
  is_ok (inventory_of etc) = true /\ is_ok (inventory_of (migrate (root_env nobody no_chown)).2) = false.
Proof. vm_compute. repeat split; reflexivity. Qed.

(** ** Reload *)

Definition live0 : Live (D := string) (P := string) :=
  {| on_disk := open_entry "devices.json" etc;
     inner := {| source := "devices.json"; devices := {[ "edge-fw" := "10.0.0.1"; "core-fw" := "10.0.0.2" ]}; policy := Some "reboot" |};
     parsed_by := ∅ |}.

Lemma live_inventory_was_on_disk_witness :
  exists opened, opened ∈ [open_entry "devices.json" migrated; on_disk live0] /\
    load host_of string_deserialize 1000 (source (inner live0)) opened = Ok (inner live0).
Proof.
  apply (live_inventory_was_on_disk host_of string_deserialize 1000 live0 _
    {| on_disk := open_entry "devices.json" migrated; inner := inner live0; parsed_by := parsed_by live0 |}).
  - reflexivity.
  - vm_compute. reflexivity.
  - apply (run_step _ _ _ live0 [on_disk live0] live0
      {| on_disk := open_entry "devices.json" migrated; inner := inner live0; parsed_by := parsed_by live0 |});
      constructor.
Defined.

(** ** Locks *)

Definition locks : FlockDeviceLock :=
  {| directory := "/var/lib/mecmcp/device-locks"; wait_timeout := DEFAULT_WAIT_TIMEOUT; poll_interval := DEFAULT_POLL_INTERVAL |}.

(** Process 1 takes the lock, process 2 waits and sleeps. *)
Definition contention : list Event :=
  [Call 1 "edge-fw" "upgrade" "c-1" 1; Call 2 "edge-fw" "reboot" "c-2" 2;
   Opened 1 (Ok (Ok true)); Opened 2 (Ok (Ok true)); Polled 1 false None; Wrote 1 1700000000000 None; Polled 2 false None;
   Tick DEFAULT_POLL_INTERVAL; Woken 2 false].

Definition lock_run (evs : list Event) : LockDir := default fresh (run locks u64_max evs fresh).

Definition holder : Task := default {| tk_device := ""; tk_operation := ""; tk_correlation_id := ""; tk_pid := 0; tk_pc := Gone |}
  (tasks (lock_run contention) !! 1).
Definition waiter : Task := default holder (tasks (lock_run contention) !! 2).

Lemma contention_runs : run locks u64_max contention fresh = Some (lock_run contention).
Proof. vm_compute. reflexivity. Qed.

Lemma holder_task : tasks (lock_run contention) !! 1 = Some holder.
Proof. vm_compute. reflexivity. Qed.

Lemma holder_holds : tk_pc holder = Holding 1700000000000.
Proof. vm_compute. reflexivity. Qed.

Lemma holder_locks : flocks (lock_run contention) !! lock_path locks "edge-fw" = Some 1.
Proof. vm_compute. reflexivity. Qed.

Lemma waiter_task : tasks (lock_run contention) !! 2 = Some waiter.
Proof. vm_compute. reflexivity. Qed.

Lemma waiter_tries : tk_pc waiter = Trying 0 1.
Proof. vm_compute. reflexivity. Qed.

Lemma guard_excludes_others_witness :
  files (lock_run contention) !! lock_path locks (tk_device holder) = Some (metadata holder "held" 1700000000000) /\
  forall t' tk', tasks (lock_run contention) !! t' = Some tk' -> owns (tk_pc tk') = true -> tk_device tk' = tk_device holder -> t' = 1.
Proof.
  apply (guard_excludes_others locks u64_max ltac:(reflexivity) contention (lock_run contention) 1 holder).
  - exact contention_runs.
  - exact holder_task.
  - exact holder_holds.
Defined.

Lemma waiting_is_bounded_witness :
  tk_pc waiter = Trying 0 1 /\ (1 <= wait_timeout locks / poll_interval locks + 1)%N.
Proof.
  split; [exact waiter_tries|].
  apply (waiting_is_bounded locks u64_max ltac:(reflexivity) contention (lock_run contention) 2 waiter 0 1).
  - exact contention_runs.
  - exact waiter_task.
  - exact waiter_tries.
Defined.

(** The holder's process dies; the waiter's next attempt takes the lock. *)
Definition after_death : list Event := contention ++ [Died 1].

Lemma after_death_run : run locks u64_max after_death fresh = Some (lock_run after_death).
Proof. vm_compute. reflexivity. Qed.

Lemma death_step : step locks u64_max (Died 1) (lock_run contention) = Some (lock_run after_death).
Proof. vm_compute. reflexivity. Qed.

Lemma waiter_polls :
  step locks u64_max (Polled 2 false None) (lock_run after_death) = Some (lock_run (after_death ++ [Polled 2 false None])).
Proof. vm_compute. reflexivity. Qed.

Lemma waiter_still_waits : tasks (lock_run after_death) !! 2 = Some waiter.
Proof. vm_compute. reflexivity. Qed.

Lemma devices_after_death :
  map_to_list (tk_device <$> tasks (lock_run after_death)) = [(2, "edge-fw"); (1, "edge-fw")].
Proof. vm_compute. reflexivity. Qed.

Lemma refused_only_for_a_holder_witness :
  (exists tk', tasks (lock_run (after_death ++ [Polled 2 false None])) !! 2 = Some tk' /\ tk_pc tk' = Owning /\
     flocks (lock_run (after_death ++ [Polled 2 false None])) !! lock_path locks (tk_device waiter) = Some 2) \/
  (exists t' tk', t' <> 2 /\ tasks (lock_run after_death) !! t' = Some tk' /\ owns (tk_pc tk') = true /\
     tk_device tk' = tk_device waiter).
Proof.
  apply (refused_only_for_a_holder locks u64_max ltac:(reflexivity) after_death (lock_run after_death) 2 waiter 0 1).
  - intros t' tk' Ht' _.
    assert ((t', tk_device tk') ∈ [(2, "edge-fw"); (1, "edge-fw")]) as Hin.
    { rewrite <-devices_after_death. apply elem_of_map_to_list. rewrite lookup_fmap, Ht'. reflexivity. }
    repeat (apply elem_of_cons in Hin as [[= -> ->]|Hin]; [vm_compute; reflexivity|]).
    destruct (proj1 (elem_of_nil _) Hin).
  - exact after_death_run.
  - exact waiter_still_waits.
  - exact waiter_tries.
  - exact waiter_polls.
Defined.

Lemma lock_is_released_by_its_holder_witness :
  let s := lock_run contention in let s' := lock_run after_death in let path := lock_path locks "edge-fw" in
  flocks s' !! path = Some 1 \/
  (flocks s' !! path = None /\
   ((exists failed, Died 1 = Unlocked 1 failed) \/ (exists wall failed, Died 1 = Wrote 1 wall (Some failed)) \/
    exists tk, tasks s !! 1 = Some tk /\ Died 1 = Died (tk_pid tk))).
Proof.
  apply (lock_is_released_by_its_holder locks u64_max ltac:(reflexivity) contention).
  - exact contention_runs.
  - exact death_step.
  - exact holder_locks.
Defined.
